(* ===== verification/_CoqProject ===== *)
-Q . S2P
Prelude.v
Bytes.v
Ids.v
Buf.v
TablePage.v
TablePageProofs.v
TablePageUpdate.v
TablePageTheorems.v
TableHeap.v
SlotStore.v
TableHeapProofs.v
TableHeapScan.v
TableHeapTheorems.v
Replacer.v
ReplacerLinks.v
ReplacerCore.v
ReplacerSpec.v
ReplacerProofs.v
ReplacerArena.v
ReplacerTheorems.v
Transaction.v
TxnManager.v
Mvcc.v
MvccSpec.v
MvccInv.v
MvccSteps.v
MvccOps.v
MvccTheorems.v
MvccWitness.v
Files.v
Wal.v
WalCrc.v
WalCodec.v
WalReplay.v
WalTxns.v
WalInv.v
WalOps.v
WalOpen.v
WalTheorems.v
WalWitness.v
Str.v
Timestamp.v
TimestampTheorems.v
Float64.v
Values.v
ValueKeys.v
ValueTuples.v
ValueTheorems.v
Recovery.v
RecoveryTheorems.v
Slotted.v
SlottedProofs.v
BPlusPage.v
PageView.v
BPlusKeys.v
PageViewProofs.v
LeafContents.v
LeafViewProofs.v
PageCodecProofs.v
BPlusSplit.v
InternalOps.v
BPlusTheorems.v
BPlusTree.v
BPlusTreeInv.v
BPlusTreeWalk.v
BPlusTreeSplit.v
BPlusTreeLatch.v
BPlusTreeInsert.v
BPlusTreeGrow.v
BPlusTreeScan.v
LeafMerge.v
BPlusTreeBorrow.v
BPlusTreeRebalance.v
BPlusTreeRebalanceLeaf.v
BPlusTreeRemove.v
BPlusTreeTheorems.v
