(* ===== verification/Prelude.v ===== *)
(** * cmudb: a verification development of the storage engine

    cmudb is a small relational database in Rust. This library models its storage engine and
    transaction layer, and proves what the layers promise each other. Paths below are those
    of the repository: [src/replacer.rs] is the file of that name in the crate, which lies in
    the directory [src/] of the repository.

    ** The program and its model

    A value of the crate's [Result] is an [outcome] here: [Ok], [Err], or [Panic] for a call
    that does not return (a failed assertion, an index out of range, an overflow with
    overflow checks on, as in a debug build). Code that changes state is a function from the
    state to an outcome and the state after it, [M S E A], with the state kept also when the
    call fails. Integers are [Z] or [nat] with their width written out wherever the code
    depends on it; a buffer is a list of integers below 256. Operations keep the names of
    the source. A loop is a [Fixpoint] with fuel; each theorem says how much is enough, or
    the definition supplies a bound that is.

    - Bytes and ids. [Bytes], [Buf] and [Ids] are slices, cursors and little-endian accessors
      ([src/buf.rs]), and page and record ids ([src/ids.rs]).
    - Table pages. [TablePage] is [src/table_page.rs] on the bytes of a page. [TablePageProofs]
      and [TablePageUpdate] read a page as the list of its tuples; [TablePageTheorems] has the
      claims.
    - Table heaps. [TableHeap] is [src/table_heap.rs]: chains of table pages over a page pool.
      [TableHeapProofs], [TableHeapScan] and [TableHeapTheorems] read a heap as a list of rows.
    - Replacer. [Replacer] is [src/replacer.rs], an arena of linked nodes. [ReplacerSpec] is the
      adaptive replacement cache on four lists; [ReplacerLinks], [ReplacerCore],
      [ReplacerProofs] and [ReplacerTheorems] are the refinement between them, [ReplacerArena]
      says that the lists determine the arena and how it grows.
    - Transactions. [Transaction], [TxnManager] and [Mvcc] are [src/concurrency/]. [MvccSpec] is
      a machine of snapshot isolation; [MvccInv], [MvccSteps], [MvccOps] and [MvccTheorems]
      show that every interleaving of critical sections is a run of it, failed commits that
      leave slots stamped included; [MvccWitness] is a run of two transactions.
    - Recovery of tables. [Recovery] is [roll_back_recovered] of
      [src/concurrency/transaction_manager.rs]; [RecoveryTheorems] has the claim.
    - Write-ahead log. [Files] is the part of the file system that the log uses, with failing
      calls and power failures; [Wal] is [src/wal.rs]. [WalCrc], [WalCodec], [WalReplay],
      [WalTxns], [WalInv], [WalOps], [WalOpen] build up to the claims of
      [WalTheorems]; [WalWitness] is a run.
    - Values. [Str] and [Float64] are strings and floating point; [Timestamp] is
      [src/catalog/timestamp.rs], [Values] is [src/catalog/mod.rs]. [ValueKeys], [ValueTuples],
      [ValueTheorems] and [TimestampTheorems] have the claims.
    - Pages of the index. [Slotted], [BPlusPage] and [PageView] are [src/index/slotted.rs],
      [src/index/b_plus_page.rs] with [src/index/page_codec.rs], and [src/index/page_view.rs].
      [SlottedProofs], [BPlusKeys], [PageViewProofs], [LeafContents], [LeafMerge],
      [LeafViewProofs], [PageCodecProofs], [InternalOps] and [BPlusSplit] read a leaf as a
      finite map; [BPlusTheorems] has the claims.
    - The index. [BPlusTree] is [src/index/b_plus_tree.rs], [src/index/context.rs] and the
      errors of [src/index/mod.rs]. [BPlusTreeInv] and [BPlusTreeWalk] say what it means that
      pages hold a tree with the entries of a map; [BPlusTreeLatch], [BPlusTreeSplit],
      [BPlusTreeInsert] and [BPlusTreeGrow] are inserts, [BPlusTreeBorrow],
      [BPlusTreeRebalance], [BPlusTreeRebalanceLeaf] and [BPlusTreeRemove] are removes,
      [BPlusTreeScan] scans and creation; [BPlusTreeTheorems] has the claims.

    ** How the parts meet

    [PagePool] (in [TableHeap]) is the buffer pool as its clients see it: pages by id, reads
    and writes of a page under its latch, allocation and deletion, each of which may fail with
    an error of the pool. [PagePoolLaws] says what a call does to the pages; [MapPool] is an
    instance, so the laws can hold. Table heaps and the index are proved against the
    interface. [SlotStore] is table storage as the transaction layer sees it; table heaps are
    shown to be one ([heap_slot_store_laws]), and the transaction layer is proved against its
    laws. [TableIndexOps] is the index as [Mvcc] calls it.

    ** What the theorems show

    - C1 to C3: a table page is a list of tuples, of which an earlier version can always be
      put back; it is always readable.
    - C4 to C8: the replacer is the adaptive replacement cache, undoes an eviction that is not
      committed to the last node, and stays within its bounds, its arena included.
    - C9 to C12: a table heap is a list of rows, under every failure of the pool and for record
      ids that name no row; a scan sees the rows it began with, whatever is appended between
      its steps.
    - C13 to C19: the transaction layer has snapshot isolation: reads are repeatable, a row has
      one writer, commits and aborts are atomic, garbage collection is not seen. A commit that
      could not take its stamps back leaves rows that the next commit publishes: the machine
      of [MvccSpec] has a step for it, and C15 to C17 say what holds of those rows.
    - C20 to C25: after any failures and power failures the log opens on the state of a
      durable point that was asked for, and never on one before the last acknowledged; torn
      and changed records are not read.
    - C26 to C31: the calendar is the Gregorian one; timestamps and rows are read back as
      they were written; conversions respect types, and comparison is the order of the values
      and of their index keys.
    - C32: rolling back what a crash left open restores the tables.
    - C33 to C37: the bytes of an index page are a finite map and survive encoding; the reads
      and changes of a view are those of the decoded page; splits fit; the binary search
      terminates.
    - C38 to C40: a tree of pages is a finite map, for searches, scans, inserts and removes,
      with every split, borrow, merge and change of the root, and only the pool's errors.

    ** Bounds, fuel and conventions

    - Sums of offsets and lengths of buffers are below the width of [usize], so they are
      taken in [Z]; [saturating_add] on them is addition. Everything stored in a page is
      encoded at its width, and an overflow there is an error or a panic as in the code.
    - Ids of transactions and the commit clock are counters far from the ends of their types;
      [MvccInv] states the bounds it uses as hypotheses of a step.
    - A walk down a tree takes as many turns as the tree has levels, a walk along leaves one
      per leaf and entry; C38 to C40 say how much fuel is enough and what is returned.
    - A debug assertion is a panic. The standard library's binary searches are taken on
      sorted lists without duplicates, where what they return is determined.
    - The model of the transaction layer is one table store; operations of the index, and of
      a table heap, run one at a time under their latches, with a scan taking its steps
      between insertions. A latched page is the guard with its bytes.
    - The log runs on files where each call may fail, and a power failure keeps what was synced
      and of the rest anything whose records, where they differ from those that were written,
      fail their checksums ([WalInv.survives], [WalInv.torn_detected]). A failed write may leave a prefix of what it
      wrote; C20 to C22 are about runs where it leaves nothing ([WalOps.clean]), since the
      code overwrites such bytes without cutting the file, and only the checksum of a record
      tells what is left of them from a record.
    - The order of [OrderedFloat] is a parameter with the laws that crate documents; an
      instance shows that they can hold. Floating-point conversions use the standard
      library's specification of IEEE 754.
    - One-line constants of the source are definitions of the same name.

    ** Not modelled

    - [src/parser.rs], [src/planner.rs] and [src/processor/]: SQL text, plans and executors.
      They drive the layers modelled here and keep no durable state of their own.
    - [src/catalog/index_schema.rs]: the table of indexes and their key columns, glue between
      values and the index.
    - [src/buffer_pool.rs] and [src/disk.rs]: frames, pins and latches shared between threads,
      and the thread that serves disk requests. What their clients rely on is [PagePoolLaws];
      that the threads keep it is a matter of the memory model of Rust's locks and channels.
    - [src/database_file.rs], [src/database.rs] and [src/main.rs]: the data file's header and
      free list, the assembly of the parts, and the shell.
    - Logging, [Display] and [From] implementations, and tests. *)

From Stdlib Require Import ZArith Lia.
From stdpp Require Import base list gmap option numbers sorting.

Local Open Scope Z_scope.

(** ** Outcomes of Rust code

    [Ok] and [Err] are the two constructors of Rust's [Result]; [Panic] stands for a call
    that does not return: a failed [assert!], an [expect] on nothing, a slice or index out
    of range, or integer arithmetic that overflows its type with overflow checks on. *)
Inductive outcome (E A : Type) : Type :=
| Ok (a : A)
| Err (e : E)
| Panic.
Arguments Ok {E A} a.
Arguments Err {E A} e.
Arguments Panic {E A}.

#[export] Instance outcome_ret E : MRet (outcome E) := fun A a => Ok a.
#[export] Instance outcome_bind E : MBind (outcome E) := fun A B f m =>
  match m with
  | Ok a => f a
  | Err e => Err e
  | Panic => Panic
  end.
#[export] Instance outcome_fmap E : FMap (outcome E) := fun A B f m =>
  match m with
  | Ok a => Ok (f a)
  | Err e => Err e
  | Panic => Panic
  end.

Definition map_err {E F A} (f : E -> F) (m : outcome E A) : outcome F A :=
  match m with
  | Ok a => Ok a
  | Err e => Err (f e)
  | Panic => Panic
  end.

Definition is_ok {E A} (m : outcome E A) : bool := match m with Ok _ => true | _ => false end.

(** [assert!(b)]. *)
Definition rassert {E} (b : bool) : outcome E unit := if b then Ok tt else Panic.

(** [opt.expect(..)] and [opt.ok_or(e)]. *)
Definition expect {E A} (o : option A) : outcome E A :=
  match o with Some a => Ok a | None => Panic end.

Definition ok_or {E A} (o : option A) (e : E) : outcome E A :=
  match o with Some a => Ok a | None => Err e end.

(** ** Code that mutates [self]

    A method on [&mut self] maps a state to an outcome and the state it leaves behind, on
    the error paths too. *)
Definition M (S E A : Type) : Type := S -> outcome E A * S.

#[export] Instance M_ret S E : MRet (M S E) := fun A a s => (Ok a, s).
#[export] Instance M_bind S E : MBind (M S E) := fun A B f m s =>
  match m s with
  | (Ok a, s') => f a s'
  | (Err e, s') => (Err e, s')
  | (Panic, s') => (Panic, s')
  end.

Definition lift {S E A} (r : S -> outcome E A) : M S E A := fun s => (r s, s).
Definition liftc {S E A} (r : outcome E A) : M S E A := fun s => (r, s).
Definition modify {S E} (f : S -> outcome E S) : M S E unit := fun s =>
  match f s with
  | Ok s' => (Ok tt, s')
  | Err e => (Err e, s)
  | Panic => (Panic, s)
  end.

(** [m.map_err(g)] *)
Definition mapE {S E F A} (g : E -> F) (m : M S E A) : M S F A := fun s =>
  let '(r, s) := m s in (map_err g r, s).

(** A computation on one half of a pair of states, its errors mapped by [g]. *)
Definition on_fst {S T E F A} (g : E -> F) (m : M S E A) : M (S * T) F A := fun st =>
  let '(r, s) := m st.1 in (map_err g r, (s, st.2)).
Definition on_snd {S T E F A} (g : E -> F) (m : M T E A) : M (S * T) F A := fun st =>
  let '(r, t) := m st.2 in (map_err g r, (st.1, t)).

(** ** Running a stateful computation *)

Section run.
Context {S E : Type}.

Lemma bind_Ok {A B} (m : M S E A) (f : A -> M S E B) s a s' :
  m s = (Ok a, s') -> (m ≫= f) s = f a s'.
Proof. unfold mbind, M_bind. by intros ->. Qed.

Lemma bind_Err {A B} (m : M S E A) (f : A -> M S E B) s e s' :
  m s = (Err e, s') -> (m ≫= f) s = (Err e, s').
Proof. unfold mbind, M_bind. by intros ->. Qed.

Lemma bind_lift {A B} (r : S -> outcome E A) (f : A -> M S E B) s a :
  r s = Ok a -> (lift r ≫= f) s = f a s.
Proof. unfold mbind, M_bind, lift. by intros ->. Qed.

Lemma bind_lift_err {A B} (r : S -> outcome E A) (f : A -> M S E B) s e :
  r s = Err e -> (lift r ≫= f) s = (Err e, s).
Proof. unfold mbind, M_bind, lift. by intros ->. Qed.

Lemma bind_liftc {A B} (r : outcome E A) (f : A -> M S E B) s a :
  r = Ok a -> (liftc r ≫= f) s = f a s.
Proof. unfold mbind, M_bind, liftc. by intros ->. Qed.

Lemma bind_liftc_err {A B} (r : outcome E A) (f : A -> M S E B) s e :
  r = Err e -> (liftc r ≫= f) s = (Err e, s).
Proof. unfold mbind, M_bind, liftc. by intros ->. Qed.

Lemma bind_modify {B} (g : S -> outcome E S) (f : unit -> M S E B) s s' :
  g s = Ok s' -> (modify g ≫= f) s = f tt s'.
Proof. unfold mbind, M_bind, modify. by intros ->. Qed.

Lemma modify_Ok (g : S -> outcome E S) s s' : g s = Ok s' -> modify g s = (Ok tt, s').
Proof. unfold modify. by intros ->. Qed.
End run.

(** [mrun tac] runs the next step of a stateful computation; [tac] proves its value. *)
Ltac mrun tac :=
  first
    [ erewrite bind_lift; [|solve [tac]]
    | erewrite bind_liftc; [|solve [tac]]
    | erewrite bind_modify; [|solve [tac]]
    | erewrite modify_Ok; [|solve [tac]] ].

(** ** Hash maps

    The order in which a [HashMap] iterates is not specified. It is a parameter of the code
    that depends on it: the entries in some order. *)
Class MapOrder (K : Type) `{Countable K} := {
  map_entries : forall {A : Type}, gmap K A -> list (K * A);
  map_entries_perm : forall A (m : gmap K A), map_entries m ≡ₚ map_to_list m;
}.

(** A [BTreeMap] keyed by integers iterates by increasing key. *)
Definition by_key {A} (a b : Z * A) : Prop := a.1 <= b.1.
#[export] Instance by_key_dec {A} (a b : Z * A) : Decision (by_key a b) := Z_le_dec a.1 b.1.
Definition btree_entries {A} (m : gmap Z A) : list (Z * A) := merge_sort by_key (map_to_list m).

Lemma btree_entries_perm {A} (m : gmap Z A) : btree_entries m ≡ₚ map_to_list m.
Proof. apply merge_sort_Permutation. Qed.

(** ** Sums of integers *)

Definition zsum (l : list Z) : Z := foldr Z.add 0 l.
#[global] Arguments zsum : simpl never.

Lemma zsum_cons x l : zsum (x :: l) = x + zsum l.
Proof. done. Qed.

Lemma zsum_nil : zsum [] = 0.
Proof. done. Qed.

Lemma zsum_app l1 l2 : zsum (l1 ++ l2) = zsum l1 + zsum l2.
Proof. induction l1; simpl; rewrite ?zsum_cons, ?zsum_nil; lia. Qed.

Lemma zsum_nonneg l : Forall (fun x => 0 <= x) l -> 0 <= zsum l.
Proof. induction 1; rewrite ?zsum_cons, ?zsum_nil; lia. Qed.

Lemma zsum_insert l (i : nat) x y :
  l !! i = Some x -> zsum (<[i := y]> l) = zsum l - x + y.
Proof.
  revert i. induction l as [|z l IH]; intros [|i] H; simplify_eq/=; rewrite !zsum_cons; [lia|].
  rewrite (IH _ H). lia.
Qed.

Lemma zsum_elem_le l (i : nat) x :
  Forall (fun x => 0 <= x) l -> l !! i = Some x -> x <= zsum l.
Proof.
  intros Hl. revert i. induction Hl as [|y l Hy Hl IH]; intros [|i] H; simplify_eq/=;
    rewrite zsum_cons.
  - pose proof (zsum_nonneg _ Hl). lia.
  - specialize (IH _ H). lia.
Qed.

(** ** Lists updated by index *)

Lemma alter_as_insert {A} (f : A -> A) (i : nat) (l : list A) x :
  l !! i = Some x -> alter f i l = <[i := f x]> l.
Proof.
  revert i. induction l as [|y l IH]; intros [|i] H; simplify_eq/=; [done|].
  f_equal. by apply IH.
Qed.

Lemma lookup_alter_if {A} (f : A -> A) (i j : nat) (l : list A) :
  alter f i l !! j = (fun x => if decide (j = i) then f x else x) <$> l !! j.
Proof.
  destruct (decide (j = i)) as [->|Hne].
  - by rewrite list_lookup_alter_eq.
  - rewrite list_lookup_alter_ne by done. by destruct (l !! j).
Qed.
