(* ===== verification/Bytes.v ===== *)
(** * Byte buffers

    A Rust [[u8]] is a list of integers below 256. Offsets and lengths are integers ([usize]
    is 64 bits wide and every offset the code computes is far below that), so slices are
    taken with integer bounds. This file holds the generic part: slices, in-place writes,
    little- and big-endian integers, and the lemmas that let a proof about a page move a
    read past the writes that do not touch it. *)

From Stdlib Require Import ZArith Lia.
From stdpp Require Import base list.
From S2P Require Import Prelude.

Local Open Scope Z_scope.

Abbreviation bytes := (list Z).

(** Length of a list as an integer. A notation, so that [lia] sees it. *)
Abbreviation len l := (Z.of_nat (length l)).

Definition is_byte (b : Z) : Prop := 0 <= b < 256.

(** [buf[off..off + n]], as far as it lies in the buffer. *)
Definition sub (buf : bytes) (off n : Z) : bytes :=
  take (Z.to_nat n) (drop (Z.to_nat off) buf).

(** The buffer with [data] written at [off]. The length never changes: bytes of [data] past
    the end of the buffer are dropped, so that no side condition is needed to know it; the
    checked writes below only use it in range. *)
Definition splice (buf : bytes) (off : Z) (data : bytes) : bytes :=
  let n := Z.to_nat off in
  take n buf ++ take (length buf - n) data ++ drop (n + length data) buf.

Definition byte_at (buf : bytes) (i : Z) : Z := nth (Z.to_nat i) buf 0.

(** [&buf[lo..hi]] *)
Definition slice {E} (buf : bytes) (lo hi : Z) : outcome E bytes :=
  if (0 <=? lo) && (lo <=? hi) && (hi <=? len buf) then Ok (sub buf lo (hi - lo)) else Panic.

(** [buf[i]] *)
Definition index {E} (buf : bytes) (i : Z) : outcome E Z :=
  if (0 <=? i) && (i <? len buf) then Ok (byte_at buf i) else Panic.

(** [buf[lo..hi].copy_from_slice(data)] *)
Definition copy_from_slice {E} (buf : bytes) (lo hi : Z) (data : bytes) : outcome E bytes :=
  if (0 <=? lo) && (lo <=? hi) && (hi <=? len buf) && (hi - lo =? len data)
  then Ok (splice buf lo data) else Panic.

(** [buf[i] = v] *)
Definition set_index {E} (buf : bytes) (i v : Z) : outcome E bytes :=
  if (0 <=? i) && (i <? len buf) then Ok (splice buf i [v]) else Panic.

(** [v.to_le_bytes()] of an [n]-byte unsigned integer, and its inverse. *)
Fixpoint to_le (n : nat) (v : Z) : bytes :=
  match n with
  | O => []
  | S n => v mod 256 :: to_le n (v / 256)
  end.

Fixpoint of_le (l : bytes) : Z :=
  match l with
  | [] => 0
  | b :: l => b + 256 * of_le l
  end.

(** [v.to_be_bytes()] of an [n]-byte unsigned integer. *)
Definition to_be (n : nat) (v : Z) : bytes := rev (to_le n v).

(** ** Slices and writes *)

Lemma nth_take_lt {A} (l : list A) n i d : (i < n)%nat -> nth i (take n l) d = nth i l d.
Proof.
  revert n i. induction l as [|x l IH]; intros [|n] [|i] H; simpl; try lia; auto.
  apply IH. lia.
Qed.

Lemma nth_drop {A} (l : list A) n i d : nth i (drop n l) d = nth (n + i) l d.
Proof.
  revert n. induction l as [|x l IH]; intros [|n]; simpl; auto. destruct i; done.
Qed.

Lemma len_sub buf off n :
  0 <= off -> 0 <= n -> off + n <= len buf -> len (sub buf off n) = n.
Proof. intros. unfold sub. rewrite length_take, length_drop. lia. Qed.

Lemma byte_at_sub buf off n i :
  0 <= off -> 0 <= i < n -> byte_at (sub buf off n) i = byte_at buf (off + i).
Proof.
  intros. unfold byte_at, sub. rewrite nth_take_lt by lia. rewrite nth_drop.
  f_equal. lia.
Qed.

Lemma length_splice buf off data : length (splice buf off data) = length buf.
Proof. unfold splice. rewrite !length_app, !length_take, length_drop. lia. Qed.

Lemma byte_at_splice buf off data i :
  0 <= off -> off + len data <= len buf -> 0 <= i ->
  byte_at (splice buf off data) i =
    if decide (off <= i < off + len data) then byte_at data (i - off) else byte_at buf i.
Proof.
  intros Ho Hl Hi. unfold byte_at, splice. cbv zeta.
  rewrite (take_ge data) by lia.
  destruct (decide (i < off)).
  - rewrite app_nth1 by (rewrite length_take; lia).
    rewrite nth_take_lt by lia. case_decide; [lia|done].
  - rewrite app_nth2 by (rewrite length_take; lia).
    rewrite length_take, Nat.min_l by lia.
    case_decide.
    + rewrite app_nth1 by lia. f_equal. lia.
    + rewrite app_nth2 by lia. rewrite nth_drop. f_equal. lia.
Qed.

Lemma bytes_ext (l1 l2 : bytes) :
  length l1 = length l2 -> (forall i, 0 <= i < len l1 -> byte_at l1 i = byte_at l2 i) ->
  l1 = l2.
Proof.
  intros Hl H. apply (nth_ext l1 l2 0 0); [done|].
  intros n Hn. specialize (H (Z.of_nat n)). unfold byte_at in H.
  rewrite Nat2Z.id in H. apply H. lia.
Qed.

Lemma sub_ext b1 b2 o1 o2 n :
  0 <= o1 -> 0 <= o2 -> 0 <= n -> o1 + n <= len b1 -> o2 + n <= len b2 ->
  (forall i, 0 <= i < n -> byte_at b1 (o1 + i) = byte_at b2 (o2 + i)) ->
  sub b1 o1 n = sub b2 o2 n.
Proof.
  intros ????? H. apply bytes_ext.
  - pose proof (len_sub b1 o1 n). pose proof (len_sub b2 o2 n). lia.
  - intros i. rewrite len_sub by lia. intros Hi. rewrite !byte_at_sub by lia. auto.
Qed.

Lemma sub_nil buf off : sub buf off 0 = [].
Proof. done. Qed.

Lemma sub_all buf : sub buf 0 (len buf) = buf.
Proof. unfold sub. rewrite drop_0, Nat2Z.id. apply firstn_all. Qed.

Lemma sub_splice_same buf off data :
  0 <= off -> off + len data <= len buf -> sub (splice buf off data) off (len data) = data.
Proof.
  intros. apply bytes_ext.
  - pose proof (len_sub (splice buf off data) off (len data)) as Hs.
    rewrite length_splice in Hs. lia.
  - intros i. rewrite len_sub by (rewrite ?length_splice; lia). intros Hi.
    rewrite byte_at_sub, byte_at_splice by lia. case_decide; [|lia]. f_equal. lia.
Qed.

Lemma byte_at_splice_in buf off data i :
  0 <= off -> off + len data <= len buf -> off <= i < off + len data ->
  byte_at (splice buf off data) i = byte_at data (i - off).
Proof. intros. rewrite byte_at_splice by lia. case_decide; [done|lia]. Qed.

Lemma byte_at_splice_out buf off data i :
  0 <= off -> off + len data <= len buf -> 0 <= i -> i < off \/ off + len data <= i ->
  byte_at (splice buf off data) i = byte_at buf i.
Proof. intros. rewrite byte_at_splice by lia. case_decide; [lia|done]. Qed.

Lemma sub_splice_disjoint buf off data o n :
  0 <= off -> off + len data <= len buf -> 0 <= o -> 0 <= n -> o + n <= len buf ->
  o + n <= off \/ off + len data <= o ->
  sub (splice buf off data) o n = sub buf o n.
Proof.
  intros. apply sub_ext; rewrite ?length_splice; try lia.
  intros i Hi. rewrite byte_at_splice by lia. case_decide; [lia|done].
Qed.

Lemma splice_nil buf off : 0 <= off <= len buf -> splice buf off [] = buf.
Proof. intros. unfold splice. simpl. rewrite take_nil, Nat.add_0_r. apply firstn_skipn. Qed.

Lemma sub_sub buf o1 n1 o2 n2 :
  0 <= o1 -> 0 <= o2 -> 0 <= n2 -> o2 + n2 <= n1 -> o1 + n1 <= len buf ->
  sub (sub buf o1 n1) o2 n2 = sub buf (o1 + o2) n2.
Proof.
  intros. apply sub_ext; rewrite ?len_sub; try lia.
  intros i Hi. rewrite byte_at_sub by lia. f_equal. lia.
Qed.

Lemma sub_app buf off n m :
  0 <= off -> 0 <= n -> 0 <= m -> off + n + m <= len buf ->
  sub buf off (n + m) = sub buf off n ++ sub buf (off + n) m.
Proof.
  intros. unfold sub.
  replace (Z.to_nat (n + m)) with (Z.to_nat n + Z.to_nat m)%nat by lia.
  rewrite <- take_take_drop. f_equal. rewrite drop_drop. do 2 f_equal. lia.
Qed.

Lemma sub_app_l (l1 l2 : bytes) : sub (l1 ++ l2) 0 (len l1) = l1.
Proof. unfold sub. rewrite drop_0, Nat2Z.id. apply take_app_length. Qed.

Lemma sub_app_r (l1 l2 : bytes) off n :
  len l1 <= off -> sub (l1 ++ l2) off n = sub l2 (off - len l1) n.
Proof.
  intros. unfold sub. f_equal. rewrite drop_app_ge by lia. f_equal. lia.
Qed.

Lemma sub_app_lt (l1 l2 : bytes) off n :
  0 <= off -> 0 <= n -> off + n <= len l1 -> sub (l1 ++ l2) off n = sub l1 off n.
Proof.
  intros. unfold sub. rewrite drop_app_le by lia.
  rewrite take_app_le; [done|]. rewrite length_drop. lia.
Qed.

(** A write over a region forgets an earlier write inside it. *)
Lemma splice_splice_same buf off d1 d2 :
  0 <= off -> length d1 = length d2 -> off + len d1 <= len buf ->
  splice (splice buf off d1) off d2 = splice buf off d2.
Proof.
  intros. apply bytes_ext.
  - by rewrite !length_splice.
  - intros i Hi. rewrite !byte_at_splice; rewrite ?length_splice; try lia.
    repeat case_decide; try lia; done.
Qed.

(** ** Bytes stay bytes *)

Lemma Forall_sub P buf off n : Forall P buf -> Forall P (sub buf off n).
Proof. intros. unfold sub. by apply Forall_take, Forall_drop. Qed.

Lemma Forall_splice P buf off data :
  Forall P buf -> Forall P data -> Forall P (splice buf off data).
Proof.
  intros. unfold splice. rewrite !Forall_app. auto 7 using Forall_take, Forall_drop.
Qed.

Lemma byte_at_is_byte buf i : Forall is_byte buf -> is_byte (byte_at buf i).
Proof.
  intros H. unfold byte_at. destruct (decide (Z.to_nat i < length buf)%nat) as [Hi|Hi].
  - eapply Forall_forall; [exact H|]. apply list_elem_of_In, nth_In. done.
  - rewrite nth_overflow by lia. unfold is_byte. lia.
Qed.

(** ** Machine integers as bytes *)

Lemma length_to_le n v : length (to_le n v) = n.
Proof. revert v. induction n; simpl; auto. Qed.

Lemma to_le_bytes n v : Forall is_byte (to_le n v).
Proof.
  revert v. induction n as [|n IH]; intros v; simpl; constructor; auto.
  unfold is_byte. apply Z.mod_pos_bound. lia.
Qed.

Lemma of_le_bound l : Forall is_byte l -> 0 <= of_le l < 256 ^ len l.
Proof.
  unfold is_byte. induction 1 as [|b l Hb _ IH]; simpl of_le.
  - simpl. lia.
  - rewrite length_cons, Nat2Z.inj_succ, Z.pow_succ_r by lia. lia.
Qed.

Lemma of_to_le n v : 0 <= v < 256 ^ Z.of_nat n -> of_le (to_le n v) = v.
Proof.
  revert v. induction n as [|n IH]; intros v H.
  - simpl in *. lia.
  - rewrite Nat2Z.inj_succ, Z.pow_succ_r in H by lia. simpl. rewrite IH.
    + pose proof (Z.div_mod v 256). lia.
    + split; [apply Z.div_pos; lia|apply Z.div_lt_upper_bound; lia].
Qed.

Lemma to_of_le l : Forall is_byte l -> to_le (length l) (of_le l) = l.
Proof.
  unfold is_byte. induction 1 as [|b l Hb _ IH]; simpl; [done|].
  f_equal.
  - rewrite (Z.mul_comm 256), Z.mod_add by lia. apply Z.mod_small. lia.
  - rewrite (Z.mul_comm 256), Z.div_add, (Z.div_small b) by lia. exact IH.
Qed.

Lemma of_le_inj l1 l2 :
  Forall is_byte l1 -> Forall is_byte l2 -> length l1 = length l2 ->
  of_le l1 = of_le l2 -> l1 = l2.
Proof.
  intros H1 H2 Hl H. rewrite <- (to_of_le l1), <- (to_of_le l2) by done. congruence.
Qed.

Lemma length_to_be n v : length (to_be n v) = n.
Proof. unfold to_be. rewrite length_rev. apply length_to_le. Qed.

Lemma to_be_bytes n v : Forall is_byte (to_be n v).
Proof. unfold to_be. apply Forall_rev, to_le_bytes. Qed.

(** ** Running checked accesses

    [run] replaces the checked accesses of a computation by their values, discharging the
    range conditions by [lia]. *)

Lemma slice_ok {E} buf lo hi :
  0 <= lo -> lo <= hi -> hi <= len buf -> @slice E buf lo hi = Ok (sub buf lo (hi - lo)).
Proof.
  intros. unfold slice.
  rewrite !(proj2 (Z.leb_le _ _)) by lia. done.
Qed.

Lemma index_ok {E} buf i : 0 <= i -> i < len buf -> @index E buf i = Ok (byte_at buf i).
Proof.
  intros. unfold index. rewrite (proj2 (Z.leb_le _ _)), (proj2 (Z.ltb_lt _ _)) by lia. done.
Qed.

Lemma copy_from_slice_ok {E} buf lo hi data :
  0 <= lo -> hi <= len buf -> hi - lo = len data ->
  @copy_from_slice E buf lo hi data = Ok (splice buf lo data).
Proof.
  intros. unfold copy_from_slice.
  rewrite !(proj2 (Z.leb_le _ _)), (proj2 (Z.eqb_eq _ _)) by lia. done.
Qed.

Lemma set_index_ok {E} buf i v :
  0 <= i -> i < len buf -> @set_index E buf i v = Ok (splice buf i [v]).
Proof.
  intros. unfold set_index.
  rewrite (proj2 (Z.leb_le _ _)), (proj2 (Z.ltb_lt _ _)) by lia. done.
Qed.
