(* ===== verification/Ids.v ===== *)
(** * Typed ids

    Models [src/ids.rs]. A page, frame, table or index id is a newtype over an unsigned
    integer; the model keeps the integer. [RecordId] names a slot of a table page. *)

From Stdlib Require Import ZArith Lia.
From stdpp Require Import base countable numbers.
From S2P Require Import Prelude.

Local Open Scope Z_scope.

Definition u8_max : Z := 2 ^ 8 - 1.
Definition u16_max : Z := 2 ^ 16 - 1.
Definition u32_max : Z := 2 ^ 32 - 1.
Definition u64_max : Z := 2 ^ 64 - 1.

Abbreviation PageId := Z.
Abbreviation FrameId := Z.
Abbreviation TableOid := Z.
Abbreviation IndexOid := Z.

(** A page id that does not fit in the [u32] that page links store. *)
Inductive PageIdOutOfRange : Type := | MkPageIdOutOfRange (raw : Z).

(** [PageId::MAX] *)
Definition PageId_MAX : PageId := u32_max - 1.
Definition NO_PAGE_U32 : Z := u32_max.
Definition NO_PAGE_U64 : Z := u64_max.

Definition page_id_valid (p : PageId) : Prop := 0 <= p <= PageId_MAX.

(** [PageId::new]: asserts that the raw id is a page id. *)
Definition PageId_new {E} (raw : Z) : outcome E PageId :=
  _ ← rassert (raw <=? PageId_MAX);
  Ok raw.

Definition encode_u32 (link : option PageId) : Z := from_option id NO_PAGE_U32 link.

Definition decode_u32 (raw : Z) : option PageId :=
  if raw =? NO_PAGE_U32 then None else Some raw.

(** [PageId::try_from] for [u64] (and for [usize], which the code widens to [u64]). *)
Definition PageId_try_from (raw : Z) : outcome PageIdOutOfRange PageId :=
  if (raw <=? u32_max) && (raw <=? PageId_MAX) then Ok raw else Err (MkPageIdOutOfRange raw).

Definition encode_u64 (link : option PageId) : Z := from_option id NO_PAGE_U64 link.

Definition decode_u64 (raw : Z) : outcome PageIdOutOfRange (option PageId) :=
  if raw =? NO_PAGE_U64 then Ok None else Some <$> PageId_try_from raw.

(** Where a tuple lives: a table page and a slot on it. *)
Record RecordId : Type := mkRid { page_id : PageId; slot_id : Z }.

#[export] Instance RecordId_eq_dec : EqDecision RecordId.
Proof. solve_decision. Defined.

#[export] Program Instance RecordId_countable : Countable RecordId :=
  inj_countable' (fun r => (page_id r, slot_id r)) (fun p => mkRid p.1 p.2) _.
Next Obligation. by intros []. Qed.

(** [RecordId::RESERVED], the id of rows that map back to no table slot. *)
Definition RecordId_RESERVED : RecordId := mkRid u32_max u32_max.

(** ** Page links round-trip through both encodings *)

Definition link_valid (link : option PageId) : Prop :=
  match link with Some p => page_id_valid p | None => True end.

Lemma encode_u32_bound link : link_valid link -> 0 <= encode_u32 link <= u32_max.
Proof.
  destruct link as [p|]; simpl; unfold page_id_valid, PageId_MAX, NO_PAGE_U32, u32_max; lia.
Qed.

Lemma decode_encode_u32 link : link_valid link -> decode_u32 (encode_u32 link) = link.
Proof.
  unfold decode_u32, encode_u32. destruct link as [p|]; simpl.
  - intros H. destruct (Z.eqb_spec p NO_PAGE_U32) as [->|]; [|done].
    unfold page_id_valid, PageId_MAX, NO_PAGE_U32, u32_max in *. lia.
  - done.
Qed.

(** Every raw [u32] is the encoding of exactly one link. *)
Lemma encode_decode_u32 raw : encode_u32 (decode_u32 raw) = raw.
Proof. unfold decode_u32. destruct (Z.eqb_spec raw NO_PAGE_U32) as [->|]; done. Qed.

Lemma encode_u64_bound link : link_valid link -> 0 <= encode_u64 link <= u64_max.
Proof.
  destruct link as [p|]; simpl; unfold page_id_valid, PageId_MAX, NO_PAGE_U64, u32_max, u64_max; lia.
Qed.

Lemma PageId_try_from_valid p : page_id_valid p -> PageId_try_from p = Ok p.
Proof.
  unfold page_id_valid, PageId_try_from, PageId_MAX. intros H.
  rewrite !(proj2 (Z.leb_le _ _)) by lia. done.
Qed.

Lemma PageId_try_from_inv raw p : PageId_try_from raw = Ok p -> p = raw /\ raw <= PageId_MAX.
Proof.
  unfold PageId_try_from. destruct (Z.leb_spec raw PageId_MAX);
    rewrite ?andb_false_r; [|done]. destruct (_ && _); naive_solver.
Qed.

Lemma decode_encode_u64 link : link_valid link -> decode_u64 (encode_u64 link) = Ok link.
Proof.
  unfold decode_u64, encode_u64. destruct link as [p|]; simpl.
  - intros H. destruct (Z.eqb_spec p NO_PAGE_U64) as [->|].
    + unfold page_id_valid, PageId_MAX, NO_PAGE_U64, u32_max, u64_max in *. lia.
    + by rewrite PageId_try_from_valid.
  - done.
Qed.
