(* ===== verification/Buf.v ===== *)
(** * Cursors and fixed-offset accessors over byte buffers

    Models [src/buf.rs]: the bounds-checked [BufWriter] and [BufReader] cursors, and the
    [get_*]/[put_*] functions that page views use, which panic out of range. *)

From Stdlib Require Import ZArith Lia.
From stdpp Require Import base list.
From S2P Require Import Prelude Bytes Ids.

Local Open Scope Z_scope.

(** [crate::disk::PAGE_SIZE] *)
Definition PAGE_SIZE : Z := 8192.

Inductive BufferError : Type :=
| Overflow
| BufferTooSmall (needed actual : Z).

(** [usize::checked_add] *)
Definition checked_add_usize (a b : Z) : option Z :=
  if a + b <=? u64_max then Some (a + b) else None.

(** ** BufWriter *)

Record BufWriter : Type := mkBufWriter { w_buf : bytes; w_pos : Z }.

Definition BufWriter_new (buf : bytes) : outcome BufferError BufWriter :=
  if len buf <? PAGE_SIZE then Err (BufferTooSmall PAGE_SIZE (len buf))
  else Ok (mkBufWriter buf 0).

Definition write_bytes (data : bytes) (w : BufWriter) : outcome BufferError BufWriter :=
  endp ← ok_or (checked_add_usize (w_pos w) (len data)) Overflow;
  if len (w_buf w) <? endp then Err (BufferTooSmall endp (len (w_buf w)))
  else
    buf ← copy_from_slice (w_buf w) (w_pos w) endp data;
    Ok (mkBufWriter buf endp).

Definition write_u8 (v : Z) := write_bytes [v].
Definition write_u16_le (v : Z) := write_bytes (to_le 2 v).
Definition write_u32_le (v : Z) := write_bytes (to_le 4 v).
Definition write_u64_le (v : Z) := write_bytes (to_le 8 v).

(** ** BufReader *)

Record BufReader : Type := mkBufReader { r_buf : bytes; r_pos : Z }.

Definition BufReader_new (buf : bytes) : outcome BufferError BufReader :=
  if len buf <? PAGE_SIZE then Err (BufferTooSmall PAGE_SIZE (len buf))
  else Ok (mkBufReader buf 0).

Definition read_bytes (n : Z) (r : BufReader) : outcome BufferError (bytes * BufReader) :=
  endp ← ok_or (checked_add_usize (r_pos r) n) Overflow;
  if len (r_buf r) <? endp then Err (BufferTooSmall endp (len (r_buf r)))
  else
    out ← slice (r_buf r) (r_pos r) endp;
    Ok (out, mkBufReader (r_buf r) endp).

Definition read_int (n : Z) (r : BufReader) : outcome BufferError (Z * BufReader) :=
  '(b, r) ← read_bytes n r;
  Ok (of_le b, r).

Definition read_u8 := read_int 1.
Definition read_u16_le := read_int 2.
Definition read_u32_le := read_int 4.
Definition read_u64_le := read_int 8.

Definition remaining (r : BufReader) : Z := Z.max 0 (len (r_buf r) - r_pos r).

(** ** Accessors at an offset *)

Definition get_le {E} (n : Z) (buf : bytes) (off : Z) : outcome E Z :=
  b ← slice buf off (off + n);
  Ok (of_le b).

Definition put_le {E} (n : nat) (buf : bytes) (off v : Z) : outcome E bytes :=
  copy_from_slice buf off (off + Z.of_nat n) (to_le n v).

Definition get_u16_le {E} (buf : bytes) (off : Z) : outcome E Z := get_le 2 buf off.
Definition get_u32_le {E} (buf : bytes) (off : Z) : outcome E Z := get_le 4 buf off.
Definition get_u64_le {E} (buf : bytes) (off : Z) : outcome E Z := get_le 8 buf off.
Definition put_u16_le {E} (buf : bytes) (off v : Z) : outcome E bytes := put_le 2 buf off v.
Definition put_u32_le {E} (buf : bytes) (off v : Z) : outcome E bytes := put_le 4 buf off v.
Definition put_u64_le {E} (buf : bytes) (off v : Z) : outcome E bytes := put_le 8 buf off v.

(** ** Lemmas *)

(** The value [get_le] reads. *)
Definition le_at (n : Z) (buf : bytes) (off : Z) : Z := of_le (sub buf off n).

Lemma get_le_ok {E} n buf off :
  0 <= off -> 0 <= n -> off + n <= len buf -> @get_le E n buf off = Ok (le_at n buf off).
Proof.
  intros. unfold get_le. rewrite slice_ok by lia. unfold mbind; simpl. unfold le_at.
  do 3 f_equal. lia.
Qed.

Lemma put_le_ok {E} n buf off v :
  0 <= off -> off + Z.of_nat n <= len buf ->
  @put_le E n buf off v = Ok (splice buf off (to_le n v)).
Proof.
  intros. unfold put_le. apply copy_from_slice_ok; [lia..|]. rewrite length_to_le. lia.
Qed.

Lemma le_at_bound n buf off :
  Forall is_byte buf -> 0 <= off -> 0 <= n -> off + n <= len buf ->
  0 <= le_at n buf off < 256 ^ n.
Proof.
  intros. pose proof (of_le_bound (sub buf off n) (Forall_sub _ _ _ _ H)) as Hb.
  rewrite len_sub in Hb by lia. done.
Qed.

Lemma le_at_splice_same k n buf off o v :
  k = Z.of_nat n -> o = off -> 0 <= off -> off + k <= len buf -> 0 <= v < 256 ^ k ->
  le_at k (splice buf off (to_le n v)) o = v.
Proof.
  intros -> ->. intros. unfold le_at.
  pose proof (sub_splice_same buf off (to_le n v)) as Hs. rewrite length_to_le in Hs.
  rewrite Hs by lia. by apply of_to_le.
Qed.

Lemma le_at_splice_disjoint n buf off data o :
  0 <= off -> off + len data <= len buf -> 0 <= o -> 0 <= n -> o + n <= len buf ->
  o + n <= off \/ off + len data <= o ->
  le_at n (splice buf off data) o = le_at n buf o.
Proof. intros. unfold le_at. by rewrite sub_splice_disjoint. Qed.

(** A read of [n] bytes depends on those bytes only. *)
Lemma le_at_ext n b1 b2 o1 o2 :
  0 <= o1 -> 0 <= o2 -> 0 <= n -> o1 + n <= len b1 -> o2 + n <= len b2 ->
  (forall i, 0 <= i < n -> byte_at b1 (o1 + i) = byte_at b2 (o2 + i)) ->
  le_at n b1 o1 = le_at n b2 o2.
Proof. intros. unfold le_at. f_equal. by apply sub_ext. Qed.

(** [blia] is [lia] up to the lengths of written buffers; [rd] moves reads past writes. *)
Ltac blia := rewrite ?length_splice, ?length_to_le; cbn [length]; lia.

Ltac rd1 :=
  match goal with
  | |- context [le_at ?k (splice ?b ?off (to_le ?n ?v)) ?o] =>
      rewrite (le_at_splice_same k n b off o v) by first [reflexivity | blia]
  | |- context [le_at ?k (splice ?b ?off ?d) ?o] =>
      rewrite (le_at_splice_disjoint k b off d o) by blia
  | |- context [sub (splice ?b ?off ?d) ?o ?n] =>
      rewrite (sub_splice_disjoint b off d o n) by blia
  | |- context [byte_at (splice ?b ?off ?d) ?i] =>
      first [ rewrite (byte_at_splice_out b off d i) by blia
            | rewrite (byte_at_splice_in b off d i) by blia ]
  end.
Ltac rd := repeat rd1.
