(* ===== verification/TablePage.v ===== *)
(** * The slotted table page

    Models [src/table_page.rs] on the bytes of a page: the header, the slot directory that
    grows up from it and the tuple regions that grow down from the end of the page. *)

From Stdlib Require Import ZArith Lia.
From stdpp Require Import base list numbers.
From S2P Require Import Prelude Bytes Ids Buf.

Local Open Scope Z_scope.

(** MVCC metadata stored with the newest version of every tuple. *)
Record TupleMeta : Type := mkMeta { ts : Z; is_deleted : bool }.

#[export] Instance TupleMeta_eq_dec : EqDecision TupleMeta.
Proof. solve_decision. Defined.

(** [TupleMeta::default()] *)
Definition TupleMeta_default : TupleMeta := mkMeta 0 false.

Inductive TablePageError : Type :=
| WrongSize (len : Z)
| CorruptHeader (directory_end free_space_offset : Z)
| SlotOutOfBounds (offset size capacity tuple_area_start : Z)
| DoesNotFit (len : Z)
| SlotCountOverflow
| SlotMissing (slot num_slots : Z)
| AlreadyDeleted (slot : Z)
| CorruptDeletedCounter (count slot : Z)
| UpdateDoesNotFit (slot len available : Z).

(** A slot directory entry. [offset] is the end of the slot's region in the page. *)
Record Slot : Type := mkSlot { offset : Z; size : Z; capacity : Z; meta : TupleMeta }.

(** Where [update_in_place] writes a tuple. *)
Inductive Placement : Type := | InPlace | Free | AfterCompaction.

Module TablePage.

Abbreviation res := (outcome TablePageError).
Abbreviation page := (M bytes TablePageError).

Definition NEXT_PAGE_ID_OFF : Z := 0.
Definition NUM_TUPLES_OFF : Z := 4.
Definition NUM_DELETED_OFF : Z := 6.
Definition FREE_SPACE_OFF : Z := 8.

Definition SLOT_OFFSET_OFF : Z := 0.
Definition SLOT_SIZE_OFF : Z := 4.
Definition SLOT_CAPACITY_OFF : Z := 6.
Definition SLOT_TS_OFF : Z := 8.
Definition SLOT_DELETED_OFF : Z := 16.

Definition HEADER_SIZE : Z := 12.
Definition SLOT_SIZE : Z := 17.
Definition MAX_TUPLE_SIZE : Z := PAGE_SIZE - HEADER_SIZE - SLOT_SIZE.

(** [u32] subtraction; an underflow panics. *)
Definition sub_u32 (a b : Z) : res Z := if b <=? a then Ok (a - b) else Panic.

(** [Slot::region_start], [Slot::region] and [Slot::range] *)
Definition region_start (s : Slot) : res Z := sub_u32 (offset s) (capacity s).

Definition region (s : Slot) : res (Z * Z) :=
  start ← region_start s;
  Ok (start, offset s).

Definition range (s : Slot) : res (Z * Z) :=
  start ← region_start s;
  Ok (start, start + size s).

Definition next_page_id (b : bytes) : res (option PageId) :=
  raw ← get_u32_le b NEXT_PAGE_ID_OFF;
  Ok (decode_u32 raw).

Definition num_tuples (b : bytes) : res Z := get_u16_le b NUM_TUPLES_OFF.
Definition num_deleted_tuples (b : bytes) : res Z := get_u16_le b NUM_DELETED_OFF.
Definition free_space_offset (b : bytes) : res Z := get_u32_le b FREE_SPACE_OFF.

Definition directory_end (b : bytes) : res Z :=
  n ← num_tuples b;
  Ok (HEADER_SIZE + n * SLOT_SIZE).

Definition slot_base (slot : Z) : Z := HEADER_SIZE + slot * SLOT_SIZE.

(** [TablePage::new]: wraps an initialised page, validating the header once. *)
Definition new (b : bytes) : res bytes :=
  if negb (len b =? PAGE_SIZE) then Err (WrongSize (len b))
  else
    dir_end ← directory_end b;
    free ← free_space_offset b;
    if (free <? dir_end) || (PAGE_SIZE <? free) then Err (CorruptHeader dir_end free)
    else Ok b.

(** The directory entry of a slot, or [None] past the last one. *)
Definition slot (b : bytes) (slot : Z) : res (option Slot) :=
  n ← num_tuples b;
  if n <=? slot then Ok None
  else
    let base := slot_base slot in
    o ← get_u32_le b (base + SLOT_OFFSET_OFF);
    s ← get_u16_le b (base + SLOT_SIZE_OFF);
    c ← get_u16_le b (base + SLOT_CAPACITY_OFF);
    t ← get_u64_le b (base + SLOT_TS_OFF);
    d ← index b (base + SLOT_DELETED_OFF);
    Ok (Some (mkSlot o s c (mkMeta t (negb (d =? 0))))).

Definition check_region (b : bytes) (s : Slot) : res unit :=
  free ← free_space_offset b;
  let bad := Err (SlotOutOfBounds (offset s) (size s) (capacity s) free) in
  if capacity s <? size s then bad
  else if offset s <? capacity s then bad
  else
    start ← region_start s;
    if (start <? free) || (PAGE_SIZE <? offset s) then bad else Ok tt.

Definition tuple_bytes (b : bytes) (s : Slot) : res bytes :=
  _ ← check_region b s;
  '(lo, hi) ← range s;
  slice b lo hi.

Definition free_bytes (b : bytes) : res Z :=
  free ← free_space_offset b;
  dir_end ← directory_end b;
  Ok (Z.max 0 (free - dir_end)).

(** The slots numbered by a list of indices, dropping the missing ones. *)
Fixpoint slots_of (b : bytes) (idxs : list Z) : res (list Slot) :=
  match idxs with
  | [] => Ok []
  | i :: idxs =>
      o ← slot b i;
      rest ← slots_of b idxs;
      Ok (match o with Some s => s :: rest | None => rest end)
  end.

(** [TablePage::slots]: every slot of the page, in slot order. *)
Definition slots (b : bytes) : res (list Slot) :=
  n ← num_tuples b;
  slots_of b (seqZ 0 n).

Definition can_insert (b : bytes) (tuple_len : Z) : res bool :=
  dir_end ← directory_end b;
  free ← free_space_offset b;
  Ok (dir_end + SLOT_SIZE + tuple_len <=? free).

(** [TablePage::init] formats a buffer as an empty table page. *)
Definition init : page unit :=
  _ ← modify (fun b => put_u32_le b NEXT_PAGE_ID_OFF (encode_u32 None));
  _ ← modify (fun b => put_u16_le b NUM_TUPLES_OFF 0);
  _ ← modify (fun b => put_u16_le b NUM_DELETED_OFF 0);
  modify (fun b => put_u32_le b FREE_SPACE_OFF PAGE_SIZE).

Definition set_next_page_id (p : PageId) : page unit :=
  modify (fun b => put_u32_le b NEXT_PAGE_ID_OFF (encode_u32 (Some p))).

(** The length of a tuple as a slot stores it. *)
Definition tuple_len (data : bytes) : res Z :=
  if (len data <=? u16_max) && (len data <=? MAX_TUPLE_SIZE)
  then Ok (len data) else Err (DoesNotFit (len data)).

Definition insert_with_meta (m : TupleMeta) (data : bytes) : page Z :=
  fits ← lift (fun b => can_insert b (len data));
  if negb fits then liftc (Err (DoesNotFit (len data)))
  else
    n ← lift num_tuples;
    new_num_tuples ← liftc (if n + 1 <=? u16_max then Ok (n + 1) else Err SlotCountOverflow);
    off ← lift free_space_offset;
    sz ← liftc (tuple_len data);
    start ← liftc (sub_u32 off sz);
    let base := slot_base n in
    nd ← lift num_deleted_tuples;
    let deleted := nd + Z.b2z (is_deleted m) in
    _ ← liftc (rassert (deleted <=? u16_max));
    _ ← modify (fun b => copy_from_slice b start off data);
    _ ← modify (fun b => put_u32_le b (base + SLOT_OFFSET_OFF) off);
    _ ← modify (fun b => put_u16_le b (base + SLOT_SIZE_OFF) sz);
    _ ← modify (fun b => put_u16_le b (base + SLOT_CAPACITY_OFF) sz);
    _ ← modify (fun b => put_u64_le b (base + SLOT_TS_OFF) (ts m));
    _ ← modify (fun b => set_index b (base + SLOT_DELETED_OFF) (Z.b2z (is_deleted m)));
    _ ← modify (fun b => put_u16_le b NUM_TUPLES_OFF new_num_tuples);
    _ ← modify (fun b => put_u16_le b NUM_DELETED_OFF deleted);
    _ ← modify (fun b => put_u32_le b FREE_SPACE_OFF start);
    mret n.

Definition insert (data : bytes) : page Z := insert_with_meta TupleMeta_default data.

Definition existing_slot (b : bytes) (i : Z) : res Slot :=
  o ← slot b i;
  match o with
  | Some s => Ok s
  | None => n ← num_tuples b; Err (SlotMissing i n)
  end.

Definition update_meta (i : Z) (m : TupleMeta) : page unit :=
  current ← lift (fun b => existing_slot b i);
  count ← lift num_deleted_tuples;
  deleted ← liftc (
    match is_deleted (meta current), is_deleted m with
    | false, true =>
        if count + 1 <=? u16_max then Ok (count + 1) else Err (CorruptDeletedCounter count i)
    | true, false =>
        if 0 <=? count - 1 then Ok (count - 1) else Err (CorruptDeletedCounter count i)
    | _, _ => Ok count
    end);
  let base := slot_base i in
  _ ← modify (fun b => put_u64_le b (base + SLOT_TS_OFF) (ts m));
  _ ← modify (fun b => set_index b (base + SLOT_DELETED_OFF) (Z.b2z (is_deleted m)));
  modify (fun b => put_u16_le b NUM_DELETED_OFF deleted).

Definition mark_deleted (i : Z) : page unit :=
  current ← lift (fun b => existing_slot b i);
  if is_deleted (meta current) then liftc (Err (AlreadyDeleted i))
  else
    nd ← lift num_deleted_tuples;
    if nd =? u16_max then liftc (Err (CorruptDeletedCounter u16_max i))
    else update_meta i (mkMeta (ts (meta current)) true).

(** The capacities of the slots other than number [skip], from number [i] on. *)
Fixpoint other_capacities (i : Z) (ss : list Slot) (skip : Z) : Z :=
  match ss with
  | [] => 0
  | s :: ss =>
      (if i =? skip then 0 else capacity s) + other_capacities (i + 1) ss skip
  end.

(** Where an update of [current] to [n] bytes goes. *)
Definition place (b : bytes) (current : Slot) (i n : Z) : res Placement :=
  if n <=? capacity current then Ok InPlace
  else
    fb ← free_bytes b;
    if n <=? fb then Ok Free
    else
      ss ← slots b;
      let other_regions := other_capacities 0 ss i in
      dir_end ← directory_end b;
      rest ← sub_u32 PAGE_SIZE dir_end;
      available ← sub_u32 rest other_regions;
      if n <=? available then Ok AfterCompaction
      else Err (UpdateDoesNotFit i n available).

Definition claim_free_region (i sz : Z) : page Slot :=
  endp ← lift free_space_offset;
  start ← liftc (sub_u32 endp sz);
  let base := slot_base i in
  _ ← modify (fun b => put_u32_le b (base + SLOT_OFFSET_OFF) endp);
  _ ← modify (fun b => put_u16_le b (base + SLOT_CAPACITY_OFF) sz);
  _ ← modify (fun b => put_u32_le b FREE_SPACE_OFF start);
  o ← lift (fun b => slot b i);
  liftc (expect o).

(** The region bytes of every slot, copied out of the page. *)
Fixpoint regions_of (b : bytes) (ss : list Slot) : res (list bytes) :=
  match ss with
  | [] => Ok []
  | s :: ss =>
      '(lo, hi) ← region s;
      r ← slice b lo hi;
      rest ← regions_of b ss;
      Ok (r :: rest)
  end.

(** The loop of [compact_without] over the slots from number [i] on, packing their regions
    down from [endp]; returns where the last one starts. *)
Fixpoint compact_loop (i : Z) (srs : list (Slot * bytes)) (skip endp : Z) : page Z :=
  match srs with
  | [] => mret endp
  | (s, r) :: srs =>
      let base := slot_base i in
      if i =? skip then
        _ ← modify (fun b => put_u32_le b (base + SLOT_OFFSET_OFF) endp);
        _ ← modify (fun b => put_u16_le b (base + SLOT_CAPACITY_OFF) 0);
        compact_loop (i + 1) srs skip endp
      else
        start ← liftc (sub_u32 endp (capacity s));
        _ ← modify (fun b => copy_from_slice b start endp r);
        _ ← modify (fun b => put_u32_le b (base + SLOT_OFFSET_OFF) endp);
        compact_loop (i + 1) srs skip start
  end.

Definition compact_without (skip : Z) : page unit :=
  ss ← lift slots;
  rs ← lift (fun b => regions_of b ss);
  endp ← compact_loop 0 (zip ss rs) skip PAGE_SIZE;
  modify (fun b => put_u32_le b FREE_SPACE_OFF endp).

Definition update_in_place (i : Z) (m : TupleMeta) (data : bytes) : page unit :=
  current ← lift (fun b => existing_slot b i);
  _ ← lift (fun b => check_region b current);
  sz ← liftc (tuple_len data);
  placement ← lift (fun b => place b current i (len data));
  _ ← update_meta i m;
  region ←
    match placement with
    | InPlace => mret current
    | Free => claim_free_region i sz
    | AfterCompaction => _ ← compact_without i; claim_free_region i sz
    end;
  start ← liftc (region_start region);
  let base := slot_base i in
  _ ← modify (fun b => copy_from_slice b start (start + len data) data);
  modify (fun b => put_u16_le b (base + SLOT_SIZE_OFF) sz).

End TablePage.
