(* ===== verification/TablePageProofs.v ===== *)
(** * Correctness of the table page

    A well-formed page ([WF]) is a list of slots whose regions lie in the tuple area without
    overlapping. [tuples] reads it as the list of its tuples; every operation of
    [TablePage.v] keeps a page well-formed and acts on that list as its name says. *)

From Stdlib Require Import ZArith Lia.
From stdpp Require Import base list numbers.
From S2P Require Import Prelude Bytes Ids Buf TablePage.
Import TablePage.

Local Open Scope Z_scope.

Create HintDb tp.
#[export] Hint Unfold PAGE_SIZE NEXT_PAGE_ID_OFF NUM_TUPLES_OFF NUM_DELETED_OFF FREE_SPACE_OFF
  SLOT_OFFSET_OFF SLOT_SIZE_OFF SLOT_CAPACITY_OFF SLOT_TS_OFF SLOT_DELETED_OFF HEADER_SIZE
  SLOT_SIZE MAX_TUPLE_SIZE slot_base u16_max u32_max u64_max
  get_u16_le get_u32_le get_u64_le put_u16_le put_u32_le put_u64_le : tp.

Ltac tpu := autounfold with tp in *.

(** ** What the header and the directory say *)

Definition pnext (b : bytes) : Z := le_at 4 b 0.
Definition pnum (b : bytes) : Z := le_at 2 b 4.
Definition pdel (b : bytes) : Z := le_at 2 b 6.
Definition pfree (b : bytes) : Z := le_at 4 b 8.

Definition pslot (b : bytes) (i : Z) : Slot :=
  let base := 12 + i * 17 in
  mkSlot (le_at 4 b base) (le_at 2 b (base + 4)) (le_at 2 b (base + 6))
    (mkMeta (le_at 8 b (base + 8)) (negb (byte_at b (base + 16) =? 0))).

#[global] Arguments pslot : simpl never.

Definition pslots (b : bytes) : list Slot := pslot b <$> seqZ 0 (pnum b).

Definition slot_start (s : Slot) : Z := offset s - capacity s.

(** The bytes of the tuple in slot [s]. *)
Definition pdata (b : bytes) (s : Slot) : bytes := sub b (slot_start s) (size s).

(** The tuples of a page, in slot order. *)
Definition tuples (b : bytes) : list (TupleMeta * bytes) :=
  (fun s => (meta s, pdata b s)) <$> pslots b.

Definition deleted_count (ss : list Slot) : Z :=
  zsum ((fun s => Z.b2z (is_deleted (meta s))) <$> ss).

(** ** Well-formed pages *)

Definition slot_wf (free : Z) (s : Slot) : Prop :=
  0 <= size s <= capacity s /\ free <= slot_start s /\ offset s <= PAGE_SIZE.

Definition slots_disjoint (s1 s2 : Slot) : Prop :=
  offset s1 <= slot_start s2 \/ offset s2 <= slot_start s1.

Record layout_wf (free : Z) (ss : list Slot) : Prop := {
  lw_dir : 12 + 17 * len ss <= free <= PAGE_SIZE;
  lw_slots : Forall (slot_wf free) ss;
  lw_disjoint : forall (i j : nat) s1 s2,
    i <> j -> ss !! i = Some s1 -> ss !! j = Some s2 -> slots_disjoint s1 s2;
  lw_room : zsum (capacity <$> ss) <= PAGE_SIZE - free;
}.

Record WF (b : bytes) : Prop := {
  wf_len : len b = PAGE_SIZE;
  wf_bytes : Forall is_byte b;
  wf_layout : layout_wf (pfree b) (pslots b);
  wf_deleted : pdel b = deleted_count (pslots b);
}.

(** ** Reading *)

Lemma pnum_bound b : Forall is_byte b -> len b = PAGE_SIZE -> 0 <= pnum b < 65536.
Proof. intros. apply (le_at_bound 2 b 4); tpu; [done|lia..]. Qed.

Lemma length_pslots b : Forall is_byte b -> len b = PAGE_SIZE -> len (pslots b) = pnum b.
Proof.
  intros. unfold pslots. rewrite length_fmap, length_seqZ. pose proof (pnum_bound b H H0). lia.
Qed.

Lemma pslots_lookup b (i : nat) :
  Z.of_nat i < pnum b -> pslots b !! i = Some (pslot b (Z.of_nat i)).
Proof.
  intros. unfold pslots. rewrite list_lookup_fmap, lookup_seqZ_lt by lia.
  simpl. do 2 f_equal.
Qed.

Lemma pslots_lookup_inv b (i : nat) s :
  pslots b !! i = Some s -> Z.of_nat i < pnum b /\ s = pslot b (Z.of_nat i).
Proof.
  unfold pslots. rewrite list_lookup_fmap, fmap_Some.
  intros (j & Hj & ->). apply lookup_seqZ in Hj. destruct Hj as [-> ?]. auto.
Qed.

Lemma num_tuples_ok b : len b = PAGE_SIZE -> num_tuples b = Ok (pnum b).
Proof. intros. unfold num_tuples. tpu. apply get_le_ok; lia. Qed.

Lemma num_deleted_ok b : len b = PAGE_SIZE -> num_deleted_tuples b = Ok (pdel b).
Proof. intros. unfold num_deleted_tuples. tpu. apply get_le_ok; lia. Qed.

Lemma free_space_ok b : len b = PAGE_SIZE -> free_space_offset b = Ok (pfree b).
Proof. intros. unfold free_space_offset. tpu. apply get_le_ok; lia. Qed.

Lemma directory_end_ok b :
  len b = PAGE_SIZE -> directory_end b = Ok (12 + pnum b * 17).
Proof. intros. unfold directory_end. by rewrite num_tuples_ok. Qed.

Lemma slot_ok b i :
  len b = PAGE_SIZE -> 12 + pnum b * 17 <= PAGE_SIZE -> 0 <= i < pnum b ->
  slot b i = Ok (Some (pslot b i)).
Proof.
  intros Hl Hd Hi. unfold slot. rewrite num_tuples_ok by done. simpl.
  rewrite (proj2 (Z.leb_gt _ _)) by lia. tpu.
  rewrite !get_le_ok by lia. simpl. rewrite index_ok by lia. simpl.
  by rewrite !Z.add_0_r.
Qed.

Lemma slot_none b i : len b = PAGE_SIZE -> pnum b <= i -> slot b i = Ok None.
Proof.
  intros. unfold slot. rewrite num_tuples_ok by done. simpl.
  by rewrite (proj2 (Z.leb_le _ _)) by lia.
Qed.

Lemma existing_slot_ok b i :
  len b = PAGE_SIZE -> 12 + pnum b * 17 <= PAGE_SIZE -> 0 <= i < pnum b ->
  existing_slot b i = Ok (pslot b i).
Proof. intros. unfold existing_slot. by rewrite slot_ok. Qed.

Lemma slots_of_ok b n :
  len b = PAGE_SIZE -> 12 + pnum b * 17 <= PAGE_SIZE -> n <= pnum b ->
  forall k, slots_of b (seqZ (n - Z.of_nat k) (Z.of_nat k)) =
       Ok (pslot b <$> seqZ (n - Z.of_nat k) (Z.of_nat k)) \/ n < Z.of_nat k.
Proof.
  intros Hl Hd Hn k. destruct (decide (n < Z.of_nat k)); [by right|left].
  induction k as [|k IH]; [done|].
  rewrite seqZ_cons by lia. simpl.
  rewrite slot_ok by lia. simpl.
  replace (Z.pred (Z.of_nat (S k))) with (Z.of_nat k) by lia.
  replace (Z.succ (n - Z.of_nat (S k))) with (n - Z.of_nat k) by lia.
  rewrite IH by lia. done.
Qed.

Lemma slots_ok b :
  len b = PAGE_SIZE -> 0 <= pnum b -> 12 + pnum b * 17 <= PAGE_SIZE ->
  slots b = Ok (pslots b).
Proof.
  intros Hl H0 Hd. unfold slots. rewrite num_tuples_ok by done. simpl.
  destruct (slots_of_ok b (pnum b) Hl Hd (Z.le_refl _) (Z.to_nat (pnum b))) as [H|H]; [|lia].
  rewrite Z2Nat.id, Z.sub_diag in H by lia. done.
Qed.

(** ** What well-formedness gives *)

Section wf.
Context (b : bytes) (W : WF b).

Lemma wf_num : 0 <= pnum b /\ 12 + pnum b * 17 <= pfree b /\ pfree b <= PAGE_SIZE.
Proof.
  pose proof (lw_dir _ _ (wf_layout _ W)) as Hd.
  rewrite length_pslots in Hd by apply W.
  pose proof (pnum_bound b (wf_bytes _ W) (wf_len _ W)). lia.
Qed.

Lemma wf_slot_at i : 0 <= i < pnum b -> slot_wf (pfree b) (pslot b i).
Proof.
  intros Hi. eapply Forall_lookup_1; [apply (wf_layout _ W)|].
  rewrite (pslots_lookup b (Z.to_nat i)) by lia. by rewrite Z2Nat.id by lia.
Qed.

Lemma wf_disjoint_at i j :
  0 <= i < pnum b -> 0 <= j < pnum b -> i <> j -> slots_disjoint (pslot b i) (pslot b j).
Proof.
  intros Hi Hj Hne.
  eapply (lw_disjoint _ _ (wf_layout _ W) (Z.to_nat i) (Z.to_nat j)); [lia|..].
  all: rewrite pslots_lookup by lia; by rewrite Z2Nat.id by lia.
Qed.
End wf.

(** ** Writing

    [pput] proves the value of one checked write. *)

Ltac pput := cbv beta; tpu; first
  [ apply put_le_ok; blia
  | apply copy_from_slice_ok; blia
  | apply set_index_ok; blia ].

Lemma pslot_ext b1 b2 i j :
  0 <= i -> 0 <= j -> 12 + i * 17 + 17 <= len b1 -> 12 + j * 17 + 17 <= len b2 ->
  (forall k, 0 <= k < 17 -> byte_at b1 (12 + i * 17 + k) = byte_at b2 (12 + j * 17 + k)) ->
  pslot b1 i = pslot b2 j.
Proof.
  intros ???? H. unfold pslot.
  assert (Hle : forall n o, 0 <= o -> 0 <= n -> o + n <= 17 ->
    le_at n b1 (12 + i * 17 + o) = le_at n b2 (12 + j * 17 + o)).
  { intros n o ???. apply le_at_ext; try lia.
    intros k Hk. rewrite <- !Z.add_assoc. rewrite !(Z.add_assoc 12). apply H. lia. }
  f_equal; [|apply Hle; lia..|f_equal; [apply Hle; lia|]].
  - rewrite <- (Z.add_0_r (12 + i * 17)), <- (Z.add_0_r (12 + j * 17)). apply Hle; lia.
  - rewrite H by lia. done.
Qed.

Lemma pslot_splice b off d i :
  0 <= off -> off + len d <= len b -> 0 <= i -> 12 + i * 17 + 17 <= len b ->
  off + len d <= 12 + i * 17 \/ 12 + i * 17 + 17 <= off ->
  pslot (splice b off d) i = pslot b i.
Proof.
  intros. apply pslot_ext; try blia.
  intros k Hk. rewrite byte_at_splice by lia. case_decide; [lia|done].
Qed.

(** ** init *)

Lemma init_ok b :
  len b = PAGE_SIZE -> Forall is_byte b ->
  exists b', init b = (Ok tt, b') /\ WF b' /\ tuples b' = [] /\ decode_u32 (pnext b') = None /\
    pfree b' = PAGE_SIZE.
Proof.
  intros Hl Hb. unfold init.
  eexists. repeat (mrun pput). split; [done|].
  match goal with |- WF ?x /\ _ => set (b' := x) end.
  assert (Hn : pnum b' = 0) by (unfold pnum, b'; tpu; rd; done).
  assert (Hs : pslots b' = []) by (unfold pslots; by rewrite Hn).
  split; [|split; [|split]].
  - split.
    + unfold b'. tpu. blia.
    + unfold b'. auto 10 using Forall_splice, to_le_bytes.
    + rewrite Hs. unfold pfree, b'. tpu. rd. split; simpl; try done; try lia.
    + rewrite Hs. unfold pdel, b'. tpu. rd. done.
  - unfold tuples. by rewrite Hs.
  - unfold pnext, b'. tpu. unfold encode_u32, NO_PAGE_U32, u32_max; simpl from_option. rd. done.
  - unfold pfree, b'. tpu. rd. done.
Qed.

(** ** set_next_page_id *)

(** A page of which only the link to the next page changed. *)
Lemma set_next_page_id_ok b pid :
  WF b -> page_id_valid pid ->
  exists b', set_next_page_id pid b = (Ok tt, b') /\ WF b' /\ tuples b' = tuples b /\
    pnum b' = pnum b /\ decode_u32 (pnext b') = Some pid.
Proof.
  intros W Hv. pose proof (wf_len _ W) as Hl. pose proof (wf_bytes _ W) as Hb.
  destruct (wf_num b W) as (Hn0 & Hdir & Hfree). pose proof (encode_u32_bound (Some pid) Hv) as He.
  unfold set_next_page_id. eexists. mrun pput. split; [done|].
  match goal with |- WF ?x /\ _ => set (b' := x) end.
  assert (Hl' : len b' = PAGE_SIZE) by (unfold b'; tpu; blia).
  assert (Hn : pnum b' = pnum b) by (unfold pnum, b'; tpu; rd; done).
  assert (Hf : pfree b' = pfree b) by (unfold pfree, b'; tpu; rd; done).
  assert (Hd : pdel b' = pdel b) by (unfold pdel, b'; tpu; rd; done).
  assert (Hx : forall x, 4 <= x -> byte_at b' x = byte_at b x).
  { intros x Hx. unfold b'. tpu. rd. done. }
  assert (Hs : pslots b' = pslots b).
  { unfold pslots. rewrite Hn. apply list_fmap_ext. intros k i Hi. apply lookup_seqZ in Hi.
    apply pslot_ext; tpu; try lia. intros j Hj. apply Hx. lia. }
  split_and!; [|..|done|].
  - split; [done|unfold b'; auto using Forall_splice, to_le_bytes|..];
      rewrite ?Hs, ?Hf, ?Hd; apply W.
  - unfold tuples. rewrite Hs. apply list_fmap_ext. intros k s Hk. f_equal.
    pose proof (Forall_lookup_1 _ _ _ _ (lw_slots _ _ (wf_layout _ W)) Hk) as Hw.
    unfold slot_wf, slot_start in Hw. unfold pdata, slot_start.
    apply sub_ext; tpu; try lia. intros i Hi. apply Hx. lia.
  - assert (Hp : pnext b' = encode_u32 (Some pid)).
    { unfold pnext, b'. tpu. apply le_at_splice_same; tpu; try done; try lia. }
    rewrite Hp. by apply decode_encode_u32.
Qed.

(** ** Lists of slots *)

Lemma deleted_count_bound ss : 0 <= deleted_count ss <= len ss.
Proof.
  unfold deleted_count, zsum. induction ss as [|s ss IH]; csimpl; [lia|].
  destruct (is_deleted (meta s)); csimpl; lia.
Qed.

Lemma pslots_unchanged b b' :
  (forall i, 0 <= i < pnum b -> pslot b' i = pslot b i) ->
  pslot b' <$> seqZ 0 (pnum b) = pslots b.
Proof.
  intros H. apply list_fmap_ext. intros k i Hi. apply lookup_seqZ in Hi. apply H. lia.
Qed.

(** An update of slot [i] of the directory. *)
Lemma pslots_updated b b' i s :
  0 <= i < pnum b -> pnum b' = pnum b -> pslot b' i = s ->
  (forall j, 0 <= j < pnum b -> j <> i -> pslot b' j = pslot b j) ->
  pslots b' = <[Z.to_nat i := s]> (pslots b).
Proof.
  intros Hi Hn Hs H. apply list_eq. intros k.
  destruct (decide (Z.of_nat k < pnum b)) as [Hk|Hk].
  - rewrite pslots_lookup by lia. destruct (decide (k = Z.to_nat i)) as [->|Hne].
    + rewrite list_lookup_insert_eq.
      * f_equal. rewrite Z2Nat.id by lia. done.
      * unfold pslots. rewrite length_fmap, length_seqZ. lia.
    + rewrite list_lookup_insert_ne, pslots_lookup by lia. f_equal. apply H; lia.
  - rewrite !lookup_ge_None_2; [done|..].
    all: rewrite ?length_insert; unfold pslots; rewrite length_fmap, length_seqZ; lia.
Qed.

Lemma tuples_from (f : Slot -> TupleMeta * bytes) b (ss : list Slot) :
  (forall s, s ∈ ss -> f s = (meta s, pdata b s)) ->
  f <$> ss = (fun s => (meta s, pdata b s)) <$> ss.
Proof. intros H. apply list_fmap_ext. intros k s Hs. eauto using list_elem_of_lookup_2. Qed.

(** Reads of a region do not see writes outside it. *)
Lemma pdata_ext b b' s :
  0 <= slot_start s -> 0 <= size s -> slot_start s + size s <= len b ->
  slot_start s + size s <= len b' ->
  (forall x, slot_start s <= x < slot_start s + size s -> byte_at b' x = byte_at b x) ->
  pdata b' s = pdata b s.
Proof. intros ???? H. apply sub_ext; try lia. intros i Hi. apply H. lia. Qed.

Lemma slot_wf_mono free free' s : free' <= free -> slot_wf free s -> slot_wf free' s.
Proof. unfold slot_wf. lia. Qed.

Lemma layout_wf_snoc free ss s n :
  layout_wf free ss -> 0 <= n -> offset s = free -> capacity s = n -> size s = n ->
  12 + 17 * (len ss + 1) <= free - n ->
  layout_wf (free - n) (ss ++ [s]).
Proof.
  intros [Hd Hs Hdis Hr] Hn Ho Hc Hsz Hroom. split.
  - rewrite length_app. simpl. lia.
  - apply Forall_app. split.
    + eapply Forall_impl; [|exact Hs]. intros x. apply slot_wf_mono. lia.
    + repeat constructor; unfold slot_start; lia.
  - intros i j s1 s2 Hne H1 H2.
    apply lookup_app_Some in H1 as [H1|[? H1]]; apply lookup_app_Some in H2 as [H2|[? H2]].
    + eauto.
    + apply list_lookup_singleton_Some in H2 as [? ->].
      apply (Forall_lookup_1 _ _ _ _ Hs) in H1. right. unfold slot_wf in H1. lia.
    + apply list_lookup_singleton_Some in H1 as [? ->].
      apply (Forall_lookup_1 _ _ _ _ Hs) in H2. left. unfold slot_wf in H2. lia.
    + apply list_lookup_singleton_Some in H1 as [? _].
      apply list_lookup_singleton_Some in H2 as [? _]. lia.
  - rewrite fmap_app, zsum_app. csimpl. rewrite zsum_cons, zsum_nil. lia.
Qed.

Definition meta_valid (m : TupleMeta) : Prop := 0 <= ts m <= u64_max.

Lemma can_insert_ok b n :
  len b = PAGE_SIZE -> can_insert b n = Ok (12 + pnum b * 17 + 17 + n <=? pfree b).
Proof. intros. unfold can_insert. rewrite directory_end_ok, free_space_ok by done. done. Qed.

Lemma tuple_len_ok data : len data <= MAX_TUPLE_SIZE -> tuple_len data = Ok (len data).
Proof. intros. unfold tuple_len. tpu. rewrite !(proj2 (Z.leb_le _ _)) by lia. done. Qed.

Lemma sub_u32_ok a b : b <= a -> sub_u32 a b = Ok (a - b).
Proof. intros. unfold sub_u32. by rewrite (proj2 (Z.leb_le _ _)) by lia. Qed.

Lemma b2z_flag d : negb (Z.b2z d =? 0) = d.
Proof. by destruct d. Qed.

(** Tuples of slots whose bytes a write leaves alone. *)
Lemma tuples_same b b' (ss : list Slot) :
  len b = PAGE_SIZE -> len b' = PAGE_SIZE -> Forall (slot_wf (pfree b)) ss -> 0 <= pfree b ->
  (forall x s, s ∈ ss -> slot_start s <= x < offset s -> byte_at b' x = byte_at b x) ->
  (fun s => (meta s, pdata b' s)) <$> ss = (fun s => (meta s, pdata b s)) <$> ss.
Proof.
  intros Hl Hl' Hs Hf H. apply list_fmap_ext. intros k s Hk. f_equal.
  pose proof (Forall_lookup_1 _ _ _ _ Hs Hk) as Hw. unfold slot_wf, slot_start in *.
  apply pdata_ext; unfold slot_start; try lia. intros x Hx.
  apply (H x s); eauto using list_elem_of_lookup_2. unfold slot_start. lia.
Qed.

(** The bytes and the header of a page after [insert_with_meta]. *)
Definition inserted (b b' : bytes) (m : TupleMeta) (data : bytes) : Prop :=
  len b' = PAGE_SIZE /\ Forall is_byte b' /\
  pnum b' = pnum b + 1 /\ pfree b' = pfree b - len data /\
  pdel b' = pdel b + Z.b2z (is_deleted m) /\ pnext b' = pnext b /\
  pslot b' (pnum b) = mkSlot (pfree b) (len data) (len data) m /\
  sub b' (pfree b - len data) (len data) = data /\
  (forall i, 0 <= i < pnum b -> pslot b' i = pslot b i) /\
  (forall x, pfree b <= x < PAGE_SIZE -> byte_at b' x = byte_at b x).

Lemma insert_bytes b m data :
  WF b -> meta_valid m -> Forall is_byte data ->
  12 + pnum b * 17 + 17 + len data <= pfree b ->
  exists b', insert_with_meta m data b = (Ok (pnum b), b') /\ inserted b b' m data.
Proof.
  intros W Hm Hdata Hroom. pose proof (wf_len _ W) as Hl. pose proof (wf_bytes _ W) as Hb.
  destruct (wf_num b W) as (Hn0 & Hdir & Hfree). pose proof (pnum_bound b Hb Hl) as Hn.
  pose proof (wf_deleted _ W) as Hdel. pose proof (deleted_count_bound (pslots b)) as Hdc.
  rewrite length_pslots in Hdc by done.
  unfold insert_with_meta.
  mrun ltac:(apply can_insert_ok; done). cbv beta.
  rewrite (proj2 (Z.leb_le _ _)) by lia. cbn [negb].
  mrun ltac:(apply num_tuples_ok; done).
  mrun ltac:(rewrite (proj2 (Z.leb_le _ _)) by (tpu; lia); done).
  mrun ltac:(apply free_space_ok; done).
  mrun ltac:(apply tuple_len_ok; tpu; lia).
  mrun ltac:(apply sub_u32_ok; lia).
  mrun ltac:(apply num_deleted_ok; done).
  assert (Hnd : 0 <= pdel b + Z.b2z (is_deleted m) <= 482).
  { tpu. destruct (is_deleted m); simpl; lia. }
  mrun ltac:(unfold rassert; rewrite (proj2 (Z.leb_le _ _)) by (tpu; lia); done).
  do 9 (mrun pput). eexists. split; [done|]. unfold inserted, meta_valid in *. tpu.
  split_and!.
  - blia.
  - repeat apply Forall_splice; auto using to_le_bytes.
    repeat constructor; destruct (is_deleted m); done.
  - unfold pnum at 1. tpu. rd. done.
  - unfold pfree at 1. tpu. rd. done.
  - unfold pdel at 1. tpu. rd. done.
  - unfold pnext at 1. tpu. rd. done.
  - unfold pslot. tpu. rd. rewrite Z.sub_diag. change (byte_at [?x] 0) with x.
    rewrite b2z_flag. by destruct m.
  - rd. rewrite sub_splice_same by blia. done.
  - intros i Hi. apply pslot_ext; try blia. intros k Hk. rd. done.
  - intros x Hx. rd. done.
Qed.

(** [insert_with_meta] when the tuple and its slot fit. *)
Lemma insert_fits b m data :
  WF b -> meta_valid m -> Forall is_byte data ->
  12 + pnum b * 17 + 17 + len data <= pfree b ->
  exists b',
    insert_with_meta m data b = (Ok (pnum b), b') /\ WF b' /\
    pslots b' = pslots b ++ [mkSlot (pfree b) (len data) (len data) m] /\
    tuples b' = tuples b ++ [(m, data)] /\ pnext b' = pnext b.
Proof.
  intros W Hm Hdata Hroom.
  destruct (insert_bytes b m data W Hm Hdata Hroom)
    as (b' & He & Hl' & Hb' & Hn' & Hf' & Hd' & Hx' & Hs' & Hdat & Hold & Hsame).
  pose proof (wf_len _ W) as Hl. destruct (wf_num b W) as (Hn0 & Hdir & Hfree).
  exists b'. split; [done|].
  assert (Hss : pslots b' = pslots b ++ [mkSlot (pfree b) (len data) (len data) m]).
  { unfold pslots at 1. rewrite Hn', seqZ_app, fmap_app, pslots_unchanged by (done || lia).
    f_equal. change (seqZ (0 + pnum b) 1) with [0 + (0 + pnum b)].
    rewrite !Z.add_0_l. csimpl. by rewrite Hs'. }
  split_and!; try done.
  - split; try done.
    + rewrite Hss, Hf'. apply layout_wf_snoc; try done; [apply W|lia|].
      rewrite length_pslots by (done || apply W). lia.
    + rewrite Hss, Hd', (wf_deleted _ W). unfold deleted_count.
      rewrite fmap_app, zsum_app. csimpl. rewrite zsum_cons, zsum_nil.
      destruct (is_deleted m); simpl; lia.
  - unfold tuples. rewrite Hss, fmap_app. f_equal.
    + apply tuples_same; try done; [apply W|lia|]. intros x s Hsin Hx. apply Hsame.
      apply list_elem_of_lookup_1 in Hsin as [k Hk].
      pose proof (Forall_lookup_1 _ _ _ _ (lw_slots _ _ (wf_layout _ W)) Hk) as Hw.
      unfold slot_wf, slot_start in *. lia.
    + simpl. unfold pdata, slot_start. simpl. by rewrite Hdat.
Qed.

(** ** Changing one slot

    [keeps i b b'] says that [b'] has the tuples of [b] but for number [i]: the metadata,
    the bytes and the capacity of every other slot are those of [b]. *)

Record keeps (i : Z) (b b' : bytes) : Prop := {
  kp_num : pnum b' = pnum b;
  kp_next : pnext b' = pnext b;
  kp_meta : forall j, 0 <= j < pnum b -> j <> i -> meta (pslot b' j) = meta (pslot b j);
  kp_data : forall j, 0 <= j < pnum b -> j <> i -> pdata b' (pslot b' j) = pdata b (pslot b j);
  kp_capacity : forall j, 0 <= j < pnum b -> j <> i ->
    capacity (pslot b' j) = capacity (pslot b j);
}.

#[export] Instance keeps_refl i : Reflexive (keeps i).
Proof. by intros b; split. Qed.

#[export] Instance keeps_trans i : Transitive (keeps i).
Proof.
  intros b1 b2 b3 [N1 X1 M1 D1 C1] [N2 X2 M2 D2 C2]. rewrite N1 in *.
  split; try congruence; intros j Hj Hne; [rewrite M2, M1|rewrite D2, D1|rewrite C2, C1]; done.
Qed.

Lemma tuples_lookup b j :
  0 <= j < pnum b -> tuples b !! Z.to_nat j = Some (meta (pslot b j), pdata b (pslot b j)).
Proof.
  intros. unfold tuples. rewrite list_lookup_fmap, pslots_lookup by lia.
  rewrite Z2Nat.id by lia. done.
Qed.

Lemma length_tuples b : length (tuples b) = Z.to_nat (pnum b).
Proof. unfold tuples, pslots. by rewrite !length_fmap, length_seqZ. Qed.

Lemma keeps_tuples i b b' t :
  keeps i b b' -> 0 <= i < pnum b -> (meta (pslot b' i), pdata b' (pslot b' i)) = t ->
  tuples b' = <[Z.to_nat i := t]> (tuples b).
Proof.
  intros [N X Hm Hd _] Hi <-. apply list_eq. intros k.
  destruct (decide (Z.of_nat k < pnum b)) as [Hk|Hk].
  - rewrite <- (Nat2Z.id k) at 1. rewrite tuples_lookup by lia.
    destruct (decide (k = Z.to_nat i)) as [->|Hne].
    + rewrite list_lookup_insert_eq by (rewrite length_tuples; lia).
      by rewrite Z2Nat.id by lia.
    + rewrite list_lookup_insert_ne by lia.
      rewrite <- (Nat2Z.id k) at 3. rewrite tuples_lookup by lia.
      rewrite Hm, Hd by lia. done.
  - rewrite !lookup_ge_None_2; [done|..]; rewrite ?length_insert, length_tuples; lia.
Qed.

(** Writes that leave the regions of the other slots and their entries alone. *)
Lemma keeps_intro i b b' :
  len b = PAGE_SIZE -> 0 <= pfree b ->
  (forall j, 0 <= j < pnum b -> j <> i -> slot_wf (pfree b) (pslot b j)) ->
  len b' = PAGE_SIZE -> pnum b' = pnum b -> pnext b' = pnext b ->
  (forall j, 0 <= j < pnum b -> j <> i -> pslot b' j = pslot b j) ->
  (forall j x, 0 <= j < pnum b -> j <> i ->
    slot_start (pslot b j) <= x < offset (pslot b j) -> byte_at b' x = byte_at b x) ->
  keeps i b b'.
Proof.
  intros Hl Hf W Hl' Hn Hx Hs Hd.
  split; try done; intros j Hj Hne; rewrite Hs by done; try done.
  pose proof (W j Hj Hne) as Hw. unfold slot_wf, slot_start in *.
  apply pdata_ext; unfold slot_start; try lia. intros x Hx'. apply (Hd j); try done.
  unfold slot_start. lia.
Qed.

(** A page whose slots are those of a page, but for the metadata and size of number [i]. *)
Lemma layout_wf_update free ss (i : nat) s s' :
  layout_wf free ss -> ss !! i = Some s -> offset s' = offset s -> capacity s' = capacity s ->
  0 <= size s' <= capacity s -> layout_wf free (<[i := s']> ss).
Proof.
  intros [Hd Hs Hdis Hr] Hi Ho Hc Hsz.
  pose proof (Forall_lookup_1 _ _ _ _ Hs Hi) as Hw. split.
  - by rewrite length_insert.
  - apply Forall_insert; [done|]. unfold slot_wf, slot_start in *. lia.
  - assert (Hex : forall j s2, <[i:=s']> ss !! j = Some s2 ->
      exists s1, ss !! j = Some s1 /\ offset s2 = offset s1 /\ slot_start s2 = slot_start s1).
    { intros j s2. rewrite list_lookup_insert_Some. unfold slot_start.
      intros [(<- & <- & _)|[_ ?]]; [exists s|exists s2]; split_and!; congruence. }
    intros j k s1 s2 Hne H1 H2.
    destruct (Hex _ _ H1) as (t1 & ? & E1 & E2), (Hex _ _ H2) as (t2 & ? & E3 & E4).
    unfold slots_disjoint. rewrite E1, E2, E3, E4. by apply (Hdis j k).
  - rewrite list_fmap_insert, Hc, list_insert_id; [done|]. by rewrite list_lookup_fmap, Hi.
Qed.

Lemma deleted_count_insert (ss : list Slot) (i : nat) s s' :
  ss !! i = Some s ->
  deleted_count (<[i := s']> ss) =
    deleted_count ss - Z.b2z (is_deleted (meta s)) + Z.b2z (is_deleted (meta s')).
Proof.
  intros Hi. unfold deleted_count. rewrite list_fmap_insert.
  apply zsum_insert. by rewrite list_lookup_fmap, Hi.
Qed.

Lemma deleted_count_ge (ss : list Slot) (i : nat) s :
  ss !! i = Some s -> Z.b2z (is_deleted (meta s)) <= deleted_count ss.
Proof.
  intros Hi. unfold deleted_count. eapply (zsum_elem_le _ i).
  - apply Forall_fmap, Forall_true. intros x. simpl. destruct (is_deleted (meta x)); simpl; lia.
  - by rewrite list_lookup_fmap, Hi.
Qed.

(** ** update_meta and mark_deleted *)

Definition with_meta (s : Slot) (m : TupleMeta) : Slot :=
  mkSlot (offset s) (size s) (capacity s) m.

Lemma pslots_at b i : 0 <= i < pnum b -> pslots b !! Z.to_nat i = Some (pslot b i).
Proof. intros. rewrite pslots_lookup by lia. by rewrite Z2Nat.id by lia. Qed.

Lemma new_deleted_count b i m :
  WF b -> 0 <= i < pnum b ->
  match is_deleted (meta (pslot b i)), is_deleted m with
  | false, true =>
      if pdel b + 1 <=? u16_max then Ok (pdel b + 1) else Err (CorruptDeletedCounter (pdel b) i)
  | true, false =>
      if 0 <=? pdel b - 1 then Ok (pdel b - 1) else Err (CorruptDeletedCounter (pdel b) i)
  | _, _ => Ok (pdel b)
  end = Ok (pdel b - Z.b2z (is_deleted (meta (pslot b i))) + Z.b2z (is_deleted m)).
Proof.
  intros W Hi. pose proof (deleted_count_ge _ _ _ (pslots_at b i Hi)) as Hge.
  pose proof (deleted_count_bound (pslots b)) as Hdc.
  rewrite length_pslots in Hdc by apply W.
  destruct (wf_num b W) as (? & ? & ?). rewrite <- (wf_deleted _ W) in *.
  tpu. destruct (is_deleted (meta (pslot b i))), (is_deleted m); simpl in *.
  all: rewrite ?(proj2 (Z.leb_le _ _)) by lia; f_equal; lia.
Qed.

Lemma update_meta_ok b i m :
  WF b -> 0 <= i < pnum b -> meta_valid m ->
  exists b', update_meta i m b = (Ok tt, b') /\ WF b' /\
    pslots b' = <[Z.to_nat i := with_meta (pslot b i) m]> (pslots b) /\
    pfree b' = pfree b /\ keeps i b b' /\
    (forall x, 12 + pnum b * 17 <= x -> byte_at b' x = byte_at b x).
Proof.
  intros W Hi Hm. pose proof (wf_len _ W) as Hl. pose proof (wf_bytes _ W) as Hb.
  destruct (wf_num b W) as (Hn0 & Hdir & Hfree).
  pose proof (deleted_count_ge _ _ _ (pslots_at b i Hi)) as Hge.
  pose proof (deleted_count_bound (pslots b)) as Hdc. rewrite length_pslots in Hdc by done.
  rewrite <- (wf_deleted _ W) in *.
  unfold update_meta.
  mrun ltac:(apply existing_slot_ok; try done; lia).
  mrun ltac:(apply num_deleted_ok; done).
  mrun ltac:(apply new_deleted_count; done).
  set (nd := pdel b - _ + _).
  assert (Hnd : 0 <= nd <= 483) by
    (unfold nd; tpu; destruct (is_deleted m), (is_deleted (meta (pslot b i))); simpl in *; lia).
  do 3 (mrun pput). eexists. split; [done|].
  match goal with |- WF ?x /\ _ => set (b' := x) end.
  unfold meta_valid in *.
  assert (Hl' : len b' = PAGE_SIZE) by (unfold b'; tpu; blia).
  assert (Hn' : pnum b' = pnum b) by (unfold pnum at 1, b'; tpu; rd; done).
  assert (Hs' : pslot b' i = with_meta (pslot b i) m).
  { unfold pslot, b', with_meta. tpu. rd. rewrite Z.sub_diag. change (byte_at [?x] 0) with x.
    rewrite b2z_flag. by destruct m. }
  assert (Hss : pslots b' = <[Z.to_nat i := with_meta (pslot b i) m]> (pslots b)).
  { apply pslots_updated; try done. intros j Hj Hne. unfold b'. tpu.
    apply pslot_ext; try blia. intros k Hk. rd. done. }
  assert (Hf' : pfree b' = pfree b) by (unfold pfree at 1, b'; tpu; rd; done).
  assert (Hx : forall x, 12 + pnum b * 17 <= x -> byte_at b' x = byte_at b x).
  { intros x Hx. unfold b'. tpu. rd. done. }
  split_and!; try done.
  - split; [done|..].
    + unfold b'. repeat apply Forall_splice; auto using to_le_bytes.
      repeat constructor; destruct (is_deleted m); done.
    + rewrite Hss, Hf'. pose proof (wf_slot_at b W i Hi) as Hw. unfold slot_wf in Hw.
      eapply layout_wf_update; [apply W|by apply pslots_at|done..|]. apply Hw.
    + rewrite Hss. erewrite deleted_count_insert by by apply pslots_at.
      rewrite <- (wf_deleted _ W). unfold pdel at 1, b'. tpu. rd. done.
  - apply keeps_intro; try done; [lia|auto using wf_slot_at|..].
    + unfold pnext at 1, b'. tpu. rd. done.
    + intros j Hj Hne. unfold b'. tpu. apply pslot_ext; try blia. intros k Hk. rd. done.
    + intros j x Hj Hne Hx'. apply Hx. pose proof (wf_slot_at b W j Hj) as Hw.
      unfold slot_wf in Hw. lia.
Qed.
