(* ===== verification/TablePageUpdate.v ===== *)
(** * Updating tuples on a table page

    Compaction and [update_in_place] of [src/table_page.rs]: the page after an update holds
    the same tuples with one replaced, whether the new value goes into the old region, into
    the free space or needs the other tuples packed together first. *)

From Stdlib Require Import ZArith Lia.
From stdpp Require Import base list numbers.
From S2P Require Import Prelude Bytes Ids Buf TablePage TablePageProofs.
Import TablePage.

Local Open Scope Z_scope.

(** ** Sums of capacities *)

Lemma other_capacities_app j ss1 ss2 k :
  other_capacities j (ss1 ++ ss2) k =
    other_capacities j ss1 k + other_capacities (j + len ss1) ss2 k.
Proof.
  revert j. induction ss1 as [|s ss1 IH]; intros j; simpl.
  - by rewrite Z.add_0_r.
  - rewrite IH. replace (j + 1 + len ss1) with (j + Z.of_nat (S (length ss1))) by lia. lia.
Qed.

Lemma other_capacities_absent j ss k :
  k < j \/ j + len ss <= k -> other_capacities j ss k = zsum (capacity <$> ss).
Proof.
  revert j. induction ss as [|s ss IH]; intros j H; [done|].
  csimpl. rewrite zsum_cons. simpl in H. destruct (Z.eqb_spec j k); [lia|].
  rewrite IH by lia. done.
Qed.

Lemma other_capacities_sum (ss : list Slot) (i : nat) s :
  ss !! i = Some s ->
  other_capacities 0 ss (Z.of_nat i) = zsum (capacity <$> ss) - capacity s.
Proof.
  intros Hi. pose proof (lookup_lt_Some _ _ _ Hi) as Hlt.
  rewrite <- (take_drop_middle ss i s Hi) at 1 2.
  rewrite other_capacities_app, fmap_app, zsum_app. csimpl. rewrite zsum_cons, length_take.
  rewrite Nat.min_l by lia.
  rewrite (other_capacities_absent 0) by (rewrite length_take; lia).
  destruct (Z.eqb_spec (0 + Z.of_nat i) (Z.of_nat i)); [|lia].
  rewrite other_capacities_absent by lia. lia.
Qed.

Lemma other_capacities_ext_from (ss1 ss2 : list Slot) skip : forall j,
  length ss1 = length ss2 ->
  (forall (k : nat) s1 s2, j + Z.of_nat k <> skip -> ss1 !! k = Some s1 -> ss2 !! k = Some s2 ->
     capacity s1 = capacity s2) ->
  other_capacities j ss1 skip = other_capacities j ss2 skip.
Proof.
  revert ss2. induction ss1 as [|s1 ss1 IH]; intros [|s2 ss2] j Hl H; try done. simpl.
  rewrite (IH ss2); [|by injection Hl|].
  - destruct (Z.eqb_spec j skip); [done|]. rewrite (H 0%nat s1 s2); [done|lia|done..].
  - intros k t1 t2 Hk. apply (H (S k)). lia.
Qed.

Lemma other_capacities_ext (ss1 ss2 : list Slot) skip :
  length ss1 = length ss2 ->
  (forall (k : nat) s1 s2, Z.of_nat k <> skip -> ss1 !! k = Some s1 -> ss2 !! k = Some s2 ->
     capacity s1 = capacity s2) ->
  other_capacities 0 ss1 skip = other_capacities 0 ss2 skip.
Proof. intros Hl H. apply other_capacities_ext_from; [done|]. intros k s1 s2 Hk. by apply H. Qed.

Lemma other_capacities_nonneg ss j k :
  Forall (fun s => 0 <= capacity s) ss -> 0 <= other_capacities j ss k.
Proof.
  intros Hc. revert j. induction Hc as [|s ss H _ IH]; intros j; simpl; [lia|].
  pose proof (IH (j + 1)). destruct (j =? k); lia.
Qed.

(** The end of the region compaction gives to slot [n] of [ss], packing down from [endp]. *)
Definition packed_end (endp : Z) (j : Z) (ss : list Slot) (skip : Z) (n : nat) : Z :=
  endp - other_capacities j (take n ss) skip.

Lemma packed_end_0 endp j ss skip : packed_end endp j ss skip 0 = endp.
Proof. unfold packed_end. simpl. lia. Qed.

Lemma packed_end_cons endp j s ss skip n :
  packed_end endp j (s :: ss) skip (S n) =
    packed_end (endp - (if j =? skip then 0 else capacity s)) (j + 1) ss skip n.
Proof. unfold packed_end. simpl. lia. Qed.

Lemma packed_end_S endp ss skip (n : nat) s :
  ss !! n = Some s ->
  packed_end endp 0 ss skip (S n) =
    packed_end endp 0 ss skip n - (if Z.of_nat n =? skip then 0 else capacity s).
Proof.
  intros H. pose proof (lookup_lt_Some _ _ _ H).
  unfold packed_end. rewrite (take_S_r _ _ s) by done.
  rewrite other_capacities_app. simpl. rewrite length_take, Nat.min_l by lia.
  change (0 + Z.of_nat n) with (Z.of_nat n). lia.
Qed.

Lemma packed_end_mono endp ss skip (n m : nat) :
  Forall (fun s => 0 <= capacity s) ss -> (n <= m)%nat ->
  packed_end endp 0 ss skip m <= packed_end endp 0 ss skip n.
Proof.
  intros Hc Hle. unfold packed_end.
  replace (take m ss) with (take n ss ++ drop n (take m ss)).
  - rewrite other_capacities_app.
    pose proof (other_capacities_nonneg (drop n (take m ss)) (0 + len (take n ss)) skip
      (Forall_drop _ _ _ (Forall_take _ _ _ Hc))). lia.
  - rewrite <- (take_drop n (take m ss)) at 2. f_equal. rewrite take_take. f_equal. lia.
Qed.

(** The regions of the slots that are kept lie between the new free space and [endp]. *)
Lemma packed_region endp ss skip (n : nat) s :
  Forall (fun s => 0 <= capacity s) ss -> ss !! n = Some s -> Z.of_nat n <> skip ->
  endp - other_capacities 0 ss skip <= packed_end endp 0 ss skip n - capacity s /\
  packed_end endp 0 ss skip n <= endp.
Proof.
  intros Hc Hs Hne. pose proof (lookup_lt_Some _ _ _ Hs) as Hlt.
  pose proof (packed_end_mono endp ss skip 0 n Hc ltac:(lia)) as H0.
  pose proof (packed_end_mono endp ss skip (S n) (length ss) Hc ltac:(lia)) as H1.
  rewrite packed_end_0 in H0. rewrite (packed_end_S _ _ _ _ s Hs) in H1.
  rewrite (proj2 (Z.eqb_neq _ _)) in H1 by done.
  unfold packed_end at 1 in H1. rewrite take_ge in H1 by lia. lia.
Qed.

(** ** The compaction loop *)

(** What the loop leaves in slot [k] of the page: an entry pointing at [endp], holding
    region [r] there unless it is the slot left out. *)
Definition packed_slot (c c' : bytes) (k : Z) (skip endp : Z) (s : Slot) (r : bytes) : Prop :=
  if k =? skip then
    pslot c' k = mkSlot endp (size (pslot c k)) 0 (meta (pslot c k))
  else
    pslot c' k = mkSlot endp (size (pslot c k)) (capacity (pslot c k)) (meta (pslot c k)) /\
    sub c' (endp - capacity s) (capacity s) = r.

(** The loop run on the slots from number [j] on leaves the header, the entries before [j]
    and the bytes from [endp] on alone. *)
Record packed (c c' : bytes) (j endp skip : Z) (srs : list (Slot * bytes)) : Prop := {
  pk_len : len c' = PAGE_SIZE;
  pk_bytes : Forall is_byte c';
  pk_low : forall x, 0 <= x < 12 + j * 17 -> byte_at c' x = byte_at c x;
  pk_high : forall x, endp <= x < PAGE_SIZE -> byte_at c' x = byte_at c x;
  pk_slot : forall (k : nat) s r, srs !! k = Some (s, r) ->
    packed_slot c c' (j + Z.of_nat k) skip (packed_end endp j srs.*1 skip k) s r;
}.

Definition region_fits (sr : Slot * bytes) : Prop :=
  0 <= capacity sr.1 /\ len sr.2 = capacity sr.1 /\ Forall is_byte sr.2.

(** The writes for one slot of the loop: the region, then the entry. *)
Lemma skip_step c j endp :
  len c = PAGE_SIZE -> Forall is_byte c -> 0 <= j -> 12 + j * 17 + 17 <= endp <= PAGE_SIZE ->
  let c1 := splice (splice c (12 + j * 17) (to_le 4 endp)) (12 + j * 17 + 6) (to_le 2 0) in
  len c1 = PAGE_SIZE /\ Forall is_byte c1 /\
  pslot c1 j = mkSlot endp (size (pslot c j)) 0 (meta (pslot c j)) /\
  (forall x, 0 <= x -> x < 12 + j * 17 \/ 12 + j * 17 + 17 <= x -> byte_at c1 x = byte_at c x).
Proof.
  intros Hl Hb Hj He c1. tpu. split_and!.
  - unfold c1. blia.
  - unfold c1. auto using Forall_splice, to_le_bytes.
  - unfold pslot, c1. rd. done.
  - intros x Hx Ho. unfold c1. rd. done.
Qed.

Lemma move_step c j endp n r :
  len c = PAGE_SIZE -> Forall is_byte c -> 0 <= j -> 0 <= n -> len r = n -> Forall is_byte r ->
  12 + j * 17 + 17 <= endp - n -> endp <= PAGE_SIZE ->
  let c1 := splice (splice c (endp - n) r) (12 + j * 17) (to_le 4 endp) in
  len c1 = PAGE_SIZE /\ Forall is_byte c1 /\
  pslot c1 j = mkSlot endp (size (pslot c j)) (capacity (pslot c j)) (meta (pslot c j)) /\
  sub c1 (endp - n) n = r /\
  (forall x, 0 <= x -> x < 12 + j * 17 \/ 12 + j * 17 + 17 <= x -> x < endp - n \/ endp <= x ->
     byte_at c1 x = byte_at c x).
Proof.
  intros Hl Hb Hj Hn Hr Hrb He Hp c1. tpu. split_and!.
  - unfold c1. blia.
  - unfold c1. auto using Forall_splice, to_le_bytes.
  - unfold pslot, c1. rd. done.
  - unfold c1. rd. rewrite <- Hr. rewrite sub_splice_same by blia. done.
  - intros x Hx Ho Ho'. unfold c1. rd. done.
Qed.

(** One step of the loop followed by the rest of it. *)
Lemma packed_cons c c1 c' j endp skip s r srs :
  let e1 := endp - (if j =? skip then 0 else capacity s) in
  len c = PAGE_SIZE -> len c1 = PAGE_SIZE -> 0 <= j -> 0 <= capacity s ->
  12 + (j + 1 + len srs) * 17 <= e1 -> endp <= PAGE_SIZE ->
  packed_slot c c1 j skip endp s r ->
  (forall x, 0 <= x -> x < 12 + j * 17 \/ 12 + j * 17 + 17 <= x -> x < e1 \/ endp <= x ->
     byte_at c1 x = byte_at c x) ->
  packed c1 c' (j + 1) e1 skip srs -> packed c c' j endp skip ((s, r) :: srs).
Proof.
  intros e1 Hl Hl1 Hj Hc Hroom Hp Hhead Hx [L B Low High Sl].
  assert (He1 : e1 <= endp) by (unfold e1; case_match; lia).
  assert (Hkeep : pslot c' j = pslot c1 j).
  { apply pslot_ext; try lia. intros k Hk. apply Low. lia. }
  split; try done.
  - intros x H. rewrite Low, Hx by lia. done.
  - intros x H. rewrite High, Hx by lia. done.
  - intros [|k] s' r' Hk; simpl in Hk; [injection Hk as <- <-|].
    + cbn [fmap list_fmap fst]. rewrite packed_end_0, Z.add_0_r. unfold packed_slot in *. rewrite Hkeep.
      destruct (Z.eqb_spec j skip); [done|]. destruct Hhead as [-> Hsub]. split; [done|].
      rewrite <- Hsub. apply sub_ext; try lia. intros i Hi. apply High. lia.
    + pose proof (lookup_lt_Some _ _ _ Hk). specialize (Sl k s' r' Hk).
      cbn [fmap list_fmap fst]. rewrite packed_end_cons. fold e1.
      replace (j + Z.of_nat (S k)) with (j + 1 + Z.of_nat k) by lia.
      assert (Hs : pslot c1 (j + 1 + Z.of_nat k) = pslot c (j + 1 + Z.of_nat k)).
      { apply pslot_ext; try lia. intros i Hi. apply Hx; lia. }
      unfold packed_slot in *. by rewrite <- Hs.
Qed.

Lemma compact_loop_ok srs : forall j c endp skip,
  len c = PAGE_SIZE -> Forall is_byte c -> 0 <= j -> Forall region_fits srs ->
  12 + (j + len srs) * 17 <= endp - other_capacities j srs.*1 skip -> endp <= PAGE_SIZE ->
  exists c', compact_loop j srs skip endp c = (Ok (endp - other_capacities j srs.*1 skip), c') /\
    packed c c' j endp skip srs.
Proof.
  induction srs as [|[s r] srs IH]; intros j c endp skip Hl Hb Hj Hf Hroom Hp.
  { exists c. csimpl. split; [by rewrite Z.sub_0_r|]. by split. }
  destruct (Forall_cons_1 _ _ _ Hf) as [(Hc & Hr & Hrb) Hf']. csimpl in *.
  assert (Hoc : 0 <= other_capacities (j + 1) srs.*1 skip).
  { apply other_capacities_nonneg, Forall_fmap. eapply Forall_impl; [|exact Hf']. by intros ? []. }
  destruct (Z.eqb_spec j skip) as [->|Hne].
  - destruct (skip_step c skip endp) as (Hl1 & Hb1 & Hs1 & Hx1); try done; [lia|].
    do 2 (mrun pput). tpu. rewrite Z.add_0_r.
    set (c1 := splice (splice _ _ _) _ _) in *.
    destruct (IH (skip + 1) c1 endp skip) as (c' & Hrun & Hpk); try done; try lia.
    exists c'. split; [rewrite Hrun; do 2 f_equal; lia|].
    apply (packed_cons c c1); rewrite ?Z.eqb_refl, ?Z.sub_0_r; try done; try lia.
    + unfold packed_slot. by rewrite Z.eqb_refl.
    + auto.
  - destruct (move_step c j endp (capacity s) r) as (Hl1 & Hb1 & Hs1 & Hr1 & Hx1);
      try done; [lia|].
    mrun ltac:(apply sub_u32_ok; tpu; lia). do 2 (mrun pput). tpu. rewrite Z.add_0_r.
    set (c1 := splice (splice _ _ _) _ _) in *.
    destruct (IH (j + 1) c1 (endp - capacity s) skip) as (c' & Hrun & Hpk); try done; try lia.
    exists c'. split; [rewrite Hrun; do 2 f_equal; lia|].
    apply Z.eqb_neq in Hne as Hne'.
    apply (packed_cons c c1); rewrite ?Hne'; try done; try lia.
    unfold packed_slot. by rewrite Hne'.
Qed.

(** ** Pages with a slot to be placed

    Between compaction and [claim_free_region] the entry of the slot being updated does not
    describe a region; every other slot does. *)

Record layout_except (i : nat) (free : Z) (ss : list Slot) : Prop := {
  le_dir : 12 + 17 * len ss <= free <= PAGE_SIZE;
  le_slots : forall (j : nat) s, j <> i -> ss !! j = Some s -> slot_wf free s;
  le_disjoint : forall (j k : nat) s1 s2, j <> i -> k <> i -> j <> k ->
    ss !! j = Some s1 -> ss !! k = Some s2 -> slots_disjoint s1 s2;
  le_room : other_capacities 0 ss (Z.of_nat i) <= PAGE_SIZE - free;
}.

Record WFX (i : Z) (b : bytes) : Prop := {
  wx_len : len b = PAGE_SIZE;
  wx_bytes : Forall is_byte b;
  wx_layout : layout_except (Z.to_nat i) (pfree b) (pslots b);
  wx_deleted : pdel b = deleted_count (pslots b);
}.

Lemma WF_WFX b i : WF b -> 0 <= i < pnum b -> WFX i b.
Proof.
  intros W Hi. split; try apply W. pose proof (wf_layout _ W) as [Hd Hs Hdis Hr]. split; try done.
  - intros j s _ Hj. by apply (Forall_lookup_1 _ _ _ _ Hs Hj).
  - eauto.
  - rewrite (other_capacities_sum _ _ _ (pslots_at b i Hi)).
    pose proof (wf_slot_at b W i Hi) as Hw. unfold slot_wf in Hw. lia.
Qed.

Lemma layout_except_insert (i : nat) free ss s :
  layout_except i free ss -> (i < length ss)%nat -> offset s = free ->
  0 <= size s <= capacity s -> 12 + 17 * len ss <= free - capacity s ->
  layout_wf (free - capacity s) (<[i := s]> ss).
Proof.
  intros [Hd Hs Hdis Hr] Hi Ho Hsz Hroom. destruct (lookup_lt_is_Some_2 ss i Hi) as [s0 Hs0]. split.
  - rewrite length_insert. lia.
  - apply Forall_lookup. intros j s' [(<- & <- & _)|[Hne H]]%list_lookup_insert_Some.
    + unfold slot_wf, slot_start. lia.
    + specialize (Hs j s' (not_eq_sym Hne) H). unfold slot_wf in *. lia.
  - intros j k s1 s2 Hne [(<- & <- & _)|[N1 H1]]%list_lookup_insert_Some
      [(<- & <- & _)|[N2 H2]]%list_lookup_insert_Some; [done|..|eauto].
    + specialize (Hs k s2 (not_eq_sym N2) H2). unfold slots_disjoint, slot_wf in *. lia.
    + specialize (Hs j s1 (not_eq_sym N1) H1). unfold slots_disjoint, slot_wf in *. lia.
  - rewrite list_fmap_insert, (zsum_insert _ _ (capacity s0)) by by rewrite list_lookup_fmap, Hs0.
    rewrite (other_capacities_sum ss i s0 Hs0) in Hr. lia.
Qed.

Lemma pslot_size_bound b i :
  len b = PAGE_SIZE -> Forall is_byte b -> 0 <= i -> 12 + i * 17 + 17 <= PAGE_SIZE ->
  0 <= size (pslot b i).
Proof. intros. apply (le_at_bound 2 b); try done; lia. Qed.

Lemma claim_free_region_ok b i n :
  WFX i b -> 0 <= i < pnum b -> size (pslot b i) <= n <= u16_max ->
  12 + pnum b * 17 <= pfree b - n ->
  exists b', claim_free_region i n b = (Ok (pslot b' i), b') /\ WF b' /\
    pslot b' i = mkSlot (pfree b) (size (pslot b i)) n (meta (pslot b i)) /\ keeps i b b'.
Proof.
  intros [Hl Hb Hlay Hdel] Hi Hn Hroom. pose proof (le_dir _ _ _ Hlay) as Hd.
  rewrite length_pslots in Hd by done.
  assert (Hsz : 0 <= size (pslot b i)) by (apply pslot_size_bound; try done; lia).
  unfold claim_free_region.
  mrun ltac:(apply free_space_ok; done).
  mrun ltac:(apply sub_u32_ok; lia).
  do 3 (mrun pput). tpu. rewrite Z.add_0_r.
  set (b' := splice (splice (splice _ _ _) _ _) _ _).
  assert (Hl' : len b' = PAGE_SIZE) by (unfold b'; tpu; blia).
  assert (Hn' : pnum b' = pnum b) by (unfold pnum at 1, b'; tpu; rd; done).
  assert (Hf' : pfree b' = pfree b - n) by (unfold pfree at 1, b'; tpu; rd; done).
  assert (Hs' : pslot b' i = mkSlot (pfree b) (size (pslot b i)) n (meta (pslot b i))).
  { unfold pslot, b'. tpu. rd. done. }
  assert (Ho' : forall j, 0 <= j < pnum b -> j <> i -> pslot b' j = pslot b j).
  { intros j Hj Hne. unfold b'. tpu. apply pslot_ext; try blia. intros k Hk. rd. done. }
  assert (Hss : pslots b' = <[Z.to_nat i := pslot b' i]> (pslots b)).
  { by apply pslots_updated. }
  mrun ltac:(apply slot_ok; tpu; lia).
  exists b'. split; [done|]. split_and!; [|done|].
  - split; [done|..].
    + unfold b'. auto 6 using Forall_splice, to_le_bytes.
    + rewrite Hss, Hf'. pose proof (length_pslots b Hb Hl).
      replace n with (capacity (pslot b' i)) by by rewrite Hs'.
      apply layout_except_insert; rewrite ?Hs'; try done; cbn [size capacity]; lia.
    + rewrite Hss. erewrite deleted_count_insert by by apply pslots_at.
      rewrite <- Hdel, Hs'. cbn [meta].
      assert (Hd' : pdel b' = pdel b) by (unfold pdel, b'; tpu; rd; done). lia.
  - assert (Hw : forall j, 0 <= j < pnum b -> j <> i -> slot_wf (pfree b) (pslot b j)).
    { intros j Hj Hne. apply (le_slots _ _ _ Hlay (Z.to_nat j)); [lia|by apply pslots_at]. }
    apply keeps_intro; try done; [lia|unfold pnext at 1, b'; tpu; rd; done|].
    intros j x Hj Hne Hx. specialize (Hw j Hj Hne). unfold slot_wf in Hw. unfold b'. tpu. rd. done.
Qed.

(** ** Compaction *)

Lemma regions_of_ok b (ss : list Slot) :
  len b = PAGE_SIZE -> 0 <= pfree b -> Forall (slot_wf (pfree b)) ss ->
  regions_of b ss = Ok ((fun s => sub b (slot_start s) (capacity s)) <$> ss).
Proof.
  intros Hl Hf. induction 1 as [|s ss Hs _ IH]; [done|].
  unfold slot_wf, slot_start in *. simpl. unfold region, region_start.
  rewrite sub_u32_ok by lia. simpl. rewrite slice_ok by lia. simpl. rewrite IH. simpl.
  do 3 f_equal. lia.
Qed.

Lemma zip_map {A B} (f : A -> B) (l : list A) : zip l (f <$> l) = (fun x => (x, f x)) <$> l.
Proof. induction l; csimpl; congruence. Qed.

Lemma wf_capacities b : WF b -> Forall (fun s => 0 <= capacity s) (pslots b).
Proof.
  intros W. eapply Forall_impl; [|apply (lw_slots _ _ (wf_layout _ W))].
  unfold slot_wf. intros s Hs. lia.
Qed.

(** The entries and regions after the loop, slot by slot. *)
Definition compacted (b b' : bytes) (i : Z) : Prop :=
  forall j, 0 <= j < pnum b ->
    packed_slot b b' j i (packed_end PAGE_SIZE 0 (pslots b) i (Z.to_nat j)) (pslot b j)
      (sub b (slot_start (pslot b j)) (capacity (pslot b j))).

Lemma compact_without_bytes b i :
  WF b -> 0 <= i < pnum b ->
  exists b', compact_without i b = (Ok tt, b') /\ len b' = PAGE_SIZE /\ Forall is_byte b' /\
    pnum b' = pnum b /\ pdel b' = pdel b /\ pnext b' = pnext b /\
    pfree b' = PAGE_SIZE - other_capacities 0 (pslots b) i /\ compacted b b' i.
Proof.
  intros W Hi. pose proof (wf_len _ W) as Hl. pose proof (wf_bytes _ W) as Hb.
  destruct (wf_num b W) as (Hn0 & Hdir & Hfree).
  pose proof (other_capacities_nonneg (pslots b) 0 i (wf_capacities b W)) as Hoc.
  pose proof (le_room _ _ _ (wx_layout _ _ (WF_WFX b i W Hi))) as Hroom.
  rewrite Z2Nat.id in Hroom by lia.
  unfold compact_without.
  mrun ltac:(apply slots_ok; try done; lia).
  mrun ltac:(apply regions_of_ok; [done|lia|apply W]).
  rewrite zip_map. set (srs := _ <$> pslots b).
  assert (Hfst : srs.*1 = pslots b).
  { unfold srs. rewrite <- list_fmap_compose. apply list_fmap_id. }
  destruct (compact_loop_ok srs 0 b PAGE_SIZE i) as (c & Hrun & [L B Low High Sl]); try done.
  { apply Forall_fmap. eapply Forall_impl; [|apply (lw_slots _ _ (wf_layout _ W))].
    intros s Hs. unfold slot_wf, slot_start, region_fits in *. simpl.
    split_and!; [lia|rewrite len_sub; lia|by apply Forall_sub]. }
  { rewrite Hfst. unfold srs. rewrite length_fmap, length_pslots by done. lia. }
  rewrite Hfst in *. erewrite bind_Ok by exact Hrun.
  set (e := PAGE_SIZE - other_capacities 0 (pslots b) i) in *.
  mrun pput. exists (splice c FREE_SPACE_OFF (to_le 4 e)). tpu.
  assert (Hlow : forall n o, 0 <= o -> 0 <= n -> o + n <= 12 -> le_at n c o = le_at n b o).
  { intros. apply le_at_ext; try lia. intros k Hk. apply Low. lia. }
  split_and!; try done.
  - blia.
  - auto using Forall_splice, to_le_bytes.
  - unfold pnum. rd. apply Hlow; lia.
  - unfold pdel. rd. apply Hlow; lia.
  - unfold pnext. rd. apply Hlow; lia.
  - unfold pfree. rd. done.
  - intros j Hj.
    assert (Hk : srs !! Z.to_nat j = Some (pslot b j,
      sub b (slot_start (pslot b j)) (capacity (pslot b j)))).
    { unfold srs. by rewrite list_lookup_fmap, pslots_at. }
    specialize (Sl _ _ _ Hk). rewrite Z.add_0_l, Z2Nat.id in Sl by lia.
    unfold packed_slot in *. rewrite pslot_splice by (rewrite ?length_to_le; lia).
    destruct (Z.eqb_spec j i); [done|]. destruct Sl as [? Hsub]. split; [done|].
    rewrite <- Hsub.
    pose proof (packed_region PAGE_SIZE (pslots b) i _ _ (wf_capacities b W) (pslots_at b j Hj))
      as Hreg. rewrite Z2Nat.id in Hreg by lia. specialize (Hreg n).
    pose proof (wf_slot_at b W j Hj) as Hw. unfold slot_wf in Hw.
    apply sub_splice_disjoint; rewrite ?length_to_le; tpu; lia.
Qed.

(** A slot of a compacted page, other than the one left out. *)
Lemma compacted_slot b b' i j :
  WF b -> compacted b b' i -> 0 <= j < pnum b -> j <> i ->
  let e := packed_end PAGE_SIZE 0 (pslots b) i (Z.to_nat j) in
  pslot b' j = mkSlot e (size (pslot b j)) (capacity (pslot b j)) (meta (pslot b j)) /\
  PAGE_SIZE - other_capacities 0 (pslots b) i <= e - capacity (pslot b j) /\ e <= PAGE_SIZE /\
  packed_end PAGE_SIZE 0 (pslots b) i (S (Z.to_nat j)) = e - capacity (pslot b j) /\
  sub b' (e - capacity (pslot b j)) (capacity (pslot b j)) =
    sub b (slot_start (pslot b j)) (capacity (pslot b j)).
Proof.
  intros W Hc Hj Hne e. specialize (Hc j Hj). unfold packed_slot in Hc.
  rewrite (proj2 (Z.eqb_neq _ _)) in Hc by done. destruct Hc as [Hs Hd].
  destruct (packed_region PAGE_SIZE (pslots b) i _ _ (wf_capacities b W) (pslots_at b j Hj));
    [lia|].
  rewrite (packed_end_S _ _ _ _ _ (pslots_at b j Hj)), Z2Nat.id by lia.
  by rewrite (proj2 (Z.eqb_neq _ _)) by done.
Qed.

Lemma compacted_layout b b' i :
  WF b -> 0 <= i < pnum b -> pnum b' = pnum b -> compacted b b' i ->
  layout_except (Z.to_nat i) (PAGE_SIZE - other_capacities 0 (pslots b) i) (pslots b').
Proof.
  intros W Hi Hn Hc. destruct (wf_num b W) as (Hn0 & Hdir & Hfree).
  pose proof (other_capacities_nonneg (pslots b) 0 i (wf_capacities b W)) as Hoc.
  pose proof (le_room _ _ _ (wx_layout _ _ (WF_WFX b i W Hi))) as Hroom.
  rewrite Z2Nat.id in Hroom by lia.
  assert (Hget : forall (j : nat) s, j <> Z.to_nat i -> pslots b' !! j = Some s ->
    0 <= Z.of_nat j < pnum b /\ Z.of_nat j <> i /\ s = pslot b' (Z.of_nat j)).
  { intros j s Hne Hj. apply pslots_lookup_inv in Hj as [? ->]. split_and!; try done; lia. }
  split.
  - assert (len (pslots b') = pnum b); [|lia].
    unfold pslots. rewrite length_fmap, length_seqZ. lia.
  - intros j s Hne Hj. destruct (Hget j s Hne Hj) as (Hjr & Hji & ->).
    destruct (compacted_slot b b' i _ W Hc Hjr Hji) as (-> & H1 & H2 & _).
    pose proof (wf_slot_at b W _ Hjr) as Hw. unfold slot_wf, slot_start in *. cbn. lia.
  - intros j k s1 s2 Hj Hk Hjk H1 H2.
    destruct (Hget j s1 Hj H1) as (Hjr & Hji & ->), (Hget k s2 Hk H2) as (Hkr & Hki & ->).
    destruct (compacted_slot b b' i _ W Hc Hjr Hji) as (-> & _ & _ & Ej & _).
    destruct (compacted_slot b b' i _ W Hc Hkr Hki) as (-> & _ & _ & Ek & _).
    unfold slots_disjoint, slot_start. cbn [offset capacity]. rewrite <- Ej, <- Ek.
    rewrite !Nat2Z.id. pose proof (wf_capacities b W) as Hcap.
    destruct (decide (j < k)%nat); [right|left]; apply packed_end_mono; try done; lia.
  - rewrite Z2Nat.id by lia. rewrite (other_capacities_ext _ (pslots b)); [lia|..].
    + unfold pslots. rewrite !length_fmap, !length_seqZ. lia.
    + intros k s1 s2 Hk H1 H2. apply pslots_lookup_inv in H1 as [H1 ->], H2 as [H2 ->].
      by destruct (compacted_slot b b' i (Z.of_nat k) W Hc ltac:(lia) Hk) as (-> & _).
Qed.

Lemma compact_without_ok b i :
  WF b -> 0 <= i < pnum b ->
  exists b', compact_without i b = (Ok tt, b') /\ WFX i b' /\
    pfree b' = PAGE_SIZE - other_capacities 0 (pslots b) i /\ keeps i b b' /\
    size (pslot b' i) = size (pslot b i) /\ meta (pslot b' i) = meta (pslot b i).
Proof.
  intros W Hi.
  destruct (compact_without_bytes b i W Hi) as (b' & He & Hl & Hb & Hn & Hd & Hx & Hf & Hc).
  exists b'. split; [done|].
  assert (Hi' : size (pslot b' i) = size (pslot b i) /\ meta (pslot b' i) = meta (pslot b i)).
  { specialize (Hc i Hi). unfold packed_slot in Hc. rewrite Z.eqb_refl in Hc. by rewrite Hc. }
  assert (Hmeta : forall j, 0 <= j < pnum b -> meta (pslot b' j) = meta (pslot b j)).
  { intros j Hj. destruct (decide (j = i)) as [->|Hne]; [apply Hi'|].
    by destruct (compacted_slot b b' i j W Hc Hj Hne) as (-> & _). }
  split_and!; [|done| |apply Hi'..].
  - split; try done.
    + rewrite Hf. by apply compacted_layout.
    + rewrite Hd, (wf_deleted _ W). unfold deleted_count. f_equal. unfold pslots.
      rewrite Hn, <- !list_fmap_compose. apply list_fmap_ext.
      intros k j Hj. apply lookup_seqZ in Hj. unfold compose. rewrite Hmeta by lia. done.
  - split; try done; [auto|..]; intros j Hj Hne;
      destruct (compacted_slot b b' i j W Hc Hj Hne) as (-> & H1 & H2 & _ & Hdat); [|done].
    unfold pdata. unfold slot_start at 1. cbn [offset capacity size].
    pose proof (wf_slot_at b W j Hj) as Hw. unfold slot_wf in Hw.
    pose proof (wf_len _ W). destruct (wf_num b W) as (? & ? & ?).
    pose proof (le_room _ _ _ (wx_layout _ _ (WF_WFX b i W Hi))) as Hr.
    rewrite Z2Nat.id in Hr by lia.
    apply (f_equal (fun r => sub r 0 (size (pslot b j)))) in Hdat.
    rewrite !sub_sub, !Z.add_0_r in Hdat by (unfold slot_start in *; lia). exact Hdat.
Qed.

(** ** Writing the tuple *)

(** The end of [update_in_place]: the bytes and the size go into the slot's region. *)
Definition write_tuple (i : Z) (start : Z) (data : bytes) : page unit :=
  _ ← modify (fun b => copy_from_slice b start (start + len data) data);
  modify (fun b => put_u16_le b (slot_base i + SLOT_SIZE_OFF) (len data)).

Lemma write_tuple_ok b i data :
  WF b -> 0 <= i < pnum b -> Forall is_byte data -> len data <= capacity (pslot b i) ->
  exists b', write_tuple i (slot_start (pslot b i)) data b = (Ok tt, b') /\ WF b' /\
    keeps i b b' /\ meta (pslot b' i) = meta (pslot b i) /\
    capacity (pslot b' i) = capacity (pslot b i) /\ pdata b' (pslot b' i) = data.
Proof.
  intros W Hi Hdata Hcap. pose proof (wf_len _ W) as Hl. pose proof (wf_bytes _ W) as Hb.
  destruct (wf_num b W) as (Hn0 & Hdir & Hfree). pose proof (wf_slot_at b W i Hi) as Hw.
  unfold slot_wf, slot_start in Hw.
  unfold write_tuple. do 2 (mrun ltac:(unfold slot_start; pput)). eexists. split; [done|].
  match goal with |- WF ?x /\ _ => set (b' := x) end. unfold slot_start in b'.
  assert (Hl' : len b' = PAGE_SIZE) by (unfold b'; tpu; blia).
  assert (Hn' : pnum b' = pnum b) by (unfold pnum at 1, b'; tpu; rd; done).
  assert (Hf' : pfree b' = pfree b) by (unfold pfree at 1, b'; tpu; rd; done).
  assert (Hs' : pslot b' i = mkSlot (offset (pslot b i)) (len data) (capacity (pslot b i))
    (meta (pslot b i))).
  { set (s := pslot b i) in *. assert (Hs : s = pslot b i) by done. destruct s as [o z c m].
    cbn [offset size capacity meta] in *. unfold pslot in Hs. injection Hs as -> -> -> ->.
    unfold pslot, b'. tpu. rd. done. }
  assert (Ho' : forall j, 0 <= j < pnum b -> j <> i -> pslot b' j = pslot b j).
  { intros j Hj Hne. unfold b'. tpu. apply pslot_ext; try blia. intros k Hk. rd. done. }
  split_and!; rewrite ?Hs'; try done.
  - split; [done|..].
    + unfold b'. auto using Forall_splice, to_le_bytes.
    + rewrite Hf', (pslots_updated b b' i _ Hi Hn' Hs' Ho').
      eapply layout_wf_update; [apply W|by apply pslots_at|done..|]. cbn [size]. lia.
    + rewrite (pslots_updated b b' i _ Hi Hn' Hs' Ho').
      erewrite deleted_count_insert by by apply pslots_at. cbn [meta].
      assert (Hd' : pdel b' = pdel b) by (unfold pdel, b'; tpu; rd; done).
      rewrite <- (wf_deleted _ W). lia.
  - apply keeps_intro; try done; [lia|auto using wf_slot_at|..].
    + unfold pnext at 1, b'. tpu. rd. done.
    + intros j x Hj Hne Hx. pose proof (wf_slot_at b W j Hj) as Hwj.
      pose proof (wf_disjoint_at b W i j Hi Hj (not_eq_sym Hne)) as Hdis.
      unfold slots_disjoint, slot_wf, slot_start in *. unfold b'. tpu. rd. done.
  - unfold pdata, slot_start, b'. cbn [offset capacity size]. tpu. rd.
    rewrite sub_splice_same by blia. done.
Qed.

(** ** update_in_place *)

(** The bytes a tuple in slot [i] can have, with every other region packed. *)
Definition available (b : bytes) (i : Z) : Z :=
  PAGE_SIZE - (12 + pnum b * 17) - other_capacities 0 (pslots b) i.

Lemma available_ge b i :
  WF b -> 0 <= i < pnum b ->
  capacity (pslot b i) + (pfree b - (12 + pnum b * 17)) <= available b i <= MAX_TUPLE_SIZE.
Proof.
  intros W Hi. unfold available.
  pose proof (other_capacities_nonneg (pslots b) 0 i (wf_capacities b W)) as Hoc.
  pose proof (other_capacities_sum _ _ _ (pslots_at b i Hi)) as Hsum.
  rewrite Z2Nat.id in Hsum by lia. pose proof (lw_room _ _ (wf_layout _ W)). tpu. lia.
Qed.

Lemma check_region_ok b s :
  len b = PAGE_SIZE -> slot_wf (pfree b) s -> 0 <= pfree b -> check_region b s = Ok tt.
Proof.
  intros Hl Hw Hf. unfold slot_wf, slot_start in Hw.
  unfold check_region, region_start. rewrite free_space_ok by done. simpl.
  rewrite !(proj2 (Z.ltb_ge _ _)) by lia. rewrite sub_u32_ok by lia. simpl.
  by rewrite !(proj2 (Z.ltb_ge _ _)) by lia.
Qed.

(** What [place] answers on a well-formed page. *)
Definition placement (b : bytes) (i n : Z) : res Placement :=
  if n <=? capacity (pslot b i) then Ok InPlace
  else if n <=? pfree b - (12 + pnum b * 17) then Ok Free
  else if n <=? available b i then Ok AfterCompaction
  else Err (UpdateDoesNotFit i n (available b i)).

Lemma place_ok b i n :
  WF b -> 0 <= i < pnum b -> place b (pslot b i) i n = placement b i n.
Proof.
  intros W Hi. pose proof (wf_len _ W) as Hl. destruct (wf_num b W) as (Hn0 & Hdir & Hfree).
  pose proof (available_ge b i W Hi) as Hav. pose proof (wf_slot_at b W i Hi) as Hw.
  unfold slot_wf in Hw. unfold place, placement. case_match; [done|].
  unfold free_bytes. rewrite free_space_ok, directory_end_ok by done. simpl.
  rewrite Z.max_r by lia. case_match; [done|].
  rewrite slots_ok by (try done; lia). simpl.
  rewrite sub_u32_ok by lia. simpl. unfold available in *. rewrite sub_u32_ok by lia. done.
Qed.

Lemma available_fits b i n :
  WF b -> 0 <= i < pnum b ->
  if n <=? available b i then exists p, placement b i n = Ok p
  else placement b i n = Err (UpdateDoesNotFit i n (available b i)).
Proof.
  intros W Hi. pose proof (available_ge b i W Hi) as Hav. destruct (wf_num b W) as (? & ? & ?).
  pose proof (wf_slot_at b W i Hi) as Hw. unfold slot_wf in Hw. unfold placement.
  destruct (Z.leb_spec n (available b i)).
  - repeat case_match; eauto.
  - by rewrite !(proj2 (Z.leb_gt _ _)) by lia.
Qed.

(** The middle of [update_in_place]: finding the tuple's region. *)
Definition make_room (p : Placement) (current : Slot) (i sz : Z) : page Slot :=
  match p with
  | InPlace => mret current
  | Free => claim_free_region i sz
  | AfterCompaction => _ ← compact_without i; claim_free_region i sz
  end.

Lemma region_start_ok b i s :
  WF b -> 0 <= i < pnum b -> offset s = offset (pslot b i) -> capacity s = capacity (pslot b i) ->
  region_start s = Ok (slot_start (pslot b i)).
Proof.
  intros W Hi Ho Hc. destruct (wf_num b W) as (? & ? & ?).
  pose proof (wf_slot_at b W i Hi) as Hw. unfold slot_wf, slot_start in *.
  unfold region_start. rewrite Ho, Hc. apply sub_u32_ok. lia.
Qed.

Lemma make_room_ok b i n p cur :
  WF b -> 0 <= i < pnum b -> 0 <= n -> placement b i n = Ok p ->
  offset cur = offset (pslot b i) -> capacity cur = capacity (pslot b i) ->
  exists b' s, make_room p cur i n b = (Ok s, b') /\ WF b' /\ keeps i b b' /\
    meta (pslot b' i) = meta (pslot b i) /\ region_start s = Ok (slot_start (pslot b' i)) /\
    capacity (pslot b' i) = Z.max n (capacity (pslot b i)).
Proof.
  intros W Hi Hn Hp Ho Hc. pose proof (wf_slot_at b W i Hi) as Hw. unfold slot_wf in Hw.
  pose proof (available_ge b i W Hi) as Hav. destruct (wf_num b W) as (Hn0 & Hdir & Hfree).
  unfold placement in Hp. destruct (Z.leb_spec n (capacity (pslot b i))).
  { simplify_eq. exists b, cur. split_and!; try done; [by apply region_start_ok|lia]. }
  assert (Hclaim : forall b1, WFX i b1 -> pnum b1 = pnum b -> size (pslot b1 i) = size (pslot b i) ->
    12 + pnum b * 17 <= pfree b1 - n -> keeps i b b1 -> meta (pslot b1 i) = meta (pslot b i) ->
    exists b' s, claim_free_region i n b1 = (Ok s, b') /\ WF b' /\ keeps i b b' /\
      meta (pslot b' i) = meta (pslot b i) /\ region_start s = Ok (slot_start (pslot b' i)) /\
      capacity (pslot b' i) = Z.max n (capacity (pslot b i))).
  { intros b1 W1 Hn1 Hs1 Hf1 K1 Hm1. pose proof (le_dir _ _ _ (wx_layout _ _ W1)).
    destruct (claim_free_region_ok b1 i n) as (b' & He & W' & Hs & K); [done|lia|tpu; lia|lia|].
    exists b', (pslot b' i). pose proof (kp_num _ _ _ K).
    split_and!; try done; [by etrans|by rewrite Hs|apply region_start_ok; try done; lia|].
    rewrite Hs. cbn [capacity]. lia. }
  destruct (Z.leb_spec n (pfree b - (12 + pnum b * 17))).
  { simplify_eq. apply Hclaim; try done; [by apply WF_WFX|lia]. }
  destruct (Z.leb_spec n (available b i)); [|done]. simplify_eq.
  destruct (compact_without_ok b i W Hi) as (b1 & Hr1 & W1 & Hf1 & K1 & Hs1 & Hm1).
  cbn [make_room]. erewrite bind_Ok by exact Hr1. unfold available in *.
  apply Hclaim; try done; [apply (kp_num _ _ _ K1)|lia].
Qed.

Lemma placement_with_meta b b1 i n m :
  WF b -> 0 <= i < pnum b -> pnum b1 = pnum b -> pfree b1 = pfree b ->
  pslots b1 = <[Z.to_nat i := with_meta (pslot b i) m]> (pslots b) ->
  pslot b1 i = with_meta (pslot b i) m /\ placement b1 i n = placement b i n.
Proof.
  intros W Hi Hn Hf Hss.
  assert (Hs : pslot b1 i = with_meta (pslot b i) m).
  { assert (Some (pslot b1 i) = Some (with_meta (pslot b i) m)); [|congruence].
    rewrite <- (pslots_at b1 i) by lia. rewrite Hss. apply list_lookup_insert_eq.
    apply lookup_lt_is_Some. by rewrite pslots_at. }
  split; [done|]. unfold placement, available. rewrite Hs, Hn, Hf.
  assert (Ho : other_capacities 0 (pslots b1) i = other_capacities 0 (pslots b) i); [|by rewrite Ho].
  rewrite Hss. apply other_capacities_ext; [by rewrite length_insert|].
  intros k s1 s2 Hk [(? & ? & _)|[_ H1]]%list_lookup_insert_Some H2; [lia|]. congruence.
Qed.

(** The update when there is room for it. *)
Lemma update_in_place_fits b i m data :
  WF b -> 0 <= i < pnum b -> meta_valid m -> Forall is_byte data -> len data <= available b i ->
  exists b', update_in_place i m data b = (Ok tt, b') /\ WF b' /\
    tuples b' = <[Z.to_nat i := (m, data)]> (tuples b) /\ keeps i b b' /\
    capacity (pslot b' i) = Z.max (len data) (capacity (pslot b i)).
Proof.
  intros W Hi Hm Hdata Hav. pose proof (wf_len _ W) as Hl.
  destruct (wf_num b W) as (Hn0 & Hdir & Hfree). pose proof (available_ge b i W Hi) as Hav'.
  pose proof (available_fits b i (len data) W Hi) as Hpl.
  rewrite (proj2 (Z.leb_le _ _)) in Hpl by done. destruct Hpl as [p Hp].
  destruct (update_meta_ok b i m W Hi Hm) as (b1 & H1 & W1 & Hss & Hf1 & K1 & _).
  pose proof (kp_num _ _ _ K1) as Hn1.
  destruct (placement_with_meta b b1 i (len data) m W Hi Hn1 Hf1 Hss) as [Hs1 Hp1].
  destruct (make_room_ok b1 i (len data) p (pslot b i)) as (b2 & s & H2 & W2 & K2 & Hm2 & Hr2 & Hc2);
    rewrite ?Hs1, ?Hp1; try done; [lia..|].
  pose proof (kp_num _ _ _ K2) as Hn2. rewrite Hs1 in Hm2, Hc2. cbn [with_meta meta capacity] in *.
  destruct (write_tuple_ok b2 i data) as (b3 & H3 & W3 & K3 & Hm3 & Hc3 & Hd3); try done; [lia..|].
  assert (K : keeps i b b3) by (etrans; [done|by etrans]).
  exists b3. split_and!; try done; [|apply (keeps_tuples i); [done..|congruence]|congruence].
  unfold update_in_place.
  mrun ltac:(apply existing_slot_ok; try done; lia).
  mrun ltac:(apply check_region_ok; [done|by apply wf_slot_at|lia]).
  mrun ltac:(apply tuple_len_ok; lia).
  mrun ltac:(rewrite place_ok by done; exact Hp).
  erewrite bind_Ok by exact H1. fold (make_room p (pslot b i) i (len data)).
  erewrite bind_Ok by exact H2. mrun ltac:(exact Hr2). exact H3.
Qed.

(** The update when there is not. *)
Lemma update_in_place_full b i m data :
  WF b -> 0 <= i < pnum b -> available b i < len data ->
  update_in_place i m data b =
    (Err (if len data <=? MAX_TUPLE_SIZE then UpdateDoesNotFit i (len data) (available b i)
          else DoesNotFit (len data)), b).
Proof.
  intros W Hi Hav. pose proof (wf_len _ W) as Hl.
  destruct (wf_num b W) as (Hn0 & Hdir & Hfree).
  unfold update_in_place.
  mrun ltac:(apply existing_slot_ok; try done; lia).
  mrun ltac:(apply check_region_ok; [done|by apply wf_slot_at|lia]).
  destruct (Z.leb_spec (len data) MAX_TUPLE_SIZE).
  - mrun ltac:(apply tuple_len_ok; lia). apply bind_lift_err. rewrite place_ok by done.
    pose proof (available_fits b i (len data) W Hi) as Hpl.
    by rewrite (proj2 (Z.leb_gt _ _)) in Hpl by done.
  - apply bind_liftc_err. unfold tuple_len.
    by rewrite andb_comm, (proj2 (Z.leb_gt (len data) MAX_TUPLE_SIZE)) by done.
Qed.
