(* ===== verification/TablePageTheorems.v ===== *)
(** * What the table page promises

    The operations of [src/table_page.rs] refine operations on a list of tuples: one that
    succeeds changes the list as its name says, one that fails changes no byte, and none
    panics on a page the module made. A slot's region never shrinks, so an earlier version
    of a tuple can always be written back over a later one, which is what the abort of a
    transaction relies on. *)

From Stdlib Require Import ZArith Lia.
From stdpp Require Import base list numbers.
From S2P Require Import Prelude Bytes Ids Buf TablePage TablePageProofs TablePageUpdate.
Import TablePage.

Local Open Scope Z_scope.

(** ** The mutating operations of a page, as data *)

Inductive page_op : Type :=
| OpInsert (m : TupleMeta) (data : bytes)
| OpUpdate (i : Z) (m : TupleMeta) (data : bytes)
| OpMeta (i : Z) (m : TupleMeta)
| OpDelete (i : Z).

Definition page_step (o : page_op) : page unit :=
  match o with
  | OpInsert m data => _ ← insert_with_meta m data; mret tt
  | OpUpdate i m data => update_in_place i m data
  | OpMeta i m => update_meta i m
  | OpDelete i => mark_deleted i
  end.

(** The page after some operations, whatever each of them answered. *)
Fixpoint page_run (ops : list page_op) (b : bytes) : bytes :=
  match ops with
  | [] => b
  | o :: ops => page_run ops (page_step o b).2
  end.

(** Arguments in the range of their Rust types. *)
Definition op_valid (o : page_op) : Prop :=
  match o with
  | OpInsert m data => meta_valid m /\ Forall is_byte data
  | OpUpdate i m data => 0 <= i /\ meta_valid m /\ Forall is_byte data
  | OpMeta i m => 0 <= i /\ meta_valid m
  | OpDelete i => 0 <= i
  end.

(** The list of tuples an operation makes of the one before it. *)
Definition op_spec (o : page_op) (l : list (TupleMeta * bytes)) : list (TupleMeta * bytes) :=
  match o with
  | OpInsert m data => l ++ [(m, data)]
  | OpUpdate i m data => <[Z.to_nat i := (m, data)]> l
  | OpMeta i m => alter (fun t => (m, t.2)) (Z.to_nat i) l
  | OpDelete i => alter (fun t => (mkMeta (ts t.1) true, t.2)) (Z.to_nat i) l
  end.

(** When an operation fails, and with what. *)
Definition op_error (o : page_op) (b : bytes) : option TablePageError :=
  match o with
  | OpInsert m data =>
      if 12 + pnum b * 17 + 17 + len data <=? pfree b then None
      else Some (DoesNotFit (len data))
  | OpUpdate i m data =>
      if pnum b <=? i then Some (SlotMissing i (pnum b))
      else if len data <=? available b i then None
      else if len data <=? MAX_TUPLE_SIZE then Some (UpdateDoesNotFit i (len data) (available b i))
      else Some (DoesNotFit (len data))
  | OpMeta i m => if pnum b <=? i then Some (SlotMissing i (pnum b)) else None
  | OpDelete i =>
      if pnum b <=? i then Some (SlotMissing i (pnum b))
      else if is_deleted (meta (pslot b i)) then Some (AlreadyDeleted i) else None
  end.

(** ** Operations that fail *)

Lemma existing_slot_missing b i :
  len b = PAGE_SIZE -> pnum b <= i -> existing_slot b i = Err (SlotMissing i (pnum b)).
Proof.
  intros. unfold existing_slot. rewrite slot_none by done. simpl. by rewrite num_tuples_ok.
Qed.

Lemma insert_does_not_fit b m data :
  len b = PAGE_SIZE -> pfree b < 12 + pnum b * 17 + 17 + len data ->
  insert_with_meta m data b = (Err (DoesNotFit (len data)), b).
Proof.
  intros Hl H. unfold insert_with_meta. mrun ltac:(apply can_insert_ok; done).
  by rewrite (proj2 (Z.leb_gt _ _)) by lia.
Qed.

Lemma page_step_error b o e :
  WF b -> op_valid o -> op_error o b = Some e -> page_step o b = (Err e, b).
Proof.
  intros W Hv He. pose proof (wf_len _ W) as Hl. destruct (wf_num b W) as (? & ? & ?).
  destruct o as [m data|i m data|i m|i]; cbn [op_error page_step op_valid op_spec] in *.
  - destruct (Z.leb_spec (12 + pnum b * 17 + 17 + len data) (pfree b)); simplify_eq.
    eapply bind_Err. by apply insert_does_not_fit.
  - destruct (Z.leb_spec (pnum b) i); simplify_eq.
    { apply bind_lift_err. by apply existing_slot_missing. }
    destruct (Z.leb_spec (len data) (available b i)); simplify_eq.
    rewrite update_in_place_full by (try done; lia). case_match; by simplify_eq.
  - destruct (Z.leb_spec (pnum b) i); simplify_eq.
    apply bind_lift_err. by apply existing_slot_missing.
  - unfold mark_deleted. destruct (Z.leb_spec (pnum b) i); simplify_eq.
    { apply bind_lift_err. by apply existing_slot_missing. }
    mrun ltac:(apply existing_slot_ok; try done; lia). cbv beta.
    destruct (is_deleted (meta (pslot b i))); by simplify_eq.
Qed.

(** ** Operations that succeed *)

Lemma pslot_meta_valid b i :
  len b = PAGE_SIZE -> Forall is_byte b -> 0 <= i -> 12 + i * 17 + 17 <= PAGE_SIZE ->
  meta_valid (meta (pslot b i)).
Proof.
  intros. unfold meta_valid, pslot. cbn [meta ts].
  assert (0 <= le_at 8 b (12 + i * 17 + 8) < 256 ^ 8) by (apply le_at_bound; try done; lia).
  unfold u64_max. lia.
Qed.

(** Metadata changes keep the tuple's bytes. *)
Lemma update_meta_tuples b i m :
  WF b -> 0 <= i < pnum b -> meta_valid m ->
  exists b', update_meta i m b = (Ok tt, b') /\ WF b' /\ keeps i b b' /\
    capacity (pslot b' i) = capacity (pslot b i) /\
    tuples b' = <[Z.to_nat i := (m, pdata b (pslot b i))]> (tuples b).
Proof.
  intros W Hi Hm. destruct (update_meta_ok b i m W Hi Hm) as (b' & He & W' & Hss & Hf & K & Hx).
  pose proof (kp_num _ _ _ K) as Hn.
  destruct (placement_with_meta b b' i 0 m W Hi Hn Hf Hss) as [Hs _].
  exists b'. split_and!; try done; [by rewrite Hs|].
  apply (keeps_tuples i); [done..|]. rewrite Hs. cbn [with_meta meta]. f_equal.
  destruct (wf_num b W) as (? & ? & ?). pose proof (wf_slot_at b W i Hi) as Hw.
  unfold slot_wf, slot_start in Hw. pose proof (wf_len _ W). pose proof (wf_len _ W').
  unfold pdata, slot_start. cbn [with_meta offset size capacity].
  apply sub_ext; try lia. intros k Hk. apply Hx. lia.
Qed.

(** The capacity of every slot is at least what it was. *)
Definition capacities_grow (b b' : bytes) : Prop :=
  pnum b <= pnum b' /\
  forall j, 0 <= j < pnum b -> capacity (pslot b j) <= capacity (pslot b' j).

#[export] Instance capacities_grow_refl : Reflexive capacities_grow.
Proof. by intros b. Qed.

#[export] Instance capacities_grow_trans : Transitive capacities_grow.
Proof.
  intros b1 b2 b3 [N1 C1] [N2 C2]. split; [lia|]. intros j Hj. etrans; [by apply C1|apply C2; lia].
Qed.

Lemma keeps_grow i b b' :
  keeps i b b' -> capacity (pslot b i) <= capacity (pslot b' i) -> capacities_grow b b'.
Proof.
  intros K Hc. split; [rewrite (kp_num _ _ _ K); lia|]. intros j Hj.
  destruct (decide (j = i)) as [->|Hne]; [done|]. rewrite (kp_capacity _ _ _ K) by done. lia.
Qed.

Lemma page_step_success b o :
  WF b -> op_valid o -> op_error o b = None ->
  exists b', page_step o b = (Ok tt, b') /\ WF b' /\ tuples b' = op_spec o (tuples b) /\
    pnext b' = pnext b /\ capacities_grow b b'.
Proof.
  intros W Hv He. destruct o as [m data|i m data|i m|i]; cbn [op_error page_step op_valid op_spec] in *.
  - destruct (Z.leb_spec (12 + pnum b * 17 + 17 + len data) (pfree b)); simplify_eq.
    destruct Hv. destruct (insert_fits b m data) as (b' & Hr & W' & Hss & Ht & Hx); try done.
    exists b'. split_and!; try done; [by erewrite bind_Ok by exact Hr|].
    pose proof (length_pslots b (wf_bytes _ W) (wf_len _ W)) as HL.
    pose proof (length_pslots b' (wf_bytes _ W') (wf_len _ W')) as HL'.
    rewrite Hss, length_app in HL'. simpl in HL'. split; [lia|]. intros j Hj.
    assert (Hj' : Some (pslot b' j) = Some (pslot b j)).
    { rewrite <- !pslots_at by lia. rewrite Hss. apply lookup_app_l. lia. }
    apply (inj Some) in Hj'. by rewrite Hj'.
  - destruct (Z.leb_spec (pnum b) i); simplify_eq.
    destruct (Z.leb_spec (len data) (available b i)); [|by case_match]. destruct Hv as (? & ? & ?).
    destruct (update_in_place_fits b i m data) as (b' & Hr & W' & Ht & K & Hc); try done.
    exists b'. split_and!; try done; [apply K|]. apply (keeps_grow i); [done|lia].
  - destruct (Z.leb_spec (pnum b) i); simplify_eq. destruct Hv.
    destruct (update_meta_tuples b i m) as (b' & Hr & W' & K & Hc & Ht); try done.
    exists b'. split_and!; try done; [|apply K|apply (keeps_grow i); [done|lia]].
    rewrite Ht. symmetry. erewrite alter_as_insert by (apply tuples_lookup; lia). done.
  - destruct (Z.leb_spec (pnum b) i); simplify_eq.
    destruct (is_deleted (meta (pslot b i))) eqn:Hd; simplify_eq.
    pose proof (wf_len _ W) as Hl. destruct (wf_num b W) as (? & ? & ?).
    destruct (update_meta_tuples b i (mkMeta (ts (meta (pslot b i))) true))
      as (b' & Hr & W' & K & Hc & Ht); try done.
    { apply (pslot_meta_valid b i); try done; [apply W|lia]. }
    exists b'. split_and!; try done; [|..|apply K|apply (keeps_grow i); [done|lia]].
    + unfold mark_deleted. mrun ltac:(apply existing_slot_ok; try done; lia). rewrite Hd.
      mrun ltac:(apply num_deleted_ok; done).
      rewrite (proj2 (Z.eqb_neq _ _)); [done|].
      pose proof (deleted_count_bound (pslots b)) as Hdc.
      rewrite length_pslots in Hdc by (done || apply W). rewrite (wf_deleted _ W). tpu. lia.
    + rewrite Ht. symmetry. erewrite alter_as_insert by (apply tuples_lookup; lia). done.
Qed.

(** ** Theorems *)

(** C1: Every mutating operation of a table page (insert, in-place update with or without
    compaction, metadata change, deletion) either fails with the error its preconditions
    name and changes no byte of the page, or succeeds and changes the list of tuples as
    specified. It never panics, keeps the page well formed and never shrinks a region. *)
Theorem page_step_refines (b : bytes) (o : page_op) :
  WF b -> op_valid o ->
  match op_error o b with
  | Some e => page_step o b = (Err e, b)
  | None =>
      exists b', page_step o b = (Ok tt, b') /\ WF b' /\ tuples b' = op_spec o (tuples b) /\
        pnext b' = pnext b /\ capacities_grow b b'
  end.
Proof.
  intros W Hv. destruct (op_error o b) eqn:He.
  - by apply page_step_error.
  - by apply page_step_success.
Qed.

Lemma page_step_wf b o :
  WF b -> op_valid o ->
  WF (page_step o b).2 /\ capacities_grow b (page_step o b).2 /\ (page_step o b).1 <> Panic.
Proof.
  intros W Hv. destruct (op_error o b) eqn:He.
  - by rewrite (page_step_error b o _ W Hv He).
  - by destruct (page_step_success b o W Hv He) as (b' & -> & W' & _ & _ & G).
Qed.

Lemma page_run_wf ops : forall b,
  WF b -> Forall op_valid ops -> WF (page_run ops b) /\ capacities_grow b (page_run ops b).
Proof.
  induction ops as [|o ops IH]; intros b W Hv; [done|].
  destruct (Forall_cons_1 _ _ _ Hv) as [Ho Hv'].
  destruct (page_step_wf b o W Ho) as (W1 & G1 & _).
  destruct (IH _ W1 Hv') as [W2 G2]. split; [done|]. by etrans.
Qed.

(** C2: Undo always fits: whatever operations ran on a page since a tuple was read, writing
    the earlier bytes of the tuple back over its slot succeeds and leaves every other tuple
    as it is. *)
Theorem rollback_fits (b0 : bytes) (ops : list page_op) (i : Z) (m : TupleMeta) :
  WF b0 -> Forall op_valid ops -> 0 <= i < pnum b0 -> meta_valid m ->
  let image := pdata b0 (pslot b0 i) in
  let b := page_run ops b0 in
  exists b', update_in_place i m image b = (Ok tt, b') /\ WF b' /\
    tuples b' = <[Z.to_nat i := (m, image)]> (tuples b).
Proof.
  intros W0 Hops Hi Hm image b. destruct (page_run_wf ops b0 W0 Hops) as [W [Gn Gc]].
  fold b in W, Gn, Gc. specialize (Gc i Hi).
  pose proof (wf_slot_at b0 W0 i Hi) as Hw. unfold slot_wf, slot_start in Hw.
  destruct (wf_num b0 W0) as (? & ? & ?). pose proof (wf_len _ W0).
  assert (Hi' : 0 <= i < pnum b) by lia.
  pose proof (available_ge b i W Hi') as Hav. destruct (wf_num b W) as (? & ? & ?).
  assert (Hlen : len image = size (pslot b0 i)).
  { unfold image, pdata, slot_start. rewrite len_sub; lia. }
  destruct (update_in_place_fits b i m image W Hi' Hm) as (b' & Hr & W' & Ht & _); eauto; [|lia].
  apply Forall_sub, W0.
Qed.

(** C3: Formatting a buffer and then running any operations on the page leaves a well-formed
    page, every one of its tuples readable through [tuple_bytes] without an error. *)
Theorem page_always_readable (b : bytes) (ops : list page_op) :
  len b = PAGE_SIZE -> Forall is_byte b -> Forall op_valid ops ->
  let p := page_run ops (init b).2 in
  new p = Ok p /\
  (forall i, 0 <= i < pnum p ->
    exists s, slot p i = Ok (Some s) /\ tuple_bytes p s = Ok (pdata p s)) /\
  slots p = Ok (pslots p).
Proof.
  intros Hl Hb Hops p. destruct (init_ok b Hl Hb) as (b0 & Hi & W0 & _ & _).
  assert (W : WF p).
  { unfold p. rewrite Hi. by apply page_run_wf. }
  pose proof (wf_len _ W) as Hlp. destruct (wf_num p W) as (? & ? & ?).
  split_and!; [| |apply slots_ok; try done; lia].
  - unfold new. rewrite (proj2 (Z.eqb_eq _ _)) by done. simpl.
    rewrite directory_end_ok, free_space_ok by done. simpl.
    by rewrite !(proj2 (Z.ltb_ge _ _)) by lia.
  - intros i Hi'. exists (pslot p i). split; [apply slot_ok; try done; lia|].
    pose proof (wf_slot_at p W i Hi') as Hw.
    unfold tuple_bytes. rewrite check_region_ok by (done || lia). cbn [mbind outcome_bind]. unfold range.
    rewrite (region_start_ok p i) by done. cbn [mbind outcome_bind]. unfold slot_wf, slot_start in Hw.
    rewrite slice_ok by (unfold slot_start; lia). unfold pdata. do 2 f_equal. lia.
Qed.

(** ** Witnesses *)

(** A freshly formatted page, and one with two tuples. *)
Definition page0 : bytes := (init (replicate 8192 0)).2.
Definition page2 : bytes :=
  page_run [OpInsert TupleMeta_default [1; 2; 3]; OpInsert (mkMeta 7 false) [4; 5]] page0.

Lemma blank_ok : len (replicate 8192 0) = PAGE_SIZE /\ Forall is_byte (replicate 8192 0).
Proof. split; [by rewrite length_replicate|]. apply Forall_replicate. unfold is_byte. lia. Qed.

Lemma page0_wf : WF page0.
Proof.
  destruct blank_ok as [Hl Hb]. destruct (init_ok _ Hl Hb) as (b & Hi & W & _).
  unfold page0. by rewrite Hi.
Qed.

Lemma insert_valid : Forall op_valid
  [OpInsert TupleMeta_default [1; 2; 3]; OpInsert (mkMeta 7 false) [4; 5]].
Proof. repeat constructor; unfold is_byte, u64_max; simpl; lia. Qed.

Lemma page2_wf : WF page2.
Proof. apply page_run_wf; [apply page0_wf|apply insert_valid]. Qed.

Lemma page_step_refines_witness :
  exists b', page_step (OpUpdate 0 (mkMeta 9 false) [8; 8; 8; 8]) page2 = (Ok tt, b') /\
    tuples b' = [(mkMeta 9 false, [8; 8; 8; 8]); (mkMeta 7 false, [4; 5])].
Proof.
  assert (V : op_valid (OpUpdate 0 (mkMeta 9 false) [8; 8; 8; 8])).
  { simpl. split_and!; [lia|unfold meta_valid, u64_max; simpl; lia|].
    repeat constructor; unfold is_byte; lia. }
  pose proof (page_step_refines page2 _ page2_wf V) as H.
  assert (E : op_error (OpUpdate 0 (mkMeta 9 false) [8; 8; 8; 8]) page2 = None)
    by (vm_compute; reflexivity).
  rewrite E in H.
  destruct H as (b' & Hr & _ & Ht & _). exists b'. split; [exact Hr|].
  rewrite Ht. vm_compute. reflexivity.
Defined.

Lemma rollback_fits_witness :
  exists b',
    update_in_place 0 (mkMeta 3 false) [1; 2; 3]
      (page_run [OpUpdate 0 (mkMeta 9 false) [8; 8; 8; 8]; OpDelete 1] page2) = (Ok tt, b') /\
    tuples b' = [(mkMeta 3 false, [1; 2; 3]); (mkMeta 7 true, [4; 5])].
Proof.
  assert (V : Forall op_valid [OpUpdate 0 (mkMeta 9 false) [8; 8; 8; 8]; OpDelete 1]).
  { repeat constructor; unfold is_byte, u64_max; simpl; lia. }
  destruct (rollback_fits page2 _ 0 (mkMeta 3 false) page2_wf V) as (b' & Hr & _ & Ht).
  - vm_compute. split; congruence.
  - unfold meta_valid, u64_max. simpl. lia.
  - exists b'. split.
    + rewrite <- Hr. vm_compute. reflexivity.
    + rewrite Ht. vm_compute. reflexivity.
Defined.

Lemma page_always_readable_witness :
  slots page2 = Ok (pslots page2) /\
  exists s, slot page2 1 = Ok (Some s) /\ tuple_bytes page2 s = Ok (pdata page2 s).
Proof.
  destruct blank_ok as [Hl Hb].
  destruct (page_always_readable _ _ Hl Hb insert_valid) as (_ & Hr & Hs).
  split; [exact Hs|]. destruct (Hr 1) as (s & H1 & H2); [vm_compute; split; congruence|].
  exists s. split; [exact H1|exact H2].
Defined.
