(* ===== verification/TableHeap.v ===== *)
(** * Table heaps

    Models [src/table_heap.rs]: a table is a chain of table pages; record ids name a page and
    a slot. The buffer pool it runs on is the interface [PagePool]. Reading and writing a slot
    run under the latch of its page, so each is one step. *)

From Stdlib Require Import ZArith Lia.
From stdpp Require Import base list gmap numbers option.
From S2P Require Import Prelude Bytes Ids Buf TablePage.

Local Open Scope Z_scope.

(** ** The buffer pool, as the heap sees it

    [fetch] is both [read_page] and [write_page]: it hands out the page's bytes or fails.
    [put_page] is what writing through a write guard leaves. [new_page] hands out a write guard
    too. [BE] is [BpmError]. *)
Class PagePool (P BE : Type) := {
  fetch : PageId -> M P BE bytes;
  put_page : PageId -> bytes -> P -> P;
  new_page : M P BE (PageId * bytes);
  delete_page : PageId -> M P BE unit;
  page_is_allocated : P -> PageId -> bool;
}.

(** A page of a new frame. *)
Definition zero_page : bytes := replicate (Z.to_nat PAGE_SIZE) 0.
#[global] Arguments zero_page : simpl never.

Lemma zero_page_len : len zero_page = PAGE_SIZE.
Proof. unfold zero_page, len. by rewrite length_replicate. Qed.

Lemma zero_page_bytes : Forall is_byte zero_page.
Proof. apply Forall_replicate. unfold is_byte. lia. Qed.

#[global] Opaque zero_page.

(** What the pool promises: pages keep their bytes, and a new page is zeroed and new. *)
Class PagePoolLaws (P BE : Type) `{PagePool P BE} := {
  pool_pages : P -> gmap PageId bytes;
  fetch_law : forall pid p,
    match fetch pid p with
    | (Ok b, p') => pool_pages p !! pid = Some b /\ pool_pages p' = pool_pages p
    | (Err _, p') => pool_pages p' = pool_pages p
    | (Panic, _) => False
    end;
  put_law : forall pid b p,
    is_Some (pool_pages p !! pid) -> pool_pages (put_page pid b p) = <[pid := b]> (pool_pages p);
  new_page_law : forall p,
    match new_page p with
    | (Ok (pid, b), p') =>
        pool_pages p !! pid = None /\ page_id_valid pid /\
        b = zero_page /\ pool_pages p' = <[pid := b]> (pool_pages p)
    | (Err _, p') => pool_pages p' = pool_pages p
    | (Panic, _) => False
    end;
  delete_page_law : forall pid p,
    match delete_page pid p with
    | (Ok _, p') => pool_pages p' = delete pid (pool_pages p)
    | (Err _, p') => pool_pages p' = pool_pages p
    | (Panic, _) => False
    end;
  allocated_law : forall pid p,
    is_Some (pool_pages p !! pid) -> page_is_allocated p pid = true;
}.

Inductive TableHeapError (BE : Type) : Type :=
| HSlotMissing (rid : RecordId) (num_slots : Z)
| HDeleted (rid : RecordId)
| HTooLarge (size max : Z)
| HBpm (e : BE)
| HPage (page_id : PageId) (source : TablePageError)
| HPageChainCycle (page_id : PageId)
| HUnallocatedPageLink (from to : PageId).
Arguments HSlotMissing {BE}. Arguments HDeleted {BE}. Arguments HTooLarge {BE}.
Arguments HBpm {BE}. Arguments HPage {BE}. Arguments HPageChainCycle {BE}.
Arguments HUnallocatedPageLink {BE}.

Record Tail : Type := mkTail { t_page_id : PageId; t_num_tuples : Z }.

Record Heap : Type := mkHeap {
  first_page_id : PageId;
  tail : Tail;
  update_reserve : Z;
}.

Record SlotWrite : Type := mkWrite { w_meta : TupleMeta; w_data : option bytes }.

Record HeapIterator : Type := mkIter {
  current_page_id : PageId;
  current_slot_id : Z;
  last_page_id : PageId;
  last_page_slots : Z;
  finished : bool;
}.

Module TableHeap.

Section heap.
Context {P BE : Type} `{Pool : PagePool P BE}.

Abbreviation herr := (TableHeapError BE).
Abbreviation hres := (outcome herr).

(** ** Pages under a guard *)

(** Runs [body] on the bytes of page [pid] and on the rest of the world, under the page's
    write latch. What [body] did to the page stays, also when it fails. *)
Definition with_page {W E A} (from : herr -> E) (pid : PageId)
    (body : M (bytes * W) E A) : M (P * W) E A := fun pw =>
  match fetch pid pw.1 with
  | (Ok b, p) => let '(r, (b', w')) := body (b, pw.2) in (r, (put_page pid b' p, w'))
  | (Err e, p) => (Err (from (HBpm e)), (p, pw.2))
  | (Panic, p) => (Panic, (p, pw.2))
  end.

(** The same on a page that is newly allocated. *)
Definition with_new_page {A} (body : PageId -> M bytes herr A) : M P herr (PageId * A) :=
  fun p =>
  match new_page p with
  | (Ok (pid, b), p) =>
      let '(r, b') := body pid b in
      (a ← r; Ok (pid, a), put_page pid b' p)
  | (Err e, p) => (Err (HBpm e), p)
  | (Panic, p) => (Panic, p)
  end.

(** The slot a record id names, on the bytes of its page. *)
Definition find_slot (rid : RecordId) (b : bytes) : hres Slot :=
  _ ← map_err (HPage (page_id rid)) (TablePage.new b);
  o ← map_err (HPage (page_id rid)) (TablePage.slot b (slot_id rid));
  match o with
  | Some s => Ok s
  | None =>
      n ← map_err (HPage (page_id rid)) (TablePage.num_tuples b);
      Err (HSlotMissing rid n)
  end.

(** [TableHeap::read_slot] and [TableHeap::read_with], with the identity for [f]. *)
Definition read_slot (rid : RecordId) : M P herr (TupleMeta * bytes) := fun p =>
  match fetch (page_id rid) p with
  | (Ok b, p) =>
      (s ← find_slot rid b;
       data ← map_err (HPage (page_id rid)) (TablePage.tuple_bytes b s);
       Ok (meta s, data), p)
  | (Err e, p) => (Err (HBpm e), p)
  | (Panic, p) => (Panic, p)
  end.

(** [TableHeap::write_slot_then] and [TableHeap::write_with_then] *)
Definition write_slot_then {W T R E} (from : herr -> E) (rid : RecordId)
    (f : TupleMeta -> bytes -> M W E (SlotWrite * T)) (then_ : T -> M W E R) : M (P * W) E R :=
  with_page from (page_id rid) (
    s ← lift (fun bw => map_err from (find_slot rid bw.1));
    data ← lift (fun bw =>
      map_err (fun e => from (HPage (page_id rid) e)) (TablePage.tuple_bytes bw.1 s));
    '(write, planned) ← on_snd id (f (meta s) data);
    _ ← on_fst (fun e => from (HPage (page_id rid) e))
          (match w_data write with
           | Some d => TablePage.update_in_place (slot_id rid) (w_meta write) d
           | None => TablePage.update_meta (slot_id rid) (w_meta write)
           end);
    on_snd id (then_ planned)).

(** [TableHeap::write_slot] and [TableHeap::write_with] *)
Definition write_slot {W E} (from : herr -> E) (rid : RecordId)
    (f : TupleMeta -> bytes -> M W E SlotWrite) : M (P * W) E unit :=
  write_slot_then from rid (fun m d => w ← f m d; mret (w, tt)) (fun _ => mret tt).

(** The world of an operation that needs none. *)
Definition plain {A E} (m : M (P * unit) E A) : M P E A := fun p =>
  let '(r, pw) := m (p, tt) in (r, pw.1).

Definition update_meta (rid : RecordId) (m : TupleMeta) : M P herr unit :=
  plain (write_slot id rid (fun _ _ => mret (mkWrite m None))).

Definition update_in_place (rid : RecordId) (m : TupleMeta) (data : bytes) : M P herr unit :=
  plain (write_slot id rid (fun _ _ => mret (mkWrite m (Some data)))).

Definition delete (rid : RecordId) : M P herr unit :=
  plain (write_slot id rid (fun m _ =>
    if is_deleted m then liftc (Err (HDeleted rid))
    else mret (mkWrite (mkMeta (ts m) true) None))).

Definition get_with_meta (rid : RecordId) : M P herr (TupleMeta * bytes) := read_slot rid.

Definition get (rid : RecordId) : M P herr (RecordId * bytes) :=
  '(m, data) ← get_with_meta rid;
  if is_deleted m then liftc (Err (HDeleted rid)) else mret (rid, data).

(** ** Insertion *)

(** A step on a page of the pool. *)
Definition page {A} (pid : PageId) (m : M bytes TablePageError A) : M (Heap * P) herr A :=
  on_snd id (plain (with_page id pid (on_fst (HPage pid) m))).

Definition get_tail : M (Heap * P) herr Tail := fun hp => (Ok (tail hp.1), hp).
Definition get_reserve : M (Heap * P) herr Z := fun hp => (Ok (update_reserve hp.1), hp).
Definition set_tail (t : Tail) : M (Heap * P) herr unit := fun hp =>
  (Ok tt, (mkHeap (first_page_id hp.1) t (update_reserve hp.1), hp.2)).

(** The insertion into the tail page, when it has room beside the reserve. *)
Definition insert_in_tail (m : TupleMeta) (data : bytes) (reserve : Z)
    : M bytes TablePageError (option Z) :=
  _ ← lift TablePage.new;
  n ← lift TablePage.num_tuples;
  let reserve := if n =? 0 then 0 else reserve in
  fits ← lift (fun b => TablePage.can_insert b (len data + reserve));
  if fits : bool then i ← TablePage.insert_with_meta m data; mret (Some i) else mret None.

(** The insertion into a new page, which is then linked after page [last]. *)
Definition insert_on_new_page (last : PageId) (m : TupleMeta) (data : bytes)
    : M (Heap * P) herr (PageId * Z) :=
  '(new_id, slot) ← on_snd id (with_new_page (fun pid =>
     mapE (HPage pid) (_ ← TablePage.init; TablePage.insert_with_meta m data)));
  _ ← page last (_ ← lift TablePage.new; TablePage.set_next_page_id new_id);
  mret (new_id, slot).

(** [TableHeap::insert_locked] *)
Definition insert_with_meta (m : TupleMeta) (data : bytes) : M (Heap * P) herr RecordId :=
  if TablePage.MAX_TUPLE_SIZE <? len data
  then liftc (Err (HTooLarge (len data) TablePage.MAX_TUPLE_SIZE))
  else
    t ← get_tail;
    reserve ← get_reserve;
    o ← page (t_page_id t) (insert_in_tail m data reserve);
    '(pid, slot) ← match o with
      | Some slot => mret (t_page_id t, slot)
      | None => insert_on_new_page (t_page_id t) m data
      end;
    _ ← set_tail (mkTail pid (slot + 1));
    mret (mkRid pid slot).

Definition insert (data : bytes) : M (Heap * P) herr RecordId :=
  insert_with_meta TupleMeta_default data.

(** ** Opening, scanning and freeing a heap *)

Definition new : M P herr Heap :=
  '(pid, _) ← with_new_page (fun pid => mapE (HPage pid) TablePage.init);
  mret (mkHeap pid (mkTail pid 0) 0).

Definition with_update_reserve (n : Z) (h : Heap) : Heap :=
  mkHeap (first_page_id h) (tail h) n.

(** The page links from [pid] on, until the last page; [fuel] bounds the pages followed. *)
Fixpoint open_loop (fuel : nat) (pid : PageId) (seen : gset PageId) : M P herr Tail :=
  match fuel with
  | O => liftc Panic
  | S fuel =>
      if decide (pid ∈ seen) then liftc (Err (HPageChainCycle pid))
      else
        b ← mapE HBpm (fetch pid);
        _ ← liftc (map_err (HPage pid) (TablePage.new b));
        next ← liftc (map_err (HPage pid) (TablePage.next_page_id b));
        match next with
        | Some next =>
            ok ← (fun p => (Ok (page_is_allocated p next), p));
            if negb ok then liftc (Err (HUnallocatedPageLink pid next))
            else open_loop fuel next ({[pid]} ∪ seen)
        | None =>
            n ← liftc (map_err (HPage pid) (TablePage.num_tuples b));
            mret (mkTail pid n)
        end
  end.

Definition open (fuel : nat) (first : PageId) : M P herr Heap :=
  t ← open_loop fuel first ∅;
  mret (mkHeap first t 0).

Definition iter (h : Heap) : HeapIterator :=
  mkIter (first_page_id h) 0 (t_page_id (tail h)) (t_num_tuples (tail h)) false.

Definition with_finished (it : HeapIterator) : HeapIterator :=
  mkIter (current_page_id it) (current_slot_id it) (last_page_id it) (last_page_slots it) true.
Definition with_position (it : HeapIterator) (pid : PageId) (slot : Z) : HeapIterator :=
  mkIter pid slot (last_page_id it) (last_page_slots it) (finished it).

(** Whether the iterator has passed the last slot the heap had when it was made. *)
Definition at_end (it : HeapIterator) : bool :=
  (current_page_id it =? last_page_id it) && (last_page_slots it <=? current_slot_id it).

(** What the walk over the slots of one page ends with. *)
Inductive page_walk (R : Type) : Type :=
| WalkDone
| WalkNextPage (pid : PageId)
| WalkYield (r : R)
| WalkError (e : herr).

(** The inner loop of [next_with]; [fuel] bounds the slots visited. *)
Fixpoint walk_page {R} (fuel : nat) (b : bytes) (f : RecordId -> TupleMeta -> bytes -> option R)
    (it : HeapIterator) : outcome Empty_set (page_walk R * HeapIterator) :=
  match fuel with
  | O => Panic
  | S fuel =>
      if at_end it then Ok (WalkDone R, with_finished it)
      else
        let pid := current_page_id it in
        let slot_id := current_slot_id it in
        match TablePage.slot b slot_id with
        | Ok None =>
            match TablePage.next_page_id b with
            | Ok (Some next) =>
                if negb (pid =? last_page_id it)
                then Ok (WalkNextPage R next, with_position it next 0)
                else Ok (WalkDone R, with_finished it)
            | Ok None => Ok (WalkDone R, with_finished it)
            | _ => Panic
            end
        | Ok (Some s) =>
            let it := with_position it pid (slot_id + 1) in
            match TablePage.tuple_bytes b s with
            | Ok data =>
                match f (mkRid pid slot_id) (meta s) data with
                | Some out => Ok (WalkYield R out, it)
                | None => walk_page fuel b f it
                end
            | Err e => Ok (WalkError R (HPage pid e), with_finished it)
            | Panic => Panic
            end
        | _ => Panic
        end
  end.

(** [TableHeapIterator::next_with]; [pages] bounds the pages visited and [slots] the slots of
    one page. *)
Fixpoint next_with {R} (pages slots : nat) (f : RecordId -> TupleMeta -> bytes -> option R)
    : M (HeapIterator * P) Empty_set (option (hres R)) := fun ip =>
  match pages with
  | O => (Panic, ip)
  | S pages =>
      let '(it, p) := ip in
      if finished it || at_end it then (Ok None, (with_finished it, p))
      else
        match fetch (current_page_id it) p with
        | (Err e, p) => (Ok (Some (Err (HBpm e))), (with_finished it, p))
        | (Panic, p) => (Panic, (it, p))
        | (Ok b, p) =>
            match TablePage.new b with
            | Err e => (Ok (Some (Err (HPage (current_page_id it) e))), (with_finished it, p))
            | Panic => (Panic, (it, p))
            | Ok _ =>
                match walk_page slots b f it with
                | Ok (WalkDone _, it) => (Ok None, (it, p))
                | Ok (WalkNextPage _ _, it) => next_with pages slots f (it, p)
                | Ok (WalkYield _ r, it) => (Ok (Some (Ok r)), (it, p))
                | Ok (WalkError _ e, it) => (Ok (Some (Err e)), (it, p))
                | _ => (Panic, (it, p))
                end
            end
        end
  end.

(** [Iterator::next] *)
Definition next (pages slots : nat) :=
  next_with pages slots (fun rid m data => if is_deleted m then None else Some (data, rid)).

(** [TableHeap::free_first_page] and [TableHeap::free]; on failure the heap that remains is
    the state. *)
Definition free_first_page : M (Heap * P) herr (option PageId) := fun hp =>
  let pid := first_page_id hp.1 in
  (b ← on_snd HBpm (fetch pid);
   _ ← liftc (map_err (HPage pid) (TablePage.new b));
   next ← liftc (map_err (HPage pid) (TablePage.next_page_id b));
   _ ← on_snd HBpm (delete_page pid);
   mret next) hp.

Fixpoint free (fuel : nat) : M (Heap * P) herr unit :=
  match fuel with
  | O => liftc Panic
  | S fuel =>
      next ← free_first_page;
      match next with
      | Some next =>
          _ ← (fun hp => (Ok tt, (mkHeap next (tail hp.1) (update_reserve hp.1), hp.2)));
          free fuel
      | None => mret tt
      end
  end.

End heap.
End TableHeap.
