(* ===== verification/SlotStore.v ===== *)
(** * Slot stores

    What the transaction layer needs of table storage: reading a slot, a read-check-write of
    a slot under its latch, and inserting a row. The laws say what each does to the rows of
    the store, seen as a map from record ids; storage may fail at any call, changing none. *)

From Stdlib Require Import ZArith.
From stdpp Require Import base list gmap.
From S2P Require Import Prelude Bytes Ids Buf TablePage TablePageProofs TableHeap.

(** The newest version of a row. *)
Abbreviation row := (TupleMeta * bytes)%type.

Definition write_valid (w : SlotWrite) : Prop :=
  meta_valid (w_meta w) /\ from_option (Forall is_byte) True (w_data w).

(** The row a write makes of one with bytes [d]. *)
Definition written (w : SlotWrite) (d : bytes) : row := (w_meta w, default d (w_data w)).

Class SlotStore (S BE : Type) := {
  ss_read : RecordId -> M S (TableHeapError BE) row;
  ss_write_then : forall {W T R E : Type}, (TableHeapError BE -> E) -> RecordId ->
    (TupleMeta -> bytes -> M W E (SlotWrite * T)) -> (T -> M W E R) -> M (S * W) E R;
  ss_insert : TupleMeta -> bytes -> M S (TableHeapError BE) RecordId;
}.

(** A slot write that storage refused: nothing changed but the world [w1] the plan left. *)
Definition refused {S BE W R E} (holds : S -> Prop) (from : TableHeapError BE -> E)
    (res : outcome E R * (S * W)) (w1 : W) : Prop :=
  exists e s', res = (Err (from e), (s', w1)) /\ holds s'.

Class SlotStoreLaws (S BE : Type) `{SlotStore S BE} := {
  store_is : S -> gmap RecordId row -> Prop;
  store_is_fun : forall s C C', store_is s C -> store_is s C' -> C = C';
  ss_read_law : forall s C rid x, store_is s C -> C !! rid = Some x ->
    match ss_read rid s with
    | (Ok y, s') => y = x /\ store_is s' C
    | (Err _, s') => store_is s' C
    | (Panic, _) => False
    end;
  ss_write_law : forall W T R E (from : TableHeapError BE -> E) s C rid m d w
      (f : TupleMeta -> bytes -> M W E (SlotWrite * T)) (then_ : T -> M W E R),
    store_is s C -> C !! rid = Some (m, d) ->
    (forall wr t w', f m d w = (Ok (wr, t), w') -> write_valid wr) ->
    let res := ss_write_then from rid f then_ (s, w) in
    refused (fun s' => store_is s' C) from res w \/
    match f m d w with
    | (Err e, w1) => exists s', res = (Err e, (s', w1)) /\ store_is s' C
    | (Panic, w1) => exists s', res = (Panic, (s', w1)) /\ store_is s' C
    | (Ok (wr, t), w1) =>
        refused (fun s' => store_is s' C) from res w1 \/
        exists s', store_is s' (<[rid := written wr d]> C) /\
          res = let '(r, w2) := then_ t w1 in (r, (s', w2))
    end;
  ss_insert_law : forall s C m d, store_is s C -> meta_valid m -> Forall is_byte d ->
    match ss_insert m d s with
    | (Ok rid, s') => C !! rid = None /\ store_is s' (<[rid := (m, d)]> C)
    | (Err _, s') => store_is s' C
    | (Panic, _) => False
    end;
}.
