(* ===== verification/TableHeapProofs.v ===== *)
(** * A table heap is a list of rows

    [heap_is hp L] says that heap and pool [hp] hold the chain of well-formed table pages [L],
    in link order, ending at the tail the heap remembers. Inserting appends a row to the rows
    of [L]; writing a slot replaces one; a failed operation changes none of them. *)

From Stdlib Require Import ZArith Lia.
From stdpp Require Import base list gmap numbers option.
From S2P Require Import Prelude Bytes Ids Buf TablePage TablePageProofs TablePageUpdate TablePageTheorems.
From S2P Require Import TableHeap SlotStore.
Import TableHeap.

Local Open Scope Z_scope.

Abbreviation chain := (list (PageId * bytes)).

(** The rows of a page, under their record ids. *)
Definition page_rows (pb : PageId * bytes) : list (RecordId * row) :=
  imap (fun i t => (mkRid pb.1 (Z.of_nat i), t)) (tuples pb.2).

Definition rows (L : chain) : list (RecordId * row) := L ≫= page_rows.

Section proofs.
Context {P BE : Type} `{Pool : PagePool P BE} `{Laws : !PagePoolLaws P BE}.

(** ** Chains of pages *)

Record chain_is (p : P) (first : PageId) (L : chain) : Prop := {
  ch_first : fst <$> head L = Some first;
  ch_nodup : NoDup L.*1;
  ch_page : forall k pid b, L !! k = Some (pid, b) ->
    pool_pages p !! pid = Some b /\ WF b /\ decode_u32 (pnext b) = fst <$> L !! S k;
}.

Record heap_is (h : Heap) (p : P) (L : chain) : Prop := {
  hi_chain : chain_is p (first_page_id h) L;
  hi_tail : exists L0 b, L = L0 ++ [(t_page_id (tail h), b)] /\ t_num_tuples (tail h) = pnum b;
  hi_reserve : 0 <= update_reserve h;
}.

(** Two pools with the same pages hold the same chains. *)
Lemma chain_is_pages p p' first L :
  pool_pages p' = pool_pages p -> chain_is p first L -> chain_is p' first L.
Proof. intros E [? ? Hp]. split; try done. intros. rewrite E. eauto. Qed.

Lemma heap_is_pages h p p' L :
  pool_pages p' = pool_pages p -> heap_is h p L -> heap_is h p' L.
Proof. intros E [? ? ?]. split; [by eapply chain_is_pages|done..]. Qed.

(** Replacing the bytes of one page of a chain. *)
Lemma chain_is_update p p' first L k pid b b' :
  chain_is p first L -> L !! k = Some (pid, b) -> WF b' -> pnext b' = pnext b ->
  pool_pages p' = <[pid := b']> (pool_pages p) ->
  chain_is p' first (<[k := (pid, b')]> L).
Proof.
  intros [Hf Hnd Hp] Hk W Hx E.
  assert (Hids : (<[k := (pid, b')]> L).*1 = L.*1).
  { rewrite list_fmap_insert. apply list_insert_id. by rewrite list_lookup_fmap, Hk. }
  assert (Hfst : forall j, fst <$> <[k := (pid, b')]> L !! j = fst <$> L !! j).
  { intros j. rewrite <- !list_lookup_fmap. by rewrite Hids. }
  split.
  - rewrite <- Hf, !head_lookup. apply Hfst.
  - by rewrite Hids.
  - intros j pj bj Hj. apply list_lookup_insert_Some in Hj as [(<- & [= <- <-] & _)|[Hne Hj]].
    + rewrite E, lookup_insert_eq, Hfst, Hx. destruct (Hp k pid b Hk) as (_ & _ & ?). done.
    + destruct (Hp j pj bj Hj) as (H1 & H2 & H3). rewrite Hfst. split_and!; try done.
      rewrite E, lookup_insert_ne; [done|]. intros <-. apply Hne.
      apply (NoDup_lookup L.*1 k j pid); [done|..]; by rewrite list_lookup_fmap, ?Hk, ?Hj.
Qed.

Lemma chain_lookup p first L pid b :
  chain_is p first L -> (pid, b) ∈ L -> pool_pages p !! pid = Some b /\ WF b.
Proof.
  intros [_ _ Hp] [k Hk]%list_elem_of_lookup_1. by destruct (Hp k pid b Hk) as (? & ? & _).
Qed.

(** ** Rows and their record ids *)

Lemma page_rows_elem pid b rid x :
  (rid, x) ∈ page_rows (pid, b) <->
  page_id rid = pid /\ 0 <= slot_id rid /\ tuples b !! Z.to_nat (slot_id rid) = Some x.
Proof.
  unfold page_rows. rewrite elem_of_lookup_imap. simpl. split.
  - intros (i & t & [= -> ->] & Hi). simpl. rewrite Nat2Z.id. split_and!; [done|lia|done].
  - intros (Hp & H0 & Hx). exists (Z.to_nat (slot_id rid)), x. split; [|done].
    rewrite Z2Nat.id by lia. destruct rid. simpl in *. by subst.
Qed.

Lemma rows_elem L rid x :
  (rid, x) ∈ rows L <->
  exists b, (page_id rid, b) ∈ L /\ 0 <= slot_id rid /\ tuples b !! Z.to_nat (slot_id rid) = Some x.
Proof.
  unfold rows. rewrite list_elem_of_bind. split.
  - intros ([pid b] & (Hp & H0 & Hx)%page_rows_elem & Hin). subst. eauto.
  - intros (b & Hin & H0 & Hx). exists (page_id rid, b). split; [|done]. by apply page_rows_elem.
Qed.

(** ** Reading and writing a slot *)

Section slot.
Context (b : bytes) (rid : RecordId) (m : TupleMeta) (d : bytes).
Context (W : WF b) (H0 : 0 <= slot_id rid).
Context (Ht : tuples b !! Z.to_nat (slot_id rid) = Some (m, d)).

Lemma slot_in_page : slot_id rid < pnum b.
Proof using Ht H0.
  apply lookup_lt_Some in Ht. rewrite length_tuples in Ht. lia.
Qed.

Lemma slot_row : meta (pslot b (slot_id rid)) = m /\ pdata b (pslot b (slot_id rid)) = d.
Proof using Ht H0.
  pose proof slot_in_page. rewrite tuples_lookup in Ht by lia. by injection Ht.
Qed.

Lemma find_slot_ok : find_slot (BE := BE) rid b = Ok (pslot b (slot_id rid)).
Proof using W Ht H0.
  pose proof slot_in_page. destruct (wf_num b W) as (? & ? & ?). pose proof (wf_len b W).
  unfold find_slot, TablePage.new. rewrite (proj2 (Z.eqb_eq _ _)) by done. simpl negb. cbv match.
  rewrite directory_end_ok, free_space_ok by done. cbn [mbind outcome_bind].
  rewrite !(proj2 (Z.ltb_ge _ _)) by lia. cbn [orb map_err mbind outcome_bind].
  rewrite slot_ok by lia. done.
Qed.

Lemma slot_bytes_ok : TablePage.tuple_bytes b (pslot b (slot_id rid)) = Ok d.
Proof using W Ht H0.
  pose proof slot_in_page as Hi. destruct (wf_num b W) as (? & ? & ?). pose proof (wf_len b W).
  pose proof (wf_slot_at b W (slot_id rid) ltac:(lia)) as Hw.
  unfold TablePage.tuple_bytes. rewrite check_region_ok by (done || lia).
  cbn [mbind outcome_bind]. unfold TablePage.range. rewrite (region_start_ok b (slot_id rid)) by (done || lia).
  cbn [mbind outcome_bind]. unfold slot_wf, slot_start in *.
  rewrite slice_ok by lia. destruct slot_row as [_ <-]. unfold pdata, slot_start.
  do 2 f_equal. lia.
Qed.
End slot.

(** The page operation a slot write is. *)
Definition write_op (i : Z) (w : SlotWrite) : page_op :=
  match w_data w with
  | Some d => OpUpdate i (w_meta w) d
  | None => OpMeta i (w_meta w)
  end.

Lemma write_op_ok b i m d w :
  WF b -> 0 <= i -> tuples b !! Z.to_nat i = Some (m, d) -> write_valid w ->
  (exists e, page_step (write_op i w) b = (Err e, b)) \/
  (exists b', page_step (write_op i w) b = (Ok tt, b') /\ WF b' /\ pnext b' = pnext b /\
     tuples b' = <[Z.to_nat i := written w d]> (tuples b)).
Proof.
  intros W H0 Ht [Hm Hd].
  assert (Hv : op_valid (write_op i w)).
  { unfold write_op. destruct (w_data w); simpl in *; split_and!; done. }
  destruct (op_error (write_op i w) b) as [e|] eqn:He.
  - left. exists e. by apply page_step_error.
  - right. destruct (page_step_success b _ W Hv He) as (b' & Hr & W' & Hts & Hx & _).
    exists b'. split_and!; try done. rewrite Hts. unfold write_op, written.
    destruct (w_data w); simpl; [done|]. by erewrite alter_as_insert by exact Ht.
Qed.

(** Rows of a chain one of whose pages changed one tuple. *)
Lemma imap_insert {A B} (f : nat -> A -> B) (l : list A) (i : nat) x :
  imap f (<[i := x]> l) = <[i := f i x]> (imap f l).
Proof.
  apply list_eq. intros j. rewrite list_lookup_imap.
  destruct (decide (i = j)) as [<-|Hne].
  - destruct (decide (i < length l)%nat).
    + by rewrite !list_lookup_insert_eq by (rewrite ?length_imap; done).
    + rewrite !lookup_ge_None_2 by (rewrite ?length_insert, ?length_imap; lia). done.
  - by rewrite !list_lookup_insert_ne, list_lookup_imap by done.
Qed.

(** ** The rows as a map *)

Definition row_map (L : chain) : gmap RecordId row := list_to_map (rows L).

Lemma page_rows_fst pid b : (page_rows (pid, b)).*1 = mkRid pid ∘ Z.of_nat <$> seq 0 (length (tuples b)).
Proof.
  unfold page_rows. rewrite fmap_imap. simpl.
  apply list_eq. intros i. rewrite list_lookup_imap, list_lookup_fmap.
  destruct (decide (i < length (tuples b))%nat) as [Hi|Hi].
  - destruct (lookup_lt_is_Some_2 (tuples b) i Hi) as [t Ht]. rewrite Ht.
    rewrite lookup_seq_lt by done. done.
  - rewrite lookup_ge_None_2 by lia. rewrite lookup_seq_ge by lia. done.
Qed.

Lemma rows_nodup L : NoDup L.*1 -> NoDup (rows L).*1.
Proof using.
  intros Hnd. induction L as [|[pid b] L IH]; [constructor|].
  unfold rows. csimpl. rewrite fmap_app. csimpl in Hnd. apply list.NoDup_cons in Hnd as [Hni Hnd].
  apply list.NoDup_app. split_and!.
  - rewrite page_rows_fst. apply NoDup_fmap_2; [|apply NoDup_seq].
    intros i j [= Hij]. lia.
  - intros rid Hr Hr'. apply Hni. rewrite page_rows_fst in Hr.
    apply list_elem_of_fmap in Hr as (i & -> & _).
    apply list_elem_of_fmap in Hr' as ([rid x] & Heq & Hin). simpl in Heq. subst rid.
    apply rows_elem in Hin as (b' & Hin & _). simpl in Hin.
    apply list_elem_of_fmap. by exists (pid, b').
  - by apply IH.
Qed.

Lemma row_map_lookup L rid x :
  NoDup L.*1 -> row_map L !! rid = Some x <-> (rid, x) ∈ rows L.
Proof using.
  intros HC. symmetry. apply elem_of_list_to_map. by apply rows_nodup.
Qed.

Lemma insert_fst {A B} (l : list (A * B)) k x y z : l !! k = Some (x, y) -> (<[k := (x, z)]> l).*1 = l.*1.
Proof using. intros Hk. rewrite list_fmap_insert. apply list_insert_id. by rewrite list_lookup_fmap, Hk. Qed.

(** Updating one tuple of one page updates one row. *)
Lemma row_map_update L k pid b b' i x :
  NoDup L.*1 -> L !! k = Some (pid, b) -> 0 <= i < pnum b ->
  tuples b' = <[Z.to_nat i := x]> (tuples b) ->
  row_map (<[k := (pid, b')]> L) = <[mkRid pid i := x]> (row_map L).
Proof using.
  intros HC Hk Hi Ht. apply map_eq. intros rid. apply option_eq. intros y.
  rewrite row_map_lookup, lookup_insert_Some, row_map_lookup by (done || by erewrite insert_fst).
  rewrite !rows_elem.
  assert (Huniq : forall j bj, L !! j = Some (pid, bj) -> j = k).
  { intros j bj Hj. apply (NoDup_lookup L.*1 j k pid); [done|..];
      by rewrite list_lookup_fmap, ?Hk, ?Hj. }
  assert (Hlen : (Z.to_nat i < length (tuples b))%nat) by (rewrite length_tuples; lia).
  split.
  - intros (bj & [j Hj]%list_elem_of_lookup_1 & H0 & Hx).
    apply list_lookup_insert_Some in Hj as [(<- & [= Hp ->] & _)|[Hne Hj]].
    + rewrite Ht in Hx. destruct (decide (slot_id rid = i)) as [<-|Hsi].
      * rewrite list_lookup_insert_eq in Hx by done. left. simplify_eq. by destruct rid.
      * rewrite list_lookup_insert_ne in Hx by lia. right. split; [intros <-; done|].
        exists b. rewrite <- Hp. split_and!; try done. by eapply list_elem_of_lookup_2.
    + right. split.
      * intros <-. simpl in Hj. apply Huniq in Hj. done.
      * exists bj. split_and!; try done. by eapply list_elem_of_lookup_2.
  - intros [[<- <-]|[Hne (bj & [j Hj]%list_elem_of_lookup_1 & H0 & Hx)]].
    + exists b'. simpl. split_and!; [|lia|by rewrite Ht, list_lookup_insert_eq].
      eapply list_elem_of_lookup_2. apply list_lookup_insert_eq. by eapply lookup_lt_Some.
    + destruct (decide (j = k)) as [->|Hjk].
      * assert (page_id rid = pid /\ bj = b) as [Hp ->] by (split; congruence).
        exists b'. rewrite Hp. split_and!; [|done|].
        -- eapply list_elem_of_lookup_2. apply list_lookup_insert_eq. by eapply lookup_lt_Some.
        -- rewrite Ht, list_lookup_insert_ne; [done|]. intros Hs. apply Hne.
           destruct rid. simpl in *. f_equal; [done|lia].
      * exists bj. split_and!; try done. eapply list_elem_of_lookup_2.
        by rewrite list_lookup_insert_ne.
Qed.

(** ** Slot operations on a chain *)

(** The operations of a heap as a slot store; the state is the heap and its pool. *)
Definition heap_write_then {W T R E} (from : TableHeapError BE -> E) (rid : RecordId)
    (f : TupleMeta -> bytes -> M W E (SlotWrite * T)) (then_ : T -> M W E R)
    : M ((Heap * P) * W) E R := fun hpw =>
  let '(r, (p, w)) := write_slot_then from rid f then_ (hpw.1.2, hpw.2) in
  (r, ((hpw.1.1, p), w)).

Definition heap_store_is (hp : Heap * P) (C : gmap RecordId row) : Prop :=
  exists L, heap_is hp.1 hp.2 L /\ C = row_map L.

Lemma heap_read_law hp C rid x :
  heap_store_is hp C -> C !! rid = Some x ->
  match on_snd (S := Heap) id (read_slot rid) hp with
  | (Ok y, hp') => y = x /\ heap_store_is hp' C
  | (Err _, hp') => heap_store_is hp' C
  | (Panic, _) => False
  end.
Proof.
  intros (L & [HC HT HR] & ->) Hx. destruct hp as [h p]. simpl in *. destruct x as [m d].
  apply (row_map_lookup _ _ _ (ch_nodup _ _ _ HC)) in Hx. apply rows_elem in Hx as (b & Hin & H0 & Ht).
  destruct (chain_lookup _ _ _ _ _ HC Hin) as [Hp W].
  unfold on_snd, read_slot. simpl. pose proof (fetch_law (page_id rid) p) as Hf.
  assert (Hkeep : forall p', pool_pages p' = pool_pages p -> heap_store_is (h, p') (row_map L)).
  { intros p' E. exists L. split; [|done]. by eapply heap_is_pages. }
  destruct (fetch (page_id rid) p) as [[b'|e|] p']; simpl; [|eauto|done].
  destruct Hf as [Hb E]. assert (b' = b) as -> by congruence.
  rewrite (find_slot_ok b rid m d) by done. cbn [mbind outcome_bind].
  rewrite (slot_bytes_ok b rid m d) by done. cbn [map_err mbind outcome_bind].
  destruct (slot_row b rid m d) as [-> _]; try done. eauto.
Qed.

(** Writing page [k] of the chain back. *)
Lemma heap_put h p p' L k pid b b' :
  heap_is h p L -> L !! k = Some (pid, b) -> WF b' -> pnext b' = pnext b -> pnum b' = pnum b ->
  pool_pages p' = <[pid := b']> (pool_pages p) ->
  heap_is h p' (<[k := (pid, b')]> L).
Proof.
  intros [HC (L0 & bt & Hl & Hn) Hres] Hk W Hx Hnum E. split; [by eapply chain_is_update| |done].
  destruct (decide (k < length L0)%nat) as [Hlt|Hge].
  - exists (<[k := (pid, b')]> L0), bt. rewrite Hl, insert_app_l by done. done.
  - assert (k = length L0) as ->.
    { apply lookup_lt_Some in Hk. rewrite Hl, length_app in Hk. simpl in Hk. lia. }
    rewrite Hl, list_lookup_middle in Hk by done. injection Hk as -> ->.
    exists L0, b'. rewrite Hl, insert_app_r_alt, Nat.sub_diag by lia. simpl. split; congruence.
Qed.

Lemma row_put h p p' L k pid b b' i x :
  heap_is h p L -> L !! k = Some (pid, b) -> WF b' -> pnext b' = pnext b -> 0 <= i < pnum b ->
  tuples b' = <[Z.to_nat i := x]> (tuples b) ->
  pool_pages p' = <[pid := b']> (pool_pages p) ->
  heap_store_is (h, p') (<[mkRid pid i := x]> (row_map L)).
Proof.
  intros HH Hk W Hx Hi Ht E.
  assert (Hnum : pnum b' = pnum b).
  { pose proof (length_tuples b') as E1. pose proof (length_tuples b) as E2.
    rewrite Ht, length_insert in E1. destruct (wf_num b' W). lia. }
  pose proof (heap_put h p p' L k pid b b' HH Hk W Hx Hnum E) as HH'.
  exists (<[k := (pid, b')]> L). split; [done|]. symmetry.
  eapply row_map_update; [apply HH|done..].
Qed.

Lemma same_put h p p' L k pid b :
  heap_is h p L -> L !! k = Some (pid, b) ->
  pool_pages p' = <[pid := b]> (pool_pages p) -> heap_store_is (h, p') (row_map L).
Proof.
  intros HH Hk E. exists L. split; [|done]. simpl. eapply heap_is_pages; [|exact HH].
  rewrite E. apply insert_id. by apply (ch_page _ _ _ (hi_chain _ _ _ HH) k).
Qed.

(** A slot write, once its page is fetched. *)
Lemma write_slot_then_eq W T R E (from : TableHeapError BE -> E) rid m d b p p1 (w : W)
    (f : TupleMeta -> bytes -> M W E (SlotWrite * T)) (then_ : T -> M W E R) :
  fetch (page_id rid) p = (Ok b, p1) -> WF b -> 0 <= slot_id rid ->
  tuples b !! Z.to_nat (slot_id rid) = Some (m, d) ->
  write_slot_then from rid f then_ (p, w) =
    match f m d w with
    | (Ok (wr, t), w1) =>
        match page_step (write_op (slot_id rid) wr) b with
        | (Ok _, b2) => let '(r, w2) := then_ t w1 in (r, (put_page (page_id rid) b2 p1, w2))
        | (Err e, b2) => (Err (from (HPage (page_id rid) e)), (put_page (page_id rid) b2 p1, w1))
        | (Panic, b2) => (Panic, (put_page (page_id rid) b2 p1, w1))
        end
    | (Err e, w1) => (Err e, (put_page (page_id rid) b p1, w1))
    | (Panic, w1) => (Panic, (put_page (page_id rid) b p1, w1))
    end.
Proof.
  intros Hf WFb H0 Ht. unfold write_slot_then, with_page. cbn [fst snd]. rewrite Hf.
  erewrite bind_lift by (cbn [fst]; by rewrite (find_slot_ok b rid m d)).
  erewrite bind_lift by (cbn [fst]; by rewrite (slot_bytes_ok b rid m d)).
  destruct (slot_row b rid m d) as [-> _]; try done.
  unfold mbind, M_bind, on_fst, on_snd. cbn [fst snd].
  destruct (f m d w) as [[[wr t]|e|] w1]; cbn [map_err id fst snd]; [|done..].
  unfold write_op. destruct (w_data wr) as [dw|]; cbn [page_step].
  - destruct (TablePage.update_in_place (slot_id rid) (w_meta wr) dw b) as [[] b2];
      cbn [map_err fst snd]; [|done..]. destruct (then_ t w1) as [[] w2]; done.
  - destruct (TablePage.update_meta (slot_id rid) (w_meta wr) b) as [[] b2];
      cbn [map_err fst snd]; [|done..]. destruct (then_ t w1) as [[] w2]; done.
Qed.

Lemma heap_write_law W T R E (from : TableHeapError BE -> E) hp C rid m d w
    (f : TupleMeta -> bytes -> M W E (SlotWrite * T)) (then_ : T -> M W E R) :
  heap_store_is hp C -> C !! rid = Some (m, d) ->
  (forall wr t w', f m d w = (Ok (wr, t), w') -> write_valid wr) ->
  let res := heap_write_then from rid f then_ (hp, w) in
  refused (fun s' => heap_store_is s' C) from res w \/
  match f m d w with
  | (Err e, w1) => exists s', res = (Err e, (s', w1)) /\ heap_store_is s' C
  | (Panic, w1) => exists s', res = (Panic, (s', w1)) /\ heap_store_is s' C
  | (Ok (wr, t), w1) =>
      refused (fun s' => heap_store_is s' C) from res w1 \/
      exists s', heap_store_is s' (<[rid := written wr d]> C) /\
        res = let '(r, w2) := then_ t w1 in (r, (s', w2))
  end.
Proof.
  intros (L & HH & ->) Hx Hv. destruct hp as [h p]. simpl in HH. pose proof HH as [HC HT HR].
  apply (row_map_lookup _ _ _ (ch_nodup _ _ _ HC)) in Hx. apply rows_elem in Hx as (b & Hin & H0 & Ht).
  destruct (chain_lookup _ _ _ _ _ HC Hin) as [Hp WFb].
  apply list_elem_of_lookup_1 in Hin as [k Hk]. pose proof (slot_in_page b rid m d H0 Ht) as Hlt.
  cbv zeta. unfold heap_write_then. cbn [fst snd].
  pose proof (fetch_law (page_id rid) p) as Hf.
  destruct (fetch (page_id rid) p) as [[b'|e|] p1] eqn:Hfe; [|left|done].
  2:{ exists (HBpm e), (h, p1). unfold write_slot_then, with_page. cbn [fst snd]. rewrite Hfe.
      split; [done|]. exists L. split; [|done]. by eapply heap_is_pages. }
  destruct Hf as [Hb E1]. assert (b' = b) as -> by congruence. right.
  assert (Hput : forall bx, pool_pages (put_page (page_id rid) bx p1) =
    <[page_id rid := bx]> (pool_pages p)).
  { intros bx. rewrite put_law by (rewrite E1; eauto). by rewrite E1. }
  assert (Hsame : heap_store_is (h, put_page (page_id rid) b p1) (row_map L)).
  { eapply same_put; [exact HH|exact Hk|apply Hput]. }
  rewrite (write_slot_then_eq W T R E from rid m d b p p1 w f then_ Hfe WFb H0 Ht).
  destruct (f m d w) as [[[wr t]|e|] w1] eqn:Hfm; [|eauto..].
  specialize (Hv wr t w1 eq_refl).
  destruct (write_op_ok b (slot_id rid) m d wr WFb H0 Ht Hv) as [(e & He)|(b2 & He & W2 & Hx2 & Ht2)];
    rewrite He.
  - left. eexists _, (h, put_page (page_id rid) b p1). done.
  - right. exists (h, put_page (page_id rid) b2 p1). split.
    + destruct rid as [pid i]. eapply row_put; [exact HH|exact Hk|done..|simpl in *; lia|done|apply Hput].
    + by destruct (then_ t w1).
Qed.

(** ** Insertion *)

Lemma page_eq {A} pid (m : M bytes TablePageError A) h p b p1 :
  fetch pid p = (Ok b, p1) ->
  page pid m (h, p) = let '(r, b') := m b in (map_err (HPage pid) r, (h, put_page pid b' p1)).
Proof.
  intros Hf. unfold page, plain, with_page, on_snd, on_fst. cbn [fst snd]. rewrite Hf.
  destruct (m b) as [[] b']; done.
Qed.

Lemma page_err {A} pid (m : M bytes TablePageError A) h p e p1 :
  fetch pid p = (Err e, p1) -> page pid m (h, p) = (Err (HBpm e), (h, p1)).
Proof.
  intros Hf. unfold page, plain, with_page, on_snd. cbn [fst snd]. by rewrite Hf.
Qed.

Lemma new_wf b : WF b -> TablePage.new b = Ok b.
Proof.
  intros W. destruct (wf_num b W) as (? & ? & ?). pose proof (wf_len b W).
  unfold TablePage.new. rewrite (proj2 (Z.eqb_eq _ _)) by done. simpl negb. cbv match.
  rewrite directory_end_ok, free_space_ok by done. cbn [mbind outcome_bind].
  by rewrite !(proj2 (Z.ltb_ge _ _)) by lia.
Qed.

Lemma insert_in_tail_ok b m data reserve :
  WF b -> meta_valid m -> Forall is_byte data -> 0 <= reserve ->
  insert_in_tail m data reserve b = (Ok None, b) \/
  exists b', insert_in_tail m data reserve b = (Ok (Some (pnum b)), b') /\ WF b' /\
    tuples b' = tuples b ++ [(m, data)] /\ pnext b' = pnext b /\ pnum b' = pnum b + 1.
Proof.
  intros W Hm Hd Hr. pose proof (wf_len b W) as Hl. unfold insert_in_tail.
  erewrite bind_lift by by apply new_wf. erewrite bind_lift by by apply num_tuples_ok.
  set (r := if pnum b =? 0 then 0 else reserve).
  assert (0 <= r) by (unfold r; case_match; lia).
  erewrite bind_lift by (cbv beta; by apply can_insert_ok). cbv beta.
  destruct (Z.leb_spec (12 + pnum b * 17 + 17 + (len data + r)) (pfree b)) as [Hfit|]; [|by left].
  right. destruct (insert_fits b m data W Hm Hd) as (b' & Hi & W' & Hs & Ht & Hx); [lia|].
  exists b'. erewrite bind_Ok by exact Hi. split_and!; try done.
  pose proof (length_tuples b') as E1. rewrite Ht, length_app, length_tuples in E1. simpl in E1.
  destruct (wf_num b W), (wf_num b' W'). lia.
Qed.

Lemma fresh_page_ok m data :
  meta_valid m -> Forall is_byte data -> len data <= TablePage.MAX_TUPLE_SIZE ->
  exists b', (_ ← TablePage.init; TablePage.insert_with_meta m data)
      zero_page = (Ok 0, b') /\
    WF b' /\ tuples b' = [(m, data)] /\ decode_u32 (pnext b') = None /\ pnum b' = 1.
Proof.
  intros Hm Hd Hlen.
  destruct (init_ok zero_page zero_page_len zero_page_bytes) as (b0 & Hi & W0 & Ht0 & Hx0 & Hf0).
  assert (Hn0 : pnum b0 = 0).
  { pose proof (length_tuples b0) as E. rewrite Ht0 in E. destruct (wf_num b0 W0). simpl in E. lia. }
  destruct (insert_fits b0 m data W0 Hm Hd) as (b' & Hr & W' & _ & Ht & Hx).
  { rewrite Hn0, Hf0. tpu. lia. }
  exists b'. erewrite bind_Ok by exact Hi. rewrite Hr, Hn0, Ht, Ht0, Hx, Hx0. split_and!; try done.
  pose proof (length_tuples b') as E1. rewrite Ht, length_app, length_tuples in E1. simpl in E1.
  destruct (wf_num b0 W0), (wf_num b' W'). lia.
Qed.

(** A new page that is not linked yet changes no chain. *)
Lemma chain_is_fresh p p' first L pid b :
  chain_is p first L -> pool_pages p !! pid = None -> pool_pages p' = <[pid := b]> (pool_pages p) ->
  chain_is p' first L /\ pid ∉ L.*1.
Proof.
  intros [Hf Hnd Hp] Hnone E.
  assert (Hni : forall k q bq, L !! k = Some (q, bq) -> q <> pid).
  { intros k q bq Hk ->. destruct (Hp k pid bq Hk) as [? _]. congruence. }
  split.
  - split; try done. intros k q bq Hk. destruct (Hp k q bq Hk) as (H1 & H2 & H3).
    split_and!; try done. rewrite E, lookup_insert_ne; [done|]. by apply not_eq_sym, (Hni k q bq).
  - intros ([q bq] & -> & [k Hk]%list_elem_of_lookup_1)%list_elem_of_fmap. by apply (Hni k q bq Hk).
Qed.

Lemma rows_snoc L pid b : rows (L ++ [(pid, b)]) = rows L ++ page_rows (pid, b).
Proof. unfold rows. rewrite bind_app. csimpl. by rewrite app_nil_r. Qed.

(** Appending a row to the last page of the chain. *)
Lemma rows_grow L0 pid b b' m data :
  tuples b' = tuples b ++ [(m, data)] -> pnum b = Z.of_nat (length (tuples b)) ->
  rows (L0 ++ [(pid, b')]) = rows (L0 ++ [(pid, b)]) ++ [(mkRid pid (pnum b), (m, data))].
Proof.
  intros Ht Hn. rewrite !rows_snoc, <- app_assoc. f_equal. unfold page_rows. simpl.
  rewrite Ht, imap_app. simpl. by rewrite Nat.add_0_r, Hn.
Qed.

(** Linking page [pid] after the last page of the chain. *)
Lemma chain_is_append p p' first L0 q b b' pid bn :
  chain_is p first (L0 ++ [(q, b)]) -> pid ∉ (L0 ++ [(q, b)]).*1 ->
  WF b' -> decode_u32 (pnext b') = Some pid -> WF bn -> decode_u32 (pnext bn) = None ->
  pool_pages p' = <[q := b']> (<[pid := bn]> (pool_pages p)) ->
  chain_is p' first (L0 ++ [(q, b'); (pid, bn)]).
Proof.
  intros [Hf Hnd Hp] Hni W' Hx' Wn Hxn E. rewrite fmap_app in Hnd, Hni. csimpl in *.
  assert (Hqp : q <> pid) by set_solver.
  split.
  - by destruct L0.
  - rewrite fmap_app. csimpl. apply list.NoDup_app in Hnd as (? & ? & ?).
    apply list.NoDup_app. split_and!; [done|set_solver|].
    apply list.NoDup_cons. split; [set_solver|apply list.NoDup_cons; split; [set_solver|constructor]].
  - intros k pk bk Hk. apply lookup_app_Some in Hk as [Hk|[Hge Hk]].
    + pose proof (lookup_lt_Some _ _ _ Hk) as Hlt.
      destruct (Hp k pk bk) as (H1 & H2 & H3); [by apply lookup_app_l_Some|].
      assert (pk ∈ L0.*1) by (apply list_elem_of_fmap; exists (pk, bk); eauto using list_elem_of_lookup_2).
      assert (pk <> q).
      { intros ->. apply list.NoDup_app in Hnd as (_ & Hd & _). apply (Hd q); set_solver. }
      assert (pk <> pid) by set_solver.
      split_and!; try done.
      * by rewrite E, !lookup_insert_ne by done.
      * rewrite H3. destruct (decide (S k < length L0)%nat).
        -- by rewrite !lookup_app_l by done.
        -- rewrite !lookup_app_r by lia. by replace (S k - length L0)%nat with 0%nat by lia.
    + destruct (k - length L0)%nat as [|[|j]] eqn:Hj; simplify_eq/=.
      * split_and!; try done; [by rewrite E, lookup_insert_eq|].
        rewrite lookup_app_r by lia. by replace (S k - length L0)%nat with 1%nat by lia.
      * split_and!; try done; [by rewrite E, lookup_insert_ne, lookup_insert_eq by done|].
        rewrite lookup_app_r by lia. by replace (S k - length L0)%nat with 2%nat by lia.
Qed.

Lemma with_new_page_ok h p m data :
  meta_valid m -> Forall is_byte data -> len data <= TablePage.MAX_TUPLE_SIZE ->
  match on_snd (S := Heap) id (with_new_page (fun pid =>
     mapE (HPage pid) (_ ← TablePage.init; TablePage.insert_with_meta m data))) (h, p) with
  | (Ok (pid, slot), (h', p')) =>
      exists bn, h' = h /\ slot = 0 /\ pool_pages p !! pid = None /\ page_id_valid pid /\
        pool_pages p' = <[pid := bn]> (pool_pages p) /\
        WF bn /\ tuples bn = [(m, data)] /\ decode_u32 (pnext bn) = None /\ pnum bn = 1
  | (Err _, (h', p')) => h' = h /\ pool_pages p' = pool_pages p
  | (Panic, _) => False
  end.
Proof.
  intros Hm Hd Hsz. pose proof (new_page_law p) as Hnew. unfold with_new_page, on_snd. cbn [fst snd].
  destruct (new_page p) as [[[pid z]|e|] p1]; [|done..].
  destruct Hnew as (Hnone & Hvalid & -> & E1).
  destruct (fresh_page_ok m data Hm Hd Hsz) as (bn & Hfr & Wn & Htn & Hxn & Hnn).
  unfold mapE. rewrite Hfr. cbn. exists bn. split_and!; [done..| |exact Wn|done|done|done].
  rewrite put_law by (rewrite E1, lookup_insert_eq; eauto). by rewrite E1, insert_insert_eq.
Qed.

Lemma insert_on_new_page_ok h p L0 q b m data :
  chain_is p (first_page_id h) (L0 ++ [(q, b)]) ->
  meta_valid m -> Forall is_byte data -> len data <= TablePage.MAX_TUPLE_SIZE ->
  match insert_on_new_page q m data (h, p) with
  | (Ok (pid, slot), (h', p')) =>
      exists b' bn, h' = h /\ slot = 0 /\ tuples b' = tuples b /\ tuples bn = [(m, data)] /\
        pnum bn = 1 /\ chain_is p' (first_page_id h) (L0 ++ [(q, b'); (pid, bn)])
  | (Err _, (h', p')) => h' = h /\ chain_is p' (first_page_id h) (L0 ++ [(q, b)])
  | (Panic, _) => False
  end.
Proof.
  intros HC Hm Hd Hsz. unfold insert_on_new_page.
  destruct (ch_page _ _ _ HC (length L0) q b) as (Hq & W & _); [by rewrite list_lookup_middle|].
  pose proof (with_new_page_ok h p m data Hm Hd Hsz) as Hnew.
  destruct (on_snd id _ (h, p)) as [[[pid slot]|e|] [h1 p1]] eqn:Hr; [| |done].
  2:{ erewrite bind_Err by exact Hr. destruct Hnew as [-> E]. split; [done|].
      by eapply chain_is_pages. }
  destruct Hnew as (bn & -> & -> & Hnone & Hvalid & E1 & Wn & Htn & Hxn & Hnn).
  erewrite bind_Ok by exact Hr. cbv match.
  destruct (chain_is_fresh p p1 _ _ pid bn HC Hnone E1) as [HC1 Hni].
  pose proof (fetch_law q p1) as Hf. destruct (fetch q p1) as [[b1|e|] p2] eqn:Hfe; [| |done].
  2:{ erewrite bind_Err by by apply page_err. split; [done|]. by eapply chain_is_pages. }
  destruct Hf as [Hb1 E2].
  assert (b1 = b) as ->.
  { rewrite E1, lookup_insert_ne in Hb1; [congruence|]. intros ->. congruence. }
  destruct (set_next_page_id_ok b pid W Hvalid) as (b5 & Hs5 & W5 & Ht5 & Hn5 & Hx5).
  erewrite bind_Ok.
  2:{ rewrite (page_eq q _ h p1 b p2 Hfe). erewrite bind_lift by by apply new_wf. by rewrite Hs5. }
  exists b5, bn. split_and!; [done..|].
  eapply chain_is_append; [exact HC|done..|].
  rewrite put_law by (rewrite E2, Hb1; eauto). by rewrite E2, E1.
Qed.

(** A chain that grew by inserts: the last page may have more rows, and pages may follow it. *)
Inductive grows : chain -> chain -> Prop :=
| grows_last q b b' B : tuples b `prefix_of` tuples b' -> grows [(q, b)] ((q, b') :: B)
| grows_cons q b b' L L' : tuples b = tuples b' -> grows L L' -> grows ((q, b) :: L) ((q, b') :: L').

Lemma grows_app L0 L L' : grows L L' -> grows (L0 ++ L) (L0 ++ L').
Proof. induction L0 as [|[q b] L0 IH]; simpl; [done|]. constructor; auto. Qed.

(** The heap after a row went to the tail page or to a new page. *)
Lemma heap_insert_ok h p L m data :
  heap_is h p L -> meta_valid m -> Forall is_byte data ->
  match insert_with_meta m data (h, p) with
  | (Ok rid, (h', p')) =>
      exists L', heap_is h' p' L' /\ rows L' = rows L ++ [(rid, (m, data))] /\
        grows L L' /\ first_page_id h' = first_page_id h
  | (Err _, (h', p')) => heap_is h' p' L
  | (Panic, _) => False
  end.
Proof.
  intros HH Hm Hd. pose proof HH as [HC (L0 & b & HL & Hn) HR].
  set (q := t_page_id (tail h)) in *.
  destruct (ch_page _ _ _ HC (length L0) q b) as (Hq & W & Hxq); [by rewrite HL, list_lookup_middle|].
  unfold insert_with_meta. destruct (Z.ltb_spec TablePage.MAX_TUPLE_SIZE (len data)) as [|Hsz].
  { by unfold liftc. }
  unfold get_tail, get_reserve. erewrite bind_Ok by reflexivity. erewrite bind_Ok by reflexivity.
  cbn [fst]. fold q. pose proof (fetch_law q p) as Hf.
  destruct (fetch q p) as [[b0|e|] p1] eqn:Hfe; [| |done].
  2:{ erewrite bind_Err by by apply page_err. by eapply heap_is_pages. }
  destruct Hf as [Hb0 E1]. assert (b0 = b) as -> by congruence. clear Hb0.
  assert (Hput : forall bx, pool_pages (put_page q bx p1) = <[q := bx]> (pool_pages p)).
  { intros bx. rewrite put_law by (rewrite E1; eauto). by rewrite E1. }
  destruct (insert_in_tail_ok b m data (update_reserve h) W Hm Hd HR)
    as [Hi|(b' & Hi & W' & Ht & Hx & Hn')].
  - erewrite bind_Ok by (rewrite (page_eq q _ h p b p1 Hfe), Hi; done). cbv match.
    assert (HC2 : chain_is (put_page q b p1) (first_page_id h) (L0 ++ [(q, b)])).
    { rewrite <- HL. eapply chain_is_pages; [|exact HC]. rewrite Hput. by apply insert_id. }
    pose proof (insert_on_new_page_ok h _ L0 q b m data HC2 Hm Hd Hsz) as Hnew.
    destruct (insert_on_new_page q m data _) as [[[pid slot]|e|] [h2 p2]] eqn:Hr; [| |done].
    2:{ erewrite bind_Err by exact Hr. destruct Hnew as [-> HC3]. split; [by rewrite HL|eauto|done]. }
    destruct Hnew as (b5 & bn & -> & -> & Ht5 & Htn & Hnn & HC3).
    erewrite bind_Ok by exact Hr. cbn. exists (L0 ++ [(q, b5); (pid, bn)]).
    split_and!; [| |rewrite HL; apply grows_app; constructor; by rewrite Ht5|done].
    + split; [done|exists (L0 ++ [(q, b5)]), bn; rewrite <- app_assoc; simpl; split; [done|lia]|done].
    + rewrite HL. replace (L0 ++ [(q, b5); (pid, bn)]) with ((L0 ++ [(q, b5)]) ++ [(pid, bn)])
        by by rewrite <- app_assoc.
      rewrite !rows_snoc. f_equal; [unfold page_rows; simpl; by rewrite Ht5|].
      unfold page_rows. simpl. by rewrite Htn.
  - erewrite bind_Ok by (rewrite (page_eq q _ h p b p1 Hfe), Hi; done). cbv match.
    erewrite bind_Ok by reflexivity. cbn. exists (L0 ++ [(q, b')]).
    assert (Hlen : pnum b = Z.of_nat (length (tuples b))).
    { rewrite length_tuples. destruct (wf_num b W). lia. }
    split_and!; [|rewrite HL; by apply rows_grow| |done];
      [|rewrite HL; apply grows_app; constructor; rewrite Ht; by apply prefix_app_r].
    split; [|exists L0, b'; simpl; split; [done|lia]|done].
    replace (L0 ++ [(q, b')]) with (<[length L0 := (q, b')]> L).
    + eapply chain_is_update; try done; [by rewrite HL, list_lookup_middle|apply Hput].
    + rewrite HL, insert_app_r_alt, Nat.sub_diag by lia. done.
Qed.

End proofs.
