(* ===== verification/TableHeapScan.v ===== *)
(** * Opening, scanning and freeing a table heap

    [open] finds the tail of any chain; a scan enumerates the rows the heap had when the scan
    began; [free] deletes the pages of the chain in order. Each may stop at a failure of the
    pool and does nothing else. *)

From Stdlib Require Import ZArith Lia.
From stdpp Require Import base list gmap numbers option.
From S2P Require Import Prelude Bytes Ids Buf TablePage TablePageProofs TablePageUpdate TablePageTheorems.
From S2P Require Import TableHeap SlotStore TableHeapProofs.
Import TableHeap.

Local Open Scope Z_scope.

Lemma next_page_id_ok b : len b = PAGE_SIZE -> TablePage.next_page_id b = Ok (decode_u32 (pnext b)).
Proof. intros. unfold TablePage.next_page_id. tpu. rewrite get_le_ok by lia. done. Qed.

Section scans.
Context {P BE : Type} `{Pool : PagePool P BE} `{Laws : !PagePoolLaws P BE}.

(** A suffix of a chain is a chain. *)
Lemma chain_is_tail p first pid b L :
  chain_is p first ((pid, b) :: L) -> L <> [] ->
  exists next, decode_u32 (pnext b) = Some next /\ chain_is p next L.
Proof.
  intros [Hf Hnd Hp] HL. destruct L as [|[next bn] L]; [done|].
  exists next. split; [by destruct (Hp 0%nat pid b eq_refl) as (_ & _ & ->)|].
  split; [done|by apply list.NoDup_cons in Hnd as [_ ?]|].
  intros k q c Hk. apply (Hp (S k) q c Hk).
Qed.

Lemma chain_is_head p first pid b L :
  chain_is p first ((pid, b) :: L) ->
  pid = first /\ pool_pages p !! pid = Some b /\ WF b /\
  decode_u32 (pnext b) = fst <$> head L /\ pid ∉ L.*1.
Proof.
  intros [Hf Hnd Hp]. simpl in Hf. destruct (Hp 0%nat pid b eq_refl) as (? & ? & Hn).
  simpl in Hn. rewrite head_lookup. split_and!; try done; [congruence|].
  by apply list.NoDup_cons in Hnd as [? _].
Qed.

(** ** Opening *)

Lemma open_loop_ok L : forall fuel p first seen,
  chain_is p first L -> (length L <= fuel)%nat -> (forall pid, pid ∈ L.*1 -> pid ∉ seen) ->
  match open_loop fuel first seen p with
  | (Ok t, p') => pool_pages p' = pool_pages p /\
      exists L0 b, L = L0 ++ [(t_page_id t, b)] /\ t_num_tuples t = pnum b
  | (Err e, p') => pool_pages p' = pool_pages p /\ exists e', e = HBpm e'
  | (Panic, _) => False
  end.
Proof.
  induction L as [|[pid b] L IH]; intros fuel p first seen HC Hfuel Hseen.
  { by destruct HC. }
  destruct (chain_is_head _ _ _ _ _ HC) as (<- & Hb & W & Hn & Hni).
  destruct fuel as [|fuel]; [simpl in Hfuel; lia|]. cbn [open_loop].
  rewrite decide_False by (apply Hseen; simpl; set_solver).
  pose proof (fetch_law pid p) as Hf. unfold mapE at 1.
  destruct (fetch pid p) as [[b0|e|] p1] eqn:Hfe; [| |done].
  2:{ erewrite bind_Err by (by rewrite Hfe). eauto. }
  destruct Hf as [Hb0 E1]. assert (b0 = b) as -> by congruence.
  erewrite bind_Ok by (by rewrite Hfe).
  rewrite new_wf, next_page_id_ok, num_tuples_ok by (done || by apply wf_len). cbn [map_err].
  erewrite bind_liftc by done. cbv beta. erewrite bind_liftc by done. cbv beta.
  destruct L as [|[next bn] L'].
  - rewrite Hn. cbn [fmap option_fmap option_map head]. cbv match. erewrite bind_liftc by done. cbn. split; [done|]. by exists [], b.
  - destruct (chain_is_tail _ _ _ _ _ HC) as (n' & Hn' & HC'); [done|].
    rewrite Hn'. rewrite Hn in Hn'. injection Hn' as <-.
    erewrite bind_Ok by done.
    cbv beta. rewrite allocated_law; [cbn [negb]; cbv match|].
    2:{ rewrite E1. destruct (chain_is_head _ _ _ _ _ HC') as (_ & ? & _). eauto. }
    specialize (IH fuel p1 next ({[pid]} ∪ seen)).
    assert (HC1 : chain_is p1 next ((next, bn) :: L')) by by eapply chain_is_pages.
    specialize (IH HC1 ltac:(simpl in *; lia)).
    assert (Hs : forall q, q ∈ ((next, bn) :: L').*1 -> q ∉ {[pid]} ∪ seen).
    { intros q Hq. specialize (Hseen q). set_solver. }
    specialize (IH Hs). destruct (open_loop _ _ _ p1) as [[t|e|] p2]; [| |done].
    + destruct IH as (E2 & L0 & bt & HL & Ht). split; [congruence|].
      exists ((pid, b) :: L0), bt. by rewrite HL.
    + destruct IH as (E2 & He). split; [congruence|done].
Qed.

(** ** Scanning *)

Definition row_fun {R} (f : RecordId -> TupleMeta -> bytes -> option R) (x : RecordId * row) : option R :=
  f x.1 x.2.1 x.2.2.

(** The rows of [L] before slot [slots] of page [last]. *)
Fixpoint scan_rows (last : PageId) (slots : Z) (L : chain) : list (RecordId * row) :=
  match L with
  | [] => []
  | (pid, b) :: L =>
      if pid =? last then take (Z.to_nat slots) (page_rows (pid, b))
      else page_rows (pid, b) ++ scan_rows last slots L
  end.

Lemma scan_rows_all L0 q b slots :
  NoDup (L0 ++ [(q, b)]).*1 -> WF b -> slots = pnum b ->
  scan_rows q slots (L0 ++ [(q, b)]) = rows (L0 ++ [(q, b)]).
Proof.
  intros Hnd W ->. induction L0 as [|[pid c] L0 IH]; simpl.
  - rewrite Z.eqb_refl. unfold rows. simpl. rewrite app_nil_r. apply take_ge.
    unfold page_rows. rewrite length_imap, length_tuples. done.
  - csimpl in Hnd. apply list.NoDup_cons in Hnd as [Hni Hnd].
    destruct (Z.eqb_spec pid q) as [->|].
    + destruct Hni. rewrite fmap_app. set_solver.
    + by rewrite IH.
Qed.

Lemma page_rows_prefix q b b' : tuples b `prefix_of` tuples b' ->
  page_rows (q, b) = take (length (tuples b)) (page_rows (q, b')).
Proof.
  intros [k Hk]. unfold page_rows. simpl. rewrite Hk, imap_app, take_app_length'; [done|].
  by rewrite length_imap.
Qed.

(** Rows appended after the scan began are not among the rows it visits. *)
Lemma scan_rows_grows L L' last slots :
  grows L L' -> NoDup L.*1 ->
  (exists L0 b, L = L0 ++ [(last, b)] /\ slots = Z.of_nat (length (tuples b))) ->
  scan_rows last slots L' = rows L.
Proof.
  induction 1 as [q b b' B Hpre|q b b' L L' Ht Hg IH]; intros Hnd (L0 & c & HL & Hs).
  - destruct L0 as [|? [|]]; simplify_eq/=. rewrite Z.eqb_refl, Nat2Z.id.
    rewrite <- page_rows_prefix by done. unfold rows. simpl. by rewrite app_nil_r.
  - csimpl in Hnd. apply list.NoDup_cons in Hnd as [Hni Hnd].
    destruct L0 as [|x L0]; [by injection HL as -> -> ->; inversion Hg|]. injection HL as <- ->. cbn [scan_rows].
    destruct (Z.eqb_spec q last) as [->|].
    + destruct Hni. rewrite fmap_app. set_solver.
    + rewrite (IH Hnd) by eauto. unfold rows at 2. simpl. unfold page_rows. simpl. by rewrite Ht.
Qed.

Lemma grows_refl L : L <> [] -> grows L L.
Proof.
  induction L as [|[q b] [|x L] IH]; intros Hne; [done|by apply (grows_last q b b [])|].
  apply grows_cons; [done|]. by apply IH.
Qed.

Lemma grows_trans L1 L2 L3 : grows L1 L2 -> grows L2 L3 -> grows L1 L3.
Proof.
  intros H. revert L3. induction H as [q b b' B Hpre|q b b' L L' Ht Hg IH]; intros L3 H3.
  - inversion H3; subst; constructor; [by etrans|congruence].
  - inversion H3; subst; [inversion Hg|]. constructor; [congruence|auto].
Qed.

Lemma grows_first L L' : grows L L' -> fst <$> head L' = fst <$> head L.
Proof. by destruct 1. Qed.

(** The page that was last is still there, with at least the rows it had. *)
Lemma grows_last_page L0 q b L' : grows (L0 ++ [(q, b)]) L' ->
  exists L1 b' B, L' = L1 ++ (q, b') :: B /\ (length (tuples b) <= length (tuples b'))%nat.
Proof.
  revert L'. induction L0 as [|[q0 b0] L0 IH]; intros L' H; simpl in H.
  - inversion H as [? ? b' B Hpre|? ? ? ? ? _ Hg]; subst; [|inversion Hg].
    exists [], b', B. split; [done|]. by apply prefix_length.
  - inversion H as [? ? b' B Hpre E|? ? b' ? L2 _ Hg]; subst; [by destruct L0|].
    destruct (IH _ Hg) as (L1 & c & B & -> & Hl). by exists ((q0, b') :: L1), c, B.
Qed.

(** The pages a scan that ends on page [last] visits. *)
Fixpoint hops (last : PageId) (L : chain) : nat :=
  match L with
  | [] => 0
  | (pid, _) :: L => if pid =? last then 1 else S (hops last L)
  end.

Lemma hops_app last A L : last ∉ A.*1 -> hops last (A ++ L) = (length A + hops last L)%nat.
Proof.
  induction A as [|[q b] A IH]; intros HA; [done|]. csimpl in HA. cbn [app hops length].
  rewrite (proj2 (Z.eqb_neq _ _)) by set_solver. rewrite IH by set_solver. done.
Qed.

Lemma hops_length last L : (hops last L <= length L)%nat.
Proof. induction L as [|[q b] L IH]; cbn [hops length]; [lia|]. case_match; lia. Qed.

Lemma grows_hops L L' last : grows L L' -> last ∈ L.*1 -> hops last L' = hops last L.
Proof.
  induction 1 as [q b b' B _|q b b' L L' _ _ IH]; csimpl; intros Hin; cbn [hops].
  - apply list_elem_of_singleton in Hin as ->. by rewrite Z.eqb_refl.
  - destruct (Z.eqb_spec q last); [done|]. rewrite IH; [done|]. set_solver.
Qed.

Lemma grows_ids L L' last : grows L L' -> last ∈ L.*1 -> last ∈ L'.*1.
Proof. induction 1; csimpl; set_solver. Qed.

(** What a scan on the way visits does not change either when the chain grows. *)
Lemma scan_rows_mid L L' last slots :
  grows L L' -> last ∈ L.*1 -> (forall b, (last, b) ∈ L -> slots <= Z.of_nat (length (tuples b))) ->
  scan_rows last slots L' = scan_rows last slots L.
Proof.
  induction 1 as [q b b' B Hpre|q b b' L L' Ht _ IH]; csimpl; intros Hin Hs; cbn [scan_rows].
  - apply list_elem_of_singleton in Hin as ->. rewrite Z.eqb_refl, (page_rows_prefix q b b') by done.
    rewrite take_take, Nat.min_l; [done|]. specialize (Hs b ltac:(set_solver)). lia.
  - assert (E : page_rows (q, b') = page_rows (q, b)) by (unfold page_rows; simpl; by rewrite Ht). rewrite E.
    destruct (Z.eqb_spec q last); [done|]. f_equal. apply IH; [set_solver|]. intros c Hc. apply Hs. set_solver.
Qed.

Lemma grows_pages L L' q b : grows L L' -> (q, b) ∈ L ->
  exists b', (q, b') ∈ L' /\ (length (tuples b) <= length (tuples b'))%nat.
Proof.
  induction 1 as [q0 c c' B Hpre|q0 c c' L L' Ht _ IH]; intros Hin.
  - apply list_elem_of_singleton in Hin as [= -> ->]. exists c'. split; [constructor|by apply prefix_length].
  - apply list.elem_of_cons in Hin as [[= -> ->]|Hin]; [exists c'; split; [constructor|by rewrite Ht]|].
    destruct (IH Hin) as (b' & ? & ?). exists b'. split; [by constructor|done].
Qed.

Lemma grows_split A q b B L' : grows (A ++ (q, b) :: B) L' ->
  exists A' b' B', L' = A' ++ (q, b') :: B' /\ grows ((q, b) :: B) ((q, b') :: B').
Proof.
  revert L'. induction A as [|[q0 b0] A IH]; simpl; intros L' Hg.
  - inversion Hg; subst; eexists [], _, _; (split; [reflexivity|done]).
  - inversion Hg as [? ? ? ? ? E|? ? b1 ? L1 _ Hg1]; subst; [by destruct A|].
    destruct (IH _ Hg1) as (A' & b' & B' & -> & ?). by exists ((q0, b1) :: A'), b', B'.
Qed.

(** The slots of page [b] a scan may visit. *)
Definition page_limit (it : HeapIterator) (b : bytes) : Z :=
  if current_page_id it =? last_page_id it then last_page_slots it else pnum b.

Definition page_todo (it : HeapIterator) (b : bytes) : list (RecordId * row) :=
  drop (Z.to_nat (current_slot_id it))
    (take (Z.to_nat (page_limit it b)) (page_rows (current_page_id it, b))).

(** What the walk ends with when no row of the page is wanted. *)
Definition walk_end {R} (it : HeapIterator) (b : bytes) : page_walk (BE := BE) R * HeapIterator :=
  let done_ := (WalkDone R, with_finished (with_position it (current_page_id it) (page_limit it b))) in
  if current_page_id it =? last_page_id it then done_
  else match decode_u32 (pnext b) with
       | Some next => (WalkNextPage R next, with_position it next 0)
       | None => done_
       end.

Definition walk_result {R} (f : RecordId -> TupleMeta -> bytes -> option R) (it : HeapIterator)
    (b : bytes) (res : outcome Empty_set (page_walk (BE := BE) R * HeapIterator)) : Prop :=
  (exists pre x post r, page_todo it b = pre ++ x :: post /\ omap (row_fun f) pre = [] /\
     row_fun f x = Some r /\
     res = Ok (WalkYield R r, with_position it (current_page_id it)
                                (current_slot_id it + Z.of_nat (length pre) + 1))) \/
  (omap (row_fun f) (page_todo it b) = [] /\ res = Ok (walk_end it b)).

Lemma walk_page_end {R} fuel (f : RecordId -> TupleMeta -> bytes -> option R) it b :
  WF b -> current_slot_id it = page_limit it b -> 0 <= current_slot_id it ->
  walk_page (S fuel) b f it = Ok (walk_end (R := R) it b).
Proof.
  intros W Hs H0. unfold walk_end. rewrite <- Hs.
  assert (Hid : with_position it (current_page_id it) (current_slot_id it) = it) by by destruct it.
  rewrite Hid. cbn [walk_page]. unfold at_end, page_limit in *.
  destruct (Z.eqb_spec (current_page_id it) (last_page_id it)) as [E|E]; simpl andb.
  - rewrite (proj2 (Z.leb_le _ _)) by lia. done.
  - rewrite slot_none by (lia || by apply wf_len).
    rewrite next_page_id_ok by by apply wf_len. by destruct (decode_u32 _).
Qed.

Lemma page_rows_lookup pid b s : 0 <= s < pnum b ->
  page_rows (pid, b) !! Z.to_nat s =
    Some (mkRid pid s, (meta (pslot b s), pdata b (pslot b s))).
Proof.
  intros Hs. unfold page_rows. simpl. rewrite list_lookup_imap, tuples_lookup by lia. simpl.
  by rewrite Z2Nat.id by lia.
Qed.

Lemma page_todo_step it b :
  0 <= current_slot_id it < page_limit it b -> page_limit it b <= pnum b ->
  page_todo it b =
    (mkRid (current_page_id it) (current_slot_id it),
      (meta (pslot b (current_slot_id it)), pdata b (pslot b (current_slot_id it)))) ::
    page_todo (with_position it (current_page_id it) (current_slot_id it + 1)) b.
Proof.
  intros Hs Hl. unfold page_todo at 1. erewrite drop_S.
  2:{ rewrite lookup_take, decide_True by lia. apply page_rows_lookup. lia. }
  f_equal. unfold page_todo. simpl. by rewrite Z2Nat.inj_add, Nat.add_1_r by lia.
Qed.

Lemma omap_cons_None {A B} (g : A -> option B) x l : g x = None -> omap g (x :: l) = omap g l.
Proof. intros E. simpl. by rewrite E. Qed.

(** One page of a scan. *)
Lemma walk_page_ok {R} (f : RecordId -> TupleMeta -> bytes -> option R) b (W : WF b) : forall fuel it,
  0 <= current_slot_id it <= page_limit it b -> page_limit it b <= pnum b ->
  page_limit it b - current_slot_id it < Z.of_nat fuel ->
  walk_result f it b (walk_page fuel b f it).
Proof.
  induction fuel as [|fuel IH]; intros it Hs Hl Hf; [lia|].
  destruct (decide (current_slot_id it = page_limit it b)) as [He|Hne].
  { right. rewrite walk_page_end by (done || lia). split; [|done].
    unfold page_todo. rewrite He, drop_ge; [done|]. rewrite length_take. lia. }
  set (s := current_slot_id it) in *. set (pid := current_page_id it) in *.
  destruct (wf_num b W) as (? & ? & ?). pose proof (wf_len b W).
  assert (Hat : at_end it = false).
  { unfold at_end, page_limit in *. destruct (current_page_id it =? last_page_id it); [|done].
    simpl. apply Z.leb_gt. lia. }
  assert (Hx : page_rows (pid, b) !! Z.to_nat s =
    Some (mkRid pid s, (meta (pslot b s), pdata b (pslot b s)))) by (apply page_rows_lookup; lia).
  assert (Hb : TablePage.tuple_bytes b (pslot b s) = Ok (pdata b (pslot b s))).
  { apply (slot_bytes_ok b (mkRid pid s) (meta (pslot b s))); [done|simpl; lia|].
    simpl. apply tuples_lookup. lia. }
  cbn [walk_page]. rewrite Hat. fold s pid. rewrite slot_ok, Hb by lia.
  set (it1 := with_position it pid (s + 1)).
  assert (Hstep : page_todo it b = _ :: page_todo it1 b) by (apply page_todo_step; fold s; lia).
  fold s pid in Hstep.
  destruct (f (mkRid pid s) (meta (pslot b s)) (pdata b (pslot b s))) as [r|] eqn:Hfr.
  { left. exists [], (mkRid pid s, (meta (pslot b s), pdata b (pslot b s))), (page_todo it1 b), r.
    split_and!; [done|done|done|]. simpl. by rewrite Z.add_0_r. }
  assert (Hl1 : page_limit it1 b = page_limit it b) by done.
  destruct (IH it1) as [(pre & x & post & r & E1 & E2 & E3 & ->)|[E1 ->]]; rewrite ?Hl1; simpl; try lia.
  - left. eexists (_ :: pre), x, post, r. rewrite Hstep, E1. split_and!; [done| |done|].
    + rewrite omap_cons_None by exact Hfr. done.
    + unfold it1. simpl. fold s pid. do 2 f_equal. unfold with_position. simpl. f_equal. lia.
  - right. split; [|by unfold walk_end, it1; simpl]. rewrite Hstep.
    rewrite omap_cons_None by exact Hfr. done.
Qed.

(** A scan is at slot [current_slot_id it] of the first page of [B] and will visit [rest]. *)
Record scan_at (it : HeapIterator) (b : bytes) (B : chain) (rest : list (RecordId * row)) : Prop := {
  sa_finished : finished it = false;
  sa_slot : 0 <= current_slot_id it <= page_limit it b;
  sa_limit : page_limit it b <= pnum b;
  sa_last : last_page_id it ∈ current_page_id it :: B.*1;
  sa_slots : forall bl, (last_page_id it, bl) ∈ B -> 0 <= last_page_slots it <= pnum bl;
  sa_rest : rest = drop (Z.to_nat (current_slot_id it))
    (scan_rows (last_page_id it) (last_page_slots it) ((current_page_id it, b) :: B));
}.

Definition iter_at (it : HeapIterator) (L : chain) (rest : list (RecordId * row)) : Prop :=
  (finished it = true /\ rest = []) \/
  exists A b B, L = A ++ (current_page_id it, b) :: B /\ scan_at it b B rest.

Lemma length_page_rows pid b : length (page_rows (pid, b)) = Z.to_nat (pnum b).
Proof. unfold page_rows. simpl. by rewrite length_imap, length_tuples. Qed.

Lemma length_page_todo it b : page_limit it b <= pnum b ->
  length (page_todo it b) = (Z.to_nat (page_limit it b) - Z.to_nat (current_slot_id it))%nat.
Proof. intros. unfold page_todo. rewrite length_drop, length_take, length_page_rows. lia. Qed.

(** What a scan will visit: the rest of its page, and then the pages after it. *)
Lemma scan_at_split it b B rest : scan_at it b B rest ->
  rest = page_todo it b ++
    if current_page_id it =? last_page_id it then []
    else scan_rows (last_page_id it) (last_page_slots it) B.
Proof.
  intros [_ Hs Hl _ _ ->]. unfold page_todo, page_limit in *. cbn [scan_rows].
  destruct (current_page_id it =? last_page_id it); [by rewrite app_nil_r|].
  rewrite take_ge by (rewrite length_page_rows; lia).
  rewrite drop_app_le by (rewrite length_page_rows; lia). done.
Qed.

Lemma scan_at_yield it b B rest pre x post :
  scan_at it b B rest -> page_todo it b = pre ++ x :: post ->
  let it' := with_position it (current_page_id it) (current_slot_id it + Z.of_nat (length pre) + 1) in
  exists post', rest = pre ++ x :: post' /\ scan_at it' b B post'.
Proof.
  intros HS Ht it'. pose proof (scan_at_split _ _ _ _ HS) as Hrest.
  rewrite Ht in Hrest. rewrite <- app_assoc in Hrest. eexists. split; [exact Hrest|].
  destruct HS as [Hfin Hs Hl Hla Hsl Hr]. pose proof (length_page_todo it b Hl) as Hlen.
  rewrite Ht, length_app in Hlen. simpl in Hlen.
  split; try done.
  - change (page_limit it' b) with (page_limit it b). simpl. lia.
  - rewrite Hrest in Hr. simpl.
    replace (Z.to_nat (current_slot_id it + Z.of_nat (length pre) + 1))
      with (Z.to_nat (current_slot_id it) + S (length pre))%nat by lia.
    rewrite <- drop_drop. cbn [scan_rows] in Hr. rewrite <- Hr.
    rewrite drop_app_ge, Nat.sub_succ_l, Nat.sub_diag by lia. done.
Qed.

Lemma scan_at_next it b B rest : scan_at it b B rest -> current_page_id it <> last_page_id it ->
  (forall pid c, (pid, c) ∈ B -> WF c) ->
  exists next bn B', B = (next, bn) :: B' /\
    scan_at (with_position it next 0) bn B'
      (scan_rows (last_page_id it) (last_page_slots it) B).
Proof.
  intros [Hfin Hs Hl Hla Hsl Hr] Hne HW. apply list.elem_of_cons in Hla as [|Hla]; [congruence|].
  destruct B as [|[next bn] B']; [by apply elem_of_nil in Hla|].
  exists next, bn, B'. split; [done|].
  assert (Hbn : 0 <= pnum bn) by (apply (wf_num bn), (HW next), list_elem_of_here).
  assert (Hlim : 0 <= page_limit (with_position it next 0) bn <= pnum bn).
  { unfold page_limit. simpl. destruct (Z.eqb_spec next (last_page_id it)) as [->|]; [|lia].
    apply Hsl, list_elem_of_here. }
  split; simpl; try done; try lia. intros bl Hbl. apply Hsl. by apply list_elem_of_further.
Qed.

Lemma NoDup_fst_inj {A B} (l : list (A * B)) x y z :
  NoDup l.*1 -> (x, y) ∈ l -> (x, z) ∈ l -> y = z.
Proof.
  intros Hnd [i Hi]%list_elem_of_lookup_1 [j Hj]%list_elem_of_lookup_1.
  assert (i = j) as ->.
  { apply (NoDup_lookup l.*1 i j x); [done|..]; by rewrite list_lookup_fmap, ?Hi, ?Hj. }
  congruence.
Qed.

(** A scan ends on the page that was the tail. *)
Lemma iter_last h p L : heap_is h p L -> last_page_id (iter h) ∈ L.*1.
Proof. intros [_ (L0 & b & -> & _) _]. rewrite fmap_app. set_solver. Qed.

(** A scan that starts on a heap is at its first row, also after the heap has grown. *)
Lemma iter_at_start h p L p' L' :
  heap_is h p L -> chain_is p' (first_page_id h) L' -> grows L L' -> iter_at (iter h) L' (rows L).
Proof.
  intros [HC (L0 & b & HL & Hn) _] HC' Hg. right. destruct HC' as [Hf Hnd Hp].
  destruct L' as [|[pid c] B]; [done|]. simpl in Hf. injection Hf as ->.
  set (q := t_page_id (tail h)) in *.
  assert (Wb : WF b) by (eapply (ch_page _ _ _ HC (length L0)); by rewrite HL, list_lookup_middle).
  assert (Hnb : t_num_tuples (tail h) = Z.of_nat (length (tuples b))).
  { rewrite length_tuples. destruct (wf_num b Wb). lia. }
  destruct (grows_last_page L0 q b ((first_page_id h, c) :: B)) as (L1 & b' & B' & HL' & Hlen).
  { by rewrite <- HL. }
  assert (Hle : forall bl, (q, bl) ∈ (first_page_id h, c) :: B -> 0 <= t_num_tuples (tail h) <= pnum bl).
  { intros bl Hin. assert (bl = b') as ->.
    { apply (NoDup_fst_inj _ q bl b' Hnd Hin). rewrite HL'. apply elem_of_app. right. constructor. }
    apply list_elem_of_lookup_1 in Hin as [k Hk]. destruct (Hp k q b' Hk) as (_ & W' & _).
    destruct (wf_num b' W') as [? _]. rewrite (length_tuples b') in Hlen. lia. }
  assert (Wc : WF c) by by apply (Hp 0%nat (first_page_id h)).
  destruct (wf_num c Wc) as [? _].
  assert (Hlim : 0 <= page_limit (iter h) c <= pnum c).
  { unfold page_limit, iter. simpl. fold q. destruct (Z.eqb_spec (first_page_id h) q) as [E|]; [|lia].
    apply Hle. rewrite E. constructor. }
  exists [], c, B. split; [done|]. split; simpl; try done; try lia.
  - fold q. change (q ∈ ((first_page_id h, c) :: B).*1). rewrite HL', fmap_app. set_solver.
  - intros bl Hin. apply Hle. by constructor.
  - symmetry. rewrite drop_0. change (scan_rows q (t_num_tuples (tail h)) ((first_page_id h, c) :: B) = rows L).
    apply scan_rows_grows; [done|apply HC|]. by exists L0, b.
Qed.

(** A scan on the way is not moved by what is appended behind it. *)
Lemma iter_at_grows p first L p' first' L' it rest :
  chain_is p first L -> chain_is p' first' L' -> grows L L' -> iter_at it L rest -> iter_at it L' rest.
Proof.
  intros HC HC' Hg [?|(A & b & B & HL & HS)]; [by left|right]. rewrite HL in Hg.
  destruct (grows_split _ _ _ _ _ Hg) as (A' & b' & B' & HL' & Hg'). exists A', b', B'. split; [done|].
  assert (HW : forall q c, (q, c) ∈ (current_page_id it, b) :: B -> WF c).
  { intros q c Hq. eapply (chain_lookup p first L); [done|]. rewrite HL. apply elem_of_app. by right. }
  assert (HW' : forall q c, (q, c) ∈ (current_page_id it, b') :: B' -> WF c).
  { intros q c Hq. eapply (chain_lookup p' first' L'); [done|]. rewrite HL'. apply elem_of_app. by right. }
  assert (Hnd' : NoDup (((current_page_id it, b') :: B').*1)).
  { pose proof (ch_nodup _ _ _ HC') as Hnd. rewrite HL', fmap_app in Hnd. by apply list.NoDup_app in Hnd as (_ & _ & ?). }
  destruct HS as [Hfin Hs Hl Hla Hsl Hr].
  pose proof Hla as Hla'. change (current_page_id it :: B.*1) with (((current_page_id it, b) :: B).*1) in Hla'.
  assert (Hslots : forall c, (last_page_id it, c) ∈ (current_page_id it, b) :: B -> last_page_slots it <= pnum c).
  { intros c [[= E ->]|Hc]%list.elem_of_cons; [|by apply Hsl].
    unfold page_limit in Hl. by rewrite (proj2 (Z.eqb_eq _ _)) in Hl by done. }
  assert (Hnum : forall q c, (q, c) ∈ (current_page_id it, b) :: B -> 0 <= pnum c /\ Z.of_nat (length (tuples c)) = pnum c).
  { intros q c Hq%HW. destruct (wf_num c Hq). rewrite length_tuples. lia. }
  assert (Hcl' : exists cl, (last_page_id it, cl) ∈ (current_page_id it, b) :: B).
  { apply list_elem_of_fmap in Hla' as ([q cl] & E & Hcl). simpl in E. subst q. eauto. }
  assert (H0 : 0 <= last_page_slots it).
  { destruct Hcl' as [cl [[= E ->]|Hc]%list.elem_of_cons]; [|by apply (Hsl cl)].
    unfold page_limit in Hs. rewrite (proj2 (Z.eqb_eq _ _)) in Hs by done. lia. }
  assert (Hslots' : forall c, (last_page_id it, c) ∈ (current_page_id it, b') :: B' -> last_page_slots it <= pnum c).
  { intros c Hc. destruct Hcl' as [cl Hcl].
    destruct (grows_pages _ _ _ _ Hg' Hcl) as (c2 & Hc2 & Hle).
    rewrite (NoDup_fst_inj _ _ c c2 Hnd' Hc Hc2). destruct (wf_num c2 (HW' _ _ Hc2)).
    rewrite (length_tuples c2) in Hle. specialize (Hslots cl Hcl). destruct (Hnum _ _ Hcl). lia. }
  assert (Hlim : page_limit it b <= page_limit it b' <= pnum b').
  { unfold page_limit in *. destruct (Z.eqb_spec (current_page_id it) (last_page_id it)) as [E|E].
    - split; [lia|]. apply Hslots'. rewrite E. constructor.
    - inversion Hg' as [? ? ? ? ? E1|? ? ? ? ? Ht Hg2]; subst.
      + apply list_elem_of_singleton in Hla. congruence.
      + pose proof (length_tuples b) as E1. pose proof (length_tuples b') as E2. rewrite Ht in E1.
        destruct (wf_num b (HW _ b ltac:(constructor))), (wf_num b' (HW' _ b' ltac:(constructor))). lia. }
  split; [done|lia|lia|exact (grows_ids _ _ _ Hg' Hla)| |].
  - intros bl Hbl. split; [done|]. apply Hslots'. by constructor.
  - rewrite Hr. f_equal. symmetry. apply scan_rows_mid; [done|done|]. intros c Hc.
    destruct (Hnum _ _ Hc) as [_ ->]. by apply Hslots.
Qed.

(** What one call of the iterator gives a scan that has [rest] before it. *)
Definition next_result {R} (f : RecordId -> TupleMeta -> bytes -> option R) (last : PageId) (L : chain)
    (rest : list (RecordId * row)) (p : P)
    (res : outcome Empty_set (option (outcome (TableHeapError BE) R)) * (HeapIterator * P)) : Prop :=
  let '(r, (it', p')) := res in
  pool_pages p' = pool_pages p /\
  match r with
  | Ok None => omap (row_fun f) rest = [] /\ finished it' = true
  | Ok (Some (Ok r)) => exists pre x post, rest = pre ++ x :: post /\
      omap (row_fun f) pre = [] /\ row_fun f x = Some r /\ iter_at it' L post /\ last_page_id it' = last
  | Ok (Some (Err e)) => (exists e', e = HBpm e') /\ finished it' = true
  | _ => False
  end.

(** Skipping rows that are not wanted. *)
Lemma next_result_skip {R} (f : RecordId -> TupleMeta -> bytes -> option R) last L skip rest p p1 res :
  omap (row_fun f) skip = [] -> pool_pages p1 = pool_pages p ->
  next_result f last L rest p1 res -> next_result f last L (skip ++ rest) p res.
Proof.
  intros Hs E. unfold next_result. destruct res as [[[[r|e|]|]|e|] [it' p']]; intros [E' H];
    (split; [congruence|]); try done.
  - destruct H as (pre & x & post & -> & Hp & Hx & Hit). exists (skip ++ pre), x, post.
    rewrite <- app_assoc, omap_app, Hs, Hp. done.
  - rewrite omap_app, Hs. done.
Qed.

Lemma next_with_at {R} (f : RecordId -> TupleMeta -> bytes -> option R) first L slots :
  PAGE_SIZE <= Z.of_nat slots -> forall pages A b B it p rest,
  chain_is p first L -> L = A ++ (current_page_id it, b) :: B -> scan_at it b B rest ->
  (hops (last_page_id it) ((current_page_id it, b) :: B) <= pages)%nat ->
  next_result f (last_page_id it) L rest p (next_with pages slots f (it, p)).
Proof.
  intros Hslots. induction pages as [|pages IH]; intros A b B it p rest HC HL HS Hp; [cbn [hops] in Hp; case_match; lia|].
  destruct (ch_page _ _ _ HC (length A) (current_page_id it) b) as (Hb & W & Hn).
  { by rewrite HL, list_lookup_middle. }
  pose proof HS as [Hfin Hs Hl _ _ _]. destruct (wf_num b W) as (? & ? & ?).
  pose proof (scan_at_split _ _ _ _ HS) as Hrest.
  cbn [next_with]. rewrite Hfin. simpl orb. destruct (at_end it) eqn:Hat.
  { apply andb_true_iff in Hat as [Hc%Z.eqb_eq Hge%Z.leb_le]. simpl. split_and!; try done.
    rewrite Hrest, Hc, Z.eqb_refl, app_nil_r. unfold page_todo.
    rewrite drop_ge; [done|]. unfold page_limit. rewrite Hc, Z.eqb_refl, length_take. lia. }
  pose proof (fetch_law (current_page_id it) p) as Hf.
  destruct (fetch (current_page_id it) p) as [[b0|e|] p1]; [| |done].
  2:{ simpl. eauto. }
  destruct Hf as [Hb0 E1]. assert (b0 = b) as -> by congruence. rewrite new_wf by done.
  assert (Hfuel : page_limit it b - current_slot_id it < Z.of_nat slots) by (unfold PAGE_SIZE in *; lia).
  destruct (walk_page_ok f b W slots it Hs Hl Hfuel)
    as [(pre & x & post & r & Ht & Hpre & Hx & ->)|[Htodo ->]].
  { destruct (scan_at_yield _ _ _ _ _ _ _ HS Ht) as (post' & -> & HS'). split; [done|].
    exists pre, x, post'. split_and!; try done. right. exists A, b, B. done. }
  unfold walk_end. destruct (Z.eqb_spec (current_page_id it) (last_page_id it)) as [Hc|Hc].
  { split; [done|]. by rewrite Hrest, app_nil_r. }
  destruct (scan_at_next _ _ _ _ HS Hc) as (next & bn & B' & -> & HS').
  { intros q c Hq. eapply (chain_lookup p first L); [done|]. rewrite HL.
    apply elem_of_app. right. by apply list_elem_of_further. }
  assert (Hnx : decode_u32 (pnext b) = Some next).
  { rewrite Hn, HL, lookup_app_r, Nat.sub_succ_l, Nat.sub_diag by lia. done. }
  rewrite Hnx, Hrest. eapply next_result_skip; [exact Htodo|exact E1|].
  change (last_page_id it) with (last_page_id (with_position it next 0)) at 1.
  eapply (IH (A ++ [(current_page_id it, b)]) bn B'); [by eapply chain_is_pages| |done|].
  - by rewrite <- app_assoc.
  - cbn [hops] in Hp. rewrite (proj2 (Z.eqb_neq _ _)) in Hp by done. simpl in *. lia.
Qed.

(** Every call of [next_with] yields the next wanted row, the end, or a failure of the pool. *)
Lemma next_with_ok {R} (f : RecordId -> TupleMeta -> bytes -> option R) first L it p rest pages slots :
  chain_is p first L -> iter_at it L rest -> last_page_id it ∈ L.*1 ->
  PAGE_SIZE <= Z.of_nat slots -> (hops (last_page_id it) L <= pages)%nat ->
  next_result f (last_page_id it) L rest p (next_with pages slots f (it, p)).
Proof.
  intros HC [[Hfin ->]|(A & b & B & HL & HS)] Hla Hsl Hp.
  - destruct pages as [|pages]; [|cbn [next_with]; by rewrite Hfin].
    destruct L as [|[q c] L]; [by destruct HC|]. cbn [hops] in Hp. case_match; lia.
  - eapply next_with_at; [done|done|exact HL|done|]. rewrite HL, hops_app in Hp; [lia|].
    intros HA. pose proof (sa_last _ _ _ _ HS) as HB. pose proof (ch_nodup _ _ _ HC) as Hnd.
    rewrite HL, fmap_app in Hnd. apply list.NoDup_app in Hnd as (_ & Hd & _). by apply (Hd _ HA).
Qed.

(** The insertions of a program that appends to a table while scanning it; it goes on after
    an insertion that failed. *)
Fixpoint insert_all (ts : list row) (hp : Heap * P) : Heap * P :=
  match ts with
  | [] => hp
  | (m, d) :: ts => insert_all ts (insert_with_meta m d hp).2
  end.

Definition rows_valid (ts : list row) : Prop := Forall (fun x => meta_valid x.1 /\ Forall is_byte x.2) ts.

Lemma insert_all_ok ts : forall h p L, rows_valid ts -> heap_is h p L ->
  exists L', grows L L' /\ heap_is (insert_all ts (h, p)).1 (insert_all ts (h, p)).2 L'.
Proof.
  induction ts as [|[m d] ts IH]; intros h p L Hv HH.
  { exists L. split; [|done]. apply grows_refl. destruct HH as [[Hf _ _] _ _]. by intros ->. }
  apply Forall_cons_1 in Hv as [[Hm Hd] Hv]. cbn [insert_all].
  pose proof (heap_insert_ok h p L m d HH Hm Hd) as Hi.
  destruct (insert_with_meta m d (h, p)) as [[rid|e|] [h1 p1]]; [| |done]; cbn [snd]; [|by apply IH].
  destruct Hi as (L1 & HH1 & _ & Hg & _). destruct (IH h1 p1 L1 Hv HH1) as (L' & ? & ?).
  exists L'. split; [by eapply grows_trans|done].
Qed.

(** All rows an iterator yields, before the end of the scan or before its first error, to a
    program that appends the next rows of [batches] before each call of it. *)
Fixpoint collect {R} (fuel pages slots : nat) (f : RecordId -> TupleMeta -> bytes -> option R)
    (batches : list (list row)) (it : HeapIterator) (hp : Heap * P)
    : option (list R * option (TableHeapError BE)) :=
  match fuel with
  | O => None
  | S fuel =>
      let hp := insert_all (default [] (head batches)) hp in
      match next_with pages slots f (it, hp.2) with
      | (Ok None, _) => Some ([], None)
      | (Ok (Some (Ok r)), (it, p)) =>
          prod_map (cons r) id <$> collect fuel pages slots f (List.tl batches) it (hp.1, p)
      | (Ok (Some (Err e)), _) => Some ([], Some e)
      | _ => None
      end
  end.

Lemma batches_valid batches : Forall rows_valid batches ->
  rows_valid (default [] (head batches)) /\ Forall rows_valid (List.tl batches).
Proof. intros [|ts bs ? ?]; (split; [|done]); [apply Forall_nil_2|done]. Qed.

Lemma collect_ok {R} (f : RecordId -> TupleMeta -> bytes -> option R) pages slots :
  PAGE_SIZE <= Z.of_nat slots -> forall fuel batches it h p L rest,
  Forall rows_valid batches -> heap_is h p L -> iter_at it L rest ->
  last_page_id it ∈ L.*1 -> (hops (last_page_id it) L <= pages)%nat -> (length rest < fuel)%nat ->
  collect fuel pages slots f batches it (h, p) = Some (omap (row_fun f) rest, None) \/
  exists out e, out `prefix_of` omap (row_fun f) rest /\
    collect fuel pages slots f batches it (h, p) = Some (out, Some (HBpm e)).
Proof.
  intros Hsl. induction fuel as [|fuel IH]; intros batches it h p L rest Hbs HH Hit Hla Hp Hlen; [lia|].
  destruct (batches_valid batches Hbs) as [Hts Hbs']. cbn [collect].
  destruct (insert_all_ok _ h p L Hts HH) as (L1 & Hg & HH1). set (hp := insert_all _ (h, p)) in *.
  assert (Hit1 : iter_at it L1 rest) by (eapply iter_at_grows; [apply HH|apply HH1|done|done]).
  rewrite <- (grows_hops L L1) in Hp by done. apply (grows_ids L L1) in Hla; [|done].
  pose proof (next_with_ok f _ L1 it hp.2 rest pages slots (hi_chain _ _ _ HH1) Hit1 Hla Hsl Hp) as Hr.
  destruct (next_with pages slots f (it, hp.2)) as [[[[r|e|]|]|e|] [it' p']]; destruct Hr as [E Hr]; try done.
  - destruct Hr as (pre & x & post & -> & Hpre & Hx & Hit' & El).
    assert (Ho : omap (row_fun f) (pre ++ x :: post) = r :: omap (row_fun f) post).
    { rewrite omap_app, Hpre. simpl. by rewrite Hx. }
    rewrite Ho. rewrite length_app in Hlen. simpl in Hlen. rewrite <- El in Hla, Hp.
    destruct (IH (List.tl batches) it' hp.1 p' L1 post) as [->|(out & e & Hout & ->)];
      [done|by eapply heap_is_pages|done|done|done|lia|by left|].
    right. exists (r :: out), e. split; [by apply prefix_cons|done].
  - right. destruct Hr as [[e' ->] _]. exists [], e'. split; [apply prefix_nil|done].
  - left. by destruct Hr as [-> _].
Qed.

(** ** Freeing *)

Definition without (ids : list PageId) (pages : gmap PageId bytes) : gmap PageId bytes :=
  foldl (fun m pid => base.delete pid m) pages ids.

Lemma chain_is_delete p p' first L pid :
  chain_is p first L -> pid ∉ L.*1 -> pool_pages p' = base.delete pid (pool_pages p) ->
  chain_is p' first L.
Proof.
  intros [Hf Hnd Hp] Hni E. split; [done..|]. intros k q b Hk.
  destruct (Hp k q b Hk) as (Hq & ? & ?). split_and!; try done. rewrite E, lookup_delete_ne; [done|].
  intros <-. apply Hni. apply list_elem_of_fmap. exists (pid, b). split; [done|].
  by eapply list_elem_of_lookup_2.
Qed.

(** Freeing the first page of a chain. *)
Lemma free_first_page_ok h p pid b L :
  chain_is p (first_page_id h) ((pid, b) :: L) ->
  match free_first_page (h, p) with
  | (Ok next, (h', p')) => h' = h /\ next = fst <$> head L /\
      pool_pages p' = base.delete pid (pool_pages p)
  | (Err e, (h', p')) => h' = h /\ pool_pages p' = pool_pages p /\ exists e', e = HBpm e'
  | (Panic, _) => False
  end.
Proof.
  intros HC. destruct (chain_is_head _ _ _ _ _ HC) as (Heq & Hb & W & Hn & Hni).
  unfold free_first_page. cbn [fst]. rewrite <- Heq. pose proof (fetch_law pid p) as Hf.
  destruct (fetch pid p) as [[b0|e|] p1] eqn:Hfe; [| |done].
  2:{ erewrite bind_Err by (unfold on_snd; cbn; by rewrite Hfe). split_and!; eauto. }
  destruct Hf as [Hb0 E1]. assert (b0 = b) as -> by congruence.
  erewrite bind_Ok by (unfold on_snd; cbn; by rewrite Hfe).
  rewrite new_wf, next_page_id_ok by (done || by apply wf_len). cbn [map_err].
  erewrite bind_liftc by done. cbv beta. erewrite bind_liftc by done. cbv beta.
  pose proof (delete_page_law pid p1) as Hd.
  destruct (delete_page pid p1) as [[[]|e|] p2] eqn:Hde; [| |done].
  2:{ erewrite bind_Err by (unfold on_snd; cbn; by rewrite Hde).
      split_and!; [done|congruence|eauto]. }
  erewrite bind_Ok by (unfold on_snd; cbn; by rewrite Hde). cbn.
  split_and!; [done|done|]. by rewrite Hd, E1.
Qed.

Lemma free_ok L : forall fuel h p,
  chain_is p (first_page_id h) L -> (length L <= fuel)%nat ->
  match free fuel (h, p) with
  | (Ok _, (_, p')) => pool_pages p' = without L.*1 (pool_pages p)
  | (Err e, (h', p')) => (exists e', e = HBpm e') /\ exists L1 L2, L = L1 ++ L2 /\
      chain_is p' (first_page_id h') L2 /\ tail h' = tail h /\ update_reserve h' = update_reserve h /\
      pool_pages p' = without L1.*1 (pool_pages p)
  | (Panic, _) => False
  end.
Proof.
  induction L as [|[pid b] L IH]; intros fuel h p HC Hfuel; [by destruct HC|].
  destruct fuel as [|fuel]; [simpl in Hfuel; lia|]. cbn [free].
  pose proof (free_first_page_ok h p pid b L HC) as Hr.
  destruct (free_first_page (h, p)) as [[next|e|] [h1 p1]] eqn:Hfe; [| |done].
  2:{ erewrite bind_Err by exact Hfe. destruct Hr as (-> & E & He). split; [done|].
      exists [], ((pid, b) :: L). split_and!; [done|by eapply chain_is_pages|done..]. }
  destruct Hr as (-> & -> & E). erewrite bind_Ok by exact Hfe.
  destruct (chain_is_head _ _ _ _ _ HC) as (_ & _ & _ & _ & Hni).
  destruct L as [|[n bn] L]; [done|].
  destruct (chain_is_tail _ _ _ _ _ HC) as (n' & _ & HC1); [done|].
  assert (n' = n) as -> by by destruct (chain_is_head _ _ _ _ _ HC1).
  cbn [fmap option_fmap option_map head fst]. cbv match. erewrite bind_Ok by done. cbn [fst snd].
  set (h1 := mkHeap n _ _).
  specialize (IH fuel h1 p1 ltac:(by eapply chain_is_delete) ltac:(simpl in *; lia)).
  destruct (free fuel (h1, p1)) as [[u|e|] [h2 p2]]; [| |done].
  - rewrite IH, E. done.
  - destruct IH as (He & L1 & L2 & HL & HC2 & Ht & Hres & E2). split; [done|].
    exists ((pid, b) :: L1), L2. split_and!; [by rewrite HL|done..|]. by rewrite E2, E.
Qed.

End scans.
