(* ===== verification/TableHeapTheorems.v ===== *)
(** * What a table heap promises

    A table heap is a slot store ([heap_slot_store_laws]), which is what the transaction layer
    is proved against. On its own: every operation does to the rows what it says, opening a
    chain gives back the heap that was left, a scan yields the rows the heap had when it began,
    and freeing deletes exactly the pages of the chain. *)

From Stdlib Require Import ZArith Lia.
From stdpp Require Import base list gmap numbers option.
From S2P Require Import Prelude Bytes Ids Buf TablePage TablePageProofs TablePageUpdate TablePageTheorems.
From S2P Require Import TableHeap SlotStore TableHeapProofs TableHeapScan.
Import TableHeap.

Local Open Scope Z_scope.

Section instances.
Context {P BE : Type} `{Pool : PagePool P BE} `{Laws : !PagePoolLaws P BE}.

#[export] Instance heap_slot_store : SlotStore (Heap * P) BE := {
  ss_read rid := on_snd id (read_slot rid);
  ss_write_then _ _ _ _ := heap_write_then;
  ss_insert := insert_with_meta;
}.

Lemma heap_insert_law hp C m d : heap_store_is hp C -> meta_valid m -> Forall is_byte d ->
  match insert_with_meta m d hp with
  | (Ok rid, hp') => C !! rid = None /\ heap_store_is hp' (<[rid := (m, d)]> C)
  | (Err _, hp') => heap_store_is hp' C
  | (Panic, _) => False
  end.
Proof.
  intros (L & HH & ->) Hm Hd. destruct hp as [h p]. pose proof (heap_insert_ok h p L m d HH Hm Hd) as Hr.
  destruct (insert_with_meta m d (h, p)) as [[rid|e|] [h' p']]; [|by exists L|done].
  destruct Hr as (L' & HH' & Hrows & _).
  assert (Hnd : NoDup (rows L').*1) by (apply rows_nodup, HH').
  rewrite Hrows, fmap_app in Hnd. apply list.NoDup_app in Hnd as (_ & Hni & _).
  assert (Hnone : row_map L !! rid = None).
  { apply not_elem_of_list_to_map_1. intros Hin. apply (Hni rid Hin). simpl. set_solver. }
  split; [done|]. exists L'. split; [done|]. unfold row_map. rewrite Hrows, list_to_map_snoc; [done|].
  by apply not_elem_of_list_to_map_2.
Qed.

(** The pool and the first page determine the chain. *)
Lemma chain_is_fun p L : forall first L', chain_is p first L -> chain_is p first L' -> L = L'.
Proof.
  induction L as [|[q b] L IH]; intros first L' HC HC'; [by destruct HC|].
  destruct L' as [|[q' b'] L']; [by destruct HC'|].
  destruct (chain_is_head _ _ _ _ _ HC) as (-> & Hb & _ & Hn & _).
  destruct (chain_is_head _ _ _ _ _ HC') as (-> & Hb' & _ & Hn' & _).
  assert (b' = b) as -> by congruence. f_equal. rewrite Hn in Hn'.
  destruct L as [|x L]; [by destruct L'|]. destruct L' as [|x' L']; [done|].
  destruct (chain_is_tail _ _ _ _ _ HC) as (n & En & HT); [done|].
  destruct (chain_is_tail _ _ _ _ _ HC') as (n' & En' & HT'); [done|].
  apply (IH n); [done|]. assert (n = n') as -> by congruence. done.
Qed.

Lemma heap_store_is_fun hp C C' : heap_store_is hp C -> heap_store_is hp C' -> C = C'.
Proof.
  intros (L & [HC _ _] & ->) (L' & [HC' _ _] & ->). by rewrite (chain_is_fun _ _ _ _ HC HC').
Qed.

#[export] Instance heap_slot_store_laws : SlotStoreLaws (Heap * P) BE := {
  store_is := heap_store_is;
  store_is_fun := heap_store_is_fun;
  ss_read_law := heap_read_law;
  ss_write_law := heap_write_law;
  ss_insert_law := heap_insert_law;
}.

End instances.

(** ** Operations on rows *)

Inductive heap_op : Type :=
| HeapInsert (m : TupleMeta) (data : bytes)
| HeapMeta (rid : RecordId) (m : TupleMeta)
| HeapUpdate (rid : RecordId) (m : TupleMeta) (data : bytes)
| HeapDelete (rid : RecordId)
| HeapGet (rid : RecordId).

Inductive heap_out : Type :=
| OutRid (rid : RecordId)
| OutUnit
| OutRow (rid : RecordId) (data : bytes).

Section ops.
Context {P BE : Type} `{Pool : PagePool P BE} `{Laws : !PagePoolLaws P BE}.

Definition heap_step (op : heap_op) : M (Heap * P) (TableHeapError BE) heap_out :=
  match op with
  | HeapInsert m data => rid ← insert_with_meta m data; mret (OutRid rid)
  | HeapMeta rid m => _ ← on_snd id (update_meta rid m); mret OutUnit
  | HeapUpdate rid m data => _ ← on_snd id (update_in_place rid m data); mret OutUnit
  | HeapDelete rid => _ ← on_snd id (delete rid); mret OutUnit
  | HeapGet rid => '(rid, data) ← on_snd id (get rid); mret (OutRow rid data)
  end.

(** A record id names a slot of a table page, of this heap or of another one, that may not
    exist, or a page the pool does not have. *)
Definition rid_ok (p : P) (rid : RecordId) : Prop :=
  0 <= slot_id rid /\ forall b, pool_pages p !! page_id rid = Some b -> WF b.

Definition heap_op_valid (p : P) (op : heap_op) : Prop :=
  match op with
  | HeapInsert m data => meta_valid m /\ Forall is_byte data
  | HeapMeta rid m => rid_ok p rid /\ meta_valid m
  | HeapUpdate rid m data => rid_ok p rid /\ meta_valid m /\ Forall is_byte data
  | HeapDelete rid | HeapGet rid => rid_ok p rid
  end.

(** Page [pid] belongs to the heap. *)
Definition on_chain (hp : Heap * P) (pid : PageId) : Prop := exists L, heap_is hp.1 hp.2 L /\ pid ∈ L.*1.

(** What a successful operation says of the rows before, its result and the rows after. Only
    on a page of another heap can a record id succeed that names no row of this one. *)
Definition heap_effect (hp : Heap * P) (op : heap_op) (C : gmap RecordId row) (out : heap_out)
    (C' : gmap RecordId row) : Prop :=
  match op, out with
  | HeapInsert m data, OutRid rid => C !! rid = None /\ C' = <[rid := (m, data)]> C
  | HeapMeta rid m, OutUnit =>
      match C !! rid with
      | Some (_, d) => C' = <[rid := (m, d)]> C
      | None => C' = C /\ ~ on_chain hp (page_id rid)
      end
  | HeapUpdate rid m data, OutUnit =>
      match C !! rid with
      | Some _ => C' = <[rid := (m, data)]> C
      | None => C' = C /\ ~ on_chain hp (page_id rid)
      end
  | HeapDelete rid, OutUnit =>
      match C !! rid with
      | Some (m, d) => is_deleted m = false /\ C' = <[rid := (mkMeta (ts m) true, d)]> C
      | None => C' = C /\ ~ on_chain hp (page_id rid)
      end
  | HeapGet rid, OutRow rid' data => rid' = rid /\ C' = C /\
      match C !! rid with
      | Some (m, d) => data = d /\ is_deleted m = false
      | None => ~ on_chain hp (page_id rid)
      end
  | _, _ => False
  end.

(** A slot that its page of the heap does not have is reported as missing, unless the pool
    could not hand out the page. *)
Definition missing_reported (hp : Heap * P) (C : gmap RecordId row) (rid : RecordId)
    (e : TableHeapError BE) : Prop :=
  C !! rid = None -> on_chain hp (page_id rid) ->
  (exists e', e = HBpm e') \/ exists n, e = HSlotMissing rid n /\ n <= slot_id rid.

Definition heap_refusal (hp : Heap * P) (op : heap_op) (C : gmap RecordId row) (e : TableHeapError BE) : Prop :=
  match op with
  | HeapInsert _ _ => True
  | HeapMeta rid _ | HeapUpdate rid _ _ | HeapDelete rid | HeapGet rid => missing_reported hp C rid e
  end.

(** A slot write that needs no world, on a heap. *)
Lemma plain_write_ok hp C rid m d (f : TupleMeta -> bytes -> M unit (TableHeapError BE) SlotWrite) :
  heap_store_is hp C -> C !! rid = Some (m, d) ->
  (forall wr w', f m d tt = (Ok wr, w') -> write_valid wr) ->
  match on_snd (S := Heap) id (plain (write_slot id rid f)) hp with
  | (Ok _, hp') => exists wr w', f m d tt = (Ok wr, w') /\ heap_store_is hp' (<[rid := written wr d]> C)
  | (Err _, hp') => heap_store_is hp' C
  | (Panic, _) => exists w', f m d tt = (Panic, w')
  end.
Proof.
  intros HS Hx Hv. destruct hp as [h p]. unfold on_snd, plain, write_slot. cbn [fst snd].
  pose proof (heap_write_law unit unit unit (TableHeapError BE) id (h, p) C rid m d tt
    (fun m d => w ← f m d; mret (w, tt)) (fun _ => mret tt) HS Hx) as Hl.
  unfold heap_write_then in Hl. cbn [fst snd] in Hl. unfold mbind, M_bind in *.
  destruct (write_slot_then _ _ _ _ (p, tt)) as [r [p' []]] eqn:Hr.
  destruct (f m d tt) as [[wr|e|] []] eqn:Hf.
  - destruct Hl as [(e & s' & [= -> <-] & HS')|[(e & s' & [= -> <-] & HS')|(s' & HS' & Hres)]].
    + intros ? ? ? [= <- _ _]. by eapply Hv.
    + done.
    + done.
    + injection Hres as -> <-. exists wr, tt. done.
  - destruct Hl as [(e' & s' & [= -> <-] & HS')|(s' & [= -> <-] & HS')]; done.
  - destruct Hl as [(e' & s' & [= -> <-] & HS')|(s' & [= -> <-] & HS')]; [done|done|].
    by exists tt.
Qed.

Lemma heap_get_ok hp C rid m d :
  heap_store_is hp C -> C !! rid = Some (m, d) ->
  match on_snd (S := Heap) id (get rid) hp with
  | (Ok out, hp') => out = (rid, d) /\ is_deleted m = false /\ heap_store_is hp' C
  | (Err _, hp') => heap_store_is hp' C
  | (Panic, _) => False
  end.
Proof.
  intros HS Hx. pose proof (heap_read_law hp C rid (m, d) HS Hx) as Hr.
  unfold on_snd, get, get_with_meta, mbind, M_bind in *. destruct hp as [h p]. cbn [fst snd] in *.
  destruct (read_slot rid p) as [[[m' d']|e|] p']; cbn [map_err fst snd] in *; [|done..].
  destruct Hr as [[= -> ->] HS']. destruct (is_deleted m) eqn:Hd; done.
Qed.

(** ** Record ids that name no row of the heap *)

Lemma tuples_meta_valid b i m d : WF b -> tuples b !! i = Some (m, d) -> meta_valid m.
Proof using.
  intros W Ht. pose proof (lookup_lt_Some _ _ _ Ht) as Hi. rewrite length_tuples in Hi.
  destruct (wf_num b W) as (? & ? & ?). pose proof (tuples_lookup b (Z.of_nat i) ltac:(lia)) as E.
  rewrite Nat2Z.id, Ht in E. injection E as -> _. apply pslot_meta_valid; [apply W|apply W|lia|lia].
Qed.

Lemma row_meta_valid hp C rid m d : heap_store_is hp C -> C !! rid = Some (m, d) -> meta_valid m.
Proof.
  intros (L & [HC _ _] & ->) Hx%(row_map_lookup _ _ _ (ch_nodup _ _ _ HC)). apply rows_elem in Hx as (b & Hin & _ & Ht).
  eapply tuples_meta_valid; [|exact Ht]. by eapply chain_lookup.
Qed.

Lemma off_chain hp L pid : heap_is hp.1 hp.2 L -> pid ∉ L.*1 -> ~ on_chain hp pid.
Proof.
  intros [HC _ _] Hni (L' & [HC' _ _] & Hin). by rewrite (chain_is_fun _ _ _ _ HC' HC) in Hin.
Qed.

Lemma heap_off_put h p p' L pid b :
  heap_is h p L -> pid ∉ L.*1 -> pool_pages p' = <[pid := b]> (pool_pages p) -> heap_is h p' L.
Proof.
  intros [[Hf Hnd Hp] HT HR] Hni E. split; [split; [done|done|]|done|done].
  intros k q c Hk. destruct (Hp k q c Hk) as (Hq & ? & ?). split; [|done]. rewrite E, lookup_insert_ne; [done|].
  intros ->. apply Hni, list_elem_of_fmap. exists (q, c). split; [done|]. by eapply list_elem_of_lookup_2.
Qed.

(** The slot is missing from its page, or the page is not the heap's. *)
Lemma absent_row h p L rid b :
  heap_is h p L -> row_map L !! rid = None -> 0 <= slot_id rid -> pool_pages p !! page_id rid = Some b ->
  pnum b <= slot_id rid \/ page_id rid ∉ L.*1.
Proof.
  intros [HC _ _] Hno H0 Hb. destruct (decide (page_id rid ∈ L.*1)) as [Hin|]; [left|by right].
  apply Z.nlt_ge. intros Hlt. apply list_elem_of_fmap in Hin as ([q c] & E & Hin). simpl in E. subst q.
  destruct (chain_lookup _ _ _ _ _ HC Hin) as [Hc _]. assert (c = b) as -> by congruence.
  assert (Hx : row_map L !! rid = Some (meta (pslot b (slot_id rid)), pdata b (pslot b (slot_id rid)))).
  { apply (row_map_lookup _ _ _ (ch_nodup _ _ _ HC)), rows_elem. exists b. split_and!; [done|done|]. apply tuples_lookup. lia. }
  congruence.
Qed.

Lemma find_slot_missing b rid : WF b -> pnum b <= slot_id rid ->
  find_slot (BE := BE) rid b = Err (HSlotMissing rid (pnum b)).
Proof using.
  intros W Hs. pose proof (wf_len b W). unfold find_slot. rewrite new_wf by done. cbn [map_err mbind outcome_bind].
  rewrite slot_none by done. cbn [map_err mbind outcome_bind]. by rewrite num_tuples_ok.
Qed.

(** What becomes of an operation on such a record id. *)
Definition absent_result {A} (hp : Heap * P) (C : gmap RecordId row) (rid : RecordId)
    (res : outcome (TableHeapError BE) A * (Heap * P)) : Prop :=
  match res with
  | (Ok _, hp') => ~ on_chain hp (page_id rid) /\ heap_store_is hp' C
  | (Err e, hp') => missing_reported hp C rid e /\ heap_store_is hp' C
  | (Panic, _) => False
  end.

Lemma absent_write_ok hp C rid (f : TupleMeta -> bytes -> M unit (TableHeapError BE) SlotWrite) :
  heap_store_is hp C -> C !! rid = None -> rid_ok hp.2 rid ->
  (forall m d, meta_valid m -> match f m d tt with (Ok wr, _) => write_valid wr | (Err _, _) => True | (Panic, _) => False end) ->
  absent_result hp C rid (on_snd (S := Heap) id (plain (write_slot id rid f)) hp).
Proof.
  intros (L & HH & ->) Hno [H0 HW] Hv. destruct hp as [h p]. cbn [fst snd] in *.
  unfold on_snd, plain, write_slot. cbn [fst snd]. pose proof (fetch_law (page_id rid) p) as Hf.
  destruct (fetch (page_id rid) p) as [[b|e|] p1] eqn:Hfe; [| |done].
  2:{ unfold write_slot_then, with_page. cbn [fst snd]. rewrite Hfe. cbn. split; [by left; eauto|].
      exists L. split; [|done]. by eapply heap_is_pages. }
  destruct Hf as [Hb E1]. specialize (HW b Hb).
  assert (Hput : forall bx, pool_pages (put_page (page_id rid) bx p1) = <[page_id rid := bx]> (pool_pages p)).
  { intros bx. rewrite put_law by (rewrite E1; eauto). by rewrite E1. }
  destruct (decide (pnum b <= slot_id rid)) as [Hge|Hlt].
  { unfold write_slot_then, with_page. cbn [fst snd]. rewrite Hfe.
    erewrite bind_lift_err by (cbn [fst]; by rewrite find_slot_missing). cbn. split; [right; eauto|].
    exists L. split; [|done]. eapply heap_is_pages; [|exact HH]. cbn [snd]. rewrite Hput. by apply insert_id. }
  destruct (absent_row h p L rid b HH Hno H0 Hb) as [|Hni]; [lia|].
  pose proof (off_chain (h, p) L (page_id rid) HH Hni) as Hoff.
  assert (Hstore : forall bx, heap_store_is (h, put_page (page_id rid) bx p1) (row_map L)).
  { intros bx. exists L. split; [|done]. eapply heap_off_put; [exact HH|exact Hni|apply Hput]. }
  pose proof (tuples_lookup b (slot_id rid) ltac:(lia)) as Ht.
  set (m := meta _) in Ht. set (d := pdata _ _) in Ht. pose proof (tuples_meta_valid b _ _ _ HW Ht) as Hm.
  rewrite (write_slot_then_eq unit unit unit _ id rid m d b p p1 tt _ _ Hfe HW H0 Ht).
  specialize (Hv m d Hm). unfold mbind, M_bind. destruct (f m d tt) as [[wr|e|] []]; cbn [mret M_ret]; [| |done].
  - destruct (write_op_ok b (slot_id rid) m d wr HW H0 Ht Hv) as [(e & ->)|(b2 & -> & _)]; (split; [|by apply Hstore]); [|done].
    intros _ Hon. by destruct (Hoff Hon).
  - split; [|by apply Hstore]. intros _ Hon. by destruct (Hoff Hon).
Qed.

Lemma absent_get_ok hp C rid :
  heap_store_is hp C -> C !! rid = None -> rid_ok hp.2 rid ->
  absent_result hp C rid (on_snd (S := Heap) id (get rid) hp) /\
  (forall out hp', on_snd (S := Heap) id (get rid) hp = (Ok out, hp') -> out.1 = rid).
Proof.
  intros (L & HH & ->) Hno [H0 HW]. destruct hp as [h p]. cbn [fst snd] in *.
  unfold on_snd, get, get_with_meta, read_slot, mbind, M_bind. cbn [fst snd].
  pose proof (fetch_law (page_id rid) p) as Hf.
  destruct (fetch (page_id rid) p) as [[b|e|] p1] eqn:Hfe; [| |done].
  2:{ split; [|done]. split; [by left; eauto|]. exists L. split; [|done]. by eapply heap_is_pages. }
  destruct Hf as [Hb E1]. specialize (HW b Hb).
  assert (Hstore : heap_store_is (h, p1) (row_map L)) by (exists L; split; [by eapply heap_is_pages|done]).
  destruct (decide (pnum b <= slot_id rid)) as [Hge|Hlt].
  { rewrite find_slot_missing by done. cbn. split; [|done]. split; [right; eauto|done]. }
  destruct (absent_row h p L rid b HH Hno H0 Hb) as [|Hni]; [lia|].
  pose proof (off_chain (h, p) L (page_id rid) HH Hni) as Hoff.
  pose proof (tuples_lookup b (slot_id rid) ltac:(lia)) as Ht.
  rewrite (find_slot_ok b rid _ _ HW H0 Ht). cbn [mbind outcome_bind].
  rewrite (slot_bytes_ok b rid _ _ HW H0 Ht). cbn [map_err mbind outcome_bind fst snd].
  destruct (is_deleted (meta (pslot b (slot_id rid)))); cbn; (split; [|intros ? ? [= <- _]; done || done]); (split; [|done]); [|done].
  intros _ Hon. by destruct (Hoff Hon).
Qed.

(** ** One operation on a heap that holds the rows [C] *)

Definition step_result (hp : Heap * P) (op : heap_op) (C : gmap RecordId row)
    (res : outcome (TableHeapError BE) heap_out * (Heap * P)) : Prop :=
  match res with
  | (Ok out, hp') => exists C', heap_effect hp op C out C' /\ heap_store_is hp' C'
  | (Err e, hp') => heap_refusal hp op C e /\ heap_store_is hp' C
  | (Panic, _) => False
  end.

(** A slot write as an operation, given what it does to a row. *)
Lemma write_step_ok hp C op rid (f : TupleMeta -> bytes -> M unit (TableHeapError BE) SlotWrite) :
  heap_store_is hp C -> rid_ok hp.2 rid ->
  (forall m d, meta_valid m -> match f m d tt with (Ok wr, _) => write_valid wr | (Err _, _) => True | (Panic, _) => False end) ->
  (forall m d wr w', C !! rid = Some (m, d) -> f m d tt = (Ok wr, w') -> heap_effect hp op C OutUnit (<[rid := written wr d]> C)) ->
  (C !! rid = None -> ~ on_chain hp (page_id rid) -> heap_effect hp op C OutUnit C) ->
  (forall e, missing_reported hp C rid e -> heap_refusal hp op C e) ->
  step_result hp op C ((_ ← on_snd (S := Heap) id (plain (write_slot id rid f)); mret OutUnit) hp).
Proof.
  intros HS Hrid Hv Heff Hnone Href. unfold mbind, M_bind. destruct (C !! rid) as [[m d]|] eqn:Hx.
  - pose proof (row_meta_valid hp C rid m d HS Hx) as Hm. specialize (Hv m d Hm).
    assert (Hv' : forall wr w', f m d tt = (Ok wr, w') -> write_valid wr) by (intros wr w' E; by rewrite E in Hv).
    pose proof (plain_write_ok hp C rid m d f HS Hx Hv') as Hr.
    destruct (on_snd _ _ hp) as [[[]|e|] hp'].
    + destruct Hr as (wr & w' & Hf & HS'). eexists. split; [by eapply Heff|done].
    + split; [|done]. apply Href. intros Hno. congruence.
    + destruct Hr as [w' Hf]. by rewrite Hf in Hv.
  - pose proof (absent_write_ok hp C rid f HS Hx Hrid Hv) as Hr.
    destruct (on_snd _ _ hp) as [[[]|e|] hp']; [|destruct Hr; split; auto|done].
    destruct Hr as [Hoff HS']. exists C. split; [by apply Hnone|done].
Qed.

Lemma heap_step_ok hp C op :
  heap_store_is hp C -> heap_op_valid hp.2 op -> step_result hp op C (heap_step op hp).
Proof.
  intros HS Hv. destruct op as [m d|rid m|rid m d|rid|rid]; cbn [heap_step heap_op_valid] in *.
  - destruct Hv as [Hm Hd]. pose proof (heap_insert_law hp C m d HS Hm Hd) as Hr.
    unfold mbind, M_bind. destruct (insert_with_meta m d hp) as [[rid|e|] hp']; [|done..].
    destruct Hr as [Hn HS']. eexists. by repeat split.
  - destruct Hv as [Hrid Hm]. apply write_step_ok; try done.
    + intros m0 d0 wr w' Hx [= <- _]. simpl. by rewrite Hx.
    + intros Hx. simpl. by rewrite Hx.
  - destruct Hv as (Hrid & Hm & Hd). apply write_step_ok; try done.
    + intros m0 d0 wr w' Hx [= <- _]. simpl. by rewrite Hx.
    + intros Hx. simpl. by rewrite Hx.
  - apply write_step_ok; try done.
    + intros m0 d0 Hm. by destruct (is_deleted m0).
    + intros m0 d0 wr w' Hx. simpl. rewrite Hx. destruct (is_deleted m0); [done|]. by intros [= <- _].
    + intros Hx. simpl. by rewrite Hx.
  - unfold mbind, M_bind. destruct (C !! rid) as [[m0 d0]|] eqn:Hx.
    + pose proof (heap_get_ok hp C rid m0 d0 HS Hx) as Hr.
      destruct (on_snd _ _ hp) as [[[rid' d']|e|] hp']; [|split; [by intros Hno; congruence|done]|done].
      destruct Hr as ([= -> ->] & Hd & HS'). exists C. split; [|done]. cbn [heap_effect]. by rewrite Hx.
    + destruct (absent_get_ok hp C rid HS Hx Hv) as [Hr Hid].
      destruct (on_snd _ _ hp) as [[[rid' d']|e|] hp']; [|done..].
      destruct Hr as [Hoff HS']. exists C. split; [|done]. cbn [heap_effect]. rewrite Hx. split_and!; try done.
      by apply (Hid _ _ eq_refl).
Qed.

Lemma new_ok p :
  match new p with
  | (Ok h, p') => exists b, heap_is h p' [(first_page_id h, b)] /\ rows [(first_page_id h, b)] = []
  | (Err _, p') => pool_pages p' = pool_pages p
  | (Panic, _) => False
  end.
Proof.
  unfold new, with_new_page, mbind, M_bind. pose proof (new_page_law p) as Hn.
  destruct (new_page p) as [[[pid z]|e|] p1]; [|done..].
  destruct Hn as (Hnone & Hvalid & -> & E).
  destruct (init_ok zero_page zero_page_len zero_page_bytes) as (b & Hi & W & Ht & Hx & Hf).
  unfold mapE. rewrite Hi. cbn. exists b. split; [|unfold rows, page_rows, mbind, list_bind; cbn [fst snd]; by rewrite Ht].
  assert (Hnum : pnum b = 0).
  { pose proof (length_tuples b) as El. rewrite Ht in El. destruct (wf_num b W). simpl in El. lia. }
  split; [|exists [], b; split; [reflexivity|symmetry; exact Hnum]|reflexivity || (simpl; lia)].
  split; [reflexivity|apply list.NoDup_singleton|].
  intros [|k] pid' b' Hk; [|done]. injection Hk as <- <-. split_and!; [|done|done].
  rewrite put_law by (rewrite E, lookup_insert_eq; eauto). by rewrite lookup_insert_eq.
Qed.

(** The heaps that a program can make of new ones, with the rows they hold. *)
Inductive heap_trace : Heap * P -> gmap RecordId row -> Prop :=
| trace_new p h p' : new p = (Ok h, p') -> heap_trace (h, p') ∅
| trace_reserve n h p C : 0 <= n -> heap_trace (h, p) C -> heap_trace (with_update_reserve n h, p) C
| trace_ok op out hp hp' C C' : heap_trace hp C -> heap_op_valid hp.2 op ->
    heap_step op hp = (Ok out, hp') -> heap_effect hp op C out C' -> heap_trace hp' C'
| trace_err op e hp hp' C : heap_trace hp C -> heap_op_valid hp.2 op ->
    heap_step op hp = (Err e, hp') -> heap_trace hp' C.

Lemma heap_effect_functional hp op C out C1 C2 :
  heap_effect hp op C out C1 -> heap_effect hp op C out C2 -> C1 = C2.
Proof.
  destruct op, out; simpl; try done; repeat case_match; naive_solver.
Qed.

Lemma heap_trace_store hp C : heap_trace hp C -> heap_store_is hp C.
Proof.
  induction 1 as [p h p' Hn|n h p C H0 _ (L & [HC HT HR] & ->)|op out hp hp' C C' _ IH Hv Hs He
                 |op e hp hp' C _ IH Hv Hs].
  - pose proof (new_ok p) as H. rewrite Hn in H. destruct H as (b & HH & Hr). eexists. split; [done|].
    unfold row_map. by rewrite Hr.
  - exists L. split; [|done]. by split.
  - pose proof (heap_step_ok hp C op IH Hv) as H. rewrite Hs in H. destruct H as (C2 & He2 & HS).
    by rewrite (heap_effect_functional _ _ _ _ _ _ He He2).
  - pose proof (heap_step_ok hp C op IH Hv) as H. rewrite Hs in H. apply H.
Qed.

(** C9: on every heap made of a new one by any sequence of operations (failed ones included,
    and with any update reserve), a further operation never panics: it either fails and leaves
    all rows as they were, or does to the rows exactly what it says and returns the result
    that goes with them. A record id may also name a slot that does not exist, a page the pool
    does not have or a page of another heap: no row of this heap changes then, and a slot that
    a page of this heap lacks is reported as missing. *)
Theorem heap_refines_rows hp C op :
  heap_trace hp C -> heap_op_valid hp.2 op ->
  match heap_step op hp with
  | (Ok out, hp') => exists C', heap_effect hp op C out C' /\ heap_trace hp' C' /\ heap_store_is hp' C'
  | (Err e, hp') => heap_refusal hp op C e /\ heap_trace hp' C /\ heap_store_is hp' C
  | (Panic, _) => False
  end.
Proof.
  intros HT Hv. pose proof (heap_step_ok hp C op (heap_trace_store hp C HT) Hv) as H.
  destruct (heap_step op hp) as [[out|e|] hp'] eqn:Hs; [| |done].
  - destruct H as (C' & He & HS). exists C'. split_and!; try done. by eapply trace_ok.
  - destruct H as [He HS]. split_and!; try done. by eapply trace_err.
Qed.

(** C10: opening a heap at its first page, when the pool serves the pages, gives back the heap
    that was left there, its tail included; it reports neither a cycle nor a dangling link. *)
Theorem open_finds_heap h p L fuel :
  heap_is h p L -> (length L <= fuel)%nat ->
  match open fuel (first_page_id h) p with
  | (Ok h', p') => h' = with_update_reserve 0 h /\ heap_is h' p' L
  | (Err e, p') => heap_is h p' L /\ exists e', e = HBpm e'
  | (Panic, _) => False
  end.
Proof.
  intros HH Hf. pose proof HH as [HC (L0 & b & HL & Hn) HR].
  pose proof (open_loop_ok L fuel p (first_page_id h) ∅ HC Hf ltac:(set_solver)) as Ho.
  unfold open, mbind, M_bind. destruct (open_loop _ _ _ p) as [[t|e|] p']; [| |done].
  - destruct Ho as (E & L1 & b1 & HL1 & Ht). rewrite HL in HL1.
    apply app_inj_tail in HL1 as [<- [= Hid <-]].
    assert (t = tail h) as ->.
    { destruct t, (tail h). simpl in *. congruence. }
    split; [done|]. split; [by eapply chain_is_pages|eauto|done].
  - destruct Ho as [E He]. split; [by eapply heap_is_pages|done].
Qed.

(** A chain has no more pages than the pool. *)
Lemma chain_length p first L : chain_is p first L -> (length L <= base.size (pool_pages p))%nat.
Proof.
  intros [_ Hnd Hp]. rewrite <- (length_fmap fst L), <- (size_list_to_set (C := gset PageId)), <- size_dom by done.
  apply subseteq_size. intros pid Hin. apply elem_of_list_to_set, list_elem_of_fmap in Hin as ([q b] & -> & Hin).
  apply list_elem_of_lookup_1 in Hin as [k Hk]. apply elem_of_dom. destruct (Hp k q b Hk) as (? & _). eauto.
Qed.

(** C11: a scan of a heap yields exactly the wanted rows among those the heap had when the
    scan began, in order, whatever rows are appended before each of its steps (by insertions
    that may fail); or it ends, after some of them, with the error the pool reported. It never
    runs on into rows appended later, and follows no more pages than the heap had. *)
Theorem scan_sees_rows_at_start {R} (f : RecordId -> TupleMeta -> bytes -> option R)
    h p L batches fuel pages slots :
  heap_is h p L -> Forall rows_valid batches -> (length L <= pages)%nat -> PAGE_SIZE <= Z.of_nat slots ->
  (length (rows L) < fuel)%nat ->
  collect fuel pages slots f batches (iter h) (h, p) = Some (omap (row_fun f) (rows L), None) \/
  exists out e, out `prefix_of` omap (row_fun f) (rows L) /\
    collect fuel pages slots f batches (iter h) (h, p) = Some (out, Some (HBpm e)).
Proof.
  intros HH Hv Hp Hsl Hfuel. apply (collect_ok f pages slots Hsl fuel batches (iter h) h p L); try done.
  - eapply iter_at_start; [done|apply HH|]. apply grows_refl. destruct HH as [[Hf _ _] _ _]. by intros ->.
  - by eapply iter_last.
  - pose proof (hops_length (last_page_id (iter h)) L). lia.
Qed.

(** C12: freeing a heap deletes the pages of its chain and no other; if the pool refuses one,
    the heap that is handed back is exactly the pages not yet deleted, so that freeing it again
    finishes the job. *)
Theorem free_deletes_chain h p L fuel :
  heap_is h p L -> (length L <= fuel)%nat ->
  match free fuel (h, p) with
  | (Ok _, (_, p')) => pool_pages p' = without L.*1 (pool_pages p)
  | (Err e, (h', p')) => (exists e', e = HBpm e') /\ exists L1 L2, L = L1 ++ L2 /\
      heap_is h' p' L2 /\ pool_pages p' = without L1.*1 (pool_pages p)
  | (Panic, _) => False
  end.
Proof.
  intros [HC HT HR] Hf. pose proof (free_ok L fuel h p HC Hf) as Hr.
  destruct (free fuel (h, p)) as [[u|e|] [h' p']] eqn:He; [done| |done].
  destruct Hr as (He' & L1 & L2 & HL & HC2 & Ht & Hres & E). split; [done|].
  exists L1, L2. split_and!; try done. split; [done| |by rewrite Hres]. rewrite Ht.
  destruct HT as (L0 & b & HLb & Hn). destruct (exists_last (l := L2)) as (L3 & x & ->).
  { destruct HC2 as [Hf2 _ _]. by intros ->. }
  rewrite HL, app_assoc in HLb. apply app_inj_tail in HLb as [_ ->]. by exists L3, b.
Qed.

End ops.

(** ** A pool that keeps its pages in a map *)

Record MapPool : Type := mkPool { mp_pages : gmap PageId bytes; mp_next : PageId }.

Inductive MapPoolError : Type := | NoSuchPage | NoMorePages.

#[export] Instance map_pool : PagePool MapPool MapPoolError := {
  fetch pid p := match mp_pages p !! pid with Some b => (Ok b, p) | None => (Err NoSuchPage, p) end;
  put_page pid b p := mkPool (<[pid := b]> (mp_pages p)) (mp_next p);
  new_page p :=
    let pid := mp_next p in
    if (0 <=? pid) && (pid <=? PageId_MAX) && bool_decide (mp_pages p !! pid = None) then
      (Ok (pid, zero_page), mkPool (<[pid := zero_page]> (mp_pages p)) (pid + 1))
    else (Err NoMorePages, p);
  delete_page pid p := (Ok tt, mkPool (base.delete pid (mp_pages p)) (mp_next p));
  page_is_allocated p pid := bool_decide (is_Some (mp_pages p !! pid));
}.

#[export] Program Instance map_pool_laws : PagePoolLaws MapPool MapPoolError := {
  pool_pages := mp_pages;
}.
Next Obligation. intros pid p. simpl. by destruct (mp_pages p !! pid) eqn:E. Qed.
Next Obligation. done. Qed.
Next Obligation.
  intros p. simpl. destruct (Z.leb_spec 0 (mp_next p)), (Z.leb_spec (mp_next p) PageId_MAX); simpl; try done.
  case_bool_decide; [|done]. done.
Qed.
Next Obligation. done. Qed.
Next Obligation. intros pid p H. simpl in *. by apply bool_decide_eq_true. Qed.

Definition pool0 : MapPool := mkPool ∅ 0.

(** A new heap, and the heap after one insertion. *)
Definition meta0 : TupleMeta := mkMeta 0 false.
Definition row0 : row := (meta0, [1; 2; 3]).

Definition heap0 : Heap * MapPool :=
  match new pool0 with (Ok h, p) => (h, p) | (_, p) => (mkHeap 0 (mkTail 0 0) 0, p) end.

Definition heap1 : Heap * MapPool := (insert_with_meta meta0 [1; 2; 3] heap0).2.

Lemma heap0_new : new pool0 = (Ok heap0.1, heap0.2).
Proof. vm_compute. reflexivity. Qed.

Lemma meta0_valid : meta_valid meta0.
Proof. unfold meta_valid, meta0, u64_max. simpl. lia. Qed.

Lemma data0_bytes : Forall is_byte [1; 2; 3].
Proof. repeat constructor; unfold is_byte; lia. Qed.

Lemma heap1_is : exists L, heap_is heap1.1 heap1.2 L /\ rows L = [(mkRid 0 0, row0)] /\ (length L <= 1)%nat.
Proof.
  pose proof (new_ok pool0) as H. rewrite heap0_new in H. destruct H as (b & HH & Hr).
  pose proof (heap_insert_ok _ _ _ meta0 [1; 2; 3] HH meta0_valid data0_bytes) as Hi.
  assert (E : (insert_with_meta meta0 [1; 2; 3] heap0).1 = Ok (mkRid 0 0)) by (vm_compute; reflexivity).
  unfold heap1. rewrite <- surjective_pairing in Hi.
  destruct (insert_with_meta meta0 [1; 2; 3] heap0) as [r [h p]] eqn:Hins. simpl in E. subst r.
  destruct Hi as (L' & HH' & Hrows & _). exists L'. split_and!; [done|by rewrite Hrows, Hr|].
  pose proof (chain_length _ _ _ (hi_chain _ _ _ HH')) as Hlen.
  assert (Es : base.size (mp_pages heap1.2) = 1%nat) by (vm_compute; reflexivity).
  unfold heap1 in Es. rewrite Hins in Es. cbn in *. lia.
Qed.

(** The second slot of the only page of a heap with one row is reported as missing. *)
Lemma heap_refines_rows_witness :
  exists C hp', heap_trace heap1 C /\ heap_step (HeapDelete (mkRid 0 1)) heap1 = (Err (HSlotMissing (mkRid 0 1) 1), hp') /\
    heap_refusal heap1 (HeapDelete (mkRid 0 1)) C (HSlotMissing (mkRid 0 1) 1) /\ heap_trace hp' C /\ heap_store_is hp' C.
Proof.
  assert (HT0 : heap_trace heap0 ∅) by (rewrite (surjective_pairing heap0); exact (trace_new _ _ _ heap0_new)).
  pose proof (heap_refines_rows heap0 ∅ (HeapInsert meta0 [1; 2; 3]) HT0 (conj meta0_valid data0_bytes)) as H1.
  destruct (heap_step (HeapInsert meta0 [1; 2; 3]) heap0) as [r hp1] eqn:E1.
  assert (Er : r = Ok (OutRid (mkRid 0 0))) by (change r with (r, hp1).1; rewrite <- E1; vm_compute; reflexivity).
  assert (Eh : hp1 = heap1) by (change hp1 with (r, hp1).2; rewrite <- E1; vm_compute; reflexivity).
  rewrite Er, Eh in H1. destruct H1 as (C & _ & HT & HS). exists C.
  assert (Hv : heap_op_valid heap1.2 (HeapDelete (mkRid 0 1))).
  { split; [simpl; lia|]. intros b Hb. destruct heap1_is as (L & [HC _ _] & Hrows & _).
    assert (Hin : (mkRid 0 0, row0) ∈ rows L) by (rewrite Hrows; constructor).
    apply rows_elem in Hin as (b0 & Hin & _). destruct (chain_lookup _ _ _ _ _ HC Hin) as [Hb0 W].
    simpl in Hb, Hb0. rewrite Hb in Hb0. injection Hb0 as ->. exact W. }
  pose proof (heap_refines_rows heap1 C (HeapDelete (mkRid 0 1)) HT Hv) as H2.
  destruct (heap_step (HeapDelete (mkRid 0 1)) heap1) as [r2 hp2] eqn:E2. exists hp2.
  assert (Er2 : r2 = Err (HSlotMissing (mkRid 0 1) 1)) by (change r2 with (r2, hp2).1; rewrite <- E2; vm_compute; reflexivity).
  rewrite Er2 in H2 |- *. split; [exact HT|]. split; [reflexivity|]. exact H2.
Defined.

Lemma open_finds_heap_witness : exists L, heap_is heap1.1 heap1.2 L /\
  match open 1 (first_page_id heap1.1) heap1.2 with
  | (Ok h', p') => h' = with_update_reserve 0 heap1.1 /\ heap_is h' p' L
  | (Err e, p') => heap_is heap1.1 p' L /\ exists e', e = HBpm e'
  | (Panic, _) => False
  end.
Proof.
  destruct heap1_is as (L & HH & _ & Hl). exists L. split; [exact HH|].
  exact (open_finds_heap heap1.1 heap1.2 L 1 HH Hl).
Defined.

Lemma scan_sees_rows_at_start_witness :
  let f := fun rid (m : TupleMeta) (d : bytes) => Some (rid, d) in
  let batches := [[row0]; [row0; row0]] in
  collect 2 1 (Z.to_nat PAGE_SIZE) f batches (iter heap1.1) heap1 = Some ([(mkRid 0 0, [1; 2; 3])], None) \/
  exists out e, out `prefix_of` [(mkRid 0 0, [1; 2; 3])] /\
    collect 2 1 (Z.to_nat PAGE_SIZE) f batches (iter heap1.1) heap1 = Some (out, Some (HBpm e)).
Proof.
  cbv zeta. destruct heap1_is as (L & HH & Hr & Hl).
  pose proof (scan_sees_rows_at_start (fun rid (m : TupleMeta) (d : bytes) => Some (rid, d))
    heap1.1 heap1.2 L [[row0]; [row0; row0]] 2 1 (Z.to_nat PAGE_SIZE) HH) as H.
  rewrite <- (surjective_pairing heap1), Hr in H. apply H.
  - repeat constructor; first [apply meta0_valid|unfold is_byte; lia].
  - exact Hl.
  - rewrite Z2Nat.id by (unfold PAGE_SIZE; lia). lia.
  - simpl. lia.
Defined.

Lemma free_deletes_chain_witness : exists L, heap_is heap1.1 heap1.2 L /\
  match free 1 (heap1.1, heap1.2) with
  | (Ok _, (_, p')) => pool_pages p' = without L.*1 (pool_pages heap1.2)
  | (Err e, (h', p')) => (exists e', e = HBpm e') /\ exists L1 L2, L = L1 ++ L2 /\
      heap_is h' p' L2 /\ pool_pages p' = without L1.*1 (pool_pages heap1.2)
  | (Panic, _) => False
  end.
Proof.
  destruct heap1_is as (L & HH & _ & Hl). exists L. split; [exact HH|].
  exact (free_deletes_chain heap1.1 heap1.2 L 1 HH Hl).
Defined.
