(* ===== verification/Replacer.v ===== *)
(** * The ARC replacer

    Models [src/replacer.rs]: an arena of nodes doubly linked by index into four lists, two
    hash maps from pages and frames to nodes, and the counters kept beside them. Indices and
    lengths are naturals; a subtraction below zero, an index out of range and a division by
    zero panic, as they do in the source. Logging is left out. *)

From Stdlib Require Import ZArith Lia.
From stdpp Require Import base list gmap option.
From S2P Require Import Prelude Ids.

Local Open Scope Z_scope.

Inductive ArcList : Type := | Mru | Mfu | GhostMru | GhostMfu.

#[export] Instance ArcList_eq_dec : EqDecision ArcList.
Proof. solve_decision. Defined.

Inductive ResidentList : Type := | RMru | RMfu.

(** [ResidentList::list] and [ResidentList::ghost] followed by [GhostList::list] *)
Definition resident_list (r : ResidentList) : ArcList :=
  match r with RMru => Mru | RMfu => Mfu end.

Inductive GhostList : Type := | GMru | GMfu.

Definition resident_ghost (r : ResidentList) : GhostList :=
  match r with RMru => GMru | RMfu => GMfu end.

Definition ghost_list (g : GhostList) : ArcList :=
  match g with GMru => GhostMru | GMfu => GhostMfu end.

Record Node : Type := mkNode {
  n_page_id : PageId;
  n_frame_id : option FrameId;
  n_evictable : bool;
  n_list : ArcList;
  n_next : option nat;
  n_prev : option nat;
}.

Record ListHead : Type := mkHead {
  most_recent : option nat;
  least_recent : option nat;
  h_length : nat;
}.

Record ArcReplacer : Type := mkReplacer {
  nodes : list Node;
  unused_node_indices : list nat;
  page_indices : gmap PageId nat;
  frame_indices : gmap FrameId nat;
  mru_list : ListHead;
  mfu_list : ListHead;
  mru_ghost_list : ListHead;
  mfu_ghost_list : ListHead;
  mru_target_size : nat;
  r_capacity : nat;
  evictable_count : nat;
}.

Record EvictionUndo : Type := mkUndo {
  u_node_idx : nat;
  u_frame_id : FrameId;
  u_list : ResidentList;
  u_more_recent : option nat;
}.

Module Replacer.

Abbreviation rep := (M ArcReplacer Empty_set).

(** ** Field updates *)

Definition with_nodes (ns : list Node) (c : ArcReplacer) : ArcReplacer :=
  mkReplacer ns (unused_node_indices c) (page_indices c) (frame_indices c) (mru_list c)
    (mfu_list c) (mru_ghost_list c) (mfu_ghost_list c) (mru_target_size c) (r_capacity c)
    (evictable_count c).
Definition with_unused (us : list nat) (c : ArcReplacer) : ArcReplacer :=
  mkReplacer (nodes c) us (page_indices c) (frame_indices c) (mru_list c)
    (mfu_list c) (mru_ghost_list c) (mfu_ghost_list c) (mru_target_size c) (r_capacity c)
    (evictable_count c).
Definition with_pages (ps : gmap PageId nat) (c : ArcReplacer) : ArcReplacer :=
  mkReplacer (nodes c) (unused_node_indices c) ps (frame_indices c) (mru_list c)
    (mfu_list c) (mru_ghost_list c) (mfu_ghost_list c) (mru_target_size c) (r_capacity c)
    (evictable_count c).
Definition with_frames (fs : gmap FrameId nat) (c : ArcReplacer) : ArcReplacer :=
  mkReplacer (nodes c) (unused_node_indices c) (page_indices c) fs (mru_list c)
    (mfu_list c) (mru_ghost_list c) (mfu_ghost_list c) (mru_target_size c) (r_capacity c)
    (evictable_count c).
Definition with_target (t : nat) (c : ArcReplacer) : ArcReplacer :=
  mkReplacer (nodes c) (unused_node_indices c) (page_indices c) (frame_indices c) (mru_list c)
    (mfu_list c) (mru_ghost_list c) (mfu_ghost_list c) t (r_capacity c) (evictable_count c).
Definition with_count (n : nat) (c : ArcReplacer) : ArcReplacer :=
  mkReplacer (nodes c) (unused_node_indices c) (page_indices c) (frame_indices c) (mru_list c)
    (mfu_list c) (mru_ghost_list c) (mfu_ghost_list c) (mru_target_size c) (r_capacity c) n.

(** [ArcReplacer::list] and [ArcReplacer::list_mut] *)
Definition list_of (c : ArcReplacer) (l : ArcList) : ListHead :=
  match l with
  | Mfu => mfu_list c
  | Mru => mru_list c
  | GhostMru => mru_ghost_list c
  | GhostMfu => mfu_ghost_list c
  end.

Definition with_list (l : ArcList) (h : ListHead) (c : ArcReplacer) : ArcReplacer :=
  mkReplacer (nodes c) (unused_node_indices c) (page_indices c) (frame_indices c)
    (match l with Mru => h | _ => mru_list c end)
    (match l with Mfu => h | _ => mfu_list c end)
    (match l with GhostMru => h | _ => mru_ghost_list c end)
    (match l with GhostMfu => h | _ => mfu_ghost_list c end)
    (mru_target_size c) (r_capacity c) (evictable_count c).

Definition put (f : ArcReplacer -> ArcReplacer) : rep unit := fun c => (Ok tt, f c).
Definition asks {A} (f : ArcReplacer -> A) : rep A := fun c => (Ok (f c), c).

(** [self.nodes[idx]] *)
Definition node (idx : nat) : rep Node := lift (fun c => expect (nodes c !! idx)).

(** [self.nodes[idx].field = ..] *)
Definition set_node (idx : nat) (f : Node -> Node) : rep unit :=
  n ← node idx;
  put (fun c => with_nodes (<[idx := f n]> (nodes c)) c).

Definition set_next (v : option nat) (n : Node) : Node :=
  mkNode (n_page_id n) (n_frame_id n) (n_evictable n) (n_list n) v (n_prev n).
Definition set_prev (v : option nat) (n : Node) : Node :=
  mkNode (n_page_id n) (n_frame_id n) (n_evictable n) (n_list n) (n_next n) v.
Definition set_list (v : ArcList) (n : Node) : Node :=
  mkNode (n_page_id n) (n_frame_id n) (n_evictable n) v (n_next n) (n_prev n).
Definition set_frame (v : option FrameId) (n : Node) : Node :=
  mkNode (n_page_id n) v (n_evictable n) (n_list n) (n_next n) (n_prev n).
Definition set_flag (v : bool) (n : Node) : Node :=
  mkNode (n_page_id n) (n_frame_id n) v (n_list n) (n_next n) (n_prev n).

(** [self.evictable_count -= 1] *)
Definition decr_count : rep unit :=
  n ← asks evictable_count;
  match n with
  | O => liftc Panic
  | S n => put (with_count n)
  end.

(** ** Construction and queries *)

Definition head0 : ListHead := mkHead None None 0.

Definition new (cap : nat) : ArcReplacer :=
  mkReplacer [] [] ∅ ∅ head0 head0 head0 head0 0 cap 0.

Definition capacity (c : ArcReplacer) : nat := r_capacity c.
Definition size (c : ArcReplacer) : nat := evictable_count c.

Definition is_full (c : ArcReplacer) : bool :=
  (r_capacity c <=? h_length (mru_list c) + h_length (mfu_list c))%nat.

(** ** Links *)

Definition detach (idx : nat) : rep unit :=
  n ← node idx;
  head ← asks (fun c => list_of c (n_list n));
  let most := if decide (most_recent head = Some idx) then n_next n else most_recent head in
  let least := if decide (least_recent head = Some idx) then n_prev n else least_recent head in
  len ← liftc (match h_length head with O => Panic | S k => Ok k end);
  _ ← put (with_list (n_list n) (mkHead most least len));
  _ ← match n_prev n with
      | Some p => set_node p (set_next (n_next n))
      | None => mret tt
      end;
  _ ← match n_next n with
      | Some q => set_node q (set_prev (n_prev n))
      | None => mret tt
      end;
  _ ← set_node idx (set_prev None);
  set_node idx (set_next None).

Definition push (idx : nat) (l : ArcList) : rep unit :=
  head ← asks (fun c => list_of c l);
  let old := most_recent head in
  let least := if decide (old = None) then Some idx else least_recent head in
  _ ← put (with_list l (mkHead (Some idx) least (S (h_length head))));
  _ ← set_node idx (set_list l);
  _ ← set_node idx (set_prev None);
  _ ← set_node idx (set_next old);
  match old with
  | Some h => set_node h (set_prev (Some idx))
  | None => mret tt
  end.

Definition insert_after (idx : nat) (l : ArcList) (more : option nat) : rep unit :=
  match more with
  | None => push idx l
  | Some m =>
      n ← node m;
      let less := n_next n in
      _ ← set_node m (set_next (Some idx));
      _ ← set_node idx (set_list l);
      _ ← set_node idx (set_prev (Some m));
      _ ← set_node idx (set_next less);
      _ ← match less with
          | Some q => set_node q (set_prev (Some idx))
          | None =>
              put (fun c =>
                let h := list_of c l in
                with_list l (mkHead (most_recent h) (Some idx) (h_length h)) c)
          end;
      put (fun c =>
        let h := list_of c l in
        with_list l (mkHead (most_recent h) (least_recent h) (S (h_length h))) c)
  end.

Definition move_to_front (idx : nat) (l : ArcList) : rep unit :=
  _ ← detach idx;
  push idx l.

(** ** Frames *)

Definition set_evictable (f : FrameId) (evictable : bool) : rep unit :=
  o ← asks (fun c => frame_indices c !! f);
  match o with
  | None => mret tt
  | Some idx =>
      n ← node idx;
      _ ← set_node idx (set_flag evictable);
      match evictable, n_evictable n with
      | true, false => put (fun c => with_count (S (evictable_count c)) c)
      | false, true => decr_count
      | _, _ => mret tt
      end
  end.

Definition remove (p : PageId) : rep (option FrameId) :=
  o ← asks (fun c => page_indices c !! p);
  match o with
  | None => mret None
  | Some idx =>
      _ ← put (fun c => with_pages (delete p (page_indices c)) c);
      n ← node idx;
      _ ← set_node idx (set_frame None);
      _ ← set_node idx (set_flag false);
      _ ← (if n_evictable n then decr_count else mret tt);
      _ ← match n_frame_id n with
          | Some f => put (fun c => with_frames (delete f (frame_indices c)) c)
          | None => mret tt
          end;
      _ ← detach idx;
      _ ← put (fun c => with_unused (unused_node_indices c ++ [idx]) c);
      mret (n_frame_id n)
  end.

Definition give_up_frame (idx : nat) : rep unit :=
  n ← node idx;
  resident ← liftc (match n_list n with
                    | Mru => Ok RMru
                    | Mfu => Ok RMfu
                    | _ => Panic
                    end);
  _ ← set_node idx (set_frame None);
  _ ← match n_frame_id n with
      | Some f => put (fun c => with_frames (delete f (frame_indices c)) c)
      | None => mret tt
      end;
  _ ← set_node idx (set_flag false);
  _ ← (if n_evictable n then decr_count else mret tt);
  move_to_front idx (ghost_list (resident_ghost resident)).

Definition take_frame_from_its_holder (f : FrameId) : rep bool :=
  o ← asks (fun c => frame_indices c !! f);
  match o with
  | Some previous_holder => _ ← give_up_frame previous_holder; mret true
  | None => mret false
  end.

Definition release_frame_for_admission (f : FrameId) : rep unit :=
  freed ← take_frame_from_its_holder f;
  lift (fun c => rassert (freed || negb (is_full c))).

Definition trim_ghost_tail (g : GhostList) : rep unit :=
  idx ← lift (fun c => expect (least_recent (list_of c (ghost_list g))));
  n ← node idx;
  _ ← liftc (rassert (bool_decide (n_frame_id n = None)));
  _ ← detach idx;
  _ ← put (fun c => with_pages (delete (n_page_id n) (page_indices c)) c);
  put (fun c => with_unused (unused_node_indices c ++ [idx]) c).

Definition revive_ghost (idx : nat) (f : FrameId) : rep unit :=
  _ ← release_frame_for_admission f;
  _ ← set_node idx (set_frame (Some f));
  _ ← set_node idx (set_flag false);
  _ ← put (fun c => with_frames (<[f := idx]> (frame_indices c)) c);
  move_to_front idx Mfu.

Definition move_to_new_frame (idx : nat) (f : FrameId) : rep unit :=
  _ ← take_frame_from_its_holder f;
  n ← node idx;
  _ ← set_node idx (set_frame (Some f));
  _ ← match n_frame_id n with
      | Some previous => put (fun c => with_frames (delete previous (frame_indices c)) c)
      | None => mret tt
      end;
  _ ← set_node idx (set_flag false);
  _ ← (if n_evictable n then decr_count else mret tt);
  put (fun c => with_frames (<[f := idx]> (frame_indices c)) c).

(** How far a hit on a ghost list of length [hit] moves the target, the other one having
    length [other]. *)
Definition ghost_delta (hit other : nat) : outcome Empty_set nat :=
  if (other <=? hit)%nat then Ok 1%nat
  else match hit with O => Panic | _ => Ok (other / hit)%nat end.

Definition record_repeat_access (idx : nat) (f : FrameId) : rep unit :=
  n ← node idx;
  match n_list n with
  | Mfu | Mru =>
      _ ← (if decide (n_frame_id n = Some f) then mret tt else move_to_new_frame idx f);
      move_to_front idx Mfu
  | GhostMru =>
      delta ← lift (fun c =>
        ghost_delta (h_length (mru_ghost_list c)) (h_length (mfu_ghost_list c)));
      _ ← put (fun c => with_target (min (mru_target_size c + delta) (r_capacity c)) c);
      revive_ghost idx f
  | GhostMfu =>
      delta ← lift (fun c =>
        ghost_delta (h_length (mfu_ghost_list c)) (h_length (mru_ghost_list c)));
      _ ← put (fun c => with_target (mru_target_size c - delta) c);
      revive_ghost idx f
  end.

(** [self.unused_node_indices.pop()], or a new node at the end of the arena *)
Definition alloc_node (n : Node) : rep nat :=
  us ← asks unused_node_indices;
  match list.last us with
  | Some idx =>
      _ ← put (with_unused (removelast us));
      _ ← set_node idx (fun _ => n);
      mret idx
  | None =>
      idx ← asks (fun c => length (nodes c));
      _ ← put (fun c => with_nodes (nodes c ++ [n]) c);
      mret idx
  end.

Definition record_first_access (f : FrameId) (p : PageId) : rep unit :=
  _ ← release_frame_for_admission f;
  mru_side ← asks (fun c => h_length (mru_list c) + h_length (mru_ghost_list c))%nat;
  cap ← asks r_capacity;
  _ ← (if decide (mru_side = cap) then trim_ghost_tail GMru
       else
         _ ← liftc (rassert (mru_side <? cap)%nat);
         tracked ← asks (fun c => mru_side + h_length (mfu_list c) + h_length (mfu_ghost_list c))%nat;
         if decide (tracked = 2 * cap)%nat then trim_ghost_tail GMfu else mret tt);
  idx ← alloc_node (mkNode p (Some f) false Mru None None);
  _ ← put (fun c => with_pages (<[p := idx]> (page_indices c)) c);
  _ ← put (fun c => with_frames (<[f := idx]> (frame_indices c)) c);
  push idx Mru.

Definition record_access (f : FrameId) (p : PageId) : rep unit :=
  o ← asks (fun c => page_indices c !! p);
  match o with
  | Some idx => record_repeat_access idx f
  | None => record_first_access f p
  end.

(** ** Eviction *)

(** The loop of [evict_from_list]: the first evictable node from [idx] towards the more
    recent ones. A list has at most as many nodes as the arena, which is the [fuel]. *)
Fixpoint find_victim (fuel : nat) (idx : nat) : rep (option nat) :=
  match fuel with
  | O => liftc Panic
  | S fuel =>
      n ← node idx;
      if n_evictable n then mret (Some idx)
      else match n_prev n with
           | None => mret None
           | Some more_recent => find_victim fuel more_recent
           end
  end.

Definition evict_from_list (r : ResidentList) : rep (option EvictionUndo) :=
  start ← asks (fun c => least_recent (list_of c (resident_list r)));
  match start with
  | None => mret None
  | Some start =>
      fuel ← asks (fun c => length (nodes c));
      victim ← find_victim fuel start;
      match victim with
      | None => mret None
      | Some idx =>
          n ← node idx;
          match n_frame_id n with
          | None => mret None
          | Some f =>
              _ ← give_up_frame idx;
              mret (Some (mkUndo idx f r (n_prev n)))
          end
      end
  end.

Definition begin_eviction : rep (option EvictionUndo) :=
  prefer_mru ← asks (fun c => (mru_target_size c <=? h_length (mru_list c))%nat);
  let preferred := if prefer_mru : bool then RMru else RMfu in
  let fallback := if prefer_mru : bool then RMfu else RMru in
  undo ← evict_from_list preferred;
  match undo with
  | Some u => mret (Some u)
  | None => evict_from_list fallback
  end.

(** [begin_eviction] followed by [Eviction::commit] *)
Definition evict : rep (option FrameId) :=
  undo ← begin_eviction;
  mret (u_frame_id <$> undo).

(** [undo_eviction], which dropping an uncommitted [Eviction] runs *)
Definition undo_eviction (u : EvictionUndo) : rep unit :=
  _ ← detach (u_node_idx u);
  _ ← insert_after (u_node_idx u) (resident_list (u_list u)) (u_more_recent u);
  _ ← set_node (u_node_idx u) (set_frame (Some (u_frame_id u)));
  _ ← set_node (u_node_idx u) (set_flag true);
  _ ← put (fun c => with_frames (<[u_frame_id u := u_node_idx u]> (frame_indices c)) c);
  put (fun c => with_count (S (evictable_count c)) c).

End Replacer.
