(* ===== verification/ReplacerLinks.v ===== *)
(** * The linked lists of the replacer

    The nodes of [src/replacer.rs] are linked by index in both directions. [Links c L] says
    that the links of replacer [c] spell the four lists of indices [L]; detaching, pushing
    and inserting a node do to [L] what they do to a list. *)

From Stdlib Require Import ZArith Lia.
From stdpp Require Import base list gmap option.
From S2P Require Import Prelude Ids Replacer.
Import Replacer.

(** ** Sequences of linked nodes *)

Definition first (L : list nat) (q : option nat) : option nat :=
  match L with [] => q | i :: _ => Some i end.

Fixpoint final (p : option nat) (L : list nat) : option nat :=
  match L with [] => p | i :: L => final (Some i) L end.

(** The nodes [L], in this order, are on list [l]; [p] and [q] are what the first and last
    of them link to. *)
Fixpoint linked (ns : list Node) (l : ArcList) (p : option nat) (L : list nat) (q : option nat)
    : Prop :=
  match L with
  | [] => True
  | i :: L =>
      exists n, ns !! i = Some n /\ n_list n = l /\ n_prev n = p /\ n_next n = first L q /\
        linked ns l (Some i) L q
  end.

Lemma first_app L1 L2 q : first (L1 ++ L2) q = first L1 (first L2 q).
Proof. by destruct L1. Qed.

Lemma final_app p L1 L2 : final p (L1 ++ L2) = final (final p L1) L2.
Proof. revert p. induction L1; simpl; auto. Qed.

Lemma linked_app ns l p L1 L2 q :
  linked ns l p (L1 ++ L2) q <->
  linked ns l p L1 (first L2 q) /\ linked ns l (final p L1) L2 q.
Proof.
  revert p. induction L1 as [|i L1 IH]; intros p; simpl; [naive_solver|].
  setoid_rewrite IH. rewrite first_app. naive_solver.
Qed.

Lemma final_elem p L j : final p L = Some j -> p = Some j \/ j ∈ L.
Proof.
  revert p. induction L as [|i L IH]; intros p; simpl; [by left|].
  intros [[= ->]|H]%IH; right; set_solver.
Qed.

Lemma first_elem L q j : first L q = Some j -> q = Some j \/ j ∈ L.
Proof. destruct L; simpl; [by left|]. intros [= ->]. right. set_solver. Qed.

Lemma linked_lookup ns l p L q i :
  linked ns l p L q -> i ∈ L -> exists n, ns !! i = Some n /\ n_list n = l.
Proof.
  revert p. induction L as [|j L IH]; intros p; simpl; [set_solver|].
  intros (n & ? & ? & _ & _ & H) [->|Hi]%list.elem_of_cons; eauto.
Qed.

(** The links of a node. *)
Definition same_links (n n' : Node) : Prop :=
  n_list n' = n_list n /\ n_prev n' = n_prev n /\ n_next n' = n_next n.

Lemma linked_frame ns ns' l p L q :
  linked ns l p L q ->
  (forall j n, j ∈ L -> ns !! j = Some n -> exists n', ns' !! j = Some n' /\ same_links n n') ->
  linked ns' l p L q.
Proof.
  revert p. induction L as [|i L IH]; intros p; simpl; [done|].
  intros (n & Hn & Hl & Hp & Hq & H) Hs.
  destruct (Hs i n) as (n' & Hn' & El & Ep & Eq); [set_solver|done|].
  exists n'. split_and!; try congruence. apply IH; [done|]. intros j nj Hj. apply Hs. set_solver.
Qed.

(** Changing what the last node of a sequence links to. *)
Lemma linked_set_next ns ns' l p L q q' :
  linked ns l p L q -> NoDup L ->
  (forall j n, j ∈ L -> ns !! j = Some n -> exists n', ns' !! j = Some n' /\
     n_list n' = n_list n /\ n_prev n' = n_prev n /\
     n_next n' = if decide (final None L = Some j) then q' else n_next n) ->
  linked ns' l p L q'.
Proof.
  revert p. induction L as [|i L IH]; intros p; simpl; [done|].
  intros (n & Hn & Hl & Hp & Hq & H) [Hni Hnd]%list.NoDup_cons Hs.
  destruct (Hs i n) as (n' & Hn' & El & Ep & Eq); [set_solver|done|].
  exists n'. split_and!; try congruence.
  - destruct L as [|k L]; simpl in *.
    + by rewrite decide_True in Eq by done.
    + rewrite decide_False in Eq; [congruence|].
      intros [[= <-]|?]%final_elem; set_solver.
  - apply IH; [done..|]. intros j nj Hj Hnj.
    destruct (Hs j nj) as (n2 & ? & ? & ? & Ej); [set_solver|done|].
    exists n2. split_and!; try done. rewrite Ej. destruct L; [set_solver|]. done.
Qed.

(** Changing what the first node of a sequence links to. *)
Lemma linked_set_prev ns ns' l p p' L q :
  linked ns l p L q -> NoDup L ->
  (forall j n, j ∈ L -> ns !! j = Some n -> exists n', ns' !! j = Some n' /\
     n_list n' = n_list n /\ n_next n' = n_next n /\
     n_prev n' = if decide (first L None = Some j) then p' else n_prev n) ->
  linked ns' l p' L q.
Proof.
  destruct L as [|i L]; simpl; [done|].
  intros (n & Hn & Hl & Hp & Hq & H) [Hni Hnd]%list.NoDup_cons Hs.
  destruct (Hs i n) as (n' & Hn' & El & En & Ep); [set_solver|done|].
  rewrite decide_True in Ep by done.
  exists n'. split_and!; try congruence.
  eapply linked_frame; [done|]. intros j nj Hj Hnj.
  destruct (Hs j nj) as (n2 & ? & ? & ? & Ej); [set_solver|done|].
  exists n2. split; [done|]. split_and!; try done. rewrite Ej, decide_False; [done|]. set_solver.
Qed.

(** ** Updates of nodes *)

Lemma set_node_ok i f c :
  is_Some (nodes c !! i) -> set_node i f c = (Ok tt, with_nodes (alter f i (nodes c)) c).
Proof.
  intros [n Hn]. unfold set_node, node. erewrite bind_lift; [|by rewrite Hn].
  unfold put. do 2 f_equal. symmetry. by apply alter_as_insert.
Qed.

(** [alter] at an optional index, as the neighbours of a node are. *)
Definition alter_opt {A} (f : A -> A) (o : option nat) (l : list A) : list A :=
  match o with Some i => alter f i l | None => l end.

Lemma lookup_alter_opt {A} (f : A -> A) o (j : nat) (l : list A) :
  alter_opt f o l !! j = (fun x => if decide (o = Some j) then f x else x) <$> l !! j.
Proof.
  destruct o as [i|]; simpl.
  - rewrite lookup_alter_if. destruct (l !! j); [|done]. simpl. f_equal.
    destruct (decide (j = i)) as [->|]; [by rewrite decide_True|]. by rewrite decide_False by congruence.
  - by destruct (l !! j).
Qed.

Lemma set_node_opt_ok o f c :
  (forall i, o = Some i -> is_Some (nodes c !! i)) ->
  match o with Some i => set_node i f | None => mret tt end c =
    (Ok tt, with_nodes (alter_opt f o (nodes c)) c).
Proof.
  destruct o as [i|]; simpl; intros H; [by apply set_node_ok, H|]. by destruct c.
Qed.

(** ** The four lists *)

Abbreviation lists := (ArcList -> list nat).

Definition upd (L : lists) (l : ArcList) (x : list nat) : lists :=
  fun l' => if decide (l' = l) then x else L l'.

Lemma upd_eq L l x : upd L l x l = x.
Proof. unfold upd. by rewrite decide_True. Qed.

Lemma upd_ne L l x l' : l' <> l -> upd L l x l' = L l'.
Proof. intros. unfold upd. by rewrite decide_False. Qed.

Record links_at (c : ArcReplacer) (l : ArcList) (L : list nat) : Prop := {
  la_most : most_recent (list_of c l) = first L None;
  la_least : least_recent (list_of c l) = final None L;
  la_length : h_length (list_of c l) = length L;
  la_nodup : NoDup L;
  la_linked : linked (nodes c) l None L None;
}.

Definition Links (c : ArcReplacer) (L : lists) : Prop := forall l, links_at c l (L l).

(** What a node holds apart from its links, and the rest of the replacer's state. *)
Definition payload (n : Node) : PageId * option FrameId * bool :=
  (n_page_id n, n_frame_id n, n_evictable n).

Record only_links (c c' : ArcReplacer) : Prop := {
  ol_payload : forall j, payload <$> nodes c' !! j = payload <$> nodes c !! j;
  ol_unused : unused_node_indices c' = unused_node_indices c;
  ol_free : forall j, j ∈ unused_node_indices c -> nodes c' !! j = nodes c !! j;
  ol_pages : page_indices c' = page_indices c;
  ol_frames : frame_indices c' = frame_indices c;
  ol_target : mru_target_size c' = mru_target_size c;
  ol_capacity : r_capacity c' = r_capacity c;
  ol_count : evictable_count c' = evictable_count c;
}.

#[export] Instance only_links_refl : Reflexive only_links.
Proof. by intros c; split. Qed.

#[export] Instance only_links_trans : Transitive only_links.
Proof.
  intros c1 c2 c3 [? Hu1 Hf1] [? Hu2 Hf2]. split; intros; try congruence.
  rewrite Hf2, Hf1; [done|done|]. by rewrite Hu1.
Qed.

(** No unused node is on a list. *)
Definition free_off (c : ArcReplacer) (L : lists) : Prop :=
  forall j, j ∈ unused_node_indices c -> forall l, j ∉ L l.

Lemma list_of_with_list l h c l' :
  list_of (with_list l h c) l' = if decide (l' = l) then h else list_of c l'.
Proof. by destruct l, l'. Qed.

Lemma Links_elem c L l i :
  Links c L -> i ∈ L l -> exists n, nodes c !! i = Some n /\ n_list n = l.
Proof. intros HL Hi. eapply linked_lookup; [apply (HL l)|done]. Qed.

Lemma Links_disjoint c L l l' i : Links c L -> i ∈ L l -> i ∈ L l' -> l = l'.
Proof.
  intros HL H1 H2. destruct (Links_elem _ _ _ _ HL H1) as (n & Hn & <-).
  destruct (Links_elem _ _ _ _ HL H2) as (n' & Hn' & <-). congruence.
Qed.

(** ** detach *)

Definition detached_nodes (i : nat) (p q : option nat) (ns : list Node) : list Node :=
  alter (set_next None) i (alter (set_prev None) i
    (alter_opt (set_prev p) q (alter_opt (set_next q) p ns))).

Ltac node_cases :=
  repeat first
    [ rewrite lookup_alter_if | rewrite lookup_alter_opt
    | match goal with H : _ !! _ = Some _ |- _ => rewrite H end
    | progress cbn [fmap option_fmap option_map] ].

Lemma detached_lookup i p q ns j n :
  ns !! j = Some n -> j <> i ->
  exists n', detached_nodes i p q ns !! j = Some n' /\ payload n' = payload n /\
    n_list n' = n_list n /\
    n_next n' = (if decide (p = Some j) then q else n_next n) /\
    n_prev n' = (if decide (q = Some j) then p else n_prev n).
Proof.
  intros Hn Hne. unfold detached_nodes. node_cases. eexists. split; [done|].
  rewrite !(decide_False (P := j = i)) by done. repeat case_decide; done.
Qed.

Lemma detached_free i p q ns j :
  j <> i -> p <> Some j -> q <> Some j -> detached_nodes i p q ns !! j = ns !! j.
Proof.
  intros Hi Hp Hq. unfold detached_nodes. node_cases. destruct (ns !! j); [|done]. simpl.
  by rewrite !decide_False by congruence.
Qed.

Lemma detached_payload i p q ns j : payload <$> detached_nodes i p q ns !! j = payload <$> ns !! j.
Proof.
  unfold detached_nodes. node_cases. destruct (ns !! j); [|done]. simpl.
  repeat case_decide; done.
Qed.

(** The links of a sequence after its middle node is detached. *)
Lemma linked_detach ns l L1 i L2 :
  linked ns l None (L1 ++ i :: L2) None -> NoDup (L1 ++ i :: L2) ->
  linked (detached_nodes i (final None L1) (first L2 None) ns) l None (L1 ++ L2) None.
Proof.
  intros Hl Hnd. apply linked_app in Hl as [H1 (n & Hn & _ & Hp & Hq & H2)]. simpl in H1.
  apply list.NoDup_app in Hnd as (Hnd1 & Hdis & [Hi2 Hnd2]%list.NoDup_cons).
  apply linked_app. split.
  - eapply linked_set_next; [exact H1|done|]. intros j nj Hj Hnj.
    destruct (detached_lookup i (final None L1) (first L2 None) ns j nj)
      as (n' & ? & _ & El & En & Ep); [done|set_solver|].
    exists n'. split_and!; try done. rewrite Ep, decide_False; [done|].
    intros [?|?]%first_elem; [done|]. set_solver.
  - eapply linked_set_prev; [exact H2|done|]. intros j nj Hj Hnj.
    destruct (detached_lookup i (final None L1) (first L2 None) ns j nj)
      as (n' & ? & _ & El & En & Ep); [done|set_solver|].
    exists n'. split_and!; try done. rewrite En, decide_False; [done|].
    intros [?|?]%final_elem; [done|]. set_solver.
Qed.

Lemma linked_detach_other ns l l' L1 i L2 L' :
  linked ns l None (L1 ++ i :: L2) None -> linked ns l' None L' None -> l <> l' ->
  linked (detached_nodes i (final None L1) (first L2 None) ns) l' None L' None.
Proof.
  intros Hl Hl' Hne. eapply linked_frame; [exact Hl'|]. intros j nj Hj Hnj.
  assert (Hj' : j ∉ L1 ++ i :: L2).
  { intros Hin. destruct (linked_lookup _ _ _ _ _ _ Hl Hin) as (? & ? & ?).
    destruct (linked_lookup _ _ _ _ _ _ Hl' Hj) as (? & ? & ?). congruence. }
  destruct (detached_lookup i (final None L1) (first L2 None) ns j nj)
    as (n' & ? & _ & El & En & Ep); [done|set_solver|].
  exists n'. split; [done|]. split_and!; try done.
  - rewrite Ep, decide_False; [done|]. intros [?|?]%first_elem; [done|]. set_solver.
  - rewrite En, decide_False; [done|]. intros [?|?]%final_elem; [done|]. set_solver.
Qed.

Lemma first_detach L1 i L2 :
  NoDup (L1 ++ i :: L2) ->
  (if decide (first (L1 ++ i :: L2) None = Some i) then first L2 None
   else first (L1 ++ i :: L2) None) = first (L1 ++ L2) None.
Proof.
  intros Hnd. destruct L1 as [|k L1]; simpl; [by rewrite decide_True|].
  rewrite decide_False; [done|]. intros [= ->].
  apply list.NoDup_cons in Hnd as [Hk _]. set_solver.
Qed.

Lemma final_detach L1 i L2 :
  NoDup (L1 ++ i :: L2) ->
  (if decide (final None (L1 ++ i :: L2) = Some i) then final None L1
   else final None (L1 ++ i :: L2)) = final None (L1 ++ L2).
Proof.
  intros (_ & _ & [Hi _]%list.NoDup_cons)%list.NoDup_app. rewrite !final_app. simpl.
  destruct L2 as [|k L2]; simpl; [by rewrite decide_True|].
  rewrite decide_False; [done|]. intros [[= ->]|?]%final_elem; set_solver.
Qed.

Lemma list_of_with_nodes ns c l : list_of (with_nodes ns c) l = list_of c l.
Proof. by destruct l. Qed.

Lemma with_list_twice l h h' c : with_list l h (with_list l h' c) = with_list l h c.
Proof. by destruct l. Qed.

Lemma with_list_nodes l h ns c : with_list l h (with_nodes ns c) = with_nodes ns (with_list l h c).
Proof. done. Qed.

Lemma with_nodes_twice ns ns' c : with_nodes ns (with_nodes ns' c) = with_nodes ns c.
Proof. done. Qed.

(** Normal form of a replacer after updates of nodes and list heads. *)
Ltac norm_list :=
  repeat first
    [ rewrite with_list_nodes | rewrite with_nodes_twice | rewrite with_list_twice
    | rewrite list_of_with_nodes
    | rewrite list_of_with_list, decide_True by done
    | progress cbn [most_recent least_recent h_length] ].

Lemma detach_ok c L l L1 i L2 :
  Links c L -> free_off c L -> L l = L1 ++ i :: L2 ->
  exists c', detach i c = (Ok tt, c') /\ Links c' (upd L l (L1 ++ L2)) /\ only_links c c'.
Proof.
  intros HL Hfree Hl. pose proof (HL l) as [Hm Hf Hlen Hnd Hk]. rewrite Hl in *.
  pose proof Hk as (H1 & n & Hn & El & Ep & Eq & H2)%linked_app. simpl in *.
  assert (Hsome : forall j, j ∈ L1 ++ i :: L2 -> is_Some (nodes c !! j)).
  { intros j Hj. destruct (linked_lookup _ _ _ _ _ _ Hk Hj) as (? & -> & _). eauto. }
  unfold detach, node. erewrite bind_lift by by rewrite Hn.
  unfold asks at 1. erewrite bind_Ok by reflexivity.
  rewrite El, Hlen, length_app. simpl. rewrite Nat.add_succ_r.
  erewrite bind_liftc by reflexivity. unfold put. erewrite bind_Ok by reflexivity.
  erewrite bind_Ok.
  2:{ apply set_node_opt_ok. intros j Hj. rewrite Ep in Hj. apply Hsome.
      apply final_elem in Hj as [?|?]; [done|set_solver]. }
  erewrite bind_Ok.
  2:{ apply set_node_opt_ok. intros j Hj. rewrite Eq in Hj. simpl. rewrite lookup_alter_opt.
      apply fmap_is_Some, Hsome. apply first_elem in Hj as [?|?]; [done|set_solver]. }
  erewrite bind_Ok.
  2:{ apply set_node_ok. simpl. rewrite !lookup_alter_opt, Hn. simpl. eauto. }
  rewrite set_node_ok.
  2:{ simpl. rewrite lookup_alter_if, !lookup_alter_opt, Hn. simpl. eauto. }
  rewrite Ep, Eq, Hm, Hf, first_detach, final_detach by done.
  eexists. split; [reflexivity|].
  set (h := mkHead _ _ _).
  change (Links (with_nodes (detached_nodes i (final None L1) (first L2 None) (nodes c))
      (with_list l h c)) (upd L l (L1 ++ L2)) /\
    only_links c (with_nodes (detached_nodes i (final None L1) (first L2 None) (nodes c))
      (with_list l h c))).
  split; [|split; try done; intros j; [apply detached_payload|]].
  2:{ intros Hj%Hfree. specialize (Hj l). rewrite Hl in Hj.
      apply detached_free; [set_solver|intros [?|?]%final_elem|intros [?|?]%first_elem]; done || set_solver. }
  intros l'. unfold upd. split; rewrite ?list_of_with_nodes, ?list_of_with_list;
    destruct (decide (l' = l)) as [->|Hne]; try apply (HL l'); try done.
  - simpl. by rewrite length_app.
  - apply list.NoDup_app in Hnd as (? & ? & [? ?]%list.NoDup_cons).
    apply list.NoDup_app. split_and!; try done. set_solver.
  - by apply linked_detach.
  - eapply linked_detach_other; [done|apply (HL l')|done].
Qed.

(** ** push and insert_after *)

Definition inserted_nodes (i : nat) (l : ArcList) (p q : option nat) (ns : list Node) : list Node :=
  alter_opt (set_prev (Some i)) q (alter (set_next q) i (alter (set_prev p) i
    (alter (set_list l) i (alter_opt (set_next (Some i)) p ns)))).

Lemma inserted_lookup i l p q ns j n :
  ns !! j = Some n -> j <> i ->
  exists n', inserted_nodes i l p q ns !! j = Some n' /\ n_list n' = n_list n /\
    n_next n' = (if decide (p = Some j) then Some i else n_next n) /\
    n_prev n' = (if decide (q = Some j) then Some i else n_prev n).
Proof.
  intros Hn Hne. unfold inserted_nodes. node_cases. eexists. split; [done|].
  rewrite !(decide_False (P := j = i)) by done. repeat case_decide; done.
Qed.

Lemma inserted_lookup_eq i l p q ns n :
  ns !! i = Some n -> p <> Some i -> q <> Some i ->
  exists n', inserted_nodes i l p q ns !! i = Some n' /\ n_list n' = l /\
    n_next n' = q /\ n_prev n' = p.
Proof.
  intros Hn Hp Hq. unfold inserted_nodes. node_cases. eexists. split; [done|].
  rewrite !(decide_True (P := i = i)) by done. rewrite !decide_False by done. done.
Qed.

Lemma inserted_free i l p q ns j :
  j <> i -> p <> Some j -> q <> Some j -> inserted_nodes i l p q ns !! j = ns !! j.
Proof.
  intros Hi Hp Hq. unfold inserted_nodes. node_cases. destruct (ns !! j); [|done]. simpl.
  by rewrite !decide_False by congruence.
Qed.

Lemma inserted_payload i l p q ns j :
  payload <$> inserted_nodes i l p q ns !! j = payload <$> ns !! j.
Proof.
  unfold inserted_nodes. node_cases. destruct (ns !! j); [|done]. simpl.
  repeat case_decide; done.
Qed.

Lemma linked_insert ns l L1 i L2 n :
  linked ns l None (L1 ++ L2) None -> NoDup (L1 ++ L2) -> i ∉ L1 ++ L2 -> ns !! i = Some n ->
  linked (inserted_nodes i l (final None L1) (first L2 None) ns) l None (L1 ++ i :: L2) None.
Proof.
  intros Hl Hnd Hi Hn. apply linked_app in Hl as [H1 H2].
  apply list.NoDup_app in Hnd as (Hnd1 & Hdis & Hnd2).
  apply linked_app. split; simpl.
  - eapply linked_set_next; [exact H1|done|]. intros j nj Hj Hnj.
    destruct (inserted_lookup i l (final None L1) (first L2 None) ns j nj)
      as (n' & ? & El & En & Ep); [done|set_solver|].
    exists n'. split_and!; try done. rewrite Ep, decide_False; [done|].
    intros [?|?]%first_elem; [done|]. set_solver.
  - destruct (inserted_lookup_eq i l (final None L1) (first L2 None) ns n)
      as (n' & Hn' & El & En & Ep); [done|..].
    { intros [?|?]%final_elem; [done|]. set_solver. }
    { intros [?|?]%first_elem; [done|]. set_solver. }
    exists n'. split_and!; try done. eapply linked_set_prev; [exact H2|done|]. intros j nj Hj Hnj.
    destruct (inserted_lookup i l (final None L1) (first L2 None) ns j nj)
      as (n2 & ? & El2 & En2 & Ep2); [done|set_solver|].
    exists n2. split_and!; try done. rewrite En2, decide_False; [done|].
    intros [?|?]%final_elem; [done|]. set_solver.
Qed.

Lemma linked_insert_other ns l l' L1 i L2 L' :
  linked ns l None (L1 ++ L2) None -> linked ns l' None L' None -> l <> l' -> i ∉ L' ->
  linked (inserted_nodes i l (final None L1) (first L2 None) ns) l' None L' None.
Proof.
  intros Hl Hl' Hne Hi. eapply linked_frame; [exact Hl'|]. intros j nj Hj Hnj.
  assert (Hj' : j ∉ L1 ++ L2).
  { intros Hin. destruct (linked_lookup _ _ _ _ _ _ Hl Hin) as (? & ? & ?).
    destruct (linked_lookup _ _ _ _ _ _ Hl' Hj) as (? & ? & ?). congruence. }
  destruct (inserted_lookup i l (final None L1) (first L2 None) ns j nj)
    as (n' & ? & El & En & Ep); [done|set_solver|].
  exists n'. split; [done|]. split_and!; try done.
  - rewrite Ep, decide_False; [done|]. intros [?|?]%first_elem; [done|]. set_solver.
  - rewrite En, decide_False; [done|]. intros [?|?]%final_elem; [done|]. set_solver.
Qed.

(** The replacer with node [i] inserted between [L1] and [L2] of list [l]. *)
Definition inserted_replacer (i : nat) (l : ArcList) (L1 L2 : list nat) (c : ArcReplacer) :=
  with_nodes (inserted_nodes i l (final None L1) (first L2 None) (nodes c))
    (with_list l (mkHead (first (L1 ++ i :: L2) None) (final None (L1 ++ i :: L2))
       (S (length L1 + length L2))) c).

Lemma inserted_links c L l L1 i L2 :
  Links c L -> free_off c L -> i ∉ unused_node_indices c ->
  L l = L1 ++ L2 -> (forall l', i ∉ L l') -> is_Some (nodes c !! i) ->
  Links (inserted_replacer i l L1 L2 c) (upd L l (L1 ++ i :: L2)) /\
  only_links c (inserted_replacer i l L1 L2 c).
Proof.
  intros HL Hfree Hiu Hl Hi [n Hn]. pose proof (HL l) as [Hm Hf Hlen Hnd Hk]. rewrite Hl in *.
  pose proof (Hi l) as Hil. rewrite Hl in Hil.
  split; [|split; try done; intros j; [apply inserted_payload|]].
  2:{ intros Hju. pose proof (Hfree j Hju l) as Hj. rewrite Hl in Hj.
      apply inserted_free; [congruence|intros [?|?]%final_elem|intros [?|?]%first_elem]; done || set_solver. }
  intros l'. unfold upd. split; unfold inserted_replacer;
    rewrite ?list_of_with_nodes, ?list_of_with_list;
    destruct (decide (l' = l)) as [->|Hne]; try apply (HL l'); try done.
  - rewrite length_app. simpl. lia.
  - apply list.NoDup_app in Hnd as (? & ? & ?).
    apply list.NoDup_app. split_and!; try done; [set_solver|]. apply list.NoDup_cons. set_solver.
  - by eapply linked_insert.
  - eapply linked_insert_other; [done|apply (HL l')|done|done].
Qed.

Lemma push_ok c L l i :
  Links c L -> free_off c L -> i ∉ unused_node_indices c ->
  (forall l', i ∉ L l') -> is_Some (nodes c !! i) ->
  exists c', push i l c = (Ok tt, c') /\ Links c' (upd L l (i :: L l)) /\ only_links c c'.
Proof.
  intros HL Hfree Hiu Hi Hn. exists (inserted_replacer i l [] (L l) c).
  pose proof (inserted_links c L l [] i (L l) HL Hfree Hiu eq_refl Hi Hn) as [HL' Ho].
  split; [|done]. pose proof (HL l) as [Hm Hf Hlen Hnd Hk].
  unfold push. unfold asks at 1, put. erewrite bind_Ok by reflexivity.
  erewrite bind_Ok by reflexivity.
  do 3 (erewrite bind_Ok;
    [|apply set_node_ok; simpl; rewrite ?lookup_alter_if; by repeat apply fmap_is_Some]).
  rewrite Hm, Hf, Hlen. rewrite set_node_opt_ok.
  - unfold inserted_replacer. by destruct (L l).
  - intros j Hj. simpl. rewrite !lookup_alter_if. do 3 apply fmap_is_Some.
    apply first_elem in Hj as [?|Hj]; [done|].
    destruct (Links_elem _ _ _ _ HL Hj) as (? & -> & _). eauto.
Qed.

Lemma insert_after_ok c L l L1 m L2 i :
  Links c L -> free_off c L -> i ∉ unused_node_indices c ->
  L l = L1 ++ m :: L2 -> (forall l', i ∉ L l') -> is_Some (nodes c !! i) ->
  exists c', insert_after i l (Some m) c = (Ok tt, c') /\
    Links c' (upd L l (L1 ++ m :: i :: L2)) /\ only_links c c'.
Proof.
  intros HL Hfree Hiu Hl Hi Hn. exists (inserted_replacer i l (L1 ++ [m]) L2 c).
  destruct (inserted_links c L l (L1 ++ [m]) i L2) as [HL' Ho]; try done.
  { by rewrite <- app_assoc. }
  rewrite <- app_assoc in HL'. split; [|done].
  pose proof (HL l) as [Hm Hf Hlen Hnd Hk]. rewrite Hl in *.
  assert (Hsome : forall j, j ∈ L1 ++ m :: L2 -> is_Some (nodes c !! j)).
  { intros j Hj. destruct (linked_lookup _ _ _ _ _ _ Hk Hj) as (? & -> & _). eauto. }
  pose proof Hk as (H1 & n & Hnm & El & Ep & Eq & H2)%linked_app.
  unfold insert_after, node. erewrite bind_lift by by rewrite Hnm.
  erewrite bind_Ok; [|apply set_node_ok; eauto].
  do 3 (erewrite bind_Ok;
    [|apply set_node_ok; simpl; rewrite ?lookup_alter_if; by repeat apply fmap_is_Some]).
  assert (Hfin : final None (L1 ++ [m]) = Some m) by by rewrite final_app.
  unfold inserted_replacer. rewrite Hfin, Eq. destruct L2 as [|k L2]; simpl.
  - unfold put. erewrite bind_Ok by reflexivity. norm_list. rewrite Hm, Hlen.
    do 4 f_equal; rewrite ?first_app, ?final_app, ?length_app; simpl; try done; lia.
  - erewrite bind_Ok.
    2:{ apply set_node_ok. simpl. rewrite !lookup_alter_if. do 4 apply fmap_is_Some.
        apply Hsome. set_solver. }
    unfold put. norm_list. rewrite Hm, Hf, Hlen.
    do 4 f_equal; rewrite ?first_app, ?final_app, ?length_app; simpl; try done; lia.
Qed.
