(* ===== verification/ReplacerCore.v ===== *)
(** * The arena of the replacer

    The nodes of a replacer together with what they hold: [Core c Z] says that the four
    lists of [c] are the lists of (index, entry) pairs [Z], and that every node of the arena
    is either on one of them or free. *)

From Stdlib Require Import ZArith Lia.
From stdpp Require Import base list gmap option.
From S2P Require Import Prelude Ids Replacer ReplacerLinks.
Import Replacer.

(** What a tracked page is to the algorithm. *)
Abbreviation entry := (PageId * option FrameId * bool)%type.
Definition e_page (e : entry) : PageId := e.1.1.
Definition e_frame (e : entry) : option FrameId := e.1.2.
Definition e_evictable (e : entry) : bool := e.2.

Abbreviation pairs := (ArcList -> list (nat * entry)).
Definition indices (Z : pairs) : lists := fun l => (Z l).*1.

Definition zupd (Z : pairs) (l : ArcList) (x : list (nat * entry)) : pairs :=
  fun l' => if decide (l' = l) then x else Z l'.

Lemma zupd_eq Z l x : zupd Z l x l = x.
Proof. unfold zupd. by rewrite decide_True. Qed.

Lemma zupd_ne Z l x l' : l' <> l -> zupd Z l x l' = Z l'.
Proof. intros. unfold zupd. by rewrite decide_False. Qed.

(** All indices on the four lists. *)
Definition all_indices (L : lists) : list nat := L Mru ++ L Mfu ++ L GhostMru ++ L GhostMfu.

Lemma all_indices_insert L l L1 i L2 :
  L l = L1 ++ L2 -> all_indices (upd L l (L1 ++ i :: L2)) ≡ₚ i :: all_indices L.
Proof.
  intros H. unfold all_indices. destruct l; rewrite upd_eq, !upd_ne, H by done.
  all: repeat rewrite <- ?app_assoc, <- ?app_comm_cons; rewrite <- ?Permutation_middle; try done.
  all: rewrite !(app_assoc _ _ (i :: _)), <- Permutation_middle, <- !app_assoc; done.
Qed.

Lemma all_indices_elem L i : i ∈ all_indices L <-> exists l, i ∈ L l.
Proof.
  unfold all_indices. rewrite !elem_of_app. split.
  - intros [?|[?|[?|?]]]; eauto.
  - intros [[] ?]; auto.
Qed.

Record Core (c : ArcReplacer) (Z : pairs) : Prop := {
  co_links : Links c (indices Z);
  co_payload : forall l i e, (i, e) ∈ Z l -> payload <$> nodes c !! i = Some e;
  co_arena : unused_node_indices c ++ all_indices (indices Z) ≡ₚ seq 0 (length (nodes c));
}.

Section core.
Context (c : ArcReplacer) (Z : pairs) (HC : Core c Z).

Lemma core_nodup : NoDup (unused_node_indices c ++ all_indices (indices Z)).
Proof using HC. rewrite (co_arena _ _ HC). apply NoDup_seq. Qed.

Lemma core_index l i e : (i, e) ∈ Z l -> i ∈ indices Z l.
Proof using. intros H. apply list_elem_of_fmap. by exists (i, e). Qed.

Lemma core_elem l i e : (i, e) ∈ Z l -> exists n, nodes c !! i = Some n /\ payload n = e /\ n_list n = l.
Proof using HC.
  intros H. pose proof (co_payload _ _ HC _ _ _ H) as Hp.
  destruct (Links_elem _ _ _ _ (co_links _ _ HC) (core_index _ _ _ H)) as (n & Hn & Hl).
  rewrite Hn in Hp. exists n. simpl in Hp. split_and!; congruence.
Qed.

Lemma core_unique l l' i e e' : (i, e) ∈ Z l -> (i, e') ∈ Z l' -> l = l' /\ e = e'.
Proof using HC.
  intros H1 H2. destruct (core_elem _ _ _ H1) as (n & Hn & <- & <-).
  destruct (core_elem _ _ _ H2) as (n' & Hn' & <- & <-). by simplify_eq.
Qed.

Lemma core_free i : i ∈ unused_node_indices c -> forall l, i ∉ indices Z l.
Proof using HC.
  intros Hi l Hl. pose proof core_nodup as (_ & Hd & _)%list.NoDup_app.
  apply (Hd i Hi), all_indices_elem. eauto.
Qed.

Lemma core_is_some i : i ∈ unused_node_indices c \/ (exists l, i ∈ indices Z l) -> is_Some (nodes c !! i).
Proof using HC.
  intros H. apply lookup_lt_is_Some.
  assert (Hin : i ∈ unused_node_indices c ++ all_indices (indices Z)).
  { rewrite elem_of_app, all_indices_elem. done. }
  rewrite (co_arena _ _ HC) in Hin. apply elem_of_seq in Hin. lia.
Qed.
End core.

(** ** Index lists of updated pairs *)

Lemma indices_zupd Z l x l' : indices (zupd Z l x) l' = upd (indices Z) l x.*1 l'.
Proof. unfold indices, zupd, upd. by case_decide. Qed.

Lemma Links_ext c L L' : (forall l, L l = L' l) -> Links c L -> Links c L'.
Proof. intros H HL l. rewrite <- H. apply HL. Qed.

Lemma all_indices_ext L L' : (forall l, L l = L' l) -> all_indices L = all_indices L'.
Proof. intros H. unfold all_indices. by rewrite !H. Qed.

(** ** Nodes off the lists

    [Pending c Z i e]: node [i], holding [e], is on no list and not free either. *)

Record Pending (c : ArcReplacer) (Z : pairs) (i : nat) (e : entry) : Prop := {
  pe_links : Links c (indices Z);
  pe_payload : forall l j e', (j, e') ∈ Z l -> payload <$> nodes c !! j = Some e';
  pe_node : payload <$> nodes c !! i = Some e;
  pe_arena : unused_node_indices c ++ i :: all_indices (indices Z) ≡ₚ seq 0 (length (nodes c));
}.

(** The fields that hold the lists. *)
Record same_lists (c c' : ArcReplacer) : Prop := {
  sl_nodes : nodes c' = nodes c;
  sl_unused : unused_node_indices c' = unused_node_indices c;
  sl_heads : forall l, list_of c' l = list_of c l;
}.

Lemma same_lists_links c c' L : same_lists c c' -> Links c L -> Links c' L.
Proof. intros [Hn _ Hh] HL l. destruct (HL l). by split; rewrite ?Hh, ?Hn. Qed.

Lemma same_lists_core c c' Z : same_lists c c' -> Core c Z -> Core c' Z.
Proof.
  intros S [HL Hp Ha]. pose proof S as [Hn Hu Hh].
  split; rewrite ?Hn, ?Hu; eauto using same_lists_links.
Qed.

Lemma same_lists_pending c c' Z i e : same_lists c c' -> Pending c Z i e -> Pending c' Z i e.
Proof.
  intros S [HL Hp Hi Ha]. pose proof S as [Hn Hu Hh].
  split; rewrite ?Hn, ?Hu; eauto using same_lists_links.
Qed.

Lemma only_links_length c c' : only_links c c' -> length (nodes c') = length (nodes c).
Proof.
  intros H. apply Nat.le_antisymm; apply Nat.nlt_ge; intros Hlt;
    apply lookup_lt_is_Some in Hlt as [n Hn].
  - pose proof (ol_payload _ _ H (length (nodes c))) as Hp. rewrite Hn in Hp.
    rewrite (lookup_ge_None_2 (nodes c)) in Hp by lia. done.
  - pose proof (ol_payload _ _ H (length (nodes c'))) as Hp. rewrite Hn in Hp.
    rewrite (lookup_ge_None_2 (nodes c')) in Hp by lia. done.
Qed.

Lemma pending_absent c Z i e : Pending c Z i e -> forall l, i ∉ indices Z l.
Proof.
  intros [_ _ _ Ha] l Hl.
  assert (Hnd : NoDup (unused_node_indices c ++ i :: all_indices (indices Z))).
  { rewrite Ha. apply NoDup_seq. }
  apply list.NoDup_app in Hnd as (_ & _ & [Hni _]%list.NoDup_cons).
  apply Hni, all_indices_elem. eauto.
Qed.

Lemma pending_off c Z i e : Pending c Z i e -> free_off c (indices Z) /\ i ∉ unused_node_indices c.
Proof.
  intros [_ _ _ Ha].
  assert (Hnd : NoDup (unused_node_indices c ++ i :: all_indices (indices Z))).
  { rewrite Ha. apply NoDup_seq. }
  apply list.NoDup_app in Hnd as (_ & Hd & _). split.
  - intros j Hj l Hl. apply (Hd j Hj), list.elem_of_cons. right. apply all_indices_elem. eauto.
  - intros Hi. apply (Hd i Hi). set_solver.
Qed.

Lemma pending_some c Z i e : Pending c Z i e -> is_Some (nodes c !! i).
Proof. intros [_ _ Hi _]. destruct (nodes c !! i); [eauto|done]. Qed.

(** Taking a node off its list. *)
Lemma core_detach c Z l Z1 i e Z2 :
  Core c Z -> Z l = Z1 ++ (i, e) :: Z2 ->
  exists c', detach i c = (Ok tt, c') /\ Pending c' (zupd Z l (Z1 ++ Z2)) i e /\ only_links c c'.
Proof.
  intros HC Hl.
  destruct (detach_ok c (indices Z) l Z1.*1 i Z2.*1) as (c' & He & HL & Ho).
  { apply HC. } { exact (core_free c Z HC). } { unfold indices. by rewrite Hl, fmap_app. }
  exists c'. split_and!; try done.
  assert (Hext : forall l', upd (indices Z) l (Z1.*1 ++ Z2.*1) l' = indices (zupd Z l (Z1 ++ Z2)) l').
  { intros l'. rewrite indices_zupd. by rewrite fmap_app. }
  split.
  - eapply Links_ext; [exact Hext|done].
  - intros l' j e' Hj. rewrite (ol_payload _ _ Ho). apply (co_payload _ _ HC l').
    unfold zupd in Hj. case_decide; [subst|done]. rewrite Hl. set_solver.
  - rewrite (ol_payload _ _ Ho). apply (co_payload _ _ HC l). rewrite Hl. set_solver.
  - rewrite (ol_unused _ _ Ho), (only_links_length _ _ Ho), <- (co_arena _ _ HC).
    apply Permutation_app_head. rewrite <- (all_indices_ext _ _ Hext).
    symmetry. rewrite <- (all_indices_insert _ l Z1.*1 i Z2.*1) by by rewrite upd_eq.
    unfold all_indices. unfold upd, indices. repeat case_decide; simplify_eq;
      by rewrite ?Hl, ?fmap_app.
Qed.

(** Putting a node on a list: the state a link operation that inserts it leaves. *)
Lemma pending_inserted c c' Z l Z1 i e Z2 :
  Pending c Z i e -> Z l = Z1 ++ Z2 -> only_links c c' ->
  Links c' (upd (indices Z) l (Z1.*1 ++ i :: Z2.*1)) ->
  Core c' (zupd Z l (Z1 ++ (i, e) :: Z2)).
Proof.
  intros HP Hl Ho HL.
  assert (Hext : forall l', upd (indices Z) l (Z1.*1 ++ i :: Z2.*1) l' =
    indices (zupd Z l (Z1 ++ (i, e) :: Z2)) l').
  { intros l'. rewrite indices_zupd. by rewrite fmap_app. }
  split.
  - eapply Links_ext; [exact Hext|done].
  - intros l' j e' Hj. rewrite (ol_payload _ _ Ho). unfold zupd in Hj. case_decide.
    + subst. apply elem_of_app in Hj as [Hj|[[= -> ->]|Hj]%list.elem_of_cons].
      * apply (pe_payload _ _ _ _ HP l). rewrite Hl. set_solver.
      * apply HP.
      * apply (pe_payload _ _ _ _ HP l). rewrite Hl. set_solver.
    + by apply (pe_payload _ _ _ _ HP l').
  - rewrite (ol_unused _ _ Ho), (only_links_length _ _ Ho), <- (pe_arena _ _ _ _ HP).
    apply Permutation_app_head. rewrite <- (all_indices_ext _ _ Hext).
    apply all_indices_insert. unfold indices. by rewrite Hl, fmap_app.
Qed.

Lemma core_push c Z i e l :
  Pending c Z i e ->
  exists c', push i l c = (Ok tt, c') /\ Core c' (zupd Z l ((i, e) :: Z l)) /\ only_links c c'.
Proof.
  intros HP. destruct (pending_off _ _ _ _ HP) as [Hoff Hiu].
  destruct (push_ok c (indices Z) l i) as (c' & He & HL & Ho);
    [apply HP|done|done|by eapply pending_absent|by eapply pending_some|].
  exists c'. split_and!; try done. by apply (pending_inserted c c' Z l []).
Qed.

Lemma core_insert_after c Z i e l Z1 m em Z2 :
  Pending c Z i e -> Z l = Z1 ++ (m, em) :: Z2 ->
  exists c', insert_after i l (Some m) c = (Ok tt, c') /\
    Core c' (zupd Z l (Z1 ++ (m, em) :: (i, e) :: Z2)) /\ only_links c c'.
Proof.
  intros HP Hl. destruct (pending_off _ _ _ _ HP) as [Hoff Hiu].
  destruct (insert_after_ok c (indices Z) l Z1.*1 m Z2.*1 i) as (c' & He & HL & Ho);
    [apply HP|done|done|unfold indices; by rewrite Hl, fmap_app|by eapply pending_absent
    |by eapply pending_some|].
  exists c'. split_and!; try done.
  replace (Z1 ++ (m, em) :: (i, e) :: Z2) with ((Z1 ++ [(m, em)]) ++ (i, e) :: Z2)
    by by rewrite <- app_assoc.
  apply (pending_inserted c); try done; [by rewrite <- app_assoc|].
  rewrite fmap_app, <- app_assoc. done.
Qed.

(** [move_to_front]: off one list and onto the front of another, or of the same one. *)
Definition moved (Z : pairs) (l : ArcList) (Z' : list (nat * entry)) (l' : ArcList)
    (x : nat * entry) : pairs :=
  let Zd := zupd Z l Z' in zupd Zd l' (x :: Zd l').

Lemma core_move c Z l Z1 i e Z2 l' :
  Core c Z -> Z l = Z1 ++ (i, e) :: Z2 ->
  exists c', move_to_front i l' c = (Ok tt, c') /\ Core c' (moved Z l (Z1 ++ Z2) l' (i, e)) /\
    only_links c c'.
Proof.
  intros HC Hl. destruct (core_detach c Z l Z1 i e Z2 HC Hl) as (c1 & H1 & HP & O1).
  destruct (core_push _ _ _ _ l' HP) as (c2 & H2 & HC2 & O2).
  exists c2. unfold move_to_front. erewrite bind_Ok by exact H1.
  split_and!; try done. by etrans.
Qed.

(** Freeing a detached node. *)
Lemma pending_drop c c' Z i e :
  Pending c Z i e -> nodes c' = nodes c -> unused_node_indices c' = unused_node_indices c ++ [i] ->
  (forall l, list_of c' l = list_of c l) -> Core c' Z.
Proof.
  intros [HL Hp Hi Ha] Hn Hu Hh. split.
  - intros l. destruct (HL l). by split; rewrite ?Hh, ?Hn.
  - intros l j e' Hj. rewrite Hn. eauto.
  - rewrite Hn, Hu, <- Ha, <- app_assoc. done.
Qed.

(** The pairs other than the one of a node. *)
Lemma core_others c Z l Z1 i e Z2 l' j e' :
  Core c Z -> Z l = Z1 ++ (i, e) :: Z2 -> (j, e') ∈ zupd Z l (Z1 ++ Z2) l' ->
  j <> i /\ (j, e') ∈ Z l'.
Proof.
  intros HC Hl Hj. assert (Hin : (i, e) ∈ Z l) by (rewrite Hl; set_solver).
  assert (Hj' : (j, e') ∈ Z l').
  { unfold zupd in Hj. case_decide; [subst|done]. rewrite Hl. set_solver. }
  split; [|done]. intros ->. destruct (core_unique _ _ HC _ _ _ _ _ Hin Hj') as [<- <-].
  rewrite zupd_eq in Hj. pose proof (la_nodup _ _ _ (co_links _ _ HC l)) as Hnd.
  unfold indices in Hnd. rewrite Hl, fmap_app in Hnd.
  apply list.NoDup_app in Hnd as (_ & Hd & [Hi _]%list.NoDup_cons).
  apply elem_of_app in Hj as [Hj|Hj].
  - apply (Hd i); [apply list_elem_of_fmap; by exists (i, e)|]. set_solver.
  - apply Hi, list_elem_of_fmap. by exists (i, e).
Qed.

(** Changing what a node holds. *)
Lemma core_set c Z l Z1 i e Z2 f g :
  Core c Z -> Z l = Z1 ++ (i, e) :: Z2 ->
  (forall n, same_links n (f n) /\ payload (f n) = g (payload n)) ->
  set_node i f c = (Ok tt, with_nodes (alter f i (nodes c)) c) /\
  Core (with_nodes (alter f i (nodes c)) c) (zupd Z l (Z1 ++ (i, g e) :: Z2)).
Proof.
  intros HC Hl Hf. assert (Hin : (i, e) ∈ Z l) by (rewrite Hl; set_solver).
  destruct (core_elem _ _ HC _ _ _ Hin) as (n & Hn & He & Hnl).
  assert (Hext : forall l', indices Z l' = indices (zupd Z l (Z1 ++ (i, g e) :: Z2)) l').
  { intros l'. rewrite indices_zupd. unfold upd, indices. case_decide; [subst|done].
    by rewrite Hl, !fmap_app. }
  split; [apply set_node_ok; eauto|]. split.
  - eapply Links_ext; [exact Hext|]. intros l'. destruct (co_links _ _ HC l') as [Hm Hf' Hlen Hnd Hk].
    split; rewrite ?list_of_with_nodes; try done. eapply linked_frame; [exact Hk|].
    intros j nj Hj Hnj. simpl. rewrite lookup_alter_if, Hnj. eexists. split; [done|].
    case_decide; [apply Hf|done].
  - intros l' j e' Hj. simpl. rewrite lookup_alter_if.
    assert (Hc : (l' = l /\ j = i /\ e' = g e) \/ (j, e') ∈ zupd Z l (Z1 ++ Z2) l').
    { unfold zupd in *. case_decide; [subst|by right]. set_solver. }
    destruct Hc as [(-> & -> & ->)|Ho].
    + rewrite Hn. simpl. rewrite decide_True by done. by rewrite (proj2 (Hf n)), He.
    + destruct (core_others _ _ _ _ _ _ _ _ _ _ HC Hl Ho) as [Hne Hz].
      rewrite <- (co_payload _ _ HC _ _ _ Hz). destruct (nodes c !! j); [|done].
      simpl. by rewrite decide_False by done.
  - simpl. rewrite length_alter, <- (co_arena _ _ HC). by rewrite (all_indices_ext _ _ Hext).
Qed.

(** The unused nodes are left alone. *)
Definition free_kept (c c' : ArcReplacer) : Prop :=
  unused_node_indices c' = unused_node_indices c /\
  forall j, j ∈ unused_node_indices c -> nodes c' !! j = nodes c !! j.

#[export] Instance free_kept_trans : Transitive free_kept.
Proof. intros c1 c2 c3 [U1 F1] [U2 F2]. split; [congruence|]. intros j Hj. rewrite F2, F1; congruence. Qed.

Lemma only_links_free c c' : only_links c c' -> free_kept c c'.
Proof. intros O. split; apply O. Qed.

Lemma same_lists_free c c' : same_lists c c' -> free_kept c c'.
Proof. intros [Hn Hu _]. split; [done|]. intros. by rewrite Hn. Qed.

Lemma core_set_free c Z l i e f :
  Core c Z -> (i, e) ∈ Z l -> free_kept c (with_nodes (alter f i (nodes c)) c).
Proof.
  intros HC Hin. split; [done|]. intros j Hj. simpl. rewrite lookup_alter_if.
  destruct (nodes c !! j); [|done]. simpl. rewrite decide_False; [done|]. intros ->.
  apply (core_free _ _ HC i Hj l). by eapply core_index.
Qed.

(** A node for a new page. *)
Lemma alloc_ok c Z n :
  Core c Z ->
  exists i c', alloc_node n c = (Ok i, c') /\ Pending c' Z i (payload n) /\
    page_indices c' = page_indices c /\ frame_indices c' = frame_indices c /\
    mru_target_size c' = mru_target_size c /\ r_capacity c' = r_capacity c /\
    evictable_count c' = evictable_count c.
Proof.
  intros HC. unfold alloc_node. unfold asks at 1. erewrite bind_Ok by reflexivity.
  destruct (list.last (unused_node_indices c)) as [i|] eqn:Hu.
  - assert (Hus : unused_node_indices c = removelast (unused_node_indices c) ++ [i]).
    { apply last_Some in Hu as [us ->]. by rewrite removelast_last. }
    set (us := removelast _) in *.
    assert (Hi : i ∈ unused_node_indices c) by (rewrite Hus; set_solver).
    destruct (core_is_some _ _ HC i) as [n0 Hn0]; [by left|].
    pose proof (core_free _ _ HC i Hi) as Hfree.
    unfold put at 1. erewrite bind_Ok by reflexivity.
    erewrite bind_Ok by (apply set_node_ok; simpl; eauto).
    exists i. eexists. split; [done|]. split; [|done].
    assert (Hother : forall j, j <> i ->
      alter (fun _ => n) i (nodes c) !! j = nodes c !! j).
    { intros j Hne. rewrite lookup_alter_if. destruct (nodes c !! j); [|done].
      simpl. by rewrite decide_False. }
    assert (Hin : forall l j, j ∈ indices Z l -> j <> i) by (intros l j Hj ->; by eapply Hfree).
    split.
    + intros l. destruct (co_links _ _ HC l) as [Hm Hf Hlen Hnd Hk].
      split; try done; try (destruct l; done). simpl. eapply linked_frame; [exact Hk|].
      intros j nj Hj Hnj. exists nj. rewrite Hother by eauto. done.
    + intros l j e Hj. simpl. rewrite Hother by eauto using core_index. by apply (co_payload _ _ HC l).
    + simpl. rewrite lookup_alter_if, Hn0. simpl. by rewrite decide_True.
    + simpl. rewrite length_alter, <- (co_arena _ _ HC), Hus, <- app_assoc. done.
  - apply last_None in Hu. unfold asks, put. erewrite bind_Ok by reflexivity.
    erewrite bind_Ok by reflexivity. eexists _, _. split; [done|]. split; [|done].
    assert (Hin : forall l j, j ∈ indices Z l -> (nodes c ++ [n]) !! j = nodes c !! j).
    { intros l j Hj. apply lookup_app_l. apply lookup_lt_is_Some. apply (core_is_some _ _ HC). eauto. }
    split.
    + intros l. destruct (co_links _ _ HC l) as [Hm Hf Hlen Hnd Hk].
      split; try done; try (destruct l; done). simpl. eapply linked_frame; [exact Hk|].
      intros j nj Hj Hnj. exists nj. rewrite (Hin l) by done. done.
    + intros l j e Hj. simpl. rewrite (Hin l) by eauto using core_index. by apply (co_payload _ _ HC l).
    + simpl. by rewrite list_lookup_middle.
    + simpl. rewrite length_app, seq_app. simpl. rewrite <- (co_arena _ _ HC), Hu. simpl.
      apply Permutation_cons_append.
Qed.
