(* ===== verification/ReplacerSpec.v ===== *)
(** * ARC on lists

    The adaptive replacement cache as four lists of entries, most recent first: what the
    arena of [src/replacer.rs] implements. An operation that answers [None] is one the
    source refuses with a panic. *)

From Stdlib Require Import ZArith Lia.
From stdpp Require Import base list gmap option.
From S2P Require Import Prelude Ids Replacer ReplacerLinks ReplacerCore.

Record arc : Type := mkArc {
  a_mru : list entry;
  a_mfu : list entry;
  a_gmru : list entry;
  a_gmfu : list entry;
  a_target : nat;
  a_cap : nat;
}.

Definition aget (a : arc) (l : ArcList) : list entry :=
  match l with
  | Mru => a_mru a
  | Mfu => a_mfu a
  | GhostMru => a_gmru a
  | GhostMfu => a_gmfu a
  end.

Definition aset (a : arc) (l : ArcList) (x : list entry) : arc :=
  mkArc (match l with Mru => x | _ => a_mru a end) (match l with Mfu => x | _ => a_mfu a end)
    (match l with GhostMru => x | _ => a_gmru a end)
    (match l with GhostMfu => x | _ => a_gmfu a end) (a_target a) (a_cap a).

Definition with_atarget (a : arc) (t : nat) : arc :=
  mkArc (a_mru a) (a_mfu a) (a_gmru a) (a_gmfu a) t (a_cap a).

Lemma aget_aset a l x l' : aget (aset a l x) l' = if decide (l' = l) then x else aget a l'.
Proof. by destruct l, l'. Qed.

Definition arc_new (cap : nat) : arc := mkArc [] [] [] [] 0 cap.

(** The first entry that [P] holds of, with its list. *)
Definition a_find (P : entry -> bool) (a : arc) : option (ArcList * entry) :=
  match find P (a_mru a), find P (a_mfu a), find P (a_gmru a), find P (a_gmfu a) with
  | Some e, _, _, _ => Some (Mru, e)
  | None, Some e, _, _ => Some (Mfu, e)
  | None, None, Some e, _ => Some (GhostMru, e)
  | None, None, None, Some e => Some (GhostMfu, e)
  | None, None, None, None => None
  end.

Definition has_page (p : PageId) (e : entry) : bool := bool_decide (e_page e = p).
Definition has_frame (f : FrameId) (e : entry) : bool := bool_decide (e_frame e = Some f).

Definition drop_page (p : PageId) (l : list entry) : list entry :=
  List.filter (fun e => negb (has_page p e)) l.

(** Page [p] leaves list [l] and becomes the most recent entry [e] of list [l']. *)
Definition arc_move (p : PageId) (l l' : ArcList) (e : entry) (a : arc) : arc :=
  let a := aset a l (drop_page p (aget a l)) in
  aset a l' (e :: aget a l').

Definition ghost_of (l : ArcList) : ArcList :=
  match l with Mru | GhostMru => GhostMru | Mfu | GhostMfu => GhostMfu end.

(** The page that holds frame [f], if any, becomes a ghost. *)
Definition arc_give_up (f : FrameId) (a : arc) : bool * arc :=
  match a_find (has_frame f) a with
  | Some (l, e) => (true, arc_move (e_page e) l (ghost_of l) (e_page e, None, false) a)
  | None => (false, a)
  end.

Definition arc_full (a : arc) : bool := (a_cap a <=? length (a_mru a) + length (a_mfu a))%nat.

Definition arc_admit (f : FrameId) (a : arc) : option arc :=
  let '(freed, a) := arc_give_up f a in
  if freed || negb (arc_full a) then Some a else None.

(** How far a ghost hit moves the target size of the MRU list. *)
Definition arc_delta (hit other : nat) : nat :=
  if (other <=? hit)%nat then 1%nat else (other / hit)%nat.

(** Room for one more page: the ghosts beyond the capacity are forgotten. *)
Definition arc_trim (a : arc) : arc :=
  if (length (a_mru a) + length (a_gmru a) =? a_cap a)%nat
  then aset a GhostMru (removelast (a_gmru a))
  else if (length (a_mru a) + length (a_gmru a) + length (a_mfu a) + length (a_gmfu a)
           =? 2 * a_cap a)%nat
  then aset a GhostMfu (removelast (a_gmfu a))
  else a.

Definition arc_access (f : FrameId) (p : PageId) (a : arc) : option arc :=
  match a_find (has_page p) a with
  | None =>
      a ← arc_admit f a;
      let a := arc_trim a in
      Some (aset a Mru ((p, Some f, false) :: a_mru a))
  | Some (l, e) =>
      match l with
      | Mru | Mfu =>
          if has_frame f e then Some (arc_move p l Mfu e a)
          else Some (arc_move p l Mfu (p, Some f, false) (arc_give_up f a).2)
      | GhostMru =>
          let delta := arc_delta (length (a_gmru a)) (length (a_gmfu a)) in
          a ← arc_admit f (with_atarget a (min (a_target a + delta) (a_cap a)));
          Some (arc_move p l Mfu (p, Some f, false) a)
      | GhostMfu =>
          let delta := arc_delta (length (a_gmfu a)) (length (a_gmru a)) in
          a ← arc_admit f (with_atarget a (a_target a - delta));
          Some (arc_move p l Mfu (p, Some f, false) a)
      end
  end.

Definition set_evict (f : FrameId) (v : bool) (e : entry) : entry :=
  if has_frame f e then (e.1, v) else e.

Definition arc_set_evictable (f : FrameId) (v : bool) (a : arc) : arc :=
  mkArc (set_evict f v <$> a_mru a) (set_evict f v <$> a_mfu a) (set_evict f v <$> a_gmru a)
    (set_evict f v <$> a_gmfu a) (a_target a) (a_cap a).

Definition arc_remove (p : PageId) (a : arc) : option FrameId * arc :=
  match a_find (has_page p) a with
  | Some (l, e) => (e_frame e, aset a l (drop_page p (aget a l)))
  | None => (None, a)
  end.

(** The least recent evictable entry of a list. *)
Definition victim (l : list entry) : option entry := find e_evictable (rev l).

Definition arc_evict_from (l : ArcList) (a : arc) : option (FrameId * arc) :=
  e ← victim (aget a l);
  f ← e_frame e;
  Some (f, arc_move (e_page e) l (ghost_of l) (e_page e, None, false) a).

Definition arc_evict (a : arc) : option (FrameId * arc) :=
  let prefer_mru := (a_target a <=? length (a_mru a))%nat in
  match arc_evict_from (if prefer_mru then Mru else Mfu) a with
  | Some r => Some r
  | None => arc_evict_from (if prefer_mru then Mfu else Mru) a
  end.

Definition arc_size (a : arc) : nat :=
  length (List.filter e_evictable (a_mru a)) + length (List.filter e_evictable (a_mfu a)).
