(* ===== verification/ReplacerProofs.v ===== *)
(** * The replacer implements ARC

    The refinement between the arena of [src/replacer.rs] and the lists of [ReplacerSpec]:
    every operation of the arena does what the operation on lists does, and panics exactly
    where that one refuses. *)

From Stdlib Require Import ZArith Lia.
From stdpp Require Import base list gmap option.
From S2P Require Import Prelude Ids Replacer ReplacerLinks ReplacerCore ReplacerSpec.
Import Replacer.

Definition is_ghost (l : ArcList) : bool :=
  match l with Mru | Mfu => false | GhostMru | GhostMfu => true end.

Definition evictables (z : list (nat * entry)) : nat :=
  length (List.filter (fun x => e_evictable x.2) z).

Definition total (Z : pairs) : nat :=
  evictables (Z Mru) + evictables (Z Mfu) + evictables (Z GhostMru) + evictables (Z GhostMfu).

(** ** The invariant *)

Definition maps_pages (pm : gmap PageId nat) (Z : pairs) : Prop :=
  forall p i, pm !! p = Some i <-> exists l e, (i, e) ∈ Z l /\ e_page e = p.

Definition maps_frames (fm : gmap FrameId nat) (Z : pairs) : Prop :=
  forall f i, fm !! f = Some i <-> exists l e, (i, e) ∈ Z l /\ e_frame e = Some f.

(** Resident pages hold a frame; ghosts hold none. *)
Definition frames_fit (Z : pairs) : Prop :=
  forall l i e, (i, e) ∈ Z l ->
    if is_ghost l then e_frame e = None /\ e_evictable e = false else is_Some (e_frame e).

Record Inv (c : ArcReplacer) (Z : pairs) : Prop := {
  iv_core : Core c Z;
  iv_pages : maps_pages (page_indices c) Z;
  iv_frames : maps_frames (frame_indices c) Z;
  iv_fit : frames_fit Z;
  iv_count : evictable_count c = total Z;
}.

Definition shows (a : arc) (Z : pairs) : Prop := forall l, aget a l = (Z l).*2.

Definition Rel (c : ArcReplacer) (a : arc) : Prop :=
  exists Z, Inv c Z /\ shows a Z /\ a_target a = mru_target_size c /\ a_cap a = r_capacity c.

(** ** Finding entries *)

(** At most one pair satisfies [P]. *)
Definition unique (P : entry -> bool) (Z : pairs) : Prop :=
  forall l i e l' i' e', (i, e) ∈ Z l -> (i', e') ∈ Z l' -> P e = true -> P e' = true -> i = i'.

Lemma find_fmap_snd (P : entry -> bool) (z : list (nat * entry)) :
  match find P z.*2 with
  | Some e => exists i, (i, e) ∈ z /\ P e = true
  | None => forall i e, (i, e) ∈ z -> P e = false
  end.
Proof.
  induction z as [|[i e] z IH]; csimpl; [set_solver|].
  destruct (P e) eqn:HP; [exists i; set_solver|]. destruct (find P z.*2) as [e'|].
  - destruct IH as (i' & ? & ?). exists i'. set_solver.
  - intros i' e' [[= -> ->]|?]%list.elem_of_cons; eauto.
Qed.

Lemma a_find_spec P a Z :
  shows a Z ->
  match a_find P a with
  | Some (l, e) => exists i, (i, e) ∈ Z l /\ P e = true
  | None => forall l i e, (i, e) ∈ Z l -> P e = false
  end.
Proof.
  intros HS. unfold a_find.
  pose proof (find_fmap_snd P (Z Mru)) as H1. pose proof (find_fmap_snd P (Z Mfu)) as H2.
  pose proof (find_fmap_snd P (Z GhostMru)) as H3. pose proof (find_fmap_snd P (Z GhostMfu)) as H4.
  rewrite <- !HS in *. simpl in *. repeat case_match; simplify_eq; try done.
  intros []; eauto.
Qed.

Lemma a_find_at P a Z c l i e :
  shows a Z -> Core c Z -> unique P Z -> (i, e) ∈ Z l -> P e = true -> a_find P a = Some (l, e).
Proof.
  intros HS HC HU Hi HP. pose proof (a_find_spec P a Z HS) as H.
  destruct (a_find P a) as [[l' e']|].
  - destruct H as (i' & Hi' & HP'). pose proof (HU _ _ _ _ _ _ Hi Hi' HP HP') as <-.
    by destruct (core_unique _ _ HC _ _ _ _ _ Hi Hi') as [<- <-].
  - by rewrite (H _ _ _ Hi) in HP.
Qed.

Lemma unique_page pm Z p : maps_pages pm Z -> unique (has_page p) Z.
Proof.
  intros HM l i e l' i' e' H1 H2 P1%bool_decide_eq_true P2%bool_decide_eq_true.
  pose proof (proj2 (HM p i) (ex_intro _ l (ex_intro _ e (conj H1 P1)))).
  pose proof (proj2 (HM p i') (ex_intro _ l' (ex_intro _ e' (conj H2 P2)))). congruence.
Qed.

Lemma unique_frame fm Z f : maps_frames fm Z -> unique (has_frame f) Z.
Proof.
  intros HM l i e l' i' e' H1 H2 P1%bool_decide_eq_true P2%bool_decide_eq_true.
  pose proof (proj2 (HM f i) (ex_intro _ l (ex_intro _ e (conj H1 P1)))).
  pose proof (proj2 (HM f i') (ex_intro _ l' (ex_intro _ e' (conj H2 P2)))). congruence.
Qed.

Lemma drop_page_absent p (z : list (nat * entry)) :
  (forall i e, (i, e) ∈ z -> e_page e <> p) -> drop_page p z.*2 = z.*2.
Proof.
  unfold drop_page, has_page. induction z as [|[i e] z IH]; intros H; csimpl; [done|].
  rewrite bool_decide_eq_false_2 by (apply (H i); set_solver). simpl. f_equal.
  apply IH. intros. apply (H i0). set_solver.
Qed.

(** Dropping a page from its list is dropping its pair. *)
Lemma drop_page_pair c pm Z l Z1 i e Z2 :
  Core c Z -> maps_pages pm Z -> Z l = Z1 ++ (i, e) :: Z2 ->
  drop_page (e_page e) (Z l).*2 = (Z1 ++ Z2).*2.
Proof.
  intros HC HM Hl.
  assert (Ha : drop_page (e_page e) (Z1 ++ Z2).*2 = (Z1 ++ Z2).*2).
  { apply drop_page_absent. intros j e' Hj Hp.
    destruct (core_others c Z l Z1 i e Z2 l j e' HC Hl) as [Hne Hz]; [by rewrite zupd_eq|].
    apply Hne. apply (unique_page pm Z (e_page e) HM l j e' l i e); try done.
    - rewrite Hl. set_solver.
    - by apply bool_decide_eq_true.
    - by apply bool_decide_eq_true. }
  rewrite <- Ha. rewrite Hl, !fmap_app. unfold drop_page. rewrite !List.filter_app. csimpl.
  unfold has_page at 2. rewrite bool_decide_eq_true_2 by done. done.
Qed.

(** ** Adding and taking away a pair

    [plus Zd Z x]: the pairs of [Z] are those of [Zd] and [x], whose index is new. *)

Definition plus (Zd Z : pairs) (x : nat * entry) : Prop :=
  (forall y, (exists l, y ∈ Z l) <-> y = x \/ exists l, y ∈ Zd l) /\
  (forall l e, (x.1, e) ∉ Zd l).

Definition odelete {A} (o : option Z) (m : gmap Z A) : gmap Z A :=
  match o with Some f => delete f m | None => m end.
Definition oinsert {A} (o : option Z) (v : A) (m : gmap Z A) : gmap Z A :=
  match o with Some f => <[f := v]> m | None => m end.

Lemma pages_plus pm Zd Z i e :
  maps_pages pm Zd -> plus Zd Z (i, e) -> pm !! e_page e = None ->
  maps_pages (<[e_page e := i]> pm) Z.
Proof.
  intros HM [Hp Hi] Hn p j. rewrite lookup_insert_Some, (HM p j). split.
  - intros [[<- <-]|[Hne (l & x & Hx & Hxp)]].
    + destruct (proj2 (Hp (i, e))) as [l Hl]; [by left|]. eauto.
    + destruct (proj2 (Hp (j, x))) as [l' Hl]; [right; eauto|]. eauto.
  - intros (l & x & Hx & Hxp).
    destruct (proj1 (Hp (j, x))) as [[= -> ->]|[l' Hl]]; [eauto|by left|].
    right. split; [|eauto]. intros <-.
    assert (pm !! e_page e = Some j) by (apply HM; eauto). congruence.
Qed.

Lemma pages_minus pm Zd Z i e :
  maps_pages pm Z -> plus Zd Z (i, e) -> maps_pages (delete (e_page e) pm) Zd.
Proof.
  intros HM [Hp Hi] p j.
  assert (He : pm !! e_page e = Some i).
  { apply HM. destruct (proj2 (Hp (i, e))) as [l Hl]; [by left|]. eauto. }
  rewrite lookup_delete_Some, (HM _ j). split.
  - intros [Hne (l & x & Hx & <-)].
    destruct (proj1 (Hp (j, x))) as [[= -> ->]|[l' Hl]]; [eauto|done|eauto].
  - intros (l & x & Hx & Hxp).
    destruct (proj2 (Hp (j, x))) as [l' Hl]; [right; eauto|]. split; [|eauto].
    intros <-. assert (pm !! e_page e = Some j) by (apply HM; eauto). simplify_eq. by eapply Hi.
Qed.

Lemma frames_plus fm Zd Z i e :
  maps_frames fm Zd -> plus Zd Z (i, e) -> (forall f, e_frame e = Some f -> fm !! f = None) ->
  maps_frames (oinsert (e_frame e) i fm) Z.
Proof.
  intros HM [Hp Hi] Hn f j.
  assert (HM' : fm !! f = Some j -> exists l x, (j, x) ∈ Z l /\ e_frame x = Some f).
  { intros (l & x & Hx & Hxp)%HM. destruct (proj2 (Hp (j, x))) as [l' Hl]; [right; eauto|]. eauto. }
  destruct (proj2 (Hp (i, e))) as [le Hle]; [by left|].
  destruct (e_frame e) as [f'|] eqn:Ef; simpl.
  - rewrite lookup_insert_Some. split; [intros [[<- <-]|[_ ?]]; eauto|].
    intros (l & x & Hx & Hxp). destruct (proj1 (Hp (j, x))) as [[= -> ->]|[l' Hl]]; [eauto|..].
    + left. split; congruence.
    + right. split; [|apply HM; eauto]. intros <-.
      assert (fm !! f' = Some j) by (apply HM; eauto). by rewrite Hn in *.
  - split; [done|]. intros (l & x & Hx & Hxp).
    destruct (proj1 (Hp (j, x))) as [[= -> ->]|[l' Hl]]; [eauto|congruence|]. apply HM. eauto.
Qed.

Lemma frames_minus fm Zd Z i e :
  maps_frames fm Z -> plus Zd Z (i, e) -> maps_frames (odelete (e_frame e) fm) Zd.
Proof.
  intros HM [Hp Hi] f j.
  destruct (proj2 (Hp (i, e))) as [le Hle]; [by left|].
  destruct (e_frame e) as [f'|] eqn:Ef; simpl.
  - assert (He : fm !! f' = Some i) by (apply HM; eauto).
    rewrite lookup_delete_Some, (HM _ j). split.
    + intros [Hne (l & x & Hx & Hxp)].
      destruct (proj1 (Hp (j, x))) as [[= -> ->]|[l' Hl]]; [eauto|congruence|eauto].
    + intros (l & x & Hx & Hxp). destruct (proj2 (Hp (j, x))) as [l' Hl]; [right; eauto|].
      split; [|eauto]. intros <-.
      assert (fm !! f' = Some j) by (apply HM; eauto). simplify_eq. by eapply Hi.
  - rewrite (HM f j). split.
    + intros (l & x & Hx & Hxp).
      destruct (proj1 (Hp (j, x))) as [[= -> ->]|[l' Hl]]; [eauto|congruence|eauto].
    + intros (l & x & Hx & Hxp). destruct (proj2 (Hp (j, x))) as [l' Hl]; [right; eauto|]. eauto.
Qed.

Lemma plus_detached c Z l Z1 i e Z2 :
  Core c Z -> Z l = Z1 ++ (i, e) :: Z2 -> plus (zupd Z l (Z1 ++ Z2)) Z (i, e).
Proof.
  intros HC Hl. split.
  - intros [j y]. split.
    + intros [l' Hj]. destruct (decide (l' = l)) as [->|Hne].
      * rewrite Hl in Hj. destruct (decide ((j, y) = (i, e))); [by left|].
        right. exists l. rewrite zupd_eq. set_solver.
      * right. exists l'. by rewrite zupd_ne.
    + intros [[= -> ->]|[l' Hj]]; [exists l; rewrite Hl; set_solver|].
      exists l'. by apply (core_others c Z l Z1 i e Z2 l' j y HC Hl).
  - intros l' e' Hj. by destruct (core_others c Z l Z1 i e Z2 l' i e' HC Hl Hj).
Qed.

Lemma plus_inserted Zd l Z1 Z2 x :
  Zd l = Z1 ++ Z2 -> (forall l' e, (x.1, e) ∉ Zd l') -> plus Zd (zupd Zd l (Z1 ++ x :: Z2)) x.
Proof.
  intros Hl Hx. split; [|done]. intros y. split.
  - intros [l' Hy]. unfold zupd in Hy. case_decide; [subst|by eauto].
    destruct (decide (y = x)); [by left|]. right. exists l. rewrite Hl. set_solver.
  - intros [->|[l' Hy]].
    + exists l. rewrite zupd_eq. set_solver.
    + exists l'. unfold zupd. case_decide; [subst|done]. rewrite Hl in Hy. set_solver.
Qed.

(** ** Counting evictable entries *)

Lemma evictables_app z1 z2 : evictables (z1 ++ z2) = (evictables z1 + evictables z2)%nat.
Proof. unfold evictables. by rewrite List.filter_app, length_app. Qed.

Lemma evictables_cons x z : evictables (x :: z) = (Nat.b2n (e_evictable x.2) + evictables z)%nat.
Proof. unfold evictables. simpl. by destruct (e_evictable x.2). Qed.

Lemma total_zupd Z l x : (total (zupd Z l x) + evictables (Z l) = total Z + evictables x)%nat.
Proof. unfold total, zupd. destruct l; simpl; lia. Qed.

Lemma total_inserted Zd l Z1 Z2 i e :
  Zd l = Z1 ++ Z2 ->
  total (zupd Zd l (Z1 ++ (i, e) :: Z2)) = (Nat.b2n (e_evictable e) + total Zd)%nat.
Proof.
  intros Hl. pose proof (total_zupd Zd l (Z1 ++ (i, e) :: Z2)) as H.
  rewrite Hl, !evictables_app, evictables_cons in H. simpl in H. lia.
Qed.

Lemma total_detached Z l Z1 i e Z2 :
  Z l = Z1 ++ (i, e) :: Z2 -> total Z = (Nat.b2n (e_evictable e) + total (zupd Z l (Z1 ++ Z2)))%nat.
Proof.
  intros Hl. pose proof (total_zupd Z l (Z1 ++ Z2)) as H.
  rewrite Hl, !evictables_app, evictables_cons in H. simpl in H. lia.
Qed.

(** ** The invariant after a pair moves *)

Definition fits (l : ArcList) (e : entry) : Prop :=
  if is_ghost l then e_frame e = None /\ e_evictable e = false else is_Some (e_frame e).

Lemma fit_inserted Zd l Z1 Z2 i e :
  frames_fit Zd -> Zd l = Z1 ++ Z2 -> fits l e -> frames_fit (zupd Zd l (Z1 ++ (i, e) :: Z2)).
Proof.
  intros HF Hl He l' j e' Hj. unfold zupd in Hj. case_decide; [subst|by eapply HF].
  apply elem_of_app in Hj as [Hj|[[= -> ->]|Hj]%list.elem_of_cons]; [|done|].
  all: apply (HF l j); rewrite Hl; set_solver.
Qed.

Lemma fit_detached c Z l Z1 i e Z2 :
  Core c Z -> frames_fit Z -> Z l = Z1 ++ (i, e) :: Z2 -> frames_fit (zupd Z l (Z1 ++ Z2)).
Proof.
  intros HC HF Hl l' j e' Hj.
  destruct (core_others c Z l Z1 i e Z2 l' j e' HC Hl Hj) as [_ Hz]. by eapply HF.
Qed.

(** Pair [(i, e)] goes and [(i, e')] comes, on any lists. *)
Lemma inv_replaced c c' Z l Z1 i e Z2 l' Y1 Y2 e' :
  Inv c Z -> Z l = Z1 ++ (i, e) :: Z2 ->
  let Zd := zupd Z l (Z1 ++ Z2) in
  Zd l' = Y1 ++ Y2 ->
  Core c' (zupd Zd l' (Y1 ++ (i, e') :: Y2)) ->
  e_page e' = e_page e -> fits l' e' ->
  (forall f, e_frame e' = Some f -> e_frame e = Some f \/ frame_indices c !! f = None) ->
  page_indices c' = page_indices c ->
  frame_indices c' = oinsert (e_frame e') i (odelete (e_frame e) (frame_indices c)) ->
  (evictable_count c' + Nat.b2n (e_evictable e) =
     evictable_count c + Nat.b2n (e_evictable e'))%nat ->
  Inv c' (zupd Zd l' (Y1 ++ (i, e') :: Y2)).
Proof.
  intros [HC HP HFr HF Hn] Hl Zd Hl' HC' Hpage Hfits Hfree Ep Ef En.
  pose proof (plus_detached c Z l Z1 i e Z2 HC Hl) as Hminus. fold Zd in Hminus.
  pose proof (plus_inserted Zd l' Y1 Y2 (i, e') Hl' (proj2 Hminus)) as Hplus.
  assert (Hpi : page_indices c !! e_page e = Some i).
  { apply HP. exists l, e. rewrite Hl. set_solver. }
  split; [done|..].
  - rewrite Ep. replace (page_indices c) with (<[e_page e' := i]> (delete (e_page e) (page_indices c))).
    + apply (pages_plus _ Zd); [by eapply pages_minus|done|]. by rewrite Hpage, lookup_delete_eq.
    + rewrite Hpage. by apply insert_delete_id.
  - rewrite Ef. apply (frames_plus _ Zd); [by eapply frames_minus|done|]. intros f Hf.
    destruct (Hfree f Hf) as [->|Hnone]; simpl; [by rewrite lookup_delete_eq|].
    destruct (e_frame e); simpl; [|done]. rewrite lookup_delete_None. by right.
  - apply fit_inserted; try done. by eapply fit_detached.
  - rewrite total_inserted by done. pose proof (total_detached Z l Z1 i e Z2 Hl) as Ht.
    fold Zd in Ht. lia.
Qed.

(** ** Steps of the operations *)

Lemma Core_ext c Z Z' : (forall l, Z l = Z' l) -> Core c Z -> Core c Z'.
Proof.
  intros HE [HL Hp Ha]. split.
  - eapply Links_ext; [|exact HL]. intros l. unfold indices. by rewrite HE.
  - intros l i e. rewrite <- HE. apply Hp.
  - rewrite <- Ha. apply Permutation_app_head. unfold all_indices, indices. by rewrite !HE.
Qed.

Lemma decr_if_ok (b : bool) c :
  (b = true -> (0 < evictable_count c)%nat) ->
  (if b then decr_count else mret tt) c =
    (Ok tt, with_count (evictable_count c - Nat.b2n b) c).
Proof.
  intros H. destruct b; simpl.
  - unfold decr_count, asks. erewrite bind_Ok by reflexivity.
    specialize (H eq_refl). destruct (evictable_count c); [lia|]. simpl.
    rewrite Nat.sub_0_r. done.
  - rewrite Nat.sub_0_r. by destruct c.
Qed.

Lemma odelete_frames_ok (o : option FrameId) c :
  match o with
  | Some f => put (fun c => with_frames (delete f (frame_indices c)) c)
  | None => mret tt
  end c = (Ok tt, with_frames (odelete o (frame_indices c)) c).
Proof. destruct o; [done|]. by destruct c. Qed.

Lemma evictable_pos c Z l i e :
  Inv c Z -> (i, e) ∈ Z l -> e_evictable e = true -> (0 < evictable_count c)%nat.
Proof.
  intros HI Hin He. rewrite (iv_count _ _ HI).
  apply list_elem_of_split in Hin as (Z1 & Z2 & Hl). rewrite (total_detached Z l Z1 i e Z2 Hl), He.
  simpl. lia.
Qed.

(** The next step of a computation whose value is known by reduction. *)
Ltac mstep := first
  [ erewrite bind_Ok by reflexivity
  | erewrite bind_lift by reflexivity
  | erewrite bind_liftc by reflexivity ].

(** The pairs after node [i] of list [l] becomes entry [e'] at the front of list [l']. *)
Lemma moved_ext Z l X Y l' x l'' :
  moved (zupd Z l X) l Y l' x l'' = moved Z l Y l' x l''.
Proof. unfold moved, zupd. repeat case_decide; congruence. Qed.

Lemma give_up_frame_ok c Z l Z1 i e Z2 :
  Inv c Z -> Z l = Z1 ++ (i, e) :: Z2 -> is_ghost l = false ->
  exists c', give_up_frame i c = (Ok tt, c') /\
    Inv c' (moved Z l (Z1 ++ Z2) (ghost_of l) (i, (e_page e, None, false))) /\
    mru_target_size c' = mru_target_size c /\ r_capacity c' = r_capacity c /\ free_kept c c' /\
    page_indices c' = page_indices c /\
    frame_indices c' = odelete (e_frame e) (frame_indices c).
Proof.
  intros HI Hl Hg. pose proof (iv_core _ _ HI) as HC.
  assert (Hin : (i, e) ∈ Z l) by (rewrite Hl; set_solver).
  destruct (core_elem _ _ HC _ _ _ Hin) as (n & Hn & He & Hnl).
  assert (Efr : n_frame_id n = e_frame e) by by rewrite <- He.
  assert (Eev : n_evictable n = e_evictable e) by by rewrite <- He.
  unfold give_up_frame, node. erewrite bind_lift by by rewrite Hn.
  erewrite (bind_liftc _ _ _ (if decide (l = Mru) then RMru else RMfu))
    by (rewrite Hnl; by destruct l).
  destruct (core_set c Z l Z1 i e Z2 (set_frame None) (fun e => (e_page e, None, e_evictable e)))
    as [H1 HC1]; [done..|].
  erewrite bind_Ok by exact H1. erewrite bind_Ok by apply odelete_frames_ok.
  set (c2 := with_frames _ _).
  assert (HC2 : Core c2 (zupd Z l (Z1 ++ (i, (e_page e, None, e_evictable e)) :: Z2))).
  { by eapply same_lists_core; [|exact HC1]. }
  destruct (core_set c2 _ l Z1 i (e_page e, None, e_evictable e) Z2 (set_flag false)
    (fun e => (e_page e, e_frame e, false)) HC2) as [H3 HC3]; [by rewrite zupd_eq|done|].
  erewrite bind_Ok by exact H3.
  erewrite bind_Ok by (apply decr_if_ok; rewrite Eev; exact (evictable_pos c Z l i e HI Hin)).
  set (c4 := with_count _ _).
  assert (HC4 : Core c4 (zupd (zupd Z l (Z1 ++ (i, (e_page e, None, e_evictable e)) :: Z2)) l
    (Z1 ++ (i, (e_page e, None, false)) :: Z2))).
  { by eapply same_lists_core; [|exact HC3]. }
  destruct (core_move c4 _ l Z1 i (e_page e, None, false) Z2 (ghost_of l) HC4) as (c5 & H5 & HC5 & O5).
  { by rewrite zupd_eq. }
  exists c5. split.
  { rewrite <- H5. destruct l; done. }
  split; [|rewrite (ol_target _ _ O5), (ol_capacity _ _ O5), (ol_pages _ _ O5),
    (ol_frames _ _ O5); simpl; rewrite Efr; split_and!; try done].
  2:{ etrans; [exact (core_set_free c Z l i e (set_frame None) HC Hin)|].
      etrans; [by apply same_lists_free|].
      etrans; [apply (core_set_free c2 _ l i (e_page e, None, e_evictable e) (set_flag false) HC2);
        rewrite zupd_eq; set_solver|].
      etrans; [by apply same_lists_free|]. exact (only_links_free _ _ O5). }
  assert (HC5' : Core c5 (moved Z l (Z1 ++ Z2) (ghost_of l) (i, (e_page e, None, false)))).
  { eapply Core_ext; [|exact HC5]. intros l'. by rewrite !moved_ext. }
  apply (inv_replaced c c5 Z l Z1 i e Z2 (ghost_of l) [] (zupd Z l (Z1 ++ Z2) (ghost_of l))
    (e_page e, None, false) HI Hl); try done.
  - destruct l; done.
  - by rewrite (ol_pages _ _ O5).
  - rewrite (ol_frames _ _ O5). simpl. by rewrite Efr.
  - rewrite (ol_count _ _ O5). simpl. rewrite Eev.
    pose proof (evictable_pos c Z l i e HI Hin). destruct (e_evictable e); simpl; lia.
Qed.

(** ** The lists after a move *)

Lemma shows_moved c pm a Z l Z1 i e Z2 l' e' :
  shows a Z -> Core c Z -> maps_pages pm Z -> Z l = Z1 ++ (i, e) :: Z2 ->
  shows (arc_move (e_page e) l l' e' a) (moved Z l (Z1 ++ Z2) l' (i, e')).
Proof.
  intros HS HC HM Hl l''. unfold arc_move, moved, zupd.
  pose proof (drop_page_pair c pm Z l Z1 i e Z2 HC HM Hl) as Hd.
  rewrite !aget_aset, !HS. repeat case_decide; subst; csimpl; by rewrite ?Hd, ?HS.
Qed.

Lemma moved_keeps Z l Z1 i e Z2 l' x l'' j ej :
  Z l = Z1 ++ (i, e) :: Z2 -> (j, ej) ∈ Z l'' -> j <> i ->
  (j, ej) ∈ moved Z l (Z1 ++ Z2) l' x l''.
Proof.
  intros Hl Hj Hne. unfold moved, zupd.
  repeat case_decide; subst; rewrite ?Hl in Hj; set_solver.
Qed.

Lemma moved_front Z l Z' l' x : moved Z l Z' l' x l' = x :: zupd Z l Z' l'.
Proof. unfold moved. by rewrite zupd_eq. Qed.

(** Taking a frame from the page that holds it. *)
Lemma take_frame_ok c a Z f :
  Inv c Z -> shows a Z ->
  exists c' Z', take_frame_from_its_holder f c = (Ok (arc_give_up f a).1, c') /\
    Inv c' Z' /\ shows (arc_give_up f a).2 Z' /\
    mru_target_size c' = mru_target_size c /\ r_capacity c' = r_capacity c /\
    page_indices c' = page_indices c /\ frame_indices c' !! f = None /\
    (forall l i e, (i, e) ∈ Z l -> e_frame e <> Some f -> (i, e) ∈ Z' l).
Proof.
  intros HI HS. pose proof HI as [HC HP HF Hfit Hn].
  unfold take_frame_from_its_holder, asks. mstep. unfold arc_give_up.
  destruct (frame_indices c !! f) as [i|] eqn:Hf.
  - pose proof (proj1 (HF f i) Hf) as (l & e & Hin & Hef).
    rewrite (a_find_at (has_frame f) a Z c l i e);
      [|done|done|by eapply unique_frame|done|by apply bool_decide_eq_true].
    apply list_elem_of_split in Hin as Hsplit. destruct Hsplit as (Z1 & Z2 & Hl).
    assert (Hg : is_ghost l = false).
    { pose proof (Hfit l i e Hin) as Hx. destruct (is_ghost l); [|done].
      destruct Hx as [Hx _]. congruence. }
    destruct (give_up_frame_ok c Z l Z1 i e Z2 HI Hl Hg) as (c' & Hr & HI' & Ht & Hcap & _ & Hp' & Hf').
    eexists c', _. erewrite bind_Ok by exact Hr. split; [done|]. split; [exact HI'|].
    split_and!; try done.
    + by eapply shows_moved.
    + rewrite Hf', Hef. simpl. apply lookup_delete_eq.
    + intros l' j ej Hj Hne. eapply moved_keeps; [done|done|]. intros ->.
      destruct (core_unique _ _ HC _ _ _ _ _ Hin Hj) as [_ <-]. done.
  - exists c, Z. pose proof (a_find_spec (has_frame f) a Z HS) as Hfind.
    destruct (a_find (has_frame f) a) as [[l e]|].
    + destruct Hfind as (i & Hin & Hef%bool_decide_eq_true).
      assert (frame_indices c !! f = Some i) by (apply HF; eauto). congruence.
    + split_and!; try done; eauto.
Qed.

(** Admitting a frame: the page that holds it gives it up, or there is room. *)
Lemma release_frame_ok c a Z f :
  Inv c Z -> shows a Z -> a_cap a = r_capacity c ->
  match arc_admit f a with
  | None => (release_frame_for_admission f c).1 = Panic
  | Some a' =>
      exists c' Z', release_frame_for_admission f c = (Ok tt, c') /\ Inv c' Z' /\ shows a' Z' /\
        mru_target_size c' = mru_target_size c /\ r_capacity c' = r_capacity c /\
        page_indices c' = page_indices c /\ frame_indices c' !! f = None /\
        (forall l i e, (i, e) ∈ Z l -> e_frame e <> Some f -> (i, e) ∈ Z' l)
  end.
Proof.
  intros HI HS Hcap.
  destruct (take_frame_ok c a Z f HI HS) as (c' & Z' & Hr & HI' & HS' & Ht & Hc & Hp & Hf & Hk).
  unfold arc_admit, release_frame_for_admission. destruct (arc_give_up f a) as [freed a1] eqn:Ha.
  simpl in *. erewrite bind_Ok by exact Hr.
  assert (Hfull : is_full c' = arc_full a1).
  { unfold is_full, arc_full. pose proof (co_links _ _ (iv_core _ _ HI')) as HL.
    assert (Hl : forall l, h_length (list_of c' l) = length (aget a1 l)).
    { intros l. rewrite (la_length _ _ _ (HL l)), HS'. unfold indices. by rewrite !length_fmap. }
    pose proof (Hl Mru) as H1. pose proof (Hl Mfu) as H2. simpl in H1, H2. rewrite H1, H2.
    rewrite Hc, <- Hcap. f_equal. unfold arc_give_up in Ha. by repeat case_match; simplify_eq. }
  unfold lift, rassert. rewrite Hfull. destruct (freed || negb (arc_full a1)); [|done].
  exists c', Z'. done.
Qed.

(** ** Pages that get a frame *)

(** The end of [revive_ghost]. *)
Definition revive (idx : nat) (f : FrameId) : rep unit :=
  _ ← set_node idx (set_frame (Some f));
  _ ← set_node idx (set_flag false);
  _ ← put (fun c => with_frames (<[f := idx]> (frame_indices c)) c);
  move_to_front idx Mfu.

Lemma revive_ok c Z l Z1 i e Z2 f :
  Inv c Z -> Z l = Z1 ++ (i, e) :: Z2 -> is_ghost l = true -> frame_indices c !! f = None ->
  exists c', revive i f c = (Ok tt, c') /\
    Inv c' (moved Z l (Z1 ++ Z2) Mfu (i, (e_page e, Some f, false))) /\
    mru_target_size c' = mru_target_size c /\ r_capacity c' = r_capacity c.
Proof.
  intros HI Hl Hg Hf. pose proof (iv_core _ _ HI) as HC.
  assert (Hin : (i, e) ∈ Z l) by (rewrite Hl; set_solver).
  pose proof (iv_fit _ _ HI l i e Hin) as Hfit. rewrite Hg in Hfit. destruct Hfit as [Hef Hev].
  unfold revive.
  destruct (core_set c Z l Z1 i e Z2 (set_frame (Some f))
    (fun e => (e_page e, Some f, e_evictable e))) as [H1 HC1]; [done..|].
  erewrite bind_Ok by exact H1.
  destruct (core_set _ _ l Z1 i (e_page e, Some f, e_evictable e) Z2 (set_flag false)
    (fun e => (e_page e, e_frame e, false)) HC1) as [H2 HC2]; [by rewrite zupd_eq|done|].
  erewrite bind_Ok by exact H2. unfold put. mstep. set (c3 := with_frames _ _).
  assert (HC3 : Core c3 (zupd (zupd Z l (Z1 ++ (i, (e_page e, Some f, e_evictable e)) :: Z2)) l
    (Z1 ++ (i, (e_page e, Some f, false)) :: Z2))).
  { by eapply same_lists_core; [|exact HC2]. }
  destruct (core_move c3 _ l Z1 i (e_page e, Some f, false) Z2 Mfu HC3) as (c4 & H4 & HC4 & O4).
  { by rewrite zupd_eq. }
  exists c4. split; [done|]. split; [|by rewrite (ol_target _ _ O4), (ol_capacity _ _ O4)].
  assert (HC4' : Core c4 (moved Z l (Z1 ++ Z2) Mfu (i, (e_page e, Some f, false)))).
  { eapply Core_ext; [|exact HC4]. intros l'. by rewrite !moved_ext. }
  apply (inv_replaced c c4 Z l Z1 i e Z2 Mfu [] (zupd Z l (Z1 ++ Z2) Mfu)
    (e_page e, Some f, false) HI Hl); try done.
  - by eexists.
  - intros f' [= <-]. by right.
  - by rewrite (ol_pages _ _ O4).
  - rewrite (ol_frames _ _ O4), Hef. done.
  - rewrite (ol_count _ _ O4), Hev. done.
Qed.

(** The end of [move_to_new_frame], and the move to the front that follows it. *)
Definition rehome (idx : nat) (f : FrameId) : rep unit :=
  n ← node idx;
  _ ← set_node idx (set_frame (Some f));
  _ ← match n_frame_id n with
      | Some previous => put (fun c => with_frames (delete previous (frame_indices c)) c)
      | None => mret tt
      end;
  _ ← set_node idx (set_flag false);
  _ ← (if n_evictable n then decr_count else mret tt);
  put (fun c => with_frames (<[f := idx]> (frame_indices c)) c).

Lemma rehome_ok c Z l Z1 i e Z2 f :
  Inv c Z -> Z l = Z1 ++ (i, e) :: Z2 -> frame_indices c !! f = None ->
  exists c1 c', rehome i f c = (Ok tt, c1) /\ move_to_front i Mfu c1 = (Ok tt, c') /\
    Inv c' (moved Z l (Z1 ++ Z2) Mfu (i, (e_page e, Some f, false))) /\
    mru_target_size c' = mru_target_size c /\ r_capacity c' = r_capacity c.
Proof.
  intros HI Hl Hf. pose proof (iv_core _ _ HI) as HC.
  assert (Hin : (i, e) ∈ Z l) by (rewrite Hl; set_solver).
  destruct (core_elem _ _ HC _ _ _ Hin) as (n & Hn & He & Hnl).
  assert (Efr : n_frame_id n = e_frame e) by by rewrite <- He.
  assert (Eev : n_evictable n = e_evictable e) by by rewrite <- He.
  unfold rehome, node. erewrite bind_lift by by rewrite Hn.
  destruct (core_set c Z l Z1 i e Z2 (set_frame (Some f))
    (fun e => (e_page e, Some f, e_evictable e))) as [H1 HC1]; [done..|].
  erewrite bind_Ok by exact H1. erewrite bind_Ok by apply odelete_frames_ok.
  set (c2 := with_frames _ _).
  assert (HC2 : Core c2 (zupd Z l (Z1 ++ (i, (e_page e, Some f, e_evictable e)) :: Z2))).
  { by eapply same_lists_core; [|exact HC1]. }
  destruct (core_set c2 _ l Z1 i (e_page e, Some f, e_evictable e) Z2 (set_flag false)
    (fun e => (e_page e, e_frame e, false)) HC2) as [H3 HC3]; [by rewrite zupd_eq|done|].
  erewrite bind_Ok by exact H3.
  erewrite bind_Ok by (apply decr_if_ok; rewrite Eev; exact (evictable_pos c Z l i e HI Hin)).
  unfold put. eexists. set (c4 := with_frames _ _).
  assert (HC4 : Core c4 (zupd (zupd Z l (Z1 ++ (i, (e_page e, Some f, e_evictable e)) :: Z2)) l
    (Z1 ++ (i, (e_page e, Some f, false)) :: Z2))).
  { by eapply same_lists_core; [|exact HC3]. }
  destruct (core_move c4 _ l Z1 i (e_page e, Some f, false) Z2 Mfu HC4) as (c5 & H5 & HC5 & O5).
  { by rewrite zupd_eq. }
  exists c5. split; [done|]. split; [done|].
  split; [|by rewrite (ol_target _ _ O5), (ol_capacity _ _ O5)].
  assert (HC5' : Core c5 (moved Z l (Z1 ++ Z2) Mfu (i, (e_page e, Some f, false)))).
  { eapply Core_ext; [|exact HC5]. intros l'. by rewrite !moved_ext. }
  apply (inv_replaced c c5 Z l Z1 i e Z2 Mfu [] (zupd Z l (Z1 ++ Z2) Mfu)
    (e_page e, Some f, false) HI Hl); try done.
  - by eexists.
  - intros f' [= <-]. by right.
  - by rewrite (ol_pages _ _ O5).
  - rewrite (ol_frames _ _ O5). simpl. by rewrite Efr.
  - rewrite (ol_count _ _ O5). simpl. rewrite Eev.
    pose proof (evictable_pos c Z l i e HI Hin). destruct (e_evictable e); simpl; lia.
Qed.

(** A page that keeps its frame goes to the front of the MFU list. *)
Lemma touch_ok c Z l Z1 i e Z2 :
  Inv c Z -> Z l = Z1 ++ (i, e) :: Z2 -> is_ghost l = false ->
  exists c', move_to_front i Mfu c = (Ok tt, c') /\
    Inv c' (moved Z l (Z1 ++ Z2) Mfu (i, e)) /\
    mru_target_size c' = mru_target_size c /\ r_capacity c' = r_capacity c.
Proof.
  intros HI Hl Hg. pose proof (iv_core _ _ HI) as HC.
  assert (Hin : (i, e) ∈ Z l) by (rewrite Hl; set_solver).
  pose proof (iv_fit _ _ HI l i e Hin) as Hfit. rewrite Hg in Hfit.
  destruct (core_move c Z l Z1 i e Z2 Mfu HC Hl) as (c' & Hr & HC' & O).
  exists c'. split; [done|]. split; [|by rewrite (ol_target _ _ O), (ol_capacity _ _ O)].
  apply (inv_replaced c c' Z l Z1 i e Z2 Mfu [] (zupd Z l (Z1 ++ Z2) Mfu) e HI Hl); try done.
  - auto.
  - by rewrite (ol_pages _ _ O).
  - rewrite (ol_frames _ _ O). destruct (e_frame e) as [f|] eqn:Hf; simpl; [|done].
    symmetry. apply insert_delete_id. apply (iv_frames _ _ HI). eauto.
  - by rewrite (ol_count _ _ O).
Qed.

(** ** Pages that come and go *)

(** The invariant after a pair is taken away for good. *)
Lemma inv_removed c c' Z l Z1 i e Z2 :
  Inv c Z -> Z l = Z1 ++ (i, e) :: Z2 -> Core c' (zupd Z l (Z1 ++ Z2)) ->
  page_indices c' = delete (e_page e) (page_indices c) ->
  frame_indices c' = odelete (e_frame e) (frame_indices c) ->
  (evictable_count c' + Nat.b2n (e_evictable e) = evictable_count c)%nat ->
  Inv c' (zupd Z l (Z1 ++ Z2)).
Proof.
  intros [HC HP HFr HF Hn] Hl HC' Ep Ef En.
  pose proof (plus_detached c Z l Z1 i e Z2 HC Hl) as Hminus.
  split; [done|..].
  - rewrite Ep. by eapply pages_minus.
  - rewrite Ef. by eapply frames_minus.
  - by eapply fit_detached.
  - pose proof (total_detached Z l Z1 i e Z2 Hl). lia.
Qed.

Lemma trim_ghost_tail_ok c Z g Z1 i e :
  Inv c Z -> Z (ghost_list g) = Z1 ++ [(i, e)] ->
  exists c', trim_ghost_tail g c = (Ok tt, c') /\ Inv c' (zupd Z (ghost_list g) Z1) /\
    mru_target_size c' = mru_target_size c /\ r_capacity c' = r_capacity c /\
    page_indices c' = delete (e_page e) (page_indices c) /\
    frame_indices c' = frame_indices c.
Proof.
  intros HI Hl. pose proof (iv_core _ _ HI) as HC. set (l := ghost_list g) in *.
  assert (Hin : (i, e) ∈ Z l) by (rewrite Hl; set_solver).
  destruct (core_elem _ _ HC _ _ _ Hin) as (n & Hn & He & Hnl).
  pose proof (iv_fit _ _ HI l i e Hin) as Hfit.
  assert (Hg : is_ghost l = true) by by destruct g. rewrite Hg in Hfit. destruct Hfit as [Hef Hev].
  unfold trim_ghost_tail, node. erewrite (bind_lift _ _ _ i).
  2:{ cbv beta. fold l. rewrite (la_least _ _ _ (co_links _ _ HC l)). unfold indices.
      rewrite Hl, fmap_app, final_app. done. }
  erewrite bind_lift by by rewrite Hn.
  erewrite bind_liftc.
  2:{ rewrite bool_decide_eq_true_2; [done|]. rewrite <- Hef, <- He. done. }
  destruct (core_detach c Z l Z1 i e [] HC Hl) as (c1 & H1 & HP1 & O1). rewrite app_nil_r in HP1.
  erewrite bind_Ok by exact H1. unfold put. mstep.
  eexists. split; [done|]. split; [|by simpl; rewrite (ol_target _ _ O1), (ol_capacity _ _ O1),
    (ol_pages _ _ O1), (ol_frames _ _ O1), <- He].
  rewrite <- (app_nil_r Z1). apply (inv_removed c _ Z l Z1 i e [] HI Hl); rewrite ?app_nil_r.
  - by apply (pending_drop c1 _ _ i e).
  - simpl. by rewrite (ol_pages _ _ O1), <- He.
  - simpl. by rewrite (ol_frames _ _ O1), Hef.
  - simpl. rewrite (ol_count _ _ O1), Hev. simpl. lia.
Qed.

(** The end of [record_first_access]. *)
Definition admit_new (f : FrameId) (p : PageId) : rep unit :=
  idx ← alloc_node (mkNode p (Some f) false Mru None None);
  _ ← put (fun c => with_pages (<[p := idx]> (page_indices c)) c);
  _ ← put (fun c => with_frames (<[f := idx]> (frame_indices c)) c);
  push idx Mru.

Lemma admit_new_ok c Z f p :
  Inv c Z -> page_indices c !! p = None -> frame_indices c !! f = None ->
  exists c' i, admit_new f p c = (Ok tt, c') /\
    Inv c' (zupd Z Mru ((i, (p, Some f, false)) :: Z Mru)) /\
    mru_target_size c' = mru_target_size c /\ r_capacity c' = r_capacity c.
Proof.
  intros HI Hp Hf. pose proof HI as [HC HP HFr HF Hn].
  destruct (alloc_ok c Z (mkNode p (Some f) false Mru None None) HC)
    as (i & c1 & H1 & HP1 & Ep & Ef & Et & Ec & En).
  unfold admit_new. erewrite bind_Ok by exact H1. unfold put. mstep. mstep.
  set (c2 := with_frames _ _).
  assert (HP2 : Pending c2 Z i (p, Some f, false)).
  { by eapply same_lists_pending; [|exact HP1]. }
  destruct (core_push c2 Z i _ Mru HP2) as (c3 & H3 & HC3 & O3).
  exists c3, i. split; [done|]. split; [|by rewrite (ol_target _ _ O3), (ol_capacity _ _ O3)].
  assert (Habs : forall l e, (i, e) ∉ Z l).
  { intros l e Hin. by apply (pending_absent _ _ _ _ HP1 l), (core_index Z l i e). }
  pose proof (plus_inserted Z Mru [] (Z Mru) (i, (p, Some f, false)) eq_refl Habs) as Hplus.
  split; [done|..].
  - rewrite (ol_pages _ _ O3). simpl. rewrite Ep. by apply (pages_plus _ Z _ i (p, Some f, false)).
  - rewrite (ol_frames _ _ O3). simpl. rewrite Ef.
    apply (frames_plus _ Z _ i (p, Some f, false)); try done. by intros f' [= <-].
  - apply (fit_inserted Z Mru [] (Z Mru)); try done. by eexists.
  - rewrite (ol_count _ _ O3). simpl.
    pose proof (total_inserted Z Mru [] (Z Mru) i (p, Some f, false) eq_refl) as Ht.
    simpl in Ht. congruence.
Qed.

Lemma remove_ok c a Z p :
  Inv c Z -> shows a Z ->
  exists c' Z', Replacer.remove p c = (Ok (arc_remove p a).1, c') /\ Inv c' Z' /\
    shows (arc_remove p a).2 Z' /\
    mru_target_size c' = mru_target_size c /\ r_capacity c' = r_capacity c.
Proof.
  intros HI HS. pose proof HI as [HC HP HFr HF Hn].
  unfold Replacer.remove, asks. mstep. unfold arc_remove.
  destruct (page_indices c !! p) as [i|] eqn:Hp.
  2:{ pose proof (a_find_spec (has_page p) a Z HS) as Hfind. exists c, Z.
      destruct (a_find (has_page p) a) as [[l e]|]; [|done].
      destruct Hfind as (i & Hin & Hef%bool_decide_eq_true).
      assert (page_indices c !! p = Some i) by (apply HP; eauto). congruence. }
  pose proof (proj1 (HP p i) Hp) as (l & e & Hin & <-).
  rewrite (a_find_at (has_page (e_page e)) a Z c l i e);
    [|done|done|by eapply unique_page|done|by apply bool_decide_eq_true].
  apply list_elem_of_split in Hin as Hsplit. destruct Hsplit as (Z1 & Z2 & Hl).
  destruct (core_elem _ _ HC _ _ _ Hin) as (n & Hnode & He & Hnl).
  assert (Efr : n_frame_id n = e_frame e) by by rewrite <- He.
  assert (Eev : n_evictable n = e_evictable e) by by rewrite <- He.
  unfold put at 1. mstep. unfold node. erewrite bind_lift by (simpl; by rewrite Hnode).
  set (c1 := with_pages _ _).
  assert (HC1 : Core c1 Z) by by eapply same_lists_core; [|exact HC].
  destruct (core_set c1 Z l Z1 i e Z2 (set_frame None) (fun e => (e_page e, None, e_evictable e)))
    as [H2 HC2]; [done..|].
  erewrite bind_Ok by exact H2.
  destruct (core_set _ _ l Z1 i (e_page e, None, e_evictable e) Z2 (set_flag false)
    (fun e => (e_page e, e_frame e, false)) HC2) as [H3 HC3]; [by rewrite zupd_eq|done|].
  erewrite bind_Ok by exact H3.
  erewrite bind_Ok by (apply decr_if_ok; rewrite Eev; exact (evictable_pos c Z l i e HI Hin)).
  erewrite bind_Ok by apply odelete_frames_ok. set (c4 := with_frames _ _).
  assert (HC4 : Core c4 (zupd (zupd Z l (Z1 ++ (i, (e_page e, None, e_evictable e)) :: Z2)) l
    (Z1 ++ (i, (e_page e, None, false)) :: Z2))).
  { by eapply same_lists_core; [|exact HC3]. }
  destruct (core_detach c4 _ l Z1 i (e_page e, None, false) Z2 HC4) as (c5 & H5 & HP5 & O5).
  { by rewrite zupd_eq. }
  erewrite bind_Ok by exact H5. unfold put. mstep.
  eexists _, (zupd Z l (Z1 ++ Z2)). split; [by rewrite Efr|]. split_and!.
  - apply (inv_removed c _ Z l Z1 i e Z2 HI Hl).
    + eapply Core_ext; [|by eapply (pending_drop c5)].
      intros l'. unfold zupd. by case_decide.
    + simpl. by rewrite (ol_pages _ _ O5).
    + simpl. rewrite (ol_frames _ _ O5). simpl. by rewrite Efr.
    + simpl. rewrite (ol_count _ _ O5). simpl. rewrite Eev.
      pose proof (evictable_pos c Z l i e HI Hin). destruct (e_evictable e); simpl; lia.
  - intros l'. simpl. rewrite aget_aset. unfold zupd. case_decide; [|apply HS]. subst.
    rewrite HS. by eapply drop_page_pair.
  - simpl. by rewrite (ol_target _ _ O5).
  - simpl. by rewrite (ol_capacity _ _ O5).
Qed.
