(* ===== verification/ReplacerArena.v ===== *)
(** * The arena of the replacer as a whole

    What a replacer is, once its lists are known: two replacers that show the same pairs and
    have the same unused nodes are the same. And how far the arena grows: only
    [record_first_access] adds a node, and only when no node is unused. *)

From Stdlib Require Import ZArith Lia.
From stdpp Require Import base list gmap option.
From S2P Require Import Prelude Ids Replacer ReplacerLinks ReplacerCore ReplacerSpec ReplacerProofs.
Import Replacer.

(** ** The lists determine the replacer *)

Lemma maps_pages_inj pm pm' Z : maps_pages pm Z -> maps_pages pm' Z -> pm = pm'.
Proof.
  intros H1 H2. apply map_eq. intros p. apply option_eq. intros i. by rewrite (H1 p i), (H2 p i).
Qed.

Lemma maps_frames_inj fm fm' Z : maps_frames fm Z -> maps_frames fm' Z -> fm = fm'.
Proof.
  intros H1 H2. apply map_eq. intros f. apply option_eq. intros i. by rewrite (H1 f i), (H2 f i).
Qed.

Lemma links_head c c' l L : links_at c l L -> links_at c' l L -> list_of c' l = list_of c l.
Proof.
  intros [M F N _ _] [M' F' N' _ _]. destruct (list_of c l), (list_of c' l). simpl in *. congruence.
Qed.

Lemma linked_same ns ns' l p L q i n n' :
  linked ns l p L q -> linked ns' l p L q -> i ∈ L -> ns !! i = Some n -> ns' !! i = Some n' ->
  same_links n n'.
Proof.
  revert p. induction L as [|j L IH]; intros p; [set_solver|].
  intros (m & Hm & El & Ep & Eq & H) (m' & Hm' & El' & Ep' & Eq' & H') [->|Hi]%list.elem_of_cons Hn Hn'; [|eauto].
  simplify_eq. split_and!; congruence.
Qed.

(** A node on a list. *)
Lemma Core_node c c' Z l i :
  Core c Z -> Core c' Z -> i ∈ indices Z l -> nodes c' !! i = nodes c !! i.
Proof.
  intros HC HC' Hi. pose proof Hi as ([i' e] & -> & Hin)%list_elem_of_fmap. simpl in *.
  destruct (core_elem _ _ HC _ _ _ Hin) as (n & Hn & He & _).
  destruct (core_elem _ _ HC' _ _ _ Hin) as (n' & Hn' & He' & _).
  destruct (linked_same _ _ _ _ _ _ _ _ _ (la_linked _ _ _ (co_links _ _ HC l))
    (la_linked _ _ _ (co_links _ _ HC' l)) Hi Hn Hn') as (El & Ep & Eq).
  rewrite Hn, Hn'. f_equal. rewrite <- He in He'. unfold payload in He'.
  destruct n, n'. simpl in *. congruence.
Qed.

Lemma Inv_nodes c c' Z : Inv c Z -> Inv c' Z -> free_kept c c' -> nodes c' = nodes c.
Proof.
  intros HI HI' [Hu Hf]. pose proof (iv_core _ _ HI) as HC. pose proof (iv_core _ _ HI') as HC'.
  pose proof (co_arena _ _ HC) as Ha. pose proof (co_arena _ _ HC') as Ha'. rewrite Hu, Ha in Ha'.
  apply Permutation_length in Ha' as Hlen. rewrite !length_seq in Hlen.
  apply list_eq. intros i. destruct (decide (i < length (nodes c))) as [Hi|Hi].
  - assert (Hin : i ∈ unused_node_indices c ++ all_indices (indices Z)) by (rewrite Ha; apply elem_of_seq; lia).
    apply elem_of_app in Hin as [Hin|[l Hin]%all_indices_elem]; [by apply Hf|by eapply Core_node].
  - rewrite !(lookup_ge_None_2) by lia. done.
Qed.

Lemma Inv_determines c c' Z :
  Inv c Z -> Inv c' Z -> mru_target_size c' = mru_target_size c -> r_capacity c' = r_capacity c ->
  free_kept c c' -> c' = c.
Proof.
  intros HI HI' Ht Hc Hk. pose proof (Inv_nodes c c' Z HI HI' Hk) as Hn. destruct Hk as [Hu _].
  pose proof (maps_pages_inj _ _ Z (iv_pages _ _ HI') (iv_pages _ _ HI)) as Hp.
  pose proof (maps_frames_inj _ _ Z (iv_frames _ _ HI') (iv_frames _ _ HI)) as Hf.
  pose proof (eq_trans (iv_count _ _ HI') (eq_sym (iv_count _ _ HI))) as He.
  pose proof (fun l => links_head c c' l _ (co_links _ _ (iv_core _ _ HI) l) (co_links _ _ (iv_core _ _ HI') l)) as Hl.
  pose proof (Hl Mru) as L1. pose proof (Hl Mfu) as L2. pose proof (Hl GhostMru) as L3. pose proof (Hl GhostMfu) as L4.
  destruct c, c'. simpl in *. congruence.
Qed.

(** ** What operations leave alone *)

Definition keeps {X A} (g : ArcReplacer -> X) (m : rep A) : Prop := forall c, g (m c).2 = g c.

Section keeps.
Context {X : Type} (g : ArcReplacer -> X).

Lemma keeps_bind {A B} (m : rep A) (k : A -> rep B) :
  keeps g m -> (forall x, keeps g (k x)) -> keeps g (m ≫= k).
Proof using.
  intros Hm Hk c. unfold mbind, M_bind. specialize (Hm c). destruct (m c) as [[] c1]; [|done..].
  simpl in *. by rewrite Hk.
Qed.

Lemma keeps_ret {A} (x : A) : keeps g (mret x).
Proof using. done. Qed.

Lemma keeps_lift {A} (f : ArcReplacer -> outcome Empty_set A) : keeps g (lift f).
Proof using. intros c. done. Qed.

Lemma keeps_liftc {A} (o : outcome Empty_set A) : keeps g (liftc o).
Proof using. intros c. done. Qed.

Lemma keeps_asks {A} (f : ArcReplacer -> A) : keeps g (asks f).
Proof using. done. Qed.

Lemma keeps_put f : (forall c, g (f c) = g c) -> keeps g (put f).
Proof using. done. Qed.

Lemma keeps_set_node i f : (forall c n, g (with_nodes (<[i := f n]> (nodes c)) c) = g c) -> keeps g (set_node i f).
Proof using. intros H. apply keeps_bind; [apply keeps_lift|]. intros n. by apply keeps_put. Qed.
End keeps.

(** [keeps] of an operation, through its binds, branches and matches. *)
Ltac keeps_tac :=
  repeat first
    [ apply keeps_ret | apply keeps_lift | apply keeps_liftc | apply keeps_asks
    | apply keeps_put; intros; simpl; by rewrite ?length_insert
    | apply keeps_set_node; intros; simpl; by rewrite ?length_insert
    | assumption
    | apply keeps_bind; [|intros ?]
    | match goal with |- keeps _ (match ?x with _ => _ end) => destruct x end ].

Lemma push_keeps {X} (g : ArcReplacer -> X) i l :
  (forall l h c, g (with_list l h c) = g c) -> (forall i n c, g (with_nodes (<[i := n]> (nodes c)) c) = g c) ->
  keeps g (push i l).
Proof. intros Hl Hn. unfold push. keeps_tac. Qed.

(** ** The size of the arena *)

Definition arena (c : ArcReplacer) : nat * nat := (length (nodes c), r_capacity c).

Create HintDb arena.

Ltac arena_tac :=
  repeat first
    [ progress eauto with arena nocore
    | apply keeps_ret | apply keeps_lift | apply keeps_liftc | apply keeps_asks
    | apply keeps_put; intros; unfold arena; simpl; by rewrite ?length_insert
    | apply keeps_set_node; intros; unfold arena; simpl; by rewrite ?length_insert
    | apply keeps_bind; [|intros ?]
    | match goal with |- keeps _ (match ?x with _ => _ end) => destruct x end ].

Lemma decr_arena : keeps arena decr_count.
Proof. unfold decr_count. arena_tac. Qed.

Lemma detach_arena i : keeps arena (detach i).
Proof. unfold detach, node. arena_tac. Qed.

Lemma push_arena i l : keeps arena (push i l).
Proof. apply push_keeps; intros; [done|]. unfold arena. simpl. by rewrite length_insert. Qed.

Lemma move_arena i l : keeps arena (move_to_front i l).
Proof. apply keeps_bind; [apply detach_arena|]. intros _. apply push_arena. Qed.
#[export] Hint Resolve decr_arena detach_arena push_arena move_arena : arena.

Lemma insert_after_arena i l m : keeps arena (insert_after i l m).
Proof. unfold insert_after, node. arena_tac. Qed.

Lemma give_up_arena i : keeps arena (give_up_frame i).
Proof. unfold give_up_frame, node. arena_tac. Qed.
#[export] Hint Resolve insert_after_arena give_up_arena : arena.

Lemma take_frame_arena f : keeps arena (take_frame_from_its_holder f).
Proof. unfold take_frame_from_its_holder. arena_tac. Qed.
#[export] Hint Resolve take_frame_arena : arena.

Lemma release_arena f : keeps arena (release_frame_for_admission f).
Proof. unfold release_frame_for_admission. arena_tac. Qed.

Lemma trim_arena g : keeps arena (trim_ghost_tail g).
Proof. unfold trim_ghost_tail, node. arena_tac. Qed.
#[export] Hint Resolve release_arena trim_arena : arena.

Lemma revive_arena i f : keeps arena (revive_ghost i f).
Proof. unfold revive_ghost. arena_tac. Qed.

Lemma move_to_new_frame_arena i f : keeps arena (move_to_new_frame i f).
Proof. unfold move_to_new_frame, node. arena_tac. Qed.
#[export] Hint Resolve revive_arena move_to_new_frame_arena : arena.

Lemma repeat_access_arena i f : keeps arena (record_repeat_access i f).
Proof. unfold record_repeat_access, node. arena_tac. Qed.

Lemma set_evictable_arena f v : keeps arena (set_evictable f v).
Proof. unfold set_evictable, node. arena_tac. Qed.

Lemma remove_arena p : keeps arena (Replacer.remove p).
Proof. unfold Replacer.remove, node. arena_tac. Qed.

Lemma find_victim_arena fuel : forall i, keeps arena (find_victim fuel i).
Proof. induction fuel as [|fuel IH]; intros i; cbn [find_victim]; unfold node; arena_tac. Qed.
#[export] Hint Resolve repeat_access_arena set_evictable_arena remove_arena find_victim_arena : arena.

Lemma evict_from_list_arena r : keeps arena (evict_from_list r).
Proof. unfold evict_from_list, node. arena_tac. Qed.
#[export] Hint Resolve evict_from_list_arena : arena.

Lemma begin_eviction_arena : keeps arena begin_eviction.
Proof. unfold begin_eviction. arena_tac. Qed.

Lemma undo_eviction_arena u : keeps arena (undo_eviction u).
Proof. unfold undo_eviction. arena_tac. Qed.
#[export] Hint Resolve begin_eviction_arena undo_eviction_arena : arena.

(** A new node is only added when no node is unused, and then none is. *)
Definition grown (c c' : ArcReplacer) : Prop :=
  arena c' = arena c \/ r_capacity c' = r_capacity c /\ unused_node_indices c' = [].

Lemma alloc_grown n c : grown c (alloc_node n c).2.
Proof.
  unfold alloc_node, asks at 1. erewrite bind_Ok by reflexivity.
  destruct (list.last (unused_node_indices c)) as [i|] eqn:Hu; [left|right].
  - change (arena c) with (arena (with_unused (removelast (unused_node_indices c)) c)).
    unfold put at 1. erewrite bind_Ok by reflexivity. cut (keeps arena (_ ← set_node i (fun _ => n); mret i)); [done|]. arena_tac.
  - split; [done|]. by apply last_None in Hu.
Qed.

Lemma first_access_grown f p c : grown c (record_first_access f p c).2.
Proof.
  unfold record_first_access.
  assert (Hpre : forall A B (m : rep A) (k : A -> rep B) c, keeps arena m ->
    (forall x c, grown c (k x c).2) -> grown c ((m ≫= k) c).2).
  { intros A B m k c0 Hm Hk. specialize (Hm c0). unfold mbind, M_bind. destruct (m c0) as [[x|e|] c1]; [|by left..].
    specialize (Hk x c1). unfold grown, arena in *. simpl in *. naive_solver congruence. }
  do 4 (apply Hpre; [arena_tac|clear c; intros ? c]). clear Hpre.
  assert (Hm : forall i, keeps (fun c => (arena c, unused_node_indices c))
    (_ ← put (fun c => with_pages (<[p := i]> (page_indices c)) c);
     _ ← put (fun c => with_frames (<[f := i]> (frame_indices c)) c); push i Mru)).
  { intros i. apply keeps_bind; [by apply keeps_put|]. intros _. apply keeps_bind; [by apply keeps_put|]. intros _.
    apply push_keeps; intros; unfold arena; simpl; by rewrite ?length_insert. }
  pose proof (alloc_grown (mkNode p (Some f) false Mru None None) c) as Ha. unfold mbind at 1, M_bind at 1.
  destruct (alloc_node _ c) as [[i|e|] c']; [|done..]. specialize (Hm i c'). injection Hm as E1 E2 E3.
  unfold grown, arena in *. simpl in Ha. destruct Ha as [[= A1 A2]|[A1 A2]]; [left|right]; split || f_equal; congruence.
Qed.

Lemma access_grown f p c : grown c (record_access f p c).2.
Proof.
  unfold record_access, asks. erewrite bind_Ok by reflexivity.
  destruct (page_indices c !! p); [left; apply repeat_access_arena|apply first_access_grown].
Qed.
