(* ===== verification/ReplacerTheorems.v ===== *)
(** * What the replacer promises

    The operations of [src/replacer.rs] refine ARC on lists, keep the sizes of the lists
    within their bounds, and never panic except when a frame is admitted into a full
    replacer; an eviction that is not committed leaves no trace. *)

From Stdlib Require Import ZArith Lia.
From stdpp Require Import base list gmap option.
From S2P Require Import Prelude Ids Replacer ReplacerLinks ReplacerCore ReplacerSpec ReplacerProofs ReplacerArena.
Import Replacer.

(** ** Sizes *)

Record arc_ok (a : arc) : Prop := {
  ok_resident : length (a_mru a) + length (a_mfu a) <= a_cap a;
  ok_mru_side : length (a_mru a) + length (a_gmru a) <= a_cap a;
  ok_total : length (a_mru a) + length (a_mfu a) + length (a_gmru a) + length (a_gmfu a) <= 2 * a_cap a;
  ok_target : a_target a <= a_cap a;
}.

Lemma heads_length c a Z l : Inv c Z -> shows a Z -> h_length (list_of c l) = length (aget a l).
Proof.
  intros HI HS. rewrite (la_length _ _ _ (co_links _ _ (iv_core _ _ HI) l)), HS.
  unfold indices. by rewrite !length_fmap.
Qed.

(** Moving a page from one list to another, in numbers. *)
Lemma arc_move_length c a Z l i e l' e' l'' :
  Inv c Z -> shows a Z -> (i, e) ∈ Z l ->
  length (aget (arc_move (e_page e) l l' e' a) l'') + (if decide (l'' = l) then 1 else 0) =
    length (aget a l'') + (if decide (l'' = l') then 1 else 0).
Proof.
  intros HI HS Hin. apply list_elem_of_split in Hin as (Z1 & Z2 & Hl).
  pose proof (drop_page_pair c _ Z l Z1 i e Z2 (iv_core _ _ HI) (iv_pages _ _ HI) Hl) as Hd.
  assert (Hlen : S (length (drop_page (e_page e) (aget a l))) = length (aget a l)).
  { rewrite HS, Hd, Hl, !length_fmap, !length_app. simpl. lia. }
  unfold arc_move. rewrite !aget_aset. repeat case_decide; subst; simpl; try congruence; try lia.
Qed.

Lemma give_up_sizes c a Z f :
  Inv c Z -> shows a Z ->
  let '(freed, a') := arc_give_up f a in
  a_cap a' = a_cap a /\ a_target a' = a_target a /\
  length (a_mru a') + length (a_gmru a') = length (a_mru a) + length (a_gmru a) /\
  length (a_mfu a') + length (a_gmfu a') = length (a_mfu a) + length (a_gmfu a) /\
  length (a_mru a') + length (a_mfu a') + Nat.b2n freed = length (a_mru a) + length (a_mfu a).
Proof.
  intros HI HS. unfold arc_give_up. pose proof (a_find_spec (has_frame f) a Z HS) as Hf.
  destruct (a_find (has_frame f) a) as [[l e]|]; [|simpl; lia].
  destruct Hf as (i & Hin & Hef%bool_decide_eq_true). split; [done|]. split; [done|].
  pose proof (iv_fit _ _ HI l i e Hin) as Hfit.
  pose proof (fun l'' => arc_move_length c a Z l i e (ghost_of l) (e_page e, None, false) l'' HI HS Hin)
    as Hm.
  pose proof (Hm Mru) as M1. pose proof (Hm Mfu) as M2.
  pose proof (Hm GhostMru) as M3. pose proof (Hm GhostMfu) as M4.
  destruct l; simpl in *; try (destruct Hfit; congruence); repeat case_decide; try done; lia.
Qed.

Lemma admit_sizes c a Z f a' :
  Inv c Z -> shows a Z -> arc_ok a -> arc_admit f a = Some a' ->
  a_cap a' = a_cap a /\ a_target a' = a_target a /\
  length (a_mru a') + length (a_gmru a') = length (a_mru a) + length (a_gmru a) /\
  length (a_mfu a') + length (a_gmfu a') = length (a_mfu a) + length (a_gmfu a) /\
  length (a_mru a') + length (a_mfu a') < a_cap a.
Proof.
  intros HI HS [H1 H2 H3 H4] Ha. unfold arc_admit in Ha. pose proof (give_up_sizes c a Z f HI HS) as Hg.
  destruct (arc_give_up f a) as [freed a1]. destruct Hg as (Ec & Et & E1 & E2 & E3).
  destruct (freed || negb (arc_full a1)) eqn:Hb; simplify_eq. split_and!; try done.
  destruct freed; simpl in *; [lia|]. unfold arc_full in Hb.
  apply negb_true_iff, Nat.leb_gt in Hb. lia.
Qed.

(** ** record_access *)

Lemma bind_Panic {S E A B} (m : M S E A) (k : A -> M S E B) s :
  (m s).1 = Panic -> ((m ≫= k) s).1 = Panic.
Proof. unfold mbind, M_bind. destruct (m s) as [[] ?]; by simpl. Qed.

Lemma Inv_target c Z t : Inv c Z -> Inv (with_target t c) Z.
Proof. intros [HC ? ? ? ?]. split; try done. by eapply same_lists_core; [|exact HC]. Qed.

Lemma shows_target a Z t : shows a Z -> shows (with_atarget a t) Z.
Proof. intros H l. rewrite <- H. by destruct l. Qed.

(** A ghost hit, after the target has moved. *)
Lemma ghost_hit_ok c a Z l i e f :
  Inv c Z -> shows a Z -> a_cap a = r_capacity c -> a_target a = mru_target_size c ->
  (i, e) ∈ Z l -> is_ghost l = true ->
  match arc_admit f a with
  | None => (revive_ghost i f c).1 = Panic
  | Some a1 =>
      exists c', revive_ghost i f c = (Ok tt, c') /\
        Rel c' (arc_move (e_page e) l Mfu (e_page e, Some f, false) a1)
  end.
Proof.
  intros HI HS Hcap Htar Hin Hg. pose proof (release_frame_ok c a Z f HI HS Hcap) as Hr.
  destruct (arc_admit f a) as [a1|] eqn:Ha; [|by apply bind_Panic].
  destruct Hr as (c1 & Z' & Hr & HI1 & HS1 & Ht & Hc & Hp & Hf & Hk).
  pose proof (iv_fit _ _ HI l i e Hin) as Hfit. rewrite Hg in Hfit. destruct Hfit as [Hef _].
  assert (Hin' : (i, e) ∈ Z' l) by (apply Hk; congruence).
  apply list_elem_of_split in Hin' as (Z1 & Z2 & Hl).
  destruct (revive_ok c1 Z' l Z1 i e Z2 f HI1 Hl Hg Hf) as (c2 & H2 & HI2 & Ht2 & Hc2).
  exists c2. split; [unfold revive_ghost; erewrite bind_Ok by exact Hr; exact H2|].
  assert (Hadm : a_cap a1 = a_cap a /\ a_target a1 = a_target a).
  { unfold arc_admit in Ha. pose proof (give_up_sizes c a Z f HI HS) as Hs.
    destruct (arc_give_up f a) as [b a2]. destruct (b || _); simplify_eq. tauto. }
  destruct Hadm as [Ec Et].
  eexists. split; [exact HI2|]. split; [by eapply shows_moved; [|apply HI1|apply HI1|]|].
  simpl. split; congruence.
Qed.

Lemma ghost_delta_ok hit other : 0 < hit -> ghost_delta hit other = Ok (arc_delta hit other).
Proof. intros. unfold ghost_delta, arc_delta. case_match; [done|]. by destruct hit; [lia|]. Qed.

Lemma repeat_access_ok c a Z l i e f :
  Inv c Z -> shows a Z -> a_cap a = r_capacity c -> a_target a = mru_target_size c ->
  (i, e) ∈ Z l -> a_find (has_page (e_page e)) a = Some (l, e) ->
  match arc_access f (e_page e) a with
  | None => (record_repeat_access i f c).1 = Panic
  | Some a' => exists c', record_repeat_access i f c = (Ok tt, c') /\ Rel c' a'
  end.
Proof.
  intros HI HS Hcap Htar Hin Hfind. pose proof (iv_core _ _ HI) as HC.
  destruct (core_elem _ _ HC _ _ _ Hin) as (n & Hn & He & Hnl).
  assert (Efr : n_frame_id n = e_frame e) by by rewrite <- He.
  apply list_elem_of_split in Hin as Hsplit. destruct Hsplit as (Z1 & Z2 & Hl).
  unfold record_repeat_access, node. erewrite bind_lift by by rewrite Hn. rewrite Hnl.
  unfold arc_access. rewrite Hfind.
  assert (Hres : is_ghost l = false ->
    match (if has_frame f e then Some (arc_move (e_page e) l Mfu e a)
           else Some (arc_move (e_page e) l Mfu (e_page e, Some f, false) (arc_give_up f a).2)) with
    | None => False
    | Some a' => exists c',
        (_ ← (if decide (n_frame_id n = Some f) then mret tt else move_to_new_frame i f);
         move_to_front i Mfu) c = (Ok tt, c') /\ Rel c' a'
    end).
  { intros Hg. unfold has_frame.
    destruct (bool_decide_reflect (e_frame e = Some f)) as [Hf|Hf];
      [rewrite decide_True by congruence|rewrite decide_False by congruence].
    - destruct (touch_ok c Z l Z1 i e Z2 HI Hl Hg) as (c1 & H1 & HI1 & Ht & Hc).
      exists c1. split; [exact H1|]. eexists. split; [exact HI1|].
      split; [by eapply shows_moved; [|apply HI|apply HI|]|]. simpl. split; congruence.
    - destruct (take_frame_ok c a Z f HI HS) as (c1 & Z' & H1 & HI1 & HS1 & Ht & Hc & Hp & Hff & Hk).
      assert (Hin' : (i, e) ∈ Z' l) by by apply Hk.
      apply list_elem_of_split in Hin' as (Y1 & Y2 & Hl').
      destruct (rehome_ok c1 Z' l Y1 i e Y2 f HI1 Hl' Hff) as (c2 & c3 & H2 & H3 & HI3 & Ht3 & Hc3).
      exists c3. split.
      { erewrite bind_Ok; [exact H3|]. unfold move_to_new_frame. erewrite bind_Ok by exact H1. exact H2. }
      eexists. split; [exact HI3|]. split; [by eapply shows_moved; [|apply HI1|apply HI1|]|].
      pose proof (give_up_sizes c a Z f HI HS) as Hs. destruct (arc_give_up f a) as [b a2].
      simpl in *. destruct Hs as (Ec & Et & _). split; congruence. }
  destruct l; [specialize (Hres eq_refl); by destruct (has_frame f e)..| |]; clear Hres.
  - assert (Hlen : 0 < length (aget a GhostMru)) by (rewrite HS, Hl, length_fmap, length_app; simpl; lia).
    simpl in Hlen.
    pose proof (heads_length c a Z GhostMru HI HS) as L1.
    pose proof (heads_length c a Z GhostMfu HI HS) as L2. simpl in L1, L2.
    erewrite bind_lift by (rewrite L1, L2; by apply ghost_delta_ok). unfold put. mstep.
    set (a0 := with_atarget a _). set (c0 := with_target _ c).
    pose proof (ghost_hit_ok c0 a0 Z GhostMru i e f (Inv_target _ _ _ HI) (shows_target _ _ _ HS) Hcap) as Hh.
    specialize (Hh ltac:(simpl; congruence) Hin eq_refl). by destruct (arc_admit f a0).
  - assert (Hlen : 0 < length (aget a GhostMfu)) by (rewrite HS, Hl, length_fmap, length_app; simpl; lia).
    simpl in Hlen.
    pose proof (heads_length c a Z GhostMru HI HS) as L1.
    pose proof (heads_length c a Z GhostMfu HI HS) as L2. simpl in L1, L2.
    erewrite bind_lift by (rewrite L1, L2; by apply ghost_delta_ok). unfold put. mstep.
    set (a0 := with_atarget a _). set (c0 := with_target _ c).
    pose proof (ghost_hit_ok c0 a0 Z GhostMfu i e f (Inv_target _ _ _ HI) (shows_target _ _ _ HS) Hcap) as Hh.
    specialize (Hh ltac:(simpl; congruence) Hin eq_refl). by destruct (arc_admit f a0).
Qed.

(** Dropping the least recent ghost of a list that has one. *)
Lemma trim_ok c a Z g f p :
  Inv c Z -> shows a Z -> 0 < length (aget a (ghost_list g)) ->
  page_indices c !! p = None -> frame_indices c !! f = None ->
  exists c' Z', trim_ghost_tail g c = (Ok tt, c') /\ Inv c' Z' /\
    shows (aset a (ghost_list g) (removelast (aget a (ghost_list g)))) Z' /\
    mru_target_size c' = mru_target_size c /\ r_capacity c' = r_capacity c /\
    page_indices c' !! p = None /\ frame_indices c' !! f = None.
Proof.
  intros HI HS Hlen Hp Hf.
  destruct (exists_last (l := Z (ghost_list g))) as (Z1 & [i e] & Hl).
  { intros Hz. rewrite HS, Hz in Hlen. simpl in Hlen. lia. }
  destruct (trim_ghost_tail_ok c Z g Z1 i e HI Hl) as (c' & Hr & HI' & Ht & Hc & Hp' & Hf').
  exists c', (zupd Z (ghost_list g) Z1). split_and!; try done.
  - intros l. rewrite aget_aset. unfold zupd. case_decide; [|apply HS].
    rewrite HS, Hl, fmap_app. csimpl. by rewrite removelast_last.
  - rewrite Hp'. apply lookup_delete_None. by right.
  - by rewrite Hf'.
Qed.

Lemma first_access_ok c a Z f p :
  Inv c Z -> shows a Z -> a_cap a = r_capacity c -> a_target a = mru_target_size c -> arc_ok a ->
  page_indices c !! p = None -> a_find (has_page p) a = None ->
  match arc_access f p a with
  | None => (record_first_access f p c).1 = Panic
  | Some a' => exists c', record_first_access f p c = (Ok tt, c') /\ Rel c' a'
  end.
Proof.
  intros HI HS Hcap Htar Hok Hp Hfind. unfold arc_access. rewrite Hfind.
  pose proof (release_frame_ok c a Z f HI HS Hcap) as Hr.
  destruct (arc_admit f a) as [a1|] eqn:Ha; [|by apply bind_Panic].
  destruct Hr as (c1 & Z1 & Hr & HI1 & HS1 & Ht1 & Hc1 & Hp1 & Hf1 & _).
  destruct (admit_sizes c a Z f a1 HI HS Hok Ha) as (Ec & Et & E1 & E2 & E3).
  destruct Hok as [K1 K2 K3 K4]. simpl.
  pose proof (heads_length c1 a1 Z1 Mru HI1 HS1) as L1.
  pose proof (heads_length c1 a1 Z1 Mfu HI1 HS1) as L2.
  pose proof (heads_length c1 a1 Z1 GhostMru HI1 HS1) as L3.
  pose proof (heads_length c1 a1 Z1 GhostMfu HI1 HS1) as L4. simpl in L1, L2, L3, L4.
  assert (Htrim : exists c2 Z2,
    (if decide (h_length (mru_list c1) + h_length (mru_ghost_list c1) = r_capacity c1)
     then trim_ghost_tail GMru
     else
       _ ← liftc (rassert (h_length (mru_list c1) + h_length (mru_ghost_list c1) <? r_capacity c1));
       tracked ← asks (fun c => h_length (mru_list c1) + h_length (mru_ghost_list c1) +
                         h_length (mfu_list c) + h_length (mfu_ghost_list c));
       if decide (tracked = 2 * r_capacity c1) then trim_ghost_tail GMfu else mret tt) c1 =
      (Ok tt, c2) /\ Inv c2 Z2 /\ shows (arc_trim a1) Z2 /\
    mru_target_size c2 = mru_target_size c1 /\ r_capacity c2 = r_capacity c1 /\
    page_indices c2 !! p = None /\ frame_indices c2 !! f = None).
  { unfold arc_trim. rewrite L1, L3. replace (a_cap a1) with (r_capacity c1) by congruence.
    assert (Hpc : page_indices c1 !! p = None) by congruence.
    case_decide.
    - rewrite (proj2 (Nat.eqb_eq _ _)) by done.
      apply (trim_ok c1 a1 Z1 GMru f p); try done. simpl. lia.
    - rewrite (proj2 (Nat.eqb_neq _ _)) by done.
      erewrite bind_liftc by (unfold rassert; by rewrite (proj2 (Nat.ltb_lt _ _)) by lia).
      unfold asks. mstep. rewrite L2, L4. case_decide.
      + rewrite (proj2 (Nat.eqb_eq _ _)) by done.
        apply (trim_ok c1 a1 Z1 GMfu f p); try done. simpl. lia.
      + rewrite (proj2 (Nat.eqb_neq _ _)) by done. exists c1, Z1. done. }
  destruct Htrim as (c2 & Z2 & H2 & HI2 & HS2 & Ht2 & Hc2 & Hp2 & Hf2).
  destruct (admit_new_ok c2 Z2 f p HI2 Hp2 Hf2) as (c3 & i & H3 & HI3 & Ht3 & Hc3).
  exists c3. split.
  { unfold record_first_access. erewrite bind_Ok by exact Hr. unfold asks. mstep. mstep.
    erewrite bind_Ok by exact H2. exact H3. }
  eexists. split; [exact HI3|].
  assert (Htr : a_target (arc_trim a1) = a_target a1 /\ a_cap (arc_trim a1) = a_cap a1)
    by (unfold arc_trim; repeat case_match; done).
  split_and!; simpl; [|destruct Htr; congruence..].
  intros l. rewrite aget_aset. unfold zupd. destruct (decide (l = Mru)); [|apply HS2]. csimpl.
  by rewrite <- (HS2 Mru).
Qed.

Lemma record_access_ok c a f p :
  Rel c a -> arc_ok a ->
  match arc_access f p a with
  | None => (record_access f p c).1 = Panic
  | Some a' => exists c', record_access f p c = (Ok tt, c') /\ Rel c' a'
  end.
Proof.
  intros (Z & HI & HS & Htar & Hcap) Hok. unfold record_access, asks. mstep.
  destruct (page_indices c !! p) as [i|] eqn:Hp.
  - pose proof (proj1 (iv_pages _ _ HI p i) Hp) as (l & e & Hin & <-).
    apply (repeat_access_ok c a Z l i e f); try done.
    apply (a_find_at (has_page (e_page e)) a Z c l i e);
      [done|apply HI|eapply unique_page, HI|done|by apply bool_decide_eq_true].
  - apply (first_access_ok c a Z f p); try done.
    pose proof (a_find_spec (has_page p) a Z HS) as Hfind.
    destruct (a_find (has_page p) a) as [[l e]|]; [|done].
    destruct Hfind as (i & Hin & Hef%bool_decide_eq_true).
    assert (page_indices c !! p = Some i) by (apply (iv_pages _ _ HI); eauto). congruence.
Qed.

(** ** set_evictable *)

Lemma set_evict_absent f v (z : list (nat * entry)) :
  (forall i e, (i, e) ∈ z -> e_frame e <> Some f) -> set_evict f v <$> z.*2 = z.*2.
Proof.
  induction z as [|[i e] z IH]; intros H; csimpl; [done|]. f_equal.
  - unfold set_evict, has_frame. rewrite bool_decide_eq_false_2; [done|]. apply (H i). set_solver.
  - apply IH. intros j e' Hj. apply (H j). set_solver.
Qed.

Lemma aget_set_evictable f v a l : aget (arc_set_evictable f v a) l = set_evict f v <$> aget a l.
Proof. by destruct l. Qed.

Lemma count_step_ok v (w : bool) c :
  (w = true -> 0 < evictable_count c) ->
  match v, w with
  | true, false => put (fun c => with_count (S (evictable_count c)) c)
  | false, true => decr_count
  | _, _ => mret tt
  end c = (Ok tt, with_count (evictable_count c + Nat.b2n v - Nat.b2n w) c).
Proof.
  intros H. destruct v, w; simpl.
  - rewrite Nat.add_sub. by destruct c.
  - unfold put. by rewrite Nat.add_comm, Nat.sub_0_r.
  - rewrite Nat.add_0_r. by apply (decr_if_ok true).
  - rewrite Nat.add_0_r, Nat.sub_0_r. by destruct c.
Qed.

Lemma set_evictable_ok c a f v :
  Rel c a -> exists c', set_evictable f v c = (Ok tt, c') /\ Rel c' (arc_set_evictable f v a).
Proof.
  intros (Z & HI & HS & Htar & Hcap). pose proof HI as [HC HP HFr HF Hn].
  unfold set_evictable, asks. mstep. destruct (frame_indices c !! f) as [i|] eqn:Hf.
  2:{ exists c. split; [done|]. exists Z. split; [done|]. split; [|done]. intros l.
      rewrite aget_set_evictable, HS. apply set_evict_absent. intros i e Hin Hef.
      assert (frame_indices c !! f = Some i) by (apply HFr; eauto). congruence. }
  pose proof (proj1 (HFr f i) Hf) as (l & e & Hin & Hef).
  apply list_elem_of_split in Hin as Hsplit. destruct Hsplit as (Z1 & Z2 & Hl).
  destruct (core_elem _ _ HC _ _ _ Hin) as (n & Hnode & He & Hnl).
  assert (Eev : n_evictable n = e_evictable e) by by rewrite <- He.
  unfold node. erewrite bind_lift by by rewrite Hnode.
  destruct (core_set c Z l Z1 i e Z2 (set_flag v) (fun e => (e.1, v))) as [H1 HC1]; [done..|].
  erewrite bind_Ok by exact H1.
  rewrite count_step_ok by (rewrite Eev; exact (evictable_pos c Z l i e HI Hin)).
  eexists. split; [done|]. eexists. split_and!; try done.
  - apply (inv_replaced c _ Z l Z1 i e Z2 l Z1 Z2 (e.1, v) HI Hl); try done.
    + by rewrite zupd_eq.
    + eapply same_lists_core; [|eapply Core_ext; [|exact HC1]]; [done|].
      intros l'. unfold zupd. by case_decide.
    + pose proof (HF l i e Hin) as Hfit. unfold fits. destruct (is_ghost l); [|done].
      destruct Hfit. congruence.
    + intros f' Hf'. left. done.
    + simpl. unfold e_frame in *. simpl. rewrite Hef. simpl. symmetry. by apply insert_delete_id.
    + pose proof (evictable_pos c Z l i e HI Hin) as Hpos. simpl. rewrite Eev.
      destruct e as [pe be]. unfold e_evictable in *. simpl in *. destruct be, v; simpl; try lia;
      specialize (Hpos eq_refl); lia.
  - intros l'. rewrite aget_set_evictable, HS. unfold zupd.
    assert (Hoth : forall l' z, (forall x, x ∈ z -> x ∈ zupd Z l (Z1 ++ Z2) l') ->
      set_evict f v <$> z.*2 = z.*2).
    { intros l2 z Hz. apply set_evict_absent. intros j ej Hj Hfj.
      destruct (core_others c Z l Z1 i e Z2 l2 j ej HC Hl (Hz _ Hj)) as [Hne Hjz].
      assert (frame_indices c !! f = Some j) by (apply HFr; eauto). congruence. }
    destruct (decide (l' = l)) as [->|Hne].
    + rewrite Hl, !fmap_app. csimpl. unfold set_evict at 2, has_frame at 1.
      rewrite bool_decide_eq_true_2 by done.
      rewrite (Hoth l Z1), (Hoth l Z2); [done|..]; intros x Hx; rewrite zupd_eq; set_solver.
    + apply (Hoth l'). intros x Hx. by rewrite zupd_ne.
Qed.

(** ** Eviction *)

Definition evictable_pair (x : nat * entry) : bool := e_evictable x.2.

(** The walk from the least recent node of a list towards the more recent ones. *)
Lemma find_victim_ok c Z l : Core c Z ->
  forall z1 j ej rest fuel, Z l = (z1 ++ [(j, ej)]) ++ rest -> length z1 < fuel ->
  find_victim fuel j c = (Ok (fst <$> find evictable_pair (rev (z1 ++ [(j, ej)]))), c).
Proof.
  intros HC z1. induction z1 as [|[k ek] z1 IH] using rev_ind; intros j ej rest fuel Hl Hfuel.
  all: destruct fuel as [|fuel]; [simpl in Hfuel; lia|].
  all: destruct (core_elem c Z HC l j ej) as (n & Hn & He & _); [rewrite Hl; set_solver|].
  all: cbn [find_victim]; unfold node; erewrite bind_lift by by rewrite Hn.
  all: assert (Eev : n_evictable n = e_evictable ej) by by rewrite <- He.
  all: pose proof (la_linked _ _ _ (co_links _ _ HC l)) as Hk; unfold indices in Hk.
  all: rewrite rev_app_distr; cbn [rev app find]; unfold evictable_pair at 1; cbn [snd].
  all: rewrite Eev; destruct (e_evictable ej); [done|].
  - rewrite Hl in Hk. simpl in Hk. destruct Hk as (n' & Hn' & _ & Hp & _). simplify_eq.
    by rewrite Hp.
  - rewrite Hl, <- !app_assoc in Hk. rewrite !fmap_app in Hk.
    apply linked_app in Hk as [_ Hk]. simpl in Hk. destruct Hk as (_ & _ & _ & _ & _ & Hk).
    destruct Hk as (n' & Hn' & _ & Hp & _). assert (n' = n) as -> by congruence. rewrite Hp.
    rewrite (IH k ek ((j, ej) :: rest) fuel); [done|..].
    + rewrite Hl. by rewrite <- !app_assoc.
    + rewrite length_app in Hfuel. simpl in Hfuel. lia.
Qed.

Lemma core_length c Z l : Core c Z -> length (Z l) <= length (nodes c).
Proof.
  intros HC. pose proof (co_arena _ _ HC) as Ha. apply Permutation_length in Ha.
  rewrite length_app, length_seq in Ha. unfold all_indices, indices in Ha.
  rewrite !length_app, !length_fmap in Ha. destruct l; lia.
Qed.

Lemma find_rev_split {A} (P : A -> bool) (z : list A) x :
  find P (rev z) = Some x ->
  exists z1 z2, z = z1 ++ x :: z2 /\ P x = true /\ Forall (fun y => P y = false) z2.
Proof.
  induction z as [|y z IH] using rev_ind; [done|]. rewrite rev_app_distr. simpl.
  destruct (P y) eqn:HP.
  - intros [= <-]. exists z, []. done.
  - intros (z1 & z2 & -> & HPx & Hz2)%IH. exists z1, (z2 ++ [y]).
    rewrite <- app_assoc. split; [done|]. split; [done|]. by apply Forall_app; repeat constructor.
Qed.

Lemma evict_from_list_ok c Z r :
  Inv c Z ->
  let l := resident_list r in
  match find evictable_pair (rev (Z l)) with
  | None => evict_from_list r c = (Ok None, c)
  | Some (i, e) =>
      exists Z1 Z2 f c', Z l = Z1 ++ (i, e) :: Z2 /\ e_frame e = Some f /\ e_evictable e = true /\
        evict_from_list r c = (Ok (Some (mkUndo i f r (final None Z1.*1))), c') /\
        Inv c' (moved Z l (Z1 ++ Z2) (ghost_of l) (i, (e_page e, None, false))) /\
        mru_target_size c' = mru_target_size c /\ r_capacity c' = r_capacity c /\ free_kept c c' /\
        page_indices c' = page_indices c /\ frame_indices c' = delete f (frame_indices c)
  end.
Proof.
  intros HI l. pose proof (iv_core _ _ HI) as HC.
  assert (Hg : is_ghost l = false) by by destruct r.
  unfold evict_from_list, asks. mstep. fold l.
  rewrite (la_least _ _ _ (co_links _ _ HC l)).
  destruct (decide (Z l = [])) as [Hz|Hz].
  { unfold indices. rewrite Hz. done. }
  destruct (exists_last Hz) as (z1 & [j ej] & Hl).
  assert (Hfin : final None (indices Z l) = Some j).
  { unfold indices. rewrite Hl, fmap_app, final_app. done. }
  rewrite Hfin. mstep. erewrite bind_Ok.
  2:{ apply (find_victim_ok c Z l HC z1 j ej []); [by rewrite app_nil_r|].
      pose proof (core_length c Z l HC) as Hlen. rewrite Hl, length_app in Hlen. simpl in Hlen. lia. }
  rewrite <- Hl. destruct (find evictable_pair (rev (Z l))) as [[i e]|] eqn:Hv; simpl; [|done].
  apply find_rev_split in Hv as (Z1 & Z2 & Hs & Hev & _).
  assert (Hin : (i, e) ∈ Z l) by (rewrite Hs; set_solver).
  destruct (core_elem _ _ HC _ _ _ Hin) as (n & Hn & He & Hnl).
  pose proof (iv_fit _ _ HI l i e Hin) as Hfit. rewrite Hg in Hfit. destruct Hfit as [f Hf].
  unfold node. erewrite bind_lift by by rewrite Hn.
  assert (Efr : n_frame_id n = Some f) by by rewrite <- Hf, <- He. rewrite Efr.
  assert (Epr : n_prev n = final None Z1.*1).
  { pose proof (la_linked _ _ _ (co_links _ _ HC l)) as Hk. unfold indices in Hk.
    rewrite Hs, fmap_app in Hk. apply linked_app in Hk as [_ (n' & Hn' & _ & Hp & _)].
    simpl in *. congruence. }
  destruct (give_up_frame_ok c Z l Z1 i e Z2 HI Hs Hg) as (c' & Hr & HI' & Ht & Hc & Hk & Hp' & Hf').
  exists Z1, Z2, f, c'. erewrite bind_Ok by exact Hr. rewrite Epr, Hf' , Hf. done.
Qed.

(** Putting a victim back. *)
Lemma undo_ok c c' Z r Z1 i e Z2 f :
  let l := resident_list r in
  Inv c Z -> Z l = Z1 ++ (i, e) :: Z2 -> e_frame e = Some f -> e_evictable e = true ->
  Inv c' (moved Z l (Z1 ++ Z2) (ghost_of l) (i, (e_page e, None, false))) ->
  mru_target_size c' = mru_target_size c -> r_capacity c' = r_capacity c ->
  page_indices c' = page_indices c -> frame_indices c' = delete f (frame_indices c) ->
  exists c'', undo_eviction (mkUndo i f r (final None Z1.*1)) c' = (Ok tt, c'') /\ Inv c'' Z /\
    mru_target_size c'' = mru_target_size c /\ r_capacity c'' = r_capacity c /\ free_kept c' c''.
Proof.
  intros l HI Hl Hef Hev HI' Ht Hc Hp Hf. pose proof HI as [HC HP HFr HF Hn].
  assert (Hlg : l <> ghost_of l) by by destruct r.
  assert (He : e = (e_page e, Some f, true)).
  { destruct e as [[pe fe] ve]. unfold e_page, e_frame, e_evictable in *. simpl in *. congruence. }
  set (Zd := zupd Z l (Z1 ++ Z2)). set (g := ghost_of l) in *.
  destruct (core_detach c' _ g [] i (e_page e, None, false) (Zd g) (iv_core _ _ HI'))
    as (c1 & H1 & HP1 & O1); [by rewrite moved_front|].
  unfold undo_eviction. cbn [u_node_idx u_frame_id u_list u_more_recent].
  erewrite bind_Ok by exact H1. fold l.
  set (Zg := zupd _ g ([] ++ Zd g)) in HP1.
  assert (HZg : forall l', Zg l' = Zd l').
  { intros l'. unfold Zg. destruct (decide (l' = g)) as [->|]; [by rewrite zupd_eq|].
    unfold moved. by rewrite !(zupd_ne _ g) by done. }
  assert (Hins : exists c2, insert_after i l (final None Z1.*1) c1 = (Ok tt, c2) /\
    Core c2 (zupd Zg l (Z1 ++ (i, (e_page e, None, false)) :: Z2)) /\ only_links c1 c2).
  { assert (Hzl : Zg l = Z1 ++ Z2) by by rewrite HZg; unfold Zd; rewrite zupd_eq.
    destruct Z1 as [|[m em] Z1' _] using rev_ind.
    - destruct (core_push c1 Zg i _ l HP1) as (c2 & H2 & HC2 & O2). rewrite Hzl in HC2. eauto.
    - rewrite fmap_app, final_app. csimpl.
      destruct (core_insert_after c1 Zg i _ l Z1' m em Z2 HP1) as (c2 & H2 & HC2 & O2).
      { by rewrite Hzl, <- app_assoc. }
      exists c2. rewrite <- app_assoc. done. }
  destruct Hins as (c2 & H2 & HC2 & O2). erewrite bind_Ok by exact H2.
  destruct (core_set c2 _ l Z1 i (e_page e, None, false) Z2 (set_frame (Some f))
    (fun e => (e_page e, Some f, e_evictable e)) HC2) as [H3 HC3]; [by rewrite zupd_eq|done|].
  erewrite bind_Ok by exact H3.
  destruct (core_set _ _ l Z1 i (e_page e, Some f, false) Z2 (set_flag true)
    (fun e => (e_page e, e_frame e, true)) HC3) as [H4 HC4]; [by rewrite zupd_eq|done|].
  erewrite bind_Ok by exact H4. unfold put. mstep.
  assert (O : only_links c' c2) by by etrans.
  eexists. split; [done|]. split; [|simpl; rewrite (ol_target _ _ O), (ol_capacity _ _ O); split_and!; try done].
  2:{ etrans; [exact (only_links_free _ _ O)|].
      etrans; [apply (core_set_free c2 _ l i (e_page e, None, false) (set_frame (Some f)) HC2); rewrite zupd_eq; set_solver|].
      etrans; [apply (core_set_free _ _ l i (e_page e, Some f, false) (set_flag true) HC3); rewrite zupd_eq; set_solver|].
      by apply same_lists_free. }
  split; try done.
  - eapply same_lists_core; [|eapply Core_ext; [|exact HC4]]; [done|].
    intros l'. unfold zupd at 1. case_decide; subst.
    + rewrite Hl. do 3 f_equal. by rewrite He.
    + rewrite !zupd_ne, HZg by done. unfold Zd. by rewrite zupd_ne.
  - simpl. rewrite (ol_pages _ _ O), Hp. done.
  - simpl. rewrite (ol_frames _ _ O), Hf. rewrite insert_delete_id; [done|].
    apply HFr. exists l, e. split; [rewrite Hl; set_solver|done].
  - simpl. rewrite (ol_count _ _ O), (iv_count _ _ HI').
    pose proof (total_detached Z l Z1 i e Z2 Hl) as Hd. rewrite Hev in Hd. fold Zd in Hd.
    pose proof (total_inserted Zd g [] (Zd g) i (e_page e, None, false) eq_refl) as Hi.
    unfold moved. fold Zd. simpl in *. lia.
Qed.

Lemma victim_pair (z : list (nat * entry)) :
  victim z.*2 = snd <$> find evictable_pair (rev z).
Proof.
  unfold victim. replace (rev z.*2) with (rev z).*2.
  - induction (rev z) as [|[i e] y IH]; csimpl; [done|].
    unfold evictable_pair at 1. simpl. by destruct (e_evictable e).
  - induction z as [|[i e] z IH]; csimpl; [done|]. by rewrite fmap_app, IH.
Qed.

Lemma evict_from_refines c a r :
  Rel c a ->
  match arc_evict_from (resident_list r) a with
  | None => evict_from_list r c = (Ok None, c)
  | Some (f, a') =>
      exists u c', evict_from_list r c = (Ok (Some u), c') /\ u_frame_id u = f /\ Rel c' a' /\
        undo_eviction u c' = (Ok tt, c)
  end.
Proof.
  intros (Z & HI & HS & Htar & Hcap). set (l := resident_list r).
  pose proof (evict_from_list_ok c Z r HI) as Hev. cbv zeta in Hev. fold l in Hev.
  unfold arc_evict_from. rewrite HS, victim_pair.
  destruct (find evictable_pair (rev (Z l))) as [[i e]|]; simpl; [|done].
  destruct Hev as (Z1 & Z2 & f & c' & Hl & Hef & He & Hr & HI' & Ht & Hc & Hk & Hp & Hf).
  rewrite Hef. simpl. exists (mkUndo i f r (final None Z1.*1)), c'. split_and!; try done.
  - eexists. split; [exact HI'|]. split; [by eapply shows_moved; [|apply HI|apply HI|]|].
    simpl. split; congruence.
  - destruct (undo_ok c c' Z r Z1 i e Z2 f HI Hl Hef He HI' Ht Hc Hp Hf) as (c'' & Hu & HI'' & Ht' & Hc' & Hk').
    rewrite Hu. by rewrite (Inv_determines c c'' Z HI HI'' Ht' Hc' (transitivity Hk Hk')).
Qed.

Lemma begin_eviction_refines c a :
  Rel c a ->
  match arc_evict a with
  | None => begin_eviction c = (Ok None, c)
  | Some (f, a') =>
      exists u c', begin_eviction c = (Ok (Some u), c') /\ u_frame_id u = f /\ Rel c' a' /\
        undo_eviction u c' = (Ok tt, c)
  end.
Proof.
  intros HR. pose proof HR as (Z & HI & HS & Htar & Hcap).
  unfold arc_evict, begin_eviction, asks. mstep.
  pose proof (heads_length c a Z Mru HI HS) as L1. simpl in L1. rewrite L1, <- Htar.
  destruct (a_target a <=? length (a_mru a)).
  - pose proof (evict_from_refines c a RMru HR) as H1. pose proof (evict_from_refines c a RMfu HR) as H2.
    simpl in *. destruct (arc_evict_from Mru a) as [[f a']|].
    + destruct H1 as (u & c' & H1 & Hrest). exists u, c'. by erewrite bind_Ok by exact H1.
    + erewrite bind_Ok by exact H1. done.
  - pose proof (evict_from_refines c a RMfu HR) as H1. pose proof (evict_from_refines c a RMru HR) as H2.
    simpl in *. destruct (arc_evict_from Mfu a) as [[f a']|].
    + destruct H1 as (u & c' & H1 & Hrest). exists u, c'. by erewrite bind_Ok by exact H1.
    + erewrite bind_Ok by exact H1. done.
Qed.

(** ** The bounds are kept *)

Lemma move_to_mfu_ok c a Z l i e e' :
  Inv c Z -> shows a Z -> (i, e) ∈ Z l ->
  length (a_mru a) + length (a_mfu a) + (if is_ghost l then 1 else 0) <= a_cap a ->
  length (a_mru a) + length (a_gmru a) <= a_cap a ->
  length (a_mru a) + length (a_mfu a) + length (a_gmru a) + length (a_gmfu a) <= 2 * a_cap a ->
  a_target a <= a_cap a -> arc_ok (arc_move (e_page e) l Mfu e' a).
Proof.
  intros HI HS Hin H1 H2 H3 H4.
  pose proof (fun l'' => arc_move_length c a Z l i e Mfu e' l'' HI HS Hin) as Hm.
  pose proof (Hm Mru) as M1. pose proof (Hm Mfu) as M2.
  pose proof (Hm GhostMru) as M3. pose proof (Hm GhostMfu) as M4. clear Hm.
  unfold arc_move in *.
  destruct l; simpl in *; repeat case_decide; try done; split; simpl; lia.
Qed.

Lemma arc_access_ok c a f p a' : Rel c a -> arc_ok a -> arc_access f p a = Some a' -> arc_ok a'.
Proof.
  intros (Z & HI & HS & Htar & Hcap) Hok Ha. pose proof Hok as [K1 K2 K3 K4].
  unfold arc_access in Ha. pose proof (a_find_spec (has_page p) a Z HS) as Hfind.
  destruct (a_find (has_page p) a) as [[l e]|].
  - destruct Hfind as (i & Hin & <-%bool_decide_eq_true).
    pose proof (iv_fit _ _ HI l i e Hin) as Hfit.
    assert (Hres : is_ghost l = false ->
      (if has_frame f e then Some (arc_move (e_page e) l Mfu e a)
       else Some (arc_move (e_page e) l Mfu (e_page e, Some f, false) (arc_give_up f a).2)) = Some a' ->
      arc_ok a').
    { intros Hg He. destruct (has_frame f e) eqn:Hf; simplify_eq.
      - apply (move_to_mfu_ok c a Z l i); rewrite ?Hg; try done. lia.
      - apply bool_decide_eq_false in Hf.
        destruct (take_frame_ok c a Z f HI HS) as (c1 & Z' & H1 & HI1 & HS1 & _ & _ & _ & _ & Hk).
        pose proof (give_up_sizes c a Z f HI HS) as Hs. destruct (arc_give_up f a) as [b a1].
        simpl in *. destruct Hs as (Ec & Et & E1 & E2 & E3).
        apply (move_to_mfu_ok c1 a1 Z' l i); rewrite ?Hg; eauto; lia. }
    assert (Hghost : forall t, is_ghost l = true -> t <= a_cap a ->
      (a1 ← arc_admit f (with_atarget a t);
       Some (arc_move (e_page e) l Mfu (e_page e, Some f, false) a1)) = Some a' -> arc_ok a').
    { intros t Hg Ht He. rewrite Hg in Hfit. destruct Hfit as [Hef _].
      set (a0 := with_atarget a t) in *. set (c0 := with_target t c).
      assert (HI0 : Inv c0 Z) by by apply Inv_target.
      assert (HS0 : shows a0 Z) by by apply shows_target.
      pose proof (release_frame_ok c0 a0 Z f HI0 HS0 Hcap) as Hr.
      destruct (arc_admit f a0) as [a1|] eqn:Hadm; simplify_eq/=.
      destruct Hr as (c1 & Z' & _ & HI1 & HS1 & _ & _ & _ & _ & Hk).
      destruct (admit_sizes c0 a0 Z f a1 HI0 HS0) as (Ec & Et & E1 & E2 & E3); [by split|done|].
      simpl in *. apply (move_to_mfu_ok c1 a1 Z' l i); rewrite ?Hg; try done; try lia.
      apply Hk; congruence. }
    destruct l; [by apply Hres..| |]; (eapply Hghost; [done| |exact Ha]); lia.
  - destruct (arc_admit f a) as [a1|] eqn:Hadm; simplify_eq/=.
    destruct (admit_sizes c a Z f a1 HI HS Hok Hadm) as (Ec & Et & E1 & E2 & E3).
    assert (Hrl : forall l : list entry, 0 < length l -> S (length (removelast l)) = length l).
    { intros l Hl. destruct (exists_last (l := l)) as (l1 & x & ->); [by destruct l; simpl in *; [lia|]|].
      rewrite removelast_last, length_app. simpl. lia. }
    unfold arc_trim. destruct (Nat.eqb_spec (length (a_mru a1) + length (a_gmru a1)) (a_cap a1));
      [|destruct (Nat.eqb_spec (length (a_mru a1) + length (a_gmru a1) + length (a_mfu a1) +
        length (a_gmfu a1)) (2 * a_cap a1))]; split; simpl; try lia.
    all: try (pose proof (Hrl (a_gmru a1)); lia); pose proof (Hrl (a_gmfu a1)); lia.
Qed.

(** Operations other than an access. *)
Lemma arc_remove_ok a p : arc_ok a -> arc_ok (arc_remove p a).2.
Proof.
  assert (Hd : forall l, length (drop_page p l) <= length l).
  { intros l. unfold drop_page. induction l as [|e l IH]; simpl; [lia|]. destruct (negb _); simpl; lia. }
  intros [K1 K2 K3 K4]. unfold arc_remove. destruct (a_find (has_page p) a) as [[l e]|]; [|done].
  pose proof (Hd (aget a l)). destruct l; split; simpl in *; lia.
Qed.

Lemma arc_set_evictable_ok a f v : arc_ok a -> arc_ok (arc_set_evictable f v a).
Proof. intros [K1 K2 K3 K4]. split; simpl; rewrite ?length_fmap; lia. Qed.

Lemma arc_evict_ok c a f a' : Rel c a -> arc_ok a -> arc_evict a = Some (f, a') -> arc_ok a'.
Proof.
  intros (Z & HI & HS & _ & _) [K1 K2 K3 K4] He.
  assert (Hfrom : forall r, arc_evict_from (resident_list r) a = Some (f, a') -> arc_ok a').
  { intros r Hr. unfold arc_evict_from in Hr. rewrite HS, victim_pair in Hr.
    destruct (find evictable_pair (rev (Z (resident_list r)))) as [[i e]|] eqn:Hv; [|done].
    apply find_rev_split in Hv as (Z1 & Z2 & Hl & _). simpl in Hr.
    destruct (e_frame e); simplify_eq/=.
    assert (Hin : (i, e) ∈ Z (resident_list r)) by (rewrite Hl; set_solver).
    pose proof (fun l'' => arc_move_length c a Z _ i e (ghost_of (resident_list r))
      (e_page e, None, false) l'' HI HS Hin) as Hm.
    pose proof (Hm Mru) as M1. pose proof (Hm Mfu) as M2.
    pose proof (Hm GhostMru) as M3. pose proof (Hm GhostMfu) as M4. clear Hm. unfold arc_move in *.
    destruct r; simpl in *; repeat case_decide; try done; split; simpl; lia. }
  unfold arc_evict in He. destruct (a_target a <=? length (a_mru a)).
  - destruct (arc_evict_from Mru a) eqn:E1; simplify_eq; [by apply (Hfrom RMru)|by apply (Hfrom RMfu)].
  - destruct (arc_evict_from Mfu a) eqn:E1; simplify_eq; [by apply (Hfrom RMfu)|by apply (Hfrom RMru)].
Qed.

(** ** Operations as data *)

Inductive rep_op : Type :=
| RAccess (f : FrameId) (p : PageId)
| RSetEvictable (f : FrameId) (v : bool)
| RRemove (p : PageId)
| REvict
| RTryEvict.

(** [RTryEvict] begins an eviction and drops it uncommitted. *)
Definition rep_step (o : rep_op) : rep (option FrameId) :=
  match o with
  | RAccess f p => _ ← record_access f p; mret None
  | RSetEvictable f v => _ ← set_evictable f v; mret None
  | RRemove p => Replacer.remove p
  | REvict => evict
  | RTryEvict =>
      undo ← begin_eviction;
      match undo with
      | Some u => _ ← undo_eviction u; mret (Some (u_frame_id u))
      | None => mret None
      end
  end.

Definition arc_step (o : rep_op) (a : arc) : option (option FrameId * arc) :=
  match o with
  | RAccess f p => a' ← arc_access f p a; Some (None, a')
  | RSetEvictable f v => Some (None, arc_set_evictable f v a)
  | RRemove p => Some (arc_remove p a)
  | REvict => Some (match arc_evict a with Some (f, a') => (Some f, a') | None => (None, a) end)
  | RTryEvict => Some (match arc_evict a with Some (f, _) => (Some f, a) | None => (None, a) end)
  end.

Fixpoint rep_run (ops : list rep_op) (c : ArcReplacer) : outcome Empty_set ArcReplacer :=
  match ops with
  | [] => Ok c
  | o :: ops =>
      match rep_step o c with
      | (Ok _, c') => rep_run ops c'
      | (Err e, _) => Err e
      | (Panic, _) => Panic
      end
  end.

Lemma rep_step_rel c a o :
  Rel c a -> arc_ok a ->
  match arc_step o a with
  | None => (rep_step o c).1 = Panic
  | Some (r, a') => exists c', rep_step o c = (Ok r, c') /\ Rel c' a' /\ arc_ok a'
  end.
Proof.
  intros HR Hok. destruct o as [f p|f v|p| |]; cbn [arc_step rep_step].
  - pose proof (record_access_ok c a f p HR Hok) as Ha.
    destruct (arc_access f p a) as [a'|] eqn:E; simpl.
    + destruct Ha as (c' & Hr & HR'). exists c'. erewrite bind_Ok by exact Hr.
      split_and!; try done. by eapply (arc_access_ok c a f p).
    + by apply bind_Panic.
  - destruct (set_evictable_ok c a f v HR) as (c' & Hr & HR'). exists c'.
    erewrite bind_Ok by exact Hr. split_and!; try done. by apply arc_set_evictable_ok.
  - pose proof HR as (Z & HI & HS & Ht & Hc).
    destruct (remove_ok c a Z p HI HS) as (c' & Z' & Hr & HI' & HS' & Ht' & Hc').
    pose proof (arc_remove_ok a p Hok) as Hok'.
    assert (Hsame : a_target (arc_remove p a).2 = a_target a /\ a_cap (arc_remove p a).2 = a_cap a).
    { unfold arc_remove. by repeat case_match. }
    destruct (arc_remove p a) as [r a']. simpl in *. exists c'. split_and!; try done.
    exists Z'. split_and!; try done; destruct Hsame; congruence.
  - pose proof (begin_eviction_refines c a HR) as He. unfold evict.
    destruct (arc_evict a) as [[f a']|] eqn:E.
    + destruct He as (u & c' & Hr & <- & HR' & _). exists c'. erewrite bind_Ok by exact Hr.
      split_and!; try done. by eapply (arc_evict_ok c a).
    + exists c. by erewrite bind_Ok by exact He.
  - pose proof (begin_eviction_refines c a HR) as He.
    destruct (arc_evict a) as [[f a']|] eqn:E.
    + destruct He as (u & c' & Hr & <- & _ & Hu). exists c.
      erewrite bind_Ok by exact Hr. cbv beta match. by erewrite bind_Ok by exact Hu.
    + exists c. by erewrite bind_Ok by exact He.
Qed.

Lemma new_rel cap : Rel (new cap) (arc_new cap) /\ arc_ok (arc_new cap).
Proof.
  split; [|split; simpl; lia].
  exists (fun _ => []). split; [|by split; [intros []|]]. split.
  - split; [|intros; set_solver|done].
    intros []; by split; try apply NoDup_nil_2.
  - intros p i. simpl. rewrite lookup_empty. split; [done|]. intros (l & e & H & _). set_solver.
  - intros f i. simpl. rewrite lookup_empty. split; [done|]. intros (l & e & H & _). set_solver.
  - intros l i e H. set_solver.
  - done.
Qed.

Lemma rep_run_rel ops : forall c a c',
  Rel c a -> arc_ok a -> rep_run ops c = Ok c' -> exists a', Rel c' a' /\ arc_ok a'.
Proof.
  induction ops as [|o ops IH]; intros c a c' HR Hok Hr; simpl in Hr; simplify_eq; [eauto|].
  pose proof (rep_step_rel c a o HR Hok) as Hs. destruct (arc_step o a) as [[r a']|].
  - destruct Hs as (c1 & H1 & HR1 & Hok1). rewrite H1 in Hr. eauto.
  - destruct (rep_step o c) as [[] ?]; simplify_eq/=.
Qed.

Lemma rep_step_grown o c : grown c (rep_step o c).2.
Proof.
  destruct o as [f p|f v|p| |]; cbn [rep_step].
  - pose proof (access_grown f p c) as Hg. unfold mbind, M_bind. by destruct (record_access f p c) as [[] c'].
  - left. revert c. apply keeps_bind; [apply set_evictable_arena|]. intros _. apply keeps_ret.
  - left. apply remove_arena.
  - left. revert c. unfold evict. arena_tac.
  - left. revert c. arena_tac.
Qed.

(** The nodes of a replacer none of which is unused are those of its lists. *)
Lemma full_arena c a : Rel c a -> arc_ok a -> unused_node_indices c = [] -> length (nodes c) <= 2 * r_capacity c.
Proof.
  intros (Z & HI & HS & _ & Hc) [_ _ K _] Hu. pose proof (co_arena _ _ (iv_core _ _ HI)) as Ha.
  apply Permutation_length in Ha. rewrite Hu, length_seq in Ha. unfold all_indices, indices in Ha. simpl in Ha.
  rewrite !length_app, !length_fmap in Ha. rewrite <- Hc.
  pose proof (HS Mru) as E1. pose proof (HS Mfu) as E2. pose proof (HS GhostMru) as E3. pose proof (HS GhostMfu) as E4.
  simpl in *. rewrite E1, E2, E3, E4, !length_fmap in K. lia.
Qed.

Lemma rep_run_arena ops : forall c a c',
  Rel c a -> arc_ok a -> length (nodes c) <= 2 * r_capacity c -> rep_run ops c = Ok c' ->
  length (nodes c') <= 2 * r_capacity c'.
Proof.
  induction ops as [|o ops IH]; intros c a c' HR Hok Hn Hr; simpl in Hr; simplify_eq; [done|].
  pose proof (rep_step_rel c a o HR Hok) as Hs. pose proof (rep_step_grown o c) as Hg.
  destruct (arc_step o a) as [[r a']|]; [|destruct (rep_step o c) as [[] ?]; simplify_eq/=].
  destruct Hs as (c1 & H1 & HR1 & Hok1). rewrite H1 in Hr, Hg. apply (IH c1 a'); try done.
  destruct Hg as [[= E1 E2]|[E1 E2]]; [simpl in *; lia|by eapply full_arena].
Qed.

(** ** Theorems *)

(** C4: Every replacer that operations on a new one lead to shows four lists of pages of
    which each further operation makes what ARC makes of them: an access, a change of
    evictability, a removal, an eviction, and an eviction begun and dropped (which leaves
    them as they were). An operation panics only where ARC on lists is not defined. *)
Theorem replacer_refines_arc (cap : nat) (ops : list rep_op) (c : ArcReplacer) :
  rep_run ops (new cap) = Ok c ->
  exists a, Rel c a /\ arc_ok a /\
    forall o, match arc_step o a with
      | None => (rep_step o c).1 = Panic
      | Some (r, a') => exists c', rep_step o c = (Ok r, c') /\ Rel c' a' /\ arc_ok a'
      end.
Proof.
  intros Hr. destruct (new_rel cap) as [HR Hok].
  destruct (rep_run_rel ops _ _ _ HR Hok Hr) as (a & HRa & Hoka).
  exists a. split_and!; try done. intros o. by apply rep_step_rel.
Qed.

(** The replacers that operations on a new one lead to. *)
Definition reachable (c : ArcReplacer) : Prop :=
  exists cap ops, rep_run ops (new cap) = Ok c.

Lemma reachable_rel c : reachable c -> exists a, Rel c a /\ arc_ok a.
Proof.
  intros (cap & ops & Hr). destruct (new_rel cap) as [HR Hok]. by eapply rep_run_rel.
Qed.

(** C5: An eviction that is begun and dropped without being committed leaves the replacer
    exactly as it was: the victim is back at its place in its list, between the same
    neighbours and with the frame it had, and so is everything else, to the last node of the
    arena. *)
Theorem dropped_eviction_restores (c : ArcReplacer) (u : EvictionUndo) (c1 : ArcReplacer) :
  reachable c -> begin_eviction c = (Ok (Some u), c1) -> undo_eviction u c1 = (Ok tt, c).
Proof.
  intros (a & HR & _)%reachable_rel Hb. pose proof (begin_eviction_refines c a HR) as He.
  destruct (arc_evict a) as [[f a']|]; [|congruence].
  destruct He as (u' & c' & Hb' & _ & _ & Hu). congruence.
Qed.

Lemma find_none_evictables (z : list (nat * entry)) :
  match find evictable_pair (rev z) with
  | None => evictables z = 0
  | Some _ => 0 < evictables z
  end.
Proof.
  induction z as [|x z IH] using rev_ind; [done|].
  rewrite rev_app_distr, evictables_app, evictables_cons. simpl. unfold evictable_pair at 1.
  destruct (e_evictable x.2); simpl; [lia|].
  destruct (find evictable_pair (rev z)); rewrite ?Nat.add_0_r; unfold evictables in *; simpl; lia.
Qed.

Lemma evict_from_iff c Z r :
  Inv c Z ->
  if decide (evictables (Z (resident_list r)) = 0) then evict_from_list r c = (Ok None, c)
  else exists u c', evict_from_list r c = (Ok (Some u), c') /\
    S (evictable_count c') = evictable_count c /\
    is_Some (frame_indices c !! u_frame_id u) /\ frame_indices c' !! u_frame_id u = None.
Proof.
  intros HI. pose proof (evict_from_list_ok c Z r HI) as He. cbv zeta in He.
  pose proof (find_none_evictables (Z (resident_list r))) as Hn.
  destruct (find evictable_pair (rev (Z (resident_list r)))) as [[i e]|].
  2:{ by rewrite decide_True. }
  rewrite decide_False by lia.
  destruct He as (Z1 & Z2 & f & c' & Hl & Hef & Hev & Hr & HI' & _ & _ & _ & _ & Hf).
  exists (mkUndo i f r (final None Z1.*1)), c'. split_and!; try done.
  - rewrite (iv_count _ _ HI), (iv_count _ _ HI').
    rewrite (total_detached Z _ Z1 i e Z2 Hl), Hev. unfold moved.
    pose proof (total_inserted (zupd Z (resident_list r) (Z1 ++ Z2)) (ghost_of (resident_list r))
      [] _ i (e_page e, None, false) eq_refl) as Ht.
    simpl in *. lia.
  - exists i. apply (iv_frames _ _ HI). exists (resident_list r), e. rewrite Hl. set_solver.
  - simpl. rewrite Hf. apply lookup_delete_eq.
Qed.

Lemma ghost_evictables Z l : frames_fit Z -> is_ghost l = true -> evictables (Z l) = 0.
Proof.
  intros HF Hg. unfold evictables. specialize (HF l). rewrite Hg in HF.
  induction (Z l) as [|[i e] z IH]; [done|]. simpl.
  destruct (HF i e) as [_ ->]; [set_solver|]. apply IH. intros j ej Hj. apply (HF j). set_solver.
Qed.

(** [begin_eviction] once it has chosen which list to try first. *)
Definition pick (r1 r2 : ResidentList) : rep (option EvictionUndo) :=
  undo ← evict_from_list r1;
  match undo with
  | Some u => mret (Some u)
  | None => evict_from_list r2
  end.

Lemma pick_iff c Z r1 r2 :
  Inv c Z ->
  if decide (evictables (Z (resident_list r1)) + evictables (Z (resident_list r2)) = 0)
  then pick r1 r2 c = (Ok None, c)
  else exists u c', pick r1 r2 c = (Ok (Some u), c') /\
    S (evictable_count c') = evictable_count c /\
    is_Some (frame_indices c !! u_frame_id u) /\ frame_indices c' !! u_frame_id u = None.
Proof.
  intros HI. pose proof (evict_from_iff c Z r1 HI) as H1. pose proof (evict_from_iff c Z r2 HI) as H2.
  unfold pick.
  destruct (decide (evictables (Z (resident_list r1)) = 0)) as [E1|E1].
  - rewrite E1. simpl. erewrite bind_Ok by exact H1. cbv beta match. by case_decide.
  - rewrite decide_False by lia. destruct H1 as (u & c' & H1 & Hrest).
    exists u, c'. by erewrite bind_Ok by exact H1.
Qed.

(** C6: An eviction finds a victim exactly when [size] says that a frame is evictable; the
    victim is a frame the replacer tracked, is tracked no more, and is one less evictable
    frame. *)
Theorem evict_iff_size (c : ArcReplacer) :
  reachable c ->
  if Replacer.size c =? 0 then evict c = (Ok None, c)
  else exists f c', evict c = (Ok (Some f), c') /\ S (Replacer.size c') = Replacer.size c /\
    is_Some (frame_indices c !! f) /\ frame_indices c' !! f = None.
Proof.
  intros (a & (Z & HI & _) & _)%reachable_rel. unfold Replacer.size.
  pose proof (iv_count _ _ HI) as Hc. unfold total in Hc.
  rewrite (ghost_evictables Z GhostMru (iv_fit _ _ HI)),
    (ghost_evictables Z GhostMfu (iv_fit _ _ HI)) in Hc by done.
  assert (Hb : exists r1 r2, begin_eviction c = pick r1 r2 c /\
    evictables (Z (resident_list r1)) + evictables (Z (resident_list r2)) = evictable_count c).
  { unfold begin_eviction, asks. mstep. destruct (mru_target_size c <=? h_length (mru_list c)).
    - exists RMru, RMfu. split; [done|]. simpl. lia.
    - exists RMfu, RMru. split; [done|]. simpl. lia. }
  destruct Hb as (r1 & r2 & Hb & Hsum). pose proof (pick_iff c Z r1 r2 HI) as Hp. rewrite Hsum in Hp.
  unfold evict. destruct (Nat.eqb_spec (evictable_count c) 0).
  - rewrite decide_True in Hp by done. erewrite bind_Ok by (rewrite Hb; exact Hp). done.
  - rewrite decide_False in Hp by done. destruct Hp as (u & c' & Hp & Hrest).
    exists (u_frame_id u), c'. erewrite bind_Ok by (rewrite Hb; exact Hp). done.
Qed.

(** ** When an access is refused *)

(** Page [p] holds a frame. *)
Definition resident (c : ArcReplacer) (p : PageId) : Prop :=
  exists i n f, page_indices c !! p = Some i /\ nodes c !! i = Some n /\ n_frame_id n = Some f.

Lemma resident_find c a Z p :
  Inv c Z -> shows a Z ->
  resident c p <-> exists l e, a_find (has_page p) a = Some (l, e) /\ is_ghost l = false.
Proof.
  intros HI HS. pose proof HI as [HC HP HFr HF Hn]. split.
  - intros (i & n & f & Hp & Hnode & Hf).
    pose proof (proj1 (HP p i) Hp) as (l & e & Hin & <-). exists l, e.
    destruct (core_elem _ _ HC _ _ _ Hin) as (n' & Hn' & He & _).
    split; [apply (a_find_at _ a Z c l i e);
      [done|done|by eapply unique_page|done|by apply bool_decide_eq_true]|].
    pose proof (HF l i e Hin) as Hfit. destruct (is_ghost l); [|done].
    destruct Hfit as [Hfit _]. rewrite <- He in Hfit. unfold e_frame in Hfit. simpl in Hfit. congruence.
  - intros (l & e & Hfind & Hg). pose proof (a_find_spec (has_page p) a Z HS) as Hs.
    rewrite Hfind in Hs. destruct Hs as (i & Hin & Hp%bool_decide_eq_true).
    destruct (core_elem _ _ HC _ _ _ Hin) as (n & Hnode & He & _).
    pose proof (HF l i e Hin) as Hfit. rewrite Hg in Hfit. destruct Hfit as [f Hf].
    exists i, n, f. split_and!; [apply HP; eauto|done|]. by rewrite <- He in Hf.
Qed.

Lemma admit_none c a Z f :
  Inv c Z -> shows a Z -> a_cap a = r_capacity c ->
  arc_admit f a = None <-> frame_indices c !! f = None /\ is_full c = true.
Proof.
  intros HI HS Hcap. pose proof HI as [HC HP HFr HF Hn].
  pose proof (heads_length c a Z Mru HI HS) as L1.
  pose proof (heads_length c a Z Mfu HI HS) as L2. simpl in L1, L2.
  assert (Hfull : is_full c = arc_full a) by (unfold is_full, arc_full; by rewrite L1, L2, Hcap).
  unfold arc_admit, arc_give_up. pose proof (a_find_spec (has_frame f) a Z HS) as Hs.
  destruct (a_find (has_frame f) a) as [[l e]|].
  - destruct Hs as (i & Hin & Hef%bool_decide_eq_true). simpl. split; [done|]. intros [Hno _].
    assert (frame_indices c !! f = Some i) by (apply HFr; eauto). congruence.
  - assert (Hno : frame_indices c !! f = None).
    { apply eq_None_not_Some. intros [i (l & e & Hin & Hef)%HFr].
      specialize (Hs l i e Hin). by apply bool_decide_eq_false in Hs. }
    rewrite Hfull. simpl. destruct (arc_full a); simpl; naive_solver.
Qed.

(** C7: Recording an access panics in exactly one situation: the page holds no frame yet,
    the frame it is given is not one the replacer tracks, and every frame is taken. *)
Theorem access_panics_iff (c : ArcReplacer) (f : FrameId) (p : PageId) :
  reachable c ->
  (record_access f p c).1 = Panic <->
  ~ resident c p /\ frame_indices c !! f = None /\ is_full c = true.
Proof.
  intros (a & HR & Hok)%reachable_rel. pose proof (record_access_ok c a f p HR Hok) as Ha.
  pose proof HR as (Z & HI & HS & Ht & Hc). rewrite (resident_find c a Z p HI HS).
  assert (Hn : arc_access f p a = None <->
    ~ (exists l e, a_find (has_page p) a = Some (l, e) /\ is_ghost l = false) /\
    frame_indices c !! f = None /\ is_full c = true).
  { unfold arc_access. destruct (a_find (has_page p) a) as [[l e]|] eqn:Hfind.
    - assert (Hadm : forall t, arc_admit f (with_atarget a t) = None <->
        frame_indices c !! f = None /\ is_full c = true).
      { intros t. apply (admit_none (with_target t c) (with_atarget a t) Z f);
          [by apply Inv_target|by apply shows_target|done]. }
      destruct l; [destruct (has_frame f e); naive_solver..|specialize (Hadm
        (min (a_target a + arc_delta (length (a_gmru a)) (length (a_gmfu a))) (a_cap a)))
        |specialize (Hadm (a_target a - arc_delta (length (a_gmfu a)) (length (a_gmru a))))].
      all: destruct (arc_admit f _); simpl; naive_solver.
    - pose proof (admit_none c a Z f HI HS Hc) as Hadm.
      destruct (arc_admit f a); simpl; naive_solver. }
  rewrite <- Hn. destruct (arc_access f p a); [|naive_solver].
  destruct Ha as (c' & -> & _). simpl. naive_solver.
Qed.

(** C8: The sizes ARC promises: resident pages never exceed the capacity, the MRU list and
    its ghosts together never do either, all four lists stay within twice the capacity, and so
    does the arena with its unused nodes, however many pages have come and gone; the target
    size stays within the capacity, and no more frames are evictable than are resident. *)
Theorem replacer_bounded (c : ArcReplacer) :
  reachable c ->
  let len l := h_length (list_of c l) in
  len Mru + len Mfu <= Replacer.capacity c /\
  len Mru + len GhostMru <= Replacer.capacity c /\
  len Mru + len Mfu + len GhostMru + len GhostMfu <= 2 * Replacer.capacity c /\
  length (nodes c) <= 2 * Replacer.capacity c /\
  mru_target_size c <= Replacer.capacity c /\
  Replacer.size c <= len Mru + len Mfu.
Proof.
  intros Hreach len. assert (Hn : length (nodes c) <= 2 * r_capacity c).
  { destruct Hreach as (cap & ops & Hr). destruct (new_rel cap) as [HR Hok].
    apply (rep_run_arena ops (new cap) (arc_new cap)); try done. simpl. lia. }
  revert Hreach. intros (a & (Z & HI & HS & Ht & Hc) & [K1 K2 K3 K4])%reachable_rel.
  assert (Hl : forall l, len l = length (aget a l)) by (intros l; by apply (heads_length c a Z)).
  unfold Replacer.capacity. rewrite <- Hc in *. rewrite !Hl, <- Ht. simpl. split_and!; try lia.
  assert (Hle : forall z, evictables z <= length z).
  { intros z. induction z as [|x z IH]; [done|]. rewrite evictables_cons.
    destruct (e_evictable x.2); simpl; lia. }
  unfold Replacer.size. rewrite (iv_count _ _ HI). unfold total.
  rewrite (ghost_evictables Z GhostMru (iv_fit _ _ HI)),
    (ghost_evictables Z GhostMfu (iv_fit _ _ HI)) by done.
  pose proof (Hle (Z Mru)). pose proof (Hle (Z Mfu)).
  pose proof (HS Mru) as E1. pose proof (HS Mfu) as E2. simpl in E1, E2.
  rewrite E1, E2, !length_fmap. lia.
Qed.

(** ** Witnesses *)

(** Two frames, three pages, one of them evicted. *)
Definition sample_ops : list rep_op :=
  [RAccess 0 10; RAccess 1 11; RSetEvictable 0 true; REvict; RAccess 0 12; RSetEvictable 1 true]%Z.
Definition sample : ArcReplacer := default (new 2) (match rep_run sample_ops (new 2) with Ok c => Some c | _ => None end).

Lemma sample_run : rep_run sample_ops (new 2) = Ok sample.
Proof. vm_compute. reflexivity. Qed.

Lemma sample_reachable : reachable sample.
Proof. exists 2, sample_ops. exact sample_run. Qed.

Lemma replacer_refines_arc_witness :
  exists a, Rel sample a /\ exists c', rep_step (RAccess 1 10)%Z sample = (Ok None, c').
Proof.
  destruct (replacer_refines_arc 2 sample_ops sample sample_run) as (a & HR & _ & Ho).
  exists a. split; [exact HR|]. specialize (Ho (RAccess 1 10)%Z).
  assert (Hok : (rep_step (RAccess 1 10)%Z sample).1 = Ok None) by (vm_compute; reflexivity).
  destruct (arc_step (RAccess 1 10)%Z a) as [[r a']|].
  - destruct Ho as (c' & Hr & _). exists c'. rewrite Hr in Hok. simpl in Hok. rewrite Hr. congruence.
  - congruence.
Defined.

Lemma dropped_eviction_restores_witness :
  exists u c1, begin_eviction sample = (Ok (Some u), c1) /\ undo_eviction u c1 = (Ok tt, sample).
Proof.
  destruct (begin_eviction sample) as [r c1] eqn:Hb.
  assert (Hr : r = Ok (Some (mkUndo 1 1%Z RMru (Some 0)))).
  { change r with (r, c1).1. rewrite <- Hb. vm_compute. reflexivity. }
  rewrite Hr in Hb. exists (mkUndo 1 1%Z RMru (Some 0)), c1. split; [rewrite Hr; reflexivity|].
  exact (dropped_eviction_restores sample _ c1 sample_reachable Hb).
Defined.

Lemma evict_iff_size_witness :
  exists f c', evict sample = (Ok (Some f), c') /\ S (Replacer.size c') = Replacer.size sample.
Proof.
  pose proof (evict_iff_size sample sample_reachable) as H.
  assert (E : (Replacer.size sample =? 0) = false) by (vm_compute; reflexivity).
  rewrite E in H. destruct H as (f & c' & H1 & H2 & _). exists f, c'. split; assumption.
Defined.

Lemma access_panics_iff_witness : ~ (record_access 1 13 sample)%Z.1 = Panic.
Proof.
  intros H. apply (access_panics_iff sample 1%Z 13%Z sample_reachable) in H.
  destruct H as (_ & H & _). vm_compute in H. discriminate.
Defined.

Lemma replacer_bounded_witness : length (nodes sample) <= 4.
Proof. apply (replacer_bounded sample sample_reachable). Defined.
