(* ===== verification/Transaction.v ===== *)
(** * Transactions

    Models [src/concurrency/transaction.rs] and the transaction records of [src/wal.rs].
    A transaction handle is a record; the fields behind its mutex and its atomic flag are the
    ones the operations change. *)

From Stdlib Require Import ZArith Lia.
From stdpp Require Import base gmap list numbers option.
From S2P Require Import Prelude Bytes Ids Buf TablePage.

Local Open Scope Z_scope.

Abbreviation TxnId := Z.
Abbreviation Timestamp := Z.

Definition TXN_START_ID : TxnId := 2 ^ 62.

Definition is_txn_id (ts : Z) : bool := TXN_START_ID <=? ts.

Inductive TransactionState : Type := | Running | Tainted | Committed | Aborted.

#[export] Instance TransactionState_eq_dec : EqDecision TransactionState.
Proof. solve_decision. Defined.

Inductive IsolationLevel : Type := | SnapshotIsolation.

Record Transaction : Type := mkTxn {
  txn_id : TxnId;
  read_ts : Timestamp;
  isolation_level : IsolationLevel;
  state : TransactionState;
  commit_ts : option Timestamp;
  write_set : gmap RecordId bool;
  logged_writes : bool;
}.

(** ** The records a transaction leaves in the log *)

Inductive TxnRecord : Type :=
| RWrites (txn : TxnId)
| RUndo (txn : TxnId) (rid : RecordId) (meta : TupleMeta) (data : bytes)
| REnd (txn : TxnId).

Record UndoImage : Type := mkImage { i_meta : TupleMeta; i_data : bytes }.

Record RecoveredTxn : Type := mkRecovered { r_id : TxnId; r_undo : gmap RecordId UndoImage }.

Module Transaction.

Definition new (id : TxnId) (read : Timestamp) (level : IsolationLevel) : Transaction :=
  mkTxn id read level Running None ∅ false.

Definition with_state (s : TransactionState) (t : Transaction) : Transaction :=
  mkTxn (txn_id t) (read_ts t) (isolation_level t) s (commit_ts t) (write_set t) (logged_writes t).
Definition with_writes (w : gmap RecordId bool) (t : Transaction) : Transaction :=
  mkTxn (txn_id t) (read_ts t) (isolation_level t) (state t) (commit_ts t) w (logged_writes t).

(** The state after [mark_writes_logged], which returns the flag from before. *)
Definition mark_writes_logged (t : Transaction) : Transaction :=
  mkTxn (txn_id t) (read_ts t) (isolation_level t) (state t) (commit_ts t) (write_set t) true.

Definition display_id (t : Transaction) : Z := Z.lxor (txn_id t) TXN_START_ID.

Definition set_tainted (t : Transaction) : Transaction :=
  if decide (state t = Running) then with_state Tainted t else t.

(** Only the first write of a record id decides whether an undo entry exists. *)
Definition record_write (rid : RecordId) (pushed : bool) (t : Transaction) : Transaction :=
  match write_set t !! rid with
  | Some _ => t
  | None => with_writes (<[rid := pushed]> (write_set t)) t
  end.

Definition forget_write (rid : RecordId) (t : Transaction) : Transaction :=
  with_writes (base.delete rid (write_set t)) t.

Definition finish (s : TransactionState) (ts : option Timestamp) (t : Transaction) : Transaction :=
  mkTxn (txn_id t) (read_ts t) (isolation_level t) s ts (write_set t) (logged_writes t).

End Transaction.
