(* ===== verification/TxnManager.v ===== *)
(** * The transaction manager

    Models [src/concurrency/transaction_manager.rs]: clocks, running snapshots, undo chains,
    commit, abort and garbage collection. Table storage is the interface [SlotStore]; a slot
    operation runs under the latch of its page, so it is one step. The state of an operation
    is the store with the manager and the transaction it works on.

    An undo chain is the list of its entries, newest first: every entry belongs to the chain
    of one record id, so unlinking the tail of an entry is truncating the list. The order in
    which a hash map hands out its entries is not specified; it is the parameter [MapOrder]. *)

From Stdlib Require Import ZArith Lia.
From stdpp Require Import base gmap list numbers option.
From S2P Require Import Prelude Bytes Ids Buf TablePage TableHeap SlotStore Transaction.

Local Open Scope Z_scope.

Record UndoLog : Type := mkUndoLog { u_ts : Timestamp; u_deleted : bool; u_data : bytes }.

Record TxnManager : Type := mkManager {
  next_txn_id : TxnId;
  last_commit_ts : Timestamp;
  running : gmap Timestamp nat;
  versions : gmap RecordId (list UndoLog);
  txn_log : list TxnRecord;
}.

Inductive TxnError (BE : Type) : Type :=
| WriteConflict (rid : RecordId)
| InvalidState (s : TransactionState)
| Storage (e : TableHeapError BE)
| UnexpectedStamp (rid : RecordId) (expected found : Timestamp)
| MissingUndoChain (rid : RecordId)
| CommitNotUndone (cause : TxnError BE) (rid : RecordId) (undo : TxnError BE).
Arguments WriteConflict {BE}. Arguments InvalidState {BE}. Arguments Storage {BE}.
Arguments UnexpectedStamp {BE}. Arguments MissingUndoChain {BE}. Arguments CommitNotUndone {BE}.

Record GcStats : Type := mkGcStats {
  gc_watermark : Timestamp;
  undo_logs_removed : nat;
  chains_removed : nat;
}.

Module TxnManager.

(** ** The manager's own state *)

Definition new : TxnManager := mkManager TXN_START_ID 0 ∅ ∅ [].

Definition resume (last : Timestamp) (next : TxnId) : TxnManager :=
  mkManager (Z.max next TXN_START_ID) last ∅ ∅ [].

Definition with_last_commit_ts (ts : Timestamp) (m : TxnManager) : TxnManager :=
  mkManager (next_txn_id m) ts (running m) (versions m) (txn_log m).
Definition with_running (r : gmap Timestamp nat) (m : TxnManager) : TxnManager :=
  mkManager (next_txn_id m) (last_commit_ts m) r (versions m) (txn_log m).
Definition with_versions (v : gmap RecordId (list UndoLog)) (m : TxnManager) : TxnManager :=
  mkManager (next_txn_id m) (last_commit_ts m) (running m) v (txn_log m).

(** [DiskManager::log_txn] *)
Definition log_txn (r : TxnRecord) (m : TxnManager) : TxnManager :=
  mkManager (next_txn_id m) (last_commit_ts m) (running m) (versions m) (txn_log m ++ [r]).

(** [begin]: the transaction, and the manager with its snapshot registered. The id counter
    wraps as an atomic [u64] does. *)
Definition begin (level : IsolationLevel) (m : TxnManager) : Transaction * TxnManager :=
  let read := last_commit_ts m in
  let id := next_txn_id m in
  (Transaction.new id read level,
   mkManager ((id + 1) mod 2 ^ 64) (last_commit_ts m)
     (<[read := S (default 0%nat (running m !! read))]> (running m)) (versions m) (txn_log m)).

(** The smallest key of [running]. *)
Definition first_running (m : TxnManager) : option Timestamp :=
  foldr (fun ts acc => Some (from_option (Z.min ts) ts acc)) None (map_to_list (running m)).*1.

Definition watermark (m : TxnManager) : Timestamp := default (last_commit_ts m) (first_running m).

Definition unregister (t : Transaction) (m : TxnManager) : TxnManager :=
  match running m !! read_ts t with
  | Some n =>
      let n := (n - 1)%nat in
      with_running (if decide (n = 0%nat) then base.delete (read_ts t) (running m)
                    else <[read_ts t := n]> (running m)) m
  | None => m
  end.

(** The undo chain of a record id; its head is [version_head]. *)
Definition version_chain (m : TxnManager) (rid : RecordId) : list UndoLog :=
  default [] (versions m !! rid).

(** [push_version]; the debug assertion panics on an uncommitted version. *)
Definition push_version {E} (rid : RecordId) (meta : TupleMeta) (data : bytes)
    : M TxnManager E unit :=
  _ ← liftc (rassert (negb (is_txn_id (ts meta))));
  modify (fun m => Ok (with_versions
    (<[rid := mkUndoLog (ts meta) (is_deleted meta) data :: version_chain m rid]> (versions m)) m)).

(** Drops the head of a chain. *)
Definition pop_version (rid : RecordId) (m : TxnManager) : TxnManager :=
  with_versions (match version_chain m rid with
                 | _ :: (_ :: _) as prev => <[rid := prev]> (versions m)
                 | _ => base.delete rid (versions m)
                 end) m.

Definition log_end (t : Transaction) (m : TxnManager) : TxnManager :=
  if logged_writes t then log_txn (REnd (txn_id t)) m else m.

Definition log_first_write (t : Transaction) (m : TxnManager) : Transaction * TxnManager :=
  (Transaction.mark_writes_logged t,
   if logged_writes t then m else log_txn (RWrites (txn_id t)) m).

Definition log_undo (t : Transaction) (rid : RecordId) (meta : TupleMeta) (data : bytes)
    (m : TxnManager) : TxnManager :=
  log_txn (RUndo (txn_id t) rid meta data) m.

(** ** Operations on slots *)

Section manager.
Context {S BE : Type} `{Store : SlotStore S BE} `{Order : !MapOrder RecordId}.

Abbreviation terr := (TxnError BE).
(** What an operation of a transaction works on beside the store. *)
Abbreviation world := (TxnManager * Transaction)%type.
Abbreviation txm := (M (S * world) terr).

Definition get_world {E} : M (S * world) E world := fun s => (Ok s.2, s).
Definition set_mgr {E} (f : TxnManager -> TxnManager) : M (S * world) E unit := fun s =>
  (Ok tt, (s.1, (f s.2.1, s.2.2))).
Definition set_txn {E} (f : Transaction -> Transaction) : M (S * world) E unit := fun s =>
  (Ok tt, (s.1, (s.2.1, f s.2.2))).

(** [TableHeap::write_slot] on the manager's world. *)
Definition write_slot {E} (from : TableHeapError BE -> E) (rid : RecordId)
    (f : TupleMeta -> bytes -> outcome E SlotWrite) : M (S * world) E unit :=
  ss_write_then from rid (fun m d => w ← liftc (f m d); mret (w, tt)) (fun _ => mret tt).

(** Re-stamps a slot, keeping its deleted flag. *)
Definition stamp (rid : RecordId) (from to : Timestamp) : txm unit :=
  write_slot Storage rid (fun meta _ =>
    if negb (ts meta =? from) then Err (UnexpectedStamp rid from (ts meta))
    else Ok (mkWrite (mkMeta to (is_deleted meta)) None)).

(** Runs [m] and hands its error on as a value. *)
Definition catch {A} (m : txm A) : txm (A + terr) := fun s =>
  match m s with
  | (Ok a, s) => (Ok (inl a), s)
  | (Err e, s) => (Ok (inr e), s)
  | (Panic, s) => (Panic, s)
  end.

(** The slots [done] of a commit that failed with [cause] go back to the transaction's id. *)
Fixpoint unstamp (done : list RecordId) (cts : Timestamp) (id : TxnId) (cause : terr) : txm unit :=
  match done with
  | [] => mret tt
  | rid :: done =>
      r ← catch (stamp rid cts id);
      match r with
      | inl _ => unstamp done cts id cause
      | inr undo =>
          _ ← set_txn Transaction.set_tainted;
          liftc (Err (CommitNotUndone cause rid undo))
      end
  end.

(** The stamping loop of [commit]; [done] are the slots already stamped. *)
Fixpoint stamp_all (done rids : list RecordId) (cts : Timestamp) (id : TxnId) : txm unit :=
  match rids with
  | [] => mret tt
  | rid :: rids =>
      r ← catch (stamp rid id cts);
      match r with
      | inl _ => stamp_all (done ++ [rid]) rids cts id
      | inr e =>
          _ ← unstamp done cts id e;
          _ ← set_txn Transaction.set_tainted;
          liftc (Err e)
      end
  end.

(** The addition of two [u64]s, which panics on overflow. *)
Definition add_u64 {E} (a b : Z) : outcome E Z := if a + b <=? u64_max then Ok (a + b) else Panic.

Definition commit : txm Timestamp :=
  '(m, t) ← get_world;
  if negb (bool_decide (state t = Running)) then liftc (Err (InvalidState (state t)))
  else
    let rids := (map_entries (write_set t)).*1 in
    if bool_decide (rids = []) then
      let cts := last_commit_ts m in
      _ ← set_txn (Transaction.finish Committed (Some cts));
      _ ← set_mgr (unregister t);
      mret cts
    else
      cts ← liftc (add_u64 (last_commit_ts m) 1);
      _ ← stamp_all [] rids cts (txn_id t);
      _ ← set_mgr (with_last_commit_ts cts);
      _ ← set_txn (Transaction.finish Committed (Some cts));
      _ ← set_mgr (log_end t);
      _ ← set_mgr (unregister t);
      mret cts.

(** Rolls one write back, under the latch of its page. *)
Definition rollback_write (id : TxnId) (rid : RecordId) (pushed : bool) : txm unit :=
  ss_write_then Storage rid
    (fun meta _ w =>
       (if negb (ts meta =? id) then Err (UnexpectedStamp rid id (ts meta))
        else if negb pushed then Ok (mkWrite (mkMeta 0 true) None, false)
        else match version_chain w.1 rid with
             | [] => Err (MissingUndoChain rid)
             | head :: _ =>
                 Ok (mkWrite (mkMeta (u_ts head) (u_deleted head)) (Some (u_data head)), true)
             end, w))
    (fun (popped : bool) w => (Ok tt, (if popped then pop_version rid w.1 else w.1, w.2))).

Fixpoint rollback_all (writes : list (RecordId * bool)) (id : TxnId) : txm unit :=
  match writes with
  | [] => mret tt
  | (rid, pushed) :: writes =>
      _ ← rollback_write id rid pushed;
      _ ← set_txn (Transaction.forget_write rid);
      rollback_all writes id
  end.

Definition abort : txm unit :=
  '(m, t) ← get_world;
  if negb (bool_decide (state t = Running \/ state t = Tainted))
  then liftc (Err (InvalidState (state t)))
  else
    _ ← set_txn Transaction.set_tainted;
    _ ← rollback_all (map_entries (write_set t)) (txn_id t);
    _ ← set_txn (Transaction.finish Aborted None);
    _ ← set_mgr (log_end t);
    _ ← set_mgr (unregister t);
    mret tt.

(** ** Garbage collection *)

(** A chain without the entries after the first one at or below the watermark, and how many
    entries that drops. *)
Fixpoint truncate_chain (w : Timestamp) (chain : list UndoLog) : list UndoLog * nat :=
  match chain with
  | [] => ([], 0%nat)
  | l :: tail =>
      if u_ts l <=? w then ([l], length tail)
      else let '(kept, n) := truncate_chain w tail in (l :: kept, n)
  end.

(** What garbage collection makes of the chain of a slot stamped [stamp_ts]. *)
Definition gc_chain (w stamp_ts : Timestamp) (rid : RecordId) (st : GcStats) (m : TxnManager)
    : GcStats * TxnManager :=
  match versions m !! rid with
  | None => (st, m)
  | Some chain =>
      if negb (is_txn_id stamp_ts) && (stamp_ts <=? w) then
        (mkGcStats (gc_watermark st) (undo_logs_removed st + length chain) (chains_removed st + 1),
         with_versions (base.delete rid (versions m)) m)
      else
        let '(kept, n) := truncate_chain w chain in
        (mkGcStats (gc_watermark st) (undo_logs_removed st + n) (chains_removed st),
         with_versions (<[rid := kept]> (versions m)) m)
  end.

(** One slot of a pass: its stamp is read and its chain cut under one latch. *)
Definition gc_slot (w : Timestamp) (rid : RecordId) (st : GcStats) : M (S * TxnManager) terr GcStats :=
  x ← on_fst Storage (ss_read rid);
  on_snd id (fun m => let '(st, m) := gc_chain w (ts x.1) rid st m in (Ok st, m)).

Fixpoint gc_slots (w : Timestamp) (rids : list RecordId) (st : GcStats) : M (S * TxnManager) terr GcStats :=
  match rids with
  | [] => mret st
  | rid :: rids => st ← gc_slot w rid st; gc_slots w rids st
  end.

Definition garbage_collect : M (S * TxnManager) terr GcStats := fun sm =>
  let w := watermark sm.2 in
  gc_slots w (map_entries (versions sm.2)).*1 (mkGcStats w 0 0) sm.

End manager.
End TxnManager.
