(* ===== verification/Mvcc.v ===== *)
(** * Reading and writing versions

    Models [src/concurrency/mvcc.rs]: which version of a row a transaction sees, and inserting,
    updating, moving and deleting rows with their index entries. A table index is the interface
    [TableIndexOps], whose operations are those of [TableIndex] that these functions call; the
    unique latches order concurrent checks and have no other state. *)

From Stdlib Require Import ZArith Lia String.
From stdpp Require Import base gmap list numbers option sorting.
From S2P Require Import Prelude Bytes Ids Buf TablePage TableHeap SlotStore Transaction TxnManager.

Local Open Scope Z_scope.

Inductive MvccError (BE IE : Type) : Type :=
| MTxn (e : TxnError BE)
| MDuplicateKey (index : string)
| MIndex (e : IE).
Arguments MTxn {BE IE}. Arguments MDuplicateKey {BE IE}. Arguments MIndex {BE IE}.

(** A table index, as the write path sees it. [X] is its state and [K] its keys. *)
Class TableIndexOps (X K IE : Type) := {
  key_of_tuple : X -> bytes -> outcome IE (option K);
  entries_for_key : K -> M X IE (list RecordId);
  index_insert : bytes -> RecordId -> M X IE unit;
}.

(** [IndexInfo] of [src/catalog/mod.rs], the fields the write path uses. *)
Record IndexInfo (X : Type) : Type := mkIndexInfo {
  ix_oid : IndexOid;
  ix_name : string;
  ix_index : X;
}.
Arguments mkIndexInfo {X}. Arguments ix_oid {X}. Arguments ix_name {X}. Arguments ix_index {X}.

Module Mvcc.
Import TxnManager.

(** ** Visibility *)

Definition sees (t : Transaction) (stamp : Timestamp) : bool :=
  (stamp =? txn_id t) || (stamp <=? read_ts t).

(** The first version of a chain at or before a snapshot. *)
Fixpoint chain_visible (r : Timestamp) (chain : list UndoLog) : option bytes :=
  match chain with
  | [] => None
  | l :: chain =>
      if u_ts l <=? r then (if u_deleted l then None else Some (u_data l))
      else chain_visible r chain
  end.

Definition visible_version (t : Transaction) (m : TxnManager) (rid : RecordId)
    (meta : TupleMeta) (data : bytes) : option bytes :=
  if sees t (ts meta) then (if is_deleted meta then None else Some data)
  else chain_visible (read_ts t) (version_chain m rid).

Definition check_write {BE} (t : Transaction) (rid : RecordId) (meta : TupleMeta)
    : outcome (TxnError BE) unit :=
  let written_by_other_txn := negb (ts meta =? txn_id t) in
  let uncommitted_or_newer := is_txn_id (ts meta) || (read_ts t <? ts meta) in
  if written_by_other_txn && uncommitted_or_newer then Err (WriteConflict rid) else Ok tt.

Section mvcc.
Context {S BE X K IE : Type} `{Store : SlotStore S BE} `{Order : !MapOrder RecordId}.

Abbreviation merr := (MvccError BE IE).
Abbreviation world := (TxnManager * Transaction)%type.

Definition MStorage (e : TableHeapError BE) : merr := MTxn (Storage e).

Definition read_visible (rid : RecordId) : M (S * world) (TableHeapError BE) (option bytes) :=
  x ← on_fst id (ss_read rid);
  '(m, t) ← get_world;
  mret (visible_version t m rid x.1 x.2).

(** ** Writing a version *)

(** The write that [write_version] plans under the page latch: the slot's new contents, and
    the version to push on the undo chain when this is the transaction's first write of it. *)
Definition plan_write (rid : RecordId) (new : option bytes) (meta : TupleMeta) (data : bytes)
    : M world merr (SlotWrite * option (TupleMeta * bytes)) := fun w =>
  let '(m, t) := w in
  match map_err MTxn (check_write t rid meta) with
  | Ok _ =>
      if is_deleted meta then (Err (MStorage (HDeleted rid)), w)
      else
        let first := negb (ts meta =? txn_id t) in
        let m := if first then log_undo t rid meta data m else m in
        let write := mkWrite (mkMeta (txn_id t) (bool_decide (new = None))) new in
        (Ok (write, if first then Some (meta, data) else None), (m, t))
  | Err e => (Err e, w)
  | Panic => (Panic, w)
  end.

Definition push_undo (rid : RecordId) (undo : option (TupleMeta * bytes)) : M world merr bool :=
  match undo with
  | Some (meta, data) => _ ← on_fst id (push_version rid meta data); mret true
  | None => mret false
  end.

(** [TransactionManager::log_first_write], in an operation of the transaction. *)
Definition first_write : M (S * world) merr unit :=
  '(m, t) ← get_world;
  let '(t, m) := log_first_write t m in
  _ ← set_mgr (fun _ => m);
  set_txn (fun _ => t).

Definition write_version (rid : RecordId) (new : option bytes) : M (S * world) merr unit :=
  _ ← first_write;
  pushed ← ss_write_then MStorage rid (plan_write rid new) (push_undo rid);
  set_txn (Transaction.record_write rid pushed).

(** The row's insertion into the heap, stamped with the transaction's id. *)
Definition insert_version (data : bytes) : M (S * world) merr RecordId :=
  '(m, t) ← get_world;
  rid ← on_fst MStorage (ss_insert (mkMeta (txn_id t) false) data);
  _ ← set_txn (Transaction.record_write rid false);
  mret rid.

(** Taints the transaction if [m] failed. *)
Definition taint_on_err {I A} (m : M ((S * world) * I) merr A) : M ((S * world) * I) merr A := fun s =>
  match m s with
  | (Err e, ((st, (mgr, t)), i)) => (Err e, ((st, (mgr, Transaction.set_tainted t)), i))
  | r => r
  end.

(** ** Index entries

    The indexes of the table are part of the state. *)

Context `{Index : TableIndexOps X K IE} `{EqDecision K}.

Abbreviation dml := (M ((S * world) * list (IndexInfo X)) merr).

Definition by_oid (a b : nat * IndexInfo X) : Prop := ix_oid a.2 <= ix_oid b.2.
#[local] Instance by_oid_dec a b : Decision (by_oid a b) := Z_le_dec _ _.

(** [sorted]: the positions of the indexes, by oid. *)
Definition sorted (l : list (IndexInfo X)) : list nat :=
  (merge_sort by_oid (imap pair l)).*1.

Definition index_at (i : nat) : dml (IndexInfo X) := lift (fun s => expect (s.2 !! i)).

(** An operation on the index at a position. *)
Definition on_index {A} (i : nat) (m : M X IE A) : dml A := fun s =>
  match s.2 !! i with
  | Some info =>
      let '(r, x) := m (ix_index info) in
      (map_err MIndex r, (s.1, <[i := mkIndexInfo (ix_oid info) (ix_name info) x]> s.2))
  | None => (Panic, s)
  end.

Fixpoint for_each (ps : list nat) (body : nat -> dml unit) : dml unit :=
  match ps with
  | [] => mret tt
  | i :: ps => _ ← body i; for_each ps body
  end.

Definition for_sorted (body : nat -> dml unit) : dml unit := fun s => for_each (sorted s.2) body s.

Definition key_in (i : nat) (tuple : bytes) : dml (option K) :=
  info ← index_at i;
  liftc (map_err MIndex (key_of_tuple (ix_index info) tuple)).

(** The loop of [check_unique] over the entries of the key. *)
Fixpoint check_entries (i : nat) (key : K) (own : option RecordId) (rids : list RecordId) : dml unit :=
  match rids with
  | [] => mret tt
  | rid :: rids =>
      if bool_decide (Some rid = own) then check_entries i key own rids
      else
        x ← on_fst id (on_fst MStorage (ss_read rid));
        stored_key ← key_in i x.2;
        '(m, t) ← on_fst id get_world;
        let meta := x.1 in
        let holds_key := bool_decide (stored_key = Some key) in
        let pending_elsewhere := is_txn_id (ts meta) && negb (ts meta =? txn_id t) in
        if negb holds_key && negb pending_elsewhere then check_entries i key own rids
        else
          _ ← liftc (map_err MTxn (check_write t rid meta));
          if negb (is_deleted meta) && holds_key then
            info ← index_at i;
            liftc (Err (MDuplicateKey (ix_name info)))
          else check_entries i key own rids
  end.

Definition check_unique (i : nat) (tuple : bytes) (own : option RecordId) : dml unit :=
  key ← key_in i tuple;
  match key with
  | None => mret tt
  | Some key =>
      rids ← on_index i (entries_for_key key);
      check_entries i key own rids
  end.

Definition insert_tuple (tuple : bytes) : dml RecordId :=
  taint_on_err (
    _ ← for_sorted (fun i => check_unique i tuple None);
    _ ← on_fst id first_write;
    rid ← on_fst id (insert_version tuple);
    _ ← for_sorted (fun i => on_index i (index_insert tuple rid));
    mret rid).

Definition outgrew_its_page (e : merr) : bool :=
  match e with
  | MTxn (Storage (HPage _ (UpdateDoesNotFit _ _ _))) => true
  | _ => false
  end.

(** Whether the update gives the row another key in the index, and one without NULLs. *)
Definition key_changes (i : nat) (old new : bytes) : dml bool :=
  new_key ← key_in i new;
  if bool_decide (new_key = None) then mret false
  else old_key ← key_in i old; mret (negb (bool_decide (old_key = new_key))).

Definition move_tuple (rid : RecordId) (old new : bytes) : dml RecordId :=
  _ ← for_sorted (fun i =>
        changes ← key_changes i old new;
        if changes : bool then check_unique i new (Some rid) else mret tt);
  _ ← on_fst id (write_version rid None);
  new_rid ← on_fst id (insert_version new);
  _ ← for_sorted (fun i => on_index i (index_insert new new_rid));
  mret new_rid.

Definition update_tuple (rid : RecordId) (old new : bytes) : dml RecordId :=
  taint_on_err (fun s =>
    match on_fst id (write_version rid (Some new)) s with
    | (Err e, s) => if outgrew_its_page e then move_tuple rid old new s else (Err e, s)
    | (Panic, s) => (Panic, s)
    | (Ok _, s) =>
        (_ ← for_sorted (fun i =>
               changes ← key_changes i old new;
               if changes : bool then
                 _ ← check_unique i new (Some rid);
                 on_index i (index_insert new rid)
               else mret tt);
         mret rid) s
    end).

Definition delete_tuple (rid : RecordId) : dml unit :=
  taint_on_err (on_fst id (write_version rid None)).

(** [read_visible_through_index], for the index at a position. *)
Definition read_visible_through_index (i : nat) (key : K) (rid : RecordId) : dml (option bytes) :=
  o ← on_fst id (mapE MStorage (read_visible rid));
  match o with
  | None => mret None
  | Some tuple =>
      k ← key_in i tuple;
      mret (if bool_decide (k = Some key) then Some tuple else None)
  end.

End mvcc.
End Mvcc.
