(* ===== verification/MvccSpec.v ===== *)
(** * Snapshot isolation

    The promise of the transaction layer, on abstract data: every row has a history of
    committed versions, a transaction reads its own writes and otherwise the history as of the
    moment it began, a row is written by one transaction at a time and only if its newest
    version is one the writer can see, and a commit makes all writes of a transaction versions
    of the history at once. A commit that fails and cannot be taken back in full leaves some of
    its writes behind as versions of the commit to come. *)

From Stdlib Require Import ZArith Lia.
From stdpp Require Import base gmap list numbers option.
From S2P Require Import Prelude Bytes Ids Transaction.

Local Open Scope Z_scope.

(** A committed version: its timestamp, and its bytes unless it is a deletion. *)
Abbreviation version := (Timestamp * option bytes)%type.

(** The version of a row as of a timestamp; versions are ordered newest first. *)
Fixpoint view (r : Timestamp) (h : list version) : option bytes :=
  match h with
  | [] => None
  | (stamp, v) :: h => if stamp <=? r then v else view r h
  end.

Definition newest (h : list version) : Timestamp := from_option fst 0 (head h).

Record snap_txn : Type := mkSnapTxn {
  a_read : Timestamp;
  a_writes : gmap RecordId (option bytes);
  a_ok : bool;
}.

Record snap : Type := mkSnap {
  s_now : Timestamp;
  s_hist : gmap RecordId (list version);
  s_active : gmap TxnId snap_txn;
}.

Definition history (a : snap) (rid : RecordId) : list version := default [] (s_hist a !! rid).

(** What a transaction reads. *)
Definition snap_read (a : snap) (id : TxnId) (rid : RecordId) : option bytes :=
  match s_active a !! id with
  | Some x => default (view (a_read x) (history a rid)) (a_writes x !! rid)
  | None => None
  end.

(** ** The steps of the machine *)

Definition put_txn (id : TxnId) (x : snap_txn) (a : snap) : snap :=
  mkSnap (s_now a) (s_hist a) (<[id := x]> (s_active a)).

Definition drop_txn (id : TxnId) (a : snap) : snap :=
  mkSnap (s_now a) (s_hist a) (base.delete id (s_active a)).

Definition put_write (rid : RecordId) (v : option bytes) (x : snap_txn) : snap_txn :=
  mkSnapTxn (a_read x) (<[rid := v]> (a_writes x)) (a_ok x).

Definition drop_write (rid : RecordId) (x : snap_txn) : snap_txn :=
  mkSnapTxn (a_read x) (base.delete rid (a_writes x)) (a_ok x).

(** The machine that knows of row [rid]. *)
Definition know (rid : RecordId) (a : snap) : snap :=
  mkSnap (s_now a) (<[rid := history a rid]> (s_hist a)) (s_active a).

(** The history with the writes [w] as its versions at [stamp]. *)
Definition push_all (stamp : Timestamp) (w : gmap RecordId (option bytes))
    (h : gmap RecordId (list version)) : gmap RecordId (list version) :=
  merge (fun v l => match v with Some v => Some ((stamp, v) :: default [] l) | None => l end) w h.

(** The writes of a transaction inside and outside of [rids]. *)
Definition writes_in (rids : gset RecordId) (w : gmap RecordId (option bytes)) : gmap RecordId (option bytes) :=
  filter (fun p => p.1 ∈ rids) w.
Definition writes_out (rids : gset RecordId) (w : gmap RecordId (option bytes)) : gmap RecordId (option bytes) :=
  filter (fun p => p.1 ∉ rids) w.

(** The writes to [rids] of a transaction that failed to commit are left as versions that the
    next commit will publish. *)
Definition snap_left (id : TxnId) (x : snap_txn) (rids : gset RecordId) (a : snap) : snap :=
  mkSnap (s_now a) (push_all (s_now a + 1) (writes_in rids (a_writes x)) (s_hist a))
    (<[id := mkSnapTxn (a_read x) (writes_out rids (a_writes x)) false]> (s_active a)).

Inductive snap_step (a : snap) : snap -> Prop :=
| snap_begin id :
    s_active a !! id = None ->
    snap_step a (put_txn id (mkSnapTxn (s_now a) ∅ true) a)
| snap_write id x rid v :
    s_active a !! id = Some x ->
    (forall id' x', s_active a !! id' = Some x' -> id' <> id -> a_writes x' !! rid = None) ->
    (a_writes x !! rid = None -> newest (history a rid) <= a_read x) -> snap_read a id rid <> None ->
    snap_step a (put_txn id (put_write rid v x) a)
| snap_insert id x rid d :
    s_active a !! id = Some x -> history a rid = [] ->
    (forall id' x', s_active a !! id' = Some x' -> a_writes x' !! rid = None) ->
    snap_step a (put_txn id (put_write rid (Some d) x) (know rid a))
| snap_taint id x :
    s_active a !! id = Some x ->
    snap_step a (put_txn id (mkSnapTxn (a_read x) (a_writes x) false) a)
| snap_undo id x rid :
    s_active a !! id = Some x -> a_ok x = false ->
    snap_step a (put_txn id (drop_write rid x) a)
| snap_commit id x :
    s_active a !! id = Some x -> a_ok x = true ->
    snap_step a (mkSnap (s_now a + 1) (push_all (s_now a + 1) (a_writes x) (s_hist a))
      (base.delete id (s_active a)))
| snap_leave id x rids :
    s_active a !! id = Some x -> a_ok x = true -> snap_step a (snap_left id x rids a)
| snap_end id x :
    s_active a !! id = Some x -> a_writes x = ∅ ->
    snap_step a (drop_txn id a).

(** A machine that has done nothing. *)
Definition snap0 : snap := mkSnap 0 ∅ ∅.

(** ** Facts of the machine *)

Lemma history_push_all a stamp w rid :
  default [] (push_all stamp w (s_hist a) !! rid) =
    match w !! rid with Some v => (stamp, v) :: history a rid | None => history a rid end.
Proof.
  unfold push_all, history. rewrite lookup_merge.
  destruct (w !! rid), (s_hist a !! rid); done.
Qed.

Lemma history_know rid a r : history (know rid a) r = history a r.
Proof.
  unfold know, history. simpl. destruct (decide (r = rid)) as [->|].
  - by rewrite lookup_insert_eq.
  - by rewrite lookup_insert_ne.
Qed.

Lemma view_push r stamp v h : r < stamp -> view r ((stamp, v) :: h) = view r h.
Proof. intros. simpl. by rewrite (proj2 (Z.leb_gt _ _)) by lia. Qed.

(** Two machines that differ in one transaction only. *)
Definition same_but (id : TxnId) (a a' : snap) : Prop :=
  s_now a' = s_now a /\ s_hist a' = s_hist a /\
  forall id', id' <> id -> s_active a' !! id' = s_active a !! id'.

Lemma same_but_put id x a : same_but id a (put_txn id x a).
Proof. repeat split. intros id' Hne. simpl. by rewrite lookup_insert_ne. Qed.

Lemma same_but_trans id a1 a2 a3 : same_but id a1 a2 -> same_but id a2 a3 -> same_but id a1 a3.
Proof.
  intros (? & ? & E12) (? & ? & E23). split_and!; [congruence..|]. intros. rewrite E23, E12 by done. done.
Qed.

Lemma same_but_refl id a : same_but id a a.
Proof. done. Qed.

Lemma same_but_drop id a : same_but id a (drop_txn id a).
Proof. repeat split. intros id' Hne. simpl. by rewrite lookup_delete_ne. Qed.

Lemma writes_in_lookup rids w rid : writes_in rids w !! rid = if decide (rid ∈ rids) then w !! rid else None.
Proof.
  unfold writes_in. rewrite map_lookup_filter. destruct (w !! rid); simpl; [|by case_decide].
  case_decide; by simplify_option_eq.
Qed.

Lemma writes_out_lookup rids w rid : writes_out rids w !! rid = if decide (rid ∈ rids) then None else w !! rid.
Proof.
  unfold writes_out. rewrite map_lookup_filter. destruct (w !! rid); simpl; [|by case_decide].
  case_decide; by simplify_option_eq.
Qed.

Lemma history_left id x rids a rid : history (snap_left id x rids a) rid =
  match writes_in rids (a_writes x) !! rid with Some v => (s_now a + 1, v) :: history a rid | None => history a rid end.
Proof. unfold history at 1, snap_left. simpl. apply history_push_all. Qed.

(** Committing adds versions above every snapshot, so no snapshot changes. *)
Lemma snap_step_views a a' : snap_step a a' ->
  s_now a <= s_now a' /\ forall r rid, r <= s_now a -> view r (history a' rid) = view r (history a rid).
Proof.
  destruct 1 as [| |id x rid d Hx| | |id x Hx Hok|id x rids Hx Hok|]; simpl; try (split; [lia|done]).
  { split; [lia|]. intros r rid' Hr. exact (f_equal (view r) (history_know rid a rid')). }
  all: split; [lia|]; intros r rid Hr; unfold history at 1; simpl; rewrite history_push_all; case_match; [|done].
  all: apply view_push; lia.
Qed.

Lemma snap_steps_views a a' : rtc snap_step a a' ->
  s_now a <= s_now a' /\ forall r rid, r <= s_now a -> view r (history a' rid) = view r (history a rid).
Proof.
  induction 1 as [|a a1 a' Hs _ [IH1 IH2]]; [done|]. destruct (snap_step_views _ _ Hs) as [H1 H2].
  split; [lia|]. intros r rid Hr. rewrite IH2, H2 by lia. done.
Qed.

(** In every reachable state a row has one writer, which sees the row's newest version. *)
Record snap_ok (a : snap) : Prop := {
  so_now : 0 <= s_now a;
  so_read : forall id x, s_active a !! id = Some x -> 0 <= a_read x <= s_now a;
  so_seen : forall id x rid v, s_active a !! id = Some x -> a_writes x !! rid = Some v ->
    newest (history a rid) <= a_read x;
  so_one : forall id x id' x' rid v, s_active a !! id = Some x -> a_writes x !! rid = Some v ->
    s_active a !! id' = Some x' -> id' <> id -> a_writes x' !! rid = None;
}.

Lemma snap_ok_put a id x x' :
  snap_ok a -> s_active a !! id = Some x -> a_read x' = a_read x ->
  (forall rid v, a_writes x' !! rid = Some v -> a_writes x !! rid = None ->
     newest (history a rid) <= a_read x /\
     forall i y, s_active a !! i = Some y -> i <> id -> a_writes y !! rid = None) ->
  snap_ok (put_txn id x' a).
Proof.
  intros [H0 Hr Hs Ho] Hx Er Hnew.
  assert (Hown : forall rid v, a_writes x' !! rid = Some v -> newest (history a rid) <= a_read x /\
    forall i y, s_active a !! i = Some y -> i <> id -> a_writes y !! rid = None).
  { intros rid v Hv. destruct (a_writes x !! rid) as [v0|] eqn:E; [|eauto].
    split; [by eapply Hs|]. intros i y Hy Hne. by eapply (Ho id x i y). }
  split; simpl; [done|..].
  - intros i y. rewrite lookup_insert_Some. intros [[<- <-]|[Hne Hy]]; [rewrite Er; eauto|eauto].
  - intros i y rid v. rewrite lookup_insert_Some. intros [[<- <-]|[Hne Hy]] Hv.
    + rewrite Er. change (history (put_txn id x' a) rid) with (history a rid). by eapply Hown.
    + change (history (put_txn id x' a) rid) with (history a rid). eauto.
  - intros i y i' y' rid v. rewrite !lookup_insert_Some.
    intros [[<- <-]|[Hne Hy]] Hv [[<- <-]|[Hne' Hy']] Hd; try done.
    + destruct (Hown rid v Hv) as [_ Hn]. by eapply Hn.
    + destruct (a_writes x' !! rid) as [v'|] eqn:E; [|done].
      destruct (Hown rid v' E) as [_ Hn]. rewrite (Hn i y) in Hv; done.
    + by eapply (Ho i y i' y').
Qed.

Lemma snap_ok_drop a id a' :
  snap_ok a -> s_now a <= s_now a' -> s_active a' = base.delete id (s_active a) ->
  (forall i y rid v, i <> id -> s_active a !! i = Some y -> a_writes y !! rid = Some v ->
     newest (history a' rid) <= newest (history a rid)) -> snap_ok a'.
Proof.
  intros [H0 Hr Hs Ho] Hle Ha Hh. split; rewrite ?Ha.
  - lia.
  - intros i y. rewrite lookup_delete_Some. intros [Hne Hy]. specialize (Hr i y Hy). lia.
  - intros i y rid v. rewrite lookup_delete_Some. intros [Hne Hy] Hv.
    specialize (Hh i y rid v ltac:(done) Hy Hv). specialize (Hs i y rid v Hy Hv). lia.
  - intros i y i' y' rid v. rewrite !lookup_delete_Some. intros [_ Hy] Hv [_ Hy'] Hd. by eapply (Ho i y).
Qed.

Lemma snap_ok_left a id x rids : snap_ok a -> s_active a !! id = Some x -> snap_ok (snap_left id x rids a).
Proof.
  intros [H0 Hr Hs Ho] Hx.
  assert (Hold : forall i y rid v, s_active (snap_left id x rids a) !! i = Some y -> a_writes y !! rid = Some v ->
    exists y0, s_active a !! i = Some y0 /\ a_read y = a_read y0 /\ a_writes y0 !! rid = Some v /\
      history (snap_left id x rids a) rid = history a rid).
  { intros i y rid v. simpl. rewrite history_left, writes_in_lookup, lookup_insert_Some.
    intros [[<- <-]|[Hne Hy]] Hv; simpl in Hv.
    - rewrite writes_out_lookup in Hv. exists x. by case_decide.
    - exists y. split_and!; try done. case_decide; [|done]. by rewrite (Ho i y id x rid v). }
  split; [done|..].
  - intros i y. simpl. rewrite lookup_insert_Some. intros [[<- <-]|[Hne Hy]]; [exact (Hr id x Hx)|exact (Hr i y Hy)].
  - intros i y rid v Hy Hv. destruct (Hold i y rid v Hy Hv) as (y0 & Hy0 & -> & Hv0 & ->). by eapply Hs.
  - intros i y i' y' rid v Hy Hv Hy' Hd. destruct (a_writes y' !! rid) as [v'|] eqn:Hv'; [|done].
    destruct (Hold i y rid v Hy Hv) as (y0 & Hy0 & _ & Hv0 & _).
    destruct (Hold i' y' rid v' Hy' Hv') as (y0' & Hy0' & _ & Hv0' & _).
    by rewrite (Ho i y0 i' y0' rid v) in Hv0'.
Qed.

Lemma snap_step_ok a a' : snap_ok a -> snap_step a a' -> snap_ok a'.
Proof.
  intros HO Hs. pose proof HO as [H0 Hr Hse Ho].
  destruct Hs as [id Hn|id x rid v Hx Hoth Hnew _|id x rid d Hx Hh Hoth|id x Hx|id x rid Hx Hok|id x Hx Hok
    |id x rids Hx Hok|id x Hx Hw].
  - split; simpl; [done|..].
    + intros i y. rewrite lookup_insert_Some. intros [[<- <-]|[Hne Hy]]; [simpl; lia|eauto].
    + intros i y rid v. rewrite lookup_insert_Some. intros [[<- <-]|[Hne Hy]] Hv; [done|]. by eapply Hse.
    + intros i y i' y' rid v. rewrite !lookup_insert_Some.
      intros [[<- <-]|[Hne Hy]] Hv [[<- <-]|[Hne' Hy']] Hd; try done. by eapply (Ho i y).
  - eapply snap_ok_put; [done|exact Hx|done|]. simpl. intros r w Hw Hnw.
    destruct (decide (r = rid)) as [->|]; [|rewrite lookup_insert_ne in Hw by done; congruence]. split; [auto|eauto].
  - assert (HK : snap_ok (know rid a)).
    { split; simpl; [done..| |done]. intros i y r v. rewrite history_know. apply Hse. }
    eapply snap_ok_put; [exact HK|exact Hx|done|]. simpl. intros r w Hw Hnw.
    destruct (decide (r = rid)) as [->|]; [|rewrite lookup_insert_ne in Hw by done; congruence].
    rewrite history_know, Hh. split; [specialize (Hr id x Hx); unfold newest; simpl; lia|eauto].
  - eapply snap_ok_put; [done|exact Hx|done|]. simpl. congruence.
  - eapply snap_ok_put; [done|exact Hx|done|]. simpl. intros r w Hw Hnw.
    apply lookup_delete_Some in Hw as [_ Hw]. congruence.
  - apply (snap_ok_drop a id); [done|simpl; lia|done|]. intros i y rid v Hne Hy Hv.
    unfold history at 1. simpl. rewrite history_push_all. rewrite (Ho i y id x rid v) by done. unfold history. lia.
  - by apply snap_ok_left.
  - apply (snap_ok_drop a id); [done|simpl; lia|done|]. intros i y rid v _ _ _.
    change (history (drop_txn id a) rid) with (history a rid). lia.
Qed.

(** Rows once known stay known. *)
Lemma snap_step_known a a' rid : snap_step a a' -> is_Some (s_hist a !! rid) -> is_Some (s_hist a' !! rid).
Proof.
  destruct 1 as [| |id x r d Hx| | |id x Hx Hok|id x rids Hx Hok|]; simpl; try done.
  - intros Hs. destruct (decide (rid = r)) as [->|]; [by rewrite lookup_insert_eq|by rewrite lookup_insert_ne].
  - unfold push_all. rewrite lookup_merge. intros [h ->]. destruct (a_writes x !! rid); simpl; eauto.
  - unfold push_all. rewrite lookup_merge. intros [h ->]. destruct (writes_in rids (a_writes x) !! rid); simpl; eauto.
Qed.

Lemma snap_steps_known a a' rid : rtc snap_step a a' -> is_Some (s_hist a !! rid) -> is_Some (s_hist a' !! rid).
Proof. induction 1 as [|a a1 a' Hs _ IH]; [done|]. intros. by eapply IH, snap_step_known. Qed.
