(* ===== verification/MvccInv.v ===== *)
(** * The invariant of the transaction layer

    [Inv y a] relates the rows, undo chains, clocks and transaction handles [y] to a state [a]
    of the snapshot-isolation machine: in every row, what the slot and its chain show to each
    snapshot at or above the garbage-collection watermark is the row's history, and a slot that
    a transaction owns holds that transaction's write. It holds also while a commit is stamping
    slots, and after a commit that could not take its stamps back: the rows it left stamped have
    a version of the commit to come, and their writer has lost them. The lemmas say that each
    atomic step of the code keeps it. *)

From Stdlib Require Import ZArith Lia.
From stdpp Require Import base gmap list numbers option.
From S2P Require Import Prelude Bytes Ids Buf TablePage TablePageProofs TableHeap SlotStore.
From S2P Require Import Transaction TxnManager Mvcc MvccSpec.
Import TxnManager Mvcc.

Local Open Scope Z_scope.

(** ** Slots, chains and claims *)

Definition is_active (t : Transaction) : bool := bool_decide (state t = Running \/ state t = Tainted).

Definition log_version (l : UndoLog) : version :=
  (u_ts l, if u_deleted l then None else Some (u_data l)).
Definition slot_value (x : row) : option bytes := if is_deleted x.1 then None else Some x.2.
Definition slot_version (x : row) : version := (ts x.1, slot_value x).

(** The commit in progress: its transaction and the slots it has stamped. *)
Abbreviation committing := (option (TxnId * gset RecordId)).

(** What the code has in memory and in storage, and the transactions whose commit failed and
    left slots stamped. *)
Record sys : Type := mkSys {
  y_rows : gmap RecordId row;
  y_mgr : TxnManager;
  y_txns : gmap TxnId Transaction;
  y_commit : committing;
  y_gc : Timestamp;
  y_stuck : gset TxnId;
}.

(** The stamp of a slot that transaction [id] owns. *)
Definition stamp_of (cm : committing) (now : Timestamp) (id : TxnId) (rid : RecordId) : Timestamp :=
  match cm with
  | Some (cid, done) => if bool_decide (cid = id /\ rid ∈ done) then now + 1 else id
  | None => id
  end.

(** What a transaction says of a slot it wrote. *)
Record claim : Type := mkClaim { cl_stamp : Timestamp; cl_pushed : bool; cl_value : option bytes }.

Definition claim_of (txns : gmap TxnId Transaction) (cm : committing) (a : snap)
    (rid : RecordId) (id : TxnId) : option claim :=
  match txns !! id, s_active a !! id with
  | Some t, Some x =>
      if is_active t then
        match write_set t !! rid, a_writes x !! rid with
        | Some p, Some v => Some (mkClaim (stamp_of cm (s_now a) id rid) p v)
        | _, _ => None
        end
      else None
  | _, _ => None
  end.

Definition owned (claims : TxnId -> option claim) (oc : option claim) : Prop :=
  match oc with
  | None => forall id, claims id = None
  | Some c => exists id, claims id = Some c /\ forall id', id' <> id -> claims id' = None
  end.

(** [chain] shows the history [h] to every snapshot from [gc] on. *)
Definition rep (gc : Timestamp) (chain h : list version) : Prop :=
  (forall r, gc <= r -> view r chain = view r h) /\ newest chain = newest h.

Definition log_ok (now : Timestamp) (l : UndoLog) : Prop :=
  0 <= u_ts l <= now /\ Forall is_byte (u_data l).

Definition row_ok (now gc : Timestamp) (slot : option row) (chain : list UndoLog)
    (h : list version) (oc : option claim) : Prop :=
  Forall (log_ok now) chain /\
  match slot with
  | None => chain = [] /\ h = [] /\ oc = None
  | Some x =>
      meta_valid x.1 /\ Forall is_byte x.2 /\
      match oc with
      | None => ts x.1 <= now + 1 /\ ts x.1 < TXN_START_ID /\
          rep gc (slot_version x :: (log_version <$> chain)) h
      | Some c => ts x.1 = cl_stamp c /\ cl_value c = slot_value x /\
          if cl_pushed c then chain <> [] /\ rep gc (log_version <$> chain) h
          else chain = [] /\ h = []
      end
  end.

(** ** The invariant *)

(** The running transactions that read at [r]. *)
Definition active_at (txns : gmap TxnId Transaction) (r : Timestamp) : gmap TxnId Transaction :=
  filter (fun p => is_active p.2 = true /\ read_ts p.2 = r) txns.

Record Clocks (m : TxnManager) (txns : gmap TxnId Transaction) (a : snap) (gc : Timestamp) : Prop := {
  ck_now : last_commit_ts m = s_now a;
  ck_gc : 0 <= gc <= s_now a;
  ck_max : s_now a < TXN_START_ID;
  ck_next : TXN_START_ID <= next_txn_id m <= u64_max;
  ck_running : forall r, default 0%nat (running m !! r) = base.size (active_at txns r);
  ck_positive : forall r, running m !! r <> Some 0%nat;
}.

(** A row in the write set of transaction [t] whose slot its failed commit left stamped. *)
Definition lost (a : snap) (stuck : gset TxnId) (id : TxnId) (t : Transaction) (rid : RecordId) : Prop :=
  id ∈ stuck /\ state t = Tainted /\ read_ts t < newest (history a rid).

Definition txn_ok (m : TxnManager) (a : snap) (gc : Timestamp) (stuck : gset TxnId) (id : TxnId) (t : Transaction) : Prop :=
  txn_id t = id /\ TXN_START_ID <= id < next_txn_id m /\ 0 <= read_ts t <= s_now a /\
  if is_active t then
    gc <= read_ts t /\
    exists x, s_active a !! id = Some x /\ a_read x = read_ts t /\
      a_ok x = bool_decide (state t = Running) /\
      (forall rid, write_set t !! rid = None -> a_writes x !! rid = None) /\
      (forall rid, write_set t !! rid <> None -> a_writes x !! rid = None -> lost a stuck id t rid)
  else s_active a !! id = None.

Definition commit_ok (txns : gmap TxnId Transaction) (now : Timestamp) (cm : committing) : Prop :=
  match cm with
  | None => True
  | Some (id, done) => now + 1 < TXN_START_ID /\
      exists t, txns !! id = Some t /\ state t = Running /\ done ⊆ dom (write_set t)
  end.

(** Transaction [id] left the slot of [rid] stamped: it has the row in its write set, and the
    machine no longer has it there. *)
Definition left_by (txns : gmap TxnId Transaction) (a : snap) (stuck : gset TxnId) (rid : RecordId) (id : TxnId) : Prop :=
  id ∈ stuck /\ exists t x, txns !! id = Some t /\ is_active t = true /\ write_set t !! rid <> None /\
    s_active a !! id = Some x /\ a_writes x !! rid = None.

Record Inv (y : sys) (a : snap) : Prop := {
  inv_clocks : Clocks (y_mgr y) (y_txns y) a (y_gc y);
  inv_txns : forall id, match y_txns y !! id with
                        | Some t => txn_ok (y_mgr y) a (y_gc y) (y_stuck y) id t
                        | None => s_active a !! id = None
                        end;
  inv_rows : forall rid, exists oc,
    owned (claim_of (y_txns y) (y_commit y) a rid) oc /\
    row_ok (s_now a) (y_gc y) (y_rows y !! rid) (version_chain (y_mgr y) rid) (history a rid) oc;
  inv_known : forall rid, is_Some (y_rows y !! rid) <-> is_Some (s_hist a !! rid);
  inv_chains : forall rid, versions (y_mgr y) !! rid <> Some [];
  inv_commit : commit_ok (y_txns y) (s_now a) (y_commit y);
  inv_future : forall rid, s_now a < newest (history a rid) ->
    exists id, left_by (y_txns y) a (y_stuck y) rid id;
}.

(** No version is newer than the commit to come. *)
Lemma newest_le y a rid : Inv y a -> newest (history a rid) <= s_now a + 1.
Proof.
  intros HI. pose proof (ck_gc _ _ _ _ (inv_clocks _ _ HI)) as Hgc.
  destruct (inv_rows _ _ HI rid) as (oc & _ & Hlog & Hrow).
  destruct (y_rows y !! rid) as [x|]; [|destruct Hrow as (_ & -> & _); cbn; lia].
  destruct Hrow as (_ & _ & Hrow). destruct oc as [cl|].
  - destruct Hrow as (_ & _ & Hrow). destruct (cl_pushed cl).
    + destruct Hrow as (Hne & _ & <-). destruct (version_chain (y_mgr y) rid) as [|l chain]; [done|].
      apply Forall_cons_1 in Hlog as [[? _] _]. cbn. lia.
    + destruct Hrow as [_ ->]. cbn. lia.
  - destruct Hrow as (? & _ & _ & <-). cbn. lia.
Qed.

(** An active transaction and its abstract counterpart. *)
Lemma inv_active y a id t :
  Inv y a -> y_txns y !! id = Some t -> is_active t = true ->
  txn_id t = id /\ TXN_START_ID <= id < next_txn_id (y_mgr y) /\
  y_gc y <= read_ts t <= s_now a /\ exists x, s_active a !! id = Some x /\
    a_read x = read_ts t /\ a_ok x = bool_decide (state t = Running) /\
    (forall rid, write_set t !! rid = None -> a_writes x !! rid = None) /\
    (forall rid, write_set t !! rid <> None -> a_writes x !! rid = None -> lost a (y_stuck y) id t rid).
Proof.
  intros HI Ht Hact. pose proof (inv_txns _ _ HI id) as H. rewrite Ht in H.
  destruct H as (? & ? & ? & H). rewrite Hact in H. destruct H as (? & x & ? & ? & ? & ? & ?).
  split_and!; try done; try lia. by exists x.
Qed.

(** A transaction that may still commit has lost no row. *)
Lemma running_writes y a id t x rid :
  Inv y a -> y_txns y !! id = Some t -> state t = Running -> s_active a !! id = Some x ->
  write_set t !! rid = None <-> a_writes x !! rid = None.
Proof.
  intros HI Ht Hrun Hx. assert (Ha : is_active t = true) by (unfold is_active; apply bool_decide_true; auto).
  destruct (inv_active _ _ _ _ HI Ht Ha) as (_ & _ & _ & x0 & Hx0 & _ & _ & Hw & Hl).
  assert (x0 = x) as -> by congruence. split; [apply Hw|]. intros E.
  destruct (write_set t !! rid) eqn:Ew; [|done]. destruct (Hl rid ltac:(by rewrite Ew) E) as (_ & ? & _). congruence.
Qed.

(** A row somebody wrote is there. *)
Lemma written_known y a id t rid p :
  Inv y a -> y_txns y !! id = Some t -> is_active t = true -> write_set t !! rid = Some p ->
  is_Some (s_hist a !! rid).
Proof.
  intros HI Ht Ha Hw. apply (inv_known _ _ HI). destruct (inv_rows _ _ HI rid) as (oc & Hown & _ & Hrow).
  destruct (y_rows y !! rid) as [x|]; [eauto|]. destruct Hrow as (_ & Hh & ->). specialize (Hown id).
  destruct (inv_active _ _ _ _ HI Ht Ha) as (_ & _ & Hread & x & Hx & _ & _ & _ & Hlost).
  unfold claim_of in Hown. rewrite Ht, Ha, Hw, Hx in Hown.
  destruct (a_writes x !! rid) eqn:E; [done|]. destruct (Hlost rid ltac:(by rewrite Hw) E) as (_ & _ & Hlt).
  rewrite Hh in Hlt. pose proof (ck_gc _ _ _ _ (inv_clocks _ _ HI)). cbn in Hlt. lia.
Qed.

(** ** Reading *)

Lemma chain_visible_view r chain : chain_visible r chain = view r (log_version <$> chain).
Proof. induction chain as [|l chain IH]; [done|]. csimpl. by rewrite IH. Qed.

(** The stamp of an owned slot is above every snapshot, and names its owner. *)
Lemma claim_stamp y a rid id c :
  Inv y a -> claim_of (y_txns y) (y_commit y) a rid id = Some c ->
  s_now a < cl_stamp c /\ (cl_stamp c = id \/ cl_stamp c < TXN_START_ID) /\ TXN_START_ID <= id.
Proof.
  intros HI Hc. unfold claim_of in Hc. pose proof (inv_txns _ _ HI id) as Ht.
  destruct (y_txns y !! id) as [t|]; [|done]. destruct (s_active a !! id) as [x|]; [|done].
  destruct (is_active t); [|done]. destruct (write_set t !! rid), (a_writes x !! rid); simplify_eq. simpl.
  destruct Ht as (_ & Hr & _). pose proof (ck_max _ _ _ _ (inv_clocks _ _ HI)) as Hmax.
  pose proof (inv_commit _ _ HI) as Hcm. unfold stamp_of, commit_ok in *.
  destruct (y_commit y) as [[cid dn]|]; [|lia]. case_bool_decide; lia.
Qed.

Lemma claim_not_committing txns cm a id t x rid :
  txns !! id = Some t -> is_active t = true -> s_active a !! id = Some x ->
  (forall dn, cm <> Some (id, dn)) ->
  claim_of txns cm a rid id =
    match write_set t !! rid, a_writes x !! rid with Some p, Some v => Some (mkClaim id p v) | _, _ => None end.
Proof.
  intros Ht Hact Hs Hcm. unfold claim_of. rewrite Ht, Hact, Hs. unfold stamp_of.
  destruct cm as [[cid dn]|] eqn:Ecm; [|done].
  rewrite bool_decide_false; [done|]. intros [-> _]. by apply (Hcm dn).
Qed.

(** What a row that [id] does not write shows to it at snapshot [r]. *)
Lemma outsider_view y a id r rid x :
  Inv y a -> claim_of (y_txns y) (y_commit y) a rid id = None -> TXN_START_ID <= id ->
  y_gc y <= r <= s_now a -> y_rows y !! rid = Some x ->
  (if (ts x.1 =? id) || (ts x.1 <=? r) then slot_value x else chain_visible r (version_chain (y_mgr y) rid)) =
    view r (history a rid).
Proof.
  intros HI Hnone Hid Hr Hx. rewrite chain_visible_view.
  destruct (inv_rows _ _ HI rid) as (oc & Hown & Hch & Hrow). rewrite Hx in Hrow.
  destruct Hrow as (Hmeta & Hbytes & Hrow). destruct oc as [c|].
  - destruct Hrow as (Hstamp & Hval & Hrest). destruct Hown as (id' & Hc & _).
    destruct (claim_stamp _ _ _ _ _ HI Hc) as (Hlt & Hst & Hid').
    assert (id' <> id) by congruence.
    rewrite (proj2 (Z.eqb_neq _ _)), (proj2 (Z.leb_gt _ _)) by lia. simpl. destruct (cl_pushed c).
    + destruct Hrest as [_ [Hv _]]. apply Hv. lia.
    + by destruct Hrest as [-> ->].
  - destruct Hrow as (_ & Hnow & Hv & _). rewrite <- Hv by lia. unfold slot_version. simpl.
    by rewrite (proj2 (Z.eqb_neq _ _)) by lia.
Qed.

(** A transaction that is not committing, and the row it looks at. *)
Lemma read_ok y a id t rid x :
  Inv y a -> y_txns y !! id = Some t -> is_active t = true ->
  (forall dn, y_commit y <> Some (id, dn)) -> y_rows y !! rid = Some x ->
  visible_version t (y_mgr y) rid x.1 x.2 = snap_read a id rid.
Proof.
  intros HI Ht Hact Hcm Hx.
  destruct (inv_active _ _ _ _ HI Ht Hact) as (Hid & Hrange & Hread & s & Hs & Hr & _ & Hw & _).
  pose proof (claim_not_committing (y_txns y) (y_commit y) a id t s rid Ht Hact Hs Hcm) as Hclaim.
  unfold visible_version, snap_read, sees. rewrite Hs, Hid, Hr. fold (slot_value x).
  destruct (a_writes s !! rid) as [v|] eqn:Hv; simpl.
  - destruct (write_set t !! rid) as [p|] eqn:Hp; [|by rewrite (Hw rid Hp) in Hv].
    destruct (inv_rows _ _ HI rid) as (oc & Hown & _ & Hrow). rewrite Hx in Hrow.
    destruct Hrow as (_ & _ & Hrow). destruct oc as [c|]; [|specialize (Hown id); by rewrite Hclaim in Hown].
    destruct Hown as (id' & Hc & Huniq). destruct (decide (id = id')) as [<-|Hne].
    2:{ specialize (Huniq id Hne). by rewrite Hclaim in Huniq. }
    rewrite Hclaim in Hc. injection Hc as <-. destruct Hrow as (Hstamp & Hval & _). simpl in *.
    by rewrite Hstamp, Z.eqb_refl.
  - apply outsider_view; try done; [|lia]. rewrite Hclaim. by destruct (write_set t !! rid).
Qed.

(** ** Assembling the invariant after a step on one row *)

Lemma active_at_update txns id t t' r :
  txns !! id = Some t -> is_active t' = is_active t -> read_ts t' = read_ts t ->
  base.size (active_at (<[id := t']> txns) r) = base.size (active_at txns r).
Proof.
  intros Ht Ha Hr. unfold active_at. rewrite map_filter_insert. simpl. rewrite Ha, Hr.
  set (P := fun p : TxnId * Transaction => is_active p.2 = true /\ read_ts p.2 = r).
  case_decide as HP.
  - rewrite map_size_insert_Some; [done|]. exists t. by apply map_lookup_filter_Some_2.
  - rewrite map_filter_delete_not; [done|]. intros t0 H0. simpl.
    assert (t0 = t) as -> by congruence. done.
Qed.

(** Two states of the manager that differ in undo chains and log only. *)
Definition same_clocks (m m' : TxnManager) : Prop :=
  next_txn_id m' = next_txn_id m /\ last_commit_ts m' = last_commit_ts m /\ running m' = running m.

(** Two states of a transaction that differ in write set and log flag only. *)
Definition same_txn (t t' : Transaction) : Prop :=
  txn_id t' = txn_id t /\ read_ts t' = read_ts t /\ state t' = state t.

Definition same_snap_txn (x x' : snap_txn) : Prop := a_read x' = a_read x /\ a_ok x' = a_ok x.

Lemma same_txn_active t t' : same_txn t t' -> is_active t' = is_active t.
Proof. intros (_ & _ & E). unfold is_active. by rewrite E. Qed.

Lemma clocks_step m m' txns a gc id t t' x :
  Clocks m txns a gc -> same_clocks m m' -> txns !! id = Some t -> same_txn t t' ->
  Clocks m' (<[id := t']> txns) (put_txn id x a) gc.
Proof.
  intros [] (E1 & E2 & E3) Ht Hs. pose proof (same_txn_active _ _ Hs). destruct Hs as (_ & Hr & _).
  split; simpl; rewrite ?E1, ?E2, ?E3; try done.
  intros r. by rewrite (active_at_update txns id t).
Qed.

Lemma claim_None txns cm a rid id :
  claim_of txns cm a rid id = None <->
  (forall t x, txns !! id = Some t -> s_active a !! id = Some x -> is_active t = true ->
    write_set t !! rid = None \/ a_writes x !! rid = None).
Proof.
  unfold claim_of. destruct (txns !! id) as [t|]; [|naive_solver]. destruct (s_active a !! id) as [x|]; [|naive_solver].
  destruct (is_active t) eqn:E; [|naive_solver congruence].
  destruct (write_set t !! rid) eqn:Ew, (a_writes x !! rid) eqn:Ea; simpl; naive_solver congruence.
Qed.

Lemma claim_None_ext txns cm cm' a a' rid id :
  s_active a' !! id = s_active a !! id ->
  claim_of txns cm a rid id = None -> claim_of txns cm' a' rid id = None.
Proof. rewrite !claim_None. by intros ->. Qed.

Lemma claim_other txns cm a rid id id' t' x' :
  id' <> id -> claim_of (<[id := t']> txns) cm (put_txn id x' a) rid id' = claim_of txns cm a rid id'.
Proof. intros H. unfold claim_of. simpl. by rewrite !lookup_insert_ne. Qed.

Lemma owned_self (claims : TxnId -> option claim) id c :
  claims id = Some c -> (forall id', id' <> id -> claims id' = None) -> owned claims (Some c).
Proof. intros H1 H2. by exists id. Qed.

Lemma owned_nobody (claims : TxnId -> option claim) id :
  claims id = None -> (forall id', id' <> id -> claims id' = None) -> owned claims None.
Proof. intros H1 H2 id'. destruct (decide (id' = id)) as [->|]; auto. Qed.

Lemma owned_ext (f g : TxnId -> option claim) oc : (forall id, f id = g id) -> owned g oc -> owned f oc.
Proof.
  intros E. destruct oc as [c|]; simpl.
  - intros (id & H & Hu). exists id. rewrite E. split; [done|]. intros. rewrite E. auto.
  - intros H id. by rewrite E.
Qed.

(** A step of transaction [id] on row [rid]. *)
Lemma inv_row_step y a a1 id t t' x x' rid slot m' cm' oc :
  s_now a1 = s_now a -> s_active a1 = s_active a -> (forall r, history a1 r = history a r) ->
  (forall r, is_Some (s_hist a1 !! r) <-> r = rid \/ is_Some (y_rows y !! r)) ->
  Inv y a -> y_txns y !! id = Some t -> is_active t = true -> s_active a !! id = Some x ->
  same_clocks (y_mgr y) m' -> same_txn t t' -> same_snap_txn x x' ->
  (forall r, r <> rid -> versions m' !! r = versions (y_mgr y) !! r) -> versions m' !! rid <> Some [] ->
  (forall r, r <> rid -> write_set t' !! r = write_set t !! r) ->
  (forall r, r <> rid -> a_writes x' !! r = a_writes x !! r) ->
  (a_writes x' !! rid = None <-> write_set t' !! rid = None) ->
  commit_ok (<[id := t']> (y_txns y)) (s_now a) cm' ->
  (forall r i, r <> rid -> stamp_of cm' (s_now a) i r = stamp_of (y_commit y) (s_now a) i r) ->
  owned (claim_of (<[id := t']> (y_txns y)) cm' (put_txn id x' a) rid) oc ->
  row_ok (s_now a) (y_gc y) (Some slot) (version_chain m' rid) (history a rid) oc ->
  newest (history a rid) <= s_now a ->
  Inv (mkSys (<[rid := slot]> (y_rows y)) m' (<[id := t']> (y_txns y)) cm' (y_gc y) (y_stuck y)) (put_txn id x' a1).
Proof.
  intros En Ea Eh Ek HI Ht Hact Hx Hm Htx Hsx Hver Hne Hws Haw Hiff Hcm Hst Hown Hrow Hpast.
  destruct (inv_active _ _ _ _ HI Ht Hact) as (Hid & Hrange & Hread & x0 & Hx0 & Hr & Hok & Hdom & Hlost).
  assert (x0 = x) as -> by congruence.
  assert (Elost : forall st i u r, lost (put_txn id x' a1) st i u r <-> lost a st i u r).
  { intros. unfold lost. change (history (put_txn id x' a1) r) with (history a1 r). by rewrite Eh. }
  pose proof (same_txn_active _ _ Htx) as Hact'. destruct Htx as (Hid' & Hread' & Hstate').
  destruct Hsx as [Hsr Hso].
  split; simpl.
  - pose proof (clocks_step (y_mgr y) m' (y_txns y) a (y_gc y) id t t' x') as [];
      [apply HI|done|done|by repeat split|]. split; simpl in *; rewrite ?En; done.
  - intros i. rewrite Ea. destruct (decide (i = id)) as [->|Hi].
    + rewrite !lookup_insert_eq. unfold txn_ok. simpl. rewrite Ea, En. destruct Hm as (-> & _ & _).
      pose proof (inv_txns _ _ HI id) as H. rewrite Ht in H. destruct H as (_ & _ & H0 & _).
      rewrite Hact', Hact, Hread', lookup_insert_eq. split_and!; try lia; try congruence.
      exists x'. rewrite Hsr, Hso, Hstate'. split_and!; try done.
      * intros r. destruct (decide (r = rid)) as [->|]; [apply Hiff|]. rewrite Haw, Hws by done. apply Hdom.
      * intros r. destruct (decide (r = rid)) as [->|]; [intros Hw1 Hw2; by destruct Hw1; apply Hiff|].
        rewrite Haw, Hws by done. intros Hw1 Hw2. apply Elost. unfold lost. rewrite Hstate', Hread'. by apply Hlost.
    + rewrite !lookup_insert_ne by done. pose proof (inv_txns _ _ HI i) as H.
      destruct (y_txns y !! i) as [u|]; [|done]. unfold txn_ok in *. simpl. rewrite Ea, En.
      destruct Hm as (-> & _ & _). rewrite !lookup_insert_ne by done.
      destruct H as (? & ? & ? & H). split_and!; try done; try lia. destruct (is_active u); [|done].
      destruct H as (? & y0 & ? & ? & ? & ? & Hl). split; [done|]. exists y0. split_and!; try done.
      intros r Hw1 Hw2. by apply Elost, Hl.
  - intros r. change (history (put_txn id x' a1) r) with (history a1 r). rewrite Eh, En.
    assert (Ecl : forall i, claim_of (<[id := t']> (y_txns y)) cm' (put_txn id x' a1) r i =
      claim_of (<[id := t']> (y_txns y)) cm' (put_txn id x' a) r i).
    { intros i. unfold claim_of. simpl. by rewrite Ea, En. }
    destruct (decide (r = rid)) as [->|Hr'].
    + exists oc. rewrite lookup_insert_eq. split; [|done]. by eapply owned_ext.
    + destruct (inv_rows _ _ HI r) as (oc' & Hown' & Hrow'). exists oc'.
      rewrite lookup_insert_ne by done. split.
      * eapply owned_ext; [|exact Hown']. intros i. rewrite Ecl. unfold claim_of. simpl.
        destruct (decide (i = id)) as [->|]; [|by rewrite !lookup_insert_ne, Hst].
        rewrite !lookup_insert_eq, Hact', Ht, Hact, Hst, Hws, Hx by done. simpl. by rewrite Haw.
      * unfold version_chain. by rewrite Hver.
  - intros r. rewrite Ek. destruct (decide (r = rid)) as [->|].
    + rewrite lookup_insert_eq. naive_solver.
    + rewrite lookup_insert_ne by done. naive_solver.
  - intros r. destruct (decide (r = rid)) as [->|]; [done|]. rewrite Hver by done. apply HI.
  - by rewrite En.
  - intros r. change (history (put_txn id x' a1) r) with (history a1 r). rewrite Eh, En. intros Hlt.
    assert (Hr' : r <> rid) by (intros ->; lia).
    destruct (inv_future _ _ HI r Hlt) as (i & Hi & u & z & Hu & Hua & Huw & Hz & Hzw).
    exists i. split; [done|]. simpl. rewrite Ea. destruct (decide (i = id)) as [->|Hni].
    + exists t', x'. assert (u = t) as -> by congruence. assert (z = x) as -> by congruence.
      rewrite !lookup_insert_eq, Hws, Haw by done. split_and!; congruence.
    + exists u, z. by rewrite !lookup_insert_ne.
Qed.

(** The same when the row was there. *)
Lemma known_row y a rid x : Inv y a -> y_rows y !! rid = Some x ->
  forall r, is_Some (s_hist a !! r) <-> r = rid \/ is_Some (y_rows y !! r).
Proof. intros HI Hx r. rewrite <- (inv_known _ _ HI). naive_solver. Qed.

Lemma put_txn_id id x a : s_active a !! id = Some x -> put_txn id x a = a.
Proof. intros H. unfold put_txn. destruct a. simpl in *. f_equal. by apply insert_id. Qed.

(** ** The steps of an active transaction on a slot *)

Section slot_steps.
Context (y : sys) (a : snap) (id : TxnId) (t : Transaction) (x : snap_txn).
Context (rid : RecordId) (meta : TupleMeta) (d : bytes).
Context (HI : Inv y a) (Ht : y_txns y !! id = Some t) (Hact : is_active t = true).
Context (Hx : s_active a !! id = Some x) (Hslot : y_rows y !! rid = Some (meta, d)).

Lemma slot_valid : meta_valid meta /\ Forall is_byte d.
Proof using HI Hslot.
  destruct (inv_rows _ _ HI rid) as (oc & _ & _ & Hrow). rewrite Hslot in Hrow.
  destruct Hrow as (? & ? & _). done.
Qed.

(** The slot of a row that the transaction wrote and has not lost. *)
Lemma own_slot (p : bool) : write_set t !! rid = Some p -> a_writes x !! rid <> None ->
  ts meta = stamp_of (y_commit y) (s_now a) id rid /\ a_writes x !! rid = Some (slot_value (meta, d)) /\
  (forall id', id' <> id -> claim_of (y_txns y) (y_commit y) a rid id' = None) /\
  Forall (log_ok (s_now a)) (version_chain (y_mgr y) rid) /\
  if p then version_chain (y_mgr y) rid <> [] /\
    rep (y_gc y) (log_version <$> version_chain (y_mgr y) rid) (history a rid)
  else version_chain (y_mgr y) rid = [] /\ history a rid = [].
Proof using HI Ht Hact Hx Hslot.
  intros Hp Hheld. destruct (a_writes x !! rid) as [v|] eqn:Ha; [|done].
  assert (Hc : claim_of (y_txns y) (y_commit y) a rid id =
    Some (mkClaim (stamp_of (y_commit y) (s_now a) id rid) p v)).
  { unfold claim_of. rewrite Ht, Hact, Hp, Hx. simpl. by rewrite Ha. }
  destruct (inv_rows _ _ HI rid) as (oc & Hown & Hlog & Hrow). rewrite Hslot in Hrow.
  destruct Hrow as (_ & _ & Hrow). destruct oc as [c|].
  - destruct Hown as (id' & Hc' & Hu). destruct (decide (id = id')) as [<-|Hne].
    + rewrite Hc in Hc'. injection Hc' as <-. simpl in Hrow. destruct Hrow as (? & -> & ?). done.
    + specialize (Hu id Hne). congruence.
  - specialize (Hown id). congruence.
Qed.

(** Its committed versions are all of the past. *)
Lemma own_newest (p : bool) : write_set t !! rid = Some p -> a_writes x !! rid <> None -> newest (history a rid) <= s_now a.
Proof using HI Ht Hact Hx Hslot.
  intros Hp Hheld. destruct (own_slot p Hp Hheld) as (_ & _ & _ & Hlog & Hrest).
  pose proof (ck_gc _ _ _ _ (inv_clocks _ _ HI)) as Hgc. destruct p.
  - destruct Hrest as (Hne & _ & <-). destruct (version_chain (y_mgr y) rid) as [|l chain]; [done|].
    apply Forall_cons_1 in Hlog as [[? _] _]. cbn. lia.
  - destruct Hrest as [_ ->]. cbn. lia.
Qed.

(** A slot that carries the id of a transaction not committing is one it wrote. *)
Lemma own_stamp : (forall dn, y_commit y <> Some (id, dn)) -> ts meta = id ->
  write_set t !! rid <> None /\ a_writes x !! rid <> None.
Proof using HI Ht Hact Hx Hslot.
  intros Hcm Hts. destruct (inv_rows _ _ HI rid) as (oc & Hown & Hlog & Hrow). rewrite Hslot in Hrow.
  destruct Hrow as (_ & _ & Hrow). pose proof (ck_max _ _ _ _ (inv_clocks _ _ HI)) as Hmax.
  destruct (inv_active _ _ _ _ HI Ht Hact) as (_ & Hrange & _). destruct oc as [c|].
  - destruct Hown as (id' & Hc & _). destruct Hrow as (Hst & _ & _). simpl in Hst.
    destruct (claim_stamp _ _ _ _ _ HI Hc) as (_ & Hor & Hge).
    assert (id' = id) as -> by lia.
    rewrite (claim_not_committing _ _ a id t x) in Hc by done. by destruct (write_set t !! rid), (a_writes x !! rid).
  - destruct Hrow as (_ & Hle & _). simpl in Hle. lia.
Qed.

(** A row whose newest version is a commit that the transaction sees: nobody writes it. *)
Lemma seen_slot : ts meta <= read_ts t ->
  (forall id', claim_of (y_txns y) (y_commit y) a rid id' = None) /\
  Forall (log_ok (s_now a)) (version_chain (y_mgr y) rid) /\ ts meta <= s_now a /\
  rep (y_gc y) (slot_version (meta, d) :: (log_version <$> version_chain (y_mgr y) rid)) (history a rid).
Proof using HI Ht Hact Hx Hslot.
  intros Hle. destruct (inv_active _ _ _ _ HI Ht Hact) as (_ & _ & Hread & _).
  destruct (inv_rows _ _ HI rid) as (oc & Hown & Hlog & Hrow). rewrite Hslot in Hrow.
  destruct Hrow as (_ & _ & Hrow). destruct oc as [c|].
  - destruct Hown as (id' & Hc & _). destruct Hrow as (Hst & _ & _). simpl in Hst.
    destruct (claim_stamp _ _ _ _ _ HI Hc) as (Hlt & _). lia.
  - simpl in Hrow. destruct Hrow as (? & ? & ?). split_and!; try done. lia.
Qed.

(** Such a row is not one that the transaction has lost. *)
Lemma seen_unwritten : ts meta <= read_ts t -> a_writes x !! rid = None -> write_set t !! rid = None.
Proof using HI Ht Hact Hx Hslot.
  intros Hle Hno. destruct (seen_slot Hle) as (_ & _ & _ & _ & Hnew).
  destruct (inv_active _ _ _ _ HI Ht Hact) as (_ & _ & _ & x0 & Hx0 & _ & _ & _ & Hlost).
  assert (x0 = x) as -> by congruence. destruct (write_set t !! rid) eqn:Ew; [|done].
  destruct (Hlost rid ltac:(by rewrite Ew) Hno) as (_ & _ & Hlt). rewrite <- Hnew in Hlt. cbn in Hlt. lia.
Qed.

(** A row that it has lost is one it can neither see nor take. *)
Lemma lost_stamp : (forall dn, y_commit y <> Some (id, dn)) -> write_set t !! rid <> None -> a_writes x !! rid = None ->
  ts meta <> id /\ read_ts t < ts meta.
Proof using HI Ht Hact Hx Hslot.
  intros Hcm Hw Hno. split; [intros E; by destruct (own_stamp Hcm E)|].
  apply Z.nle_gt. intros Hle. by apply Hw, seen_unwritten.
Qed.

Lemma owned_mine t' x' cm' p v :
  is_active t' = true -> write_set t' !! rid = Some p -> a_writes x' !! rid = Some v ->
  (forall id', id' <> id -> claim_of (y_txns y) (y_commit y) a rid id' = None) ->
  owned (claim_of (<[id := t']> (y_txns y)) cm' (put_txn id x' a) rid)
    (Some (mkClaim (stamp_of cm' (s_now a) id rid) p v)).
Proof using.
  intros Ha Hp Hv Hnone. apply (owned_self _ id).
  - unfold claim_of. simpl. rewrite !lookup_insert_eq, Ha, Hp. simpl. by rewrite Hv.
  - intros id' Hne. rewrite claim_other by done. eapply claim_None_ext; [done|]. by apply Hnone.
Qed.

Lemma owned_dropped t' x' cm' :
  write_set t' !! rid = None ->
  (forall id', id' <> id -> claim_of (y_txns y) (y_commit y) a rid id' = None) ->
  owned (claim_of (<[id := t']> (y_txns y)) cm' (put_txn id x' a) rid) None.
Proof using.
  intros Hp Hnone. apply (owned_nobody _ id).
  - apply claim_None. intros t0 x0. rewrite lookup_insert_eq. intros [= <-] _ _. by left.
  - intros id' Hne. rewrite claim_other by done. eapply claim_None_ext; [done|]. by apply Hnone.
Qed.

Lemma stamp_of_idle : (forall dn, y_commit y <> Some (id, dn)) ->
  stamp_of (y_commit y) (s_now a) id rid = id.
Proof using.
  intros Hcm. unfold stamp_of. destruct (y_commit y) as [[cid dn]|] eqn:E; [|done].
  rewrite bool_decide_false; [done|]. intros [-> _]. by apply (Hcm dn).
Qed.

Lemma commit_ok_other t' : (forall dn, y_commit y <> Some (id, dn)) ->
  commit_ok (<[id := t']> (y_txns y)) (s_now a) (y_commit y).
Proof using HI.
  intros Hcm. pose proof (inv_commit _ _ HI) as Hc. unfold commit_ok in *.
  destruct (y_commit y) as [[cid dn]|] eqn:Ec; [|done]. destruct Hc as (? & tc & Htc & ? & ?).
  split; [done|]. exists tc. rewrite lookup_insert_ne; [done|]. intros <-. by apply (Hcm dn).
Qed.

(** The first write of a row: its version goes to the chain and the slot becomes the
    transaction's. *)
Lemma inv_first_write t' m' meta' d' :
  ts meta <= read_ts t -> write_set t !! rid = None -> (forall dn, y_commit y <> Some (id, dn)) ->
  same_clocks (y_mgr y) m' -> same_txn t t' ->
  versions m' = <[rid := mkUndoLog (ts meta) (is_deleted meta) d :: version_chain (y_mgr y) rid]>
    (versions (y_mgr y)) ->
  write_set t' = <[rid := true]> (write_set t) ->
  meta_valid meta' -> ts meta' = id -> Forall is_byte d' ->
  Inv (mkSys (<[rid := (meta', d')]> (y_rows y)) m' (<[id := t']> (y_txns y)) (y_commit y) (y_gc y) (y_stuck y))
    (put_txn id (put_write rid (slot_value (meta', d')) x) a).
Proof using HI Ht Hact Hx Hslot.
  intros Hle Hnw Hcm Hm Htx Hver Hws Hmv Hts Hb.
  destruct (seen_slot Hle) as (Hnone & Hlog & Hnow & Hrep). destruct slot_valid as [Hmeta Hd].
  assert (Hvc : version_chain m' rid = mkUndoLog (ts meta) (is_deleted meta) d :: version_chain (y_mgr y) rid).
  { unfold version_chain at 1. by rewrite Hver, lookup_insert_eq. }
  assert (Ha' : is_active t' = true) by by rewrite (same_txn_active _ _ Htx).
  eapply (inv_row_step y a a id t t' x); try done; try by eapply known_row.
  - intros r Hr. by rewrite Hver, lookup_insert_ne.
  - by rewrite Hver, lookup_insert_eq.
  - intros r Hr. by rewrite Hws, lookup_insert_ne.
  - intros r Hr. simpl. by rewrite lookup_insert_ne.
  - simpl. by rewrite Hws, !lookup_insert_eq.
  - by apply commit_ok_other.
  - eapply owned_mine; [done|by rewrite Hws, lookup_insert_eq|apply lookup_insert_eq|].
    intros id' _. apply Hnone.
  - rewrite Hvc, stamp_of_idle by done. split.
    + constructor; [|done]. split; simpl; [|done]. unfold meta_valid in Hmeta. lia.
    + simpl. split_and!; try done.
  - destruct Hrep as [_ <-]. cbn. lia.
Qed.

(** A further write of a row by its owner. *)
Lemma inv_write_again t' m' meta' d' p :
  write_set t !! rid = Some p -> a_writes x !! rid <> None -> (forall dn, y_commit y <> Some (id, dn)) ->
  same_clocks (y_mgr y) m' -> same_txn t t' -> versions m' = versions (y_mgr y) ->
  write_set t' = write_set t -> meta_valid meta' -> ts meta' = id -> Forall is_byte d' ->
  Inv (mkSys (<[rid := (meta', d')]> (y_rows y)) m' (<[id := t']> (y_txns y)) (y_commit y) (y_gc y) (y_stuck y))
    (put_txn id (put_write rid (slot_value (meta', d')) x) a).
Proof using HI Ht Hact Hx Hslot.
  intros Hp Hheld Hcm Hm Htx Hver Hws Hmv Hts Hb.
  destruct (own_slot p Hp Hheld) as (Hst & Ha & Hnone & Hlog & Hrest).
  assert (Ha' : is_active t' = true) by by rewrite (same_txn_active _ _ Htx).
  assert (Hvc : version_chain m' rid = version_chain (y_mgr y) rid) by (unfold version_chain; by rewrite Hver).
  eapply (inv_row_step y a a id t t' x); try done; try by eapply known_row.
  - intros r Hr. by rewrite Hver.
  - rewrite Hver. apply HI.
  - intros r Hr. by rewrite Hws.
  - intros r Hr. simpl. by rewrite lookup_insert_ne.
  - simpl. by rewrite Hws, lookup_insert_eq, Hp.
  - by apply commit_ok_other.
  - eapply owned_mine; [done|by rewrite Hws|apply lookup_insert_eq|done].
  - rewrite Hvc, stamp_of_idle by done. split; [done|]. simpl. split_and!; done.
  - exact (own_newest p Hp Hheld).
Qed.

(** Stamping and un-stamping: the slot keeps its contents, and the commit in progress grows
    or shrinks by the row. *)
Lemma inv_restamp cm' meta' p :
  write_set t !! rid = Some p -> state t = Running ->
  commit_ok (y_txns y) (s_now a) cm' ->
  (forall r i, r <> rid -> stamp_of cm' (s_now a) i r = stamp_of (y_commit y) (s_now a) i r) ->
  ts meta' = stamp_of cm' (s_now a) id rid -> is_deleted meta' = is_deleted meta -> meta_valid meta' ->
  Inv (mkSys (<[rid := (meta', d)]> (y_rows y)) (y_mgr y) (y_txns y) cm' (y_gc y) (y_stuck y)) a.
Proof using HI Ht Hact Hx Hslot.
  intros Hp Hrun Hcm Hst Hts Hdel Hmv.
  assert (Hheld : a_writes x !! rid <> None) by (rewrite <- (running_writes y a id t x rid HI Ht Hrun Hx); congruence).
  destruct (own_slot p Hp Hheld) as (_ & Ha & Hnone & Hlog & Hrest). destruct slot_valid as [_ Hd].
  assert (E : <[id := t]> (y_txns y) = y_txns y) by by apply insert_id.
  rewrite <- E. rewrite <- (put_txn_id id x a Hx) at 1.
  eapply (inv_row_step y a a id t t x); try done; try by eapply known_row.
  - apply HI.
  - by rewrite Ha, Hp.
  - by rewrite E.
  - by eapply owned_mine.
  - split; [done|]. simpl. split_and!; try done. unfold slot_value. simpl. by rewrite Hdel.
  - exact (own_newest p Hp Hheld).
Qed.

(** Rolling a write back. *)
Lemma inv_rollback t' m' meta' d' (p : bool) :
  write_set t !! rid = Some p -> a_writes x !! rid <> None -> (forall dn, y_commit y <> Some (id, dn)) ->
  same_clocks (y_mgr y) m' -> same_txn t t' -> write_set t' = base.delete rid (write_set t) ->
  (forall r, r <> rid -> versions m' !! r = versions (y_mgr y) !! r) -> versions m' !! rid <> Some [] ->
  meta_valid meta' -> Forall is_byte d' ->
  (if p then exists head, version_chain (y_mgr y) rid = head :: version_chain m' rid /\
     ts meta' = u_ts head /\ is_deleted meta' = u_deleted head /\ d' = u_data head
   else version_chain m' rid = [] /\ ts meta' = 0 /\ is_deleted meta' = true) ->
  Inv (mkSys (<[rid := (meta', d')]> (y_rows y)) m' (<[id := t']> (y_txns y)) (y_commit y) (y_gc y) (y_stuck y))
    (put_txn id (drop_write rid x) a).
Proof using HI Ht Hact Hx Hslot.
  intros Hp Hheld Hcm Hm Htx Hws Hver Hne Hmv Hb Hback.
  destruct (own_slot p Hp Hheld) as (_ & Ha & Hnone & Hlog & Hrest).
  pose proof (ck_gc _ _ _ _ (inv_clocks _ _ HI)) as Hgc. pose proof (ck_max _ _ _ _ (inv_clocks _ _ HI)) as Hmax.
  eapply (inv_row_step y a a id t t' x); try done; try by eapply known_row.
  - intros r Hr. by rewrite Hws, lookup_delete_ne.
  - intros r Hr. simpl. by rewrite lookup_delete_ne.
  - simpl. by rewrite Hws, !lookup_delete_eq.
  - by apply commit_ok_other.
  - apply owned_dropped; [|done]. by rewrite Hws, lookup_delete_eq.
  - destruct p.
    + destruct Hback as (head & Hch & Hts & Hdel & ->). destruct Hrest as [_ Hrep].
      rewrite Hch in Hlog, Hrep. apply Forall_cons_1 in Hlog as [[Hl _] Hlog].
      split; [done|]. simpl. split_and!; try done; [lia|lia|].
      unfold slot_version, slot_value. simpl. rewrite Hts, Hdel. exact Hrep.
    + destruct Hback as (Hch & Hts & Hdel). destruct Hrest as [_ Hh]. rewrite Hch, Hh.
      split; [done|]. simpl. split_and!; try done; [lia|lia|].
      unfold slot_version, slot_value. simpl. rewrite Hts, Hdel. split; [|done].
      intros r Hr. simpl. by rewrite (proj2 (Z.leb_le _ _)) by lia.
  - exact (own_newest p Hp Hheld).
Qed.

End slot_steps.

(** A new row, stamped with the transaction's id. *)
Lemma inv_insert y a id t t' x rid meta d :
  Inv y a -> y_txns y !! id = Some t -> is_active t = true -> s_active a !! id = Some x ->
  y_rows y !! rid = None -> (forall dn, y_commit y <> Some (id, dn)) ->
  same_txn t t' -> write_set t' = <[rid := false]> (write_set t) ->
  meta_valid meta -> ts meta = id -> is_deleted meta = false -> Forall is_byte d ->
  Inv (mkSys (<[rid := (meta, d)]> (y_rows y)) (y_mgr y) (<[id := t']> (y_txns y)) (y_commit y) (y_gc y) (y_stuck y))
    (put_txn id (put_write rid (Some d) x) (know rid a)) /\ history a rid = [] /\
  (forall id', claim_of (y_txns y) (y_commit y) a rid id' = None).
Proof.
  intros HI Ht Hact Hx Hnone Hcm Htx Hws Hmv Hts Hdel Hb.
  destruct (inv_rows _ _ HI rid) as (oc & Hown & Hlog & Hrow). rewrite Hnone in Hrow.
  destruct Hrow as (Hch & Hh & ->).
  assert (Ha' : is_active t' = true) by by rewrite (same_txn_active _ _ Htx).
  split; [|done]. eapply (inv_row_step y a (know rid a) id t t' x); try done.
  - apply history_know.
  - intros r. simpl. rewrite (inv_known _ _ HI). destruct (decide (r = rid)) as [->|].
    + rewrite lookup_insert_eq. naive_solver.
    + rewrite lookup_insert_ne by done. naive_solver.
  - apply HI.
  - intros r Hr. by rewrite Hws, lookup_insert_ne.
  - intros r Hr. simpl. by rewrite lookup_insert_ne.
  - simpl. by rewrite Hws, !lookup_insert_eq.
  - by apply commit_ok_other.
  - eapply owned_mine; [done|by rewrite Hws, lookup_insert_eq|apply lookup_insert_eq|]. intros id' _. apply Hown.
  - rewrite stamp_of_idle by done. split; [done|]. simpl. split_and!; try done.
    unfold slot_value. simpl. by rewrite Hdel.
  - rewrite Hh. pose proof (ck_gc _ _ _ _ (inv_clocks _ _ HI)). cbn. lia.
Qed.

(** ** Steps that touch no row *)

(** A transaction is tainted or marks its first write in the log. *)
Lemma inv_txn_step y a id t t' x m' :
  Inv y a -> y_txns y !! id = Some t -> is_active t = true -> s_active a !! id = Some x ->
  same_clocks (y_mgr y) m' -> versions m' = versions (y_mgr y) ->
  txn_id t' = txn_id t -> read_ts t' = read_ts t -> write_set t' = write_set t -> is_active t' = true ->
  (state t = Tainted -> state t' = Tainted) ->
  commit_ok (<[id := t']> (y_txns y)) (s_now a) (y_commit y) ->
  Inv (mkSys (y_rows y) m' (<[id := t']> (y_txns y)) (y_commit y) (y_gc y) (y_stuck y))
    (put_txn id (mkSnapTxn (a_read x) (a_writes x) (bool_decide (state t' = Running))) a).
Proof.
  intros HI Ht Hact Hx Hm Hver Hid' Hread' Hws Ha' Htnt Hcm.
  destruct (inv_active _ _ _ _ HI Ht Hact) as (Hid & Hrange & Hread & x0 & Hx0 & Hr & Hok & Hdom & Hlost).
  assert (x0 = x) as -> by congruence. destruct Hm as (E1 & E2 & E3).
  destruct (inv_clocks _ _ HI). split; simpl.
  - split; simpl; rewrite ?E1, ?E2, ?E3; try done.
    intros r. rewrite (active_at_update _ id t); [done|done|congruence|done].
  - intros i. destruct (decide (i = id)) as [->|Hi].
    + rewrite !lookup_insert_eq. unfold txn_ok. simpl. rewrite Ha', Hread', lookup_insert_eq, E1.
      split_and!; try lia; try congruence. eexists. split; [done|]. simpl. rewrite Hws. split_and!; try done.
      intros r Hw1 Hw2. destruct (Hlost r Hw1 Hw2) as (? & ? & ?). unfold lost. rewrite Hread'. split_and!; auto.
    + rewrite !lookup_insert_ne by done. pose proof (inv_txns _ _ HI i) as H.
      destruct (y_txns y !! i); [|done]. unfold txn_ok in *. simpl. rewrite E1. by rewrite !lookup_insert_ne.
  - intros r. destruct (inv_rows _ _ HI r) as (oc & Hown & Hrow). exists oc. split.
    + eapply owned_ext; [|exact Hown]. intros i. unfold claim_of. simpl.
      destruct (decide (i = id)) as [->|]; [|by rewrite !lookup_insert_ne].
      rewrite !lookup_insert_eq, Ha', Ht, Hact, Hws, Hx. done.
    + unfold version_chain. by rewrite Hver.
  - apply HI.
  - rewrite Hver. apply HI.
  - done.
  - intros r Hlt. destruct (inv_future _ _ HI r Hlt) as (i & Hi & u & z & Hu & Hua & Huw & Hz & Hzw).
    exists i. split; [done|]. simpl. destruct (decide (i = id)) as [->|Hne].
    + assert (u = t) as -> by congruence. assert (z = x) as -> by congruence.
      rewrite !lookup_insert_eq. eexists t', _. split_and!; try done. by rewrite Hws.
    + exists u, z. by rewrite !lookup_insert_ne.
Qed.

(** A commit in progress with no slot stamped is none. *)
Lemma inv_commit_empty y a id :
  Inv y a -> y_commit y = Some (id, ∅) ->
  Inv (mkSys (y_rows y) (y_mgr y) (y_txns y) None (y_gc y) (y_stuck y)) a.
Proof.
  intros [Hc Ht Hr Hk Hch _ Hfu] Hcm. split; simpl; try done. intros rid.
  destruct (Hr rid) as (oc & Hown & Hrow). exists oc. split; [|done].
  eapply owned_ext; [|exact Hown]. intros i. unfold claim_of. rewrite Hcm. simpl.
  rewrite bool_decide_false; [done|]. set_solver.
Qed.

(** Commits begin with no slot stamped. *)
Lemma inv_commit_begin y a id t :
  Inv y a -> y_commit y = None -> y_txns y !! id = Some t -> state t = Running ->
  s_now a + 1 < TXN_START_ID ->
  Inv (mkSys (y_rows y) (y_mgr y) (y_txns y) (Some (id, ∅)) (y_gc y) (y_stuck y)) a.
Proof.
  intros [Hc Ht Hr Hk Hch _ Hfu] Hcm Htx Hrun Hmax. split; simpl; try done.
  2:{ split; [done|]. exists t. set_solver. }
  intros rid. destruct (Hr rid) as (oc & Hown & Hrow). exists oc. split; [|done].
  eapply owned_ext; [|exact Hown]. intros i. unfold claim_of. rewrite Hcm. simpl.
  rewrite bool_decide_false; [done|]. set_solver.
Qed.

(** ** Beginning and ending transactions *)

Lemma active_at_new txns id t r :
  txns !! id = None -> is_active t = true ->
  base.size (active_at (<[id := t]> txns) r) =
    (base.size (active_at txns r) + if bool_decide (r = read_ts t) then 1 else 0)%nat.
Proof.
  intros Hn Ha. unfold active_at. rewrite map_filter_insert. simpl.
  assert (Hnf : filter (fun p : TxnId * Transaction => is_active p.2 = true /\ read_ts p.2 = r) txns !! id = None).
  { apply map_lookup_filter_None. by left. }
  case_decide as HP; case_bool_decide as Hr; try (destruct HP; congruence).
  - rewrite map_size_insert_None by done. lia.
  - by destruct HP.
  - rewrite map_filter_delete, delete_id by done. lia.
Qed.

Lemma active_at_finish txns id t t' r :
  txns !! id = Some t -> is_active t = true -> is_active t' = false ->
  base.size (active_at txns r) =
    (base.size (active_at (<[id := t']> txns) r) + if bool_decide (r = read_ts t) then 1 else 0)%nat.
Proof.
  intros Ht Ha Ha'. rewrite <- (insert_delete_id txns id t Ht) at 1.
  rewrite active_at_new by (done || apply lookup_delete_eq). f_equal. unfold active_at.
  rewrite map_filter_insert. simpl. rewrite decide_False by (rewrite Ha'; naive_solver). done.
Qed.

(** The running table after one transaction left. *)
Lemma unregister_running m t r :
  (0 < default 0%nat (running m !! read_ts t))%nat -> (forall r, running m !! r <> Some 0%nat) ->
  (default 0%nat (running (unregister t m) !! r) +
     (if bool_decide (r = read_ts t) then 1 else 0))%nat = default 0%nat (running m !! r) /\
  running (unregister t m) !! r <> Some 0%nat.
Proof.
  intros Hpos Hnz. unfold unregister. destruct (running m !! read_ts t) as [n|] eqn:Hn; simpl in Hpos; [|lia].
  simpl. case_bool_decide as Hr.
  - subst r. rewrite Hn. simpl. case_decide.
    + rewrite lookup_delete_eq. simpl. split; [lia|done].
    + rewrite lookup_insert_eq. simpl. split; [lia|]. intros [= ?]. lia.
  - case_decide.
    + rewrite lookup_delete_ne by done. split; [lia|apply Hnz].
    + rewrite lookup_insert_ne by done. split; [lia|apply Hnz].
Qed.

Lemma unregister_fields t m :
  next_txn_id (unregister t m) = next_txn_id m /\ last_commit_ts (unregister t m) = last_commit_ts m /\
  versions (unregister t m) = versions m.
Proof. unfold unregister. by destruct (running m !! read_ts t). Qed.

(** The clocks after the end of a transaction, which may have moved time on. *)
Lemma clocks_finish m m0 txns a a' gc id t t' :
  Clocks m txns a gc -> txns !! id = Some t -> is_active t = true -> is_active t' = false ->
  next_txn_id m0 = next_txn_id m -> running m0 = running m -> last_commit_ts m0 = s_now a' ->
  s_now a <= s_now a' -> s_now a' < TXN_START_ID ->
  Clocks (unregister t m0) (<[id := t']> txns) a' gc.
Proof.
  intros [Hnow Hgc Hmax Hnext Hrun Hpos] Ht Ha Ha' E1 E2 E3 Hle Hlt.
  assert (Hp : (0 < default 0 (running m0 !! read_ts t))%nat).
  { rewrite E2, Hrun, (active_at_finish _ id t t') by done. rewrite bool_decide_true by done. lia. }
  assert (Hnz : forall r, running m0 !! r <> Some 0%nat) by (rewrite E2; done).
  destruct (unregister_fields t m0) as (F1 & F2 & _).
  split; rewrite ?F1, ?F2, ?E1; try done; try lia.
  - intros r. destruct (unregister_running m0 t r Hp Hnz) as [H _]. rewrite E2, Hrun in H.
    rewrite (active_at_finish _ id t t') in H by done. lia.
  - intros r. by destruct (unregister_running m0 t r Hp Hnz).
Qed.

Lemma row_ok_later now now' gc slot chain h oc :
  now <= now' -> row_ok now gc slot chain h oc -> row_ok now' gc slot chain h oc.
Proof.
  intros Hle [Hlog Hrow]. split.
  - eapply list.Forall_impl; [exact Hlog|]. unfold log_ok. intros l [? ?]. split; [lia|done].
  - destruct slot as [x|]; [|done]. destruct Hrow as (? & ? & Hrow). split_and!; try done.
    destruct oc; [done|]. destruct Hrow as (? & ? & ?). split_and!; [lia|done..].
Qed.

(** [begin] *)
Lemma inv_begin y a level :
  Inv y a -> next_txn_id (y_mgr y) < u64_max ->
  let '(t, m') := begin level (y_mgr y) in
  s_active a !! txn_id t = None /\
  Inv (mkSys (y_rows y) m' (<[txn_id t := t]> (y_txns y)) (y_commit y) (y_gc y) (y_stuck y))
    (put_txn (txn_id t) (mkSnapTxn (s_now a) ∅ true) a).
Proof.
  intros HI Hlt. unfold begin. set (id := next_txn_id (y_mgr y)) in *.
  set (t := Transaction.new id (last_commit_ts (y_mgr y)) level). cbn [txn_id].
  change (txn_id t) with id. destruct (inv_clocks _ _ HI) as [Hnow Hgc Hmax Hnext Hrun Hpos].
  assert (Hn : y_txns y !! id = None).
  { destruct (y_txns y !! id) as [t0|] eqn:E; [|done]. pose proof (inv_txns _ _ HI id) as H.
    rewrite E in H. destruct H as (_ & H & _). unfold id in H. lia. }
  pose proof (inv_txns _ _ HI id) as Hna. rewrite Hn in Hna.
  assert (Hmod : (id + 1) mod 2 ^ 64 = id + 1).
  { apply Z.mod_small. unfold u64_max, TXN_START_ID in *. fold id in Hnext. lia. }
  rewrite Hmod. split; [done|]. split; simpl.
  - split; simpl; try done; [fold id in Hnext; lia| |].
    + intros r. rewrite active_at_new by done. change (read_ts t) with (last_commit_ts (y_mgr y)).
      case_bool_decide as Hr.
      * subst r. rewrite lookup_insert_eq, <- Hrun. simpl. lia.
      * rewrite lookup_insert_ne, <- Hrun by done. lia.
    + intros r. destruct (decide (r = last_commit_ts (y_mgr y))) as [->|]; [by rewrite lookup_insert_eq|].
      rewrite lookup_insert_ne by done. apply Hpos.
  - intros i. destruct (decide (i = id)) as [->|Hi].
    + rewrite !lookup_insert_eq. unfold txn_ok. simpl. rewrite lookup_insert_eq. fold id in Hnext.
      split_and!; try lia; try done. eexists. split; [done|]. simpl. split_and!; done.
    + rewrite !lookup_insert_ne by done. pose proof (inv_txns _ _ HI i) as H.
      destruct (y_txns y !! i); [|done]. unfold txn_ok in *. simpl. rewrite lookup_insert_ne by done.
      destruct H as (? & ? & ? & ?). fold id in H0. split_and!; try done; lia.
  - intros rid. destruct (inv_rows _ _ HI rid) as (oc & Hown & Hrow). exists oc. split; [|done].
    eapply owned_ext; [|exact Hown]. intros i. unfold claim_of. simpl.
    destruct (decide (i = id)) as [->|]; [|by rewrite !lookup_insert_ne].
    rewrite !lookup_insert_eq, Hn. done.
  - apply HI.
  - apply HI.
  - pose proof (inv_commit _ _ HI) as Hc. unfold commit_ok in *. destruct (y_commit y) as [[cid dn]|]; [|done].
    destruct Hc as (? & tc & Htc & ? & ?). split; [done|]. exists tc.
    rewrite lookup_insert_ne; [done|]. intros <-. congruence.
  - intros r Hlt'. destruct (inv_future _ _ HI r Hlt') as (i & Hi & u & z & Hu & Hrest).
    exists i. split; [done|]. exists u, z. simpl. rewrite !lookup_insert_ne by congruence. done.
Qed.

(** The transactions other than one that ended. *)
Lemma txns_finish y a a' id t t' m' :
  Inv y a -> y_txns y !! id = Some t -> is_active t = true -> is_active t' = false ->
  txn_id t' = id -> read_ts t' = read_ts t ->
  next_txn_id m' = next_txn_id (y_mgr y) -> s_now a <= s_now a' ->
  s_active a' = base.delete id (s_active a) -> (forall rid, newest (history a rid) <= newest (history a' rid)) ->
  forall i, match <[id := t']> (y_txns y) !! i with
            | Some t => txn_ok m' a' (y_gc y) (y_stuck y) i t
            | None => s_active a' !! i = None
            end.
Proof.
  intros HI Ht Ha Ha' Hid Hr Hn Hle Hact Hnew i.
  destruct (decide (i = id)) as [->|Hi].
  - rewrite lookup_insert_eq. pose proof (inv_txns _ _ HI id) as H. rewrite Ht in H.
    destruct H as (_ & ? & ? & _). unfold txn_ok. rewrite Ha', Hact, lookup_delete_eq, Hn, Hr.
    split_and!; try done; lia.
  - rewrite lookup_insert_ne by done. pose proof (inv_txns _ _ HI i) as H. rewrite Hact.
    destruct (y_txns y !! i) as [u|]; [|by rewrite lookup_delete_ne]. unfold txn_ok in *.
    rewrite Hact, lookup_delete_ne, Hn by done. destruct H as (? & ? & ? & H). split_and!; try done; try lia.
    destruct (is_active u); [|done]. destruct H as (? & z & ? & ? & ? & ? & Hl). split; [done|]. exists z.
    split_and!; try done. intros rid Hw1 Hw2. destruct (Hl rid Hw1 Hw2) as (? & ? & ?).
    split_and!; [done|done|]. specialize (Hnew rid). lia.
Qed.

(** The end of a transaction with nothing left to do: a read-only commit, or an abort that has
    rolled every write back. *)
Lemma inv_end y a id t t' m0 :
  Inv y a -> y_txns y !! id = Some t -> is_active t = true -> is_active t' = false ->
  txn_id t' = id -> read_ts t' = read_ts t -> write_set t = ∅ ->
  (forall dn, y_commit y <> Some (id, dn)) -> same_clocks (y_mgr y) m0 -> versions m0 = versions (y_mgr y) ->
  Inv (mkSys (y_rows y) (unregister t m0) (<[id := t']> (y_txns y)) (y_commit y) (y_gc y) (y_stuck y)) (drop_txn id a).
Proof.
  intros HI Ht Ha Ha' Hid Hr Hw Hcm (E1 & E2 & E3) Ev.
  destruct (unregister_fields t m0) as (F1 & F2 & F3). pose proof (inv_clocks _ _ HI) as HC.
  pose proof HC as [Hnow Hgc Hmax _ _ _]. split; simpl.
  - eapply clocks_finish; [exact HC|done..| | |]; simpl; try congruence; lia.
  - eapply txns_finish; try done; simpl; congruence || lia.
  - intros rid. destruct (inv_rows _ _ HI rid) as (oc & Hown & Hrow). exists oc. split.
    + eapply owned_ext; [|exact Hown]. intros i. unfold claim_of. simpl.
      destruct (decide (i = id)) as [->|]; [|by rewrite lookup_insert_ne, lookup_delete_ne].
      rewrite lookup_insert_eq, lookup_delete_eq, Ht, Ha, Hw, lookup_empty. by destruct (s_active a !! id).
    + unfold version_chain. by rewrite F3, Ev.
  - apply HI.
  - rewrite F3, Ev. apply HI.
  - by apply commit_ok_other.
  - intros r Hlt. destruct (inv_future _ _ HI r Hlt) as (i & Hi & u & z & Hu & Hua & Huw & Hrest).
    assert (i <> id). { intros ->. assert (u = t) as -> by congruence. by rewrite Hw in Huw. }
    exists i. split; [done|]. exists u, z. simpl. rewrite lookup_insert_ne, lookup_delete_ne by done. done.
Qed.

(** ** Publishing a commit *)

Lemma rep_push gc chain h stamp v :
  (forall r, gc <= r -> view r chain = view r h) -> rep gc ((stamp, v) :: chain) ((stamp, v) :: h).
Proof. intros H. split; [|done]. intros r Hr. simpl. destruct (stamp <=? r); auto. Qed.

(** The transaction of a commit in progress. *)
Lemma committing_txn y a id dn :
  Inv y a -> y_commit y = Some (id, dn) ->
  s_now a + 1 < TXN_START_ID /\ exists t x, y_txns y !! id = Some t /\ state t = Running /\ is_active t = true /\
    dn ⊆ dom (write_set t) /\ s_active a !! id = Some x.
Proof.
  intros HI Hcm. pose proof (inv_commit _ _ HI) as Hok. unfold commit_ok in Hok. rewrite Hcm in Hok.
  destruct Hok as (Hmax & t & Ht & Hrun & Hdn).
  assert (Ha : is_active t = true) by (unfold is_active; apply bool_decide_true; auto).
  destruct (inv_active _ _ _ _ HI Ht Ha) as (_ & _ & _ & x & Hx & _). split; [done|]. by exists t, x.
Qed.

(** The row that a commit in progress has stamped, as a version of the commit to come. *)
Lemma stamped_row y a id t x dn rid :
  Inv y a -> y_commit y = Some (id, dn) -> y_txns y !! id = Some t -> s_active a !! id = Some x -> rid ∈ dn ->
  (forall id', id' <> id -> claim_of (y_txns y) (y_commit y) a rid id' = None) /\
  exists v, a_writes x !! rid = Some v /\
    row_ok (s_now a) (y_gc y) (y_rows y !! rid) (version_chain (y_mgr y) rid)
      ((s_now a + 1, v) :: history a rid) None.
Proof.
  intros HI Hcm Ht Hx Hin.
  destruct (committing_txn _ _ _ _ HI Hcm) as (Hmax & t0 & x0 & Ht0 & Hrun & Ha & Hdn & Hx0).
  assert (t0 = t) as -> by congruence. assert (x0 = x) as -> by congruence.
  destruct (write_set t !! rid) as [p|] eqn:Hp.
  2:{ apply Hdn, elem_of_dom in Hin as [? ?]. congruence. }
  assert (Hheld : a_writes x !! rid <> None) by (rewrite <- (running_writes y a id t x rid HI Ht Hrun Hx); congruence).
  destruct (y_rows y !! rid) as [[meta d]|] eqn:Hslot.
  2:{ pose proof (written_known y a id t rid p HI Ht Ha Hp) as Hk. rewrite <- (inv_known _ _ HI), Hslot in Hk. by destruct Hk. }
  destruct (own_slot y a id t x rid meta d HI Ht Ha Hx Hslot p Hp Hheld) as (Hst & Hv & Hnone & Hlog & Hrest).
  destruct (slot_valid y a rid meta d HI Hslot) as [Hmeta Hd].
  split; [done|]. eexists. split; [exact Hv|].
  assert (Hts : ts meta = s_now a + 1).
  { rewrite Hst. unfold stamp_of. by rewrite Hcm, bool_decide_true. }
  split; [done|]. cbn [fst snd]. split_and!; try done; [lia|lia|].
  unfold slot_version. cbn [fst]. rewrite Hts. apply rep_push. intros r Hr. destruct p.
  - destruct Hrest as [_ [Hrep _]]. by apply Hrep.
  - destruct Hrest as [-> ->]. done.
Qed.

(** Its row is known. *)
Lemma pushed_known y a id t x rid w rids :
  Inv y a -> y_txns y !! id = Some t -> is_active t = true -> s_active a !! id = Some x ->
  (forall r v, w !! r = Some v -> a_writes x !! r = Some v) ->
  is_Some (y_rows y !! rid) <-> is_Some (push_all rids w (s_hist a) !! rid).
Proof.
  intros HI Ht Ha Hx Hsub. rewrite (inv_known _ _ HI). unfold push_all. rewrite lookup_merge.
  destruct (w !! rid) as [v|] eqn:Ew; simpl; [|by destruct (s_hist a !! rid)].
  split; [by destruct (s_hist a !! rid)|]. intros _.
  destruct (inv_active _ _ _ _ HI Ht Ha) as (_ & _ & _ & x0 & Hx0 & _ & _ & Hdom & _).
  assert (x0 = x) as -> by congruence.
  destruct (write_set t !! rid) as [p|] eqn:Hp; [by eapply written_known|].
  specialize (Hsub rid v Ew). rewrite (Hdom rid Hp) in Hsub. done.
Qed.

(** The commit that has stamped every slot is published. *)
Lemma inv_publish y a id t x t' m0 :
  Inv y a -> y_commit y = Some (id, dom (write_set t)) -> y_txns y !! id = Some t ->
  s_active a !! id = Some x -> is_active t' = false -> txn_id t' = id -> read_ts t' = read_ts t ->
  next_txn_id m0 = next_txn_id (y_mgr y) -> running m0 = running (y_mgr y) ->
  last_commit_ts m0 = s_now a + 1 -> versions m0 = versions (y_mgr y) ->
  Inv (mkSys (y_rows y) (unregister t m0) (<[id := t']> (y_txns y)) None (y_gc y) (y_stuck y))
    (mkSnap (s_now a + 1) (push_all (s_now a + 1) (a_writes x) (s_hist a)) (base.delete id (s_active a))).
Proof.
  intros HI Hcm Ht Hx Ha' Hid Hr E1 E2 E3 Ev.
  destruct (committing_txn _ _ _ _ HI Hcm) as (Hmax & t0 & x0 & Ht0 & Hrun & Ha & _ & Hx0).
  assert (t0 = t) as -> by congruence. assert (x0 = x) as -> by congruence.
  pose proof (fun rid => running_writes y a id t x rid HI Ht Hrun Hx) as Hdom.
  destruct (unregister_fields t m0) as (F1 & F2 & F3).
  assert (Hnewest : forall rid, newest (history a rid) <=
    newest (history (mkSnap (s_now a + 1) (push_all (s_now a + 1) (a_writes x) (s_hist a)) (base.delete id (s_active a))) rid)).
  { intros rid. unfold history at 2. simpl. rewrite history_push_all. destruct (a_writes x !! rid); [|done].
    apply (newest_le _ _ _ HI). }
  split; simpl.
  - eapply clocks_finish; [apply HI|done..| | |]; simpl; try congruence; lia.
  - eapply txns_finish; try done; simpl; congruence || lia.
  - intros rid. unfold history at 1. simpl. rewrite history_push_all.
    assert (Hvc : version_chain (unregister t m0) rid = version_chain (y_mgr y) rid).
    { unfold version_chain. by rewrite F3, Ev. }
    rewrite Hvc. destruct (inv_rows _ _ HI rid) as (oc & Hown & Hrow).
    destruct (write_set t !! rid) as [p|] eqn:Hp.
    + destruct (stamped_row y a id t x _ rid HI Hcm Ht Hx) as (Hnone & v & Hv & Hrow'); [apply elem_of_dom; eauto|].
      rewrite Hv. exists None. split; [|eapply row_ok_later; [|exact Hrow']; lia].
      apply (owned_nobody _ id).
      * apply claim_None. intros u z. rewrite lookup_insert_eq. intros [= <-]. congruence.
      * intros i Hi. specialize (Hnone i Hi). rewrite claim_None in Hnone |- *.
        intros u z. simpl. rewrite lookup_insert_ne, lookup_delete_ne by done. apply Hnone.
    + rewrite (proj1 (Hdom rid) Hp). exists oc. split; [|eapply row_ok_later; [|exact Hrow]; lia].
      eapply owned_ext; [|exact Hown]. intros i. unfold claim_of. simpl.
      destruct (decide (i = id)) as [->|Hi].
      * by rewrite lookup_insert_eq, lookup_delete_eq, Ht, Hx, Ha, Hp.
      * rewrite lookup_insert_ne, lookup_delete_ne, Hcm by done. unfold stamp_of.
        rewrite bool_decide_false by (intros [-> _]; done). done.
  - intros rid. by apply (pushed_known y a id t x).
  - rewrite F3, Ev. apply HI.
  - done.
  - intros rid. unfold history. simpl. rewrite history_push_all. pose proof (newest_le _ _ rid HI) as Hle.
    destruct (a_writes x !! rid); [cbn; lia|]. lia.
Qed.

(** The commit that could not take back the slots [dn]: they stay stamped. *)
Section stuck.
Context (y : sys) (a : snap) (id : TxnId) (t : Transaction) (x : snap_txn) (dn : gset RecordId).
Context (HI : Inv y a) (Hcm : y_commit y = Some (id, dn)).
Context (Ht : y_txns y !! id = Some t) (Hx : s_active a !! id = Some x).

Lemma left_history rid : history (snap_left id x dn a) rid =
  if decide (rid ∈ dn) then (s_now a + 1, default None (a_writes x !! rid)) :: history a rid else history a rid.
Proof using HI Hcm Ht Hx.
  rewrite history_left, writes_in_lookup. case_decide as Hin; [|done].
  destruct (stamped_row y a id t x dn rid HI Hcm Ht Hx Hin) as (_ & v & -> & _). done.
Qed.

Lemma left_newest rid : newest (history a rid) <= newest (history (snap_left id x dn a) rid).
Proof using HI Hcm Ht Hx. rewrite left_history. case_decide; [apply (newest_le _ _ _ HI)|lia]. Qed.

(** The transaction of the commit. *)
Lemma stuck_txn : state t = Running /\ is_active t = true /\ dn ⊆ dom (write_set t) /\
  Transaction.set_tainted t = Transaction.with_state Tainted t /\
  forall rid, write_set t !! rid = None <-> a_writes x !! rid = None.
Proof using HI Hcm Ht Hx.
  destruct (committing_txn _ _ _ _ HI Hcm) as (_ & t0 & x0 & Ht0 & Hrun & Ha & Hdn & Hx0).
  assert (t0 = t) as -> by congruence. assert (x0 = x) as -> by congruence. split_and!; try done.
  - unfold Transaction.set_tainted. by rewrite decide_True.
  - intros rid. by apply (running_writes y a id).
Qed.

Lemma stuck_txns i :
  match <[id := Transaction.set_tainted t]> (y_txns y) !! i with
  | Some u => txn_ok (y_mgr y) (snap_left id x dn a) (y_gc y) ({[id]} ∪ y_stuck y) i u
  | None => s_active (snap_left id x dn a) !! i = None
  end.
Proof using HI Hcm Ht Hx.
  destruct stuck_txn as (_ & Ha & _ & -> & Hdom).
  destruct (inv_active _ _ _ _ HI Ht Ha) as (Hid & Hrange & Hread & x0 & Hx1 & Hr & _ & _ & _).
  assert (x0 = x) as -> by congruence. simpl. destruct (decide (i = id)) as [->|Hi].
  - rewrite !lookup_insert_eq. pose proof (inv_txns _ _ HI id) as H. rewrite Ht in H. destruct H as (_ & _ & ? & _).
    unfold txn_ok. simpl. rewrite lookup_insert_eq. split_and!; try done; try lia.
    eexists. split; [done|]. simpl. split_and!; try done.
    + intros rid Hw. rewrite writes_out_lookup. case_decide; [done|]. by apply Hdom.
    + intros rid Hw1. rewrite writes_out_lookup. intros Hw2. unfold lost. simpl. rewrite left_history.
      case_decide; [|by apply Hdom in Hw2]. split_and!; [set_solver|done|]. cbn. lia.
  - rewrite !lookup_insert_ne by done. pose proof (inv_txns _ _ HI i) as H.
    destruct (y_txns y !! i) as [u|]; [|done]. unfold txn_ok in *. simpl. rewrite lookup_insert_ne by done.
    destruct H as (? & ? & ? & H). split_and!; try done; try lia. destruct (is_active u); [|done].
    destruct H as (? & z & ? & ? & ? & ? & Hl). split; [done|]. exists z. split_and!; try done.
    intros rid Hw1 Hw2. destruct (Hl rid Hw1 Hw2) as (? & ? & ?). split_and!; [set_solver|done|].
    pose proof (left_newest rid). lia.
Qed.

Lemma stuck_rows rid : exists oc,
  owned (claim_of (<[id := Transaction.set_tainted t]> (y_txns y)) None (snap_left id x dn a) rid) oc /\
  row_ok (s_now a) (y_gc y) (y_rows y !! rid) (version_chain (y_mgr y) rid) (history (snap_left id x dn a) rid) oc.
Proof using HI Hcm Ht Hx.
  destruct stuck_txn as (_ & Ha & _ & -> & _). rewrite left_history. destruct (decide (rid ∈ dn)) as [Hin|Hni].
  - destruct (stamped_row y a id t x dn rid HI Hcm Ht Hx Hin) as (Hnone & v & Hv & Hrow). rewrite Hv.
    exists None. split; [|done]. apply (owned_nobody _ id).
    + apply claim_None. intros u z. simpl. rewrite !lookup_insert_eq. intros _ [= <-] _. right.
      simpl. rewrite writes_out_lookup. by rewrite decide_True.
    + intros i Hi. specialize (Hnone i Hi). rewrite claim_None in Hnone |- *.
      intros u z. simpl. rewrite !lookup_insert_ne by done. apply Hnone.
  - destruct (inv_rows _ _ HI rid) as (oc & Hown & Hrow). exists oc. split; [|done].
    eapply owned_ext; [|exact Hown]. intros i. unfold claim_of. simpl. rewrite Hcm.
    destruct (decide (i = id)) as [->|Hi].
    + rewrite !lookup_insert_eq, Ht, Hx, Ha. simpl. rewrite writes_out_lookup, decide_False by done.
      by rewrite bool_decide_false by naive_solver.
    + rewrite !lookup_insert_ne by done. unfold stamp_of. by rewrite bool_decide_false by (intros [-> _]; done).
Qed.

Lemma stuck_future rid : s_now a < newest (history (snap_left id x dn a) rid) ->
  exists i, left_by (<[id := Transaction.set_tainted t]> (y_txns y)) (snap_left id x dn a) ({[id]} ∪ y_stuck y) rid i.
Proof using HI Hcm Ht Hx.
  destruct stuck_txn as (_ & Ha & Hdn & -> & Hdom). rewrite left_history. case_decide as Hin; intros Hlt.
  - exists id. split; [set_solver|]. eexists (Transaction.with_state Tainted t), _. simpl.
    rewrite !lookup_insert_eq. split_and!; try done.
    + intros E. apply Hdn, elem_of_dom in Hin as [? ?]. congruence.
    + simpl. by rewrite writes_out_lookup, decide_True.
  - destruct (inv_future _ _ HI rid Hlt) as (i & Hi & u & z & Hu & Hua & Huw & Hz & Hzw).
    assert (i <> id).
    { intros ->. assert (u = t) as -> by congruence. assert (z = x) as -> by congruence. by apply Huw, Hdom. }
    exists i. split; [set_solver|]. exists u, z. simpl. by rewrite !lookup_insert_ne.
Qed.

Lemma inv_stuck :
  Inv (mkSys (y_rows y) (y_mgr y) (<[id := Transaction.set_tainted t]> (y_txns y)) None (y_gc y) ({[id]} ∪ y_stuck y))
    (snap_left id x dn a).
Proof using HI Hcm Ht Hx.
  destruct stuck_txn as (_ & Ha & _ & Et & _). destruct (inv_clocks _ _ HI) as []. split; simpl.
  - split; try done. intros r. rewrite (active_at_update _ id t); [done|done| |by rewrite Et]. by rewrite Ha, Et.
  - apply stuck_txns.
  - apply stuck_rows.
  - intros rid. apply (pushed_known y a id t x); try done. intros r v. rewrite writes_in_lookup. by case_decide.
  - apply HI.
  - done.
  - apply stuck_future.
Qed.

End stuck.

(** ** Garbage collection *)

Lemma truncate_view w chain r : w <= r ->
  view r (log_version <$> (truncate_chain w chain).1) = view r (log_version <$> chain).
Proof.
  intros Hr. induction chain as [|l chain IH]; [done|]. cbn [truncate_chain].
  destruct (Z.leb_spec (u_ts l) w) as [Hle|Hlt].
  - csimpl. by rewrite !(proj2 (Z.leb_le _ _)) by lia.
  - destruct (truncate_chain w chain) as [kept n]. csimpl in *. by rewrite IH.
Qed.

Lemma truncate_head w chain :
  newest (log_version <$> (truncate_chain w chain).1) = newest (log_version <$> chain).
Proof.
  destruct chain as [|l chain]; [done|]. simpl. destruct (u_ts l <=? w); [done|].
  by destruct (truncate_chain w chain).
Qed.

Lemma truncate_nonempty w chain : chain <> [] -> (truncate_chain w chain).1 <> [].
Proof.
  destruct chain as [|l chain]; [done|]. simpl. destruct (u_ts l <=? w); [done|].
  by destruct (truncate_chain w chain).
Qed.

(** Nothing after the first entry at or below the watermark is left. *)
Lemma truncate_tidy w chain l k : (truncate_chain w chain).1 = k ++ [l] -> Forall (fun l => w < u_ts l) k.
Proof.
  revert k. induction chain as [|x chain IH]; intros k; cbn [truncate_chain]; [by destruct k|].
  destruct (u_ts x <=? w) eqn:E.
  - cbn. intros E'. destruct k as [|y k]; [done|]. injection E' as -> E'. by destruct k.
  - destruct (truncate_chain w chain) as [kept n] eqn:Et. cbn. intros E'. destruct k as [|y k]; [done|].
    injection E' as -> E'. constructor; [lia|]. by apply IH.
Qed.

Lemma truncate_Forall (P : UndoLog -> Prop) w chain : Forall P chain -> Forall P (truncate_chain w chain).1.
Proof.
  induction 1 as [|l chain Hl _ IH]; [by constructor|]. simpl. destruct (u_ts l <=? w); [by repeat constructor|].
  destruct (truncate_chain w chain). by constructor.
Qed.

Lemma smallest_spec (l : list Z) :
  match foldr (fun k acc => Some (from_option (Z.min k) k acc)) None l with
  | Some w => w ∈ l /\ forall k, k ∈ l -> w <= k
  | None => l = []
  end.
Proof.
  induction l as [|k l IH]; [done|]. simpl.
  destruct (foldr _ None l) as [w|]; simpl; [|subst; set_solver].
  destruct IH as [Hin Hle]. destruct (Z.min_spec k w) as [[? ->]|[? ->]]; (split; [set_solver|]);
    intros k' [->|Hk]%list.elem_of_cons; try lia; specialize (Hle k' Hk); lia.
Qed.

Lemma running_active y a r n :
  Inv y a -> running (y_mgr y) !! r = Some n ->
  exists id t, y_txns y !! id = Some t /\ is_active t = true /\ read_ts t = r.
Proof.
  intros HI Hr. destruct (inv_clocks _ _ HI) as [_ _ _ _ Hrun Hpos]. pose proof (Hpos r) as Hp.
  specialize (Hrun r). rewrite Hr in Hrun, Hp. simpl in Hrun.
  destruct (map_choose (active_at (y_txns y) r)) as (id & t & Hin).
  { intros E. rewrite E, map_size_empty in Hrun. congruence. }
  apply map_lookup_filter_Some in Hin as [? [? ?]]. eauto.
Qed.

(** With no transaction running the watermark is the commit clock. *)
Lemma watermark_alone y a :
  Inv y a -> (forall id t, y_txns y !! id = Some t -> is_active t = false) -> watermark (y_mgr y) = s_now a.
Proof.
  intros HI Hno. unfold watermark, first_running.
  assert (running (y_mgr y) = ∅) as ->.
  { apply map_empty. intros r. destruct (running (y_mgr y) !! r) as [n|] eqn:Hr; [|done].
    destruct (running_active y a r n HI Hr) as (id & t & Ht & Ha & _). by rewrite (Hno id t Ht) in Ha. }
  rewrite map_to_list_empty. apply (ck_now _ _ _ _ (inv_clocks _ _ HI)).
Qed.

(** The watermark is at or below every snapshot that is or will be read. *)
Lemma watermark_spec y a :
  Inv y a -> y_gc y <= watermark (y_mgr y) <= s_now a /\
  forall id t, y_txns y !! id = Some t -> is_active t = true -> watermark (y_mgr y) <= read_ts t.
Proof.
  intros HI. destruct (inv_clocks _ _ HI) as [Hnow Hgc Hmax Hnext Hrun Hpos].
  pose proof (fun r n => running_active y a r n HI) as Hkey.
  assert (Hact : forall id t, y_txns y !! id = Some t -> is_active t = true ->
    read_ts t ∈ (map_to_list (running (y_mgr y))).*1).
  { intros id t Ht Ha. specialize (Hrun (read_ts t)).
    rewrite (active_at_finish _ id t (Transaction.finish Aborted None t)) in Hrun by done.
    rewrite bool_decide_true in Hrun by done.
    destruct (running (y_mgr y) !! read_ts t) as [n|] eqn:E; simpl in Hrun; [|lia].
    apply list_elem_of_fmap. exists (read_ts t, n). split; [done|]. by apply elem_of_map_to_list. }
  pose proof (smallest_spec (map_to_list (running (y_mgr y))).*1) as Hs.
  unfold watermark, first_running. destruct (foldr _ None _) as [w|]; simpl.
  - destruct Hs as [Hin Hle]. split; [|intros id t Ht Ha; apply Hle; by eapply Hact].
    apply list_elem_of_fmap in Hin as ([r n] & -> & Hin%elem_of_map_to_list).
    destruct (Hkey r n Hin) as (id & t & Ht & Ha & <-).
    destruct (inv_active _ _ _ _ HI Ht Ha) as (_ & _ & ? & _). done.
  - split; [lia|]. intros id t Ht Ha. specialize (Hact id t Ht Ha). rewrite Hs in Hact. set_solver.
Qed.

Lemma inv_gc_start y a : Inv y a ->
  Inv (mkSys (y_rows y) (y_mgr y) (y_txns y) (y_commit y) (watermark (y_mgr y)) (y_stuck y)) a.
Proof.
  intros HI. destruct (watermark_spec y a HI) as [Hw Hle].
  set (w := watermark (y_mgr y)) in *. destruct (inv_clocks _ _ HI) as [].
  split; simpl; try apply HI.
  - split; try done. lia.
  - intros i. pose proof (inv_txns _ _ HI i) as H. destruct (y_txns y !! i) as [t|] eqn:Ht; [|done].
    destruct H as (? & ? & ? & H). unfold txn_ok. split_and!; try done; try lia.
    destruct (is_active t) eqn:Ha; [|done]. destruct H as [_ H]. split; [by eapply Hle|done].
  - intros rid. destruct (inv_rows _ _ HI rid) as (oc & Hown & Hlog & Hrow). exists oc.
    split; [done|]. split; [done|].
    assert (Hrep : forall c h, rep (y_gc y) c h -> rep w c h).
    { intros c h [Hv Hn]. split; [|done]. intros r Hr. apply Hv. lia. }
    destruct (y_rows y !! rid) as [sl|]; [|done]. destruct Hrow as (? & ? & Hrow).
    split_and!; try done. destruct oc as [c|].
    + destruct Hrow as (? & ? & Hrow). split_and!; try done. destruct (cl_pushed c); [|done].
      destruct Hrow. eauto.
    + destruct Hrow as (? & ? & ?). eauto.
Qed.

(** Cutting a chain at the watermark hides no version from a snapshot above it. *)
Lemma gc_row now gc meta d chain h oc :
  row_ok now gc (Some (meta, d)) chain h oc -> chain <> [] ->
  (forall c, oc = Some c -> gc < cl_stamp c) ->
  row_ok now gc (Some (meta, d))
    (if negb (is_txn_id (ts meta)) && (ts meta <=? gc) then [] else (truncate_chain gc chain).1) h oc.
Proof.
  intros (Hlog & Hmeta & Hd & Hrow) Hne Hst. simpl in *.
  assert (Hview : forall r, gc <= r -> view r (log_version <$> (truncate_chain gc chain).1) =
    view r (log_version <$> chain)) by (intros; by apply truncate_view).
  pose proof (truncate_nonempty gc chain Hne) as Hne'.
  destruct oc as [c|].
  - destruct Hrow as (Hts & Hval & Hrow). specialize (Hst c eq_refl).
    rewrite (proj2 (Z.leb_gt (ts meta) gc)), andb_false_r by lia.
    split; [by apply truncate_Forall|]. simpl. split_and!; try done.
    destruct (cl_pushed c); [|by destruct Hrow]. destruct Hrow as [_ [Hv Hn]]. split; [done|].
    split; [intros r Hr; by rewrite Hview, Hv|]. by rewrite truncate_head.
  - destruct Hrow as (Hnow & Hmax & Hv & Hn).
    destruct (negb (is_txn_id (ts meta)) && (ts meta <=? gc)) eqn:Hdrop.
    + apply andb_true_iff in Hdrop as [_ Hle%Z.leb_le]. split; [done|]. simpl. split_and!; try done.
      split; [|done]. intros r Hr. rewrite <- Hv by done. simpl.
      by rewrite !(proj2 (Z.leb_le _ _)) by lia.
    + split; [by apply truncate_Forall|]. simpl. split_and!; try done.
      split; [|done]. intros r Hr. rewrite <- Hv by done. simpl. by rewrite Hview.
Qed.

(** One slot of a garbage collection pass. *)
Lemma inv_gc_slot y a rid meta d st :
  Inv y a -> y_rows y !! rid = Some (meta, d) ->
  Inv (mkSys (y_rows y) (gc_chain (y_gc y) (ts meta) rid st (y_mgr y)).2 (y_txns y) (y_commit y) (y_gc y) (y_stuck y)) a.
Proof.
  intros HI Hslot. set (m' := (gc_chain _ _ _ _ _).2).
  destruct (versions (y_mgr y) !! rid) as [chain|] eqn:Hch.
  2:{ assert (m' = y_mgr y) as -> by (unfold m', gc_chain; by rewrite Hch). by destruct y. }
  assert (Hvc : version_chain (y_mgr y) rid = chain) by (unfold version_chain; by rewrite Hch).
  assert (Hne : chain <> []) by (intros ->; by apply (inv_chains _ _ HI rid)).
  set (drop := negb (is_txn_id (ts meta)) && (ts meta <=? y_gc y)).
  assert (Hm : m' = with_versions (if drop then base.delete rid (versions (y_mgr y))
    else <[rid := (truncate_chain (y_gc y) chain).1]> (versions (y_mgr y))) (y_mgr y)).
  { unfold m', gc_chain. rewrite Hch. fold drop. destruct drop; [done|].
    by destruct (truncate_chain (y_gc y) chain). }
  assert (Hother : forall r, r <> rid -> versions m' !! r = versions (y_mgr y) !! r).
  { intros r Hr. rewrite Hm. simpl. destruct drop; [by rewrite lookup_delete_ne|by rewrite lookup_insert_ne]. }
  clearbody m'. destruct (inv_clocks _ _ HI) as []. split; simpl.
  - rewrite Hm. split; done.
  - intros i. pose proof (inv_txns _ _ HI i) as H. destruct (y_txns y !! i) as [t|]; [|done].
    unfold txn_ok in *. by rewrite Hm.
  - intros r. destruct (inv_rows _ _ HI r) as (oc & Hown & Hrow). exists oc. split; [done|].
    destruct (decide (r = rid)) as [->|Hr].
    2:{ unfold version_chain. by rewrite Hother. }
    assert (Hvc' : version_chain m' rid = if drop then [] else (truncate_chain (y_gc y) chain).1).
    { unfold version_chain. rewrite Hm. simpl. destruct drop; [by rewrite lookup_delete_eq|by rewrite lookup_insert_eq]. }
    rewrite Hvc', Hslot. apply gc_row; [by rewrite Hslot, Hvc in Hrow|done|].
    intros c ->. destruct Hown as (id & Hc & _). destruct (claim_stamp _ _ _ _ _ HI Hc). lia.
  - apply HI.
  - intros r. destruct (decide (r = rid)) as [->|Hr]; [|rewrite Hother by done; apply HI].
    rewrite Hm. simpl. destruct drop; [by rewrite lookup_delete_eq|]. rewrite lookup_insert_eq.
    intros [= E]. by apply (truncate_nonempty (y_gc y) chain Hne).
  - apply HI.
  - apply HI.
Qed.
