(* ===== verification/MvccSteps.v ===== *)
(** * Interleaved steps of the transaction layer

    The steps that concurrent transactions interleave: each is one critical section of the code
    (a slot under its page latch, a table under its lock), run on the shared state. A commit
    holds the commit latch from its first stamp to its publication, and other transactions go on
    meanwhile. Every step keeps the invariant, and is a step of the snapshot-isolation machine
    or none. *)

From Stdlib Require Import ZArith Lia.
From stdpp Require Import base gmap list numbers option relations.
From S2P Require Import Prelude Bytes Ids Buf TablePage TablePageProofs TableHeap SlotStore.
From S2P Require Import Transaction TxnManager Mvcc MvccSpec MvccInv.
Import TxnManager Mvcc.

Local Open Scope Z_scope.

(** What all transactions share, with the commit in progress, the watermark that garbage
    collection last acted on, and the transactions whose commit failed and left slots stamped. *)
Record conf (S : Type) : Type := mkConf {
  c_store : S;
  c_mgr : TxnManager;
  c_txns : gmap TxnId Transaction;
  c_commit : committing;
  c_gc : Timestamp;
  c_stuck : gset TxnId;
}.
Arguments mkConf {S}. Arguments c_store {S}. Arguments c_mgr {S}. Arguments c_txns {S}.
Arguments c_commit {S}. Arguments c_gc {S}. Arguments c_stuck {S}.

Section steps.
Context {S BE IE : Type} `{Laws : SlotStoreLaws S BE} `{Order : !MapOrder RecordId}.

Abbreviation cf := (conf S).
Abbreviation world := (TxnManager * Transaction)%type.

(** The shared state and a transaction, as its operations see them, and back. *)
Definition txn_state (c : cf) (t : Transaction) : S * world := (c_store c, (c_mgr c, t)).
Definition after (c : cf) (id : TxnId) (s : S * world) : cf :=
  mkConf s.1 s.2.1 (<[id := s.2.2]> (c_txns c)) (c_commit c) (c_gc c) (c_stuck c).

Definition with_commit (cm : committing) (c : cf) : cf :=
  mkConf (c_store c) (c_mgr c) (c_txns c) cm (c_gc c) (c_stuck c).

Definition idle (c : cf) (id : TxnId) : Prop := forall dn, c_commit c <> Some (id, dn).

(** The commit of [id] has ended with slots still stamped. *)
Definition leave_stamps (id : TxnId) (c : cf) : cf :=
  mkConf (c_store c) (c_mgr c) (c_txns c) None (c_gc c) ({[id]} ∪ c_stuck c).

(** The row of a record id. *)
Definition row_at (c : cf) (rid : RecordId) (x : row) : Prop :=
  exists C, store_is (c_store c) C /\ C !! rid = Some x.

(** One turn of the loop of [abort]. *)
Definition rollback_one (id : TxnId) (rid : RecordId) (p : bool) : M (S * world) (TxnError BE) unit :=
  _ ← rollback_write id rid p; set_txn (Transaction.forget_write rid).

Inductive step (c : cf) : cf -> Prop :=
| step_begin level t m' :
    next_txn_id (c_mgr c) < u64_max -> begin level (c_mgr c) = (t, m') ->
    step c (mkConf (c_store c) m' (<[txn_id t := t]> (c_txns c)) (c_commit c) (c_gc c) (c_stuck c))
| step_read rid x r s' :
    row_at c rid x -> ss_read rid (c_store c) = (r, s') ->
    step c (mkConf s' (c_mgr c) (c_txns c) (c_commit c) (c_gc c) (c_stuck c))
| step_log id t r s' :
    c_txns c !! id = Some t -> is_active t = true ->
    first_write (BE := BE) (IE := IE) (txn_state c t) = (r, s') -> step c (after c id s')
| step_write id t rid x new r s' :
    c_txns c !! id = Some t -> is_active t = true -> idle c id -> row_at c rid x ->
    from_option (Forall is_byte) True new ->
    write_version (IE := IE) rid new (txn_state c t) = (r, s') -> step c (after c id s')
| step_insert id t data r s' :
    c_txns c !! id = Some t -> is_active t = true -> idle c id -> Forall is_byte data ->
    insert_version (IE := IE) data (txn_state c t) = (r, s') -> step c (after c id s')
| step_taint id t :
    c_txns c !! id = Some t -> idle c id ->
    step c (after c id (c_store c, (c_mgr c, Transaction.set_tainted t)))
| step_commit_begin id t :
    c_txns c !! id = Some t -> state t = Running -> c_commit c = None ->
    last_commit_ts (c_mgr c) + 1 < TXN_START_ID ->
    step c (with_commit (Some (id, ∅)) c)
| step_stamp id t dn rid r s' :
    c_txns c !! id = Some t -> c_commit c = Some (id, dn) -> rid ∈ dom (write_set t) -> rid ∉ dn ->
    stamp rid id (last_commit_ts (c_mgr c) + 1) (txn_state c t) = (r, s') ->
    step c (with_commit (Some (id, if is_ok r then {[rid]} ∪ dn else dn)) (after c id s'))
| step_unstamp id t dn rid r s' :
    c_txns c !! id = Some t -> c_commit c = Some (id, dn) -> rid ∈ dn ->
    stamp rid (last_commit_ts (c_mgr c) + 1) id (txn_state c t) = (r, s') ->
    step c (with_commit (Some (id, if is_ok r then dn ∖ {[rid]} else dn)) (after c id s'))
| step_commit_failed id :
    c_commit c = Some (id, ∅) -> step c (with_commit None c)
| step_commit_stuck id t dn :
    c_txns c !! id = Some t -> c_commit c = Some (id, dn) -> dn <> ∅ ->
    step c (leave_stamps id (after c id (c_store c, (c_mgr c, Transaction.set_tainted t))))
| step_publish id t cts :
    c_txns c !! id = Some t -> c_commit c = Some (id, dom (write_set t)) ->
    cts = last_commit_ts (c_mgr c) + 1 ->
    step c (with_commit None (after c id (c_store c,
      (unregister t (log_end t (with_last_commit_ts cts (c_mgr c))),
       Transaction.finish Committed (Some cts) t))))
| step_end_read_only id t :
    c_txns c !! id = Some t -> state t = Running -> write_set t = ∅ -> idle c id ->
    step c (after c id (c_store c,
      (unregister t (c_mgr c), Transaction.finish Committed (Some (last_commit_ts (c_mgr c))) t)))
| step_rollback id t rid p r s' :
    c_txns c !! id = Some t -> state t = Tainted -> c_commit c = None -> write_set t !! rid = Some p ->
    rollback_one id rid p (txn_state c t) = (r, s') ->
    step c (after c id s')
| step_end_abort id t :
    c_txns c !! id = Some t -> state t = Tainted -> write_set t = ∅ -> c_commit c = None ->
    step c (after c id (c_store c,
      (unregister t (log_end t (c_mgr c)), Transaction.finish Aborted None t)))
| step_gc_start :
    step c (mkConf (c_store c) (c_mgr c) (c_txns c) (c_commit c) (watermark (c_mgr c)) (c_stuck c))
| step_gc_slot rid st r s' m' :
    is_Some (versions (c_mgr c) !! rid) ->
    gc_slot (c_gc c) rid st (c_store c, c_mgr c) = (r, (s', m')) ->
    step c (mkConf s' m' (c_txns c) (c_commit c) (c_gc c) (c_stuck c)).

(** The state of the machine that a configuration implements. *)
Definition csim (c : cf) (a : snap) : Prop :=
  exists C, store_is (c_store c) C /\ Inv (mkSys C (c_mgr c) (c_txns c) (c_commit c) (c_gc c) (c_stuck c)) a.

Lemma csim_row c a rid x : csim c a -> row_at c rid x ->
  exists C, store_is (c_store c) C /\ C !! rid = Some x /\
    Inv (mkSys C (c_mgr c) (c_txns c) (c_commit c) (c_gc c) (c_stuck c)) a.
Proof.
  intros (C & HC & HI) (C' & HC' & Hx). rewrite (store_is_fun _ _ _ HC' HC) in Hx. eauto.
Qed.

(** ** Slot operations on the rows *)

(** A slot write whose plan neither fails nor touches its world beyond [w1]. *)
Lemma slot_write_ok {W T R E} (from : TableHeapError BE -> E) s C rid m d (w w1 : W) wr (t0 : T)
    (f : TupleMeta -> bytes -> M W E (SlotWrite * T)) (then_ : T -> M W E R) :
  store_is s C -> C !! rid = Some (m, d) -> f m d w = (Ok (wr, t0), w1) -> write_valid wr ->
  (exists e s' w', ss_write_then from rid f then_ (s, w) = (Err (from e), (s', w')) /\
     store_is s' C /\ (w' = w \/ w' = w1)) \/
  exists s', store_is s' (<[rid := written wr d]> C) /\
    ss_write_then from rid f then_ (s, w) = let '(r, w2) := then_ t0 w1 in (r, (s', w2)).
Proof.
  intros HC Hx Hf Hv.
  pose proof (ss_write_law W T R E from s C rid m d w f then_ HC Hx) as Hl. rewrite Hf in Hl.
  destruct Hl as [(e & s' & Hr & HC')|[(e & s' & Hr & HC')|(s' & HC' & Hr)]].
  - intros wr' t' w' [= <- _ _]. done.
  - left. eauto 10.
  - left. eauto 10.
  - right. eauto.
Qed.

(** One whose plan fails. *)
Lemma slot_write_err {W T R E} (from : TableHeapError BE -> E) s C rid m d (w w1 : W) e0
    (f : TupleMeta -> bytes -> M W E (SlotWrite * T)) (then_ : T -> M W E R) :
  store_is s C -> C !! rid = Some (m, d) -> f m d w = (Err e0, w1) ->
  exists e s' w', ss_write_then from rid f then_ (s, w) = (Err e, (s', w')) /\
    store_is s' C /\ (w' = w /\ (exists e', e = from e') \/ w' = w1 /\ e = e0).
Proof.
  intros HC Hx Hf.
  pose proof (ss_write_law W T R E from s C rid m d w f then_ HC Hx) as Hl. rewrite Hf in Hl.
  destruct Hl as [(e & s' & Hr & HC')|(s' & Hr & HC')]; [done|eauto 15..].
Qed.

(** ** Writing a version *)

Lemma check_write_spec (t : Transaction) (rid : RecordId) (meta : TupleMeta) :
  check_write (BE := BE) t rid meta =
    if decide (ts meta = txn_id t \/ is_txn_id (ts meta) = false /\ ts meta <= read_ts t)
    then Ok tt else Err (WriteConflict rid).
Proof.
  unfold check_write. destruct (Z.eqb_spec (ts meta) (txn_id t)); simpl; [by rewrite decide_True by auto|].
  destruct (is_txn_id (ts meta)) eqn:E; simpl; [by rewrite decide_False by naive_solver|].
  destruct (Z.ltb_spec (read_ts t) (ts meta)); [rewrite decide_False by naive_solver lia|rewrite decide_True by auto]; done.
Qed.

Lemma after_after c id s s' : after (after c id s) id s' = after c id s'.
Proof. unfold after. simpl. by rewrite insert_insert_eq. Qed.

(** Logging the first write changes neither rows nor clocks. *)
Lemma first_write_ok c a id t :
  csim c a -> c_txns c !! id = Some t -> is_active t = true ->
  exists m' t', first_write (BE := BE) (IE := IE) (txn_state c t) = (Ok tt, (c_store c, (m', t'))) /\
    same_txn t t' /\ write_set t' = write_set t /\ versions m' = versions (c_mgr c) /\
    same_clocks (c_mgr c) m' /\ csim (after c id (c_store c, (m', t'))) a.
Proof.
  intros (C & HC & HI) Ht Ha. unfold first_write, txn_state.
  set (t' := Transaction.mark_writes_logged t).
  set (m' := (log_first_write t (c_mgr c)).2).
  exists m', t'. assert (Hst : same_txn t t') by done.
  assert (Hsc : same_clocks (c_mgr c) m') by (unfold m', log_first_write; simpl; by destruct (logged_writes t)).
  assert (Hv : versions m' = versions (c_mgr c)) by (unfold m', log_first_write; simpl; by destruct (logged_writes t)).
  split_and!; try done. exists C. split; [done|].
  destruct (inv_active _ _ _ _ HI Ht Ha) as (_ & _ & _ & x & Hx & _ & Hok & _).
  assert (E : put_txn id (mkSnapTxn (a_read x) (a_writes x) (bool_decide (state t' = Running))) a = a).
  { apply put_txn_id. rewrite Hx. f_equal. change (state t') with (state t). rewrite <- Hok. by destruct x. }
  rewrite <- E. eapply (inv_txn_step _ a id t t' x m' HI Ht Ha Hx); try done.
  pose proof (inv_commit _ _ HI) as Hc. unfold commit_ok in *. simpl in *.
  destruct (c_commit c) as [[cid dn]|]; [|done]. destruct Hc as (? & t0 & Ht0 & ? & ?). split; [done|].
  destruct (decide (cid = id)) as [->|]; [exists t'|exists t0]; [|by rewrite lookup_insert_ne].
  rewrite lookup_insert_eq. assert (t0 = t) as -> by congruence. done.
Qed.

(** Nothing happened to rows and transaction. *)
Lemma csim_same c a id t s' :
  csim c a -> c_txns c !! id = Some t -> (forall C, store_is (c_store c) C -> store_is s' C) ->
  csim (after c id (s', (c_mgr c, t))) a.
Proof.
  intros (C & HC & HI) Ht Hs. exists C. split; [by apply Hs|]. unfold after. simpl.
  by rewrite insert_id.
Qed.

(** Nor did anything but the log change. *)
Lemma csim_log c a id t s' C r :
  csim c a -> c_txns c !! id = Some t -> store_is (c_store c) C -> store_is s' C ->
  csim (after c id (s', (log_txn r (c_mgr c), t))) a.
Proof.
  intros (C0 & HC0 & HI) Ht HC Hs. rewrite (store_is_fun _ _ _ HC0 HC) in HI.
  exists C. split; [done|]. unfold after. simpl. rewrite insert_id by done.
  destruct HI as [[] ? ? ? ?]. by split.
Qed.

(** Why a write of a row was refused. *)
Definition write_refused (t : Transaction) (rid : RecordId) (meta : TupleMeta) (e : MvccError BE IE) : Prop :=
  (exists e', e = MStorage e') \/
  e = MTxn (WriteConflict rid) /\ ts meta <> txn_id t /\ (is_txn_id (ts meta) = true \/ read_ts t < ts meta) .

Definition slot_write (rid : RecordId) (new : option bytes) : M (S * world) (MvccError BE IE) unit :=
  pushed ← ss_write_then MStorage rid (plan_write rid new) (push_undo rid);
  set_txn (Transaction.record_write rid pushed).

Lemma new_slot_value id (d : bytes) (new : option bytes) :
  slot_value (mkMeta id (bool_decide (new = None)), default d new) = new.
Proof. by destruct new. Qed.

(** The row is the transaction's already. *)
Lemma slot_write_again c a id t rid meta d new p :
  csim c a -> c_txns c !! id = Some t -> is_active t = true -> idle c id -> row_at c rid (meta, d) ->
  from_option (Forall is_byte) True new -> write_set t !! rid = Some p ->
  (forall x, s_active a !! id = Some x -> a_writes x !! rid <> None) ->
  match slot_write rid new (txn_state c t) with
  | (Ok _, s') => same_txn t s'.2.2 /\ exists x, s_active a !! id = Some x /\ is_deleted meta = false /\
      a_writes x !! rid = Some (Some d) /\
      csim (after c id s') (put_txn id (put_write rid new x) a)
  | (Err e, s') => same_txn t s'.2.2 /\ csim (after c id s') a /\ write_refused t rid meta e
  | (Panic, _) => False
  end.
Proof.
  intros HS Ht Ha Hidle Hrow Hb Hp Hheld. destruct (csim_row c a rid _ HS Hrow) as (C & HC & Hx & HI).
  destruct (inv_active _ _ _ _ HI Ht Ha) as (Hid & Hrange & _ & x & Hax & _). specialize (Hheld x Hax).
  destruct (own_slot _ a id t x rid meta d HI Ht Ha Hax Hx p Hp Hheld) as (Hst & Haw & Hnone & _).
  rewrite stamp_of_idle in Hst by done.
  assert (Hnid : 0 <= id <= u64_max).
  { destruct (ck_next _ _ _ _ (inv_clocks _ _ HI)). unfold TXN_START_ID in *. simpl in *. lia. }
  unfold slot_write, txn_state. destruct (is_deleted meta) eqn:Hdel.
  - assert (Hf : plan_write (BE := BE) (IE := IE) rid new meta d (c_mgr c, t) = (Err (MStorage (HDeleted rid)), (c_mgr c, t))).
    { unfold plan_write. rewrite check_write_spec, decide_True, Hdel by (left; congruence). done. }
    destruct (slot_write_err MStorage _ C rid meta d (c_mgr c, t) _ _ _ (push_undo rid) HC Hx Hf)
      as (e & s' & w' & Hr & HC' & Hw).
    erewrite bind_Err by exact Hr.
    assert (w' = (c_mgr c, t)) as -> by (destruct Hw as [[-> _]|[-> _]]; done).
    split; [done|]. split; [|left; destruct Hw as [[_ ?]|[_ ->]]; eauto].
    apply csim_same; [done..|]. intros C0 HC0. by rewrite (store_is_fun _ _ _ HC0 HC).
  - set (wr := mkWrite (mkMeta id (bool_decide (new = None))) new).
    assert (Hf : plan_write (BE := BE) (IE := IE) rid new meta d (c_mgr c, t) = (Ok (wr, None), (c_mgr c, t))).
    { unfold plan_write. rewrite check_write_spec, decide_True, Hdel by (left; congruence). simpl.
      rewrite Hid, (proj2 (Z.eqb_eq _ _)) by done. done. }
    destruct (slot_write_ok MStorage _ C rid meta d (c_mgr c, t) _ wr None _ (push_undo rid) HC Hx Hf)
      as [(e & s' & w' & Hr & HC' & Hw)|(s' & HC' & Hr)]; [by split|..].
    + erewrite bind_Err by exact Hr. assert (w' = (c_mgr c, t)) as -> by by destruct Hw.
      split; [done|]. split; [|left; eauto]. apply csim_same; [done..|].
      intros C0 HC0. by rewrite (store_is_fun _ _ _ HC0 HC).
    + erewrite bind_Ok by exact Hr. cbn. split.
      { unfold Transaction.record_write. by rewrite Hp. }
      exists x. split_and!; try done.
      { rewrite Haw. unfold slot_value. simpl. by rewrite Hdel. }
      eexists. split; [exact HC'|]. unfold written, after. simpl.
      unfold Transaction.record_write. rewrite Hp.
      pose proof (inv_write_again _ a id t x rid meta d HI Ht Ha Hax Hx t (c_mgr c)
        (mkMeta id (bool_decide (new = None))) (default d new) p) as Hagain.
      rewrite new_slot_value in Hagain. apply Hagain; try done.
      destruct new; [done|]. by destruct (slot_valid _ _ _ _ _ HI Hx).
Qed.

Lemma push_undo_ok rid meta d m t :
  is_txn_id (ts meta) = false ->
  push_undo (BE := BE) (IE := IE) rid (Some (meta, d)) (m, t) =
    (Ok true, (with_versions (<[rid := mkUndoLog (ts meta) (is_deleted meta) d :: version_chain m rid]>
       (versions m)) m, t)).
Proof. intros Hts. unfold push_undo, push_version, mbind, M_bind, on_fst. simpl. by rewrite Hts. Qed.

(** The row is not the transaction's, or no longer. *)
Lemma slot_write_first c a id t rid meta d new :
  csim c a -> c_txns c !! id = Some t -> is_active t = true -> idle c id -> row_at c rid (meta, d) ->
  from_option (Forall is_byte) True new ->
  (forall x, s_active a !! id = Some x -> a_writes x !! rid = None) ->
  match slot_write rid new (txn_state c t) with
  | (Ok _, s') => same_txn t s'.2.2 /\ exists x, s_active a !! id = Some x /\ is_deleted meta = false /\
      ts meta <= read_ts t /\ a_writes x !! rid = None /\
      (forall id', claim_of (c_txns c) (c_commit c) a rid id' = None) /\
      csim (after c id s') (put_txn id (put_write rid new x) a)
  | (Err e, s') => same_txn t s'.2.2 /\ csim (after c id s') a /\ write_refused t rid meta e
  | (Panic, _) => False
  end.
Proof.
  intros HS Ht Ha Hidle Hrow Hb Hno. destruct (csim_row c a rid _ HS Hrow) as (C & HC & Hx & HI).
  destruct (inv_active _ _ _ _ HI Ht Ha) as (Hid & Hrange & _ & x & Hax & _). specialize (Hno x Hax).
  assert (Hne : ts meta <> id).
  { intros E. by destruct (own_stamp _ a id t x rid meta d HI Ht Ha Hax Hx Hidle E). }
  assert (Hnid : 0 <= id <= u64_max).
  { destruct (ck_next _ _ _ _ (inv_clocks _ _ HI)). unfold TXN_START_ID in *. simpl in *. lia. }
  assert (Hkeep : forall s', store_is s' C -> csim (after c id (s', (c_mgr c, t))) a).
  { intros s' HC'. apply csim_same; [done..|]. intros C0 HC0. by rewrite (store_is_fun _ _ _ HC0 HC). }
  unfold slot_write, txn_state.
  set (free := is_txn_id (ts meta) = false /\ ts meta <= read_ts t).
  destruct (decide free) as [Hfree|Hbusy]; [destruct (is_deleted meta) eqn:Hdel|].
  - assert (Hf : plan_write (BE := BE) (IE := IE) rid new meta d (c_mgr c, t) =
      (Err (MStorage (HDeleted rid)), (c_mgr c, t))).
    { unfold plan_write. rewrite check_write_spec, decide_True, Hdel by by right. done. }
    destruct (slot_write_err MStorage _ C rid meta d (c_mgr c, t) _ _ _ (push_undo rid) HC Hx Hf)
      as (e & s' & w' & Hr & HC' & Hw).
    erewrite bind_Err by exact Hr.
    assert (w' = (c_mgr c, t)) as -> by (destruct Hw as [[-> _]|[-> _]]; done).
    split; [done|]. split; [by apply Hkeep|]. left. destruct Hw as [[_ ?]|[_ ->]]; eauto.
  - set (wr := mkWrite (mkMeta id (bool_decide (new = None))) new).
    set (m1 := log_undo t rid meta d (c_mgr c)).
    assert (Hf : plan_write (BE := BE) (IE := IE) rid new meta d (c_mgr c, t) =
      (Ok (wr, Some (meta, d)), (m1, t))).
    { unfold plan_write. rewrite check_write_spec, decide_True, Hdel by by right. simpl.
      rewrite Hid, (proj2 (Z.eqb_neq _ _)) by done. done. }
    destruct (slot_write_ok MStorage _ C rid meta d (c_mgr c, t) _ wr _ _ (push_undo rid) HC Hx Hf)
      as [(e & s' & w' & Hr & HC' & Hw)|(s' & HC' & Hr)]; [by split|..].
    + erewrite bind_Err by exact Hr. split; [by destruct Hw as [->| ->]|]. split; [|left; eauto].
      destruct Hw as [->| ->]; [by apply Hkeep|]. by eapply csim_log.
    + assert (Hp : write_set t !! rid = None) by (eapply (seen_unwritten _ a id t x rid meta d HI); try done; apply Hfree).
      rewrite push_undo_ok in Hr by apply Hfree. erewrite bind_Ok by exact Hr. cbn. split.
      { unfold Transaction.record_write. by rewrite Hp. }
      exists x.
      destruct (seen_slot _ a id t x rid meta d HI Ht Ha Hax Hx) as (Hnone & _); [apply Hfree|].
      split_and!; try done; [apply Hfree|].
      eexists. split; [exact HC'|]. unfold written, after. simpl.
      unfold Transaction.record_write. rewrite Hp.
      pose proof (inv_first_write _ a id t x rid meta d HI Ht Ha Hax Hx
        (Transaction.with_writes (<[rid := true]> (write_set t)) t)
        (with_versions (<[rid := mkUndoLog (ts meta) (is_deleted meta) d :: version_chain m1 rid]> (versions m1)) m1)
        (mkMeta id (bool_decide (new = None))) (default d new)) as Hfirst.
      rewrite new_slot_value in Hfirst. apply Hfirst; try done; [apply Hfree|].
      destruct new; [done|]. by destruct (slot_valid _ _ _ _ _ HI Hx).
  - assert (Hf : plan_write (BE := BE) (IE := IE) rid new meta d (c_mgr c, t) =
      (Err (MTxn (WriteConflict rid)), (c_mgr c, t))).
    { unfold plan_write. rewrite check_write_spec, decide_False; [done|]. intros [?|?]; [congruence|done]. }
    destruct (slot_write_err MStorage _ C rid meta d (c_mgr c, t) _ _ _ (push_undo rid) HC Hx Hf)
      as (e & s' & w' & Hr & HC' & Hw).
    erewrite bind_Err by exact Hr.
    assert (w' = (c_mgr c, t)) as -> by (destruct Hw as [[-> _]|[-> _]]; done).
    split; [done|]. split; [by apply Hkeep|]. destruct Hw as [[_ ?]|[_ ->]]; [left; eauto|right].
    split; [done|]. split; [congruence|]. unfold free in Hbusy.
    destruct (is_txn_id (ts meta)); [by left|right].
    apply Z.nle_gt. naive_solver.
Qed.

(** Nobody else writes a row that nobody else claims. *)
Lemma unclaimed_writes y a rid id id' x' :
  Inv y a -> (forall id', id' <> id -> claim_of (y_txns y) (y_commit y) a rid id' = None) ->
  s_active a !! id' = Some x' -> id' <> id -> a_writes x' !! rid = None.
Proof using.
  intros HI Hnone Hx' Hne. specialize (Hnone id' Hne). rewrite claim_None in Hnone.
  pose proof (inv_txns _ _ HI id') as Hw. destruct (y_txns y !! id') as [t'|] eqn:Ht'; [|congruence].
  destruct (is_active t') eqn:Ha'.
  - destruct (inv_active _ _ _ _ HI Ht' Ha') as (_ & _ & _ & x0 & Hx0 & _ & _ & Hdom).
    assert (x0 = x') as -> by congruence.
    destruct (Hnone t' x' eq_refl Hx0 Ha') as [E|E]; [by apply Hdom|done].
  - destruct Hw as (_ & _ & _ & Hw). rewrite Ha' in Hw. congruence.
Qed.

(** [write_version] is a write of the machine, or changes nothing. *)
Lemma write_version_ok c a id t rid meta d new :
  csim c a -> c_txns c !! id = Some t -> is_active t = true -> idle c id -> row_at c rid (meta, d) ->
  from_option (Forall is_byte) True new ->
  match write_version rid new (txn_state c t) with
  | (Ok _, s') => same_txn t s'.2.2 /\ exists x, s_active a !! id = Some x /\ snap_read a id rid <> None /\
      snap_step a (put_txn id (put_write rid new x) a) /\
      csim (after c id s') (put_txn id (put_write rid new x) a)
  | (Err e, s') => same_txn t s'.2.2 /\ csim (after c id s') a /\ write_refused t rid meta e
  | (Panic, _) => False
  end.
Proof.
  intros HS0 Ht0 Ha0 Hidle Hrow0 Hb. destruct (first_write_ok c a id t HS0 Ht0 Ha0)
    as (m' & t' & Hfw & Htx & Hws & Hv & Hsc & HS).
  set (c1 := after c id (c_store c, (m', t'))) in *.
  assert (Ht : c_txns c1 !! id = Some t') by apply lookup_insert_eq.
  assert (Ha : is_active t' = true) by by rewrite (same_txn_active _ _ Htx).
  assert (Hrow : row_at c1 rid (meta, d)) by done.
  assert (Href : forall e, write_refused t' rid meta e -> write_refused t rid meta e).
  { destruct Htx as (E1 & E2 & _). unfold write_refused. by rewrite E1, E2. }
  assert (Hrun : write_version rid new (txn_state c t) = slot_write rid new (txn_state c1 t')).
  { unfold write_version. by erewrite bind_Ok by exact Hfw. }
  assert (Htt : forall t2, same_txn t' t2 -> same_txn t t2).
  { intros t2 (E1 & E2 & E3). destruct Htx as (F1 & F2 & F3). repeat split; congruence. }
  rewrite Hrun. destruct (csim_row c1 a rid _ HS Hrow) as (C & HC & Hx & HI).
  destruct (inv_active _ _ _ _ HI Ht Ha) as (Hid & _ & _ & x & Hax & Hread & _ & Hdom).
  pose proof (read_ok _ a id t' rid (meta, d) HI Ht Ha Hidle Hx) as Hsee.
  assert (Hax1 : forall x1, s_active a !! id = Some x1 -> x1 = x) by congruence.
  destruct (a_writes x !! rid) as [v|] eqn:Hv0.
  - destruct (write_set t' !! rid) as [p|] eqn:Hp; [|by rewrite (proj1 Hdom rid Hp) in Hv0].
    assert (Hheld : forall x, s_active a !! id = Some x -> a_writes x !! rid <> None).
    { intros x1 ->%Hax1. congruence. }
    pose proof (slot_write_again c1 a id t' rid meta d new p HS Ht Ha Hidle Hrow Hb Hp Hheld) as Hw.
    destruct (slot_write rid new _) as [[[]|e|] s']; [| |done].
    2:{ destruct Hw as (? & Hw & ?). unfold c1 in Hw. rewrite after_after in Hw. eauto. }
    destruct Hw as (Hsame & x0 & Hx0 & Hdel & Haw & Hw). assert (x0 = x) as -> by congruence.
    split; [by apply Htt|]. exists x. split; [done|]. unfold c1 in Hw. rewrite after_after in Hw. assert (Hs : snap_read a id rid <> None) by (unfold snap_read; by rewrite Hax, Haw).
    split_and!; [done| |done].
    destruct (own_slot _ a id t' x rid meta d HI Ht Ha Hax Hx p Hp (Hheld x Hax)) as (_ & _ & Hnone & _).
    apply snap_write; [done| | |].
    + intros id' x' Hx' Hne. by eapply unclaimed_writes.
    + congruence.
    + done.
  - pose proof (slot_write_first c1 a id t' rid meta d new HS Ht Ha Hidle Hrow Hb
      ltac:(by intros x1 ->%Hax1)) as Hw.
    destruct (slot_write rid new _) as [[[]|e|] s']; [| |done].
    2:{ destruct Hw as (? & Hw & ?). unfold c1 in Hw. rewrite after_after in Hw. eauto. }
    destruct Hw as (Hsame & x0 & Hx0 & Hdel & Hle & Haw & Hnone & Hw). assert (x0 = x) as -> by congruence.
    split; [by apply Htt|]. exists x. split; [done|]. unfold c1 in Hw. rewrite after_after in Hw. 
    assert (Hs : snap_read a id rid <> None).
    { rewrite <- Hsee. unfold visible_version, sees.
      rewrite (proj2 (Z.leb_le (ts _) (read_ts t'))), orb_true_r by done. simpl. by rewrite Hdel. }
    split_and!; [done| |done].
    destruct (seen_slot _ a id t' x rid meta d HI Ht Ha Hax Hx Hle) as (_ & _ & _ & _ & Hnew).
    apply snap_write; [done| | |].
    + intros id' x' Hx' Hne. eapply unclaimed_writes; [exact HI|intros; apply Hnone|done..].
    + intros _. rewrite <- Hnew, Hread. done.
    + done.
Qed.

(** ** Inserting a version *)

Lemma insert_version_ok c a id t data :
  csim c a -> c_txns c !! id = Some t -> is_active t = true -> idle c id -> Forall is_byte data ->
  match insert_version (IE := IE) data (txn_state c t) with
  | (Ok rid, s') => same_txn t s'.2.2 /\ exists x, s_active a !! id = Some x /\
      snap_step a (put_txn id (put_write rid (Some data) x) (know rid a)) /\ snap_read a id rid = None /\
      (forall x, ~ row_at c rid x) /\ csim (after c id s') (put_txn id (put_write rid (Some data) x) (know rid a))
  | (Err e, s') => s'.2 = (c_mgr c, t) /\ csim (after c id s') a /\ exists e', e = MStorage e'
  | (Panic, _) => False
  end.
Proof.
  intros (C & HC & HI) Ht Ha Hidle Hb.
  destruct (inv_active _ _ _ _ HI Ht Ha) as (Hid & Hrange & _ & x & Hax & _ & _ & Hdom).
  assert (Hmv : meta_valid (mkMeta id false)).
  { unfold meta_valid. destruct (ck_next _ _ _ _ (inv_clocks _ _ HI)).
    unfold TXN_START_ID in *. simpl in *. lia. }
  unfold insert_version, txn_state. erewrite bind_Ok by done. cbn [snd]. rewrite Hid.
  pose proof (ss_insert_law (c_store c) C (mkMeta id false) data HC Hmv Hb) as Hl.
  destruct (ss_insert (mkMeta id false) data (c_store c)) as [[rid|e|] s'] eqn:Hi; [| |done].
  2:{ erewrite bind_Err by (unfold on_fst; cbn; by rewrite Hi). split; [done|]. split; [|eauto].
      apply csim_same; [by exists C|done|]. intros C0 HC0. by rewrite (store_is_fun _ _ _ HC0 HC). }
  destruct Hl as [Hnone HC']. erewrite bind_Ok by (unfold on_fst; cbn; by rewrite Hi). cbn.
  assert (Hp : write_set t !! rid = None).
  { destruct (inv_rows _ _ HI rid) as (oc & Hown & _ & Hrow). simpl in Hrow. rewrite Hnone in Hrow.
    destruct Hrow as (_ & Hh & _). destruct (write_set t !! rid) as [p|] eqn:Hp; [|done].
    pose proof (written_known _ a id t rid p HI Ht Ha Hp) as Hk. rewrite <- (inv_known _ _ HI) in Hk.
    simpl in Hk. rewrite Hnone in Hk. by destruct Hk. }
  destruct (inv_insert _ a id t (Transaction.with_writes (<[rid := false]> (write_set t)) t) x rid
    (mkMeta id false) data HI Ht Ha Hax Hnone Hidle) as (HI' & Hh & Hcl); try done.
  split; [cbn [fst snd]; unfold Transaction.record_write; by rewrite Hp|].
  exists x. split_and!; [done| | | |].
  - apply snap_insert; [done..|]. intros id' x' Hx'.
    destruct (decide (id' = id)) as [->|Hne].
    + assert (x' = x) as -> by congruence. by apply (proj1 Hdom).
    + eapply (unclaimed_writes _ a rid id); [exact HI|intros; apply Hcl|done..].
  - unfold snap_read. rewrite Hax. rewrite (proj1 Hdom rid Hp). by rewrite Hh.
  - intros y (C0 & HC0 & Hy). rewrite (store_is_fun _ _ _ HC0 HC) in Hy. congruence.
  - eexists. split; [exact HC'|]. unfold after. simpl. unfold Transaction.record_write. by rewrite Hp.
Qed.

(** ** Stamps *)

Lemma stamp_run s C (w : world) rid meta d from to :
  store_is s C -> C !! rid = Some (meta, d) -> ts meta = from -> 0 <= to <= u64_max ->
  (exists e s', stamp rid from to (s, w) = (Err (Storage e), (s', w)) /\ store_is s' C) \/
  (exists s', stamp rid from to (s, w) = (Ok tt, (s', w)) /\
     store_is s' (<[rid := (mkMeta to (is_deleted meta), d)]> C)).
Proof.
  intros HC Hx Hfrom Hto. unfold stamp, write_slot.
  set (f := fun (m : TupleMeta) (d : bytes) => _).
  assert (Hf : f meta d w = (Ok (mkWrite (mkMeta to (is_deleted meta)) None, tt), w)).
  { unfold f, mbind, M_bind, liftc. rewrite Hfrom, Z.eqb_refl. done. }
  destruct (slot_write_ok Storage s C rid meta d w w _ tt f (fun _ => mret tt) HC Hx Hf)
    as [(e & s' & w' & Hr & HC' & Hw)|(s' & HC' & Hr)]; [by split|..].
  - left. exists e, s'. split; [|done]. rewrite Hr. by destruct Hw as [->| ->].
  - right. exists s'. done.
Qed.

(** Re-stamping a slot that a commit in progress owns. *)
Lemma restamp_ok c a id t dn dn' rid from to :
  csim c a -> c_txns c !! id = Some t -> c_commit c = Some (id, dn) -> is_Some (write_set t !! rid) ->
  dn' ⊆ dom (write_set t) -> (forall r, r <> rid -> r ∈ dn' <-> r ∈ dn) ->
  from = stamp_of (Some (id, dn)) (s_now a) id rid -> to = stamp_of (Some (id, dn')) (s_now a) id rid ->
  match stamp rid from to (txn_state c t) with
  | (Ok _, s') => s'.2 = (c_mgr c, t) /\ csim (with_commit (Some (id, dn')) (after c id s')) a
  | (Err e, s') => s'.2 = (c_mgr c, t) /\ csim (after c id s') a /\ exists e', e = Storage e'
  | (Panic, _) => False
  end.
Proof.
  intros (C & HC & HI) Ht Hcm [p Hp] Hdn' Hsame Hfrom Hto.
  pose proof (inv_commit _ _ HI) as Hok. unfold commit_ok in Hok. simpl in Hok. rewrite Hcm in Hok.
  destruct Hok as (Hmax & t0 & Ht0 & Hrun & Hsub). assert (t0 = t) as -> by congruence.
  assert (Ha : is_active t = true) by (unfold is_active; apply bool_decide_true; auto).
  destruct (inv_active _ _ _ _ HI Ht Ha) as (Hid & Hrange & _ & x & Hax & _).
  assert (Hslot : exists meta d, C !! rid = Some (meta, d)).
  { pose proof (written_known _ a id t rid p HI Ht Ha Hp) as Hk. rewrite <- (inv_known _ _ HI) in Hk.
    destruct Hk as [[meta d] Hk]. eauto. }
  destruct Hslot as (meta & d & Hx).
  assert (Hheld : a_writes x !! rid <> None) by (rewrite <- (running_writes _ a id t x rid HI Ht Hrun Hax); congruence).
  destruct (own_slot _ a id t x rid meta d HI Ht Ha Hax Hx p Hp Hheld) as (Hst & _). simpl in Hst. rewrite Hcm in Hst.
  assert (Hbound : 0 <= to <= u64_max).
  { pose proof (ck_next _ _ _ _ (inv_clocks _ _ HI)) as Hn. pose proof (ck_gc _ _ _ _ (inv_clocks _ _ HI)) as Hg.
    cbn [y_mgr y_gc] in *. rewrite Hto. unfold stamp_of. unfold TXN_START_ID, u64_max in *. case_bool_decide; lia. }
  destruct (stamp_run (c_store c) C (c_mgr c, t) rid meta d from to HC Hx) as [(e & s' & Hr & HC')|(s' & Hr & HC')];
    [congruence|done|..]; unfold txn_state; rewrite Hr.
  - split_and!; [done| |eauto]. apply csim_same; [by exists C|done|].
    intros C0 HC0. by rewrite (store_is_fun _ _ _ HC0 HC).
  - split; [done|]. eexists. split; [exact HC'|]. unfold after, with_commit. simpl. rewrite (insert_id (c_txns c)) by done.
    pose proof (inv_restamp _ a id t x rid meta d HI Ht Ha Hax Hx (Some (id, dn')) (mkMeta to (is_deleted meta)) p)
      as Hre. simpl in Hre. apply Hre; try done.
    + split; [done|]. eauto.
    + intros r i Hr'. rewrite Hcm. unfold stamp_of. by rewrite !(bool_decide_ext _ _ (and_iff_compat_l _ (Hsame r Hr'))).
Qed.

Lemma stamp_step_ok c a id t dn rid :
  csim c a -> c_txns c !! id = Some t -> c_commit c = Some (id, dn) -> rid ∈ dom (write_set t) -> rid ∉ dn ->
  match stamp rid id (last_commit_ts (c_mgr c) + 1) (txn_state c t) with
  | (Ok _, s') => s'.2 = (c_mgr c, t) /\ csim (with_commit (Some (id, {[rid]} ∪ dn)) (after c id s')) a
  | (Err e, s') => s'.2 = (c_mgr c, t) /\ csim (after c id s') a /\ exists e', e = Storage e'
  | (Panic, _) => False
  end.
Proof.
  intros HS Ht Hcm Hin Hni. pose proof HS as (C & HC & HI).
  pose proof (inv_commit _ _ HI) as Hok. unfold commit_ok in Hok. simpl in Hok. rewrite Hcm in Hok.
  destruct Hok as (_ & t0 & Ht0 & _ & Hsub). assert (t0 = t) as -> by congruence.
  pose proof (ck_now _ _ _ _ (inv_clocks _ _ HI)) as Hnow. simpl in Hnow.
  apply (restamp_ok c a id t dn); try done.
  - by apply elem_of_dom.
  - set_solver.
  - intros r Hr. set_solver.
  - unfold stamp_of. by rewrite bool_decide_false by naive_solver.
  - unfold stamp_of. rewrite bool_decide_true by set_solver. by rewrite Hnow.
Qed.

Lemma unstamp_step_ok c a id t dn rid :
  csim c a -> c_txns c !! id = Some t -> c_commit c = Some (id, dn) -> rid ∈ dn ->
  match stamp rid (last_commit_ts (c_mgr c) + 1) id (txn_state c t) with
  | (Ok _, s') => s'.2 = (c_mgr c, t) /\ csim (with_commit (Some (id, dn ∖ {[rid]})) (after c id s')) a
  | (Err e, s') => s'.2 = (c_mgr c, t) /\ csim (after c id s') a /\ exists e', e = Storage e'
  | (Panic, _) => False
  end.
Proof.
  intros HS Ht Hcm Hin. pose proof HS as (C & HC & HI).
  pose proof (inv_commit _ _ HI) as Hok. unfold commit_ok in Hok. simpl in Hok. rewrite Hcm in Hok.
  destruct Hok as (_ & t0 & Ht0 & _ & Hsub). assert (t0 = t) as -> by congruence.
  pose proof (ck_now _ _ _ _ (inv_clocks _ _ HI)) as Hnow. simpl in Hnow.
  apply (restamp_ok c a id t dn); try done.
  - apply elem_of_dom. set_solver.
  - set_solver.
  - intros r Hr. set_solver.
  - unfold stamp_of. rewrite bool_decide_true by done. by rewrite Hnow.
  - unfold stamp_of. rewrite bool_decide_false; [done|]. set_solver.
Qed.

(** ** Rolling back *)

Lemma pop_version_ok rid m head tail :
  version_chain m rid = head :: tail ->
  same_clocks m (pop_version rid m) /\ version_chain (pop_version rid m) rid = tail /\
  versions (pop_version rid m) !! rid <> Some [] /\
  forall r, r <> rid -> versions (pop_version rid m) !! r = versions m !! r.
Proof using.
  intros Hch. unfold pop_version, version_chain in *. rewrite Hch. destruct tail as [|l tail]; simpl.
  - rewrite lookup_delete_eq. split_and!; try done. intros r Hr. by rewrite lookup_delete_ne.
  - rewrite lookup_insert_eq. split_and!; try done. intros r Hr. by rewrite lookup_insert_ne.
Qed.

(** What rolling a write back makes of a row and its undo chain: the version that the chain
    starts with goes back to the slot, and a row that the transaction inserted is deleted. *)
Definition row_restored (p : bool) (x : row) (chain : list UndoLog) (x' : row) (chain' : list UndoLog) : Prop :=
  if p then exists head, chain = head :: chain' /\ x' = (mkMeta (u_ts head) (u_deleted head), u_data head)
  else chain' = chain /\ x' = (mkMeta 0 true, x.2).

(** The writes [ws], and they alone, are rolled back. *)
Definition rolled_back (ws : gmap RecordId bool) (c c' : cf) : Prop :=
  exists C C', store_is (c_store c) C /\ store_is (c_store c') C' /\ forall rid,
    match ws !! rid with
    | None => C' !! rid = C !! rid /\ version_chain (c_mgr c') rid = version_chain (c_mgr c) rid
    | Some p => exists x x', C !! rid = Some x /\ C' !! rid = Some x' /\
        row_restored p x (version_chain (c_mgr c) rid) x' (version_chain (c_mgr c') rid)
    end.

Lemma rolled_back_none c c' C :
  store_is (c_store c) C -> store_is (c_store c') C ->
  versions (c_mgr c') = versions (c_mgr c) -> rolled_back ∅ c c'.
Proof using.
  intros HC HC' Hv. exists C, C. split_and!; [done..|]. intros rid. rewrite lookup_empty. unfold version_chain.
  by rewrite Hv.
Qed.

Lemma rolled_back_trans ws ws' c c1 c2 :
  ws ##ₘ ws' -> rolled_back ws c c1 -> rolled_back ws' c1 c2 -> rolled_back (ws ∪ ws') c c2.
Proof.
  intros Hd (C & C1 & HC & HC1 & H1) (C1' & C2 & HC1' & HC2 & H2). rewrite (store_is_fun _ _ _ HC1' HC1) in H2.
  exists C, C2. split_and!; [done..|]. intros rid. specialize (H1 rid). specialize (H2 rid).
  destruct (ws !! rid) as [p|] eqn:E.
  - rewrite (lookup_union_Some_l _ _ _ _ E). rewrite (map_disjoint_Some_l _ _ _ _ Hd E) in H2.
    destruct H2 as [-> ->]. done.
  - rewrite lookup_union_r by done. destruct H1 as [E1 E2]. by rewrite E1, E2 in H2.
Qed.

(** The slot write of a rollback. *)
Lemma rollback_run s C m (t : Transaction) rid meta d id (p : bool) chain :
  store_is s C -> C !! rid = Some (meta, d) -> ts meta = id -> version_chain m rid = chain ->
  (if p then exists head tail, chain = head :: tail /\ 0 <= u_ts head <= u64_max /\ Forall is_byte (u_data head)
   else True) ->
  (exists e s', rollback_write id rid p (s, (m, t)) = (Err (Storage e), (s', (m, t))) /\ store_is s' C) \/
  exists s' meta' d', rollback_write id rid p (s, (m, t)) =
      (Ok tt, (s', (if p then pop_version rid m else m, t))) /\
    store_is s' (<[rid := (meta', d')]> C) /\
    (if p then exists head tail, chain = head :: tail /\ meta' = mkMeta (u_ts head) (u_deleted head) /\ d' = u_data head
     else meta' = mkMeta 0 true /\ d' = d).
Proof.
  intros HC Hx Hts Hch Hp. unfold rollback_write.
  set (f := fun (m : TupleMeta) (d : bytes) => _).
  set (then_ := fun (popped : bool) (w : world) => _).
  destruct p.
  - destruct Hp as (head & tail & -> & Hu & Hb).
    assert (Hf : f meta d (m, t) =
      (Ok (mkWrite (mkMeta (u_ts head) (u_deleted head)) (Some (u_data head)), true), (m, t))).
    { unfold f. rewrite Hts, Z.eqb_refl. simpl. by rewrite Hch. }
    destruct (slot_write_ok Storage s C rid meta d (m, t) _ _ true f then_ HC Hx Hf)
      as [(e & s' & w' & Hr & HC' & Hw)|(s' & HC' & Hr)]; [by split|..].
    + left. exists e, s'. split; [|done]. rewrite Hr. by destruct Hw as [->| ->].
    + right. exists s', (mkMeta (u_ts head) (u_deleted head)), (u_data head).
      split_and!; [by rewrite Hr|done|eauto].
  - assert (Hf : f meta d (m, t) = (Ok (mkWrite (mkMeta 0 true) None, false), (m, t))).
    { unfold f. by rewrite Hts, Z.eqb_refl. }
    destruct (slot_write_ok Storage s C rid meta d (m, t) _ _ false f then_ HC Hx Hf)
      as [(e & s' & w' & Hr & HC' & Hw)|(s' & HC' & Hr)]; [by split|..].
    + left. exists e, s'. split; [|done]. rewrite Hr. by destruct Hw as [->| ->].
    + right. exists s', (mkMeta 0 true), d. split_and!; [by rewrite Hr|done..].
Qed.

(** Why a write could not be rolled back: storage, or a slot that a failed commit of the same
    transaction left stamped. *)
Definition rollback_refused (c : cf) (id : TxnId) (rid : RecordId) (e : TxnError BE) : Prop :=
  (exists e', e = Storage e') \/
  id ∈ c_stuck c /\ exists x, row_at c rid x /\ ts x.1 <> id /\ e = UnexpectedStamp rid id (ts x.1).

Lemma rollback_lost c a id t rid p C meta d :
  csim c a -> c_txns c !! id = Some t -> store_is (c_store c) C -> C !! rid = Some (meta, d) -> ts meta <> id ->
  id ∈ c_stuck c ->
  match rollback_one id rid p (txn_state c t) with
  | (Err e, s') => s'.2 = (c_mgr c, t) /\ csim (after c id s') a /\ rolled_back ∅ c (after c id s') /\
      rollback_refused c id rid e
  | _ => False
  end.
Proof.
  intros HS Ht HC Hx Hne Hstuck. unfold rollback_one, rollback_write, txn_state.
  set (f := fun (m : TupleMeta) (d : bytes) => _).
  set (then_ := fun (popped : bool) (w : world) => _).
  assert (Hf : f meta d (c_mgr c, t) = (Err (UnexpectedStamp rid id (ts meta)), (c_mgr c, t))).
  { unfold f. by rewrite (proj2 (Z.eqb_neq _ _)) by done. }
  destruct (slot_write_err Storage _ C rid meta d (c_mgr c, t) _ _ f then_ HC Hx Hf) as (e & s' & w' & Hr & HC' & Hw).
  erewrite bind_Err by exact Hr.
  assert (w' = (c_mgr c, t)) as -> by (destruct Hw as [[-> _]|[-> _]]; done). split_and!; [done| | |].
  - apply csim_same; [done..|]. intros C0 HC0. by rewrite (store_is_fun _ _ _ HC0 HC).
  - by apply (rolled_back_none _ _ C).
  - destruct Hw as [[_ ?]|[_ ->]]; [by left|right]. split; [done|]. exists (meta, d). split_and!; [by exists C|done..].
Qed.

Lemma rollback_ok c a id t rid p :
  csim c a -> c_txns c !! id = Some t -> is_active t = true -> idle c id -> write_set t !! rid = Some p ->
  match rollback_one id rid p (txn_state c t) with
  | (Ok _, s') => exists x, s_active a !! id = Some x /\ s'.2.2 = Transaction.forget_write rid t /\
      same_clocks (c_mgr c) s'.2.1 /\ csim (after c id s') (put_txn id (drop_write rid x) a) /\
      rolled_back {[rid := p]} c (after c id s')
  | (Err e, s') => s'.2 = (c_mgr c, t) /\ csim (after c id s') a /\ rolled_back ∅ c (after c id s') /\
      rollback_refused c id rid e
  | (Panic, _) => False
  end.
Proof.
  intros (C & HC & HI) Ht Ha Hidle Hp.
  destruct (inv_active _ _ _ _ HI Ht Ha) as (Hid & Hrange & _ & x & Hax & _ & _ & _ & Hlost).
  destruct (C !! rid) as [[meta d]|] eqn:Hx.
  2:{ pose proof (written_known _ a id t rid p HI Ht Ha Hp) as Hk. rewrite <- (inv_known _ _ HI) in Hk.
      simpl in Hk. rewrite Hx in Hk. by destruct Hk. }
  destruct (decide (a_writes x !! rid = None)) as [Hno|Hheld].
  { assert (Hw : write_set t !! rid <> None) by congruence.
    destruct (lost_stamp _ a id t x rid meta d HI Ht Ha Hax Hx Hidle Hw Hno) as [Hne _].
    destruct (Hlost rid Hw Hno) as [Hstuck _].
    pose proof (rollback_lost c a id t rid p C meta d ltac:(by exists C) Ht HC Hx Hne Hstuck) as Hl.
    by destruct (rollback_one id rid p (txn_state c t)) as [[]]. }
  destruct (own_slot _ a id t x rid meta d HI Ht Ha Hax Hx p Hp Hheld) as (Hst & _ & Hnone & Hlog & Hrest).
  rewrite stamp_of_idle in Hst by done. simpl in Hlog, Hrest.
  pose proof (ck_max _ _ _ _ (inv_clocks _ _ HI)) as Hmax.
  unfold rollback_one, txn_state.
  destruct (rollback_run (c_store c) C (c_mgr c) t rid meta d id p _ HC Hx Hst eq_refl)
    as [(e & s' & Hr & HC')|(s' & meta' & d' & Hr & HC' & Hback)].
  { destruct p; [|done]. destruct Hrest as [Hne _].
    destruct (version_chain (c_mgr c) rid) as [|head tail] eqn:Hch; [done|].
    apply Forall_cons_1 in Hlog as [[Hl Hb] _]. exists head, tail. split_and!; try done; [lia|].
    unfold u64_max, TXN_START_ID in *. lia. }
  - erewrite bind_Err by exact Hr. split_and!; [done| |by apply (rolled_back_none _ _ C)|left; eauto].
    apply csim_same; [by exists C|done|]. intros C0 HC0. by rewrite (store_is_fun _ _ _ HC0 HC).
  - erewrite bind_Ok by exact Hr. cbn. exists x.
    assert (Hm : same_clocks (c_mgr c) (if p then pop_version rid (c_mgr c) else c_mgr c)) by by destruct p.
    split_and!; try done.
    2:{ exists C, (<[rid := (meta', d')]> C). split_and!; [done..|]. intros r. simpl.
        destruct (decide (r = rid)) as [->|Hr'].
        - rewrite lookup_singleton_eq, lookup_insert_eq. exists (meta, d), (meta', d'). split_and!; [done..|]. destruct p.
          + destruct Hback as (head & tail & Hch & -> & ->). exists head.
            destruct (pop_version_ok _ _ _ _ Hch) as (_ & -> & _). done.
          + by destruct Hback as [-> ->].
        - rewrite lookup_singleton_ne, lookup_insert_ne by done. split; [done|]. destruct p; [|done].
          destruct Hback as (head & tail & Hch & _). unfold version_chain.
          by rewrite (proj2 (proj2 (proj2 (pop_version_ok _ _ _ _ Hch))) r Hr'). }
    eexists. split; [exact HC'|]. unfold after. simpl.
    destruct p.
    + destruct Hback as (head & tail & Hch & -> & ->).
      destruct (pop_version_ok _ _ _ _ Hch) as (_ & Hch' & Hne' & Hother).
      rewrite Hch in Hlog. apply Forall_cons_1 in Hlog as [[Hl Hb] _].
      apply (inv_rollback _ a id t x rid meta d HI Ht Ha Hax Hx) with (p := true); try done.
      * unfold meta_valid, u64_max, TXN_START_ID in *. simpl in *. lia.
      * exists head. simpl. split_and!; try done. by rewrite Hch'.
    + destruct Hback as [-> ->]. destruct Hrest as [Hch _].
      apply (inv_rollback _ a id t x rid meta d HI Ht Ha Hax Hx) with (p := false); try done.
      * apply HI.
      * by destruct (slot_valid _ _ _ _ _ HI Hx).
Qed.

(** ** Garbage collection *)

Lemma gc_slot_ok c a rid st :
  csim c a -> is_Some (versions (c_mgr c) !! rid) ->
  match gc_slot (c_gc c) rid st (c_store c, c_mgr c) with
  | (Ok _, (s', m')) => same_clocks (c_mgr c) m' /\ txn_log m' = txn_log (c_mgr c) /\
      (forall r, r <> rid -> versions m' !! r = versions (c_mgr c) !! r) /\
      csim (mkConf s' m' (c_txns c) (c_commit c) (c_gc c) (c_stuck c)) a
  | (Err e, (s', m')) => m' = c_mgr c /\ csim (mkConf s' m' (c_txns c) (c_commit c) (c_gc c) (c_stuck c)) a /\
      exists e', e = Storage e'
  | (Panic, _) => False
  end.
Proof.
  intros (C & HC & HI) [chain Hch].
  assert (Hslot : exists meta d, C !! rid = Some (meta, d)).
  { destruct (inv_rows _ _ HI rid) as (oc & _ & _ & Hrow). simpl in Hrow.
    destruct (C !! rid) as [[meta d]|]; [eauto|]. destruct Hrow as (Hnil & _).
    unfold version_chain in Hnil. rewrite Hch in Hnil. simpl in Hnil. subst chain.
    by destruct (inv_chains _ _ HI rid). }
  destruct Hslot as (meta & d & Hx). unfold gc_slot.
  pose proof (ss_read_law (c_store c) C rid (meta, d) HC Hx) as Hl.
  destruct (ss_read rid (c_store c)) as [[y|e|] s'] eqn:Hr; [| |done].
  2:{ erewrite bind_Err by (unfold on_fst; cbn; by rewrite Hr). split_and!; [done| |eauto].
      exists C. done. }
  destruct Hl as [-> HC']. erewrite bind_Ok by (unfold on_fst; cbn; by rewrite Hr).
  unfold on_snd. cbn. destruct (gc_chain (c_gc c) (ts meta) rid st (c_mgr c)) as [st' m'] eqn:Hgc. cbn.
  split_and!.
  - unfold gc_chain in Hgc. rewrite Hch in Hgc. destruct (negb _ && _); [by simplify_eq|].
    destruct (truncate_chain _ chain). by simplify_eq.
  - unfold gc_chain in Hgc. rewrite Hch in Hgc. destruct (negb _ && _); [by simplify_eq|].
    destruct (truncate_chain _ chain). by simplify_eq.
  - intros r Hne. unfold gc_chain in Hgc. rewrite Hch in Hgc. destruct (negb _ && _).
    + simplify_eq. simpl. by rewrite lookup_delete_ne.
    + destruct (truncate_chain _ chain). simplify_eq. simpl. by rewrite lookup_insert_ne.
  - exists C. split; [done|]. pose proof (inv_gc_slot _ a rid meta d st HI Hx) as HI'.
    simpl in HI'. by rewrite Hgc in HI'.
Qed.

(** ** Every step is a step of the machine, or none *)

Lemma csim_read c a rid x :
  csim c a -> row_at c rid x ->
  match ss_read rid (c_store c) with
  | (Ok y, s') => y = x /\ csim (mkConf s' (c_mgr c) (c_txns c) (c_commit c) (c_gc c) (c_stuck c)) a
  | (Err _, s') => csim (mkConf s' (c_mgr c) (c_txns c) (c_commit c) (c_gc c) (c_stuck c)) a
  | (Panic, _) => False
  end.
Proof.
  intros HS Hrow. destruct (csim_row _ _ _ _ HS Hrow) as (C & HC & Hx & HI).
  pose proof (ss_read_law (c_store c) C rid x HC Hx) as Hl.
  destruct (ss_read rid (c_store c)) as [[y|e|] s'] eqn:Hr; [| |done].
  - destruct Hl as [-> HC']. split; [done|]. by exists C.
  - by exists C.
Qed.

Lemma csim_taint c a id t :
  csim c a -> c_txns c !! id = Some t -> idle c id ->
  exists a', rtc snap_step a a' /\ csim (after c id (c_store c, (c_mgr c, Transaction.set_tainted t))) a' /\
    same_but id a a' /\ forall rid, snap_read a' id rid = snap_read a id rid.
Proof.
  intros (C & HC & HI) Ht Hidle. unfold Transaction.set_tainted. case_decide as Hrun.
  - assert (Ha : is_active t = true) by (unfold is_active; apply bool_decide_true; auto).
    destruct (inv_active _ _ _ _ HI Ht Ha) as (_ & _ & _ & x & Hax & _).
    exists (put_txn id (mkSnapTxn (a_read x) (a_writes x) false) a). split_and!; try done.
    + apply rtc_once. by apply snap_taint.
    + exists C. split; [done|].
      apply (inv_txn_step _ a id t (Transaction.with_state Tainted t) x (c_mgr c) HI Ht Ha Hax); try done.
      by apply (commit_ok_other _ _ _ HI).
    + apply same_but_put.
    + intros rid. unfold snap_read. simpl. by rewrite lookup_insert_eq, Hax.
  - exists a. split_and!; [done| |done..]. apply csim_same; [by exists C|done..].
Qed.

Lemma log_end_fields t m :
  same_clocks m (log_end t m) /\ versions (log_end t m) = versions m.
Proof using. unfold log_end. by destruct (logged_writes t). Qed.

Lemma publish_ok c a id t x :
  csim c a -> c_txns c !! id = Some t -> c_commit c = Some (id, dom (write_set t)) ->
  s_active a !! id = Some x ->
  csim (with_commit None (after c id (c_store c,
      (unregister t (log_end t (with_last_commit_ts (last_commit_ts (c_mgr c) + 1) (c_mgr c))),
       Transaction.finish Committed (Some (last_commit_ts (c_mgr c) + 1)) t))))
    (mkSnap (s_now a + 1) (push_all (s_now a + 1) (a_writes x) (s_hist a)) (base.delete id (s_active a))).
Proof.
  intros (C & HC & HI) Ht Hcm Hax. exists C. split; [done|]. unfold with_commit, after. simpl.
  pose proof (ck_now _ _ _ _ (inv_clocks _ _ HI)) as Hnow. simpl in Hnow.
  pose proof (inv_txns _ _ HI id) as Htx. simpl in Htx. rewrite Ht in Htx. destruct Htx as (Hid & _).
  set (m1 := with_last_commit_ts (last_commit_ts (c_mgr c) + 1) (c_mgr c)).
  destruct (log_end_fields t m1) as ((E1 & E2 & E3) & E4).
  apply (inv_publish _ a id t x _ (log_end t m1) HI Hcm Ht Hax); try done; rewrite ?E1, ?E2, ?E3, ?E4; try done.
  simpl. by rewrite Hnow.
Qed.

(** A commit that leaves slots stamped. *)
Lemma stuck_ok c a id t dn :
  csim c a -> c_txns c !! id = Some t -> c_commit c = Some (id, dn) ->
  exists x, s_active a !! id = Some x /\ a_ok x = true /\
    csim (leave_stamps id (after c id (c_store c, (c_mgr c, Transaction.set_tainted t)))) (snap_left id x dn a).
Proof.
  intros (C & HC & HI) Ht Hcm.
  destruct (committing_txn _ _ _ _ HI Hcm) as (_ & t0 & x & Ht0 & Hrun & Ha & _ & Hx). simpl in Ht0.
  assert (t0 = t) as -> by congruence. exists x. split_and!; [done| |].
  - destruct (inv_active _ _ _ _ HI Ht Ha) as (_ & _ & _ & x0 & Hx0 & _ & Hok & _).
    assert (x0 = x) as -> by congruence. rewrite Hok. by apply bool_decide_true.
  - exists C. split; [done|]. exact (inv_stuck _ a id t x dn HI Hcm Ht Hx).
Qed.

Lemma end_ok c a id t t' m0 :
  csim c a -> c_txns c !! id = Some t -> is_active t = true -> is_active t' = false ->
  txn_id t' = txn_id t -> read_ts t' = read_ts t -> write_set t = ∅ -> idle c id ->
  same_clocks (c_mgr c) m0 -> versions m0 = versions (c_mgr c) ->
  csim (after c id (c_store c, (unregister t m0, t'))) (drop_txn id a) /\ snap_step a (drop_txn id a).
Proof.
  intros (C & HC & HI) Ht Ha Ha' Hid Hr Hw Hidle Hsc Hv.
  destruct (inv_active _ _ _ _ HI Ht Ha) as (Hid0 & _ & _ & x & Hax & _ & _ & Hdom). split.
  - exists C. split; [done|].
    apply (inv_end _ a id t t' m0 HI Ht Ha Ha'); try done. congruence.
  - eapply snap_end; [exact Hax|]. apply map_empty. intros rid. apply (proj1 Hdom). by rewrite Hw.
Qed.

Lemma step_sim c c' a : csim c a -> step c c' -> exists a', rtc snap_step a a' /\ csim c' a'.
Proof.
  intros HS Hst. pose proof HS as (C & HC & HI).
  assert (Hrun : forall t, state t = Running -> is_active t = true).
  { intros t E. unfold is_active. apply bool_decide_true. auto. }
  assert (Htnt : forall t, state t = Tainted -> is_active t = true).
  { intros t E. unfold is_active. apply bool_decide_true. auto. }
  destruct Hst as [level t m' Hlt Hb|rid x r s' Hrow Hr|id t r s' Ht Ha Hr
    |id t rid x new r s' Ht Ha Hid Hrow Hnew Hr|id t data r s' Ht Ha Hid Hb Hr|id t Ht Hid
    |id t Ht Hst Hcm Hlt|id t dn rid r s' Ht Hcm Hin Hni Hr|id t dn rid r s' Ht Hcm Hin Hr|id Hcm|id t dn Ht Hcm Hdn
    |id t cts Ht Hcm ->|id t Ht Hst Hw Hid|id t rid p r s' Ht Hst Hcm Hp Hr|id t Ht Hst Hw Hcm
    | |rid st r s' m' Hv Hr].
  - pose proof (inv_begin _ a level HI Hlt) as Hbg. cbn [y_mgr] in Hbg. rewrite Hb in Hbg.
    destruct Hbg as [Hn HI']. eexists. split; [by apply rtc_once, snap_begin|]. by exists C.
  - exists a. split; [done|]. pose proof (csim_read c a rid x HS Hrow) as Hs. rewrite Hr in Hs.
    destruct r; [by destruct Hs|done|done].
  - destruct (first_write_ok c a id t HS Ht Ha) as (m' & t' & Hr' & _ & _ & _ & _ & HS'). exists a. split; [done|]. rewrite Hr in Hr'. by injection Hr' as _ ->.
  - destruct x as [meta d]. pose proof (write_version_ok c a id t rid meta d new HS Ht Ha Hid Hrow Hnew) as Hw.
    rewrite Hr in Hw. destruct r as [[]|e|]; [| |done].
    + destruct Hw as (_ & x & _ & _ & Hstep & HS'). eauto using rtc_once.
    + destruct Hw as (_ & HS' & _). by exists a.
  - pose proof (insert_version_ok c a id t data HS Ht Ha Hid Hb) as Hi. rewrite Hr in Hi.
    destruct r as [rid|e|]; [| |done].
    + destruct Hi as (_ & x & _ & Hstep & _ & _ & HS'). eauto using rtc_once.
    + destruct Hi as (_ & HS' & _). by exists a.
  - destruct (csim_taint c a id t HS Ht Hid) as (a' & ? & ? & _). eauto.
  - exists a. split; [done|]. exists C. split; [done|].
    apply (inv_commit_begin _ a id t HI); try done. simpl.
    pose proof (ck_now _ _ _ _ (inv_clocks _ _ HI)) as Hnow. simpl in Hnow. lia.
  - exists a. split; [done|]. pose proof (stamp_step_ok c a id t dn rid HS Ht Hcm Hin Hni) as Hs.
    rewrite Hr in Hs. destruct r as [[]|e|]; [by destruct Hs| |done]. destruct Hs as (_ & Hs & _).
    unfold with_commit. simpl. rewrite <- Hcm. exact Hs.
  - exists a. split; [done|]. pose proof (unstamp_step_ok c a id t dn rid HS Ht Hcm Hin) as Hs.
    rewrite Hr in Hs. destruct r as [[]|e|]; [by destruct Hs| |done]. destruct Hs as (_ & Hs & _).
    unfold with_commit. simpl. rewrite <- Hcm. exact Hs.
  - exists a. split; [done|]. exists C. split; [done|]. by apply (inv_commit_empty _ a id HI).
  - destruct (stuck_ok c a id t dn HS Ht Hcm) as (x & Hx & Hok & HS'). eexists. split; [|exact HS'].
    by apply rtc_once, snap_leave.
  - pose proof (inv_commit _ _ HI) as Hok. unfold commit_ok in Hok. simpl in Hok. rewrite Hcm in Hok.
    destruct Hok as (_ & t0 & Ht0 & Hst & _). assert (t0 = t) as -> by congruence.
    destruct (inv_active _ _ _ _ HI Ht (Hrun t Hst)) as (_ & _ & _ & x & Hax & _ & Haok & _).
    eexists. split; [apply rtc_once; eapply snap_commit; [exact Hax|]|by apply publish_ok].
    rewrite Haok. by apply bool_decide_true.
  - destruct (end_ok c a id t (Transaction.finish Committed (Some (last_commit_ts (c_mgr c))) t) (c_mgr c) HS Ht)
      as [HS' Hstep]; try done; [by apply Hrun|]. eauto using rtc_once.
  - pose proof (rollback_ok c a id t rid p HS Ht (Htnt t Hst) ltac:(unfold idle; by rewrite Hcm) Hp) as Hb.
    rewrite Hr in Hb. destruct r as [[]|e|]; [| |done].
    + destruct Hb as (x & Hax & _ & _ & HS' & _). eexists. split; [|exact HS'].
      apply rtc_once, snap_undo; [done|].
      destruct (inv_active _ _ _ _ HI Ht (Htnt t Hst)) as (_ & _ & _ & x0 & Hx0 & _ & Haok & _).
      assert (x0 = x) as -> by congruence. rewrite Haok. apply bool_decide_false. congruence.
    + destruct Hb as (_ & HS' & _). by exists a.
  - destruct (log_end_fields t (c_mgr c)) as [Hsc Hv].
    destruct (end_ok c a id t (Transaction.finish Aborted None t) (log_end t (c_mgr c)) HS Ht) as [HS' Hstep];
      try done; [by apply Htnt|unfold idle; by rewrite Hcm|]. eauto using rtc_once.
  - exists a. split; [done|]. exists C. split; [done|]. exact (inv_gc_start _ a HI).
  - exists a. split; [done|]. pose proof (gc_slot_ok c a rid st HS Hv) as Hg. rewrite Hr in Hg.
    destruct r; [by destruct Hg as (_ & _ & _ & ?)|by destruct Hg as (_ & ? & _)|done].
Qed.

End steps.
