(* ===== verification/MvccOps.v ===== *)
(** * The operations of the transaction layer are sequences of its steps

    [commit], [abort] and [garbage_collect], run to their end, are runs of the steps of
    [MvccSteps], so everything that holds of all interleavings of steps holds while they run. *)

From Stdlib Require Import ZArith Lia.
From stdpp Require Import base gmap list numbers option relations.
From S2P Require Import Prelude Bytes Ids Buf TablePage TablePageProofs TableHeap SlotStore.
From S2P Require Import Transaction TxnManager Mvcc MvccSpec MvccInv MvccSteps.
Import TxnManager Mvcc.

Local Open Scope Z_scope.

Section ops.
Context {S BE IE : Type} `{Laws : SlotStoreLaws S BE} `{Order : !MapOrder RecordId}.

Abbreviation cf := (conf S).
Abbreviation steps := (rtc (step (S := S) (BE := BE) (IE := IE))).

Lemma after_id (c : cf) id t : c_txns c !! id = Some t -> after c id (txn_state c t) = c.
Proof using. intros Ht. destruct c. unfold after, txn_state. simpl in *. by rewrite insert_id. Qed.

Lemma after_lookup (c : cf) id s : c_txns (after c id s) !! id = Some s.2.2.
Proof using. apply lookup_insert_eq. Qed.

Lemma catch_Ok {A} (m : M (S * (TxnManager * Transaction)) (TxnError BE) A) s a s' :
  m s = (Ok a, s') -> catch m s = (Ok (inl a), s').
Proof using. unfold catch. by intros ->. Qed.

Lemma catch_Err {A} (m : M (S * (TxnManager * Transaction)) (TxnError BE) A) s e s' :
  m s = (Err e, s') -> catch m s = (Ok (inr e), s').
Proof using. unfold catch. by intros ->. Qed.

(** The conf after a slot operation that left manager and transaction alone. *)
Definition restored (c : cf) (s : S) : cf := mkConf s (c_mgr c) (c_txns c) (c_commit c) (c_gc c) (c_stuck c).

Lemma after_restored (c : cf) id t s :
  c_txns c !! id = Some t -> after c id (s, (c_mgr c, t)) = restored c s.
Proof using. intros Ht. unfold after, restored. simpl. by rewrite insert_id. Qed.

(** ** Commit *)

(** What a commit leaves that could not un-stamp a slot: some rows stamped with the timestamp
    it did not publish, and the transaction tainted. *)
Definition commit_stuck (c : cf) (a : snap) (id : TxnId) (t : Transaction) (s : S * (TxnManager * Transaction)) : Prop :=
  s.2 = (c_mgr c, Transaction.set_tainted t) /\ steps c (leave_stamps id (after c id s)) /\
  exists x dn, s_active a !! id = Some x /\ dn <> ∅ /\ dn ⊆ dom (write_set t) /\
    csim (leave_stamps id (after c id s)) (snap_left id x dn a).

(** Un-stamping gives every slot back, or the error names the one it could not. *)
Lemma unstamp_steps a id t cause done : forall c,
  csim c a -> c_txns c !! id = Some t -> c_commit c = Some (id, list_to_set done) -> NoDup done ->
  match unstamp done (last_commit_ts (c_mgr c) + 1) id cause (txn_state c t) with
  | (Ok _, s') => s'.2 = (c_mgr c, t) /\ steps c (with_commit (Some (id, ∅)) (after c id s')) /\
      csim (with_commit (Some (id, ∅)) (after c id s')) a
  | (Err e, s') => (exists rid undo, e = CommitNotUndone cause rid undo) /\ commit_stuck c a id t s'
  | (Panic, _) => False
  end.
Proof.
  induction done as [|rid done IH]; intros c HS Ht Hcm Hnd.
  { cbn. split; [done|]. assert (E : with_commit (Some (id, ∅)) (after c id (txn_state c t)) = c).
    { rewrite after_id by done. unfold with_commit. destruct c. simpl in *. by rewrite Hcm. }
    rewrite E. done. }
  apply list.NoDup_cons in Hnd as [Hni Hnd]. cbn [unstamp].
  pose proof (unstamp_step_ok c a id t (list_to_set (rid :: done)) rid HS Ht Hcm ltac:(set_solver)) as Hs.
  destruct (stamp rid (last_commit_ts (c_mgr c) + 1) id (txn_state c t)) as [[[]|e|] s1] eqn:Hst; [| |done].
  2:{ erewrite bind_Ok by by apply catch_Err. cbv beta match. erewrite bind_Ok by done. cbn. split; [eauto|].
      destruct Hs as (Hw & HS1 & _). destruct s1 as [s1 w1]. simpl in Hw. subst w1. rewrite after_restored in HS1 by done.
      assert (Hstep : step (IE := IE) c (restored c s1)).
      { pose proof (step_unstamp (IE := IE) c id t (list_to_set (rid :: done)) rid (Err e) _ Ht Hcm ltac:(set_solver) Hst) as Hu.
        cbn [is_ok] in Hu. rewrite after_restored in Hu by done.
        rewrite <- Hcm in Hu. exact Hu. }
      destruct (stuck_ok (restored c s1) a id t _ HS1 Ht Hcm) as (x & Hx & _ & HS2).
      assert (Hsub : list_to_set (rid :: done) ⊆ dom (write_set t)).
      { destruct HS as (C & _ & HI). destruct (committing_txn _ _ _ _ HI Hcm) as (_ & t0 & _ & Ht0 & _ & _ & Hsub & _).
        simpl in Ht0. by assert (t0 = t) as -> by congruence. }
      split_and!; [done| |exists x, (list_to_set (rid :: done)); split_and!; try done; simpl; set_solver].
      eapply rtc_l; [exact Hstep|]. apply rtc_once.
      apply (step_commit_stuck (restored c s1) id t _ Ht Hcm). simpl. set_solver. }
  erewrite bind_Ok by by apply catch_Ok. cbv beta match. destruct Hs as [Hw HS1].
  destruct s1 as [s1 w1]. simpl in Hw. subst w1.
  assert (Hset : list_to_set (rid :: done) ∖ {[rid]} = (list_to_set done : gset RecordId)).
  { simpl. set_solver. }
  rewrite Hset in HS1. set (c1 := with_commit _ _) in HS1.
  assert (Ht1 : c_txns c1 !! id = Some t) by apply lookup_insert_eq.
  specialize (IH c1 HS1 Ht1 eq_refl Hnd). unfold txn_state in IH. simpl in IH.
  assert (Hstep : step (IE := IE) c c1).
  { pose proof (step_unstamp (IE := IE) c id t _ rid (Ok tt) _ Ht Hcm ltac:(set_solver) Hst) as Hu.
    cbn [is_ok] in Hu. by rewrite Hset in Hu. }
  assert (E : forall s2, with_commit (Some (id, ∅)) (after c1 id s2) = with_commit (Some (id, ∅)) (after c id s2)).
  { intros s2. unfold with_commit, after, c1. simpl. by rewrite insert_insert_eq. }
  assert (E' : forall s2, leave_stamps id (after c1 id s2) = leave_stamps id (after c id s2)).
  { intros s2. unfold leave_stamps, after, c1. simpl. by rewrite insert_insert_eq. }
  destruct (unstamp done _ id cause (s1, (c_mgr c, t))) as [[[]|e|] s2]; [| |done].
  2:{ destruct IH as (He & Hw2 & Hsteps & Hend). split; [done|]. rewrite E' in Hsteps, Hend.
      split_and!; [done|by eapply rtc_l|done]. }
  destruct IH as (Hw2 & Hsteps & HS2). rewrite E in Hsteps, HS2. split_and!; [done|by eapply rtc_l|done].
Qed.

(** What a commit that failed leaves: nothing stamped and the transaction tainted, unless its
    error says otherwise. *)
Definition commit_failed (c : cf) (a : snap) (id : TxnId) (t : Transaction) (e : TxnError BE)
    (s : S * (TxnManager * Transaction)) : Prop :=
  (exists cause rid undo, e = CommitNotUndone cause rid undo) /\ commit_stuck c a id t s \/
  (exists e', e = Storage e') /\ s.2 = (c_mgr c, Transaction.set_tainted t) /\
  steps c (with_commit None (after c id s)) /\
  exists a', csim (with_commit None (after c id s)) a' /\ same_but id a a' /\
    forall rid, snap_read a' id rid = snap_read a id rid.

(** A slot that could not be stamped. *)
Lemma stamp_failed_steps a id t done rid e s1 : forall c,
  csim c a -> c_txns c !! id = Some t -> c_commit c = Some (id, list_to_set done) -> NoDup done ->
  rid ∈ dom (write_set t) -> rid ∉ done ->
  stamp rid id (last_commit_ts (c_mgr c) + 1) (txn_state c t) = (Err e, s1) ->
  match (_ ← unstamp done (last_commit_ts (c_mgr c) + 1) id e;
         _ ← set_txn Transaction.set_tainted; liftc (A := unit) (Err e)) s1 with
  | (Err e, s') => commit_failed c a id t e s'
  | _ => False
  end.
Proof.
  intros c HS Ht Hcm Hnd Hin Hni Hst.
  pose proof (stamp_step_ok c a id t _ rid HS Ht Hcm Hin ltac:(set_solver)) as Hs. rewrite Hst in Hs.
  destruct Hs as (Hw & HS1 & He). destruct s1 as [s1 w1]. simpl in Hw. subst w1.
  rewrite after_restored in HS1 by done.
  assert (Hstep : step (IE := IE) c (restored c s1)).
  { pose proof (step_stamp (IE := IE) c id t _ rid (Err e) _ Ht Hcm Hin ltac:(set_solver) Hst) as Hu.
    cbn [is_ok] in Hu. rewrite after_restored in Hu by done.
    unfold with_commit, restored in *. simpl in Hu. by rewrite <- Hcm in Hu. }
  pose proof (unstamp_steps a id t e done (restored c s1) HS1 Ht Hcm Hnd) as Hun.
  unfold txn_state in Hun. simpl in Hun.
  destruct (unstamp done _ id e (s1, (c_mgr c, t))) as [[[]|e2|] s2] eqn:Hu; [| |done].
  2:{ erewrite bind_Err by exact Hu. destruct Hun as ((rid' & undo & ->) & Hw2 & Hsteps & Hend). left.
      split; [eauto|]. unfold commit_stuck, after, restored in *. simpl in *.
      split_and!; [done|by eapply rtc_l|done]. }
  destruct Hun as (Hw2 & Hsteps & HS2). erewrite bind_Ok by exact Hu. erewrite bind_Ok by done. cbn.
  destruct s2 as [s2 w2]. simpl in Hw2. subst w2. right.
  set (c2 := with_commit None (after (restored c s1) id (s2, (c_mgr c, t)))).
  assert (Ht2 : c_txns c2 !! id = Some t) by apply lookup_insert_eq.
  assert (HSe : csim c2 a).
  { destruct HS2 as (C & HC & HI). exists C. split; [done|]. by apply (inv_commit_empty _ a id HI). }
  pose proof (step_taint (IE := IE) c2 id t Ht2 ltac:(by intros dn)) as Hta.
  destruct (csim_taint c2 a id t HSe Ht2 ltac:(by intros dn)) as (a' & _ & HS' & Hsb & Hsr).
  unfold c2, with_commit, after, restored in *. simpl in *. rewrite insert_insert_eq in Hta, HS'.
  split_and!; try done; [|by exists a'].
  eapply rtc_l; [exact Hstep|]. etrans; [exact Hsteps|].
  eapply rtc_l; [by apply (step_commit_failed _ id)|]. by apply rtc_once.
Qed.

(** The stamping loop of a commit. *)
Lemma stamp_all_steps a id t rids : forall done c,
  csim c a -> c_txns c !! id = Some t -> c_commit c = Some (id, list_to_set done) -> NoDup (done ++ rids) ->
  list_to_set (done ++ rids) = dom (write_set t) ->
  match stamp_all done rids (last_commit_ts (c_mgr c) + 1) id (txn_state c t) with
  | (Ok _, s') => s'.2 = (c_mgr c, t) /\
      steps c (with_commit (Some (id, dom (write_set t))) (after c id s')) /\
      csim (with_commit (Some (id, dom (write_set t))) (after c id s')) a
  | (Err e, s') => commit_failed c a id t e s'
  | (Panic, _) => False
  end.
Proof.
  induction rids as [|rid rids IH]; intros done c HS Ht Hcm Hnd Hall.
  { cbn. rewrite app_nil_r in Hall.
    assert (E : with_commit (Some (id, dom (write_set t))) (after c id (txn_state c t)) = c).
    { rewrite after_id by done. unfold with_commit. destruct c. simpl in *. by rewrite Hcm, Hall. }
    rewrite E. done. }
  assert (Hin : rid ∈ dom (write_set t)) by (rewrite <- Hall; set_solver).
  assert (Hnd' : NoDup done /\ rid ∉ done).
  { apply list.NoDup_app in Hnd as (? & Hd & _). split; [done|]. intros Hr. apply (Hd rid Hr). set_solver. }
  destruct Hnd' as [Hnd1 Hni]. cbn [stamp_all].
  pose proof (stamp_step_ok c a id t _ rid HS Ht Hcm Hin ltac:(set_solver)) as Hs.
  destruct (stamp rid id (last_commit_ts (c_mgr c) + 1) (txn_state c t)) as [[[]|e|] s1] eqn:Hst; [| |done].
  2:{ erewrite bind_Ok by by apply catch_Err. cbv beta match.
      pose proof (stamp_failed_steps a id t done rid e s1 c HS Ht Hcm Hnd1 Hin Hni Hst) as Hf.
      revert Hf. by match goal with |- (let (_, _) := ?x in _) -> _ => destruct x as [[[]|e2|] s2] end. }
  erewrite bind_Ok by by apply catch_Ok. cbv beta match. destruct Hs as [Hw HS1].
  destruct s1 as [s1 w1]. simpl in Hw. subst w1.
  assert (Hset : {[rid]} ∪ list_to_set done = (list_to_set (done ++ [rid]) : gset RecordId)) by set_solver.
  rewrite Hset in HS1. set (c1 := with_commit _ _) in HS1.
  assert (Ht1 : c_txns c1 !! id = Some t) by apply lookup_insert_eq.
  specialize (IH (done ++ [rid]) c1 HS1 Ht1 eq_refl). rewrite <- app_assoc in IH.
  specialize (IH Hnd Hall). unfold txn_state in IH. simpl in IH.
  assert (Hstep : step (IE := IE) c c1).
  { pose proof (step_stamp (IE := IE) c id t _ rid (Ok tt) _ Ht Hcm Hin ltac:(set_solver) Hst) as Hu.
    cbn [is_ok] in Hu. by rewrite Hset in Hu. }
  assert (E : forall cm s, with_commit cm (after c1 id s) = with_commit cm (after c id s)).
  { intros. unfold with_commit, after, c1. simpl. by rewrite insert_insert_eq. }
  assert (E' : forall s2, leave_stamps id (after c1 id s2) = leave_stamps id (after c id s2)).
  { intros s2. unfold leave_stamps, after, c1. simpl. by rewrite insert_insert_eq. }
  destruct (stamp_all _ rids _ id (s1, (c_mgr c, t))) as [[[]|e|] s2]; [| |done].
  - destruct IH as (Hw2 & Hsteps & HS2). rewrite E in Hsteps, HS2. split_and!; [done|by eapply rtc_l|done].
  - destruct IH as [(He & Hw2 & Hsteps & Hend)|(He & Hw2 & Hsteps & Hend)]; [left|right].
    + rewrite E' in Hsteps, Hend. split; [done|]. split_and!; [done|by eapply rtc_l|done].
    + rewrite E in Hsteps, Hend. split_and!; [done..|by eapply rtc_l|done].
Qed.

(** The machine after a commit. *)
Definition snap_committed (a : snap) (id : TxnId) (x : snap_txn) : snap :=
  mkSnap (s_now a + 1) (push_all (s_now a + 1) (a_writes x) (s_hist a)) (base.delete id (s_active a)).

Lemma entries_nil {A} (m : gmap RecordId A) : (map_entries m).*1 = [] <-> m = ∅.
Proof using.
  pose proof (map_entries_perm A m) as Hp. split.
  - intros E. apply fmap_nil_inv in E. rewrite E in Hp. apply Permutation_nil_l in Hp.
    by apply map_to_list_empty_iff.
  - intros ->. rewrite map_to_list_empty in Hp. apply Permutation_nil_r in Hp. by rewrite Hp.
Qed.

Lemma entries_set (m : gmap RecordId bool) :
  NoDup (map_entries m).*1 /\ list_to_set (map_entries m).*1 = dom m.
Proof using.
  pose proof (map_entries_perm bool m) as Hp. split.
  - rewrite Hp. apply NoDup_fst_map_to_list.
  - apply set_eq. intros r. rewrite Hp, elem_of_list_to_set, elem_of_dom, list_elem_of_fmap. split.
    + intros ([r' p] & -> & Hin%elem_of_map_to_list). eauto.
    + intros [p Hr]. exists (r, p). split; [done|]. by apply elem_of_map_to_list.
Qed.

Lemma commit_steps c a id t :
  csim c a -> c_txns c !! id = Some t -> c_commit c = None ->
  last_commit_ts (c_mgr c) + 1 < TXN_START_ID ->
  match commit (txn_state c t) with
  | (Ok cts, s') => state t = Running /\ s'.2.2 = Transaction.finish Committed (Some cts) t /\
      steps c (after c id s') /\
      if decide (write_set t = ∅) then cts = s_now a /\ csim (after c id s') (drop_txn id a)
      else cts = s_now a + 1 /\ exists x, s_active a !! id = Some x /\
        csim (after c id s') (snap_committed a id x)
  | (Err e, s') =>
      state t <> Running /\ e = InvalidState (state t) /\ s' = txn_state c t \/
      state t = Running /\ commit_failed c a id t e s'
  | (Panic, _) => False
  end.
Proof.
  intros HS Ht Hcm Hmax. pose proof HS as (C & HC & HI).
  pose proof (ck_now _ _ _ _ (inv_clocks _ _ HI)) as Hnow. simpl in Hnow.
  unfold commit, txn_state. erewrite bind_Ok by done. cbn [snd]. cbv beta match.
  destruct (decide (state t = Running)) as [Hrun|Hrun].
  2:{ rewrite bool_decide_false by done. cbn. by left. }
  rewrite bool_decide_true by done. cbn [negb]. cbv match.
  assert (Ha : is_active t = true) by (unfold is_active; apply bool_decide_true; auto).
  assert (Hidle : idle c id) by (intros dn; by rewrite Hcm).
  destruct (inv_active _ _ _ _ HI Ht Ha) as (Hid & _ & _ & x & Hax & _).
  destruct (decide (write_set t = ∅)) as [Hw|Hw].
  { rewrite bool_decide_true by by apply entries_nil. cbn. split; [done|]. split; [done|].
    assert (Hstep : step (IE := IE) c _) by by apply (step_end_read_only c id t). split; [by apply rtc_once|].
    split; [done|].
    by destruct (end_ok c a id t (Transaction.finish Committed (Some (last_commit_ts (c_mgr c))) t)
      (c_mgr c) HS Ht Ha) as [HS' _]. }
  rewrite bool_decide_false by by rewrite entries_nil.
  assert (Hadd : add_u64 (E := TxnError BE) (last_commit_ts (c_mgr c)) 1 = Ok (last_commit_ts (c_mgr c) + 1)).
  { unfold add_u64. rewrite (proj2 (Z.leb_le _ _)); [done|]. unfold TXN_START_ID, u64_max in *. lia. }
  erewrite bind_liftc by exact Hadd. rewrite Hid.
  set (c0 := with_commit (Some (id, ∅)) c).
  assert (Hs0 : step (IE := IE) c c0) by by eapply step_commit_begin.
  assert (HS0 : csim c0 a).
  { exists C. split; [done|]. apply (inv_commit_begin _ a id t HI); try done. simpl. lia. }
  destruct (entries_set (write_set t)) as [Hnd Hall].
  pose proof (stamp_all_steps a id t (map_entries (write_set t)).*1 [] c0 HS0 Ht eq_refl Hnd Hall) as Hst.
  unfold txn_state in Hst. simpl in Hst.
  assert (E : forall cm s, with_commit cm (after c0 id s) = with_commit cm (after c id s)) by done.
  destruct (stamp_all [] _ _ id (c_store c, (c_mgr c, t))) as [[[]|e|] s1] eqn:Hrun1; [| |done].
  - destruct Hst as (Hw1 & Hsteps & HS1). destruct s1 as [s1 w1]. simpl in Hw1. subst w1.
    erewrite bind_Ok by exact Hrun1. cbn. rewrite E in Hsteps, HS1.
    set (c1 := with_commit (Some (id, dom (write_set t))) (after c id (s1, (c_mgr c, t)))) in *.
    assert (Ht1 : c_txns c1 !! id = Some t) by apply lookup_insert_eq.
    pose proof (step_publish (IE := IE) c1 id t (last_commit_ts (c_mgr c) + 1) Ht1 eq_refl eq_refl) as Hpub.
    pose proof (publish_ok c1 a id t x HS1 Ht1 eq_refl Hax) as HS2.
    unfold c1, with_commit, after in Hpub, HS2. simpl in Hpub, HS2. rewrite insert_insert_eq in Hpub, HS2.
    unfold after. simpl. rewrite Hcm. split_and!; [done|done| |lia|exists x; done].
    eapply rtc_l; [exact Hs0|]. eapply rtc_r; [exact Hsteps|exact Hpub].
  - erewrite bind_Err by exact Hrun1. right. split; [done|].
    destruct Hst as [(He & Hw1 & Hsteps & Hend)|(He & Hw1 & Hsteps & Hend)]; [left|right].
    + change (leave_stamps id (after c0 id s1)) with (leave_stamps id (after c id s1)) in Hsteps, Hend.
      split; [done|]. split_and!; [done|by eapply rtc_l|done].
    + rewrite E in Hsteps, Hend. split_and!; [done..|by eapply rtc_l|done].
Qed.

(** ** Abort *)

Lemma rolled_back_refl c a : csim c a -> rolled_back ∅ c c.
Proof. intros (C & HC & _). by apply (rolled_back_none c c C). Qed.

(** What refuses a rollback was there before other rows were rolled back. *)
Lemma refused_before ws c c1 id rid e :
  rolled_back ws c c1 -> c_stuck c1 = c_stuck c -> ws !! rid = None ->
  rollback_refused c1 id rid e -> rollback_refused c id rid e.
Proof.
  intros (C & C1 & HC & HC1 & Hall) Hs Hn [?|(Hin & x & (C1' & HC1' & Hx) & Hne & ->)]; [by left|right].
  rewrite <- Hs. split; [done|]. exists x. split_and!; [|done..]. exists C. split; [done|].
  rewrite (store_is_fun _ _ _ HC1' HC1) in Hx. specialize (Hall rid). rewrite Hn in Hall. by destruct Hall as [<- _].
Qed.

(** The writes that are left after the first one, and those that are done. *)
Lemma popped_writes (m w : gmap RecordId bool) rid p :
  m !! rid = Some p -> w ⊆ base.delete rid m ->
  {[rid := p]} ##ₘ base.delete rid m ∖ w /\ {[rid := p]} ∪ base.delete rid m ∖ w = m ∖ w.
Proof using.
  intros Hm Hsub. assert (Hw : w !! rid = None) by exact (lookup_weaken_None _ _ _ (lookup_delete_eq m rid) Hsub). split.
  - apply map_disjoint_singleton_l_2. by rewrite lookup_difference, lookup_delete_eq, Hw.
  - apply map_eq. intros r. destruct (decide (r = rid)) as [->|Hr].
    + rewrite (lookup_union_Some_l _ _ _ p) by apply lookup_singleton_eq. by rewrite lookup_difference, Hw, Hm.
    + rewrite lookup_union_r by by rewrite lookup_singleton_ne. by rewrite !lookup_difference, lookup_delete_ne.
Qed.

Lemma rest_of_writes writes (m : gmap RecordId bool) rid p :
  rid ∉ writes.*1 -> (forall r q, (r, q) ∈ (rid, p) :: writes <-> m !! r = Some q) ->
  forall r q, (r, q) ∈ writes <-> base.delete rid m !! r = Some q.
Proof using.
  intros Hni Hws r q. destruct (decide (r = rid)) as [->|Hne].
  - rewrite lookup_delete_eq. split; [|done]. intros Hin. destruct Hni. apply list_elem_of_fmap. by exists (rid, q).
  - rewrite lookup_delete_ne by done. rewrite <- Hws, list.elem_of_cons. naive_solver.
Qed.

(** The loop of an abort. A failure leaves the writes not yet rolled back to the next try. *)
Lemma rollback_all_steps id writes : forall c a t,
  csim c a -> c_txns c !! id = Some t -> state t = Tainted -> c_commit c = None -> NoDup writes.*1 ->
  (forall rid p, (rid, p) ∈ writes <-> write_set t !! rid = Some p) ->
  match rollback_all writes id (txn_state c t) with
  | (Ok _, s') => s'.2.2 = Transaction.with_writes ∅ t /\ same_clocks (c_mgr c) s'.2.1 /\
      steps c (after c id s') /\ rolled_back (write_set t) c (after c id s') /\
      exists a', csim (after c id s') a' /\ same_but id a a'
  | (Err e, s') => (exists rid, is_Some (write_set t !! rid) /\ rollback_refused c id rid e) /\ steps c (after c id s') /\
      (exists w, w ⊆ write_set t /\ s'.2.2 = Transaction.with_writes w t /\
        rolled_back (write_set t ∖ w) c (after c id s')) /\
      exists a', csim (after c id s') a' /\ same_but id a a'
  | (Panic, _) => False
  end.
Proof.
  induction writes as [|[rid p] writes IH]; intros c a t HS Ht Hst Hcm Hnd Hws.
  { assert (E : write_set t = ∅).
    { apply map_empty. intros r. destruct (write_set t !! r) as [q|] eqn:Hr; [|done].
      apply Hws in Hr. set_solver. }
    cbn. rewrite after_id by done. split_and!; try done; [|rewrite E; by eapply rolled_back_refl|by exists a].
    destruct t. unfold Transaction.with_writes. simpl in *. by rewrite E. }
  csimpl in Hnd. apply list.NoDup_cons in Hnd as [Hni Hnd].
  assert (Hp : write_set t !! rid = Some p) by (apply Hws; constructor).
  assert (Ha : is_active t = true) by (unfold is_active; apply bool_decide_true; auto).
  assert (Hidle : idle c id) by (intros dn; by rewrite Hcm).
  pose proof (rollback_ok c a id t rid p HS Ht Ha Hidle Hp) as Hr.
  assert (Erun : rollback_all ((rid, p) :: writes) id (txn_state c t) =
    (_ ← rollback_one id rid p; rollback_all writes id) (txn_state c t)).
  { unfold rollback_one. cbn [rollback_all]. unfold mbind, M_bind.
    destruct (rollback_write id rid p (txn_state c t)) as [[]]; done. }
  rewrite Erun.
  destruct (rollback_one id rid p (txn_state c t)) as [[[]|e|] s1] eqn:Hone; [| |done].
  2:{ erewrite bind_Err by exact Hone. destruct Hr as (Hw & HS1 & Hrb & He).
      split_and!; [exists rid; rewrite Hp; eauto| | |exists a; done].
      - apply rtc_once. by eapply step_rollback.
      - destruct s1 as [s1 w1]. simpl in Hw. subst w1. exists (write_set t). rewrite map_difference_diag.
        split_and!; [done|by destruct t|done]. }
  erewrite bind_Ok by exact Hone. destruct Hr as (x & Hax & Hw & Hsc & HS1 & Hrb).
  destruct s1 as [s1 [m1 t1]]. simpl in Hw, Hsc. subst t1.
  set (t1 := Transaction.forget_write rid t) in *. set (c1 := after c id (s1, (m1, t1))) in *.
  assert (Ht1 : c_txns c1 !! id = Some t1) by apply lookup_insert_eq.
  specialize (IH c1 _ t1 HS1 Ht1 Hst Hcm Hnd). unfold txn_state in IH. simpl in IH.
  assert (Hstep : step (IE := IE) c c1) by by eapply step_rollback.
  specialize (IH (rest_of_writes writes _ rid p Hni Hws)). unfold c1 in IH.
  pose proof (fun w => popped_writes (write_set t) w rid p Hp) as Hpop.
  destruct (rollback_all writes id (s1, (m1, t1))) as [[[]|e|] s2]; [| |done].
  - destruct IH as (Hw2 & Hsc2 & Hsteps & Hrb2 & a' & HS2 & Hsb). rewrite after_after in Hsteps, HS2, Hrb2.
    destruct (Hpop ∅ ltac:(apply map_empty_subseteq)) as [Hd Hu]. rewrite !(right_id_L ∅ (∖)) in Hu; rewrite (right_id_L ∅ (∖)) in Hd.
    split_and!; [by rewrite Hw2| |by eapply rtc_l|rewrite <- Hu; by eapply rolled_back_trans|].
    + destruct Hsc as (? & ? & ?), Hsc2 as (? & ? & ?). simpl in *. repeat split; congruence.
    + exists a'. split; [done|]. eapply same_but_trans; [apply same_but_put|exact Hsb].
  - destruct IH as (He & Hsteps & (w & Hsub & Hw2 & Hrb2) & a' & HS2 & Hsb). rewrite after_after in Hsteps, HS2, Hrb2.
    destruct (Hpop w Hsub) as [Hd Hu].
    split_and!; [|by eapply rtc_l| |].
    { destruct He as (r & Hr & He). simpl in Hr. exists r.
      assert (Hne : r <> rid) by (intros ->; rewrite lookup_delete_eq in Hr; by destruct Hr).
      rewrite lookup_delete_ne in Hr by done. split; [done|].
      eapply (refused_before {[rid := p]} c); [exact Hrb|done|by apply lookup_singleton_ne|exact He]. }
    { exists w. split_and!; [|by rewrite Hw2|rewrite <- Hu; by eapply rolled_back_trans].
      etrans; [exact Hsub|]. apply delete_subseteq. }
    exists a'. split; [done|]. eapply same_but_trans; [apply same_but_put|exact Hsb].
Qed.

Lemma entries_elem (m : gmap RecordId bool) rid p : (rid, p) ∈ map_entries m <-> m !! rid = Some p.
Proof using. by rewrite map_entries_perm, elem_of_map_to_list. Qed.

Lemma abort_steps c a id t :
  csim c a -> c_txns c !! id = Some t -> c_commit c = None ->
  match abort (txn_state c t) with
  | (Ok _, s') => is_active t = true /\ steps c (after c id s') /\ state s'.2.2 = Aborted /\
      rolled_back (write_set t) c (after c id s') /\
      exists a', csim (after c id s') a' /\ same_but id a a' /\ s_active a' !! id = None
  | (Err e, s') =>
      is_active t = false /\ e = InvalidState (state t) /\ s' = txn_state c t \/
      is_active t = true /\ (exists rid, is_Some (write_set t !! rid) /\ rollback_refused c id rid e) /\
      steps c (after c id s') /\
      (exists w, w ⊆ write_set t /\ s'.2.2 = Transaction.with_writes w (Transaction.set_tainted t) /\
        rolled_back (write_set t ∖ w) c (after c id s')) /\
      exists a', csim (after c id s') a' /\ same_but id a a'
  | (Panic, _) => False
  end.
Proof.
  intros HS Ht Hcm. unfold abort, txn_state. erewrite bind_Ok by done. cbn [snd]. cbv beta match.
  change (bool_decide (state t = Running \/ state t = Tainted)) with (is_active t).
  destruct (is_active t) eqn:Ha; cbn [negb]; cbv match.
  2:{ cbn. by left. }
  assert (Hidle : idle c id) by (intros dn; by rewrite Hcm).
  erewrite bind_Ok by done. cbn [fst snd]. set (t1 := Transaction.set_tainted t).
  assert (Hst : state t1 = Tainted).
  { unfold t1, Transaction.set_tainted, is_active in *. case_decide; [done|].
    apply bool_decide_eq_true in Ha. naive_solver. }
  assert (E1 : txn_id t1 = txn_id t /\ read_ts t1 = read_ts t /\ write_set t1 = write_set t /\
    logged_writes t1 = logged_writes t).
  { unfold t1, Transaction.set_tainted. by case_decide. }
  destruct E1 as (Eid & Eread & Ews & Elog).
  set (c1 := after c id (c_store c, (c_mgr c, t1))).
  destruct (csim_taint c a id t HS Ht Hidle) as (a1 & Hsn & HS1 & Hsb1 & _).
  fold t1 in HS1. fold c1 in HS1.
  pose proof (rollback_all_steps id (map_entries (write_set t)) c1 a1 t1 HS1) as Hrb.
  specialize (Hrb ltac:(apply lookup_insert_eq) Hst Hcm ltac:(apply entries_set)).
  specialize (Hrb ltac:(intros; rewrite Ews; apply entries_elem)).
  unfold txn_state in Hrb. simpl in Hrb.
  assert (Hstep1 : step (IE := IE) c c1) by by apply step_taint.
  pose proof HS as (C & _ & HI). destruct (inv_active _ _ _ _ HI Ht Ha) as (Hid & _). rewrite Hid.
  destruct (rollback_all (map_entries (write_set t)) id (c_store c, (c_mgr c, t1))) as [[[]|e|] s2] eqn:Hr; [| |done].
  2:{ erewrite bind_Err by exact Hr. right. destruct Hrb as (He & Hsteps & Hw & a' & HS' & Hsb').
      rewrite Ews in He, Hw. unfold c1 in Hsteps, HS', Hw. rewrite after_after in Hsteps, HS'.
      rewrite after_after in Hw. split_and!; try done; [by eapply rtc_l|].
      exists a'. split; [done|]. by eapply same_but_trans. }
  erewrite bind_Ok by exact Hr. destruct Hrb as (Hw & Hsc & Hsteps & Hback & a' & HS' & Hsb').
  unfold c1 in Hsteps, HS', Hback. rewrite after_after in Hsteps, HS', Hback. rewrite Ews in Hback.
  destruct s2 as [s2 [m2 t2]]. simpl in Hw, Hsc. subst t2.
  do 3 (erewrite bind_Ok by done; cbn [fst snd]). cbv [mret M_ret]. cbn [fst snd].
  set (t2 := Transaction.with_writes ∅ t1) in *. set (c2 := after c id (s2, (m2, t2))) in *.
  assert (Ht2 : c_txns c2 !! id = Some t2) by apply lookup_insert_eq.
  assert (Elog2 : unregister t (log_end t m2) = unregister t2 (log_end t2 m2)).
  { unfold unregister, log_end. change (logged_writes t2) with (logged_writes t1).
    change (txn_id t2) with (txn_id t1). change (read_ts t2) with (read_ts t1). by rewrite Elog, Eid, Eread. }
  rewrite Elog2. destruct (log_end_fields t2 m2) as [Hsc2 Hv2].
  assert (Ha2 : is_active t2 = true) by (unfold is_active; apply bool_decide_true; auto).
  destruct (end_ok c2 a' id t2 (Transaction.finish Aborted None t2) (log_end t2 m2) HS' Ht2 Ha2) as [HS3 _];
    try done.
  pose proof (step_end_abort (IE := IE) c2 id t2 Ht2 Hst eq_refl Hcm) as Hend.
  unfold c2 in HS3, Hend. rewrite after_after in HS3, Hend.
  split_and!; [done| |done| |].
  - eapply rtc_l; [exact Hstep1|]. eapply rtc_r; [exact Hsteps|exact Hend].
  - rewrite <- (right_id_L ∅ (∪) (write_set t)).
    eapply rolled_back_trans; [apply map_disjoint_empty_r|exact Hback|].
    destruct HS' as (C2 & HC2 & _). eapply rolled_back_none; [exact HC2|exact HC2|]. simpl.
    destruct (unregister_fields t2 (log_end t2 m2)) as (_ & _ & ->). exact Hv2.
  - exists (drop_txn id a'). split_and!; [done| |apply lookup_delete_eq].
    eapply same_but_trans; [exact Hsb1|]. eapply same_but_trans; [exact Hsb'|apply same_but_drop].
Qed.

(** ** Garbage collection *)

Lemma gc_slots_steps a rids : forall c st,
  csim c a -> NoDup rids -> (forall rid, rid ∈ rids -> is_Some (versions (c_mgr c) !! rid)) ->
  match gc_slots (c_gc c) rids st (c_store c, c_mgr c) with
  | (Ok _, (s', m')) | (Err (Storage _), (s', m')) =>
      same_clocks (c_mgr c) m' /\ steps c (mkConf s' m' (c_txns c) (c_commit c) (c_gc c) (c_stuck c)) /\
      csim (mkConf s' m' (c_txns c) (c_commit c) (c_gc c) (c_stuck c)) a
  | _ => False
  end.
Proof.
  induction rids as [|rid rids IH]; intros c st HS Hnd Hv.
  { cbn. by destruct c. }
  apply list.NoDup_cons in Hnd as [Hni Hnd]. cbn [gc_slots].
  assert (Hrid : is_Some (versions (c_mgr c) !! rid)) by (apply Hv; constructor).
  pose proof (gc_slot_ok c a rid st HS Hrid) as Hg.
  destruct (gc_slot (c_gc c) rid st (c_store c, c_mgr c)) as [[st'|e|] [s1 m1]] eqn:Hr; [| |done].
  2:{ erewrite bind_Err by exact Hr. destruct Hg as (-> & HS1 & e' & ->). split_and!; try done.
      apply rtc_once. by eapply step_gc_slot. }
  erewrite bind_Ok by exact Hr. destruct Hg as (Hsc & _ & Hother & HS1). set (c1 := mkConf _ _ _ _ _ _) in HS1.
  assert (Hstep : step (IE := IE) c c1) by by eapply step_gc_slot.
  specialize (IH c1 st' HS1 Hnd). simpl in IH.
  assert (Hv1 : forall r, r ∈ rids -> is_Some (versions m1 !! r)).
  { intros r Hin. rewrite Hother; [apply Hv; by constructor|]. intros ->. done. }
  specialize (IH Hv1).
  destruct (gc_slots (c_gc c) rids st' (s1, m1)) as [[st2|[]|] [s2 m2]]; try done;
    destruct IH as ((? & ? & ?) & Hsteps & HS2), Hsc as (? & ? & ?);
    (split_and!; [repeat split; congruence|by eapply rtc_l|done]).
Qed.

Lemma garbage_collect_steps c a :
  csim c a ->
  match garbage_collect (c_store c, c_mgr c) with
  | (Ok _, (s', m')) | (Err (Storage _), (s', m')) =>
      same_clocks (c_mgr c) m' /\
      steps c (mkConf s' m' (c_txns c) (c_commit c) (watermark (c_mgr c)) (c_stuck c)) /\
      csim (mkConf s' m' (c_txns c) (c_commit c) (watermark (c_mgr c)) (c_stuck c)) a
  | _ => False
  end.
Proof.
  intros HS. unfold garbage_collect. cbn [snd].
  set (c1 := mkConf (c_store c) (c_mgr c) (c_txns c) (c_commit c) (watermark (c_mgr c)) (c_stuck c)).
  assert (Hstep : step (IE := IE) c c1) by apply step_gc_start.
  assert (HS1 : csim c1 a) by (destruct HS as (C & HC & HI); exists C; split; [done|exact (inv_gc_start _ a HI)]).
  pose proof (gc_slots_steps a (map_entries (versions (c_mgr c))).*1 c1 (mkGcStats (watermark (c_mgr c)) 0 0) HS1) as Hg.
  assert (Hp := map_entries_perm _ (versions (c_mgr c))).
  specialize (Hg ltac:(rewrite Hp; apply NoDup_fst_map_to_list)). simpl in Hg.
  assert (Hv : forall rid, rid ∈ (map_entries (versions (c_mgr c))).*1 -> is_Some (versions (c_mgr c) !! rid)).
  { intros rid. rewrite Hp, list_elem_of_fmap. intros ([r l] & -> & Hin%elem_of_map_to_list). eauto. }
  specialize (Hg Hv).
  destruct (gc_slots _ _ _ _) as [[st|[]|] [s' m']]; try done; destruct Hg as (? & ? & ?);
    (split_and!; [done|by eapply rtc_l|done]).
Qed.

(** ** What garbage collection leaves *)

(** A chain with nothing to collect: its slot is newer than the watermark, and so are all its
    entries but the last. *)
Definition tidy (w : Timestamp) (slot : option row) (chain : option (list UndoLog)) : Prop :=
  forall l, chain = Some l -> exists x, slot = Some x /\ w < ts x.1 /\
    forall k e, l = k ++ [e] -> Forall (fun u => w < u_ts u) k.

Lemma gc_chain_tidy w x rid st m : w < TXN_START_ID ->
  let m' := (gc_chain w (ts x.1) rid st m).2 in
  tidy w (Some x) (versions m' !! rid) /\ forall r, r <> rid -> versions m' !! r = versions m !! r.
Proof using.
  intros Hw. unfold gc_chain. destruct (versions m !! rid) as [chain|] eqn:Hch.
  2:{ cbn. rewrite Hch. split; [by intros l|done]. }
  destruct (negb (is_txn_id (ts x.1)) && (ts x.1 <=? w)) eqn:Hd.
  - cbn. rewrite lookup_delete_eq. split; [by intros l|]. intros r Hr. by rewrite lookup_delete_ne.
  - destruct (truncate_chain w chain) as [kept n] eqn:Ht. cbn. rewrite lookup_insert_eq.
    split; [|intros r Hr; by rewrite lookup_insert_ne]. intros l [= <-]. exists x. split_and!; [done| |].
    + unfold is_txn_id in Hd. destruct (TXN_START_ID <=? ts x.1) eqn:?; simpl in Hd; lia.
    + intros k e ->. apply (truncate_tidy w chain e k). by rewrite Ht.
Qed.

Lemma gc_slots_tidy w C rids : w < TXN_START_ID -> forall s m st st' s' m',
  store_is s C -> (forall rid, rid ∈ rids -> is_Some (C !! rid)) ->
  gc_slots w rids st (s, m) = (Ok st', (s', m')) ->
  store_is s' C /\ forall rid,
    if decide (rid ∈ rids) then tidy w (C !! rid) (versions m' !! rid) else versions m' !! rid = versions m !! rid.
Proof.
  intros Hw. induction rids as [|rid rids IH]; intros s m st st' s' m' HC Hrows Hrun.
  { injection Hrun as _ <- <-. split; [done|]. intros rid. by rewrite decide_False by set_solver. }
  cbn [gc_slots] in Hrun. destruct (Hrows rid ltac:(set_solver)) as [x Hx].
  pose proof (ss_read_law s C rid x HC Hx) as Hl. unfold gc_slot, on_fst, on_snd, mbind, M_bind in Hrun.
  cbn [fst snd] in Hrun. destruct (ss_read rid s) as [[y|e|] s1]; cbn in Hrun; [|done..].
  destruct Hl as [-> HC1]. pose proof (gc_chain_tidy w x rid st m Hw) as Hg. cbv zeta in Hg.
  destruct (gc_chain w (ts x.1) rid st m) as [st1 m1]. cbn in Hrun, Hg. destruct Hg as [Htidy Hother].
  destruct (IH s1 m1 st1 st' s' m' HC1 ltac:(set_solver) Hrun) as [HC' Hall]. split; [done|].
  intros r. specialize (Hall r). destruct (decide (r ∈ rids)) as [Hin|Hni].
  - by rewrite decide_True by set_solver.
  - rewrite Hall. destruct (decide (r = rid)) as [->|Hne].
    + rewrite decide_True by set_solver. by rewrite Hx.
    + rewrite decide_False by set_solver. by apply Hother.
Qed.

Lemma chain_has_row c a rid C :
  csim c a -> store_is (c_store c) C -> is_Some (versions (c_mgr c) !! rid) -> is_Some (C !! rid).
Proof.
  intros (C' & HC' & HI) HC [chain Hch]. rewrite (store_is_fun _ _ _ HC HC').
  destruct (inv_rows _ _ HI rid) as (oc & _ & _ & Hrow). simpl in Hrow.
  destruct (C' !! rid) as [x|]; [eauto|]. destruct Hrow as (Hnil & _).
  unfold version_chain in Hnil. rewrite Hch in Hnil. simpl in Hnil. subst.
  by destruct (inv_chains _ _ HI rid).
Qed.

Lemma garbage_collect_tidy c a st s' m' :
  csim c a -> garbage_collect (c_store c, c_mgr c) = (Ok st, (s', m')) ->
  exists C, store_is (c_store c) C /\ store_is s' C /\
    forall rid, tidy (watermark (c_mgr c)) (C !! rid) (versions m' !! rid).
Proof.
  intros HS Hrun. pose proof HS as (C & HC & HI). exists C. split; [done|].
  destruct (watermark_spec _ _ HI) as [Hw _]. pose proof (ck_max _ _ _ _ (inv_clocks _ _ HI)) as Hmax.
  simpl in Hw. unfold garbage_collect in Hrun. cbn [snd] in Hrun.
  assert (Hp := map_entries_perm _ (versions (c_mgr c))).
  assert (Hv : forall rid, rid ∈ (map_entries (versions (c_mgr c))).*1 <-> is_Some (versions (c_mgr c) !! rid)).
  { intros rid. rewrite Hp, list_elem_of_fmap. split.
    - intros ([r l] & -> & Hin%elem_of_map_to_list). eauto.
    - intros [l Hl]. exists (rid, l). split; [done|]. by apply elem_of_map_to_list. }
  destruct (gc_slots_tidy (watermark (c_mgr c)) C _ ltac:(lia) _ _ _ _ _ _ HC
    ltac:(intros rid Hin; eapply chain_has_row; [exact HS|done|by apply Hv]) Hrun) as [HC' Hall].
  split; [done|]. intros rid. specialize (Hall rid). case_decide as Hin; [done|].
  rewrite Hall. intros l Hl. destruct Hin. apply Hv. eauto.
Qed.

End ops.
