(* ===== verification/MvccTheorems.v ===== *)
(** * Snapshot isolation

    What holds of every interleaving of steps that starts from a database at rest: reads are
    those of the snapshot machine, snapshots do not change, a row has one writer, commits are
    atomic also when they fail, aborts and garbage collection change nothing that anybody
    reads. Commits that could not take back what they had stamped are among the interleavings:
    the rows that they leave behind are the exceptions that the statements name. *)

From Stdlib Require Import ZArith Lia.
From stdpp Require Import base gmap list numbers option relations.
From S2P Require Import Prelude Bytes Ids Buf TablePage TablePageProofs TableHeap SlotStore.
From S2P Require Import Transaction TxnManager Mvcc MvccSpec MvccInv MvccSteps MvccOps.
Import TxnManager Mvcc.

Local Open Scope Z_scope.

Section theorems.
Context {S BE IE : Type} `{Laws : SlotStoreLaws S BE} `{Order : !MapOrder RecordId}.

Abbreviation cf := (conf S).
Abbreviation steps := (rtc (step (S := S) (BE := BE) (IE := IE))).

(** A database at rest: a manager with clocks resumed and no transaction, over rows that were
    all committed by then. *)
Definition booted (c : cf) (a : snap) : Prop :=
  exists C next, store_is (c_store c) C /\
    (forall rid x, C !! rid = Some x -> meta_valid x.1 /\ Forall is_byte x.2 /\ ts x.1 <= s_now a) /\
    0 <= s_now a < TXN_START_ID /\ next <= u64_max /\
    c = mkConf (c_store c) (resume (s_now a) next) ∅ None 0 ∅ /\
    a = mkSnap (s_now a) ((fun x => [slot_version x]) <$> C) ∅.

Lemma booted_csim c a : booted c a -> csim c a /\ snap_ok a.
Proof.
  intros (C & next & HC & Hrows & Hnow & Hnext & -> & ->). split.
  - exists C. split; [done|]. split; simpl.
    + split; simpl; try done; try lia. unfold TXN_START_ID, u64_max in *. lia.
    + intros id. by rewrite !lookup_empty.
    + intros rid. exists None. split; [done|]. unfold version_chain, history. simpl.
      rewrite lookup_empty, lookup_fmap. split; [by constructor|].
      destruct (C !! rid) as [x|] eqn:Hx; simpl; [|done].
      destruct (Hrows rid x Hx) as (? & ? & ?). split_and!; try done; cbn; lia.
    + intros rid. by rewrite lookup_fmap, fmap_is_Some.
    + intros rid. by rewrite lookup_empty.
    + done.
    + intros rid. unfold history. simpl. rewrite lookup_fmap. destruct (C !! rid) as [x|] eqn:Hx; cbn; [|lia].
      destruct (Hrows rid x Hx) as (_ & _ & ?). lia.
  - split; simpl; [lia|set_solver..].
Qed.

Lemma steps_sim c c' a : csim c a -> steps c c' -> exists a', rtc snap_step a a' /\ csim c' a'.
Proof.
  intros HS Hst. revert a HS. induction Hst as [c|c c1 c' Hs _ IH]; intros a HS; [by exists a|].
  destruct (step_sim c c1 a HS Hs) as (a1 & Ha & HS1). destruct (IH a1 HS1) as (a' & Ha' & HS').
  exists a'. split; [by etrans|done].
Qed.

(** A handle keeps its id and its snapshot. *)
Definition kept (c c' : cf) : Prop := forall id t, c_txns c !! id = Some t ->
  exists t', c_txns c' !! id = Some t' /\ txn_id t' = txn_id t /\ read_ts t' = read_ts t.

Lemma kept_after c id t s : c_txns c !! id = Some t ->
  txn_id s.2.2 = txn_id t -> read_ts s.2.2 = read_ts t -> kept c (after c id s).
Proof using.
  intros Ht Hi Hr i u Hu. simpl. destruct (decide (i = id)) as [->|].
  - rewrite lookup_insert_eq. exists s.2.2. by assert (u = t) as -> by congruence.
  - rewrite lookup_insert_ne by done. eauto.
Qed.

Lemma step_kept c c' a : csim c a -> step (IE := IE) c c' -> kept c c'.
Proof.
  intros HS Hst. assert (Hrefl : kept c c) by (intros id t Ht; eauto). pose proof HS as (C & _ & HI).
  destruct Hst as [level t m' Hlt Hb|rid x r s' Hrow Hr|id t r s' Ht Ha Hr
    |id t rid x new r s' Ht Ha Hid Hrow Hnew Hr|id t data r s' Ht Ha Hid Hb Hr|id t Ht Hid
    |id t Ht Hst Hcm Hlt|id t dn rid r s' Ht Hcm Hin Hni Hr|id t dn rid r s' Ht Hcm Hin Hr|id Hcm|id t dn Ht Hcm Hdn
    |id t cts Ht Hcm ->|id t Ht Hst Hw Hid|id t rid p r s' Ht Hst Hcm Hp Hr|id t Ht Hst Hw Hcm
    | |rid st r s' m' Hv Hr]; try done.
  - pose proof (inv_begin _ a level HI Hlt) as Hbg. cbn [y_mgr] in Hbg. rewrite Hb in Hbg. destruct Hbg as [Hn _].
    intros i u Hu. simpl. destruct (decide (i = txn_id t)) as [->|]; [|rewrite lookup_insert_ne by done; eauto].
    pose proof (inv_txns _ _ HI (txn_id t)) as Hx. simpl in Hx. rewrite Hu in Hx.
    destruct Hx as (_ & Hx & _). unfold begin in Hb. injection Hb as <- <-. simpl in Hx. lia.
  - destruct (first_write_ok (IE := IE) c a id t HS Ht Ha) as (m' & t' & Hr' & (E1 & E2 & _) & _).
    rewrite Hr in Hr'. injection Hr' as _ ->. by eapply kept_after.
  - destruct x as [meta d]. pose proof (write_version_ok (IE := IE) c a id t rid meta d new HS Ht Ha Hid Hrow Hnew) as Hw.
    rewrite Hr in Hw. destruct r as [[]|e|]; [| |done]; destruct Hw as ((E1 & E2 & _) & _); by eapply kept_after.
  - pose proof (insert_version_ok (IE := IE) c a id t data HS Ht Ha Hid Hb) as Hi. rewrite Hr in Hi.
    destruct r as [rid|e|]; [| |done].
    + destruct Hi as ((E1 & E2 & _) & _). by eapply kept_after.
    + destruct Hi as (E & _). eapply kept_after; [done|by rewrite E..].
  - eapply kept_after; [done|..]; simpl; unfold Transaction.set_tainted; by case_decide.
  - pose proof (stamp_step_ok c a id t dn rid HS Ht Hcm Hin Hni) as Hs. rewrite Hr in Hs.
    apply (kept_after _ _ t); [done|..]; destruct r as [[]|e|]; try done; destruct Hs as [E _]; by rewrite E.
  - pose proof (unstamp_step_ok c a id t dn rid HS Ht Hcm Hin) as Hs. rewrite Hr in Hs.
    apply (kept_after _ _ t); [done|..]; destruct r as [[]|e|]; try done; destruct Hs as [E _]; by rewrite E.
  - apply (kept_after _ _ t); [done|..]; simpl; unfold Transaction.set_tainted; by case_decide.
  - by apply (kept_after _ _ t).
  - by apply (kept_after _ _ t).
  - assert (Hta : is_active t = true) by (unfold is_active; apply bool_decide_true; auto).
    pose proof (rollback_ok c a id t rid p HS Ht Hta ltac:(intros dn; by rewrite Hcm) Hp) as Hb. rewrite Hr in Hb.
    apply (kept_after _ _ t); [done|..]; destruct r as [[]|e|]; try done.
    1,3: destruct Hb as (x & _ & E & _); by rewrite E.
    all: destruct Hb as (E & _); by rewrite E.
  - by apply (kept_after _ _ t).
Qed.

Lemma steps_kept c c' a : csim c a -> steps c c' -> kept c c'.
Proof.
  intros HS Hst. revert a HS. induction Hst as [c|c c1 c' Hs _ IH]; intros a HS; [intros id t Ht; eauto|].
  destruct (step_sim c c1 a HS Hs) as (a1 & _ & HS1). pose proof (step_kept c c1 a HS Hs) as Hk.
  intros id t Ht. destruct (Hk id t Ht) as (t1 & Ht1 & E1 & E2).
  destruct (IH a1 HS1 id t1 Ht1) as (t' & Ht' & E3 & E4). exists t'. split_and!; [done|congruence..].
Qed.

(** ** What is read *)

(** A transaction handle [t] reads [v] at [rid]. *)
Definition reads (c : cf) (t : Transaction) (rid : RecordId) (v : option bytes) : Prop :=
  exists x, row_at c rid x /\ visible_version t (c_mgr c) rid x.1 x.2 = v.

(** A transaction that begins now reads [v] at [rid]. *)
Definition next_reads (c : cf) (rid : RecordId) (v : option bytes) : Prop :=
  reads c (begin SnapshotIsolation (c_mgr c)).1 rid v.

Lemma known_reads c a t rid : csim c a -> (exists v, reads c t rid v) <-> is_Some (s_hist a !! rid).
Proof.
  intros (C & HC & HI). rewrite <- (inv_known _ _ HI). simpl. split.
  - intros (v & x & (C' & HC' & Hx) & _). rewrite (store_is_fun _ _ _ HC' HC) in Hx. eauto.
  - intros [x Hx]. eexists _, x. split; [by exists C|done].
Qed.

Lemma active_reads c a id t rid v :
  csim c a -> c_txns c !! id = Some t -> is_active t = true -> idle c id ->
  reads c t rid v -> v = snap_read a id rid.
Proof.
  intros HS Ht Ha Hid (x & Hrow & <-). destruct (csim_row _ _ _ _ HS Hrow) as (C & HC & Hx & HI).
  by apply (read_ok _ a id t rid x HI).
Qed.

Lemma next_reads_view c a rid v : csim c a -> next_reads c rid v -> v = view (s_now a) (history a rid).
Proof.
  intros HS (x & Hrow & <-). destruct (csim_row _ _ _ _ HS Hrow) as (C & HC & Hx & HI).
  destruct (inv_clocks _ _ HI) as [Hnow Hgc _ Hnext _ _]. simpl in *.
  unfold visible_version, sees. simpl. rewrite Hnow.
  apply (outsider_view _ a (next_txn_id (c_mgr c)) (s_now a) rid x HI); simpl; [|lia..|done].
  apply claim_None. intros t ? Ht _ _. pose proof (inv_txns _ _ HI (next_txn_id (c_mgr c))) as Hx0.
  simpl in Hx0. rewrite Ht in Hx0. destruct Hx0 as (_ & Hx0 & _). lia.
Qed.

(** C13: whatever interleaving of steps led here, a state of the snapshot machine that the same
    steps lead to describes the database, and every read that storage does not refuse returns
    what the machine says: the transaction's own write, or else the version committed last
    before it began. *)
Theorem mvcc_refines_snapshots c0 a0 c :
  booted c0 a0 -> steps c0 c ->
  exists a, rtc snap_step a0 a /\ csim c a /\
    forall id t rid x, c_txns c !! id = Some t -> is_active t = true -> idle c id -> row_at c rid x ->
    match read_visible rid (txn_state c t) with
    | (Ok v, _) => v = snap_read a id rid
    | (Err _, _) => True
    | (Panic, _) => False
    end.
Proof.
  intros Hb Hst. destruct (booted_csim c0 a0 Hb) as [HS0 _].
  destruct (steps_sim c0 c a0 HS0 Hst) as (a & Ha & HS). exists a. split_and!; [done..|].
  intros id t rid x Ht Hact Hid Hrow. pose proof (csim_read c a rid x HS Hrow) as Hr.
  unfold read_visible, txn_state, mbind, M_bind, on_fst. simpl.
  destruct (ss_read rid (c_store c)) as [[y|e|] s']; simpl; [|done..]. destruct Hr as [-> _].
  eapply active_reads; [exact HS|done..|]. by exists x.
Qed.

(** C14: a transaction that reads a row it has not written always reads the same, whatever
    the others do in between. *)
Theorem repeatable_read c0 a0 c c' id t t' rid v :
  booted c0 a0 -> steps c0 c -> steps c c' ->
  c_txns c !! id = Some t -> is_active t = true -> idle c id -> write_set t !! rid = None ->
  c_txns c' !! id = Some t' -> is_active t' = true -> idle c' id -> write_set t' !! rid = None ->
  reads c t rid v -> reads c' t' rid v.
Proof.
  intros Hb Hst Hst' Ht Ha Hid Hw Ht' Ha' Hid' Hw' Hv.
  destruct (booted_csim c0 a0 Hb) as [HS0 _]. destruct (steps_sim c0 c a0 HS0 Hst) as (a & _ & HS).
  destruct (steps_sim c c' a HS Hst') as (a' & Hsn & HS').
  destruct (steps_kept c c' a HS Hst' id t Ht) as (t1 & Ht1 & _ & Hr).
  assert (t1 = t') as -> by congruence. destruct (snap_steps_views a a' Hsn) as [_ Hviews].
  assert (Hk : exists v', reads c' t' rid v').
  { apply (known_reads c' a' t' rid HS'). eapply snap_steps_known; [exact Hsn|].
    apply (known_reads c a t rid HS). eauto. }
  destruct Hk as [v' Hv']. pose proof (active_reads _ _ _ _ _ _ HS Ht Ha Hid Hv) as ->.
  pose proof (active_reads _ _ _ _ _ _ HS' Ht' Ha' Hid' Hv') as Ev'.
  enough (snap_read a id rid = snap_read a' id rid) as -> by by rewrite <- Ev'.
  destruct HS as (C & _ & HI), HS' as (C' & _ & HI').
  destruct (inv_active _ _ _ _ HI Ht Ha) as (_ & _ & Hle & x & Hx & Hrx & _ & Hd).
  destruct (inv_active _ _ _ _ HI' Ht' Ha') as (_ & _ & _ & x' & Hx' & Hrx' & _ & Hd').
  unfold snap_read. rewrite Hx, Hx', (proj1 Hd rid Hw), (proj1 Hd' rid Hw'). simpl.
  rewrite Hrx, Hrx', Hr. symmetry. apply Hviews. simpl in Hle. lia.
Qed.

(** ** Shared descriptions of what changes *)

Lemma reachable c0 a0 c : booted c0 a0 -> steps c0 c -> exists a, csim c a /\ snap_ok a.
Proof.
  intros Hb Hst. destruct (booted_csim c0 a0 Hb) as [HS0 Hok].
  destruct (steps_sim c0 c a0 HS0 Hst) as (a & Ha & HS). exists a. split; [done|].
  clear -Ha Hok. induction Ha; [done|]. eauto using snap_step_ok.
Qed.

Lemma reads_iff c a id t rid v :
  csim c a -> c_txns c !! id = Some t -> is_active t = true -> idle c id ->
  reads c t rid v <-> is_Some (s_hist a !! rid) /\ v = snap_read a id rid.
Proof.
  intros HS Ht Ha Hid. rewrite <- (known_reads c a t rid HS). split.
  - intros Hr. split; [eauto|]. by eapply active_reads.
  - intros [[v' Hv'] ->]. by rewrite <- (active_reads c a id t rid v').
Qed.

Lemma next_reads_iff c a rid v :
  csim c a -> next_reads c rid v <-> is_Some (s_hist a !! rid) /\ v = view (s_now a) (history a rid).
Proof.
  intros HS. rewrite <- (known_reads c a (begin SnapshotIsolation (c_mgr c)).1 rid HS). split.
  - intros Hr. split; [eauto|]. by eapply next_reads_view.
  - intros [[v' Hv'] ->]. by rewrite <- (next_reads_view c a rid v').
Qed.

(** Nothing changes for anybody but the transaction [id]: neither for those that are active nor
    for those that begin. *)
Definition unchanged_for_others (c c' : cf) (id : TxnId) : Prop :=
  (forall rid v, next_reads c' rid v <-> next_reads c rid v) /\
  forall id' t rid v, id' <> id -> c_txns c !! id' = Some t -> is_active t = true ->
    c_txns c' !! id' = Some t /\ (reads c' t rid v <-> reads c t rid v).

Lemma views_unchanged c a c' a' id :
  csim c a -> c_commit c = None -> csim c' a' -> c_commit c' = None ->
  (forall id', id' <> id -> c_txns c' !! id' = c_txns c !! id') -> s_now a' = s_now a ->
  (forall rid, is_Some (s_hist a' !! rid) <-> is_Some (s_hist a !! rid)) ->
  (forall r rid, r <= s_now a -> view r (history a' rid) = view r (history a rid)) ->
  (forall id', id' <> id -> s_active a' !! id' = s_active a !! id') -> unchanged_for_others c c' id.
Proof.
  intros HS Hcm HS' Hcm' Htx En Ek Ev Ea. split.
  - intros rid v. rewrite (next_reads_iff _ _ _ _ HS'), (next_reads_iff _ _ _ _ HS). by rewrite En, Ek, Ev.
  - intros id' t rid v Hne Ht Ha. assert (Ht' : c_txns c' !! id' = Some t) by by rewrite Htx. split; [done|].
    rewrite (reads_iff _ _ _ _ _ _ HS' Ht' Ha) by (intros dn; by rewrite Hcm').
    rewrite (reads_iff _ _ _ _ _ _ HS Ht Ha) by (intros dn; by rewrite Hcm).
    destruct HS as (C & _ & HI). destruct (inv_active _ _ _ _ HI Ht Ha) as (_ & _ & Hle & x & Hx & Hr & _).
    rewrite Ek. unfold snap_read. rewrite (Ea id' Hne), Hx. by rewrite Ev by lia.
Qed.

Lemma same_but_unchanged c a id s a' :
  csim c a -> c_commit c = None -> csim (after c id s) a' -> same_but id a a' ->
  unchanged_for_others c (after c id s) id.
Proof.
  intros HS Hcm HS' (En & Eh & Ea). eapply views_unchanged; [exact HS|done|exact HS'|done|..]; try done.
  - intros id' Hne. simpl. by rewrite lookup_insert_ne.
  - intros rid. by rewrite Eh.
  - intros r rid _. unfold history. by rewrite Eh.
Qed.

Lemma with_commit_after (c : cf) id s : c_commit c = None -> with_commit None (after c id s) = after c id s.
Proof using. intros E. unfold with_commit, after. simpl. by rewrite E. Qed.

(** Transaction [id] has the slot of [rid]: it carries its id, or the timestamp of its commit
    in progress. *)
Definition holds (c : cf) (id : TxnId) (rid : RecordId) : Prop :=
  exists x, row_at c rid x /\
    (ts x.1 = id \/ exists dn, c_commit c = Some (id, dn) /\ rid ∈ dn /\ ts x.1 = last_commit_ts (c_mgr c) + 1).

(** A row that a transaction has lost is not its own. *)
Lemma lost_not_held c a id t x rid :
  csim c a -> c_txns c !! id = Some t -> is_active t = true -> s_active a !! id = Some x ->
  write_set t !! rid <> None -> a_writes x !! rid = None ->
  ~ holds c id rid /\ id ∈ c_stuck c /\ state t = Tainted.
Proof.
  intros HS Ht Ha Hx Hw Hno. pose proof HS as (C & HC & HI).
  destruct (inv_active _ _ _ _ HI Ht Ha) as (_ & _ & _ & x0 & Hx0 & _ & _ & _ & Hlost).
  assert (x0 = x) as -> by congruence. destruct (Hlost rid Hw Hno) as (Hin & Htnt & _).
  assert (Hidle : forall dn, c_commit c <> Some (id, dn)).
  { intros dn Hcm. destruct (committing_txn _ _ _ _ HI Hcm) as (_ & t0 & _ & Ht0 & Hrun & _). simpl in Ht0. congruence. }
  split_and!; [|done..]. intros ([meta d] & Hrow & [Hts|(dn & Hcm & _)]); [|by apply (Hidle dn)].
  destruct (csim_row _ _ _ _ HS Hrow) as (C' & HC' & Hslot & HI').
  by destruct (lost_stamp _ a id t x rid meta d HI' Ht Ha Hx Hslot Hidle Hw Hno).
Qed.

(** C15: a row in the write set of an active transaction is one whose slot it has, and then
    every other transaction with the row in its write set has lost it to a commit of its own
    that failed and left the slot stamped; and the version that the undo chain starts with is
    one the writer sees, so no committed update is lost. Or the transaction itself has lost the
    row that way, and is tainted. *)
Theorem one_writer c0 a0 c id t rid p :
  booted c0 a0 -> steps c0 c ->
  c_txns c !! id = Some t -> is_active t = true -> write_set t !! rid = Some p ->
  (holds c id rid /\
   (forall id' t', c_txns c !! id' = Some t' -> is_active t' = true -> id' <> id ->
     write_set t' !! rid = None \/ ~ holds c id' rid /\ id' ∈ c_stuck c /\ state t' = Tainted) /\
   match version_chain (c_mgr c) rid with
   | [] => p = false
   | l :: _ => p = true /\ u_ts l <= read_ts t
   end) \/
  ~ holds c id rid /\ id ∈ c_stuck c /\ state t = Tainted.
Proof.
  intros Hb Hst Ht Ha Hw. destruct (reachable c0 a0 c Hb Hst) as (a & HS & Hok). pose proof HS as (C & HC & HI).
  destruct (inv_active _ _ _ _ HI Ht Ha) as (_ & _ & _ & x & Hx & Hr & _).
  destruct (a_writes x !! rid) as [v|] eqn:Hv; [left|right; eapply lost_not_held; [exact HS|done..|congruence|done]].
  assert (Hslot : exists meta d, C !! rid = Some (meta, d)).
  { pose proof (written_known _ a id t rid p HI Ht Ha Hw) as Hk. rewrite <- (inv_known _ _ HI) in Hk.
    destruct Hk as [[meta d] Hk]. eauto. }
  destruct Hslot as (meta & d & Hslot).
  destruct (own_slot _ a id t x rid meta d HI Ht Ha Hx Hslot p Hw ltac:(congruence)) as (Hstamp & _ & Hnone & _ & Hch).
  simpl in *. split_and!.
  - exists (meta, d). split; [by exists C|]. unfold stamp_of in Hstamp. simpl.
    destruct (c_commit c) as [[cid dn]|] eqn:Hcm; [|by left]. case_bool_decide as Hd; [right|by left].
    destruct Hd as [-> Hin]. exists dn. split_and!; [done..|]. rewrite Hstamp.
    by rewrite <- (ck_now _ _ _ _ (inv_clocks _ _ HI)).
  - intros id' t' Ht' Ha' Hne. destruct (write_set t' !! rid) eqn:Hw'; [right|by left].
    destruct (inv_active _ _ _ _ HI Ht' Ha') as (_ & _ & _ & x' & Hx' & _).
    specialize (Hnone id' Hne). rewrite claim_None in Hnone.
    destruct (Hnone t' x' Ht' Hx' Ha') as [E|E]; [congruence|].
    eapply lost_not_held; [exact HS|done..|congruence|done].
  - pose proof (so_seen a Hok id x rid v Hx Hv) as Hnew.
    destruct (version_chain (c_mgr c) rid) as [|l chain], p; try naive_solver.
    destruct Hch as [_ [_ Hn]]. split; [done|]. csimpl in Hn. unfold newest in Hn at 1. simpl in Hn. lia.
Qed.

(** ** Commit and abort *)

Lemma tainted_active t : is_active t = true -> is_active (Transaction.set_tainted t) = true.
Proof using.
  unfold is_active, Transaction.set_tainted. case_decide; [|done]. intros _. by apply bool_decide_true; right.
Qed.

Lemma view_now now h : newest h <= now -> view (now + 1) h = view now h.
Proof using.
  destruct h as [|[stamp v] h]; [done|]. cbn. intros Hle. by rewrite !(proj2 (Z.leb_le _ _)) by lia.
Qed.

(** ** What failed commits left behind *)

(** The slot of [rid] carries the timestamp of the commit to come, with value [v]. *)
Definition left_over (c : cf) (rid : RecordId) (v : option bytes) : Prop :=
  exists x, row_at c rid x /\ ts x.1 = last_commit_ts (c_mgr c) + 1 /\ slot_value x = v.

(** Left-over rows are those with a version of the future. *)
Lemma left_over_iff c a rid v :
  csim c a -> c_commit c = None -> s_now a + 1 < TXN_START_ID ->
  left_over c rid v <-> s_now a < newest (history a rid) /\ view (s_now a + 1) (history a rid) = v.
Proof.
  intros HS Hcm Hmax. pose proof HS as (C & HC & HI). pose proof (ck_now _ _ _ _ (inv_clocks _ _ HI)) as Hnow. simpl in Hnow.
  pose proof (ck_gc _ _ _ _ (inv_clocks _ _ HI)) as Hgc. simpl in Hgc.
  pose proof (inv_rows _ _ HI rid) as (oc & Hown & Hlog & Hrow). simpl in *.
  assert (Hfun : forall x, row_at c rid x <-> C !! rid = Some x).
  { intros x. split; [|by exists C]. intros (C' & HC' & Hx). by rewrite (store_is_fun _ _ _ HC' HC) in Hx. }
  unfold left_over. setoid_rewrite Hfun. destruct (C !! rid) as [x|] eqn:Hx.
  2:{ destruct Hrow as (_ & -> & _). cbn. split; [naive_solver|lia]. }
  destruct Hrow as (_ & _ & Hrow). destruct oc as [cl|].
  - destruct Hown as (id & Hc & _). destruct Hrow as (Hts & _ & Hch).
    assert (Hold : newest (history a rid) <= s_now a).
    { destruct (cl_pushed cl); [|destruct Hch as [_ ->]; cbn; lia]. destruct Hch as (Hne & _ & <-).
      destruct (version_chain (c_mgr c) rid) as [|l chain]; [done|].
      apply Forall_cons_1 in Hlog as [[? _] _]. cbn. lia. }
    assert (Hid : cl_stamp cl = id).
    { unfold claim_of, stamp_of in Hc. rewrite Hcm in Hc. destruct (c_txns c !! id) as [u|]; [|done].
      destruct (s_active a !! id) as [z|]; [|done]. destruct (is_active u); [|done].
      destruct (write_set u !! rid), (a_writes z !! rid); try done. by injection Hc as <-. }
    destruct (claim_stamp _ _ _ _ _ HI Hc) as (_ & _ & Hge). split; [|lia].
    intros (x0 & [= <-] & E & _). lia.
  - destruct Hrow as (Hle & _ & Hv & Hn). rewrite <- Hn, <- Hv by lia. cbn. split.
    + intros (x0 & [= <-] & E & <-). split; [lia|]. by rewrite (proj2 (Z.leb_le _ _)) by lia.
    + intros [Hlt E]. exists x. split_and!; [done|lia|]. by rewrite (proj2 (Z.leb_le _ _)) in E by lia.
Qed.

(** Who left it behind is still there. *)
Lemma left_over_stuck c a rid v :
  csim c a -> c_commit c = None -> s_now a + 1 < TXN_START_ID -> left_over c rid v -> c_stuck c <> ∅.
Proof.
  intros HS Hcm Hmax [Hlt _]%(left_over_iff c a rid v HS Hcm Hmax). destruct HS as (C & _ & HI).
  destruct (inv_future _ _ HI rid Hlt) as (id & Hin & _). simpl in Hin. set_solver.
Qed.

(** Versions pushed by an active transaction are of rows that are known. *)
Lemma pushed_hist c a id t x rid w stamp :
  csim c a -> c_txns c !! id = Some t -> is_active t = true -> s_active a !! id = Some x ->
  (forall r v, w !! r = Some v -> a_writes x !! r = Some v) ->
  is_Some (push_all stamp w (s_hist a) !! rid) <-> is_Some (s_hist a !! rid).
Proof.
  intros (C & HC & HI) Ht Ha Hx Hsub. rewrite <- (inv_known _ _ HI).
  symmetry. by apply (pushed_known _ a id t x rid w stamp HI).
Qed.

(** A commit that leaves rows stamped changes nothing for others. *)
Lemma left_unchanged c a id t x dn s :
  csim c a -> c_commit c = None -> c_txns c !! id = Some t -> is_active t = true -> s_active a !! id = Some x ->
  csim (leave_stamps id (after c id s)) (snap_left id x dn a) ->
  unchanged_for_others c (leave_stamps id (after c id s)) id.
Proof.
  intros HS Hcm Ht Ha Hx HS'. eapply views_unchanged; [exact HS|done|exact HS'|done|..]; try done.
  - intros id' Hne. simpl. by rewrite lookup_insert_ne.
  - intros rid. apply (pushed_hist c a id t x); try done. intros r v. rewrite writes_in_lookup. by case_decide.
  - intros r rid Hr. rewrite history_left. destruct (writes_in dn (a_writes x) !! rid); [|done].
    apply view_push. lia.
  - intros id' Hne. simpl. by rewrite lookup_insert_ne.
Qed.

(** And there is one that holds a write of the transaction. *)
Lemma left_exists c a id t x dn s :
  csim c a -> c_txns c !! id = Some t -> state t = Running -> s_active a !! id = Some x -> idle c id ->
  s_now a + 1 < TXN_START_ID -> dn <> ∅ -> dn ⊆ dom (write_set t) ->
  csim (leave_stamps id (after c id s)) (snap_left id x dn a) ->
  exists rid v, is_Some (write_set t !! rid) /\ reads c t rid v /\ left_over (leave_stamps id (after c id s)) rid v.
Proof.
  intros HS Ht Hrun Hx Hidle Hmax Hne Hdn HS'. apply set_choose_L in Hne as [rid Hin]. exists rid.
  assert (Ha : is_active t = true) by (unfold is_active; apply bool_decide_true; auto).
  destruct (write_set t !! rid) as [p|] eqn:Hp; [|apply Hdn, elem_of_dom in Hin as [? ?]; congruence].
  pose proof HS as (C & _ & HI). pose proof (running_writes _ a id t x rid HI Ht Hrun Hx) as Hiff.
  destruct (a_writes x !! rid) as [v|] eqn:Hv; [|by rewrite (proj2 Hiff) in Hp]. exists v. split_and!; [done| |].
  - apply (reads_iff _ _ _ _ _ _ HS Ht Ha Hidle). split; [by eapply (written_known _ a id t rid)|].
    unfold snap_read. rewrite Hx. simpl. by rewrite Hv.
  - apply (left_over_iff _ _ _ _ HS' eq_refl Hmax). rewrite history_left, writes_in_lookup, decide_True, Hv by done.
    simpl. split; [cbn; lia|]. by rewrite Z.leb_refl.
Qed.

(** What the machine shows after a commit, by the writes of the transaction. *)
Lemma committed_views c a id t x rid v :
  csim c a -> c_txns c !! id = Some t -> state t = Running -> s_active a !! id = Some x ->
  (is_Some (s_hist (snap_committed a id x) !! rid) /\
   v = view (s_now a + 1) (history (snap_committed a id x) rid)) <->
  is_Some (s_hist a !! rid) /\
  v = match write_set t !! rid with Some _ => snap_read a id rid | None => view (s_now a + 1) (history a rid) end.
Proof.
  intros HS Ht Hrun Hx. assert (Ha : is_active t = true) by (unfold is_active; apply bool_decide_true; auto).
  simpl. rewrite (pushed_hist c a id t x rid (a_writes x) (s_now a + 1) HS Ht Ha Hx) by done.
  destruct HS as (C & HC & HI). pose proof (running_writes _ a id t x rid HI Ht Hrun Hx) as Hdom.
  unfold history at 1. simpl. rewrite history_push_all.
  unfold snap_read. rewrite Hx. destruct (a_writes x !! rid) as [w|], (write_set t !! rid); simpl; try naive_solver.
  by rewrite Z.leb_refl.
Qed.

Lemma drop_unchanged c a id s :
  csim c a -> c_commit c = None -> csim (after c id s) (drop_txn id a) -> unchanged_for_others c (after c id s) id.
Proof. intros HS Hcm HS'. eapply same_but_unchanged; [exact HS|done|exact HS'|]. apply same_but_drop. Qed.

Lemma committed_others c a id t x s' :
  csim c a -> c_commit c = None -> c_txns c !! id = Some t -> is_active t = true -> s_active a !! id = Some x ->
  csim (after c id s') (snap_committed a id x) ->
  forall id' t' rid v, id' <> id -> c_txns c !! id' = Some t' -> is_active t' = true ->
    c_txns (after c id s') !! id' = Some t' /\ (reads (after c id s') t' rid v <-> reads c t' rid v).
Proof.
  intros HS Hcm Ht Ha Hx HS' id' t' rid v Hne Ht' Ha'.
  assert (Ht2 : c_txns (after c id s') !! id' = Some t') by (simpl; by rewrite lookup_insert_ne).
  split; [done|]. rewrite (reads_iff _ _ _ _ _ _ HS' Ht2 Ha') by (intros dn; simpl; by rewrite Hcm).
  rewrite (reads_iff _ _ _ _ _ _ HS Ht' Ha') by (intros dn; by rewrite Hcm).
  pose proof HS as (C & HC & HI).
  destruct (inv_active _ _ _ _ HI Ht' Ha') as (_ & _ & Hle & x' & Hx' & Hr & _ & Hdom').
  simpl. rewrite (pushed_hist c a id t x rid (a_writes x) (s_now a + 1) HS Ht Ha Hx) by done.
  unfold snap_read. simpl. rewrite lookup_delete_ne by done. rewrite Hx'. simpl.
  unfold history at 1. simpl. rewrite history_push_all.
  destruct (a_writes x' !! rid); simpl; [done|]. simpl in Hle.
  destruct (a_writes x !! rid) as [w|]; [|done]. rewrite view_push by lia. done.
Qed.

(** What transactions read that begin after a commit of [t] took [c] to [c']: its writes, what
    failed commits left behind, and otherwise what they read before. *)
Definition published (c c' : cf) (t : Transaction) : Prop :=
  forall rid, match write_set t !! rid with
  | Some _ => forall v, next_reads c' rid v <-> reads c t rid v
  | None =>
      (forall w, write_set t <> ∅ -> left_over c rid w ->
        c_stuck c <> ∅ /\ forall v, next_reads c' rid v <-> v = w) /\
      (write_set t = ∅ \/ (forall w, ~ left_over c rid w) -> forall v, next_reads c' rid v <-> next_reads c rid v)
  end.

Lemma committed_published c a id t x s' :
  csim c a -> c_commit c = None -> c_txns c !! id = Some t -> state t = Running -> s_active a !! id = Some x ->
  s_now a + 1 < TXN_START_ID -> write_set t <> ∅ -> csim (after c id s') (snap_committed a id x) ->
  published c (after c id s') t.
Proof.
  intros HS Hcm Ht Hr Hx Hmax Hw HS' rid.
  assert (Ha : is_active t = true) by (unfold is_active; apply bool_decide_true; auto).
  assert (Hidle : idle c id) by (intros dn; by rewrite Hcm).
  pose proof (fun v => committed_views c a id t x rid v HS Ht Hr Hx) as Hviews.
  destruct (write_set t !! rid).
  { intros v. rewrite (next_reads_iff _ _ _ _ HS'). etrans; [exact (Hviews v)|].
    by rewrite (reads_iff _ _ _ _ _ _ HS Ht Ha Hidle). }
  split.
  - intros w _ Hl. split; [by eapply left_over_stuck|]. intros v. rewrite (next_reads_iff _ _ _ _ HS').
    etrans; [exact (Hviews v)|]. pose proof Hl as (y & Hrow & _).
    assert (Hk : is_Some (s_hist a !! rid)).
    { apply (known_reads c a t rid HS). eexists _, y. by split. }
    apply (left_over_iff c a rid w HS Hcm Hmax) in Hl as [_ ->]. naive_solver.
  - intros [?|Hno] v; [done|]. rewrite (next_reads_iff _ _ _ _ HS'), (next_reads_iff _ _ _ _ HS).
    etrans; [exact (Hviews v)|]. rewrite view_now; [done|].
    apply Z.nlt_ge. intros Hlt. apply (Hno (view (s_now a + 1) (history a rid))).
    by apply (left_over_iff c a rid _ HS Hcm Hmax).
Qed.

(** C16: a commit is atomic. When it returns a timestamp, transactions that begin afterwards
    read the values of all its writes and otherwise what they read before, apart from rows
    that an earlier commit left stamped because it could not take its stamps back; and active
    transactions read what they read before. When storage fails and the stamps could be taken
    back, nobody reads anything new and the transaction is tainted. When they could not, the
    same holds now, the error says so, and some write of the transaction is left for the next
    commit to publish. *)
Theorem commit_atomic c0 a0 c id t :
  booted c0 a0 -> steps c0 c -> c_txns c !! id = Some t -> c_commit c = None ->
  last_commit_ts (c_mgr c) + 1 < TXN_START_ID ->
  match commit (txn_state c t) with
  | (Ok cts, s') => let c' := after c id s' in
      state t = Running /\ s'.2.2 = Transaction.finish Committed (Some cts) t /\
      cts = last_commit_ts (c_mgr c) + (if decide (write_set t = ∅) then 0 else 1) /\
      published c c' t /\
      forall id' t' rid v, id' <> id -> c_txns c !! id' = Some t' -> is_active t' = true ->
        c_txns c' !! id' = Some t' /\ (reads c' t' rid v <-> reads c t' rid v)
  | (Err (InvalidState st), s') => st = state t /\ st <> Running /\ s' = txn_state c t
  | (Err (Storage _), s') => state t = Running /\ s'.2 = (c_mgr c, Transaction.set_tainted t) /\
      unchanged_for_others c (after c id s') id /\
      forall rid v, reads (after c id s') (Transaction.set_tainted t) rid v <-> reads c t rid v
  | (Err (CommitNotUndone _ _ _), s') => let c' := leave_stamps id (after c id s') in
      state t = Running /\ s'.2 = (c_mgr c, Transaction.set_tainted t) /\ steps c c' /\
      unchanged_for_others c c' id /\
      exists rid v, is_Some (write_set t !! rid) /\ reads c t rid v /\ left_over c' rid v
  | (Err _, _) | (Panic, _) => False
  end.
Proof.
  intros Hb Hst Ht Hcm Hmax. destruct (reachable c0 a0 c Hb Hst) as (a & HS & _).
  assert (Hidle : idle c id) by (intros dn; by rewrite Hcm).
  assert (Hnow : last_commit_ts (c_mgr c) = s_now a).
  { destruct HS as (C & HC & HI). apply (ck_now _ _ _ _ (inv_clocks _ _ HI)). }
  assert (Hmax' : s_now a + 1 < TXN_START_ID) by lia.
  assert (Hact : state t = Running -> is_active t = true) by (intros; unfold is_active; apply bool_decide_true; auto).
  pose proof (commit_steps (IE := IE) c a id t HS Ht Hcm Hmax) as Hc.
  destruct (commit (txn_state c t)) as [[cts|e|] s'] eqn:Hrun; [| |done].
  - destruct Hc as (Hr & Hfin & _ & Hc). cbv zeta. specialize (Hact Hr). split; [done|]. split; [done|]. case_decide as Hw.
    + destruct Hc as [-> HS']. split; [lia|].
      destruct (drop_unchanged c a id s' HS Hcm HS') as [Hn Ho]. split; [|done].
      intros rid. rewrite Hw, lookup_empty. done.
    + destruct Hc as (-> & x & Hx & HS'). split; [lia|]. split; [by eapply committed_published|].
      apply (committed_others c a id t x s'); done.
  - destruct Hc as [(Hr & -> & ->)|(Hr & Hf)]; [done|]. specialize (Hact Hr).
    destruct Hf as [((cause & r & undo & ->) & Hw & Hsteps & x & dn & Hx & Hne & Hdn & HS')|
      ((e' & ->) & Hw & _ & a' & HS' & Hsb & Hsr)].
    + cbv zeta. split_and!; [done|done|done|by eapply left_unchanged|by eapply left_exists].
    + rewrite with_commit_after in HS' by done. split_and!; [done|done|by eapply same_but_unchanged|].
      intros rid v. rewrite (reads_iff _ _ _ _ _ _ HS Ht Hact Hidle).
      assert (Ht' : c_txns (after c id s') !! id = Some (Transaction.set_tainted t)).
      { rewrite after_lookup. by rewrite Hw. }
      rewrite (reads_iff _ _ _ _ _ _ HS' Ht'), Hsr; [|by apply tainted_active|intros dn; simpl; by rewrite Hcm].
      by destruct Hsb as (_ & -> & _).
Qed.

(** C17: an abort that returns leaves the transaction aborted; the slot of every row that it
    had written is again the version that the row's undo chain started with, which has left the
    chain, the rows that it had inserted are deleted, and all other rows and chains are as they
    were. One that is stopped has done so for some of the writes, leaves the transaction tainted
    with the others still to be rolled back, and can be repeated. What stops it is storage, or a
    slot that a commit of the same transaction left stamped when it failed. In neither case do
    others read anything new. *)
Theorem abort_restores c0 a0 c id t :
  booted c0 a0 -> steps c0 c -> c_txns c !! id = Some t -> c_commit c = None ->
  match abort (txn_state c t) with
  | (Ok _, s') => is_active t = true /\ state s'.2.2 = Aborted /\
      steps c (after c id s') /\ rolled_back (write_set t) c (after c id s') /\
      unchanged_for_others c (after c id s') id
  | (Err (InvalidState st), s') => st = state t /\ is_active t = false /\ s' = txn_state c t
  | (Err e, s') => is_active t = true /\
      (exists w, w ⊆ write_set t /\ s'.2.2 = Transaction.with_writes w (Transaction.set_tainted t) /\
        rolled_back (write_set t ∖ w) c (after c id s')) /\
      steps c (after c id s') /\ unchanged_for_others c (after c id s') id /\
      match e with
      | Storage _ => True
      | UnexpectedStamp rid expected found => id ∈ c_stuck c /\ is_Some (write_set t !! rid) /\ expected = id /\
          exists x, row_at c rid x /\ ts x.1 = found /\ found <> id
      | _ => False
      end
  | (Panic, _) => False
  end.
Proof.
  intros Hb Hst Ht Hcm. destruct (reachable c0 a0 c Hb Hst) as (a & HS & _).
  pose proof (abort_steps (IE := IE) c a id t HS Ht Hcm) as Hab.
  destruct (abort (txn_state c t)) as [[u|e|] s']; [| |done].
  - destruct Hab as (Ha & Hsteps & Hab & Hrb & a' & HS' & Hsb & _). split_and!; try done.
    by eapply same_but_unchanged.
  - destruct Hab as [(Ha & -> & ->)|(Ha & (rid & Hin & He) & Hsteps & Hw & a' & HS' & Hsb)]; [done|].
    assert (Hun : unchanged_for_others c (after c id s') id) by by eapply same_but_unchanged.
    destruct He as [[e' ->]|(Hstuck & x & Hrow & Hne & ->)]; split_and!; try done. by exists x.
Qed.

(** C18: writing a version. On success the transaction saw the row, reads what it wrote, and has
    the row in its write set. A conflict is reported only for a row whose newest version another
    transaction wrote or committed after the snapshot. In both cases, and when storage fails,
    others read what they read before. *)
Theorem write_outcomes c0 a0 c id t rid meta d new :
  booted c0 a0 -> steps c0 c -> c_txns c !! id = Some t -> is_active t = true -> c_commit c = None ->
  row_at c rid (meta, d) -> from_option (Forall is_byte) True new ->
  match write_version (IE := IE) rid new (txn_state c t) with
  | (Ok _, s') => let c' := after c id s' in
      visible_version t (c_mgr c) rid meta d <> None /\
      reads c' s'.2.2 rid new /\ is_Some (write_set s'.2.2 !! rid) /\
      unchanged_for_others c c' id
  | (Err (MTxn (WriteConflict r)), s') => r = rid /\ ts meta <> txn_id t /\
      (is_txn_id (ts meta) = true \/ read_ts t < ts meta) /\ unchanged_for_others c (after c id s') id
  | (Err (MTxn (Storage _)), s') => unchanged_for_others c (after c id s') id
  | (Err _, _) | (Panic, _) => False
  end.
Proof.
  intros Hb Hst Ht Ha Hcm Hrow Hnew. destruct (reachable c0 a0 c Hb Hst) as (a & HS & _).
  assert (Hidle : idle c id) by (intros dn; by rewrite Hcm).
  pose proof (write_version_ok (IE := IE) c a id t rid meta d new HS Ht Ha Hidle Hrow Hnew) as Hw.
  destruct (write_version rid new (txn_state c t)) as [[u|e|] s']; [| |done].
  - destruct Hw as (Hsame & x & Hx & Hnone & Hsn & HS').
    assert (Hsee : reads c t rid (visible_version t (c_mgr c) rid meta d)) by (by exists (meta, d)).
    assert (Ht' : c_txns (after c id s') !! id = Some s'.2.2) by apply after_lookup.
    assert (Ha' : is_active s'.2.2 = true) by by rewrite (same_txn_active _ _ Hsame).
    assert (Hidle' : idle (after c id s') id) by (intros dn; simpl; by rewrite Hcm).
    cbv zeta. split_and!; [..|eapply same_but_unchanged; [exact HS|done|exact HS'|apply same_but_put]].
    + rewrite (active_reads _ _ _ _ _ _ HS Ht Ha Hidle Hsee). done.
    + apply (reads_iff _ _ _ _ _ _ HS' Ht' Ha' Hidle'). split.
      * simpl. apply (known_reads c a t rid HS). eauto.
      * unfold snap_read. simpl. by rewrite lookup_insert_eq; simpl; rewrite lookup_insert_eq.
    + destruct HS' as (C' & _ & HI').
      destruct (inv_active _ _ _ _ HI' Ht' Ha') as (_ & _ & _ & x' & Hx' & _ & _ & Hdom).
      simpl in Hx'. rewrite lookup_insert_eq in Hx'. injection Hx' as <-.
      destruct (write_set s'.2.2 !! rid) eqn:E; [eauto|]. apply (proj1 Hdom) in E. simpl in E.
      by rewrite lookup_insert_eq in E.
  - destruct Hw as (_ & HS' & Href).
    assert (Hun : unchanged_for_others c (after c id s') id).
    { eapply same_but_unchanged; [exact HS|done|exact HS'|apply same_but_refl]. }
    destruct Href as [[e' ->]|(-> & Hne & Hwhy)]; [done|]. by split_and!.
Qed.

(** C19: garbage collection changes nothing that anybody reads; when it finishes, every chain
    that is left has a slot newer than the watermark and at most its last entry at or below
    it; and with no transaction active no chain is left. *)
Theorem gc_transparent c0 a0 c :
  booted c0 a0 -> steps c0 c -> c_commit c = None ->
  let w := watermark (c_mgr c) in
  match garbage_collect (c_store c, c_mgr c) with
  | (Ok st, (s', m')) => let c' := mkConf s' m' (c_txns c) None w (c_stuck c) in
      steps c c' /\ (forall id, unchanged_for_others c c' id) /\
      (forall rid l, versions m' !! rid = Some l -> exists x, row_at c' rid x /\ w < ts x.1 /\
        forall k e, l = k ++ [e] -> Forall (fun u => w < u_ts u) k) /\
      ((forall id t, c_txns c !! id = Some t -> is_active t = false) -> versions m' = ∅)
  | (Err (Storage _), (s', m')) => let c' := mkConf s' m' (c_txns c) None w (c_stuck c) in
      steps c c' /\ forall id, unchanged_for_others c c' id
  | (Err _, _) | (Panic, _) => False
  end.
Proof.
  intros Hb Hst Hcm. cbv zeta. destruct (reachable c0 a0 c Hb Hst) as (a & HS & _).
  pose proof (garbage_collect_steps (IE := IE) c a HS) as Hg. rewrite Hcm in Hg.
  assert (Hun : forall s m, csim (mkConf s m (c_txns c) None (watermark (c_mgr c)) (c_stuck c)) a ->
    forall id, unchanged_for_others c (mkConf s m (c_txns c) None (watermark (c_mgr c)) (c_stuck c)) id).
  { intros s m HS' id. split.
    - intros rid v. by rewrite (next_reads_iff _ _ _ _ HS'), (next_reads_iff _ _ _ _ HS).
    - intros id' t rid v _ Ht Ha. split; [done|]. rewrite (reads_iff _ _ id' _ _ _ HS') by done.
      by rewrite (reads_iff _ _ id' _ _ _ HS) by (try intros dn; by rewrite ?Hcm). }
  destruct (garbage_collect (c_store c, c_mgr c)) as [[st|e|] [s' m']] eqn:Hrun; [| |done].
  2:{ destruct e; try done. destruct Hg as (_ & ? & HS'). split; [done|]. by apply Hun. }
  destruct Hg as (_ & Hsteps & HS'). split; [done|]. split; [by apply Hun|].
  destruct (garbage_collect_tidy c a st s' m' HS Hrun) as (C & HC & HC' & Htidy). split.
  - intros rid l Hl. destruct (Htidy rid l Hl) as (x & Hx & Hw & Hk). exists x. split_and!; try done. by exists C.
  - intros Hno. apply map_empty. intros rid. destruct (versions m' !! rid) as [l|] eqn:Hl; [|done].
    destruct (Htidy rid l Hl) as (x & Hx & Hw & _). pose proof HS as (C0 & HC0 & HI0).
    pose proof (watermark_alone _ a HI0 Hno) as Hnow. simpl in Hnow. rewrite Hnow in Hw. destruct HS' as (C1 & HC1 & HI1).
    rewrite (store_is_fun _ _ _ HC' HC1) in Hx. destruct (inv_rows _ _ HI1 rid) as (oc & Hown & _ & Hrow).
    simpl in Hrow, Hown. rewrite Hx in Hrow. destruct Hrow as (_ & _ & Hrow). destruct oc as [cl|].
    2:{ destruct Hrow as (_ & _ & _ & Hn). cbn in Hn. destruct (inv_future _ _ HI1 rid ltac:(lia)) as (i & _ & u & z & Hu & Hua & _).
        by rewrite (Hno i u Hu) in Hua. }
    destruct Hown as (id & Hcl & _). unfold claim_of in Hcl. destruct (c_txns c !! id) as [t|] eqn:Ht; [|done].
    destruct (s_active a !! id); [|done]. by rewrite (Hno id t Ht) in Hcl.
Qed.

End theorems.
