(* ===== verification/MvccWitness.v ===== *)
(** * A run of two transactions

    A heap with one row, on which a transaction reads while another updates the row and
    commits: the hypotheses of the theorems on snapshot isolation hold along the run. *)

From Stdlib Require Import ZArith Lia.
From stdpp Require Import base gmap list numbers option relations.
From S2P Require Import Prelude Bytes Ids Buf TablePage TablePageProofs TableHeap SlotStore.
From S2P Require Import TableHeapProofs TableHeapTheorems.
From S2P Require Import Transaction TxnManager Mvcc MvccSpec MvccInv MvccSteps MvccOps MvccTheorems.
Import TxnManager Mvcc.

Local Open Scope Z_scope.

#[export] Instance list_order : MapOrder RecordId := {
  map_entries A m := map_to_list m;
  map_entries_perm A m := Permutation_refl (map_to_list m);
}.

Abbreviation store := (Heap * MapPool)%type.
Abbreviation wstep := (step (S := store) (BE := MapPoolError) (IE := unit)).

Definition run_begin (c : conf store) : conf store :=
  let '(t, m) := begin SnapshotIsolation (c_mgr c) in
  mkConf (c_store c) m (<[txn_id t := t]> (c_txns c)) (c_commit c) (c_gc c) (c_stuck c).

Definition handle (c : conf store) (id : TxnId) : Transaction :=
  default (Transaction.new 0 0 SnapshotIsolation) (c_txns c !! id).

Definition run_write (id : TxnId) (rid : RecordId) (new : option bytes) (c : conf store) : conf store :=
  after c id (write_version (IE := unit) rid new (txn_state c (handle c id))).2.

Definition run_commit (id : TxnId) (c : conf store) : conf store :=
  after c id (commit (txn_state c (handle c id))).2.

Definition row_id0 : RecordId := mkRid 0 0.
Definition reader : TxnId := TXN_START_ID.
Definition writer : TxnId := TXN_START_ID + 1.

Definition conf0 : conf store := mkConf heap1 (resume 0 0) ∅ None 0 ∅.
Definition conf1 : conf store := run_begin (run_begin conf0).
Definition conf2 : conf store := run_write writer row_id0 (Some [9; 9]) conf1.
Definition conf3 : conf store := run_commit writer conf2.

Definition snap_at0 : snap := mkSnap 0 ((fun x => [slot_version x]) <$> {[row_id0 := row0]}) ∅.

Lemma conf0_store : store_is (c_store conf0) {[row_id0 := row0]}.
Proof.
  destruct heap1_is as (L & HH & Hr & _). exists L. split; [exact HH|].
  unfold row_map. by rewrite Hr.
Qed.

Lemma conf0_booted : booted conf0 snap_at0.
Proof.
  exists {[row_id0 := row0]}, 0. split_and!; try done.
  - apply conf0_store.
  - intros rid x [_ <-]%lookup_singleton_Some. split_and!; [apply meta0_valid|apply data0_bytes|done].
Qed.

Lemma begin_step c : next_txn_id (c_mgr c) < u64_max -> wstep c (run_begin c).
Proof. intros Hlt. unfold run_begin. destruct (begin _ _) as [t m] eqn:E. by eapply step_begin. Qed.

Lemma conf1_steps : rtc wstep conf0 conf1.
Proof. eapply rtc_l; [|apply rtc_once]; by apply begin_step. Qed.

Lemma conf1_row : row_at conf1 row_id0 row0.
Proof. exists {[row_id0 := row0]}. split; [exact conf0_store|apply lookup_singleton_eq]. Qed.

Lemma handle_at c id : bool_decide (is_Some (c_txns c !! id)) = true -> c_txns c !! id = Some (handle c id).
Proof. intros [t Ht]%bool_decide_eq_true. unfold handle. by rewrite Ht. Qed.

Lemma handle_after c id s : handle (after c id s) id = s.2.2.
Proof. unfold handle. by rewrite after_lookup. Qed.

Lemma conf2_step : wstep conf1 conf2.
Proof.
  eapply (step_write conf1 writer (handle conf1 writer) row_id0 row0 (Some [9; 9])).
  - apply handle_at. vm_compute. reflexivity.
  - vm_compute. reflexivity.
  - by intros dn.
  - exact conf1_row.
  - repeat constructor; unfold is_byte; lia.
  - apply surjective_pairing.
Qed.

Lemma conf2_steps : rtc wstep conf0 conf2.
Proof. eapply rtc_r; [exact conf1_steps|exact conf2_step]. Qed.

Lemma run_commit_steps c a id :
  csim c a -> c_txns c !! id = Some (handle c id) -> c_commit c = None ->
  last_commit_ts (c_mgr c) + 1 < TXN_START_ID ->
  is_ok (commit (txn_state c (handle c id))).1 = true -> rtc wstep c (run_commit id c).
Proof.
  intros HS Ht Hcm Hmax Hok. pose proof (commit_steps (IE := unit) c a id (handle c id) HS Ht Hcm Hmax) as Hc.
  unfold run_commit. destruct (commit (txn_state c (handle c id))) as [[cts|e|] s']; [|done..].
  by destruct Hc as (_ & _ & Hc & _).
Qed.

Lemma conf2_facts : c_txns conf2 !! writer = Some (handle conf2 writer) /\ c_commit conf2 = None /\
  last_commit_ts (c_mgr conf2) + 1 < TXN_START_ID /\
  is_ok (commit (txn_state conf2 (handle conf2 writer))).1 = true.
Proof. vm_compute. done. Qed.

Lemma conf3_step : rtc wstep conf2 conf3.
Proof.
  destruct (reachable (IE := unit) conf0 snap_at0 conf2 conf0_booted conf2_steps) as (a & HS & _).
  destruct conf2_facts as (Ht & Hcm & Hmax & Hok). exact (run_commit_steps conf2 a writer HS Ht Hcm Hmax Hok).
Qed.

Lemma conf3_steps : rtc wstep conf0 conf3.
Proof. etrans; [exact conf2_steps|exact conf3_step]. Qed.

Lemma conf1_reads id : id ∈ [reader; writer] -> reads conf1 (handle conf1 id) row_id0 (Some [1; 2; 3]).
Proof.
  intros Hid. exists row0. split; [exact conf1_row|]. repeat (apply list.elem_of_cons in Hid as [->|Hid]).
  1,2: vm_compute; reflexivity. by apply elem_of_nil in Hid.
Qed.

Lemma conf1_handle id : id ∈ [reader; writer] -> c_txns conf1 !! id = Some (handle conf1 id) /\
  is_active (handle conf1 id) = true /\ write_set (handle conf1 id) = ∅.
Proof.
  intros Hid. repeat (apply list.elem_of_cons in Hid as [->|Hid]); [vm_compute; done..|].
  by apply elem_of_nil in Hid.
Qed.

Lemma conf2_handle : c_txns conf2 !! writer = Some (handle conf2 writer) /\
  is_active (handle conf2 writer) = true /\ write_set (handle conf2 writer) !! row_id0 = Some true.
Proof. vm_compute. done. Qed.

Lemma conf3_handle : c_txns conf3 !! reader = Some (handle conf3 reader) /\
  is_active (handle conf3 reader) = true /\ write_set (handle conf3 reader) = ∅.
Proof. vm_compute. done. Qed.

Lemma mvcc_refines_snapshots_witness : exists a, rtc snap_step snap_at0 a /\ csim conf3 a /\
  forall x, row_at conf3 row_id0 x ->
  match read_visible row_id0 (txn_state conf3 (handle conf3 reader)) with
  | (Ok v, _) => v = snap_read a reader row_id0
  | (Err _, _) => True
  | (Panic, _) => False
  end.
Proof.
  destruct (mvcc_refines_snapshots (IE := unit) conf0 snap_at0 conf3 conf0_booted conf3_steps)
    as (a & Ha & HS & Hread).
  exists a. split_and!; [exact Ha|exact HS|]. intros x Hx. destruct conf3_handle as (Ht & Hact & _).
  assert (Hcm : c_commit conf3 = None) by (vm_compute; reflexivity).
  assert (Hid : idle conf3 reader) by (intros dn; rewrite Hcm; discriminate).
  exact (Hread reader (handle conf3 reader) row_id0 x Ht Hact Hid Hx).
Defined.

(** The reader still reads the row as it was when the writer has committed its update. *)
Lemma repeatable_read_witness : reads conf3 (handle conf3 reader) row_id0 (Some [1; 2; 3]).
Proof.
  destruct (conf1_handle reader) as (Ht & Ha & Hw); [apply list_elem_of_here|]. destruct conf3_handle as (Ht' & Ha' & Hw').
  assert (Hst : rtc wstep conf1 conf3) by (eapply rtc_l; [exact conf2_step|exact conf3_step]).
  assert (Hw0 : write_set (handle conf1 reader) !! row_id0 = None) by by rewrite Hw.
  assert (Hw0' : write_set (handle conf3 reader) !! row_id0 = None) by by rewrite Hw'.
  assert (Hcm : c_commit conf3 = None) by (vm_compute; reflexivity).
  assert (Hid : idle conf1 reader) by by intros dn.
  assert (Hid' : idle conf3 reader) by (intros dn; rewrite Hcm; discriminate).
  assert (Hr : reads conf1 (handle conf1 reader) row_id0 (Some [1; 2; 3])) by (apply conf1_reads; apply list_elem_of_here).
  exact (repeatable_read (IE := unit) conf0 snap_at0 conf1 conf3 reader (handle conf1 reader)
    (handle conf3 reader) row_id0 (Some [1; 2; 3]) conf0_booted conf1_steps Hst Ht Ha Hid Hw0 Ht' Ha' Hid' Hw0' Hr).
Defined.

Lemma one_writer_witness :
  holds conf2 writer row_id0 /\
  (forall id' t', c_txns conf2 !! id' = Some t' -> is_active t' = true -> id' <> writer ->
    write_set t' !! row_id0 = None) /\
  match version_chain (c_mgr conf2) row_id0 with
  | [] => true = false
  | l :: _ => true = true /\ u_ts l <= read_ts (handle conf2 writer)
  end.
Proof.
  destruct conf2_handle as (Ht & Ha & Hw).
  assert (Hs : forall id, ~ id ∈ c_stuck conf2) by (intros id; vm_compute; discriminate).
  destruct (one_writer (IE := unit) conf0 snap_at0 conf2 writer (handle conf2 writer) row_id0 true
    conf0_booted conf2_steps Ht Ha Hw) as [(Hh & Ho & Hch)|(_ & Hin & _)]; [|destruct (Hs _ Hin)].
  split_and!; [exact Hh| |exact Hch].
  intros id' t' Ht' Ha' Hne. destruct (Ho id' t' Ht' Ha' Hne) as [E|(_ & Hin & _)]; [exact E|destruct (Hs _ Hin)].
Defined.

(** A transaction that begins after the commit reads what the writer read before it. *)
Lemma commit_atomic_witness :
  next_reads conf3 row_id0 (Some [9; 9]) <-> reads conf2 (handle conf2 writer) row_id0 (Some [9; 9]).
Proof.
  destruct conf2_facts as (Ht & Hcm & Hmax & Hok). destruct conf2_handle as (_ & Ha & Hw).
  pose proof (commit_atomic (IE := unit) conf0 snap_at0 conf2 writer (handle conf2 writer)
    conf0_booted conf2_steps Ht Hcm Hmax) as Hc.
  unfold conf3, run_commit.
  destruct (commit (txn_state conf2 (handle conf2 writer))) as [[cts|e|] s']; [|discriminate Hok..].
  destruct Hc as (_ & _ & _ & Hn & _). specialize (Hn row_id0). rewrite Hw in Hn. exact (Hn (Some [9; 9])).
Defined.

Lemma abort_restores_witness :
  match abort (txn_state conf2 (handle conf2 writer)) with
  | (Ok _, s') => rolled_back {[row_id0 := true]} conf2 (after conf2 writer s') /\
      unchanged_for_others conf2 (after conf2 writer s') writer
  | _ => False
  end.
Proof.
  destruct conf2_facts as (Ht & Hcm & _).
  pose proof (abort_restores (IE := unit) conf0 snap_at0 conf2 writer (handle conf2 writer)
    conf0_booted conf2_steps Ht Hcm) as Hc.
  assert (Hok : is_ok (abort (txn_state conf2 (handle conf2 writer))).1 = true) by (vm_compute; reflexivity).
  destruct (abort (txn_state conf2 (handle conf2 writer))) as [[u|e|] s']; [|discriminate Hok..].
  destruct Hc as (_ & _ & _ & Hrb & Hun). split; [|exact Hun].
  assert (E : write_set (handle conf2 writer) = {[row_id0 := true]}) by (vm_compute; reflexivity).
  rewrite E in Hrb. exact Hrb.
Defined.

(** The writer reads its write. *)
Lemma write_outcomes_witness : reads conf2 (handle conf2 writer) row_id0 (Some [9; 9]).
Proof.
  destruct (conf1_handle writer) as (Ht & Ha & Hw); [apply list_elem_of_further, list_elem_of_here|].
  assert (Hb : from_option (Forall is_byte) True (Some [9; 9])) by (repeat constructor; unfold is_byte; lia).
  pose proof (write_outcomes (IE := unit) conf0 snap_at0 conf1 writer (handle conf1 writer) row_id0
    meta0 [1; 2; 3] (Some [9; 9]) conf0_booted conf1_steps Ht Ha eq_refl conf1_row Hb) as Hc.
  assert (Hok : is_ok (write_version (IE := unit) row_id0 (Some [9; 9])
    (txn_state conf1 (handle conf1 writer))).1 = true) by (vm_compute; reflexivity).
  unfold conf2, run_write. rewrite handle_after.
  destruct (write_version row_id0 (Some [9; 9]) (txn_state conf1 (handle conf1 writer)))
    as [[u|e|] s']; [|discriminate Hok..].
  destruct Hc as (_ & Hr & _). exact Hr.
Defined.

Lemma gc_transparent_witness :
  match garbage_collect (c_store conf3, c_mgr conf3) with
  | (Ok _, (s', m')) =>
      forall id, unchanged_for_others conf3 (mkConf s' m' (c_txns conf3) None (watermark (c_mgr conf3)) (c_stuck conf3)) id
  | _ => False
  end.
Proof.
  assert (Hcm : c_commit conf3 = None) by (vm_compute; reflexivity).
  pose proof (gc_transparent (IE := unit) conf0 snap_at0 conf3 conf0_booted conf3_steps Hcm) as Hc.
  cbv zeta in Hc.
  assert (Hok : is_ok (garbage_collect (c_store conf3, c_mgr conf3)).1 = true) by (vm_compute; reflexivity).
  destruct (garbage_collect (c_store conf3, c_mgr conf3)) as [[st|e|] [s' m']]; [|discriminate Hok..].
  destruct Hc as (_ & Hc & _). exact Hc.
Defined.
