(* ===== verification/Files.v ===== *)
(** * Files

    The part of [std::fs] that the storage layer uses, on three files of one directory: the
    data file, the log, and the log's replacement while it is written aside. Every call can
    fail: [faults] says, call by call, which do, and how many bytes a failing write leaves
    behind. What an fsync makes durable is kept beside the bytes: [synced] of a log, the
    pages of the data file written since its last sync, and the logs that a rename replaced
    since the last sync of the directory, any of which may come back. *)

From Stdlib Require Import ZArith Lia.
From stdpp Require Import base gmap list numbers option.
From S2P Require Import Prelude Bytes Ids Buf.

Local Open Scope Z_scope.

Inductive LogDefect : Type := | HeaderCutShort | NotALogHeader | OtherVersion.

Inductive IoError : Type :=
| OsError
| UnexpectedEof
| InvalidData (what : LogDefect)
| BrokenLog
| PageMissing (id : PageId)
| PageOutOfRange (raw : Z).

(** A log file: its bytes, and how many of its first bytes survive a power failure. *)
Record LogFile : Type := mkLogFile { contents : bytes; synced : Z }.

Record Files : Type := mkFiles {
  log_file : option LogFile;
  old_logs : list (option LogFile);
  aside_file : option LogFile;
  data_file : bytes;
  data_pending : gset PageId;
  faults : list (option nat);
}.

Module Files.

Definition with_log (l : option LogFile) (fs : Files) : Files :=
  mkFiles l (old_logs fs) (aside_file fs) (data_file fs) (data_pending fs) (faults fs).
Definition with_aside (l : option LogFile) (fs : Files) : Files :=
  mkFiles (log_file fs) (old_logs fs) l (data_file fs) (data_pending fs) (faults fs).
Definition with_data (d : bytes) (p : gset PageId) (fs : Files) : Files :=
  mkFiles (log_file fs) (old_logs fs) (aside_file fs) d p (faults fs).
Definition with_faults (f : list (option nat)) (fs : Files) : Files :=
  mkFiles (log_file fs) (old_logs fs) (aside_file fs) (data_file fs) (data_pending fs) f.

(** [file.write_all_at(bs, off)]: a write past the end fills the gap with zeros. *)
Definition write_at (l : bytes) (off : Z) (bs : bytes) : bytes :=
  let n := Z.to_nat off in
  take n l ++ replicate (n - length l) 0 ++ bs ++ drop (n + length bs) l.

Definition write_log (off : Z) (bs : bytes) (f : LogFile) : LogFile :=
  mkLogFile (write_at (contents f) off bs) (Z.min (synced f) off).

Definition sync_log (f : LogFile) : LogFile := mkLogFile (contents f) (len (contents f)).

(** One call. [torn n] is what a call that fails leaves behind. *)
Definition io {A} (torn : nat -> Files -> Files) (act : Files -> outcome IoError A * Files)
    : M Files IoError A := fun fs =>
  match faults fs with
  | Some n :: rest => (Err OsError, torn n (with_faults rest fs))
  | None :: rest => act (with_faults rest fs)
  | [] => act fs
  end.

(** A call that leaves nothing behind when it fails. *)
Definition call {A} (act : Files -> outcome IoError A * Files) : M Files IoError A := io (fun _ fs => fs) act.

Definition update (f : Files -> Files) : M Files IoError unit := call (fun fs => (Ok tt, f fs)).

(** ** The log *)

(** [File::open(path)], [None] when there is no file, and its bytes. *)
Definition open_log : M Files IoError (option bytes) :=
  call (fun fs => (Ok (contents <$> log_file fs), fs)).

(** [file.metadata()?.len()] *)
Definition log_len (b : bytes) : M Files IoError Z := call (fun fs => (Ok (len b), fs)).

(** [OpenOptions::new().create(true).open(path)] *)
Definition create_log : M Files IoError unit :=
  update (fun fs => match log_file fs with
                    | Some _ => fs
                    | None => mkFiles (Some (mkLogFile [] 0)) (None :: old_logs fs) (aside_file fs)
                                (data_file fs) (data_pending fs) (faults fs)
                    end).

Definition write_log_at (off : Z) (bs : bytes) : M Files IoError unit :=
  io (fun n fs => with_log (write_log off (take n bs) <$> log_file fs) fs)
     (fun fs => (Ok tt, with_log (write_log off bs <$> log_file fs) fs)).

Definition sync_log_file : M Files IoError unit := update (fun fs => with_log (sync_log <$> log_file fs) fs).

(** [file.read_exact_at(buf, off)] on the log *)
Definition read_log_at (off n : Z) : M Files IoError bytes :=
  call (fun fs => match log_file fs with
                  | Some f => if off + n <=? len (contents f) then (Ok (sub (contents f) off n), fs)
                              else (Err UnexpectedEof, fs)
                  | None => (Err OsError, fs)
                  end).

(** ** The log written aside *)

Definition create_aside : M Files IoError unit := update (with_aside (Some (mkLogFile [] 0))).

Definition write_aside_at (off : Z) (bs : bytes) : M Files IoError unit :=
  io (fun n fs => with_aside (write_log off (take n bs) <$> aside_file fs) fs)
     (fun fs => (Ok tt, with_aside (write_log off bs <$> aside_file fs) fs)).

Definition sync_aside : M Files IoError unit := update (fun fs => with_aside (sync_log <$> aside_file fs) fs).

(** [rename(aside, path)]: until the directory is synced the old log may come back. *)
Definition rename_aside : M Files IoError unit :=
  update (fun fs => mkFiles (aside_file fs) (log_file fs :: old_logs fs) None
                      (data_file fs) (data_pending fs) (faults fs)).

Definition sync_dir : M Files IoError unit :=
  update (fun fs => mkFiles (log_file fs) [] (aside_file fs) (data_file fs) (data_pending fs) (faults fs)).

(** ** The data file *)

Definition page_offset (id : PageId) : Z := id * PAGE_SIZE.

Definition write_data (id : PageId) (bs : bytes) : M Files IoError unit :=
  io (fun n fs => with_data (write_at (data_file fs) (page_offset id) (take n bs)) ({[id]} ∪ data_pending fs) fs)
     (fun fs => (Ok tt, with_data (write_at (data_file fs) (page_offset id) bs) ({[id]} ∪ data_pending fs) fs)).

Definition sync_data : M Files IoError unit := update (fun fs => with_data (data_file fs) ∅ fs).

Definition read_data (id : PageId) : M Files IoError bytes :=
  call (fun fs => if page_offset id + PAGE_SIZE <=? len (data_file fs)
                  then (Ok (sub (data_file fs) (page_offset id) PAGE_SIZE), fs)
                  else (Err UnexpectedEof, fs)).

Definition data_len : M Files IoError Z := call (fun fs => (Ok (len (data_file fs)), fs)).

(** A page of the data file, bytes past its end read as zeros. *)
Definition page_in (d : bytes) (id : PageId) : bytes :=
  let p := sub d (page_offset id) PAGE_SIZE in p ++ replicate (Z.to_nat PAGE_SIZE - length p) 0.

End Files.
