(* ===== verification/Wal.v ===== *)
(** * The write-ahead log

    Models [src/wal.rs] on the files of [Files]. A log operation maps the open log and the
    files to an outcome and what it leaves of both. The open file handle of the log is the
    file at the log's path: the code opens it there and replaces it at each rename. The file
    reader of [replay] reads the bytes of the log, which nobody writes meanwhile. *)

From Stdlib Require Import ZArith Lia.
From stdpp Require Import base gmap list numbers option.
From S2P Require Import Prelude Bytes Ids Buf TablePage Transaction Files.

Local Open Scope Z_scope.

Definition LOG_MAGIC : bytes := [67; 77; 85; 68; 66; 87; 65; 76].
Definition LOG_VERSION : Z := 1.
Definition LOG_HEADER_LEN : Z := len LOG_MAGIC + 4.
Definition RECORD_HEADER_LEN : Z := 1 + 4 + 4.
Definition CHECKPOINT_LOG_BYTES : Z := Z.shiftl 4 20.

Definition KIND_PAGE : Z := 1.
Definition KIND_DURABLE : Z := 2.
Definition KIND_WRITES : Z := 3.
Definition KIND_UNDO : Z := 4.
Definition KIND_END : Z := 5.

Definition PAGE_ID_LEN : Z := 8.
Definition UNDO_FIXED_LEN : Z := 8 + 4 + 4 + 8 + 1.
Definition MAX_PAYLOAD_LEN : Z := UNDO_FIXED_LEN + PAGE_SIZE.

Record Recovery : Type := mkRecovery { pages_replayed : Z; unfinished : list RecoveredTxn }.

Record Wal : Type := mkWal {
  wal_end : Z;
  buffered : bytes;
  pages : gmap PageId Z;
  dirty : bool;
  open_txns : gmap TxnId bytes;
  checkpoint_bytes : Z;
  broken : bool;
}.

Inductive Decoded : Type :=
| DPage (page_id : PageId) (image_offset : Z)
| DDurable
| DTxn (record : TxnRecord).

Module Wal.
Import Files.

(** ** Checksums *)

Definition crc_bit (c : Z) : Z :=
  if negb (Z.land c 1 =? 0) then Z.lxor 0xEDB88320 (Z.shiftr c 1) else Z.shiftr c 1.

Definition crc_entry (i : Z) : Z := Nat.iter 8 crc_bit i.

Definition crc_table : list Z := (fun i => crc_entry (Z.of_nat i)) <$> seq 0 256.

Definition CRC_TABLE : list Z := Eval vm_compute in crc_table.

Definition crc_step (c b : Z) : Z :=
  Z.lxor (nth (Z.to_nat (Z.land (Z.lxor c b) 0xff)) CRC_TABLE 0) (Z.shiftr c 8).

(** [!c] of a [u32] *)
Definition not_u32 (c : Z) : Z := Z.lxor c u32_max.

Definition crc32 (parts : list bytes) : Z := not_u32 (foldl (foldl crc_step) (not_u32 0) parts).

(** ** Records *)

Definition encode_record {E} (kind : Z) (payload : bytes) : outcome E bytes :=
  if len payload <=? u32_max then
    let len_bytes := to_le 4 (len payload) in
    let crc := crc32 [[kind]; len_bytes; payload] in
    Ok ([kind] ++ len_bytes ++ to_le 4 crc ++ payload)
  else Panic.

Definition encode_txn_record {E} (r : TxnRecord) : outcome E bytes :=
  match r with
  | RWrites txn => encode_record KIND_WRITES (to_le 8 txn)
  | REnd txn => encode_record KIND_END (to_le 8 txn)
  | RUndo txn rid meta data =>
      encode_record KIND_UNDO
        (to_le 8 txn ++ to_le 4 (page_id rid) ++ to_le 4 (slot_id rid) ++ to_le 8 (ts meta) ++
         [if is_deleted meta then 1 else 0] ++ data)
  end.

(** What the kind and payload of a record at [offset] say. *)
Definition decode (kind : Z) (payload : bytes) (offset : Z) : option Decoded :=
  let n := len payload in
  if (kind =? KIND_PAGE) && (n =? PAGE_ID_LEN + PAGE_SIZE) then
    match PageId_try_from (le_at 8 payload 0) with
    | Ok p => Some (DPage p (offset + (RECORD_HEADER_LEN + PAGE_ID_LEN)))
    | _ => None
    end
  else if (kind =? KIND_DURABLE) && (n =? 0) then Some DDurable
  else if (kind =? KIND_WRITES) && (n =? 8) then Some (DTxn (RWrites (le_at 8 payload 0)))
  else if (kind =? KIND_END) && (n =? 8) then Some (DTxn (REnd (le_at 8 payload 0)))
  else if (kind =? KIND_UNDO) && (UNDO_FIXED_LEN <=? n) then
    match PageId_try_from (le_at 4 payload 8) with
    | Ok p => Some (DTxn (RUndo (le_at 8 payload 0) (mkRid p (le_at 4 payload 12))
                (mkMeta (le_at 8 payload 16) (negb (byte_at payload 24 =? 0)))
                (sub payload UNDO_FIXED_LEN (n - UNDO_FIXED_LEN))))
    | _ => None
    end
  else None.

(** [read_fully]: the next [n] bytes and what is left, or nothing if the reader ends first. *)
Definition read_fully (n : Z) (rest : bytes) : M Files IoError (option (bytes * bytes)) :=
  call (fun fs => (Ok (if n <=? len rest then Some (take (Z.to_nat n) rest, drop (Z.to_nat n) rest) else None), fs)).

Definition read_record (rest : bytes) (offset : Z) : M Files IoError (option (Decoded * Z * bytes)) :=
  h ← read_fully RECORD_HEADER_LEN rest;
  match h with
  | None => mret None
  | Some (header, rest) =>
      let kind := byte_at header 0 in
      let len_bytes := sub header 1 4 in
      let crc := le_at 4 header 5 in
      let n := of_le len_bytes in
      if MAX_PAYLOAD_LEN <? n then mret None
      else
        p ← read_fully n rest;
        match p with
        | None => mret None
        | Some (payload, rest) =>
            if negb (crc32 [[kind]; len_bytes; payload] =? crc) then mret None
            else mret ((fun d => (d, RECORD_HEADER_LEN + n, rest)) <$> decode kind payload offset)
        end
  end.

(** ** Replay *)

Record Replayed : Type := mkReplayed {
  durable : list TxnRecord;
  durable_pages : gmap PageId Z;
  since_durable : list TxnRecord;
  pages_since_durable : list (PageId * Z);
}.

Definition extend (m : gmap PageId Z) (l : list (PageId * Z)) : gmap PageId Z :=
  foldl (fun m e => <[e.1 := e.2]> m) m l.

Definition replay_one (d : Decoded) (r : Replayed) : Replayed :=
  match d with
  | DPage p o => mkReplayed (durable r) (durable_pages r) (since_durable r) (pages_since_durable r ++ [(p, o)])
  | DTxn t => mkReplayed (durable r) (durable_pages r) (since_durable r ++ [t]) (pages_since_durable r)
  | DDurable => mkReplayed (durable r ++ since_durable r) (extend (durable_pages r) (pages_since_durable r)) [] []
  end.

Fixpoint replay_loop (fuel : nat) (rest : bytes) (offset : Z) (r : Replayed) : M Files IoError Replayed :=
  match fuel with
  | O => liftc Panic
  | S fuel =>
      d ← read_record rest offset;
      match d with
      | None => mret r
      | Some (d, n, rest) => replay_loop fuel rest (offset + n) (replay_one d r)
      end
  end.

Definition nothing : Replayed := mkReplayed [] ∅ [] [].

(** The rest of [replay] once the file is open. Whatever goes wrong with reading the header is
    reported as a header that is cut short. A record is never empty, so the bytes of the
    file are fuel enough. *)
Definition replay_file (file : bytes) : M Files IoError (list TxnRecord * gmap PageId Z) :=
  n ← log_len file;
  if n =? 0 then mret ([], ∅)
  else
    h ← mapE (fun _ => InvalidData HeaderCutShort) (read_fully LOG_HEADER_LEN file);
    match h with
    | None => liftc (Err (InvalidData HeaderCutShort))
    | Some (header, rest) =>
        if negb (bool_decide (sub header 0 (len LOG_MAGIC) = LOG_MAGIC)) then
          liftc (Err (InvalidData NotALogHeader))
        else if negb (le_at 4 header (len LOG_MAGIC) =? LOG_VERSION) then
          liftc (Err (InvalidData OtherVersion))
        else
          r ← replay_loop (S (length file)) rest LOG_HEADER_LEN nothing;
          mret (durable r, durable_pages r)
    end.

Definition replay : M Files IoError (list TxnRecord * gmap PageId Z) :=
  file ← open_log;
  match file with
  | None => mret ([], ∅)
  | Some file => replay_file file
  end.

(** ** The open log *)

Definition track_open_txn_encoded (open : gmap TxnId bytes) (r : TxnRecord) (encoded : bytes) : gmap TxnId bytes :=
  match r with
  | RWrites txn | RUndo txn _ _ _ => <[txn := default [] (open !! txn) ++ encoded]> open
  | REnd txn => base.delete txn open
  end.

Definition track_open_txn {E} (open : gmap TxnId bytes) (r : TxnRecord) : outcome E (gmap TxnId bytes) :=
  encoded ← encode_txn_record r;
  Ok (track_open_txn_encoded open r encoded).

Definition recovered_entry (u : gmap TxnId RecoveredTxn) (txn : TxnId) : RecoveredTxn :=
  default (mkRecovered txn ∅) (u !! txn).

Definition recover_one (u : gmap TxnId RecoveredTxn) (r : TxnRecord) : gmap TxnId RecoveredTxn :=
  match r with
  | RWrites txn => <[txn := recovered_entry u txn]> u
  | RUndo txn rid meta data =>
      let t := recovered_entry u txn in
      let image := default (mkImage meta data) (r_undo t !! rid) in
      <[txn := mkRecovered (r_id t) (<[rid := image]> (r_undo t))]> u
  | REnd txn => base.delete txn u
  end.

Fixpoint track_all {E} (rs : list TxnRecord) (open : gmap TxnId bytes) (u : gmap TxnId RecoveredTxn)
    : outcome E (gmap TxnId bytes * gmap TxnId RecoveredTxn) :=
  match rs with
  | [] => Ok (open, u)
  | r :: rs => open ← track_open_txn open r; track_all rs open (recover_one u r)
  end.

Section log.
Context `{Order : !MapOrder Z}.

Abbreviation walm := (M (Wal * Files) IoError).

Definition get_wal : walm Wal := fun s => (Ok s.1, s).
Definition set_wal (f : Wal -> Wal) : walm unit := fun s => (Ok tt, (f s.1, s.2)).
Definition on_files {A} (m : M Files IoError A) : walm A := on_snd id m.

Definition with_broken (w : Wal) : Wal :=
  mkWal (wal_end w) (buffered w) (pages w) (dirty w) (open_txns w) (checkpoint_bytes w) true.
Definition with_dirty (b : bool) (w : Wal) : Wal :=
  mkWal (wal_end w) (buffered w) (pages w) b (open_txns w) (checkpoint_bytes w) (broken w).
Definition with_page (id : PageId) (off : Z) (w : Wal) : Wal :=
  mkWal (wal_end w) (buffered w) (<[id := off]> (pages w)) true (open_txns w) (checkpoint_bytes w) (broken w).
Definition with_buffered (e : Z) (b : bytes) (w : Wal) : Wal :=
  mkWal e b (pages w) (dirty w) (open_txns w) (checkpoint_bytes w) (broken w).

Definition set_checkpoint_bytes (n : Z) (w : Wal) : Wal :=
  mkWal (wal_end w) (buffered w) (pages w) (dirty w) (open_txns w) n (broken w).

Definition refuse_if_broken : walm unit := fun s =>
  if broken s.1 then (Err BrokenLog, s) else (Ok tt, s).

(** [sync]: one fsync, after whose failure the log is broken. *)
Definition sync (m : M Files IoError unit) : walm unit := fun s =>
  match m s.2 with
  | (Err e, fs) => (Err e, (with_broken s.1, fs))
  | (r, fs) => (r, (s.1, fs))
  end.

(** On failure the buffered records stay buffered. *)
Definition write_out_with (kind : Z) (payload : bytes) : walm Z :=
  w ← get_wal;
  let record_start := wal_end w + len (buffered w) in
  record ← liftc (encode_record kind payload);
  let out := buffered w ++ record in
  _ ← on_files (write_log_at (wal_end w) out);
  _ ← set_wal (with_buffered (wal_end w + len out) []);
  mret record_start.

Definition log_page (id : PageId) (page : bytes) : walm unit :=
  _ ← refuse_if_broken;
  record_start ← write_out_with KIND_PAGE (to_le 8 id ++ page);
  set_wal (with_page id (record_start + (RECORD_HEADER_LEN + PAGE_ID_LEN))).

Definition read_page (id : PageId) (w : Wal) : option (M Files IoError bytes) :=
  (fun offset => read_log_at offset PAGE_SIZE) <$> pages w !! id.

Definition log_txn (r : TxnRecord) : walm unit :=
  encoded ← liftc (encode_txn_record r);
  set_wal (fun w => mkWal (wal_end w) (buffered w ++ encoded) (pages w) true
    (track_open_txn_encoded (open_txns w) r encoded) (checkpoint_bytes w) (broken w)).

(** ** Checkpoints *)

Fixpoint copy_pages (l : list (PageId * Z)) : M Files IoError unit :=
  match l with
  | [] => mret tt
  | (id, offset) :: l =>
      image ← read_log_at offset PAGE_SIZE;
      _ ← write_data id image;
      copy_pages l
  end.

Definition fresh_log {E} (open : gmap TxnId bytes) : outcome E bytes :=
  end_ ← encode_record KIND_DURABLE [];
  Ok (LOG_MAGIC ++ to_le 4 LOG_VERSION ++ concat (btree_entries open).*2 ++ end_).

Definition checkpoint : walm unit :=
  w ← get_wal;
  _ ← on_files (copy_pages (map_entries (pages w)));
  _ ← sync sync_data;
  fresh ← liftc (fresh_log (open_txns w));
  _ ← on_files create_aside;
  _ ← on_files (write_aside_at 0 fresh);
  _ ← sync sync_aside;
  _ ← on_files rename_aside;
  _ ← set_wal (fun w => mkWal (len fresh) [] ∅ false (open_txns w) (checkpoint_bytes w) (broken w));
  sync sync_dir.

(** [if let Err(e) = m { log::warn!(..) }] *)
Definition warn_on_err (m : walm unit) : walm unit := fun s =>
  match m s with
  | (Panic, s) => (Panic, s)
  | (_, s) => (Ok tt, s)
  end.

(** A checkpoint that fails after the sync is only reported. *)
Definition durable_point : walm unit :=
  _ ← refuse_if_broken;
  w ← get_wal;
  if negb (dirty w) then mret tt
  else
    _ ← write_out_with KIND_DURABLE [];
    _ ← sync sync_log_file;
    _ ← set_wal (with_dirty false);
    w ← get_wal;
    if checkpoint_bytes w <? wal_end w then warn_on_err checkpoint else mret tt.

(** ** Opening *)

(** A method of a log that the caller has just made, and still owns afterwards. *)
Definition on_new_wal (m : walm unit) (w : Wal) : M Files IoError Wal := fun fs =>
  match m (w, fs) with
  | (Ok _, (w, fs)) => (Ok w, fs)
  | (Err e, (_, fs)) => (Err e, fs)
  | (Panic, (_, fs)) => (Panic, fs)
  end.

Definition open : M Files IoError (Wal * Recovery) :=
  '(durable, pages) ← replay;
  '(open_txns, unfinished) ← liftc (track_all durable ∅ ∅);
  _ ← create_log;
  w ← on_new_wal checkpoint (mkWal 0 [] pages false open_txns CHECKPOINT_LOG_BYTES false);
  mret (w, mkRecovery (Z.of_nat (base.size pages)) (btree_entries unfinished).*2).

End log.
End Wal.
