(* ===== verification/WalCrc.v ===== *)
(** * The checksum of the log

    CRC-32 by table, as [src/wal.rs] computes it, is a 32-bit integer that any change within
    four consecutive bytes of a message changes. *)

From Stdlib Require Import ZArith Lia.
From stdpp Require Import base gmap list numbers option.
From S2P Require Import Prelude Bytes Ids Buf TablePage Transaction Files Wal.
Import Files Wal.

Local Open Scope Z_scope.

(** ** Checksums are 32-bit integers *)

Definition is_u32 (c : Z) : Prop := 0 <= c < 2 ^ 32.

Lemma lxor_bound n a b : 0 < n -> 0 <= a < 2 ^ n -> 0 <= b < 2 ^ n -> 0 <= Z.lxor a b < 2 ^ n.
Proof.
  intros Hn Ha Hb. assert (H0 : 0 <= Z.lxor a b) by (rewrite Z.lxor_nonneg; lia). split; [done|].
  destruct (decide (Z.lxor a b = 0)) as [->|]; [lia|]. apply Z.log2_lt_pow2; [lia|].
  pose proof (Z.log2_lxor a b ltac:(lia) ltac:(lia)) as Hl.
  assert (Hlog : forall c, 0 <= c < 2 ^ n -> Z.log2 c < n).
  { intros c Hc. destruct (decide (c = 0)) as [->|]; [simpl; lia|]. apply Z.log2_lt_pow2; lia. }
  pose proof (Hlog a Ha). pose proof (Hlog b Hb). lia.
Qed.

Lemma table_length : length CRC_TABLE = 256%nat.
Proof. reflexivity. Qed.

Lemma table_u32 : Forall is_u32 CRC_TABLE.
Proof.
  apply Forall_forall. intros c Hc. assert (Hb : forallb (fun c => (0 <=? c) && (c <? 2 ^ 32)) CRC_TABLE = true).
  { vm_compute. reflexivity. }
  rewrite forallb_forall in Hb. specialize (Hb c Hc).
  unfold is_u32. lia.
Qed.

Lemma low_byte x : 0 <= Z.land x 0xff < 256.
Proof. change 0xff with (Z.ones 8). rewrite Z.land_ones by lia. apply Z.mod_pos_bound. lia. Qed.

Lemma table_at_u32 i : is_u32 (nth i CRC_TABLE 0).
Proof.
  destruct (decide (i < 256)%nat) as [Hi|Hi].
  - eapply Forall_forall; [exact table_u32|]. apply nth_In. by rewrite table_length.
  - rewrite nth_overflow by (rewrite table_length; lia). unfold is_u32. lia.
Qed.

Lemma shift8_bound c : is_u32 c -> 0 <= Z.shiftr c 8 < 2 ^ 24.
Proof.
  unfold is_u32. intros Hc. rewrite Z.shiftr_div_pow2 by lia.
  split; [apply Z.div_pos; lia|apply Z.div_lt_upper_bound; lia].
Qed.

Lemma crc_step_u32 c b : is_u32 c -> is_u32 (crc_step c b).
Proof.
  intros Hc. unfold crc_step, is_u32. apply lxor_bound; [lia|apply table_at_u32|].
  pose proof (shift8_bound c Hc). lia.
Qed.

Lemma crc_bytes_u32 bs : forall c, is_u32 c -> is_u32 (foldl crc_step c bs).
Proof. induction bs as [|b bs IH]; intros c Hc; simpl; [done|]. by apply IH, crc_step_u32. Qed.

Lemma not_u32_u32 c : is_u32 c -> is_u32 (not_u32 c).
Proof. intros Hc. unfold not_u32, is_u32. apply lxor_bound; [lia|done|]. unfold u32_max. lia. Qed.

Lemma crc_concat parts : crc32 parts = not_u32 (foldl crc_step (not_u32 0) (concat parts)).
Proof.
  unfold crc32. f_equal. generalize (not_u32 0). induction parts as [|p parts IH]; intros c; simpl; [done|].
  by rewrite IH, foldl_app.
Qed.

Lemma crc32_u32 parts : is_u32 (crc32 parts).
Proof. rewrite crc_concat. apply not_u32_u32, crc_bytes_u32, not_u32_u32. unfold is_u32. lia. Qed.

(** ** Changes the checksum notices *)

Definition table_at (i : Z) : Z := nth (Z.to_nat i) CRC_TABLE 0.

(** The top byte of a table entry tells which entry it is. *)
Lemma table_top_inj i j : 0 <= i < 256 -> 0 <= j < 256 ->
  Z.shiftr (table_at i) 24 = Z.shiftr (table_at j) 24 -> i = j.
Proof.
  assert (Hb : forallb (fun i => forallb (fun j =>
    implb (Z.shiftr (nth i CRC_TABLE 0) 24 =? Z.shiftr (nth j CRC_TABLE 0) 24) (i =? j)%nat)
    (seq 0 256)) (seq 0 256) = true) by (vm_compute; reflexivity).
  intros Hi Hj E. rewrite forallb_forall in Hb. specialize (Hb (Z.to_nat i) ltac:(apply in_seq; lia)).
  rewrite forallb_forall in Hb. specialize (Hb (Z.to_nat j) ltac:(apply in_seq; lia)).
  unfold table_at in E. rewrite E, Z.eqb_refl in Hb. simpl in Hb. apply Nat.eqb_eq in Hb. lia.
Qed.

(** The index a step uses, and the step from it. *)
Definition crc_index (c b : Z) : Z := Z.land (Z.lxor c b) 0xff.

Lemma crc_step_index c b : crc_step c b = Z.lxor (table_at (crc_index c b)) (Z.shiftr c 8).
Proof. done. Qed.

(** After a step from [c], all bits but the low [8 k] of the state say the index that was
    used and all bits but the low [8 (k + 1)] of [c]. *)
Lemma crc_step_back k c c' b b' :
  0 <= k <= 24 -> is_u32 c -> is_u32 c' ->
  Z.shiftr (crc_step c b) k = Z.shiftr (crc_step c' b') k ->
  crc_index c b = crc_index c' b' /\ Z.shiftr c (k + 8) = Z.shiftr c' (k + 8).
Proof.
  intros Hk Hc Hc' E. rewrite !crc_step_index in E.
  assert (Htop : forall d i, is_u32 d -> Z.shiftr (Z.lxor (table_at i) (Z.shiftr d 8)) 24 = Z.shiftr (table_at i) 24).
  { intros d i Hd. rewrite Z.shiftr_lxor, Z.shiftr_shiftr by lia.
    rewrite (Z.shiftr_div_pow2 d) by lia. rewrite (Z.div_small d) by (unfold is_u32 in Hd; simpl; lia).
    apply Z.lxor_0_r. }
  assert (Hi : crc_index c b = crc_index c' b').
  { apply table_top_inj; [apply low_byte..|]. rewrite <- (Htop c), <- (Htop c') by done.
    replace 24 with (k + (24 - k)) by lia. rewrite <- !Z.shiftr_shiftr by lia. by rewrite E. }
  split; [done|]. rewrite Hi, !Z.shiftr_lxor in E. rewrite !Z.shiftr_shiftr in E by lia.
  replace (k + 8) with (8 + k) by lia. apply (f_equal (Z.lxor (Z.shiftr (table_at (crc_index c' b')) k))) in E.
  by rewrite <- !Z.lxor_assoc, !Z.lxor_nilpotent, !Z.lxor_0_l in E.
Qed.

Lemma land_lxor a b c : Z.land (Z.lxor a b) c = Z.lxor (Z.land a c) (Z.land b c).
Proof.
  apply Z.bits_inj'. intros n _. rewrite Z.land_spec, !Z.lxor_spec, !Z.land_spec.
  by destruct (Z.testbit a n), (Z.testbit b n), (Z.testbit c n).
Qed.

Lemma crc_index_byte c b b' : is_byte b -> is_byte b' -> crc_index c b = crc_index c b' -> b = b'.
Proof.
  unfold crc_index, is_byte. change 0xff with (Z.ones 8). intros Hb Hb' E.
  rewrite !(Z.land_ones _ 8) in E by lia.
  assert (H : forall x, 0 <= x < 256 -> x = Z.lxor (c mod 2 ^ 8) (Z.lxor c x mod 2 ^ 8)).
  { intros x Hx. rewrite <- !Z.land_ones, <- land_lxor by lia.
    rewrite <- Z.lxor_assoc, Z.lxor_nilpotent, Z.lxor_0_l, Z.land_ones by lia.
    symmetry. apply Z.mod_small. simpl. lia. }
  rewrite (H b), (H b') by lia. by rewrite E.
Qed.

Lemma crc_step_inj c c' b : is_u32 c -> is_u32 c' -> crc_step c b = crc_step c' b -> c = c'.
Proof.
  intros Hc Hc' E. destruct (crc_step_back 0 c c' b b) as [Hi Hs]; [lia|done..|by rewrite E|].
  change (0 + 8) with 8 in Hs. unfold crc_index in Hi. change 0xff with (Z.ones 8) in Hi.
  apply (f_equal (Z.lxor (Z.land b (Z.ones 8)))) in Hi.
  rewrite !land_lxor, !(Z.lxor_comm _ (Z.land b _)), <- !Z.lxor_assoc, !Z.lxor_nilpotent, !Z.lxor_0_l in Hi.
  rewrite !Z.land_ones in Hi by lia. rewrite !Z.shiftr_div_pow2 in Hs by lia.
  rewrite (Z.div_mod c (2 ^ 8)), (Z.div_mod c' (2 ^ 8)) by lia. congruence.
Qed.

Lemma crc_bytes_inj bs : forall c c', is_u32 c -> is_u32 c' -> foldl crc_step c bs = foldl crc_step c' bs -> c = c'.
Proof.
  induction bs as [|b bs IH]; intros c c' Hc Hc' E; simpl in E; [done|].
  apply (crc_step_inj _ _ b); [done..|]. by apply IH; [by apply crc_step_u32..|].
Qed.

Lemma crc_bytes_back m : forall m' c c' k,
  length m = length m' -> is_u32 c -> is_u32 c' -> 0 <= k -> k + 8 * len m <= 32 ->
  Z.shiftr (foldl crc_step c m) k = Z.shiftr (foldl crc_step c' m') k ->
  Z.shiftr c (k + 8 * len m) = Z.shiftr c' (k + 8 * len m).
Proof.
  induction m as [|b m IH]; intros [|b' m'] c c' k Hl Hc Hc' Hk Hle E; simpl in Hl; try lia.
  { simpl in *. by rewrite Z.add_0_r. }
  injection Hl as Hl. simpl in E. rewrite length_cons in Hle |- *.
  specialize (IH m' (crc_step c b) (crc_step c' b') k Hl ltac:(by apply crc_step_u32) ltac:(by apply crc_step_u32)
    Hk ltac:(lia) E).
  destruct (crc_step_back (k + 8 * len m) c c' b b') as [_ Hs]; [lia|done..|].
  by replace (k + 8 * Z.of_nat (S (length m))) with (k + 8 * len m + 8) by lia.
Qed.

Lemma crc_burst m : forall m' c, length m = length m' -> len m <= 4 -> Forall is_byte m -> Forall is_byte m' ->
  is_u32 c -> foldl crc_step c m = foldl crc_step c m' -> m = m'.
Proof.
  induction m as [|b m IH]; intros [|b' m'] c Hl Hle Hm Hm' Hc E; simpl in Hl; try lia; [done|].
  injection Hl as Hl. rewrite length_cons in Hle. simpl in E.
  apply Forall_cons_1 in Hm as [Hb Hm]. apply Forall_cons_1 in Hm' as [Hb' Hm'].
  assert (Hs : Z.shiftr (crc_step c b) (0 + 8 * len m) = Z.shiftr (crc_step c b') (0 + 8 * len m)).
  { apply (crc_bytes_back m m'); [done|by apply crc_step_u32..|lia|lia|]. by rewrite E. }
  destruct (crc_step_back (0 + 8 * len m) c c b b') as [Hi _]; [lia|done..|].
  apply crc_index_byte in Hi; [|done..]. subst b'. f_equal.
  apply (IH m' (crc_step c b)); try done; [lia|by apply crc_step_u32].
Qed.

Lemma not_u32_inj c c' : not_u32 c = not_u32 c' -> c = c'.
Proof.
  intros E. apply (f_equal (fun x => Z.lxor x u32_max)) in E. unfold not_u32 in E.
  by rewrite !Z.lxor_assoc, Z.lxor_nilpotent, !Z.lxor_0_r in E.
Qed.

(** Bytes that differ within four in a row have different checksums. *)
Lemma crc32_burst p m m' q : length m = length m' -> len m <= 4 -> Forall is_byte m -> Forall is_byte m' ->
  crc32 [p ++ m ++ q] = crc32 [p ++ m' ++ q] -> m = m'.
Proof.
  intros Hl H4 Hm Hm'. rewrite !crc_concat. cbn [concat]. rewrite !app_nil_r, !foldl_app.
  intros E%not_u32_inj.
  assert (Hu : is_u32 (foldl crc_step (not_u32 0) p)) by (apply crc_bytes_u32, not_u32_u32; unfold is_u32; lia).
  apply crc_bytes_inj in E; [|by apply crc_bytes_u32..]. by eapply crc_burst.
Qed.
