(* ===== verification/WalCodec.v ===== *)
(** * Records of the log

    Every record reads back as what was written, whatever follows it; a file of records reads
    back as the records, whatever is torn at its end. *)

From Stdlib Require Import ZArith Lia.
From stdpp Require Import base gmap list numbers option.
From S2P Require Import Prelude Bytes Ids Buf TablePage TablePageProofs Transaction Files Wal WalCrc.
Import Files Wal.

Local Open Scope Z_scope.

(** ** Records with their content *)

Inductive event : Type :=
| EPage (id : PageId) (image : bytes)
| EDurable
| ETxn (r : TxnRecord).

Definition event_kind (e : event) : Z :=
  match e with
  | EPage _ _ => KIND_PAGE
  | EDurable => KIND_DURABLE
  | ETxn (RWrites _) => KIND_WRITES
  | ETxn (RUndo _ _ _ _) => KIND_UNDO
  | ETxn (REnd _) => KIND_END
  end.

Definition undo_fields (txn : TxnId) (rid : RecordId) (meta : TupleMeta) : bytes :=
  to_le 8 txn ++ to_le 4 (page_id rid) ++ to_le 4 (slot_id rid) ++ to_le 8 (ts meta) ++
  [if is_deleted meta then 1 else 0].

Definition event_payload (e : event) : bytes :=
  match e with
  | EPage id image => to_le 8 id ++ image
  | EDurable => []
  | ETxn (RWrites txn) | ETxn (REnd txn) => to_le 8 txn
  | ETxn (RUndo txn rid meta data) => undo_fields txn rid meta ++ data
  end.

Definition is_u64 (v : Z) : Prop := 0 <= v <= u64_max.

Definition record_ok (r : TxnRecord) : Prop :=
  match r with
  | RWrites txn | REnd txn => is_u64 txn
  | RUndo txn rid meta data => is_u64 txn /\ page_id_valid (page_id rid) /\ 0 <= slot_id rid <= u32_max /\
      is_u64 (ts meta) /\ Forall is_byte data /\ len data <= PAGE_SIZE
  end.

Definition event_ok (e : event) : Prop :=
  match e with
  | EPage id image => page_id_valid id /\ Forall is_byte image /\ len image = PAGE_SIZE
  | EDurable => True
  | ETxn r => record_ok r
  end.

Definition frame (kind : Z) (payload : bytes) : bytes :=
  let len_bytes := to_le 4 (len payload) in
  [kind] ++ len_bytes ++ to_le 4 (crc32 [[kind]; len_bytes; payload]) ++ payload.

Definition enc (e : event) : bytes := frame (event_kind e) (event_payload e).
Definition enc_all (es : list event) : bytes := concat (enc <$> es).

(** What reading a record at [off] gives. *)
Definition located (e : event) (off : Z) : Decoded :=
  match e with
  | EPage id _ => DPage id (off + (RECORD_HEADER_LEN + PAGE_ID_LEN))
  | EDurable => DDurable
  | ETxn r => DTxn r
  end.

Lemma payload_len e : event_ok e -> len (event_payload e) <= MAX_PAYLOAD_LEN.
Proof.
  unfold MAX_PAYLOAD_LEN, UNDO_FIXED_LEN. destruct e as [id image| |[txn|txn rid meta data|txn]]; simpl;
    rewrite ?length_app, ?length_to_le; unfold PAGE_SIZE; simpl; try lia.
Qed.

Lemma encode_frame {E} kind payload : len payload <= u32_max -> encode_record (E := E) kind payload = Ok (frame kind payload).
Proof. intros H. unfold encode_record. by rewrite (proj2 (Z.leb_le _ _)). Qed.

Lemma encode_event {E} r : record_ok r -> encode_txn_record (E := E) r = Ok (enc (ETxn r)).
Proof.
  intros Hr. pose proof (payload_len (ETxn r) Hr) as Hl.
  assert (Hm : MAX_PAYLOAD_LEN <= u32_max) by (vm_compute; discriminate).
  assert (E' : encode_txn_record (E := E) r = encode_record (event_kind (ETxn r)) (event_payload (ETxn r))).
  { destruct r as [txn|txn rid meta data|txn]; [done| |done]. cbn [event_payload encode_txn_record event_kind].
    unfold undo_fields. by rewrite <- !app_assoc. }
  rewrite E'. apply encode_frame. lia.
Qed.

(** ** Fields of a payload *)

Lemma le_at_field n k pre v post off :
  len pre = off -> k = Z.of_nat n -> 0 <= v < 256 ^ k -> le_at k (pre ++ to_le n v ++ post) off = v.
Proof.
  intros <- -> Hv. unfold le_at. rewrite sub_app_r by lia. rewrite Z.sub_diag.
  pose proof (sub_app_l (to_le n v) post) as E. rewrite length_to_le in E. rewrite E. by apply of_to_le.
Qed.

Lemma byte_at_app_r pre b post off : len pre = off -> byte_at (pre ++ b :: post) off = b.
Proof. intros <-. unfold byte_at. by rewrite Nat2Z.id, app_nth2, Nat.sub_diag by lia. Qed.

Lemma sub_rest (l1 l2 : bytes) off n : len l1 = off -> n = len l2 -> sub (l1 ++ l2) off n = l2.
Proof. intros <- ->. rewrite sub_app_r by lia. rewrite Z.sub_diag. apply sub_all. Qed.

Lemma u64_range v : is_u64 v -> 0 <= v < 256 ^ 8.
Proof. unfold is_u64, u64_max. lia. Qed.

Lemma page_range p : page_id_valid p -> 0 <= p < 256 ^ 4.
Proof. unfold page_id_valid, PageId_MAX, u32_max. lia. Qed.

Lemma decode_undo txn rid meta data off :
  record_ok (RUndo txn rid meta data) ->
  decode KIND_UNDO (undo_fields txn rid meta ++ data) off = Some (DTxn (RUndo txn rid meta data)).
Proof.
  intros (Ht & Hp & Hs & Hm & _ & _). unfold decode. set (payload := undo_fields txn rid meta ++ data).
  assert (Hlen : len (undo_fields txn rid meta) = UNDO_FIXED_LEN).
  { unfold undo_fields. by rewrite !length_app, !length_to_le. }
  assert (Hn : len payload = UNDO_FIXED_LEN + len data) by (unfold payload; rewrite length_app; lia).
  change (KIND_UNDO =? KIND_PAGE) with false. change (KIND_UNDO =? KIND_DURABLE) with false.
  change (KIND_UNDO =? KIND_WRITES) with false. change (KIND_UNDO =? KIND_END) with false.
  rewrite Z.eqb_refl. cbn [andb]. rewrite (proj2 (Z.leb_le _ _)) by lia.
  assert (Epage : le_at 4 payload 8 = page_id rid).
  { unfold payload, undo_fields. rewrite <- !app_assoc.
    apply le_at_field; [by rewrite length_to_le|done|by apply page_range]. }
  assert (Etxn : le_at 8 payload 0 = txn).
  { unfold payload, undo_fields. rewrite <- !app_assoc. apply (le_at_field 8 8 []); [done..|by apply u64_range]. }
  assert (Eslot : le_at 4 payload 12 = slot_id rid).
  { unfold payload, undo_fields. rewrite <- !app_assoc. rewrite (app_assoc (to_le 8 _)).
    apply le_at_field; [by rewrite length_app, !length_to_le|done|unfold u32_max in Hs; lia]. }
  assert (Ets : le_at 8 payload 16 = ts meta).
  { unfold payload, undo_fields. rewrite <- !app_assoc. rewrite (app_assoc (to_le 8 _)), (app_assoc (to_le 8 _ ++ _)).
    apply le_at_field; [by rewrite !length_app, !length_to_le|done|by apply u64_range]. }
  assert (Edel : negb (byte_at payload 24 =? 0) = is_deleted meta).
  { unfold payload, undo_fields. rewrite <- !app_assoc.
    rewrite (app_assoc (to_le 8 _)), (app_assoc (to_le 8 _ ++ _)), (app_assoc ((to_le 8 _ ++ _) ++ _)).
    simpl ([_] ++ _). rewrite byte_at_app_r by (by rewrite !length_app, !length_to_le). by destruct (is_deleted meta). }
  rewrite Epage, PageId_try_from_valid, Etxn, Eslot, Ets, Edel by done.
  assert (Edata : sub payload UNDO_FIXED_LEN (len payload - UNDO_FIXED_LEN) = data).
  { apply sub_rest; [done|lia]. }
  rewrite Edata. by destruct rid, meta.
Qed.

Lemma decode_event e off : event_ok e -> decode (event_kind e) (event_payload e) off = Some (located e off).
Proof.
  destruct e as [id image| |[txn|txn rid meta data|txn]]; cbn [event_kind event_payload event_ok located].
  - intros (Hp & _ & Hl). unfold decode. rewrite length_app, length_to_le.
    rewrite (proj2 (Z.eqb_eq _ (PAGE_ID_LEN + PAGE_SIZE))) by (unfold PAGE_ID_LEN; lia). cbn [andb].
    assert (E : le_at 8 (to_le 8 id ++ image) 0 = id).
    { apply (le_at_field 8 8 []); [done..|]. pose proof (page_range id Hp). lia. }
    by rewrite E, PageId_try_from_valid.
  - done.
  - intros Ht. unfold decode. rewrite length_to_le. simpl.
    pose proof (le_at_field 8 8 [] txn [] 0 eq_refl eq_refl (u64_range _ Ht)) as E. rewrite app_nil_r in E. simpl in E.
    by rewrite E.
  - apply decode_undo.
  - intros Ht. unfold decode. rewrite length_to_le. simpl.
    pose proof (le_at_field 8 8 [] txn [] 0 eq_refl eq_refl (u64_range _ Ht)) as E. rewrite app_nil_r in E. simpl in E.
    by rewrite E.
Qed.

(** ** Reading a record *)

(** [read_record] on bytes that can be read. *)
Definition parse_record (rest : bytes) (offset : Z) : option (Decoded * Z * bytes) :=
  if RECORD_HEADER_LEN <=? len rest then
    let header := take (Z.to_nat RECORD_HEADER_LEN) rest in
    let rest := drop (Z.to_nat RECORD_HEADER_LEN) rest in
    let kind := byte_at header 0 in
    let len_bytes := sub header 1 4 in
    let n := of_le len_bytes in
    if MAX_PAYLOAD_LEN <? n then None
    else if n <=? len rest then
      let payload := take (Z.to_nat n) rest in
      if negb (crc32 [[kind]; len_bytes; payload] =? le_at 4 header 5) then None
      else (fun d => (d, RECORD_HEADER_LEN + n, drop (Z.to_nat n) rest)) <$> decode kind payload offset
    else None
  else None.

(** A call will fail. *)
Definition failing (fs : Files) : Prop := exists n, Some n ∈ faults fs.

Lemma failing_suffix fs fs' : failing fs' -> faults fs' `suffix_of` faults fs -> failing fs.
Proof. intros [n Hn] [k E]. exists n. rewrite E. apply elem_of_app. by right. Qed.

(** A computation with outcome [r] that only reads: it may fail, and leaves nothing but which
    calls fail later. *)
Definition returns {A} (m : M Files IoError A) (r : outcome IoError A) : Prop := forall fs, exists f,
  f `suffix_of` faults fs /\
  (m fs = (r, with_faults f fs) \/ m fs = (Err OsError, with_faults f fs) /\ failing fs).

Abbreviation reads_as m a := (returns m (Ok a)).

Lemma with_faults_id fs : with_faults (faults fs) fs = fs.
Proof. by destruct fs. Qed.

(** The cases of one call. *)
Lemma io_cases {A} torn (act : Files -> outcome IoError A * Files) fs : exists f,
  f `suffix_of` faults fs /\
  (io torn act fs = act (with_faults f fs) \/
   exists n, Some n ∈ faults fs /\ io torn act fs = (Err OsError, torn n (with_faults f fs))).
Proof.
  unfold io. destruct (faults fs) as [|[n|] rest] eqn:E.
  - exists []. split; [done|]. left. by rewrite <- E, with_faults_id.
  - exists rest. split; [by apply suffix_cons_r|]. right. exists n. split; [apply list_elem_of_here|done].
  - exists rest. split; [by apply suffix_cons_r|]. by left.
Qed.

Lemma returns_call {A} (r : outcome IoError A) (act : Files -> outcome IoError A * Files) :
  (forall fs, act fs = (r, fs)) -> returns (call act) r.
Proof.
  intros Hact fs. destruct (io_cases (fun _ fs => fs) act fs) as (f & Hf & [E|(n & Hn & E)]); exists f; split; try done.
  - left. unfold call. by rewrite E, Hact.
  - right. split; [by unfold call|by exists n].
Qed.

Lemma returns_bind {A B} (m : M Files IoError A) (a : A) (k : A -> M Files IoError B) r :
  reads_as m a -> returns (k a) r -> returns (m ≫= k) r.
Proof.
  intros Hm Hk fs. destruct (Hm fs) as (f & Hf & [E|[E Hn]]); unfold mbind, M_bind; rewrite E; [|eauto].
  destruct (Hk (with_faults f fs)) as (f' & Hf' & E'). exists f'. simpl in Hf'. split; [by etrans|].
  destruct E' as [->|[-> Hn]]; [by left|]. right. split; [done|]. by eapply failing_suffix.
Qed.

Lemma returns_liftc {A} (r : outcome IoError A) : returns (liftc r) r.
Proof. intros fs. exists (faults fs). split; [done|]. left. by rewrite with_faults_id. Qed.

Lemma returns_ret {A} (a : A) : reads_as (mret a) a.
Proof. apply (returns_liftc (Ok a)). Qed.

Lemma read_record_parses rest offset : reads_as (read_record rest offset) (parse_record rest offset).
Proof.
  unfold read_record, parse_record. eapply returns_bind; [by apply returns_call|]. cbv beta.
  destruct (RECORD_HEADER_LEN <=? len rest); [|apply returns_ret]. cbv beta match zeta.
  destruct (MAX_PAYLOAD_LEN <? _); [apply returns_ret|].
  eapply returns_bind; [by apply returns_call|]. cbv beta.
  destruct (_ <=? _); [|apply returns_ret]. cbv beta match. destruct (negb _); apply returns_ret.
Qed.

Lemma len_frame kind payload : len (frame kind payload) = RECORD_HEADER_LEN + len payload.
Proof. unfold frame. rewrite !length_app, !length_to_le. unfold RECORD_HEADER_LEN. simpl. lia. Qed.

(** A record of which the checksum [crc] is stored. *)
Lemma parse_stored kind payload crc rest off : len payload <= MAX_PAYLOAD_LEN -> is_u32 crc ->
  parse_record ([kind] ++ to_le 4 (len payload) ++ to_le 4 crc ++ payload ++ rest) off =
    if crc32 [[kind]; to_le 4 (len payload); payload] =? crc
    then (fun d => (d, RECORD_HEADER_LEN + len payload, rest)) <$> decode kind payload off else None.
Proof.
  intros Hl Hu. unfold parse_record. set (lb := to_le 4 (len payload)).
  set (l := [kind] ++ lb ++ to_le 4 crc ++ payload ++ rest).
  assert (Hlen : len l = RECORD_HEADER_LEN + (len payload + len rest)).
  { unfold l, lb. rewrite !length_app, !length_to_le. unfold RECORD_HEADER_LEN. simpl. lia. }
  rewrite Hlen, (proj2 (Z.leb_le _ _)) by lia. cbv zeta.
  change (take (Z.to_nat RECORD_HEADER_LEN) l) with (kind :: lb ++ to_le 4 crc).
  change (drop (Z.to_nat RECORD_HEADER_LEN) l) with (payload ++ rest).
  assert (Hmax : MAX_PAYLOAD_LEN < 256 ^ 4) by (vm_compute; reflexivity).
  change (sub (kind :: lb ++ to_le 4 crc) 1 4) with lb.
  change (byte_at (kind :: lb ++ to_le 4 crc) 0) with kind.
  assert (En : of_le lb = len payload) by (apply of_to_le; simpl; lia).
  assert (Ec : le_at 4 (kind :: lb ++ to_le 4 crc) 5 = crc).
  { pose proof (le_at_field 4 4 (kind :: lb) crc [] 5) as Hf. rewrite app_nil_r in Hf.
    apply Hf; [done..|]. unfold is_u32 in Hu. simpl. lia. }
  rewrite En, Ec, length_app. rewrite (proj2 (Z.ltb_ge _ _)) by done.
  rewrite (proj2 (Z.leb_le _ _)) by lia. rewrite Nat2Z.id, take_app_length, drop_app_length.
  by destruct (_ =? crc).
Qed.

Lemma parse_frame kind payload rest off d :
  len payload <= MAX_PAYLOAD_LEN -> decode kind payload off = Some d ->
  parse_record (frame kind payload ++ rest) off = Some (d, len (frame kind payload), rest).
Proof.
  intros Hl Hd. rewrite len_frame. unfold frame. rewrite <- !app_assoc, parse_stored by (done || apply crc32_u32).
  by rewrite Z.eqb_refl, Hd.
Qed.

Lemma parse_event e rest off : event_ok e ->
  parse_record (enc e ++ rest) off = Some (located e off, len (enc e), rest).
Proof. intros He. apply parse_frame; [by apply payload_len|by apply decode_event]. Qed.

(** Reading depends only on the bytes of the record. *)
Lemma parse_app rest off d n rest' q :
  parse_record rest off = Some (d, n, rest') -> parse_record (rest ++ q) off = Some (d, n, rest' ++ q).
Proof.
  unfold parse_record. destruct (Z.leb_spec RECORD_HEADER_LEN (len rest)) as [Hh|]; [|done].
  rewrite (proj2 (Z.leb_le RECORD_HEADER_LEN (len (rest ++ q)))) by (rewrite length_app; lia). cbv zeta.
  assert (E9 : (Z.to_nat RECORD_HEADER_LEN <= length rest)%nat) by lia.
  rewrite (take_app_le rest), (drop_app_le rest) by done.
  set (header := take _ rest). set (body := drop _ rest). set (lb := sub header 1 4).
  destruct (MAX_PAYLOAD_LEN <? of_le lb); [done|].
  destruct (Z.leb_spec (of_le lb) (len body)) as [Hn|]; [|done].
  rewrite (proj2 (Z.leb_le (of_le lb) (len (body ++ q)))) by (rewrite length_app; lia).
  rewrite (take_app_le body), (drop_app_le body) by lia.
  destruct (negb _); [done|]. destruct (decode _ _ off); [|done]. intros [= <- <- <-]. done.
Qed.

(** A record that reads back is a header, a payload that decodes, and what follows. *)
Lemma parse_inv rest off d n rest' : Forall is_byte rest ->
  parse_record rest off = Some (d, n, rest') -> exists h payload kind,
    rest = h ++ payload ++ rest' /\ len h = RECORD_HEADER_LEN /\ n = RECORD_HEADER_LEN + len payload /\
    len payload <= MAX_PAYLOAD_LEN /\ decode kind payload off = Some d.
Proof.
  unfold parse_record. intros Hb. destruct (Z.leb_spec RECORD_HEADER_LEN (len rest)) as [Hh|]; [|done]. cbv zeta.
  assert (E : rest = take (Z.to_nat RECORD_HEADER_LEN) rest ++ drop (Z.to_nat RECORD_HEADER_LEN) rest) by by rewrite take_drop.
  set (header := take _ rest) in *. set (body := drop _ rest) in *. set (lb := sub header 1 4).
  assert (Hl : len header = RECORD_HEADER_LEN) by (unfold header; rewrite length_take; unfold RECORD_HEADER_LEN in *; lia).
  assert (Hn : 0 <= of_le lb).
  { apply of_le_bound. rewrite E in Hb. apply Forall_app in Hb as [Hb _]. by apply Forall_sub. }
  destruct (Z.ltb_spec MAX_PAYLOAD_LEN (of_le lb)) as [|Hmax]; [done|].
  destruct (Z.leb_spec (of_le lb) (len body)) as [Hle|]; [|done].
  destruct (negb _); [done|]. destruct (decode _ _ off) as [d'|] eqn:Hd; [|done]. intros [= <- <- <-].
  assert (Hp : len (take (Z.to_nat (of_le lb)) body) = of_le lb) by (rewrite length_take; lia).
  exists header, (take (Z.to_nat (of_le lb)) body), (byte_at header 0).
  rewrite take_drop, Hp. by split_and!.
Qed.

Lemma parse_shorter rest off d n rest' :
  parse_record rest off = Some (d, n, rest') -> (length rest' + 9 <= length rest)%nat.
Proof.
  unfold parse_record. destruct (Z.leb_spec RECORD_HEADER_LEN (len rest)) as [Hh|]; [|done]. cbv zeta.
  set (header := take _ rest). set (lb := sub header 1 4). unfold RECORD_HEADER_LEN in *.
  destruct (MAX_PAYLOAD_LEN <? of_le lb); [done|]. destruct (_ <=? _); [|done].
  destruct (negb _); [done|]. destruct (decode _ _ off); [|done]. intros [= <- <- <-].
  rewrite !length_drop in *. lia.
Qed.

(** What decodes is in range. *)
Lemma decode_valid kind payload off d :
  Forall is_byte payload -> len payload <= MAX_PAYLOAD_LEN -> decode kind payload off = Some d ->
  match d with
  | DPage id o => page_id_valid id /\ o = off + (RECORD_HEADER_LEN + PAGE_ID_LEN) /\ len payload = PAGE_ID_LEN + PAGE_SIZE
  | DDurable => True
  | DTxn r => record_ok r
  end.
Proof.
  intros Hb Hmax. unfold decode.
  assert (Hle : forall n o, 0 <= o -> 0 <= n -> o + n <= len payload -> 0 <= le_at n payload o < 256 ^ n).
  { intros. by apply le_at_bound. }
  assert (Hid : forall v p, 0 <= v -> PageId_try_from v = Ok p -> page_id_valid p /\ p = v).
  { intros v p Hv Hp. apply PageId_try_from_inv in Hp as [-> Hp]. done. }
  destruct (_ && _) eqn:E1.
  { apply andb_prop in E1 as [_ E1%Z.eqb_eq]. destruct (PageId_try_from _) as [p| |] eqn:Hp; [|done..].
    intros [= <-]. specialize (Hle 8 0). destruct (Hid (le_at 8 payload 0) p) as [? _]; [|done..].
    unfold PAGE_ID_LEN, PAGE_SIZE in *. lia. }
  clear E1. destruct (_ && _); [by intros [= <-]|].
  destruct (_ && _) eqn:E1.
  { apply andb_prop in E1 as [_ E1%Z.eqb_eq]. intros [= <-]. specialize (Hle 8 0).
    unfold record_ok, is_u64, u64_max. lia. }
  clear E1. destruct (_ && _) eqn:E1.
  { apply andb_prop in E1 as [_ E1%Z.eqb_eq]. intros [= <-]. specialize (Hle 8 0).
    unfold record_ok, is_u64, u64_max. lia. }
  clear E1. destruct (_ && _) eqn:E1; [|done]. apply andb_prop in E1 as [_ E1%Z.leb_le].
  unfold MAX_PAYLOAD_LEN in *. change UNDO_FIXED_LEN with 25 in *.
  destruct (PageId_try_from _) as [p| |] eqn:Hp; [|done..]. intros [= <-].
  pose proof (Hle 4 8 ltac:(lia) ltac:(lia) ltac:(lia)).
  destruct (Hid (le_at 4 payload 8) p) as [Hpv _]; [lia|done|]. simpl.
  pose proof (Hle 8 0 ltac:(lia) ltac:(lia) ltac:(lia)). pose proof (Hle 4 12 ltac:(lia) ltac:(lia) ltac:(lia)).
  pose proof (Hle 8 16 ltac:(lia) ltac:(lia) ltac:(lia)). unfold is_u64, u64_max, u32_max. simpl.
  split_and!; try lia; try done; [by apply Forall_sub|]. change UNDO_FIXED_LEN with 25. rewrite len_sub by lia. lia.
Qed.
