(* ===== verification/WalReplay.v ===== *)
(** * Replaying a log

    What [replay] and [open] make of the bytes of a log: the records it decodes to, up to the
    last durable point among them. *)

From Stdlib Require Import ZArith Lia.
From stdpp Require Import base gmap list numbers option.
From S2P Require Import Prelude Bytes Ids Buf TablePage TablePageProofs Transaction Files Wal WalCrc WalCodec.
Import Files Wal.

Local Open Scope Z_scope.

(** ** The records of a file *)

Fixpoint parse_all (fuel : nat) (rest : bytes) (off : Z) : list Decoded :=
  match fuel with
  | O => []
  | S fuel =>
      match parse_record rest off with
      | None => []
      | Some (d, n, rest) => d :: parse_all fuel rest (off + n)
      end
  end.

Definition decoded (rest : bytes) (off : Z) : list Decoded := parse_all (S (length rest)) rest off.

Lemma parse_all_fuel fuel : forall fuel' rest off,
  (length rest < fuel)%nat -> (length rest < fuel')%nat -> parse_all fuel rest off = parse_all fuel' rest off.
Proof.
  induction fuel as [|fuel IH]; intros [|fuel'] rest off H H'; try lia. simpl.
  destruct (parse_record rest off) as [[[d n] rest']|] eqn:E; [|done].
  pose proof (parse_shorter _ _ _ _ _ E) as Hs. f_equal. apply IH; lia.
Qed.

Lemma decoded_unfold rest off :
  decoded rest off = match parse_record rest off with
                     | None => []
                     | Some (d, n, rest) => d :: decoded rest (off + n)
                     end.
Proof.
  unfold decoded at 1. cbn [parse_all]. destruct (parse_record rest off) as [[[d n] rest']|] eqn:E; [|done].
  pose proof (parse_shorter _ _ _ _ _ E) as Hs. f_equal. unfold decoded. apply parse_all_fuel; lia.
Qed.

Lemma decoded_app p q off : decoded p off `prefix_of` decoded (p ++ q) off.
Proof.
  remember (length p) as m eqn:Hm. revert p off Hm. induction (lt_wf m) as [m _ IH]. intros p off ->.
  rewrite (decoded_unfold p), (decoded_unfold (p ++ q)).
  destruct (parse_record p off) as [[[d n] p']|] eqn:E; [|apply prefix_nil].
  rewrite (parse_app _ _ _ _ _ q E). pose proof (parse_shorter _ _ _ _ _ E) as Hs.
  apply prefix_cons. by apply (IH (length p')); [lia|].
Qed.

(** The records [es], written one after the other from [off] on. *)
Fixpoint locate (es : list event) (off : Z) : list Decoded :=
  match es with
  | [] => []
  | e :: es => located e off :: locate es (off + len (enc e))
  end.

Lemma decoded_enc es : forall q off, Forall event_ok es ->
  decoded (enc_all es ++ q) off = locate es off ++ decoded q (off + len (enc_all es)).
Proof.
  induction es as [|e es IH]; intros q off Hok.
  { simpl. by rewrite Z.add_0_r. }
  apply Forall_cons_1 in Hok as [He Hok]. change (enc_all (e :: es)) with (enc e ++ enc_all es).
  rewrite <- app_assoc, decoded_unfold, parse_event by done. rewrite IH by done. cbn [locate app].
  rewrite length_app. do 3 f_equal. lia.
Qed.

(** A record with the content the file has for it. *)
Definition image (l : bytes) (off : Z) : bytes := sub l off PAGE_SIZE.

Definition event_of (l : bytes) (d : Decoded) : event :=
  match d with
  | DPage id off => EPage id (image l off)
  | DDurable => EDurable
  | DTxn r => ETxn r
  end.

Definition log_events (l : bytes) : list event :=
  event_of l <$> decoded (drop (Z.to_nat LOG_HEADER_LEN) l) LOG_HEADER_LEN.

Definition in_file (l : bytes) (d : Decoded) : Prop :=
  match d with DPage _ off => 0 <= off /\ off + PAGE_SIZE <= len l | _ => True end.

Lemma enc_len e : event_ok e -> len (enc e) = RECORD_HEADER_LEN + len (event_payload e).
Proof. intros _. apply len_frame. Qed.

Lemma frame_split kind payload : exists h, len h = RECORD_HEADER_LEN /\ frame kind payload = h ++ payload.
Proof.
  exists ([kind] ++ to_le 4 (len payload) ++ to_le 4 (crc32 [[kind]; to_le 4 (len payload); payload])).
  split; [by rewrite !length_app, !length_to_le|]. unfold frame. by rewrite <- !app_assoc.
Qed.

Lemma event_of_located pre e q : event_ok e ->
  event_of (pre ++ enc e ++ q) (located e (len pre)) = e /\ in_file (pre ++ enc e ++ q) (located e (len pre)).
Proof.
  destruct e as [id img| |r]; cbn [event_ok located event_of in_file]; [|done..]. intros (_ & _ & Hl).
  unfold enc. cbn [event_kind event_payload].
  destruct (frame_split KIND_PAGE (to_le 8 id ++ img)) as (h & Hh & ->).
  assert (E : pre ++ (h ++ to_le 8 id ++ img) ++ q = (pre ++ h ++ to_le 8 id) ++ img ++ q) by by rewrite <- !app_assoc.
  rewrite E. assert (Hp : len (pre ++ h ++ to_le 8 id) = len pre + (RECORD_HEADER_LEN + PAGE_ID_LEN)).
  { unfold PAGE_ID_LEN. rewrite !length_app, !length_to_le. lia. }
  split.
  - unfold image. rewrite <- Hp, <- Hl, sub_app_r by lia. rewrite Z.sub_diag. by rewrite sub_app_l.
  - rewrite (length_app (pre ++ _)), (length_app img). rewrite <- Hp. lia.
Qed.

Lemma located_enc es : forall pre q, Forall event_ok es ->
  event_of (pre ++ enc_all es ++ q) <$> locate es (len pre) = es /\
  Forall (in_file (pre ++ enc_all es ++ q)) (locate es (len pre)).
Proof.
  induction es as [|e es IH]; intros pre q Hok; [by constructor|].
  apply Forall_cons_1 in Hok as [He Hok]. change (enc_all (e :: es)) with (enc e ++ enc_all es).
  destruct (event_of_located pre e (enc_all es ++ q) He) as [E1 E2].
  specialize (IH (pre ++ enc e) q Hok). rewrite length_app, Nat2Z.inj_add in IH. cbn [locate]. rewrite fmap_cons.
  rewrite <- !app_assoc in *. rewrite E1. destruct IH as [-> IH]. split; [done|]. by constructor.
Qed.

Definition HEADER : bytes := LOG_MAGIC ++ to_le 4 LOG_VERSION.

Lemma len_header : len HEADER = LOG_HEADER_LEN.
Proof. done. Qed.

Lemma drop_header x : drop (Z.to_nat LOG_HEADER_LEN) (HEADER ++ x) = x.
Proof. done. Qed.

Lemma log_events_enc es q : Forall event_ok es -> es `prefix_of` log_events (HEADER ++ enc_all es ++ q).
Proof.
  intros Hok. unfold log_events. rewrite drop_header, decoded_enc, fmap_app by done.
  destruct (located_enc es HEADER q Hok) as [E _]. rewrite len_header in E. rewrite E. by apply prefix_app_r.
Qed.

Lemma log_events_exact es : Forall event_ok es -> log_events (HEADER ++ enc_all es) = es.
Proof.
  intros Hok. unfold log_events. rewrite drop_header. rewrite <- (app_nil_r (enc_all es)), decoded_enc, fmap_app by done.
  destruct (located_enc es HEADER [] Hok) as [E _]. rewrite len_header in E. rewrite E.
  change (decoded [] (LOG_HEADER_LEN + len (enc_all es))) with (@nil Decoded). apply app_nil_r.
Qed.

(** Everything a file of bytes decodes to is in range and in the file. *)
Lemma decoded_valid l pre rest : l = pre ++ rest -> Forall is_byte l ->
  Forall (fun d => event_ok (event_of l d) /\ in_file l d) (decoded rest (len pre)).
Proof.
  remember (length rest) as m eqn:Hm. revert pre rest Hm. induction (lt_wf m) as [m _ IH].
  intros pre rest -> El Hb. rewrite decoded_unfold.
  destruct (parse_record rest (len pre)) as [[[d n] rest']|] eqn:E; [|constructor].
  assert (Hbr : Forall is_byte rest) by (rewrite El in Hb; by apply Forall_app in Hb as [_ ?]).
  pose proof (parse_shorter _ _ _ _ _ E) as Hs.
  destruct (parse_inv _ _ _ _ _ Hbr E) as (h & payload & kind & Er & Hh & -> & Hmax & Hd).
  constructor.
  - assert (Hp : Forall is_byte payload) by (rewrite Er in Hbr; by apply Forall_app in Hbr as [_ [? _]%Forall_app]).
    pose proof (decode_valid _ _ _ _ Hp Hmax Hd) as Hv. destruct d as [id o| |r]; [|done..].
    destruct Hv as (Hid & -> & Hlen). cbn. unfold image. unfold RECORD_HEADER_LEN, PAGE_ID_LEN, PAGE_SIZE in *.
    assert (len l = len pre + len h + len payload + len rest').
    { rewrite El, Er, !length_app. lia. }
    split_and!; try lia; try done; [by apply Forall_sub|]. apply len_sub; lia.
  - specialize (IH (length rest') ltac:(lia) (pre ++ h ++ payload) rest' eq_refl).
    rewrite !length_app, !Nat2Z.inj_add in IH. rewrite Hh in IH.
    replace (len pre + (RECORD_HEADER_LEN + len payload)) with (len pre + (RECORD_HEADER_LEN + len payload)) in IH by lia.
    apply IH; [|done]. by rewrite El, Er, <- !app_assoc.
Qed.

Lemma log_events_ok l : Forall is_byte l -> LOG_HEADER_LEN <= len l -> Forall event_ok (log_events l) /\
  Forall (in_file l) (decoded (drop (Z.to_nat LOG_HEADER_LEN) l) LOG_HEADER_LEN).
Proof.
  intros Hb Hl.
  pose proof (decoded_valid l (take (Z.to_nat LOG_HEADER_LEN) l) (drop (Z.to_nat LOG_HEADER_LEN) l)
    ltac:(by rewrite take_drop) Hb) as Hv.
  replace (len (take (Z.to_nat LOG_HEADER_LEN) l)) with LOG_HEADER_LEN in Hv.
  2:{ rewrite length_take. change LOG_HEADER_LEN with 12 in *. lia. }
  split; [apply Forall_fmap|]; apply (list.Forall_impl _ _ _ Hv); simpl; tauto.
Qed.

Lemma event_of_app p q d : in_file p d -> event_of (p ++ q) d = event_of p d.
Proof. destruct d as [id o| |r]; [|done..]. intros [? ?]. simpl. f_equal. unfold image, PAGE_SIZE in *. by apply sub_app_lt; lia. Qed.

(** Bytes after a file add records, and change none. *)
Lemma log_events_app p q : Forall is_byte p -> LOG_HEADER_LEN <= len p -> log_events p `prefix_of` log_events (p ++ q).
Proof.
  intros Hb Hl. destruct (log_events_ok p Hb Hl) as [_ Hin]. unfold log_events.
  rewrite drop_app_le by (change LOG_HEADER_LEN with 12 in *; lia).
  destruct (decoded_app (drop (Z.to_nat LOG_HEADER_LEN) p) q LOG_HEADER_LEN) as [k ->].
  rewrite fmap_app. exists (event_of (p ++ q) <$> k). f_equal. apply list_fmap_ext.
  intros i d Hd. apply event_of_app. eapply Forall_lookup_1; [exact Hin|done].
Qed.

(** ** Up to the last durable point *)

(** The records up to the last durable point, and the ones after it. *)
Definition split_one (s : list event * list event) (e : event) : list event * list event :=
  match e with
  | EDurable => (s.1 ++ s.2 ++ [e], [])
  | _ => (s.1, s.2 ++ [e])
  end.

Definition durable_split (es : list event) : list event * list event := foldl split_one ([], []) es.
Definition durable_part (es : list event) : list event := (durable_split es).1.

Lemma durable_split_snoc es e : durable_split (es ++ [e]) = split_one (durable_split es) e.
Proof. unfold durable_split. by rewrite foldl_app. Qed.

Lemma durable_split_concat es : (durable_split es).1 ++ (durable_split es).2 = es.
Proof.
  induction es as [|e es IH] using rev_ind; [done|]. rewrite durable_split_snoc.
  destruct e; simpl; rewrite ?app_nil_r, ?app_assoc; by rewrite IH.
Qed.

Lemma durable_part_prefix es : durable_part es `prefix_of` es.
Proof. exists (durable_split es).2. symmetry. apply durable_split_concat. Qed.

(** A log that ends with a durable point. *)
Definition closed (es : list event) : Prop := durable_part es = es.

Lemma closed_snoc es : closed (es ++ [EDurable]).
Proof.
  unfold closed, durable_part. rewrite durable_split_snoc. simpl. by rewrite app_assoc, durable_split_concat.
Qed.

Lemma durable_split_app es1 es2 : closed es1 -> durable_split (es1 ++ es2) =
  (es1 ++ (durable_split es2).1, (durable_split es2).2).
Proof.
  intros Hc. induction es2 as [|e es2 IH] using rev_ind.
  - rewrite app_nil_r. simpl. rewrite app_nil_r. pose proof (durable_split_concat es1) as E.
    unfold closed, durable_part in Hc. destruct (durable_split es1) as [d p]. simpl in *. subst d.
    apply (f_equal length) in E. rewrite length_app in E. destruct p; [done|simpl in E; lia].
  - rewrite app_assoc, !durable_split_snoc, IH. destruct e; simpl; [done| |done]. by rewrite <- !app_assoc.
Qed.

Lemma durable_part_app es1 es2 : closed es1 -> durable_part (es1 ++ es2) = es1 ++ durable_part es2.
Proof. intros Hc. unfold durable_part. by rewrite durable_split_app. Qed.

(** The pages a list of records leaves, and its transaction records. *)
Definition put_all {A} (m : gmap PageId A) (l : list (PageId * A)) : gmap PageId A :=
  foldl (fun m e => <[e.1 := e.2]> m) m l.

Definition page_writes (es : list event) : list (PageId * bytes) :=
  omap (fun e => match e with EPage id img => Some (id, img) | _ => None end) es.

Definition pages_of (es : list event) : gmap PageId bytes := put_all ∅ (page_writes es).

Definition txns_of (es : list event) : list TxnRecord :=
  omap (fun e => match e with ETxn r => Some r | _ => None end) es.

Lemma put_all_app {A} (m : gmap PageId A) l1 l2 : put_all m (l1 ++ l2) = put_all (put_all m l1) l2.
Proof. apply foldl_app. Qed.

Lemma fmap_put_all {A B} (f : A -> B) l : forall m,
  f <$> put_all m l = put_all (f <$> m) ((fun e => (e.1, f e.2)) <$> l).
Proof. induction l as [|e l IH]; intros m; simpl; [done|]. rewrite IH. by rewrite fmap_insert. Qed.

(** What [replay] keeps of the records read so far. *)
Lemma replayed_events l ds :
  let r := foldl (fun r d => replay_one d r) nothing ds in
  let s := durable_split (event_of l <$> ds) in
  durable r = txns_of s.1 /\ since_durable r = txns_of s.2 /\
  image l <$> durable_pages r = pages_of s.1 /\
  (fun e => (e.1, image l e.2)) <$> pages_since_durable r = page_writes s.2.
Proof.
  cbv zeta. induction ds as [|d ds IH] using rev_ind; [split_and!; try done; apply fmap_empty|].
  rewrite fmap_app, foldl_app. cbn [foldl fmap list_fmap]. rewrite durable_split_snoc.
  destruct IH as (E1 & E2 & E3 & E4). set (r := foldl _ nothing ds) in *. set (s := durable_split _) in *.
  destruct d as [id o| |t]; cbn [event_of split_one replay_one fst snd durable since_durable durable_pages pages_since_durable].
  - unfold page_writes, txns_of in *. rewrite !omap_app, fmap_app, E4. simpl. by rewrite app_nil_r.
  - rewrite E1, E2. unfold pages_of, page_writes, txns_of in *. rewrite !omap_app. simpl. rewrite !app_nil_r.
    split_and!; try done. rewrite put_all_app, <- E3, <- E4. apply fmap_put_all.
  - unfold page_writes, txns_of in *. rewrite !omap_app, E2. simpl. by rewrite app_nil_r.
Qed.

(** ** What [replay] returns *)

Lemma replay_loop_returns fuel : forall rest off r, (length rest < fuel)%nat ->
  reads_as (replay_loop fuel rest off r) (foldl (fun r d => replay_one d r) r (decoded rest off)).
Proof.
  induction fuel as [|fuel IH]; intros rest off r Hf; [lia|]. cbn [replay_loop].
  eapply returns_bind; [apply read_record_parses|]. rewrite decoded_unfold.
  destruct (parse_record rest off) as [[[d n] rest']|] eqn:E; [|apply returns_ret].
  cbn [foldl]. apply IH. pose proof (parse_shorter _ _ _ _ _ E). lia.
Qed.

Definition header_defect (l : bytes) : option LogDefect :=
  if len l <? LOG_HEADER_LEN then Some HeaderCutShort
  else if negb (bool_decide (take (length LOG_MAGIC) l = LOG_MAGIC)) then Some NotALogHeader
  else if negb (le_at 4 l (len LOG_MAGIC) =? LOG_VERSION) then Some OtherVersion
  else None.

(** The transaction records and the offsets of the pages up to the last durable point. *)
Definition replay_of (l : bytes) : Replayed :=
  foldl (fun r d => replay_one d r) nothing (decoded (drop (Z.to_nat LOG_HEADER_LEN) l) LOG_HEADER_LEN).

Definition replay_outcome (file : option bytes) : outcome IoError (list TxnRecord * gmap PageId Z) :=
  match file with
  | None | Some [] => Ok ([], ∅)
  | Some l =>
      match header_defect l with
      | Some defect => Err (InvalidData defect)
      | None => Ok (durable (replay_of l), durable_pages (replay_of l))
      end
  end.

(** The errors of a call that fails while a log is read. *)
Definition read_failure (e : IoError) : Prop := e = OsError \/ e = InvalidData HeaderCutShort.

(** Like [returns], for a computation that may report a failing call in either way. *)
Definition replays {A} (m : M Files IoError A) (r : outcome IoError A) : Prop := forall fs, exists f,
  f `suffix_of` faults fs /\
  (m fs = (r, with_faults f fs) \/ failing fs /\ exists e, read_failure e /\ m fs = (Err e, with_faults f fs)).

Lemma returns_replays {A} (m : M Files IoError A) r : returns m r -> replays m r.
Proof. intros Hm fs. destruct (Hm fs) as (f & Hf & [E|[E Hn]]); exists f; split; [done|by left|done|]. right. split; [done|]. exists OsError. split; [by left|done]. Qed.

Lemma replays_bind {A B} (m : M Files IoError A) (a : A) (k : A -> M Files IoError B) r :
  replays m (Ok a) -> replays (k a) r -> replays (m ≫= k) r.
Proof.
  intros Hm Hk fs. destruct (Hm fs) as (f & Hf & [E|(Hn & e & He & E)]); unfold mbind, M_bind; rewrite E; [|eauto 10].
  destruct (Hk (with_faults f fs)) as (f' & Hf' & E'). exists f'. simpl in Hf'. split; [by etrans|].
  destruct E' as [->|(Hn & e & He & ->)]; [by left|]. right. split; [by eapply failing_suffix|eauto].
Qed.

Lemma replays_header (m : M Files IoError (option (bytes * bytes))) a : reads_as m a -> replays (mapE (fun _ => InvalidData HeaderCutShort) m) (Ok a).
Proof.
  intros Hm fs. destruct (Hm fs) as (f & Hf & [E|[E Hn]]); exists f; (split; [done|]); unfold mapE; rewrite E; [by left|].
  right. split; [done|]. eexists. split; [by right|done].
Qed.

Lemma replay_file_returns l : replays (replay_file l) (replay_outcome (Some l)).
Proof.
  unfold replay_file. eapply replays_bind; [by apply returns_replays, returns_call|]. cbv beta.
  destruct l as [|b l']; [apply returns_replays, returns_ret|].
  set (l := b :: l'). change (replay_outcome (Some l)) with (match header_defect l with
    | Some defect => Err (InvalidData defect)
    | None => Ok (durable (replay_of l), durable_pages (replay_of l)) end).
  rewrite (proj2 (Z.eqb_neq (len l) 0)) by (unfold l; simpl; lia).
  eapply replays_bind; [by apply replays_header, returns_call|]. cbv beta. unfold header_defect.
  destruct (Z.leb_spec LOG_HEADER_LEN (len l)) as [Hl|Hl].
  2:{ rewrite (proj2 (Z.ltb_lt _ _)) by done. apply returns_replays, returns_liftc. }
  rewrite (proj2 (Z.ltb_ge _ _)) by done. cbv beta match.
  assert (Em : sub (take (Z.to_nat LOG_HEADER_LEN) l) 0 (len LOG_MAGIC) = take (length LOG_MAGIC) l).
  { unfold sub. rewrite drop_0, take_take. reflexivity. }
  assert (Ev : le_at 4 (take (Z.to_nat LOG_HEADER_LEN) l) (len LOG_MAGIC) = le_at 4 l (len LOG_MAGIC)).
  { unfold le_at. f_equal. change (Z.to_nat LOG_HEADER_LEN) with 12%nat. change (len LOG_MAGIC) with 8.
    rewrite <- (sub_app_lt (take 12 l) (drop 12 l)); [by rewrite take_drop|lia..|].
    rewrite length_take. change LOG_HEADER_LEN with 12 in Hl. lia. }
  rewrite Em, Ev. destruct (negb (bool_decide _)); [apply returns_replays, returns_liftc|].
  destruct (negb _); [apply returns_replays, returns_liftc|].
  apply returns_replays. eapply returns_bind; [|apply returns_ret]. apply replay_loop_returns. rewrite length_drop.
  change LOG_HEADER_LEN with 12 in *. lia.
Qed.

Lemma replay_returns fs : exists f, f `suffix_of` faults fs /\
  (replay fs = (replay_outcome (contents <$> log_file fs), with_faults f fs) \/
   failing fs /\ exists e, read_failure e /\ replay fs = (Err e, with_faults f fs)).
Proof.
  unfold replay. set (file := contents <$> log_file fs).
  assert (Hk : replays (match file with None => mret ([], ∅) | Some file => replay_file file end) (replay_outcome file)).
  { destruct file; [apply replay_file_returns|apply returns_replays, returns_ret]. }
  destruct (io_cases (fun _ fs => fs) (fun fs => (Ok (contents <$> log_file fs), fs)) fs) as (f & Hf & [E|(n & Hn & E)]).
  - erewrite bind_Ok by exact E. destruct (Hk (with_faults f fs)) as (f' & Hf' & E'). exists f'.
    simpl in Hf'. split; [by etrans|]. destruct E' as [E'|(Hn & e & He & E')]; [by left|]. right. split; [by eapply failing_suffix|]. by exists e.
  - erewrite bind_Err by exact E. exists f. split; [done|]. right. split; [by exists n|]. exists OsError. split; [by left|done].
Qed.
