(* ===== verification/WalTxns.v ===== *)
(** * Transactions and pages of the log

    The records of transactions that have not ended, as the log tracks them, as recovery finds
    them, and as a checkpoint carries them into the next log; what copying the pages of the log
    into the data file does, call by call, and what a checkpoint leaves when any of its calls
    fails. *)

From Stdlib Require Import ZArith Lia.
From stdpp Require Import base gmap list numbers option.
From S2P Require Import Prelude Bytes Ids Buf TablePage TablePageProofs Transaction Files Wal WalCrc WalCodec WalReplay.

Import Files Wal.

Local Open Scope Z_scope.

Definition record_txn (r : TxnRecord) : TxnId :=
  match r with RWrites txn | RUndo txn _ _ _ | REnd txn => txn end.

Definition is_end (r : TxnRecord) : bool := match r with REnd _ => true | _ => false end.

(** ** The records of every open transaction *)

Definition open_one (m : gmap TxnId (list TxnRecord)) (r : TxnRecord) : gmap TxnId (list TxnRecord) :=
  if is_end r then base.delete (record_txn r) m
  else <[record_txn r := default [] (m !! record_txn r) ++ [r]]> m.

Definition open_all (m : gmap TxnId (list TxnRecord)) (rs : list TxnRecord) : gmap TxnId (list TxnRecord) :=
  foldl open_one m rs.

Definition own_records (m : gmap TxnId (list TxnRecord)) : Prop := forall id rs, m !! id = Some rs ->
  rs <> [] /\ Forall (fun r => record_txn r = id /\ is_end r = false) rs.

Lemma open_one_own m r : own_records m -> own_records (open_one m r).
Proof.
  intros Hm id rs. unfold open_one. destruct (is_end r) eqn:Er.
  - intros [_ H]%lookup_delete_Some. by apply Hm.
  - rewrite lookup_insert_Some. intros [[<- <-]|[_ H]]; [|by apply Hm]. split; [by destruct (default [] _)|].
    apply Forall_app. split; [|by repeat constructor].
    destruct (m !! record_txn r) as [rs|] eqn:E; [|constructor]. by apply Hm.
Qed.

Lemma open_all_own rs : forall m, own_records m -> own_records (open_all m rs).
Proof. induction rs as [|r rs IH]; intros m Hm; [done|]. by apply IH, open_one_own. Qed.

Lemma own_empty : own_records ∅.
Proof. intros id rs. by rewrite lookup_empty. Qed.

Lemma open_all_app m rs1 rs2 : open_all m (rs1 ++ rs2) = open_all (open_all m rs1) rs2.
Proof. apply foldl_app. Qed.

Lemma open_all_Forall (P : TxnRecord -> Prop) rs : forall m, Forall P rs ->
  (forall id l, m !! id = Some l -> Forall P l) -> forall id l, open_all m rs !! id = Some l -> Forall P l.
Proof.
  induction rs as [|r rs IH]; intros m Hp Hm; [done|]. apply Forall_cons_1 in Hp as [Hr Hp].
  apply IH; [done|]. intros id l. unfold open_one. destruct (is_end r).
  - intros [_ H]%lookup_delete_Some. eauto.
  - rewrite lookup_insert_Some. intros [[<- <-]|[_ H]]; [|eauto]. apply Forall_app. split; [|by constructor].
    destruct (m !! record_txn r) eqn:E; [|constructor]. eauto.
Qed.

(** ** As bytes *)

Definition enc_records (rs : list TxnRecord) : bytes := enc_all (ETxn <$> rs).

Lemma enc_records_app rs1 rs2 : enc_records (rs1 ++ rs2) = enc_records rs1 ++ enc_records rs2.
Proof. unfold enc_records, enc_all. by rewrite !fmap_app, concat_app. Qed.

Lemma track_encoded m r : track_open_txn_encoded (enc_records <$> m) r (enc (ETxn r)) = enc_records <$> open_one m r.
Proof.
  assert (E : forall txn, default [] ((enc_records <$> m) !! txn) = enc_records (default [] (m !! txn))).
  { intros txn. rewrite lookup_fmap. by destruct (m !! txn). }
  assert (E1 : forall rs, enc_records rs ++ enc (ETxn r) = enc_records (rs ++ [r])).
  { intros rs. rewrite enc_records_app. f_equal. unfold enc_records, enc_all. simpl. by rewrite app_nil_r. }
  unfold open_one. destruct r; cbn [track_open_txn_encoded is_end record_txn];
    rewrite ?E, ?E1, ?fmap_insert, ?fmap_delete; done.
Qed.

(** ** As recovery hands them back *)

Definition undo_one (u : gmap RecordId UndoImage) (r : TxnRecord) : gmap RecordId UndoImage :=
  match r with
  | RUndo _ rid meta data => <[rid := default (mkImage meta data) (u !! rid)]> u
  | _ => u
  end.

Definition recovered_txn (id : TxnId) (rs : list TxnRecord) : RecoveredTxn := mkRecovered id (foldl undo_one ∅ rs).

Definition recovered_txns (m : gmap TxnId (list TxnRecord)) : gmap TxnId RecoveredTxn :=
  map_imap (fun id rs => Some (recovered_txn id rs)) m.

Lemma recovered_lookup m id : recovered_txns m !! id = recovered_txn id <$> m !! id.
Proof. unfold recovered_txns. rewrite map_lookup_imap. by destruct (m !! id). Qed.

Lemma recover_one_open m r : recover_one (recovered_txns m) r = recovered_txns (open_one m r).
Proof.
  apply map_eq. intros id. rewrite recovered_lookup. unfold open_one.
  assert (E : forall txn, recovered_entry (recovered_txns m) txn = recovered_txn txn (default [] (m !! txn))).
  { intros txn. unfold recovered_entry. rewrite recovered_lookup. by destruct (m !! txn). }
  destruct r as [txn|txn rid meta data|txn]; cbn [recover_one is_end record_txn]; rewrite ?E.
  - destruct (decide (id = txn)) as [->|].
    + rewrite !lookup_insert_eq. simpl. unfold recovered_txn. by rewrite foldl_app.
    + by rewrite !lookup_insert_ne, recovered_lookup by done.
  - destruct (decide (id = txn)) as [->|].
    + rewrite !lookup_insert_eq. simpl. unfold recovered_txn. by rewrite foldl_app.
    + by rewrite !lookup_insert_ne, recovered_lookup by done.
  - destruct (decide (id = txn)) as [->|].
    + by rewrite !lookup_delete_eq.
    + by rewrite !lookup_delete_ne, recovered_lookup by done.
Qed.

Lemma track_all_open {E} rs : forall m, Forall record_ok rs ->
  track_all (E := E) rs (enc_records <$> m) (recovered_txns m) =
    Ok (enc_records <$> open_all m rs, recovered_txns (open_all m rs)).
Proof.
  induction rs as [|r rs IH]; intros m Hok; [done|]. apply Forall_cons_1 in Hok as [Hr Hok].
  cbn [track_all]. unfold track_open_txn. rewrite encode_event by done. cbn.
  rewrite track_encoded, recover_one_open. by apply IH.
Qed.

(** ** As a checkpoint carries them *)

(** The records of the transactions in [m], in the order in which [open] walks them. *)
Definition carried (open : gmap TxnId bytes) (m : gmap TxnId (list TxnRecord)) : list TxnRecord :=
  concat ((fun e => default [] (m !! e.1)) <$> btree_entries open).

Lemma open_records rs : forall m id, m !! id = None -> rs <> [] ->
  Forall (fun r => record_txn r = id /\ is_end r = false) rs -> open_all m rs = <[id := rs]> m.
Proof.
  induction rs as [|r rs IH] using rev_ind; intros m id Hid Hne Hown; [done|].
  apply Forall_app in Hown as [Hown [[Er Ee] _]%Forall_cons_1]. rewrite open_all_app. cbn. unfold open_one.
  rewrite Ee, Er. destruct rs as [|r0 rs]; [cbn; by rewrite Hid|]. rewrite (IH m id) by done.
  by rewrite lookup_insert_eq, insert_insert_eq.
Qed.

Lemma open_entries (entries : list (TxnId * list TxnRecord)) : forall m,
  NoDup entries.*1 -> (forall id, id ∈ entries.*1 -> m !! id = None) ->
  Forall (fun e => e.2 <> [] /\ Forall (fun r => record_txn r = e.1 /\ is_end r = false) e.2) entries ->
  open_all m (concat entries.*2) = list_to_map entries ∪ m.
Proof.
  induction entries as [|[id rs] entries IH]; intros m Hnd Hm Hown; csimpl; [by rewrite map_empty_union|].
  csimpl in Hnd. apply list.NoDup_cons in Hnd as [Hni Hnd]. apply Forall_cons_1 in Hown as [[Hne Hrs] Hown]. simpl in *.
  rewrite open_all_app, (open_records rs m id); [|apply Hm; csimpl; set_solver|done..].
  rewrite IH; [|done| |done].
  - rewrite <- insert_union_r by (by apply not_elem_of_list_to_map_1). by rewrite <- insert_union_l.
  - intros i Hi. rewrite lookup_insert_ne by set_solver. apply Hm. csimpl. set_solver.
Qed.

(** Replaying what a checkpoint carried finds the open transactions again. *)
Lemma carried_open m : own_records m -> open_all ∅ (carried (enc_records <$> m) m) = m.
Proof.
  intros Hm. unfold carried. set (entries := (fun e : TxnId * bytes => (e.1, default [] (m !! e.1))) <$> btree_entries (enc_records <$> m)).
  assert (E : (fun e => default [] (m !! e.1)) <$> btree_entries (enc_records <$> m) = entries.*2).
  { unfold entries. by rewrite <- list_fmap_compose. }
  assert (Hp : entries ≡ₚ map_to_list m).
  { unfold entries. rewrite btree_entries_perm, map_to_list_fmap, <- list_fmap_compose.
    erewrite (list_fmap_ext _ id); [by rewrite list_fmap_id|]. intros i [id rs] Hin. simpl.
    apply list_elem_of_lookup_2, elem_of_map_to_list in Hin. by rewrite Hin. }
  rewrite E, open_entries.
  - rewrite (list_to_map_proper entries (map_to_list m)); [by rewrite list_to_map_to_list, map_union_empty| |done].
    rewrite Hp. apply NoDup_fst_map_to_list.
  - rewrite Hp. apply NoDup_fst_map_to_list.
  - intros id _. apply lookup_empty.
  - rewrite Hp. apply Forall_forall. intros [id rs] Hin. apply Hm. by apply elem_of_map_to_list, list_elem_of_In.
Qed.

Lemma carried_bytes m : concat (btree_entries (enc_records <$> m)).*2 = enc_records (carried (enc_records <$> m) m).
Proof.
  unfold carried. set (l := btree_entries (enc_records <$> m)).
  assert (Hl : Forall (fun e => e.2 = enc_records (default [] (m !! e.1))) l).
  { apply Forall_forall. intros [id b] Hin%list_elem_of_In. unfold l in Hin. rewrite btree_entries_perm in Hin.
    apply elem_of_map_to_list in Hin. rewrite lookup_fmap in Hin. simpl. by destruct (m !! id) as [rs|]; simplify_eq/=. }
  induction Hl as [|[id b] l E _ IH]; [done|]. csimpl. rewrite enc_records_app, IH. simpl in E. by rewrite E.
Qed.

(** * Pages in files *)

Import Files Wal.

Local Open Scope Z_scope.

(** ** Writing pages *)

Lemma nth_replicate_0 n i : nth i (replicate n (0 : Z)) 0 = 0.
Proof. revert i. induction n; intros [|i]; simpl; auto. Qed.

Lemma byte_at_write l off bs i : 0 <= off -> 0 <= i ->
  byte_at (write_at l off bs) i =
    if decide (off <= i < off + len bs) then byte_at bs (i - off) else byte_at l i.
Proof.
  intros Ho Hi. unfold byte_at, write_at. cbv zeta. case_decide as Hr.
  - rewrite app_nth2 by (rewrite length_take; lia). rewrite app_nth2 by (rewrite length_take, length_replicate; lia).
    rewrite app_nth1 by (rewrite length_take, length_replicate; lia).
    f_equal. rewrite length_take, length_replicate. lia.
  - destruct (decide (i < off)) as [Hlt|].
    + destruct (decide (Z.to_nat i < length l)%nat) as [Hin|Hout].
      * rewrite app_nth1 by (rewrite length_take; lia). by apply nth_take_lt; lia.
      * rewrite app_nth2 by (rewrite length_take; lia).
        rewrite app_nth1 by (rewrite length_take, length_replicate; lia).
        by rewrite nth_replicate_0, nth_overflow by lia.
    + rewrite app_nth2 by (rewrite length_take; lia). rewrite app_nth2 by (rewrite length_take, length_replicate; lia).
      rewrite app_nth2 by (rewrite length_take, length_replicate; lia).
      rewrite nth_drop, length_take, length_replicate. f_equal. lia.
Qed.

Lemma len_page_in d id : len (page_in d id) = PAGE_SIZE.
Proof.
  unfold page_in, sub. cbv zeta. rewrite length_app, length_replicate, length_take, length_drop.
  unfold PAGE_SIZE. lia.
Qed.

Lemma byte_at_page_in d id i : 0 <= id -> 0 <= i < PAGE_SIZE ->
  byte_at (page_in d id) i = byte_at d (page_offset id + i).
Proof.
  intros Hid Hi. unfold page_in. cbv zeta. set (p := sub d (page_offset id) PAGE_SIZE).
  assert (Hp : forall k, (k < length p)%nat -> nth k p 0 = nth (Z.to_nat (page_offset id) + k) d 0).
  { intros k Hk. unfold p, sub in *. rewrite length_take, length_drop in Hk. rewrite nth_take_lt, nth_drop by lia. done. }
  unfold byte_at, page_offset, PAGE_SIZE in *. destruct (decide (Z.to_nat i < length p)%nat) as [Hin|Hout].
  - rewrite app_nth1, Hp by done. f_equal. lia.
  - rewrite app_nth2, nth_replicate_0 by lia. symmetry. apply nth_overflow.
    unfold p, sub in Hout. rewrite length_take, length_drop in Hout. lia.
Qed.

#[global] Opaque page_in.

Lemma page_in_ext d d' id : 0 <= id ->
  (forall i, 0 <= i < PAGE_SIZE -> byte_at d (page_offset id + i) = byte_at d' (page_offset id + i)) ->
  page_in d id = page_in d' id.
Proof.
  intros Hid H. apply bytes_ext; [pose proof (len_page_in d id); pose proof (len_page_in d' id); lia|].
  intros i. rewrite len_page_in. intros Hi. rewrite !byte_at_page_in by done. by apply H.
Qed.

Lemma page_in_write_other d id bs id' : 0 <= id -> 0 <= id' -> id' <> id -> len bs <= PAGE_SIZE ->
  page_in (write_at d (page_offset id) bs) id' = page_in d id'.
Proof.
  intros Hid Hid' Hne Hl. apply page_in_ext; [done|]. intros i Hi.
  rewrite byte_at_write by (unfold page_offset, PAGE_SIZE in *; lia). case_decide as Hr; [|done].
  unfold page_offset, PAGE_SIZE in *. lia.
Qed.

Lemma page_in_write_same d id bs : 0 <= id -> len bs = PAGE_SIZE ->
  page_in (write_at d (page_offset id) bs) id = bs.
Proof.
  intros Hid Hl. apply bytes_ext; [pose proof (len_page_in (write_at d (page_offset id) bs) id); lia|].
  intros i. rewrite len_page_in. intros Hi. rewrite byte_at_page_in by done.
  rewrite byte_at_write by (unfold page_offset, PAGE_SIZE in *; lia). rewrite decide_True by lia. f_equal. lia.
Qed.

(** ** Copying pages *)

(** The files after calls that changed the data file and nothing else. *)
Definition data_change (fs fs' : Files) (ids : gset PageId) : Prop :=
  faults fs' `suffix_of` faults fs /\ log_file fs' = log_file fs /\ old_logs fs' = old_logs fs /\ data_pending fs' ⊆ data_pending fs ∪ ids /\
  forall id, 0 <= id -> id ∉ ids -> page_in (data_file fs') id = page_in (data_file fs) id.

Lemma data_change_refl fs f ids : f `suffix_of` faults fs -> data_change fs (with_faults f fs) ids.
Proof. intros Hf. split_and!; [done..|cbn; set_solver|done]. Qed.

Lemma data_change_trans fs1 fs2 fs3 ids1 ids2 :
  data_change fs1 fs2 ids1 -> data_change fs2 fs3 ids2 -> data_change fs1 fs3 (ids1 ∪ ids2).
Proof.
  intros (E0 & E1 & E2 & E3 & E4) (F0 & F1 & F2 & F3 & F4). split_and!; [by etrans|congruence..|clear -E3 F3; set_solver|].
  intros id Hid Hni. rewrite F4, E4; [done|done|clear -Hni; set_solver|done|clear -Hni; set_solver].
Qed.

Lemma data_change_weaken fs fs' ids ids' : data_change fs fs' ids -> ids ⊆ ids' -> data_change fs fs' ids'.
Proof.
  intros (E0 & E1 & E2 & E3 & E4) Hs. split_and!; [done|done|done|clear -E3 Hs; set_solver|].
  intros id Hid Hni. apply E4; [done|]. clear -Hni Hs. set_solver.
Qed.

Lemma write_data_change id bs fs : 0 <= id -> len bs = PAGE_SIZE ->
  match write_data id bs fs with
  | (Ok _, fs') => data_change fs fs' {[id]} /\ page_in (data_file fs') id = bs
  | (Err _, fs') => data_change fs fs' {[id]} /\ failing fs
  | (Panic, _) => False
  end.
Proof.
  intros Hid Hl. unfold write_data.
  assert (Hc : forall f bs', f `suffix_of` faults fs -> len bs' <= PAGE_SIZE ->
    data_change fs (with_data (write_at (data_file fs) (page_offset id) bs') ({[id]} ∪ data_pending fs) (with_faults f fs)) {[id]}).
  { intros f bs' Hf Hl'. split_and!; [done|done|done|cbn [data_pending with_data with_faults]; clear; set_solver|].
    intros id' Hid' Hni. cbn [data_file with_data with_faults].
    apply page_in_write_other; [done..|clear -Hni; set_solver|done]. }
  destruct (io_cases (fun n fs => with_data (write_at (data_file fs) (page_offset id) (take n bs)) ({[id]} ∪ data_pending fs) fs)
    (fun fs => (Ok tt, with_data (write_at (data_file fs) (page_offset id) bs) ({[id]} ∪ data_pending fs) fs)) fs)
    as (f & Hf & [->|(n & Hn & ->)]).
  - split; [apply Hc; [done|lia]|]. by apply page_in_write_same.
  - split; [|by exists n]. apply Hc; [done|]. rewrite length_take. lia.
Qed.

Lemma read_log_returns fs f off : log_file fs = Some f -> 0 <= off -> off + PAGE_SIZE <= len (contents f) ->
  exists fl, fl `suffix_of` faults fs /\
    (read_log_at off PAGE_SIZE fs = (Ok (image (contents f) off), with_faults fl fs) \/
     read_log_at off PAGE_SIZE fs = (Err OsError, with_faults fl fs) /\ failing fs).
Proof.
  intros Hf Ho Hl. unfold read_log_at, call.
  match goal with |- context [io ?t ?a fs] => destruct (io_cases t a fs) as (fl & Hfl & [->|(n & Hn & ->)]) end; exists fl.
  - split; [done|]. left. simpl. by rewrite Hf, (proj2 (Z.leb_le _ _)).
  - split; [done|]. right. split; [done|by exists n].
Qed.

Lemma len_image l off : 0 <= off -> off + PAGE_SIZE <= len l -> len (image l off) = PAGE_SIZE.
Proof. intros. apply len_sub; unfold PAGE_SIZE in *; lia. Qed.

Definition entries_ok (l : bytes) (entries : list (PageId * Z)) : Prop :=
  Forall (fun e => 0 <= e.1 /\ 0 <= e.2 /\ e.2 + PAGE_SIZE <= len l) entries.

Lemma copy_pages_change f entries : forall fs, log_file fs = Some f -> NoDup entries.*1 -> entries_ok (contents f) entries ->
  match copy_pages entries fs with
  | (Ok _, fs') => data_change fs fs' (list_to_set entries.*1) /\
      forall id off, (id, off) ∈ entries -> page_in (data_file fs') id = image (contents f) off
  | (Err _, fs') => data_change fs fs' (list_to_set entries.*1) /\ failing fs
  | (Panic, _) => False
  end.
Proof.
  induction entries as [|[id off] entries IH]; intros fs Hf Hnd Hok.
  { cbn. split; [|by intros id off ?%elem_of_nil]. pose proof (data_change_refl fs (faults fs) ∅ ltac:(done)) as Hc.
    by rewrite with_faults_id in Hc. }
  csimpl in Hnd. apply list.NoDup_cons in Hnd as [Hni Hnd]. apply Forall_cons_1 in Hok as [(Hid & Ho & Hl) Hok].
  cbn [copy_pages]. csimpl. simpl in *.
  destruct (read_log_returns fs f off Hf Ho Hl) as (fl & Hfl & [E|[E Hn]]).
  2:{ erewrite bind_Err by exact E. split; [by apply data_change_refl|done]. }
  erewrite bind_Ok by exact E.
  pose proof (write_data_change id (image (contents f) off) (with_faults fl fs) Hid (len_image _ _ Ho Hl)) as Hw.
  destruct (write_data _ _ _) as [[[]|e|] fs1] eqn:Ew; [| |done].
  2:{ erewrite bind_Err by exact Ew. destruct Hw as [Hw Hn]. split; [|by eapply failing_suffix].
      pose proof (data_change_trans _ _ _ _ _ (data_change_refl fs fl ∅ Hfl) Hw) as Hc.
      eapply data_change_weaken; [exact Hc|]. clear. set_solver. }
  erewrite bind_Ok by exact Ew. destruct Hw as [Hw Hp].
  pose proof (data_change_trans _ _ _ _ _ (data_change_refl fs fl ∅ Hfl) Hw) as Hc.
  assert (Hf1 : log_file fs1 = Some f) by (destruct Hc as (_ & -> & _); done).
  specialize (IH fs1 Hf1 Hnd Hok).
  destruct (copy_pages entries fs1) as [[[]|e|] fs2]; [| |done].
  - destruct IH as [Hc2 Himg]. split.
    + pose proof (data_change_trans _ _ _ _ _ Hc Hc2) as H3. by rewrite (left_id_L ∅ (∪)) in H3.
    + intros i o [[= -> ->]|Hin]%list.elem_of_cons; [|by apply Himg].
      destruct Hc2 as (_ & _ & _ & _ & Hc2). rewrite Hc2; [done|done|]. by rewrite elem_of_list_to_set.
  - destruct IH as [IH Hn]. split; [|eapply failing_suffix; [exact Hn|apply Hc]].
    pose proof (data_change_trans _ _ _ _ _ Hc IH) as H3. by rewrite (left_id_L ∅ (∪)) in H3.
Qed.

(** ** Checkpoints *)

Section checkpoint.
Context `{Order : !MapOrder Z}.

Lemma update_cases g fs : exists fl, fl `suffix_of` faults fs /\
  (update g fs = (Ok tt, g (with_faults fl fs)) \/ update g fs = (Err OsError, with_faults fl fs) /\ failing fs).
Proof using.
  unfold update, call.
  match goal with |- context [io ?t ?a fs] => destruct (io_cases t a fs) as (fl & Hfl & [->|(n & Hn & ->)]) end; [eauto|].
  exists fl. split; [done|]. right. split; [done|by exists n].
Qed.

Lemma on_files_Ok {A} (m : M Files IoError A) w fs a fs' : m fs = (Ok a, fs') -> on_files m (w, fs) = (Ok a, (w, fs')).
Proof. unfold on_files, on_snd. simpl. by intros ->. Qed.

Lemma on_files_Err {A} (m : M Files IoError A) w fs e fs' : m fs = (Err e, fs') -> on_files m (w, fs) = (Err e, (w, fs')).
Proof. unfold on_files, on_snd. simpl. by intros ->. Qed.

Lemma sync_Ok m w fs fs' : m fs = (Ok tt, fs') -> sync m (w, fs) = (Ok tt, (w, fs')).
Proof. unfold sync. simpl. by intros ->. Qed.

Lemma sync_Err m w fs e fs' : m fs = (Err e, fs') -> sync m (w, fs) = (Err e, (with_broken w, fs')).
Proof. unfold sync. simpl. by intros ->. Qed.

(** The records of the log a checkpoint writes. *)
Definition fresh_events (m : gmap TxnId (list TxnRecord)) : list event :=
  (ETxn <$> carried (enc_records <$> m) m) ++ [EDurable].

Definition fresh_bytes (m : gmap TxnId (list TxnRecord)) : bytes := HEADER ++ enc_all (fresh_events m).

Lemma fresh_log_bytes {E} m : fresh_log (E := E) (enc_records <$> m) = Ok (fresh_bytes m).
Proof.
  unfold fresh_log, fresh_bytes, fresh_events, HEADER. rewrite encode_frame by done. cbn [mbind outcome_bind].
  rewrite carried_bytes. unfold enc_records, enc_all. rewrite fmap_app, concat_app. cbn [fmap list_fmap concat].
  rewrite app_nil_r. by rewrite <- !app_assoc.
Qed.

Definition reset (w : Wal) (n : Z) : Wal :=
  mkWal n [] ∅ false (open_txns w) (checkpoint_bytes w) (broken w).

(** The data file holds the pages of the log. *)
Definition copied (c : bytes) (w : Wal) (fs fs' : Files) : Prop := forall id, 0 <= id ->
  page_in (data_file fs') id = default (page_in (data_file fs) id) (image c <$> pages w !! id).

(** The new log is in place. *)
Definition replaced (c : bytes) (w : Wal) (fs fs' : Files) (m : gmap TxnId (list TxnRecord)) : Prop :=
  log_file fs' = Some (mkLogFile (fresh_bytes m) (len (fresh_bytes m))) /\
  data_pending fs' = ∅ /\ copied c w fs fs'.

Definition pages_ok (c : bytes) (w : Wal) : Prop :=
  forall id off, pages w !! id = Some off -> 0 <= id /\ 0 <= off /\ off + PAGE_SIZE <= len c.

Lemma entries_pages (p : gmap PageId Z) : NoDup (map_entries p).*1 /\
  list_to_set (map_entries p).*1 = dom p /\ forall id off, (id, off) ∈ map_entries p <-> p !! id = Some off.
Proof using.
  pose proof (map_entries_perm Z p) as Hp. split_and!.
  - rewrite Hp. apply NoDup_fst_map_to_list.
  - apply set_eq. intros r. rewrite Hp, elem_of_list_to_set, elem_of_dom, list_elem_of_fmap. split.
    + intros ([r' o] & -> & Hin%elem_of_map_to_list). eauto.
    + intros [o Hr]. exists (r, o). split; [done|]. by apply elem_of_map_to_list.
  - intros id off. rewrite Hp. apply elem_of_map_to_list.
Qed.

Lemma copy_all w fs f : log_file fs = Some f -> pages_ok (contents f) w ->
  match copy_pages (map_entries (pages w)) fs with
  | (Ok _, fs') => data_change fs fs' (dom (pages w)) /\ copied (contents f) w fs fs'
  | (Err _, fs') => data_change fs fs' (dom (pages w)) /\ failing fs
  | (Panic, _) => False
  end.
Proof.
  intros Hf Hok. destruct (entries_pages (pages w)) as (Hnd & Hdom & Hin).
  assert (He : entries_ok (contents f) (map_entries (pages w))).
  { apply Forall_forall. intros [id off] Hi%list_elem_of_In. by apply Hok, Hin. }
  pose proof (copy_pages_change f _ fs Hf Hnd He) as Hc. rewrite Hdom in Hc.
  destruct (copy_pages _ fs) as [[[]|e|] fs']; [|done..]. destruct Hc as [Hc Himg]. split; [done|].
  intros id Hid. destruct (pages w !! id) as [off|] eqn:E; simpl.
  - by apply Himg, Hin.
  - destruct Hc as (_ & _ & _ & _ & Hc). apply Hc; [done|]. by apply not_elem_of_dom.
Qed.

Definition checkpoint_post (c : bytes) (w : Wal) (fs : Files) (m : gmap TxnId (list TxnRecord))
    (res : outcome IoError unit * (Wal * Files)) : Prop :=
  faults res.2.2 `suffix_of` faults fs /\
  match res with
  | (Ok _, (w', fs')) => w' = reset w (len (fresh_bytes m)) /\ old_logs fs' = [] /\ replaced c w fs fs' m
  | (Err _, (w', fs')) => failing fs /\ (
      (w' = w \/ w' = with_broken w) /\ data_change fs fs' (dom (pages w)) \/
      w' = with_broken (reset w (len (fresh_bytes m))) /\ old_logs fs' = log_file fs :: old_logs fs /\
      replaced c w fs fs' m)
  | (Panic, _) => False
  end.

(** The part of a checkpoint after the data file is synced. *)
Definition replace_log (w : Wal) : M (Wal * Files) IoError unit :=
  fresh ← liftc (fresh_log (open_txns w));
  _ ← on_files create_aside;
  _ ← on_files (write_aside_at 0 fresh);
  _ ← sync sync_aside;
  _ ← on_files rename_aside;
  _ ← set_wal (fun w => mkWal (len fresh) [] ∅ false (open_txns w) (checkpoint_bytes w) (broken w));
  sync sync_dir.

Lemma write_aside_cases bs fs : aside_file fs = Some (mkLogFile [] 0) -> exists fl, fl `suffix_of` faults fs /\
  (write_aside_at 0 bs fs = (Ok tt, with_aside (Some (mkLogFile bs 0)) (with_faults fl fs)) \/
   (exists a, write_aside_at 0 bs fs = (Err OsError, with_aside a (with_faults fl fs))) /\ failing fs).
Proof using.
  intros Ha. assert (Hw : write_log 0 bs (mkLogFile [] 0) = mkLogFile bs 0).
  { unfold write_log, write_at. simpl. by rewrite drop_nil, app_nil_r. }
  unfold write_aside_at.
  match goal with |- context [io ?t ?a fs] => destruct (io_cases t a fs) as (fl & Hfl & [->|(n & Hn & ->)]) end;
    exists fl; (split; [done|]).
  - left. cbn. rewrite Ha. simpl. by rewrite Hw.
  - right. split; [eauto|by exists n].
Qed.

Definition replace_post (w : Wal) (fs : Files) (m : gmap TxnId (list TxnRecord))
    (res : outcome IoError unit * (Wal * Files)) : Prop :=
  faults res.2.2 `suffix_of` faults fs /\
  data_file res.2.2 = data_file fs /\ data_pending res.2.2 = data_pending fs /\
  match res with
  | (Ok _, (w', fs')) => w' = reset w (len (fresh_bytes m)) /\ old_logs fs' = [] /\
      log_file fs' = Some (mkLogFile (fresh_bytes m) (len (fresh_bytes m)))
  | (Err _, (w', fs')) => failing fs /\ (
      (w' = w \/ w' = with_broken w) /\ log_file fs' = log_file fs /\ old_logs fs' = old_logs fs \/
      w' = with_broken (reset w (len (fresh_bytes m))) /\ old_logs fs' = log_file fs :: old_logs fs /\
      log_file fs' = Some (mkLogFile (fresh_bytes m) (len (fresh_bytes m))))
  | (Panic, _) => False
  end.

(** A call that fails before the rename leaves the logs alone. *)
Lemma replace_stopped w w' fs fs' m e :
  faults fs' `suffix_of` faults fs -> data_file fs' = data_file fs -> data_pending fs' = data_pending fs ->
  log_file fs' = log_file fs -> old_logs fs' = old_logs fs -> w' = w \/ w' = with_broken w -> failing fs ->
  replace_post w fs m (Err e, (w', fs')).
Proof using. intros. split_and!; try done. left. by split_and!. Qed.

Lemma replace_log_cases w fs m : open_txns w = enc_records <$> m -> replace_post w fs m (replace_log w (w, fs)).
Proof.
  intros Hm. unfold replace_log.
  erewrite bind_liftc by (rewrite Hm; apply fresh_log_bytes). set (fresh := fresh_bytes m).
  destruct (update_cases (with_aside (Some (mkLogFile [] 0))) fs) as (f1 & Hf1 & [E|[E Hn]]).
  2:{ erewrite bind_Err by (apply on_files_Err; exact E). apply replace_stopped; auto. }
  erewrite bind_Ok by (apply on_files_Ok; exact E). set (fs1 := with_aside _ _).
  destruct (write_aside_cases fresh fs1 eq_refl) as (f2 & Hf2 & [E2|[[a E2] Hn]]);
    (assert (Hs2 : f2 `suffix_of` faults fs) by by etrans).
  2:{ erewrite bind_Err by (apply on_files_Err; exact E2). apply replace_stopped; auto. by eapply failing_suffix. }
  erewrite bind_Ok by (apply on_files_Ok; exact E2). set (fs2 := with_aside (Some (mkLogFile fresh 0)) _).
  destruct (update_cases (fun fs => with_aside (sync_log <$> aside_file fs) fs) fs2) as (f3 & Hf3 & [E3|[E3 Hn]]);
    (assert (Hs3 : f3 `suffix_of` faults fs) by by etrans).
  2:{ erewrite bind_Err by (apply sync_Err; exact E3). apply replace_stopped; auto. by eapply failing_suffix; [exact Hn|]. }
  erewrite bind_Ok by (apply sync_Ok; exact E3). cbn beta.
  set (fs3 := with_aside (sync_log <$> aside_file (with_faults f3 fs2)) (with_faults f3 fs2)).
  destruct (update_cases (fun fs => mkFiles (aside_file fs) (log_file fs :: old_logs fs) None
    (data_file fs) (data_pending fs) (faults fs)) fs3) as (f4 & Hf4 & [E4|[E4 Hn]]);
    (assert (Hs4 : f4 `suffix_of` faults fs) by by etrans).
  2:{ erewrite bind_Err by (apply on_files_Err; exact E4). apply replace_stopped; auto. by eapply failing_suffix; [exact Hn|]. }
  erewrite bind_Ok by (apply on_files_Ok; exact E4). erewrite bind_Ok by done. cbn [fst snd].
  destruct (update_cases (fun fs => mkFiles (log_file fs) [] (aside_file fs) (data_file fs) (data_pending fs)
    (faults fs)) (mkFiles (Some (mkLogFile fresh (len fresh))) (log_file fs :: old_logs fs) None
    (data_file fs) (data_pending fs) f4)) as (f5 & Hf5 & [E5|[E5 Hn]]);
    (assert (Hs5 : f5 `suffix_of` faults fs) by by etrans).
  - erewrite sync_Ok by exact E5. by split_and!.
  - erewrite sync_Err by exact E5. split_and!; try done; [by eapply failing_suffix; [exact Hn|]|]. right. by split_and!.
Qed.

Lemma checkpoint_cases w fs f m :
  log_file fs = Some f -> pages_ok (contents f) w -> open_txns w = enc_records <$> m ->
  checkpoint_post (contents f) w fs m (checkpoint (w, fs)).
Proof.
  intros Hf Hok Hm.
  assert (E0 : checkpoint (w, fs) = (_ ← on_files (copy_pages (map_entries (pages w)));
    _ ← sync sync_data; replace_log w) (w, fs)) by done.
  rewrite E0. clear E0. pose proof (copy_all w fs f Hf Hok) as Hc.
  destruct (copy_pages _ fs) as [[[]|e|] fs1] eqn:E1; [| |done].
  2:{ erewrite bind_Err by (apply on_files_Err; exact E1). destruct Hc as [Hc Hn]. split; [apply Hc|]. split; [done|]. left. auto. }
  erewrite bind_Ok by (apply on_files_Ok; exact E1). destruct Hc as [(Hfs & Hlf & Hol & Hp & Hd) Hcp].
  destruct (update_cases (fun fs => with_data (data_file fs) ∅ fs) fs1) as (f2 & Hf2 & [E2|[E2 Hn]]);
    (assert (Hs2 : f2 `suffix_of` faults fs) by by etrans).
  2:{ erewrite bind_Err by (apply sync_Err; exact E2). split; [done|]. split; [by eapply failing_suffix|]. left.
      split; [auto|]. by split_and!. }
  erewrite bind_Ok by (apply sync_Ok; exact E2). set (fs2 := with_data _ _ _).
  pose proof (replace_log_cases w fs2 m Hm) as Hr.
  destruct (replace_log w (w, fs2)) as [r [w' fs']]. destruct Hr as (Hsf & Ed & Ep & Hr). simpl in Hsf, Ed, Ep.
  split; [by etrans|]. destruct r as [[]|e|]; [| |done].
  - destruct Hr as (-> & Ho & Hl). split; [done|]. split; [done|]. split; [done|]. split; [done|].
    intros id Hid. rewrite Ed. by apply Hcp.
  - destruct Hr as [Hn Hr]. split; [by eapply failing_suffix; [exact Hn|]|]. destruct Hr as [(Hw & Hl & Ho)|(-> & Ho & Hl)].
    + left. split; [done|]. split_and!; [by etrans|by rewrite Hl|by rewrite Ho|rewrite Ep; apply empty_subseteq|].
      intros id Hid Hni. rewrite Ed. by apply Hd.
    + right. split; [done|]. split; [by rewrite Ho, <- Hlf, <- Hol|]. split; [done|]. split; [done|].
      intros id Hid. rewrite Ed. by apply Hcp.
Qed.

End checkpoint.
