(* ===== verification/WalInv.v ===== *)
(** * The invariant of the log

    The database as the log sees it is a state: the pages, and the records of the
    transactions that have not ended. Records change the state; the state on disk is what the
    log says up to its last durable point, applied to the data file. The invariant relates
    the files to the records logged since the last checkpoint. *)

From Stdlib Require Import ZArith Lia.
From stdpp Require Import base gmap list numbers option.
From S2P Require Import Prelude Bytes Ids Buf TablePage TablePageProofs Transaction Files Wal WalCrc WalCodec.
From S2P Require Import WalReplay WalTxns.
Import Files Wal.

Local Open Scope Z_scope.

(** ** States *)

Record dbstate : Type := mkDb { db_pages : PageId -> bytes; db_open : gmap TxnId (list TxnRecord) }.

#[export] Instance db_equiv : Equiv dbstate := fun a b =>
  (forall id, 0 <= id -> db_pages a id = db_pages b id) /\ db_open a = db_open b.

#[export] Instance db_equivalence : Equivalence (≡@{dbstate}).
Proof.
  split.
  - by intros a.
  - intros a b [Hp Ho]. split; [|done]. intros id Hid. symmetry. by apply Hp.
  - intros a b c [Hp Ho] [Hp' Ho']. split; [|congruence]. intros id Hid. rewrite Hp, Hp' by done. done.
Qed.

Definition apply (es : list event) (st : dbstate) : dbstate :=
  mkDb (fun id => default (db_pages st id) (pages_of es !! id)) (open_all (db_open st) (txns_of es)).

#[export] Instance apply_proper es : Proper ((≡) ==> (≡)) (apply es).
Proof.
  intros a b [Hp Ho]. split; simpl; [|by rewrite Ho]. intros id Hid. by rewrite Hp.
Qed.

Lemma put_all_lookup {A} (l : list (PageId * A)) id : forall m,
  put_all m l !! id = match put_all ∅ l !! id with Some x => Some x | None => m !! id end.
Proof.
  induction l as [|[i x] l IH] using rev_ind; intros m; [by cbn; rewrite lookup_empty|].
  rewrite !put_all_app. cbn. destruct (decide (i = id)) as [->|].
  - by rewrite !lookup_insert_eq.
  - rewrite !lookup_insert_ne by done. apply IH.
Qed.

Lemma page_writes_app es1 es2 : page_writes (es1 ++ es2) = page_writes es1 ++ page_writes es2.
Proof. apply omap_app. Qed.

Lemma txns_of_app es1 es2 : txns_of (es1 ++ es2) = txns_of es1 ++ txns_of es2.
Proof. apply omap_app. Qed.

Lemma pages_of_app es1 es2 id : pages_of (es1 ++ es2) !! id =
  match pages_of es2 !! id with Some x => Some x | None => pages_of es1 !! id end.
Proof. unfold pages_of. by rewrite page_writes_app, put_all_app, put_all_lookup. Qed.

Lemma apply_app es1 es2 st : apply (es1 ++ es2) st ≡ apply es2 (apply es1 st).
Proof.
  split; simpl.
  - intros id Hid. rewrite pages_of_app. by destruct (pages_of es2 !! id).
  - by rewrite txns_of_app, open_all_app.
Qed.

Lemma txns_of_txns rs : txns_of (ETxn <$> rs) = rs.
Proof. induction rs as [|r rs IH]; csimpl; [done|]. f_equal. apply IH. Qed.

Lemma pages_of_txns rs : pages_of (ETxn <$> rs) = ∅.
Proof. unfold pages_of. assert (page_writes (ETxn <$> rs) = []) as -> by (induction rs; done). done. Qed.

(** Records of transactions are no durable points. *)
Lemma durable_part_plain es x : EDurable ∉ x -> durable_part (es ++ x) = durable_part es.
Proof.
  induction x as [|e x IH] using rev_ind; intros Hx; [by rewrite app_nil_r|].
  rewrite app_assoc. unfold durable_part. rewrite durable_split_snoc.
  assert (Hne : e <> EDurable) by (intros ->; set_solver).
  destruct e; simpl; try done; apply IH; set_solver.
Qed.

Lemma txns_plain (rs : list TxnRecord) : EDurable ∉ (ETxn <$> rs).
Proof. intros (r & ? & _)%list_elem_of_fmap. done. Qed.

(** ** The state on disk *)

Definition on_disk (c : option bytes) (d : bytes) : dbstate :=
  apply (durable_part (default [] (log_events <$> c))) (mkDb (page_in d) ∅).

(** What is left of a log is told from what was written by its checksums: no record of [c'] is
    read that [c] does not have at its place. *)
Definition torn_detected (c c' : bytes) : Prop := log_events c' `prefix_of` log_events c.

(** What may be found of a log after a power failure: the bytes that were synced, and after
    them any bytes, no more than were written, that a checksum tells from what was written. *)
Definition survives (f f' : option LogFile) : Prop :=
  match f, f' with
  | Some f, Some f' =>
      synced f <= len (contents f') <= len (contents f) /\
      take (Z.to_nat (synced f)) (contents f') = take (Z.to_nat (synced f)) (contents f) /\
      torn_detected (contents f) (contents f') /\
      Forall is_byte (contents f') /\ synced f' = len (contents f')
  | None, None => True
  | _, _ => False
  end.

(** A log that is cut off anywhere after its header is one of them, whatever its records. *)
Lemma cut_survives f n : Forall is_byte (contents f) -> LOG_HEADER_LEN <= n <= len (contents f) -> 0 <= synced f <= n ->
  survives (Some f) (Some (mkLogFile (take (Z.to_nat n) (contents f)) n)).
Proof.
  intros Hb Hn Hs. change LOG_HEADER_LEN with 12 in Hn. assert (El : len (take (Z.to_nat n) (contents f)) = n) by (rewrite length_take; lia).
  cbn. rewrite El. split_and!; try lia; [by rewrite take_take, Nat.min_l by lia| |by apply Forall_take].
  unfold torn_detected. rewrite <- (take_drop (Z.to_nat n) (contents f)) at 2. apply log_events_app; [by apply Forall_take|]. change LOG_HEADER_LEN with 12. lia.
Qed.

(** What a power failure leaves: one of the logs that can be at the log's path, and the data
    file with anything in the pages written since its last sync. *)
Record crash (fs fs' : Files) : Prop := {
  crash_log : exists f, f ∈ log_file fs :: old_logs fs /\ survives f (log_file fs');
  crash_data : forall id, 0 <= id -> id ∉ data_pending fs -> page_in (data_file fs') id = page_in (data_file fs) id;
  crash_settled : old_logs fs' = [] /\ data_pending fs' = ∅;
}.

(** A log that opening does not refuse. *)
Definition headed (c : option bytes) : Prop := from_option (fun l => l = [] \/ header_defect l = None) True c.

Lemma header_defect_app q : header_defect (HEADER ++ q) = None.
Proof.
  unfold header_defect. rewrite length_app, Nat2Z.inj_add. change (len HEADER) with 12.
  rewrite (proj2 (Z.ltb_ge _ _)) by (change LOG_HEADER_LEN with 12; lia). reflexivity.
Qed.

(** A log from which, whatever a power failure does, one of the states [poss] is recovered. *)
Definition safe_log (fs : Files) (poss : list dbstate) (f : option LogFile) : Prop := forall f' d',
  survives f f' ->
  (forall id, 0 <= id -> id ∉ data_pending fs -> page_in d' id = page_in (data_file fs) id) ->
  headed (contents <$> f') /\ exists st, st ∈ poss /\ on_disk (contents <$> f') d' ≡ st.

Definition safe (fs : Files) (poss : list dbstate) : Prop :=
  forall f, f ∈ log_file fs :: old_logs fs -> safe_log fs poss f.

Lemma safe_crash fs fs' poss : safe fs poss -> crash fs fs' ->
  headed (contents <$> log_file fs') /\
  exists st, st ∈ poss /\ on_disk (contents <$> log_file fs') (data_file fs') ≡ st.
Proof. intros Hs [(f & Hf & Hl) Hd _]. by eapply Hs. Qed.

(** ** The invariant *)

Definition log_bytes (es : list event) : bytes := HEADER ++ enc_all es.
#[global] Arguments log_bytes : simpl never.
#[global] Arguments enc_all : simpl never.
#[global] Arguments enc : simpl never.

(** The log holds the records [es1], closed by a durable point and synced, and then [es2];
    [pend] waits in memory. The data file holds the pages [base], except those that [es1]
    overwrites. *)
Record log_inv (w : Wal) (fs : Files) (base : PageId -> bytes) (es1 es2 : list event) (pend : list TxnRecord) : Prop := {
  li_log : exists k, log_file fs = Some (mkLogFile (log_bytes (es1 ++ es2)) k) /\
    len (log_bytes es1) <= k <= len (log_bytes (es1 ++ es2));
  li_ok : Forall event_ok (es1 ++ es2) /\ Forall record_ok pend;
  li_closed : closed es1;
  li_end : wal_end w = len (log_bytes (es1 ++ es2)) /\ buffered w = enc_records pend;
  li_pages : image (log_bytes (es1 ++ es2)) <$> pages w = pages_of (es1 ++ es2);
  li_pages_ok : pages_ok (log_bytes (es1 ++ es2)) w;
  li_open : open_txns w = enc_records <$> open_all ∅ (txns_of (es1 ++ es2) ++ pend);
  li_data : forall id, 0 <= id -> pages_of es1 !! id = None ->
    id ∉ data_pending fs /\ page_in (data_file fs) id = base id;
  li_dirty : dirty w = false -> broken w = false -> es2 = [] /\ pend = [];
}.

Definition state_after (base : PageId -> bytes) (es : list event) : dbstate := apply es (mkDb base ∅).

Definition Inv (w : Wal) (fs : Files) (now : dbstate) (poss : list dbstate) : Prop :=
  exists base es1 es2 pend, log_inv w fs base es1 es2 pend /\
    now ≡ state_after base (es1 ++ es2 ++ (ETxn <$> pend)) /\
    (forall t, t `prefix_of` es2 -> exists st, st ∈ poss /\ state_after base (es1 ++ durable_part t) ≡ st) /\
    (old_logs fs <> [] -> broken w = true) /\ forall f, f ∈ old_logs fs -> safe_log fs poss f.

Lemma log_bytes_app es1 es2 : log_bytes (es1 ++ es2) = log_bytes es1 ++ enc_all es2.
Proof. unfold log_bytes, enc_all. by rewrite fmap_app, concat_app, app_assoc. Qed.

(** A log of which [es1] is on disk for sure. *)
Lemma fixed_safe fs f base es1 es2 c' d' :
  log_events (contents f) = es1 ++ es2 -> closed es1 ->
  es1 `prefix_of` log_events c' -> log_events c' `prefix_of` log_events (contents f) ->
  (forall id, 0 <= id -> pages_of es1 !! id = None -> id ∉ data_pending fs /\ page_in (data_file fs) id = base id) ->
  (forall id, 0 <= id -> id ∉ data_pending fs -> page_in d' id = page_in (data_file fs) id) ->
  exists t, t `prefix_of` es2 /\ on_disk (Some c') d' ≡ state_after base (es1 ++ durable_part t).
Proof.
  intros Ef Hcl [t Et] Hpre Hbase Hd. exists t. rewrite Ef, Et in Hpre. apply prefix_app_inv in Hpre.
  split; [done|]. unfold on_disk. simpl. rewrite Et, durable_part_app by done. split; [|done].
  intros id Hid. simpl. rewrite pages_of_app. destruct (pages_of (durable_part t) !! id); [done|].
  destruct (pages_of es1 !! id) eqn:E1; [done|]. simpl. destruct (Hbase id Hid E1) as [Hn <-]. by apply Hd.
Qed.

Lemma take_agree (c c' : bytes) n (p q : bytes) : take n c' = take n c -> (n <= length c')%nat ->
  c = p ++ q -> (length p <= n)%nat -> exists q', c' = p ++ q'.
Proof.
  intros E Hn -> Hp. exists (drop (length p) c'). rewrite <- (take_drop (length p) c') at 1. f_equal.
  transitivity (take (length p) (take n c')); [by rewrite take_take, Nat.min_l|].
  rewrite E, take_take, Nat.min_l by lia. apply take_app_length.
Qed.

Lemma inv_safe w fs now poss : Inv w fs now poss -> safe fs poss.
Proof.
  intros (base & es1 & es2 & pend & HI & _ & Hposs & _ & Hold) f [->|Hf]%list.elem_of_cons; [|by apply Hold].
  intros f' d' Hs Hd. destruct (li_log _ _ _ _ _ _ HI) as (k & Hl & Hk). rewrite Hl in Hs.
  destruct f' as [f'|]; [|done]. destruct Hs as (Hlen & Htake & Hpre & _). cbn [contents synced] in *.
  destruct (li_ok _ _ _ _ _ _ HI) as [Hok _].
  assert (Hev : log_events (log_bytes (es1 ++ es2)) = es1 ++ es2) by by apply log_events_exact.
  destruct (take_agree (log_bytes (es1 ++ es2)) (contents f') (Z.to_nat k) (log_bytes es1) (enc_all es2)) as [q Eq];
    [done|lia|apply log_bytes_app|lia|].
  assert (H1 : es1 `prefix_of` log_events (contents f')).
  { rewrite Eq. unfold log_bytes. rewrite <- app_assoc. apply log_events_enc. by apply Forall_app in Hok as [? _]. }
  destruct (fixed_safe fs (mkLogFile (log_bytes (es1 ++ es2)) k) base es1 es2 (contents f') d' Hev
    (li_closed _ _ _ _ _ _ HI) H1 Hpre (li_data _ _ _ _ _ _ HI) Hd) as (t & Ht & E).
  destruct (Hposs t Ht) as (st & Hin & Est). split.
  { right. rewrite Eq. unfold log_bytes. rewrite <- app_assoc. apply header_defect_app. }
  exists st. split; [done|]. by rewrite E.
Qed.
