(* ===== verification/WalOps.v ===== *)
(** * Operations of the log keep the invariant

    Every operation of an open log, whichever of its calls fail, takes the invariant to the
    invariant: what is logged changes the state of the database, a durable point makes it the
    only state a power failure can leave, and everything else leaves the states as they are. *)

From Stdlib Require Import ZArith Lia.
From stdpp Require Import base gmap list numbers option.
From S2P Require Import Prelude Bytes Ids Buf TablePage TablePageProofs Transaction Files Wal WalCrc WalCodec.
From S2P Require Import WalReplay WalTxns WalInv.
Import Files Wal.

Local Open Scope Z_scope.

(** No call that fails leaves part of a write behind. *)
Definition clean (fs : Files) : Prop := Forall (fun f => f = None \/ f = Some 0%nat) (faults fs).

Lemma clean_suffix fs fs' : clean fs -> faults fs' `suffix_of` faults fs -> clean fs'.
Proof. unfold clean. intros Hc [k E]. rewrite E in Hc. by apply Forall_app in Hc as [_ ?]. Qed.

(** ** Writing records *)

Lemma write_at_end l bs : write_at l (len l) bs = l ++ bs.
Proof.
  unfold write_at. rewrite Nat2Z.id, firstn_all, Nat.sub_diag, drop_ge by lia. simpl. by rewrite app_nil_r.
Qed.

Definition appended (es2 : list event) (pend : list TxnRecord) (e : event) : list event := es2 ++ (ETxn <$> pend) ++ [e].

Lemma appended_assoc es1 es2 pend e : es1 ++ appended es2 pend e = (es1 ++ es2 ++ (ETxn <$> pend)) ++ [e].
Proof. unfold appended. by rewrite <- !app_assoc. Qed.

Section ops.
Context `{Order : !MapOrder Z}.

Lemma write_out_cases w fs base es1 es2 pend e :
  log_inv w fs base es1 es2 pend -> event_ok e -> clean fs ->
  exists fl k, fl `suffix_of` faults fs /\ len (log_bytes es1) <= k <= len (log_bytes (es1 ++ es2)) /\
  match write_out_with (event_kind e) (event_payload e) (w, fs) with
  | (Ok start, (w', fs')) => start = len (log_bytes (es1 ++ es2 ++ (ETxn <$> pend))) /\
      w' = with_buffered (len (log_bytes (es1 ++ appended es2 pend e))) [] w /\
      fs' = with_log (Some (mkLogFile (log_bytes (es1 ++ appended es2 pend e)) k)) (with_faults fl fs)
  | (Err _, (w', fs')) => w' = w /\ fs' = with_faults fl fs
  | (Panic, _) => False
  end.
Proof using.
  intros HI He Hcl. destruct (li_log _ _ _ _ _ _ HI) as (k & Hl & Hk). destruct (li_end _ _ _ _ _ _ HI) as [Hend Hbuf].
  assert (Hmax : MAX_PAYLOAD_LEN <= u32_max) by (vm_compute; discriminate).
  pose proof (payload_len e He) as Hpl.
  unfold write_out_with. erewrite bind_Ok by done. cbn [fst].
  erewrite bind_liftc by (apply encode_frame; lia). fold (enc e).
  assert (Eout : log_bytes (es1 ++ es2) ++ buffered w ++ enc e = log_bytes (es1 ++ appended es2 pend e)).
  { rewrite Hbuf. unfold appended. rewrite (app_assoc es1 es2), (log_bytes_app (es1 ++ es2)). f_equal.
    unfold enc_records, enc_all. rewrite fmap_app, concat_app. cbn. by rewrite app_nil_r. }
  unfold write_log_at.
  match goal with |- context [on_files (io ?t ?a)] => destruct (io_cases t a fs) as (fl & Hfl & Hcase) end.
  exists fl, k. split; [done|]. split; [done|]. destruct Hcase as [E|(n & Hn & E)].
  - erewrite bind_Ok by (apply on_files_Ok; exact E). cbn [log_file with_faults]. rewrite Hl. cbn [fmap option_fmap option_map].
    erewrite bind_Ok by done. cbn. rewrite Hend. split_and!.
    + rewrite Hbuf. rewrite (app_assoc es1 es2), (log_bytes_app (es1 ++ es2)), length_app. unfold enc_records. lia.
    + f_equal. rewrite <- Eout, !length_app. lia.
    + unfold write_log. cbn [contents synced]. rewrite write_at_end, Eout, Z.min_l by lia. done.
  - erewrite bind_Err by (apply on_files_Err; exact E). split; [done|]. rewrite Hend.
    assert (n = 0%nat) as ->.
    { unfold clean in Hcl. rewrite Forall_forall in Hcl. specialize (Hcl (Some n) (proj1 (list_elem_of_In _ _) Hn)).
      destruct Hcl as [?|[= ->]]; done. }
    rewrite take_0. cbn [log_file with_faults]. rewrite Hl. cbn [fmap option_fmap option_map].
    unfold write_log. cbn [contents synced]. rewrite write_at_end, app_nil_r, Z.min_l by lia.
    destruct fs; cbn in *. by rewrite Hl.
Qed.

Lemma images_grow c q w : pages_ok c w -> image (c ++ q) <$> pages w = image c <$> pages w.
Proof using.
  intros Hok. apply map_fmap_ext. intros id off E. destruct (Hok id off E) as (_ & Ho & Hl).
  unfold image. apply sub_app_lt; unfold PAGE_SIZE in *; lia.
Qed.

Lemma pages_ok_grow c q w : pages_ok c w -> pages_ok (c ++ q) w.
Proof using. intros Hok id off E. destruct (Hok id off E) as (? & ? & ?). rewrite length_app. lia. Qed.

Lemma txns_events_ok rs : Forall record_ok rs -> Forall event_ok (ETxn <$> rs).
Proof using. intros H. by apply Forall_fmap. Qed.

Lemma appended_ok es1 es2 pend e : Forall event_ok (es1 ++ es2) -> Forall record_ok pend -> event_ok e ->
  Forall event_ok (es1 ++ appended es2 pend e).
Proof using.
  intros H1 H2 He. unfold appended. rewrite app_assoc. apply Forall_app. split; [done|].
  apply Forall_app. split; [by apply txns_events_ok|by constructor].
Qed.

(** The records before the one just written, as the log holds them. *)
Lemma before_images es1 es2 pend e w :
  image (log_bytes (es1 ++ es2)) <$> pages w = pages_of (es1 ++ es2) -> pages_ok (log_bytes (es1 ++ es2)) w ->
  image (log_bytes (es1 ++ appended es2 pend e)) <$> pages w = pages_of (es1 ++ es2 ++ (ETxn <$> pend)) /\
  pages_ok (log_bytes (es1 ++ appended es2 pend e)) w.
Proof using.
  intros Hp Hok. unfold appended. rewrite (app_assoc es1 es2 ((ETxn <$> pend) ++ [e])), log_bytes_app.
  split; [|by apply pages_ok_grow]. rewrite images_grow, Hp by done. rewrite app_assoc.
  apply map_eq. intros id. by rewrite (pages_of_app (es1 ++ es2)), pages_of_txns, lookup_empty.
Qed.

Lemma prefix_app_cases {A} (t a b : list A) : t `prefix_of` a ++ b ->
  t `prefix_of` a \/ exists b', b' `prefix_of` b /\ t = a ++ b'.
Proof using.
  intros [q E]. destruct (decide (length t <= length a)%nat) as [Hle|Hgt].
  - left. exists (drop (length t) a). rewrite <- (take_drop (length t) a) at 1. f_equal.
    apply (f_equal (take (length t))) in E. by rewrite take_app_le, take_app_length in E by done.
  - right. exists (drop (length a) t). split.
    + exists q. apply (f_equal (drop (length a))) in E. by rewrite drop_app_length, drop_app_le in E by lia.
    + apply (f_equal (take (length a))) in E. rewrite take_app_length, take_app_le in E by lia.
      rewrite <- (take_drop (length a) t) at 1. by rewrite <- E.
Qed.

(** Records that are no durable points do not change what can be recovered. *)
Lemma poss_plain base es1 es2 x (poss : list dbstate) : EDurable ∉ x ->
  (forall t, t `prefix_of` es2 -> exists st, st ∈ poss /\ state_after base (es1 ++ durable_part t) ≡ st) ->
  forall t, t `prefix_of` es2 ++ x -> exists st, st ∈ poss /\ state_after base (es1 ++ durable_part t) ≡ st.
Proof using.
  intros Hx Hposs t [Ht|(x' & [q ->] & ->)]%prefix_app_cases; [by apply Hposs|].
  rewrite durable_part_plain by set_solver. by apply Hposs.
Qed.

(** ** [log_txn] *)

Lemma log_txn_inv w fs now poss r : Inv w fs now poss -> record_ok r ->
  exists w', log_txn r (w, fs) = (Ok tt, (w', fs)) /\ Inv w' fs (apply [ETxn r] now) poss.
Proof using.
  intros (base & es1 & es2 & pend & HI & Hnow & Hposs & Hbr & Hold) Hr. unfold log_txn.
  eexists. split. { erewrite bind_liftc by by apply encode_event. reflexivity. }
  exists base, es1, es2, (pend ++ [r]). split; [|split; [|split; [exact Hposs|split; [exact Hbr|exact Hold]]]].
  - destruct HI as [Hl [Hok Hpo] Hcl [Hend Hbuf] Hp Hpok Hop Hd Hdirty]. split; cbn; try done.
    + split; [done|]. apply Forall_app. split; [done|by constructor].
    + split; [done|]. rewrite Hbuf, enc_records_app. f_equal. symmetry. apply app_nil_r.
    + rewrite Hop, track_encoded. by rewrite (app_assoc (txns_of _) pend), (open_all_app ∅ (txns_of _ ++ pend)).
  - rewrite fmap_app, !app_assoc. rewrite <- (app_assoc es1). unfold state_after. rewrite apply_app. by rewrite Hnow.
Qed.

(** ** [log_page] *)

Definition no_txn (e : event) : Prop := match e with ETxn _ => False | _ => True end.

Lemma append_inv w fs base es1 es2 pend e w' fl k :
  log_inv w fs base es1 es2 pend -> event_ok e -> no_txn e ->
  len (log_bytes es1) <= k <= len (log_bytes (es1 ++ es2)) ->
  wal_end w' = len (log_bytes (es1 ++ appended es2 pend e)) -> buffered w' = [] -> open_txns w' = open_txns w ->
  dirty w' = true ->
  image (log_bytes (es1 ++ appended es2 pend e)) <$> pages w' = pages_of (es1 ++ appended es2 pend e) ->
  pages_ok (log_bytes (es1 ++ appended es2 pend e)) w' ->
  log_inv w' (with_log (Some (mkLogFile (log_bytes (es1 ++ appended es2 pend e)) k)) (with_faults fl fs))
    base es1 (appended es2 pend e) [].
Proof using.
  intros [Hl [Hok Hpo] Hcl [Hend Hbuf] Hp Hpok Hop Hd Hdirty] He Hn Hk E1 E2 E3 E4 E5 E6. split; try done.
  - exists k. split; [done|]. split; [lia|]. unfold appended.
    rewrite (app_assoc es1 es2), (log_bytes_app (es1 ++ es2)), length_app. lia.
  - split; [by apply appended_ok|done].
  - assert (E : txns_of (es1 ++ appended es2 pend e) = txns_of (es1 ++ es2) ++ pend).
    { unfold appended. rewrite (app_assoc es1 es2), (txns_of_app (es1 ++ es2)), (txns_of_app (ETxn <$> pend)), txns_of_txns.
      destruct e; [..|done]; cbn; by rewrite app_nil_r. }
    by rewrite E3, Hop, E, app_nil_r.
  - congruence.
Qed.

Lemma log_page_inv w fs now poss id img : Inv w fs now poss -> clean fs -> event_ok (EPage id img) ->
  let '(r, (w', fs')) := log_page id img (w, fs) in
  faults fs' `suffix_of` faults fs /\
  match r with
  | Ok _ => Inv w' fs' (apply [EPage id img] now) poss
  | Err _ => Inv w' fs' now poss
  | Panic => False
  end.
Proof using.
  intros HInv Hclean He. unfold log_page. destruct (broken w) eqn:Hb.
  { erewrite bind_Err by (unfold refuse_if_broken; cbn; by rewrite Hb). done. }
  erewrite bind_Ok by (unfold refuse_if_broken; cbn; by rewrite Hb).
  pose proof HInv as (base & es1 & es2 & pend & HI & Hnow & Hposs & Hbr & Hold).
  destruct (write_out_cases w fs base es1 es2 pend (EPage id img) HI He Hclean) as (fl & k & Hfl & Hk & Hw).
  assert (Hol : old_logs fs = []) by (destruct (old_logs fs); [done|rewrite Hbr in Hb by done; done]).
  cbn [event_kind event_payload] in Hw.
  destruct (write_out_with KIND_PAGE (to_le 8 id ++ img) (w, fs)) as [[start|e|] [w' fs']] eqn:Ew; [| |done].
  2:{ erewrite bind_Err by exact Ew. destruct Hw as [-> ->]. split; [done|].
      exists base, es1, es2, pend. split; [by destruct HI; split|]. split; [done|]. split; [done|]. split; [done|].
      cbn. rewrite Hol. intros f Hf. by apply elem_of_nil in Hf. }
  erewrite bind_Ok by exact Ew. cbn. destruct Hw as (-> & -> & ->). split; [done|].
  exists base, es1, (appended es2 pend (EPage id img)), []. split.
  - destruct HI as [Hl [Hok Hpo] Hcl Hend Hp Hpok Hop Hd Hdirty].
    destruct (before_images es1 es2 pend (EPage id img) w Hp Hpok) as [Hp' Hpok'].
    pose proof (event_of_located (log_bytes (es1 ++ es2 ++ (ETxn <$> pend))) (EPage id img) [] He) as [Eev Hin].
    assert (El : log_bytes (es1 ++ es2 ++ (ETxn <$> pend)) ++ enc (EPage id img) ++ [] =
      log_bytes (es1 ++ appended es2 pend (EPage id img))).
    { rewrite appended_assoc, (log_bytes_app (es1 ++ es2 ++ _)), app_nil_r. f_equal. unfold enc_all. cbn. by rewrite app_nil_r. }
    rewrite El in Eev, Hin. cbn [located event_of in_file] in Eev, Hin.
    assert (Eimg : image (log_bytes (es1 ++ appended es2 pend (EPage id img)))
      (len (log_bytes (es1 ++ es2 ++ (ETxn <$> pend))) + (RECORD_HEADER_LEN + PAGE_ID_LEN)) = img) by congruence.
    eapply append_inv; [by split|done|done|done|done|done|done|done|..].
    + cbn [pages with_page with_buffered]. rewrite fmap_insert, Eimg. cbn in Hp'. rewrite Hp', appended_assoc.
      apply map_eq. intros i. rewrite pages_of_app. cbn. destruct (decide (i = id)) as [->|].
      * by rewrite !lookup_insert_eq.
      * by rewrite !lookup_insert_ne, lookup_empty.
    + intros i o. cbn [pages with_page with_buffered]. rewrite lookup_insert_Some.
      intros [[<- <-]|[_ Hi]]; [|by apply Hpok']. destruct He as (Hid & _). unfold page_id_valid in Hid. lia.
  - split; [|split; [|split; [cbn; by rewrite Hol|]]].
    + unfold state_after. rewrite app_nil_r, appended_assoc, apply_app. by rewrite Hnow.
    + apply poss_plain; [|done]. intros [?|?]%elem_of_app; [by eapply txns_plain|set_solver].
    + cbn. rewrite Hol. intros f Hf. by apply elem_of_nil in Hf.
Qed.

(** ** Checkpoints *)

Lemma fresh_events_ok m : (forall id l, m !! id = Some l -> Forall record_ok l) -> Forall event_ok (fresh_events m).
Proof using.
  intros Hm. unfold fresh_events. apply Forall_app. split; [|by constructor]. apply txns_events_ok. unfold carried.
  apply Forall_concat. apply Forall_fmap, Forall_forall. intros [id b] _. cbn.
  destruct (m !! id) eqn:E; [|constructor]. by eapply Hm.
Qed.

Lemma fresh_pages m : pages_of (fresh_events m) = ∅.
Proof using.
  apply map_empty. intros id. unfold fresh_events. by rewrite pages_of_app, pages_of_txns.
Qed.

Lemma fresh_txns m : own_records m -> open_all ∅ (txns_of (fresh_events m)) = m.
Proof using.
  intros Hm. unfold fresh_events. rewrite txns_of_app, txns_of_txns. cbn. rewrite app_nil_r. by apply carried_open.
Qed.

(** The log that a checkpoint put in place of one whose records are [D]. *)
Lemma replaced_inv c w fs fs' D w' b :
  image c <$> pages w = pages_of D -> Forall record_ok (txns_of D) ->
  open_txns w = enc_records <$> open_all ∅ (txns_of D) ->
  replaced c w fs fs' (open_all ∅ (txns_of D)) ->
  w' = reset w (len (fresh_bytes (open_all ∅ (txns_of D)))) \/ w' = with_broken (reset w (len (fresh_bytes (open_all ∅ (txns_of D))))) ->
  b = page_in (data_file fs') ->
  log_inv w' fs' b (fresh_events (open_all ∅ (txns_of D))) [] [] /\
  state_after b (fresh_events (open_all ∅ (txns_of D))) ≡ apply D (mkDb (page_in (data_file fs)) ∅).
Proof using.
  intros Hp Hok Hop (Hl & Hpe & Hcp) Hw ->. set (m := open_all ∅ (txns_of D)) in *.
  assert (Hown : own_records m) by (apply open_all_own, own_empty).
  assert (Hm : forall id l, m !! id = Some l -> Forall record_ok l).
  { apply open_all_Forall; [done|]. intros id l. by rewrite lookup_empty. }
  split.
  - assert (Ew : wal_end w' = len (fresh_bytes m) /\ buffered w' = [] /\ pages w' = ∅ /\ open_txns w' = open_txns w).
    { by destruct Hw as [->| ->]. }
    destruct Ew as (E1 & E2 & E3 & E4). split; rewrite ?app_nil_r.
    + exists (len (fresh_bytes m)). split; [done|]. unfold fresh_bytes. fold (log_bytes (fresh_events m)). lia.
    + split; [by apply fresh_events_ok|done].
    + apply closed_snoc.
    + by rewrite E1, E2.
    + by rewrite E3, fmap_empty, fresh_pages.
    + intros id off. by rewrite E3, lookup_empty.
    + by rewrite E4, Hop, fresh_txns.
    + intros id Hid _. split; [|done]. rewrite Hpe. set_solver.
    + done.
  - split; cbn; [|by apply fresh_txns]. intros id Hid. rewrite fresh_pages, lookup_empty. cbn.
    rewrite (Hcp id Hid). rewrite <- Hp, lookup_fmap. by destruct (pages w !! id).
Qed.

(** A log that is on disk to its last record, which closes it. *)
Lemma whole_safe fs f base es now :
  log_events (contents f) = es -> closed es -> (forall q, es `prefix_of` log_events (contents f ++ q)) ->
  synced f = len (contents f) -> headed (Some (contents f)) ->
  (forall id, 0 <= id -> pages_of es !! id = None -> id ∉ data_pending fs /\ page_in (data_file fs) id = base id) ->
  now ≡ state_after base es -> safe_log fs [now] (Some f).
Proof using.
  intros Ef Hcl Hgrow Hs Hh Hbase Hnow f' d' Hsv Hd. destruct f' as [f'|]; [|done].
  destruct Hsv as (Hlen & Htake & Hpre & _). rewrite Hs, Nat2Z.id, firstn_all in Htake.
  assert (H1 : es `prefix_of` log_events (contents f')).
  { rewrite <- (take_drop (length (contents f)) (contents f')), Htake. apply Hgrow. }
  destruct (fixed_safe fs f base es [] (contents f') d') as (t & Ht%prefix_nil_inv & E); try done.
  { by rewrite app_nil_r. }
  split.
  { rewrite firstn_all2 in Htake by lia. cbn [fmap option_fmap option_map]. by rewrite Htake. }
  exists now. split; [apply list_elem_of_singleton; reflexivity|]. cbn [fmap option_fmap option_map]. rewrite E, Ht. cbn. by rewrite app_nil_r.
Qed.

Lemma checkpoint_inv w fs base es now :
  log_inv w fs base es [] [] -> now ≡ state_after base es -> old_logs fs = [] -> dirty w = false ->
  synced <$> log_file fs = Some (len (log_bytes es)) ->
  let '(r, (w', fs')) := checkpoint (w, fs) in
  faults fs' `suffix_of` faults fs /\ r <> Panic /\ Inv w' fs' now [now].
Proof.
  intros HI Hnow Hol Hdirty Hsy. pose proof HI as [Hl [Hok _] Hcl Hend Hp Hpok Hop Hd _].
  rewrite ?app_nil_r in *. destruct Hl as (k & Hl & _). rewrite Hl in Hsy.
  assert (k = len (log_bytes es)) as -> by (cbn [fmap option_fmap option_map synced] in Hsy; congruence).
  set (m := open_all ∅ (txns_of es)) in *.
  assert (Hrec : Forall record_ok (txns_of es)).
  { unfold txns_of. clear -Hok. induction Hok as [|e es He _ IH]; [constructor|]. destruct e; cbn; try done. by constructor. }
  pose proof (checkpoint_cases w fs _ m Hl Hpok Hop) as [Hsf Hc]. cbn [contents] in Hc.
  destruct (checkpoint (w, fs)) as [r [w' fs']]. cbn in Hsf. split; [done|].
  assert (Hstate : apply es (mkDb (page_in (data_file fs)) ∅) ≡ now).
  { rewrite Hnow. split; [|done]. intros id Hid. cbn. destruct (pages_of es !! id) eqn:E; [done|]. cbn. by apply Hd. }
  assert (Hone : forall b es', state_after b es' ≡ now -> forall t, t `prefix_of` [] ->
    exists st, st ∈ [now] /\ state_after b (es' ++ durable_part t) ≡ st).
  { intros b es' E t ->%prefix_nil_inv. exists now. split; [apply list_elem_of_singleton; reflexivity|]. cbn. by rewrite app_nil_r. }
  destruct r as [[]|e|]; [| |done]; (split; [done|]).
  - destruct Hc as (-> & Hol' & Hr).
    destruct (replaced_inv _ w fs fs' es _ _ Hp Hrec Hop Hr (or_introl eq_refl) eq_refl) as [HI' Hst'].
    eexists _, _, [], []. split; [exact HI'|]. cbn. rewrite app_nil_r, Hst', Hstate. split; [done|].
    split; [by apply Hone; rewrite Hst', Hstate|]. rewrite Hol'. split; [done|]. intros f ?%elem_of_nil. done.
  - destruct Hc as [_ [[Hw Hc]|(-> & Hol' & Hr)]].
    + destruct Hc as (_ & E1 & E2 & E3 & E4). exists base, es, [], []. split.
      * split; rewrite ?app_nil_r; try (destruct Hw as [->| ->]; first [exact Hcl|exact Hend|exact Hp|exact Hpok|exact Hop]);
          [| | |intros; split; reflexivity].
        -- rewrite E1, Hl. exists (len (log_bytes es)). split; [reflexivity|lia].
        -- split; [exact Hok|constructor].
        -- intros id Hid Hn. destruct (Hd id Hid Hn) as [Hnp Hb].
           assert (Hni : id ∉ dom (pages w)).
           { apply not_elem_of_dom. apply (f_equal (lookup id)) in Hp. rewrite lookup_fmap, Hn in Hp.
             by destruct (pages w !! id). }
           split; [clear -E3 Hnp Hni; set_solver|]. by rewrite E4.
      * cbn. rewrite app_nil_r. split; [done|]. split; [by apply Hone|]. rewrite E2, Hol. split; [done|].
        intros f ?%elem_of_nil. done.
    + destruct (replaced_inv _ w fs fs' es _ _ Hp Hrec Hop Hr (or_intror eq_refl) eq_refl) as [HI' Hst'].
      eexists _, _, [], []. split; [exact HI'|]. cbn. rewrite app_nil_r, Hst', Hstate. split; [done|].
      split; [by apply Hone; rewrite Hst', Hstate|]. split; [done|]. rewrite Hol', Hol, Hl.
      intros f ->%list_elem_of_singleton. destruct Hr as (_ & Hpe & Hcp).
      eapply (whole_safe fs' _ base es); cbn [contents synced]; [by apply log_events_exact|done| |done|right; apply header_defect_app| |done].
      * intros q. unfold log_bytes. rewrite <- app_assoc. by apply log_events_enc.
      * intros id Hid Hn. rewrite Hpe. split; [apply not_elem_of_empty|]. rewrite (Hcp id Hid).
        apply (f_equal (lookup id)) in Hp. rewrite lookup_fmap, Hn in Hp.
        destruct (pages w !! id); [done|]. cbn. by apply Hd.
Qed.

(** ** [durable_point] *)

Lemma apply_durable st : apply [EDurable] st ≡ st.
Proof using. split; [|done]. intros id Hid. done. Qed.

(** The durable point is written, and not yet synced. *)
Lemma durable_written w fs base es1 es2 pend now poss fl k w' :
  log_inv w fs base es1 es2 pend -> now ≡ state_after base (es1 ++ es2 ++ (ETxn <$> pend)) ->
  (forall t, t `prefix_of` es2 -> exists st, st ∈ poss /\ state_after base (es1 ++ durable_part t) ≡ st) ->
  old_logs fs = [] -> dirty w = true -> len (log_bytes es1) <= k <= len (log_bytes (es1 ++ es2)) ->
  w' = with_buffered (len (log_bytes (es1 ++ appended es2 pend EDurable))) [] w ->
  let fs' := with_log (Some (mkLogFile (log_bytes (es1 ++ appended es2 pend EDurable)) k)) (with_faults fl fs) in
  log_inv w' fs' base es1 (appended es2 pend EDurable) [] /\
  now ≡ state_after base (es1 ++ appended es2 pend EDurable) /\
  forall t, t `prefix_of` appended es2 pend EDurable ->
    exists st, st ∈ now :: poss /\ state_after base (es1 ++ durable_part t) ≡ st.
Proof using.
  intros HI Hnow Hposs Hol Hdirty Hk ->. cbv zeta.
  assert (Hnow' : now ≡ state_after base (es1 ++ appended es2 pend EDurable)).
  { unfold state_after. rewrite appended_assoc, apply_app, apply_durable. exact Hnow. }
  split; [|split; [done|]].
  - pose proof HI as [Hl [Hok Hpo] Hcl Hend Hp Hpok Hop Hd _].
    destruct (before_images es1 es2 pend EDurable w Hp Hpok) as [Hp' Hpok'].
    eapply append_inv; [exact HI|done|done|done|done|done|done|done| |exact Hpok'].
    cbn [pages with_buffered]. rewrite Hp', appended_assoc. apply map_eq. intros i. by rewrite (pages_of_app (_ ++ _ ++ _)).
  - unfold appended. rewrite app_assoc. intros t [Ht|(x & Hx & ->)]%prefix_app_cases.
    + destruct (poss_plain base es1 es2 (ETxn <$> pend) poss (txns_plain pend) Hposs t Ht) as (st & ? & ?).
      exists st. split; [set_solver|done].
    + destruct x as [|e x].
      * rewrite app_nil_r, durable_part_plain by apply txns_plain.
        destruct (Hposs es2 ltac:(done)) as (st & ? & ?). exists st. split; [set_solver|done].
      * apply prefix_cons_inv_1 in Hx as Ee. subst e. apply prefix_cons_inv_2, prefix_nil_inv in Hx. subst x.
        exists now. split; [set_solver|]. rewrite closed_snoc, <- app_assoc. symmetry. exact Hnow'.
Qed.

(** The durable point is synced. *)
Lemma durable_synced w fs base es1 es2 k fl now :
  log_inv w fs base es1 es2 [] -> closed (es1 ++ es2) -> now ≡ state_after base (es1 ++ es2) ->
  log_file fs = Some (mkLogFile (log_bytes (es1 ++ es2)) k) ->
  let fs' := with_log (Some (mkLogFile (log_bytes (es1 ++ es2)) (len (log_bytes (es1 ++ es2))))) (with_faults fl fs) in
  log_inv (with_dirty false w) fs' base (es1 ++ es2) [] [].
Proof using.
  intros HI Hcl Hnow Hl. cbv zeta. destruct HI as [Hlog [Hok Hpo] _ Hend Hp Hpok Hop Hd _].
  split; rewrite ?app_nil_r in *; try done.
  - exists (len (log_bytes (es1 ++ es2))). split; [done|lia].
  - intros id Hid Hn. apply Hd; [done|]. rewrite pages_of_app in Hn. by destruct (pages_of es2 !! id).
Qed.

Lemma sync_log_cases fs f : log_file fs = Some f -> exists fl, fl `suffix_of` faults fs /\
  (sync_log_file fs = (Ok tt, with_log (Some (mkLogFile (contents f) (len (contents f)))) (with_faults fl fs)) \/
   sync_log_file fs = (Err OsError, with_faults fl fs) /\ failing fs).
Proof using.
  intros Hf. destruct (update_cases (fun fs => with_log (sync_log <$> log_file fs) fs) fs) as (fl & Hfl & [E|E]);
    exists fl; (split; [done|]); [left|by right].
  unfold sync_log_file. rewrite E. cbn [log_file with_faults]. by rewrite Hf.
Qed.

Lemma durable_point_inv w fs now poss : Inv w fs now poss -> clean fs ->
  let '(r, (w', fs')) := durable_point (w, fs) in
  faults fs' `suffix_of` faults fs /\
  match r with
  | Ok _ => Inv w' fs' now [now]
  | Err _ => Inv w' fs' now (now :: poss)
  | Panic => False
  end.
Proof.
  intros HInv Hclean. unfold durable_point.
  pose proof HInv as (base & es1 & es2 & pend & HI & Hnow & Hposs & Hbr & Hold).
  destruct (broken w) eqn:Hb.
  { erewrite bind_Err by (unfold refuse_if_broken; cbn; by rewrite Hb). split; [done|].
    exists base, es1, es2, pend. split_and!; try done.
    - intros t Ht. destruct (Hposs t Ht) as (st & ? & ?). exists st. split; [by apply list.elem_of_cons; right|done].
    - intros f Hf f' d' Hs Hd. destruct (Hold f Hf f' d' Hs Hd) as (? & st & ? & ?). split; [done|].
      exists st. split; [by apply list.elem_of_cons; right|done]. }
  erewrite bind_Ok by (unfold refuse_if_broken; cbn; by rewrite Hb). erewrite bind_Ok by done. cbn [fst].
  assert (Hol : old_logs fs = []) by (destruct (old_logs fs); [done|by specialize (Hbr ltac:(done))]).
  assert (Hnil : forall P : option LogFile -> Prop, forall f, f ∈ [] -> P f) by (intros P f ?%elem_of_nil; done).
  destruct (dirty w) eqn:Hdirty; cbn [negb].
  2:{ split; [done|]. destruct (li_dirty _ _ _ _ _ _ HI Hdirty Hb) as [-> ->]. exists base, es1, [], [].
      split; [done|]. split; [done|]. rewrite Hol. split; [|split; [done|apply Hnil]].
      intros t ->%prefix_nil_inv. exists now. split; [set_solver|]. by rewrite Hnow. }
  destruct (write_out_cases w fs base es1 es2 pend EDurable HI I Hclean) as (fl & k & Hfl & Hk & Hw).
  cbn [event_kind event_payload] in Hw.
  destruct (write_out_with KIND_DURABLE [] (w, fs)) as [[start|e|] [w1 fs1]] eqn:Ew; [| |done].
  2:{ erewrite bind_Err by exact Ew. destruct Hw as [-> ->]. split; [done|]. exists base, es1, es2, pend.
      split; [by destruct HI; split|]. split; [done|]. split; [|split; [done|cbn; rewrite Hol; apply Hnil]].
      intros t Ht. destruct (Hposs t Ht) as (st & ? & ?). exists st. split; [set_solver|done]. }
  erewrite bind_Ok by exact Ew. destruct Hw as (_ & -> & ->).
  destruct (durable_written w fs base es1 es2 pend now poss fl k _ HI Hnow Hposs Hol Hdirty Hk eq_refl) as (HI1 & Hnow1 & Hposs1).
  cbv zeta in HI1. set (w1 := with_buffered _ _ w) in *. set (fs1 := with_log _ _) in *.
  destruct (sync_log_cases fs1 _ eq_refl) as (f2 & Hf2 & [E2|[E2 _]]); (assert (Hs2 : f2 `suffix_of` faults fs) by by etrans).
  2:{ erewrite bind_Err by (apply sync_Err; exact E2). split; [done|].
      exists base, es1, (appended es2 pend EDurable), []. split; [by destruct HI1; split|]. rewrite app_nil_r.
      split; [done|]. split; [done|]. split; [done|]. cbn. rewrite Hol. apply Hnil. }
  erewrite bind_Ok by (apply sync_Ok; exact E2). erewrite bind_Ok by done. erewrite bind_Ok by done. cbn [fst snd contents].
  assert (Hcl : closed (es1 ++ appended es2 pend EDurable)) by (rewrite appended_assoc; apply closed_snoc).
  pose proof (durable_synced w1 fs1 base es1 (appended es2 pend EDurable) k f2 now HI1 Hcl Hnow1 eq_refl) as HI2.
  cbv zeta in HI2. set (fs2 := with_log _ (with_faults f2 fs1)) in *.
  destruct (checkpoint_bytes _ <? wal_end _).
  - pose proof (checkpoint_inv (with_dirty false w1) fs2 base _ now HI2 Hnow1 Hol eq_refl eq_refl) as Hc.
    unfold warn_on_err. destruct (checkpoint (with_dirty false w1, fs2)) as [r [w' fs']].
    destruct Hc as (Hs & Hr & Hc). destruct r; [..|done]; (split; [by etrans|done]).
  - split; [done|]. exists base, (es1 ++ appended es2 pend EDurable), [], []. split; [done|].
    rewrite !app_nil_r. split; [done|]. split; [|split; [done|cbn; rewrite Hol; apply Hnil]].
    intros t ->%prefix_nil_inv. exists now. split; [apply list_elem_of_singleton; reflexivity|]. cbn. rewrite app_nil_r. by symmetry.
Qed.

End ops.
