(* ===== verification/WalOpen.v ===== *)
(** * Recovery

    Opening a log finds the state of its last durable point; from then on, whatever is logged,
    whichever calls fail and whenever the power goes, opening the log again finds a state that
    a durable point made the state to return to, and never one from before the last durable
    point that was acknowledged. *)

From Stdlib Require Import ZArith Lia.
From stdpp Require Import base gmap list numbers option.
From S2P Require Import Prelude Bytes Ids Buf TablePage TablePageProofs Transaction Files Wal WalCrc WalCodec.
From S2P Require Import WalReplay WalTxns WalInv WalOps.
Import Files Wal.

Local Open Scope Z_scope.

(** Files as a machine that has just started finds them: what is read is what is on disk. *)
Definition settled (fs : Files) : Prop :=
  old_logs fs = [] /\ data_pending fs = ∅ /\
  from_option (fun f => Forall is_byte (contents f) /\ synced f = len (contents f)) True (log_file fs) /\
  headed (contents <$> log_file fs).

Definition disk_state (fs : Files) : dbstate := on_disk (contents <$> log_file fs) (data_file fs).

Lemma crash_settles fs fs' poss : safe fs poss -> crash fs fs' ->
  settled fs' /\ exists st, st ∈ poss /\ disk_state fs' ≡ st.
Proof.
  intros Hsafe Hc. destruct (safe_crash fs fs' poss Hsafe Hc) as [Hh Hst]. split; [|done].
  destruct Hc as [(f & _ & Hs) _ [E1 E2]]. split; [done|]. split; [done|]. split; [|done].
  destruct f as [f|], (log_file fs') as [f'|]; try done. by destruct Hs as (_ & _ & _ & ? & ?).
Qed.

(** ** What opening reads *)

Definition events_in (f : option LogFile) : list event := default [] ((fun f => log_events (contents f)) <$> f).

(** A log that is on disk in full reads back the same. *)
Lemma survives_same f f' : survives f f' ->
  from_option (fun f => Forall is_byte (contents f) /\ synced f = len (contents f)) True f ->
  contents <$> f' = contents <$> f.
Proof.
  destruct f as [f|], f' as [f'|]; try done. intros (Hl & Ht & _) [_ Hs]. rewrite Hs, Nat2Z.id, !firstn_all2 in Ht by lia.
  cbn. by rewrite Ht.
Qed.

Lemma events_contents f : events_in f = default [] (log_events <$> (contents <$> f)).
Proof. by destruct f. Qed.

Lemma same_events_safe fs f D d0 st :
  (forall f', survives f f' -> events_in f' = events_in f /\ headed (contents <$> f')) -> D = durable_part (events_in f) ->
  (forall id, 0 <= id -> pages_of D !! id = None -> id ∉ data_pending fs /\ page_in (data_file fs) id = d0 id) ->
  st ≡ apply D (mkDb d0 ∅) -> safe_log fs [st] f.
Proof.
  intros Hev -> Hd Hst f' d' Hs Hd'. split; [by apply Hev|]. exists st. split; [apply list_elem_of_singleton; reflexivity|]. rewrite Hst.
  assert (E : default [] (log_events <$> (contents <$> f')) = events_in f).
  { rewrite <- (proj1 (Hev f' Hs)). by destruct f'. }
  unfold on_disk. rewrite E. split; [|done]. intros id Hid. cbn.
  destruct (pages_of (durable_part (events_in f)) !! id) eqn:Ep; [done|]. cbn.
  destruct (Hd id Hid Ep) as [Hn <-]. by apply Hd'.
Qed.

Lemma created_empty f' : survives (Some (mkLogFile [] 0)) f' -> contents <$> f' = Some [].
Proof.
  destruct f' as [f'|]; [|done]. intros (Hl & _). destruct f' as [[|b c] s]; [done|]. cbn in Hl. lia.
Qed.

(** Where the pages of the replayed log are. *)
Lemma replayed_pages (P : PageId -> Z -> Prop) ds :
  Forall (fun d => match d with DPage id off => P id off | _ => True end) ds ->
  let r := foldl (fun r d => replay_one d r) nothing ds in
  (forall id off, durable_pages r !! id = Some off -> P id off) /\
  Forall (fun e => P e.1 e.2) (pages_since_durable r).
Proof.
  cbv zeta. induction ds as [|d ds IH] using rev_ind; intros Hds.
  { split; [|constructor]. intros id off. cbn. by rewrite lookup_empty. }
  apply Forall_app in Hds as [Hds [Hd _]%Forall_cons_1]. rewrite foldl_app. cbn [foldl].
  destruct (IH Hds) as [H1 H2]. set (r := foldl _ nothing ds) in *.
  destruct d as [id off| |t]; cbn [replay_one durable_pages pages_since_durable].
  - split; [done|]. apply Forall_app. split; [done|by repeat constructor].
  - split; [|constructor]. clear -H1 H2. revert H1. generalize (durable_pages r). unfold extend.
    induction H2 as [|[i o] l Hi _ IH]; intros m Hm; [done|]. cbn. apply IH. intros id off.
    rewrite lookup_insert_Some. intros [[<- <-]|[_ ?]]; [done|by apply Hm].
  - done.
Qed.

Lemma replay_facts l : Forall is_byte l -> LOG_HEADER_LEN <= len l ->
  let D := durable_part (log_events l) in
  durable (replay_of l) = txns_of D /\ image l <$> durable_pages (replay_of l) = pages_of D /\
  Forall record_ok (txns_of D) /\
  forall id off, durable_pages (replay_of l) !! id = Some off -> 0 <= id /\ 0 <= off /\ off + PAGE_SIZE <= len l.
Proof.
  intros Hb Hl. cbv zeta. destruct (log_events_ok l Hb Hl) as [Hok Hin]. unfold replay_of.
  destruct (replayed_events l (decoded (drop (Z.to_nat LOG_HEADER_LEN) l) LOG_HEADER_LEN)) as (E1 & _ & E3 & _).
  fold (log_events l) in E1, E3. fold (durable_part (log_events l)) in E1, E3. split_and!; [done|done| |].
  - assert (HD : Forall event_ok (durable_part (log_events l))).
    { destruct (durable_part_prefix (log_events l)) as [k E]. rewrite E in Hok. by apply Forall_app in Hok as [? _]. }
    unfold txns_of. clear -HD. induction HD as [|e es He _ IH]; [constructor|]. destruct e; cbn; try done. by constructor.
  - apply (replayed_pages (fun id off => 0 <= id /\ 0 <= off /\ off + PAGE_SIZE <= len l)).
    apply Forall_lookup. intros i d Hd. pose proof (Forall_lookup_1 _ _ _ _ Hin Hd) as Hi.
    assert (He : event_ok (event_of l d)).
    { eapply (Forall_lookup_1 _ _ i); [exact Hok|]. unfold log_events. by rewrite list_lookup_fmap, Hd. }
    destruct d as [id off| |t]; [|done..]. destruct He as ([? ?] & _). cbn in Hi. lia.
Qed.

Lemma replay_outcome_Ok file r ps : Forall is_byte (default [] file) -> replay_outcome file = Ok (r, ps) ->
  let D := durable_part (default [] (log_events <$> file)) in
  let c := default [] file in
  r = txns_of D /\ image c <$> ps = pages_of D /\ Forall record_ok (txns_of D) /\
  forall id off, ps !! id = Some off -> 0 <= id /\ 0 <= off /\ off + PAGE_SIZE <= len c.
Proof.
  intros Hb Hr. cbv zeta.
  destruct file as [[|b l]|].
  1,3: cbn in Hr; injection Hr as <- <-; split_and!; [done|apply fmap_empty|constructor|]; intros id off; by rewrite lookup_empty.
  cbn [default] in *. set (l' := b :: l) in *.
  change (match header_defect l' with Some d => Err (InvalidData d)
    | None => Ok (durable (replay_of l'), durable_pages (replay_of l')) end = @Ok IoError _ (r, ps)) in Hr.
  destruct (header_defect l') eqn:Ed; [done|].
  assert (Hl : LOG_HEADER_LEN <= len l').
  { unfold header_defect in Ed. destruct (Z.ltb_spec (len l') LOG_HEADER_LEN); done. }
  injection Hr as <- <-. by apply replay_facts.
Qed.

Lemma replay_outcome_Err file e : replay_outcome file = Err e ->
  exists l d, file = Some l /\ l <> [] /\ header_defect l = Some d.
Proof.
  intros Hr. destruct file as [[|b l]|]; [done| |done]. exists (b :: l).
  change (match header_defect (b :: l) with Some d => Err (InvalidData d)
    | None => Ok (durable (replay_of (b :: l)), durable_pages (replay_of (b :: l))) end = Err e) in Hr.
  destruct (header_defect (b :: l)) as [d|]; [by exists d|done].
Qed.

Section opening.
Context `{Order : !MapOrder Z}.

(** What opening finds. *)
Definition opened (fs : Files) (w : Wal) (rec : Recovery) (fs' : Files) : Prop :=
  Inv w fs' (disk_state fs) [disk_state fs] /\ broken w = false /\
  (forall id, 0 <= id -> page_in (data_file fs') id = db_pages (disk_state fs) id) /\
  unfinished rec = (btree_entries (recovered_txns (db_open (disk_state fs)))).*2.

Definition open_post (fs : Files) (res : outcome IoError (Wal * Recovery) * Files) : Prop :=
  faults res.2 `suffix_of` faults fs /\
  match res with
  | (Ok (w, rec), fs') => opened fs w rec fs'
  | (Err _, fs') => safe fs' [disk_state fs] /\ failing fs
  | (Panic, _) => False
  end.

(** Files whose log reads as that of settled files, and whose data file is as it was but for pages
    of that log. *)
Lemma like_settled_safe fs fs1 f : settled fs ->
  (f = log_file fs \/ log_file fs = None /\ f = Some (mkLogFile [] 0)) ->
  (forall id, 0 <= id -> pages_of (durable_part (events_in (log_file fs))) !! id = None ->
    id ∉ data_pending fs1 /\ page_in (data_file fs1) id = page_in (data_file fs) id) ->
  safe_log fs1 [disk_state fs] f.
Proof using.
  intros (_ & _ & Hs & Hh) Hf Hd.
  assert (E : events_in f = events_in (log_file fs) /\
    forall f', survives f f' -> events_in f' = events_in f /\ headed (contents <$> f')).
  { destruct Hf as [->|[-> ->]]; (split; [done|]); intros f' Hf'; rewrite !events_contents.
    - by rewrite (survives_same _ f' Hf' Hs).
    - rewrite (created_empty f' Hf'). split; [done|by left]. }
  destruct E as [E Hev]. eapply (same_events_safe fs1 f _ (page_in (data_file fs))); [exact Hev|done|by rewrite E|].
  unfold disk_state, on_disk. rewrite E. by destruct (log_file fs).
Qed.

Lemma create_log_cases fs : exists fl, fl `suffix_of` faults fs /\
  (create_log fs = (Err OsError, with_faults fl fs) /\ failing fs \/
   exists fs1 f, create_log fs = (Ok tt, fs1) /\ log_file fs1 = Some f /\ faults fs1 = fl /\
     data_file fs1 = data_file fs /\ data_pending fs1 = data_pending fs /\
     (log_file fs = Some f /\ old_logs fs1 = old_logs fs \/
      log_file fs = None /\ f = mkLogFile [] 0 /\ old_logs fs1 = None :: old_logs fs)).
Proof using.
  unfold create_log. match goal with |- context [update ?g fs] => destruct (update_cases g fs) as (fl & Hfl & [->|[-> Hn]]) end;
    exists fl; (split; [done|]); [right|by left].
  cbn [log_file with_faults]. destruct (log_file fs) as [f|] eqn:E.
  - exists (with_faults fl fs), f. split_and!; try done. by left.
  - eexists _, (mkLogFile [] 0). split_and!; try done. right. by split_and!.
Qed.

(** A checkpoint of a log just replayed. *)
Lemma open_checkpoint fs fs1 f ps n rec :
  settled fs -> log_file fs1 = Some f -> data_file fs1 = data_file fs -> data_pending fs1 = ∅ ->
  faults fs1 `suffix_of` faults fs ->
  (log_file fs = Some f /\ old_logs fs1 = [] \/ log_file fs = None /\ f = mkLogFile [] 0 /\ old_logs fs1 = [None]) ->
  let D := durable_part (events_in (log_file fs)) in
  image (contents f) <$> ps = pages_of D -> Forall record_ok (txns_of D) ->
  (forall id off, ps !! id = Some off -> 0 <= id /\ 0 <= off /\ off + PAGE_SIZE <= len (contents f)) ->
  unfinished rec = (btree_entries (recovered_txns (open_all ∅ (txns_of D)))).*2 ->
  let w := mkWal 0 [] ps false (enc_records <$> open_all ∅ (txns_of D)) n false in
  open_post fs (match on_new_wal checkpoint w fs1 with
                | (Ok w', fs2) => (Ok (w', rec), fs2) | (Err e, fs2) => (Err e, fs2) | (Panic, fs2) => (Panic, fs2) end).
Proof.
  intros Hset Hl Hdf Hdp Hfl Hf D Hp Hrec Hpok Hun w.
  pose proof (checkpoint_cases w fs1 f (open_all ∅ (txns_of D)) Hl Hpok eq_refl) as [Hsf Hc].
  assert (Hst : disk_state fs = apply D (mkDb (page_in (data_file fs1)) ∅)).
  { unfold disk_state, on_disk. rewrite Hdf. by destruct (log_file fs). }
  assert (Hno : forall id, pages_of D !! id = None -> ps !! id = None).
  { intros id Hn. apply (f_equal (lookup id)) in Hp. rewrite lookup_fmap, Hn in Hp. by destruct (ps !! id). }
  assert (Hcands : forall fs2, (forall id, 0 <= id -> pages_of D !! id = None ->
      id ∉ data_pending fs2 /\ page_in (data_file fs2) id = page_in (data_file fs) id) ->
    forall g, g ∈ Some f :: old_logs fs1 -> safe_log fs2 [disk_state fs] g).
  { intros fs2 Hd2 g Hg. apply like_settled_safe; [done| |done]. clear -Hf Hg.
    destruct Hf as [[E1 E2]|(E1 & -> & E2)]; rewrite E2 in Hg; rewrite E1; set_solver. }
  unfold on_new_wal. destruct (checkpoint (w, fs1)) as [r [w' fs2]]. cbn [snd] in Hsf.
  assert (Hsf' : faults fs2 `suffix_of` faults fs) by by etrans.
  assert (Hrep : forall w', replaced (contents f) w fs1 fs2 (open_all ∅ (txns_of D)) ->
    w' = reset w (len (fresh_bytes (open_all ∅ (txns_of D)))) \/
    w' = with_broken (reset w (len (fresh_bytes (open_all ∅ (txns_of D))))) ->
    (old_logs fs2 <> [] -> broken w' = true) -> (forall g, g ∈ old_logs fs2 -> safe_log fs2 [disk_state fs] g) ->
    Inv w' fs2 (disk_state fs) [disk_state fs]).
  { intros w2 Hr Hw2 Hb Hold. destruct (replaced_inv (contents f) w fs1 fs2 D w2 _ Hp Hrec eq_refl Hr Hw2 eq_refl) as [HI E].
    rewrite <- Hst in E. eexists _, _, [], []. split; [exact HI|]. cbn. rewrite app_nil_r. split; [by symmetry|].
    split; [|done]. intros t ->%prefix_nil_inv. exists (disk_state fs). split; [apply list_elem_of_singleton; reflexivity|]. cbn. by rewrite app_nil_r. }
  destruct r as [[]|e|]; [| |done]; (split; [done|]).
  - destruct Hc as (-> & Hol & Hr). split_and!.
    + apply Hrep; [done|by left|by rewrite Hol|]. rewrite Hol. intros g ?%elem_of_nil. done.
    + done.
    + intros id Hid. destruct Hr as (_ & _ & Hcp). rewrite (Hcp id Hid), Hst. cbn. rewrite <- Hp, lookup_fmap. done.
    + rewrite Hst. exact Hun.
  - destruct Hc as [Hfail Hc]. split; [|by eapply failing_suffix]. destruct Hc as [[_ Hc]|(-> & Hol & Hr)].
    + destruct Hc as (_ & E1 & E2 & E3 & E4). intros g Hg. rewrite E1, E2, Hl in Hg. apply Hcands; [|done].
      intros id Hid Hn. rewrite Hdp in E3. pose proof (Hno id Hn) as Hni%not_elem_of_dom.
      split; [clear -E3 Hni; set_solver|]. rewrite E4, Hdf; done.
    + eapply inv_safe, Hrep; [done|by right|done|]. rewrite Hol, Hl. apply Hcands.
      destruct Hr as (_ & Hpe & Hcp). intros id Hid Hn. rewrite Hpe. split; [apply not_elem_of_empty|].
      rewrite (Hcp id Hid), Hdf. change (pages w) with ps. by rewrite (Hno id Hn).
Qed.

(** Opening the log of settled files. *)
Lemma open_spec fs : settled fs -> open_post fs (open fs).
Proof.
  intros Hset. pose proof Hset as (Hol & Hdp & Hlog & Hh). unfold open.
  destruct (replay_returns fs) as (f1 & Hf1 & Hr).
  assert (Hstop : forall fl e, fl `suffix_of` faults fs -> failing fs ->
    open_post fs (Err e, with_faults fl fs)).
  { intros fl e Hfl Hwhy. split; [done|]. split; [|exact Hwhy]. intros g Hg. cbn in Hg. rewrite Hol in Hg.
    apply list_elem_of_singleton in Hg as ->. apply like_settled_safe; [done|by left|].
    intros id _ _. cbn. rewrite Hdp. split; [set_solver|done]. }
  destruct Hr as [Hr|(Hn & e & _ & Hr)]; [|erewrite bind_Err by exact Hr; apply Hstop; auto].
  destruct (replay_outcome (contents <$> log_file fs)) as [[r ps]|e|] eqn:Eo.
  2:{ erewrite bind_Err by exact Hr. destruct (replay_outcome_Err _ _ Eo) as (l & d & El & Hne & Ed).
      rewrite El in Hh. destruct Hh; congruence. }
  2:{ destruct (log_file fs) as [[[|? ?] ?]|]; cbn -[header_defect] in Eo; try done. by destruct (header_defect _). }
  erewrite bind_Ok by exact Hr.
  assert (Hb : Forall is_byte (default [] (contents <$> log_file fs))) by (destruct (log_file fs); [apply Hlog|constructor]).
  destruct (replay_outcome_Ok _ r ps Hb Eo) as (-> & Hp & Hrec & Hpok).
  assert (EE : default [] (log_events <$> (contents <$> log_file fs)) = events_in (log_file fs)) by by destruct (log_file fs).
  rewrite EE in *. set (D := durable_part (events_in (log_file fs))) in *.
  pose proof (@track_all_open IoError (txns_of D) ∅ Hrec) as Htr.
  rewrite fmap_empty in Htr. change (recovered_txns ∅) with (∅ : gmap TxnId RecoveredTxn) in Htr.
  erewrite bind_liftc by exact Htr. cbv beta iota.
  destruct (create_log_cases (with_faults f1 fs)) as (f2 & Hf2 & [[E Hn]|(fs1 & f & E & El & Efl & Ed & Ep & Hcase)]).
  { erewrite bind_Err by exact E. apply (Hstop f2); [by etrans|]. by eapply failing_suffix. }
  erewrite bind_Ok by exact E. cbn [log_file with_faults data_file data_pending old_logs] in *.
  assert (Ec : default [] (contents <$> log_file fs) = contents f).
  { destruct Hcase as [[-> _]|(-> & -> & _)]; done. }
  rewrite Ec in *. rewrite Hol in Hcase. rewrite Hdp in Ep.
  set (rec := mkRecovery (Z.of_nat (base.size ps)) (btree_entries (recovered_txns (open_all ∅ (txns_of D)))).*2).
  pose proof (open_checkpoint fs fs1 f ps CHECKPOINT_LOG_BYTES rec Hset El Ed Ep ltac:(rewrite Efl; by etrans) Hcase
    Hp Hrec Hpok eq_refl) as Hc. cbv zeta in Hc. fold D in Hc.
  destruct (on_new_wal checkpoint _ fs1) as [[w|e|] fs2] eqn:Ew.
  - by erewrite bind_Ok by exact Ew.
  - by erewrite bind_Err by exact Ew.
  - by destruct Hc.
Qed.

End opening.
