(* ===== verification/WalTheorems.v ===== *)
(** * Recovery

    A run of an open log: pages and transaction records are logged, durable points are asked
    for, and any of the calls to the file system may fail. Whenever the power goes, and however
    often it goes again while the log is being opened, the log is opened on a state that a
    durable point asked for, and never on one from before the last durable point that was
    acknowledged. *)

From Stdlib Require Import ZArith Lia.
From stdpp Require Import base gmap list numbers option.
From S2P Require Import Prelude Bytes Ids Buf TablePage TablePageProofs Transaction Files Wal WalCrc WalCodec.
From S2P Require Import WalReplay WalTxns WalInv WalOps WalOpen.
Import Files Wal.

Local Open Scope Z_scope.

(** ** Runs *)

Inductive op : Type :=
| LogPage (id : PageId) (page : bytes)
| LogTxn (r : TxnRecord)
| DurablePoint
| SetCheckpointBytes (n : Z).

Definition op_ok (o : op) : Prop :=
  match o with
  | LogPage id page => event_ok (EPage id page)
  | LogTxn r => record_ok r
  | _ => True
  end.

(** The state the database is in, and the states a power failure may take it back to. *)
Definition history : Type := dbstate * list dbstate.

Definition note (o : op) (r : outcome IoError unit) (h : history) : history :=
  let '(now, poss) := h in
  match o, r with
  | LogPage id page, Ok _ => (apply [EPage id page] now, poss)
  | LogTxn r, Ok _ => (apply [ETxn r] now, poss)
  | DurablePoint, Ok _ => (now, [now])
  | DurablePoint, _ => (now, now :: poss)
  | _, _ => h
  end.

Section runs.
Context `{Order : !MapOrder Z}.

Definition run_op (o : op) : M (Wal * Files) IoError unit :=
  match o with
  | LogPage id page => log_page id page
  | LogTxn r => log_txn r
  | DurablePoint => durable_point
  | SetCheckpointBytes n => set_wal (set_checkpoint_bytes n)
  end.

(** The run, unless an operation panics. *)
Fixpoint run (ops : list op) (s : Wal * Files) (h : history) : option ((Wal * Files) * history) :=
  match ops with
  | [] => Some (s, h)
  | o :: ops =>
      match run_op o s with
      | (Panic, _) => None
      | (r, s) => run ops s (note o r h)
      end
  end.

Lemma run_op_inv o w fs h : Inv w fs h.1 h.2 -> clean fs -> op_ok o ->
  let '(r, (w', fs')) := run_op o (w, fs) in
  clean fs' /\ r <> Panic /\ Inv w' fs' (note o r h).1 (note o r h).2.
Proof.
  intros HI Hc Ho. destruct h as [now poss]. destruct o as [id page|r| |n]; cbn [run_op op_ok] in *.
  - pose proof (log_page_inv w fs now poss id page HI Hc Ho) as Hp.
    destruct (log_page id page (w, fs)) as [r [w' fs']]. destruct Hp as [Hf Hp]. split; [by eapply clean_suffix|].
    destruct r; [by split..|done].
  - destruct (log_txn_inv w fs now poss r HI Ho) as (w' & E & HI'). rewrite E. by split.
  - pose proof (durable_point_inv w fs now poss HI Hc) as Hp.
    destruct (durable_point (w, fs)) as [r [w' fs']]. destruct Hp as [Hf Hp]. split; [by eapply clean_suffix|].
    destruct r; [by split..|done].
  - split; [done|]. split; [done|]. destruct HI as (base & es1 & es2 & pend & HI & Hrest).
    exists base, es1, es2, pend. split; [|exact Hrest]. destruct HI. by split.
Qed.

Lemma run_inv ops : forall w fs h, Inv w fs h.1 h.2 -> clean fs -> Forall op_ok ops ->
  exists w' fs' h', run ops (w, fs) h = Some ((w', fs'), h') /\ clean fs' /\ Inv w' fs' h'.1 h'.2.
Proof.
  induction ops as [|o ops IH]; intros w fs h HI Hc Hok; cbn [run]; [eauto 10|].
  apply Forall_cons_1 in Hok as [Ho Hok]. pose proof (run_op_inv o w fs h HI Hc Ho) as Hop.
  destruct (run_op o (w, fs)) as [r [w' fs']]. destruct Hop as (Hc' & Hp & HI').
  destruct r; [by apply IH..|done].
Qed.

(** ** Reads *)

Definition returns_at {A} (m : M Files IoError A) (fs : Files) (a : A) : Prop :=
  exists fl, fl `suffix_of` faults fs /\
  (m fs = (Ok a, with_faults fl fs) \/ m fs = (Err OsError, with_faults fl fs) /\ failing fs).

Lemma read_inv w fs now poss id : Inv w fs now poss -> 0 <= id ->
  match read_page id w with
  | Some read => returns_at read fs (db_pages now id)
  | None => page_in (data_file fs) id = db_pages now id
  end.
Proof using.
  intros (base & es1 & es2 & pend & HI & [Enow _] & _) Hid. rewrite (Enow id Hid). cbn.
  assert (Ep : pages_of (es1 ++ es2 ++ (ETxn <$> pend)) !! id = image (log_bytes (es1 ++ es2)) <$> pages w !! id).
  { rewrite app_assoc, pages_of_app, pages_of_txns, lookup_empty, <- (li_pages _ _ _ _ _ _ HI). by rewrite lookup_fmap. }
  rewrite Ep. unfold read_page. destruct (pages w !! id) as [off|] eqn:E; cbn.
  - destruct (li_log _ _ _ _ _ _ HI) as (k & Hl & _). destruct (li_pages_ok _ _ _ _ _ _ HI id off E) as (_ & Ho & Hle).
    by apply (read_log_returns fs _ off Hl).
  - apply (li_data _ _ _ _ _ _ HI); [done|]. cbn in Ep. rewrite app_assoc, pages_of_app, pages_of_txns, lookup_empty in Ep.
    rewrite pages_of_app in Ep. by destruct (pages_of es2 !! id).
Qed.

(** ** Power failures *)

(** The power fails, and fails again any number of times while the log is opened or just after. *)
Inductive reboots : Files -> Files -> Prop :=
| reboot_once fs : reboots fs fs
| reboot_again fs fs1 fs2 : reboots fs fs1 -> crash (open fs1).2 fs2 -> reboots fs fs2.

Lemma open_safe fs : settled fs -> safe (open fs).2 [disk_state fs].
Proof.
  intros Hs. pose proof (open_spec fs Hs) as [_ Ho]. destruct (open fs) as [[[w rec]|e|] fs']; [..|done]; cbn.
  - destruct Ho as [HI _]. by eapply inv_safe.
  - by destruct Ho.
Qed.

Lemma reboots_keep fs fs' : settled fs -> reboots fs fs' -> settled fs' /\ disk_state fs' ≡ disk_state fs.
Proof.
  intros Hs Hr. induction Hr as [|fs fs1 fs2 _ IH Hc]; [done|]. destruct (IH Hs) as [Hs1 E].
  destruct (crash_settles _ _ _ (open_safe fs1 Hs1) Hc) as [Hs2 (st & ->%list_elem_of_singleton & E2)].
  split; [done|]. by rewrite E2.
Qed.

(** What opening finds is the state [st]: its pages are in the data file, and its unfinished
    transactions are handed out to be rolled back. *)
Definition recovers (st : dbstate) (rec : Recovery) (fs : Files) : Prop :=
  (forall id, 0 <= id -> page_in (data_file fs) id = db_pages st id) /\
  unfinished rec = (btree_entries (recovered_txns (db_open st))).*2.

Lemma open_recovers fs st w rec fs' : settled fs -> disk_state fs ≡ st -> open fs = (Ok (w, rec), fs') -> recovers st rec fs'.
Proof.
  intros Hs [Ep Eo] E. pose proof (open_spec fs Hs) as [_ Ho]. rewrite E in Ho. destruct Ho as (_ & _ & Hp & Hu).
  split; [|by rewrite <- Eo]. intros id Hid. by rewrite Hp, Ep.
Qed.

(** C20. Crash recovery. Open a log and run any operations, with any calls to the file system
    failing, a failed write leaving nothing written. No operation panics. After a power
    failure that keeps what was synced, and of the rest anything that the checksums tell from
    what was written, there is one state that every later opening that succeeds finds,
    however often the power fails again in between: one that a durable point since the last
    acknowledged one asked to be kept, or the acknowledged one itself. *)
Theorem crash_recovery fs w rec fs1 ops :
  settled fs -> clean fs -> open fs = (Ok (w, rec), fs1) -> Forall op_ok ops ->
  exists s now poss, run ops (w, fs1) (disk_state fs, [disk_state fs]) = Some (s, (now, poss)) /\
    forall fs2, crash s.2 fs2 ->
    exists st, st ∈ poss /\ forall fs3 w3 rec3 fs4, reboots fs2 fs3 -> open fs3 = (Ok (w3, rec3), fs4) -> recovers st rec3 fs4.
Proof.
  intros Hs Hc Eo Hops. pose proof (open_spec fs Hs) as [Hf Ho]. rewrite Eo in Hf, Ho. destruct Ho as [HI _].
  destruct (run_inv ops w fs1 (disk_state fs, [disk_state fs]) HI ltac:(by eapply clean_suffix) Hops)
    as (w' & fs' & [now poss] & Er & _ & HI'). exists (w', fs'), now, poss. split; [done|].
  intros fs2 Hcr. destruct (crash_settles _ _ _ (inv_safe _ _ _ _ HI') Hcr) as [Hs2 (st & Hin & E)]. exists st. split; [done|].
  intros fs3 w3 rec3 fs4 Hre. destruct (reboots_keep fs2 fs3 Hs2 Hre) as [Hs3 E3]. apply open_recovers; [done|]. by rewrite E3.
Qed.

(** C21. Recovery completes. After a power failure, as in C20, at the end of any such run, repeated any
    number of times while the log is opened, opening the log succeeds as soon as no call to
    the file system fails. *)
Theorem recovery_completes fs w rec fs1 ops s h fs2 fs3 :
  settled fs -> clean fs -> open fs = (Ok (w, rec), fs1) -> Forall op_ok ops ->
  run ops (w, fs1) (disk_state fs, [disk_state fs]) = Some (s, h) -> crash s.2 fs2 -> reboots fs2 fs3 ->
  ~ failing fs3 -> exists w3 rec3 fs4, open fs3 = (Ok (w3, rec3), fs4) /\ broken w3 = false.
Proof.
  intros Hs Hc Eo Hops Er Hcr Hre Hnf. pose proof (open_spec fs Hs) as [Hf Ho]. rewrite Eo in Hf, Ho. destruct Ho as [HI _].
  destruct (run_inv ops w fs1 (disk_state fs, [disk_state fs]) HI ltac:(by eapply clean_suffix) Hops)
    as (w' & fs' & h' & Er' & _ & HI'). simplify_eq/=.
  destruct (crash_settles _ _ _ (inv_safe _ _ _ _ HI') Hcr) as [Hs2 _].
  destruct (reboots_keep fs2 fs3 Hs2 Hre) as [Hs3 _].
  pose proof (open_spec fs3 Hs3) as [_ Ho3]. destruct (open fs3) as [[[w3 rec3]|e|] fs4]; [|by destruct Ho3|done].
  exists w3, rec3, fs4. split; [done|apply Ho3].
Qed.

(** C22. Reading a page after any run as in C20: the log, for a page it holds, and the data file
    for any other page give the page as it was last logged; a read from the log can only fail
    when a call does. *)
Theorem reads_newest fs w rec fs1 ops w2 fs2 now poss id :
  settled fs -> clean fs -> open fs = (Ok (w, rec), fs1) -> Forall op_ok ops -> 0 <= id ->
  run ops (w, fs1) (disk_state fs, [disk_state fs]) = Some ((w2, fs2), (now, poss)) ->
  match read_page id w2 with
  | Some read => returns_at read fs2 (db_pages now id)
  | None => page_in (data_file fs2) id = db_pages now id
  end.
Proof.
  intros Hs Hc Eo Hops Hid Er. pose proof (open_spec fs Hs) as [Hf Ho]. rewrite Eo in Hf, Ho. destruct Ho as [HI _].
  destruct (run_inv ops w fs1 (disk_state fs, [disk_state fs]) HI ltac:(by eapply clean_suffix) Hops)
    as (w' & fs' & h' & Er' & _ & HI'). simplify_eq/=. by eapply read_inv.
Qed.

(** C23. A log file that is not empty and does not start with a whole header of this version is
    refused with what is wrong with it, and no file is changed: recovery never works from, and
    never replaces, a file that is not one of its logs. Only a call to the file system that
    fails can hide what is wrong: it is reported as it is, or as a header that is cut short. *)
Theorem bad_header_refused fs l d :
  contents <$> log_file fs = Some l -> l <> [] -> header_defect l = Some d ->
  exists e fl, fl `suffix_of` faults fs /\ open fs = (Err e, with_faults fl fs) /\
    (e = InvalidData d \/ failing fs /\ (e = OsError \/ e = InvalidData HeaderCutShort)).
Proof using.
  intros El Hne Hd. destruct (replay_returns fs) as (fl & Hfl & Hr). rewrite El in Hr.
  assert (Eo : replay_outcome (Some l) = Err (InvalidData d)).
  { destruct l; [done|]. unfold replay_outcome. by rewrite Hd. }
  rewrite Eo in Hr. unfold open. destruct Hr as [Hr|(Hn & e & He & Hr)]; [exists (InvalidData d)|exists e]; exists fl; (split; [done|]); (split; [by erewrite bind_Err by exact Hr|]); auto.
Qed.

End runs.

(** ** Records *)

(** C24. Every record that [log_txn] encodes is read back by recovery as it was, wherever it
    starts and whatever follows it in the file. *)
Theorem record_roundtrip r bs rest off : record_ok r -> encode_txn_record (E := IoError) r = Ok bs ->
  returns (read_record (bs ++ rest) off) (Ok (Some (DTxn r, len bs, rest))).
Proof.
  intros Hr. rewrite encode_event by done. intros [= <-].
  pose proof (read_record_parses (enc (ETxn r) ++ rest) off) as Hp. by rewrite parse_event in Hp.
Qed.

(** C25. A record in which any bytes within four consecutive ones of the payload differ from what
    was written is not read as a record. *)
Theorem corruption_detected kind p m m' q rest off :
  len (p ++ m ++ q) <= MAX_PAYLOAD_LEN -> length m = length m' -> len m <= 4 ->
  Forall is_byte m -> Forall is_byte m' -> m <> m' ->
  let written := p ++ m ++ q in
  let lb := to_le 4 (len written) in
  encode_record (E := IoError) kind written = Ok ([kind] ++ lb ++ to_le 4 (crc32 [[kind]; lb; written]) ++ written) /\
  returns (read_record ([kind] ++ lb ++ to_le 4 (crc32 [[kind]; lb; written]) ++ (p ++ m' ++ q) ++ rest) off) (Ok None).
Proof.
  intros Hmax Hl H4 Hm Hm' Hne. cbv zeta. set (lb := to_le 4 (len (p ++ m ++ q))). split.
  { apply encode_frame. etrans; [exact Hmax|]. vm_compute. discriminate. }
  assert (El : length (p ++ m' ++ q) = length (p ++ m ++ q)) by (rewrite !length_app; lia).
  set (crc := crc32 [[kind]; lb; p ++ m ++ q]).
  pose proof (parse_stored kind (p ++ m' ++ q) crc rest off ltac:(lia) (crc32_u32 _)) as Hp. rewrite El in Hp. fold lb in Hp.
  destruct (Z.eqb_spec (crc32 [[kind]; lb; p ++ m' ++ q]) crc) as [E|_]; [|rewrite <- Hp; apply read_record_parses].
  destruct Hne. symmetry. unfold crc in E. apply (crc32_burst ([kind] ++ lb ++ p) m' m q); [done|lia|done..|].
  revert E. rewrite !crc_concat. cbn [concat]. by rewrite !app_nil_r, <- !app_assoc.
Qed.
