(* ===== verification/WalWitness.v ===== *)
(** * A run of the log

    An empty directory, in which a transaction logs a page and its records, a durable point
    is acknowledged, and the power fails: the hypotheses of the theorems on recovery hold. *)

From Stdlib Require Import ZArith Lia.
From stdpp Require Import base gmap list numbers option.
From S2P Require Import Prelude Bytes Ids Buf TablePage TablePageProofs Transaction Files Wal WalCrc WalCodec.
From S2P Require Import WalReplay WalTxns WalInv WalOps WalOpen WalTheorems.
Import Files Wal.

Local Open Scope Z_scope.

#[export] Instance id_order : MapOrder Z := {
  map_entries A m := map_to_list m;
  map_entries_perm A m := Permutation_refl (map_to_list m);
}.

Definition no_files : Files := mkFiles None [] None [] ∅ [].

Definition some_page : bytes := replicate 8192 7.
Definition some_undo : TxnRecord := RUndo 7 (mkRid 3 1) (mkMeta 2 false) [1; 2; 3].
Definition ops1 : list op := [LogTxn (RWrites 7); LogTxn some_undo; LogPage 3 some_page; DurablePoint; LogTxn (REnd 7)].

Definition opened1 : outcome IoError (Wal * Recovery) * Files := Wal.open no_files.
Definition wal1 : Wal := match opened1.1 with Ok (w, _) => w | _ => mkWal 0 [] ∅ false ∅ 0 true end.
Definition rec1 : Recovery := match opened1.1 with Ok (_, r) => r | _ => mkRecovery 0 [] end.

Lemma opened1_ok : Wal.open no_files = (Ok (wal1, rec1), opened1.2).
Proof.
  assert (H : is_ok opened1.1 = true) by (vm_compute; reflexivity).
  unfold wal1, rec1, opened1 in *. destruct (Wal.open no_files) as [[[w r]|e|] fs]; done.
Qed.

Lemma no_files_settled : settled no_files.
Proof. by split_and!. Qed.

Lemma no_files_clean : clean no_files.
Proof. constructor. Qed.

Lemma bytes_ok l : forallb (fun b => (0 <=? b) && (b <? 256)) l = true -> Forall is_byte l.
Proof. intros Hl. apply Forall_forall. rewrite forallb_forall in Hl. intros b Hin%Hl. unfold is_byte. lia. Qed.

Lemma some_undo_ok : record_ok some_undo.
Proof. split_and!; try by vm_compute. by apply bytes_ok. Qed.

Lemma some_page_ok : event_ok (EPage 3 some_page).
Proof.
  split; [by vm_compute|]. split; [apply Forall_replicate; split; lia|].
  unfold some_page. rewrite length_replicate. reflexivity.
Qed.

Lemma ops1_ok : Forall op_ok ops1.
Proof.
  apply Forall_forall. intros o Ho. unfold ops1 in Ho. cbn [In] in Ho.
  destruct Ho as [<-|[<-|[<-|[<-|[<-|[]]]]]]; cbn [op_ok event_ok]; [by vm_compute|exact some_undo_ok|exact some_page_ok|done|by vm_compute].
Qed.

Definition start1 : history := (disk_state no_files, [disk_state no_files]).
Definition ran1 : option ((Wal * Files) * history) := run ops1 (wal1, opened1.2) start1.
Definition files1 : Files := from_option (fun r => r.1.2) no_files ran1.

Lemma crash_recovery_witness :
  exists s now poss, run ops1 (wal1, opened1.2) start1 = Some (s, (now, poss)) /\
    forall fs2, crash s.2 fs2 ->
    exists st, st ∈ poss /\ forall fs3 w3 rec3 fs4, reboots fs2 fs3 -> Wal.open fs3 = (Ok (w3, rec3), fs4) -> recovers st rec3 fs4.
Proof.
  exact (crash_recovery no_files wal1 rec1 opened1.2 ops1 no_files_settled no_files_clean opened1_ok ops1_ok).
Defined.

(** The files as the run leaves them survive the power failure as they are. *)
Definition quiet (fs : Files) : bool :=
  match log_file fs, old_logs fs with
  | Some f, [] => forallb (fun b => (0 <=? b) && (b <? 256)) (contents f) && (synced f =? len (contents f)) &&
      bool_decide (data_pending fs = ∅) && match faults fs with [] => true | _ => false end
  | _, _ => false
  end.

Lemma quiet_crash fs : quiet fs = true -> crash fs fs /\ ~ failing fs.
Proof.
  unfold quiet. destruct (log_file fs) as [f|] eqn:El; [|done]. destruct (old_logs fs) eqn:Eo; [|done].
  rewrite !andb_true_iff, bool_decide_eq_true. intros (((Hb & Hs%Z.eqb_eq) & Hp) & Hf). split.
  - split; [|done|done]. exists (Some f). rewrite El, Eo. split; [set_solver|]. cbn. rewrite Hs. split_and!; try done; [by exists []; rewrite app_nil_r|by apply bytes_ok].
  - intros [n Hn]. destruct (faults fs); [by apply elem_of_nil in Hn|done].
Qed.

Lemma ran1_some : exists w h, ran1 = Some ((w, files1), h).
Proof.
  assert (H : match ran1 with Some _ => true | None => false end = true) by (vm_compute; reflexivity).
  unfold files1. destruct ran1 as [[[w fs] h]|]; [|done]. exists w, h. reflexivity.
Qed.

Lemma files1_quiet : quiet files1 = true.
Proof. vm_compute. reflexivity. Qed.

Lemma recovery_completes_witness : exists w3 rec3 fs4, Wal.open files1 = (Ok (w3, rec3), fs4) /\ broken w3 = false.
Proof.
  destruct ran1_some as (w & h & E). destruct (quiet_crash files1 files1_quiet) as [Hc Hf].
  exact (recovery_completes no_files wal1 rec1 opened1.2 ops1 (w, files1) h files1 files1 no_files_settled
    no_files_clean opened1_ok ops1_ok E Hc (reboot_once files1) Hf).
Defined.

Lemma reads_newest_witness : exists w2 now poss, ran1 = Some ((w2, files1), (now, poss)) /\
  match read_page 3 w2 with
  | Some read => returns_at read files1 (db_pages now 3)
  | None => page_in (data_file files1) 3 = db_pages now 3
  end.
Proof.
  destruct ran1_some as (w & [now poss] & E). exists w, now, poss. split; [exact E|].
  exact (reads_newest no_files wal1 rec1 opened1.2 ops1 w files1 now poss 3 no_files_settled
    no_files_clean opened1_ok ops1_ok ltac:(lia) E).
Defined.

Definition other_version : bytes := LOG_MAGIC ++ to_le 4 (LOG_VERSION + 1).

Lemma bad_header_refused_witness : let fs := with_log (Some (mkLogFile other_version 12)) no_files in
  Wal.open fs = (Err (InvalidData OtherVersion), fs).
Proof.
  destruct (bad_header_refused (with_log (Some (mkLogFile other_version 12)) no_files) other_version OtherVersion
    eq_refl ltac:(discriminate) eq_refl) as (e & fl & [k Hk] & H & [-> |[[n Hn] _]]).
  - destruct k; [|discriminate]. cbn in Hk. subst fl. exact H.
  - apply elem_of_nil in Hn. destruct Hn.
Defined.

Lemma record_roundtrip_witness :
  returns (read_record (enc (ETxn some_undo) ++ [9; 9]) 40) (Ok (Some (DTxn some_undo, len (enc (ETxn some_undo)), [9; 9]))).
Proof.
  exact (record_roundtrip some_undo (enc (ETxn some_undo)) [9; 9] 40
    some_undo_ok
    ltac:(vm_compute; reflexivity)).
Defined.

Lemma corruption_detected_witness : let written := [7; 0; 0; 0; 0; 0; 0; 0] in
  let lb := to_le 4 (len written) in
  encode_record (E := IoError) KIND_WRITES written =
    Ok ([KIND_WRITES] ++ lb ++ to_le 4 (crc32 [[KIND_WRITES]; lb; written]) ++ written) /\
  returns (read_record ([KIND_WRITES] ++ lb ++ to_le 4 (crc32 [[KIND_WRITES]; lb; written]) ++ [8; 1; 0; 0; 0; 0; 0; 0] ++ []) 12)
    (Ok None).
Proof.
  exact (corruption_detected KIND_WRITES [] [7; 0] [8; 1] [0; 0; 0; 0; 0; 0] [] 12 ltac:(vm_compute; discriminate) eq_refl
    ltac:(vm_compute; discriminate) (bytes_ok [7; 0] eq_refl) (bytes_ok [8; 1] eq_refl) ltac:(discriminate)).
Defined.
