(* ===== verification/Str.v ===== *)
(** * Strings and orders of bytes

    A Rust [str] is the list of its characters, Unicode scalar values; its bytes are their UTF-8
    encoding, so the length of a string and the order of strings are those of its bytes. This
    file holds the encoding and its inverse, the string functions the code uses, and
    lexicographic orders: an encoding whose bytes order like what they encode, whatever
    follows them, can be concatenated with others to a key. *)

From Stdlib Require Import ZArith Lia.
From stdpp Require Import base list numbers option.
From S2P Require Import Prelude Bytes.

Local Open Scope Z_scope.

Abbreviation str := (list Z).

Definition is_scalar (c : Z) : Prop := 0 <= c < 0xD800 \/ 0xE000 <= c <= 0x10FFFF.

(** ** UTF-8 *)

Definition utf8_char (c : Z) : bytes :=
  if c <? 0x80 then [c]
  else if c <? 0x800 then [0xC0 + c / 64; 0x80 + c mod 64]
  else if c <? 0x10000 then [0xE0 + c / 4096; 0x80 + c / 64 mod 64; 0x80 + c mod 64]
  else [0xF0 + c / 262144; 0x80 + c / 4096 mod 64; 0x80 + c / 64 mod 64; 0x80 + c mod 64].

(** [s.as_bytes()] *)
Definition utf8 (s : str) : bytes := concat (utf8_char <$> s).

Definition between (lo hi b : Z) : bool := (lo <=? b) && (b <=? hi).

(** The second byte that may follow the first byte of a character of three or four bytes. *)
Definition second_ok (b0 b1 : Z) : bool :=
  if b0 =? 0xE0 then between 0xA0 0xBF b1
  else if b0 =? 0xED then between 0x80 0x9F b1
  else if b0 =? 0xF0 then between 0x90 0xBF b1
  else if b0 =? 0xF4 then between 0x80 0x8F b1
  else between 0x80 0xBF b1.

(** [std::str::from_utf8] *)
Fixpoint from_utf8 (l : bytes) : option str :=
  match l with
  | [] => Some []
  | b0 :: l1 =>
      if between 0 0x7F b0 then cons b0 <$> from_utf8 l1
      else match l1 with
      | b1 :: l2 =>
          if between 0xC2 0xDF b0 then
            if between 0x80 0xBF b1 then cons ((b0 - 0xC0) * 64 + (b1 - 0x80)) <$> from_utf8 l2 else None
          else if between 0xE0 0xEF b0 then
            match l2 with
            | b2 :: l3 =>
                if second_ok b0 b1 && between 0x80 0xBF b2
                then cons ((b0 - 0xE0) * 4096 + (b1 - 0x80) * 64 + (b2 - 0x80)) <$> from_utf8 l3 else None
            | _ => None
            end
          else if between 0xF0 0xF4 b0 then
            match l2 with
            | b2 :: b3 :: l4 =>
                if second_ok b0 b1 && between 0x80 0xBF b2 && between 0x80 0xBF b3
                then cons ((b0 - 0xF0) * 262144 + (b1 - 0x80) * 4096 + (b2 - 0x80) * 64 + (b3 - 0x80)) <$> from_utf8 l4
                else None
            | _ => None
            end
          else None
      | [] => None
      end
  end.

Lemma between_spec lo hi b : between lo hi b = true <-> lo <= b <= hi.
Proof. unfold between. rewrite andb_true_iff, !Z.leb_le. done. Qed.

Lemma between_false lo hi b : b < lo \/ hi < b -> between lo hi b = false.
Proof. intros H. apply not_true_iff_false. rewrite between_spec. lia. Qed.

Ltac utf8_bounds c :=
  pose proof (Z.mod_pos_bound c 64 ltac:(lia)); pose proof (Z.mod_pos_bound (c / 64) 64 ltac:(lia));
  pose proof (Z.mod_pos_bound (c / 4096) 64 ltac:(lia));
  pose proof (Z.div_mod c 64 ltac:(lia)); pose proof (Z.div_mod (c / 64) 64 ltac:(lia));
  pose proof (Z.div_mod (c / 4096) 64 ltac:(lia));
  assert (c / 4096 = c / 64 / 64) by (rewrite Z.div_div by lia; f_equal; lia);
  assert (c / 262144 = c / 4096 / 64) by (rewrite Z.div_div by lia; f_equal; lia).

Ltac btw := match goal with
  | |- context [between ?lo ?hi ?b] =>
      first [ rewrite (proj2 (between_spec lo hi b)) by lia | rewrite (between_false lo hi b) by lia ]
  end.

Lemma second_ok_spec b0 b1 : 0x80 <= b1 <= 0xBF -> (b0 = 0xE0 -> 0xA0 <= b1) -> (b0 = 0xED -> b1 <= 0x9F) ->
  (b0 = 0xF0 -> 0x90 <= b1) -> (b0 = 0xF4 -> b1 <= 0x8F) -> second_ok b0 b1 = true.
Proof.
  intros H H1 H2 H3 H4. unfold second_ok. 
  repeat match goal with |- context [?a =? ?b] => destruct (Z.eqb_spec a b); [apply between_spec; lia|] end.
  apply between_spec. lia.
Qed.

Lemma from_utf8_char c l : is_scalar c -> from_utf8 (utf8_char c ++ l) = cons c <$> from_utf8 l.
Proof.
  unfold is_scalar. intros Hc. utf8_bounds c. unfold utf8_char.
  destruct (Z.ltb_spec c 0x80); [cbn [app from_utf8]; btw; done|].
  destruct (Z.ltb_spec c 0x800).
  { cbn [app from_utf8]. do 3 btw. f_equal. f_equal. lia. }
  destruct (Z.ltb_spec c 0x10000).
  { cbn [app from_utf8]. do 3 btw. rewrite second_ok_spec by lia. btw. cbn [andb]. f_equal. f_equal. lia. }
  cbn [app from_utf8]. do 4 btw. rewrite second_ok_spec by lia. do 2 btw. cbn [andb]. f_equal. f_equal. lia.
Qed.

Lemma utf8_cons c s : utf8 (c :: s) = utf8_char c ++ utf8 s.
Proof. done. Qed.

(** Every string is read back from its bytes. *)
Lemma from_utf8_utf8 s : Forall is_scalar s -> from_utf8 (utf8 s) = Some s.
Proof.
  induction 1 as [|c s Hc _ IH]; [done|]. by rewrite utf8_cons, from_utf8_char, IH.
Qed.

Lemma utf8_char_bytes c : is_scalar c -> Forall is_byte (utf8_char c) /\ (1 <= length (utf8_char c) <= 4)%nat.
Proof.
  unfold is_scalar. intros Hc. utf8_bounds c. unfold utf8_char, is_byte.
  repeat case_match; (split; [repeat constructor; lia|cbn; lia]).
Qed.

Lemma utf8_bytes s : Forall is_scalar s -> Forall is_byte (utf8 s).
Proof. induction 1 as [|c s Hc _ IH]; [constructor|]. rewrite utf8_cons. apply Forall_app. split; [by apply utf8_char_bytes|done]. Qed.

(** ** Lexicographic orders *)

Fixpoint lex {A} (cmp : A -> A -> comparison) (l1 l2 : list A) : comparison :=
  match l1, l2 with
  | [], [] => Eq
  | [], _ :: _ => Lt
  | _ :: _, [] => Gt
  | a :: l1, b :: l2 => match cmp a b with Eq => lex cmp l1 l2 | c => c end
  end.

(** The order of two slices of bytes. *)
Abbreviation byte_order := (lex Z.compare).

(** [c.then(d)] *)
Definition then_cmp (c d : comparison) : comparison := match c with Eq => d | _ => c end.

(** The bytes of [a] and [b] order like [a] and [b], and where those are equal leave it to
    what follows. *)
Definition orders {A} (cmp : A -> A -> comparison) (enc : A -> bytes) (a b : A) : Prop :=
  forall s t, byte_order (enc a ++ s) (enc b ++ t) = then_cmp (cmp a b) (byte_order s t).

Lemma then_assoc c d e : then_cmp (then_cmp c d) e = then_cmp c (then_cmp d e).
Proof. by destruct c. Qed.

Lemma lex_cons {A} (cmp : A -> A -> comparison) a b l1 l2 : lex cmp (a :: l1) (b :: l2) = then_cmp (cmp a b) (lex cmp l1 l2).
Proof. cbn. by destruct (cmp a b). Qed.

Lemma lex_refl (l : bytes) : byte_order l l = Eq.
Proof. induction l as [|a l IH]; [done|]. by rewrite lex_cons, Z.compare_refl. Qed.

Lemma lex_Eq (l1 l2 : bytes) : byte_order l1 l2 = Eq <-> l1 = l2.
Proof.
  split; [|intros ->; apply lex_refl]. revert l2. induction l1 as [|a l1 IH]; intros [|b l2]; try done.
  rewrite lex_cons. destruct (Z.compare_spec a b) as [->| |]; cbn; [|done..]. intros ->%IH. done.
Qed.

Lemma lex_antisym (l1 l2 : bytes) : byte_order l2 l1 = CompOpp (byte_order l1 l2).
Proof.
  revert l2. induction l1 as [|a l1 IH]; intros [|b l2]; try done. rewrite !lex_cons, (Z.compare_antisym a b), IH.
  by destruct (a ?= b).
Qed.

(** An encoding of values to bytes, and one of the values one after another. *)
Lemma orders_concat {A} (cmp : A -> A -> comparison) enc (l1 l2 : list A) s t :
  length l1 = length l2 -> Forall2 (orders cmp enc) l1 l2 ->
  byte_order (concat (enc <$> l1) ++ s) (concat (enc <$> l2) ++ t) = then_cmp (lex cmp l1 l2) (byte_order s t).
Proof.
  intros _ H. induction H as [|a b l1 l2 Hab _ IH]; [done|]. csimpl. rewrite <- !app_assoc, Hab, IH.
  cbn. by destruct (cmp a b).
Qed.

(** Big-endian integers. *)
Lemma to_be_S n v : to_be (S n) v = to_be n (v / 256) ++ [v mod 256].
Proof. done. Qed.

Lemma lex_trans (l1 l2 l3 : bytes) : byte_order l1 l2 = Lt -> byte_order l2 l3 = Lt -> byte_order l1 l3 = Lt.
Proof.
  revert l2 l3. induction l1 as [|a l1 IH]; intros [|b l2] [|c l3]; try done. rewrite !lex_cons.
  destruct (Z.compare_spec a b) as [->|H1|H1], (Z.compare_spec b c) as [->|H2|H2]; cbn; try done.
  - apply IH.
  - by rewrite (proj2 (Z.compare_lt_iff _ _) H1).
  - by rewrite (proj2 (Z.compare_lt_iff a c)) by lia.
Qed.

Lemma lex_app_eqlen p q s t : length p = length q ->
  byte_order (p ++ s) (q ++ t) = then_cmp (byte_order p q) (byte_order s t).
Proof.
  revert q. induction p as [|a p IH]; intros [|b q] Hl; try done. injection Hl as Hl.
  cbn [app]. rewrite !lex_cons, IH, then_assoc by done. done.
Qed.

Lemma to_be_order n : forall v w, 0 <= v < 256 ^ Z.of_nat n -> 0 <= w < 256 ^ Z.of_nat n ->
  byte_order (to_be n v) (to_be n w) = (v ?= w).
Proof.
  induction n as [|n IH]; intros v w Hv Hw.
  { change (256 ^ Z.of_nat 0) with 1 in *. assert (v = 0) as -> by lia. by assert (w = 0) as -> by lia. }
  rewrite Nat2Z.inj_succ, Z.pow_succ_r in Hv, Hw by lia.
  assert (Hb : forall x, 0 <= x < 256 * 256 ^ Z.of_nat n -> 0 <= x / 256 < 256 ^ Z.of_nat n).
  { intros x Hx. split; [apply Z.div_pos; lia|apply Z.div_lt_upper_bound; lia]. }
  rewrite !to_be_S, lex_app_eqlen, IH by (auto || by rewrite !length_to_be). rewrite lex_cons.
  pose proof (Z.div_mod v 256 ltac:(lia)). pose proof (Z.div_mod w 256 ltac:(lia)).
  pose proof (Z.mod_pos_bound v 256 ltac:(lia)). pose proof (Z.mod_pos_bound w 256 ltac:(lia)).
  destruct (Z.compare_spec (v / 256) (w / 256)); cbn [then_cmp];
    destruct (Z.compare_spec (v mod 256) (w mod 256)); cbn [then_cmp];
    symmetry; first [apply Z.compare_eq_iff; lia | apply Z.compare_lt_iff; lia | apply Z.compare_gt_iff; lia].
Qed.

Lemma to_be_orders n v w : 0 <= v < 256 ^ Z.of_nat n -> 0 <= w < 256 ^ Z.of_nat n -> orders Z.compare (to_be n) v w.
Proof. intros Hv Hw s t. rewrite lex_app_eqlen by by rewrite !length_to_be. by rewrite to_be_order. Qed.

(** Characters, so that the order of bytes is the order of code points. *)
Lemma utf8_char_orders c d : is_scalar c -> is_scalar d -> orders Z.compare utf8_char c d.
Proof.
  intros Hc Hd s t. unfold is_scalar in *. utf8_bounds c. utf8_bounds d.
  destruct (Z.compare_spec c d) as [->|Hlt|Hlt].
  - rewrite lex_app_eqlen by done. by rewrite lex_refl.
  - unfold utf8_char. cbn [then_cmp].
    destruct (Z.ltb_spec c 0x80), (Z.ltb_spec d 0x80), (Z.ltb_spec c 0x800), (Z.ltb_spec d 0x800),
      (Z.ltb_spec c 0x10000), (Z.ltb_spec d 0x10000); try lia; cbn [app]; rewrite !lex_cons;
      repeat (match goal with |- then_cmp (?a ?= ?b) _ = _ => destruct (Z.compare_spec a b); cbn [then_cmp]; try lia; try reflexivity end).
  - unfold utf8_char. cbn [then_cmp].
    destruct (Z.ltb_spec c 0x80), (Z.ltb_spec d 0x80), (Z.ltb_spec c 0x800), (Z.ltb_spec d 0x800),
      (Z.ltb_spec c 0x10000), (Z.ltb_spec d 0x10000); try lia; cbn [app]; rewrite !lex_cons;
      repeat (match goal with |- then_cmp (?a ?= ?b) _ = _ => destruct (Z.compare_spec a b); cbn [then_cmp]; try lia; try reflexivity end).
Qed.

(** The order of two strings. *)
Definition str_order (s t : str) : comparison := byte_order (utf8 s) (utf8 t).

Lemma utf8_char_ne c : is_scalar c -> exists b l, utf8_char c = b :: l.
Proof. intros Hc. destruct (utf8_char_bytes c Hc) as [_ Hl]. destruct (utf8_char c); [cbn in Hl; lia|eauto]. Qed.

Lemma str_order_chars s t : Forall is_scalar s -> Forall is_scalar t -> str_order s t = lex Z.compare s t.
Proof.
  unfold str_order. intros Hs. revert t. induction Hs as [|c s Hc _ IH]; intros t Ht.
  - destruct Ht as [|d t Hd _]; [done|]. rewrite utf8_cons. destruct (utf8_char_ne d Hd) as (b & l & ->). done.
  - destruct Ht as [|d t Hd Ht].
    + rewrite utf8_cons. destruct (utf8_char_ne c Hc) as (b & l & ->). done.
    + rewrite !utf8_cons, utf8_char_orders, IH by done. by rewrite lex_cons.
Qed.

(** ** Functions of strings *)

(** [char::is_whitespace] *)
Definition is_whitespace (c : Z) : bool :=
  between 9 13 c || (c =? 32) || (c =? 0x85) || (c =? 0xA0) || (c =? 0x1680) || between 0x2000 0x200A c ||
  (c =? 0x2028) || (c =? 0x2029) || (c =? 0x202F) || (c =? 0x205F) || (c =? 0x3000).

Fixpoint drop_while (p : Z -> bool) (s : str) : str :=
  match s with
  | c :: s' => if p c then drop_while p s' else s
  | [] => []
  end.

(** [s.trim_start_matches(p)] and [s.trim_end_matches(p)] *)
Definition trim_start_matches (p : Z -> bool) (s : str) : str := drop_while p s.
Definition trim_end_matches (p : Z -> bool) (s : str) : str := rev (drop_while p (rev s)).

Definition trim_start (s : str) : str := trim_start_matches is_whitespace s.
Definition trim (s : str) : str := trim_end_matches is_whitespace (trim_start s).

(** [s.split_once(p)] *)
Fixpoint split_once (p : Z -> bool) (s : str) : option (str * str) :=
  match s with
  | [] => None
  | c :: s => if p c then Some ([], s) else prod_map (cons c) id <$> split_once p s
  end.

(** [s.split(p)]: the first piece, and those after it. *)
Fixpoint split (p : Z -> bool) (s : str) : list str :=
  match s with
  | [] => [[]]
  | c :: s =>
      if p c then [] :: split p s
      else match split p s with
           | piece :: pieces => (c :: piece) :: pieces
           | [] => [[c]]
           end
  end.

Definition is_ascii_digit (b : Z) : bool := between 48 57 b.

Definition digits_value (s : str) : Z := foldl (fun v c => v * 10 + (c - 48)) 0 s.

Definition i64_max : Z := 2 ^ 63 - 1.
Definition i64_min : Z := - 2 ^ 63.
Definition in_i64 (v : Z) : bool := between i64_min i64_max v.

(** [s.parse::<i64>()] of a string of digits. *)
Definition parse_i64 (s : str) : option Z :=
  match s with
  | [] => None
  | _ => let v := digits_value s in if in_i64 v then Some v else None
  end.

Fixpoint decimal (fuel : nat) (n : Z) : str :=
  match fuel with
  | O => []
  | S fuel => if n <? 10 then [48 + n] else decimal fuel (n / 10) ++ [48 + n mod 10]
  end.

Definition pad_left (w : nat) (s : str) : str := replicate (w - length s) 48 ++ s.

(** [format!("{n:0w}")] of an [i64], whose digits are at most nineteen. *)
Definition format_padded (w : nat) (n : Z) : str :=
  if n <? 0 then 45 :: pad_left (w - 1) (decimal 19 (- n)) else pad_left w (decimal 19 n).

(** [n] in [w] digits. *)
Fixpoint in_digits (w : nat) (n : Z) : str :=
  match w with
  | O => []
  | S w => in_digits w (n / 10) ++ [48 + n mod 10]
  end.

Lemma in_digits_0 w : in_digits w 0 = replicate w 48.
Proof.
  induction w as [|w IH]; [done|]. cbn [in_digits]. change (0 / 10) with 0. change (48 + 0 mod 10) with 48.
  by rewrite IH, <- replicate_S_end.
Qed.

Lemma length_in_digits w : forall n, length (in_digits w n) = w.
Proof. induction w as [|w IH]; intros n; [done|]. cbn. rewrite length_app, IH. cbn. lia. Qed.

Lemma in_digits_digits w : forall n, 0 <= n -> Forall (fun c => is_ascii_digit c = true) (in_digits w n).
Proof.
  induction w as [|w IH]; intros n Hn; [constructor|]. cbn. apply Forall_app. split; [apply IH; apply Z.div_pos; lia|].
  repeat constructor. apply between_spec. pose proof (Z.mod_pos_bound n 10). lia.
Qed.

Lemma digits_value_snoc s c : digits_value (s ++ [c]) = digits_value s * 10 + (c - 48).
Proof. unfold digits_value. by rewrite foldl_app. Qed.

Lemma in_digits_value w : forall n, 0 <= n < 10 ^ Z.of_nat w -> digits_value (in_digits w n) = n.
Proof.
  induction w as [|w IH]; intros n Hn; [change (10 ^ Z.of_nat 0) with 1 in Hn; cbn; lia|].
  rewrite Nat2Z.inj_succ, Z.pow_succ_r in Hn by lia. cbn [in_digits]. rewrite digits_value_snoc, IH.
  - pose proof (Z.div_mod n 10). lia.
  - split; [apply Z.div_pos; lia|apply Z.div_lt_upper_bound; lia].
Qed.

Lemma pad_decimal w : forall fuel n, (0 < w <= fuel)%nat -> 0 <= n < 10 ^ Z.of_nat w ->
  pad_left w (decimal fuel n) = in_digits w n.
Proof.
  unfold pad_left. induction w as [|w IH]; intros fuel n Hw Hn; [lia|]. destruct fuel as [|fuel]; [lia|].
  cbn [decimal]. destruct (Z.ltb_spec n 10) as [H10|H10].
  - cbn [in_digits length]. rewrite Nat.sub_succ, Nat.sub_0_r.
    by rewrite Z.div_small, Z.mod_small, in_digits_0 by lia.
  - destruct w as [|w].
    { change (10 ^ Z.of_nat 1) with 10 in Hn. lia. }
    rewrite Nat2Z.inj_succ, Z.pow_succ_r in Hn by lia.
    assert (Hn' : 0 <= n / 10 < 10 ^ Z.of_nat (S w)).
    { split; [apply Z.div_pos; lia|apply Z.div_lt_upper_bound; lia]. }
    change (in_digits (S (S w)) n) with (in_digits (S w) (n / 10) ++ [48 + n mod 10]).
    rewrite <- (IH fuel (n / 10)) by lia. rewrite <- app_assoc. f_equal. f_equal.
    rewrite length_app. cbn. lia.
Qed.

Lemma format_padded_digits w n : (0 < w <= 19)%nat -> 0 <= n < 10 ^ Z.of_nat w -> format_padded w n = in_digits w n.
Proof. intros Hw Hn. unfold format_padded. rewrite (proj2 (Z.ltb_ge _ _)) by lia. by apply pad_decimal. Qed.

Lemma parse_i64_digits w n : (0 < w <= 18)%nat -> 0 <= n < 10 ^ Z.of_nat w -> parse_i64 (in_digits w n) = Some n.
Proof.
  intros Hw Hn. unfold parse_i64. pose proof (length_in_digits w n) as Hl. destruct (in_digits w n) eqn:E; [cbn in Hl; lia|].
  rewrite <- E, in_digits_value by done.
  assert (10 ^ Z.of_nat w <= 10 ^ 18) by (apply Z.pow_le_mono_r; lia).
  unfold in_i64, i64_min, i64_max. rewrite (proj2 (between_spec _ _ _)); [done|]. lia.
Qed.

(** Strings of ASCII characters are their bytes. *)
Lemma utf8_ascii s : Forall (fun c => 0 <= c < 0x80) s -> utf8 s = s.
Proof.
  induction 1 as [|c s Hc _ IH]; [done|]. rewrite utf8_cons, IH. unfold utf8_char. by rewrite (proj2 (Z.ltb_lt _ _)) by lia.
Qed.

Lemma digits_ascii s : Forall (fun c => is_ascii_digit c = true) s -> Forall (fun c => 0 <= c < 0x80) s.
Proof. intros H. apply (list.Forall_impl _ _ _ H). intros c ?%between_spec. lia. Qed.

(** Splitting around a character that is not in the part before it. *)
Lemma split_once_app p a c b : Forall (fun x => p x = false) a -> p c = true -> split_once p (a ++ c :: b) = Some (a, b).
Proof. intros Ha Hc. induction Ha as [|x a Hx _ IH]; cbn; [by rewrite Hc|]. by rewrite Hx, IH. Qed.

Lemma split_once_none p a : Forall (fun x => p x = false) a -> split_once p a = None.
Proof. induction 1 as [|x a Hx _ IH]; cbn; [done|]. by rewrite Hx, IH. Qed.

Lemma split_app p a c b : Forall (fun x => p x = false) a -> p c = true -> split p (a ++ c :: b) = a :: split p b.
Proof. intros Ha Hc. induction Ha as [|x a Hx _ IH]; cbn; [by rewrite Hc|]. by rewrite Hx, IH. Qed.

Lemma split_none p a : Forall (fun x => p x = false) a -> split p a = [a].
Proof. induction 1 as [|x a Hx _ IH]; cbn; [done|]. by rewrite Hx, IH. Qed.

Lemma drop_while_none p c s : p c = false -> drop_while p (c :: s) = c :: s.
Proof. cbn. by intros ->. Qed.

Lemma trim_end_none p s c : p c = false -> trim_end_matches p (s ++ [c]) = s ++ [c].
Proof. intros Hc. unfold trim_end_matches. rewrite rev_app_distr. cbn [rev app]. rewrite drop_while_none by done. cbn. by rewrite rev_involutive. Qed.

Lemma trim_end_idem p s : trim_end_matches p (trim_end_matches p s) = trim_end_matches p s.
Proof.
  unfold trim_end_matches. rewrite rev_involutive. f_equal. induction (rev s) as [|c r IH]; [done|].
  cbn. destruct (p c) eqn:Ec; [done|]. cbn. by rewrite Ec.
Qed.

(** What trimming drops is what it was asked to. *)
Lemma trim_end_split p s : exists t, s = trim_end_matches p s ++ t /\ Forall (fun c => p c = true) t.
Proof.
  assert (H : forall r, exists t, rev r = rev (drop_while p r) ++ t /\ Forall (fun c => p c = true) t).
  { induction r as [|c r (t & E & Ht)]; [by exists []|]. cbn. destruct (p c) eqn:Ec; [|by exists []; rewrite app_nil_r].
    exists (t ++ [c]). split; [by rewrite app_assoc, <- E|]. apply Forall_app. split; [done|by constructor]. }
  destruct (H (rev s)) as (t & E & Ht). rewrite rev_involutive in E. by exists t.
Qed.
