(* ===== verification/Timestamp.v ===== *)
(** * Timestamps

    Parsing and printing of TIMESTAMP values ([src/src/catalog/timestamp.rs]), microseconds since
    1970-01-01 00:00:00 UTC. The calendar is shown to be the proleptic Gregorian one by
    following it from day to day, and printing to be undone by parsing for every
    timestamp a literal can write. *)

From Stdlib Require Import ZArith Lia.
From stdpp Require Import base list numbers option.
From S2P Require Import Prelude Bytes Str.

Local Open Scope Z_scope.

Record InvalidTimestamp : Type := mkInvalid { literal : str }.

Module Timestamp.

Definition MICROS_PER_SECOND : Z := 1000000.
Definition SECONDS_PER_DAY : Z := 86400.
Definition MICROS_PER_DAY : Z := MICROS_PER_SECOND * SECONDS_PER_DAY.
Definition FRACTION_DIGITS : nat := 6.
Definition DAYS_FROM_CIVIL_EPOCH_TO_UNIX_EPOCH : Z := 719468.
Definition DAYS_PER_400_YEARS : Z := 146097.

(** [i64] arithmetic that reports overflow. *)
Definition checked (v : Z) : option Z := if in_i64 v then Some v else None.

(** ** The calendar

    Years are at most six digits long here, so the [i64] arithmetic does not overflow; [/] and
    [%] round towards zero. *)

Definition is_leap_year (year : Z) : bool :=
  (Z.rem year 4 =? 0) && negb (Z.rem year 100 =? 0) || (Z.rem year 400 =? 0).

Definition days_in_month (year month : Z) : Z :=
  if month =? 2 then (if is_leap_year year then 29 else 28)
  else if (month =? 4) || (month =? 6) || (month =? 9) || (month =? 11) then 30
  else 31.

Definition days_from_civil (year month day : Z) : Z :=
  let year := if month <=? 2 then year - 1 else year in
  let era := year / 400 in
  let year_of_era := year - era * 400 in
  let month_from_march := Z.rem (month + 9) 12 in
  let day_of_year := Z.quot (153 * month_from_march + 2) 5 + day - 1 in
  let day_of_era := year_of_era * 365 + Z.quot year_of_era 4 - Z.quot year_of_era 100 + day_of_year in
  era * DAYS_PER_400_YEARS + day_of_era - DAYS_FROM_CIVIL_EPOCH_TO_UNIX_EPOCH.

Definition civil_from_days (days : Z) : Z * Z * Z :=
  let days := days + DAYS_FROM_CIVIL_EPOCH_TO_UNIX_EPOCH in
  let era := days / DAYS_PER_400_YEARS in
  let day_of_era := days - era * DAYS_PER_400_YEARS in
  let year_of_era :=
    Z.quot (day_of_era - Z.quot day_of_era 1460 + Z.quot day_of_era 36524 - Z.quot day_of_era 146096) 365 in
  let day_of_year := day_of_era - (365 * year_of_era + Z.quot year_of_era 4 - Z.quot year_of_era 100) in
  let month_from_march := Z.quot (5 * day_of_year + 2) 153 in
  let day := day_of_year - Z.quot (153 * month_from_march + 2) 5 + 1 in
  let month := if month_from_march <? 10 then month_from_march + 3 else month_from_march - 9 in
  let year := year_of_era + era * 400 + (if month <=? 2 then 1 else 0) in
  (year, month, day).

(** ** Parsing *)

Definition fixed_digits (s : str) (n : nat) : option Z :=
  if (length (utf8 s) =? n)%nat && forallb is_ascii_digit (utf8 s) then parse_i64 s else None.

Definition parse_date (date : str) : option Z :=
  let parts := split (Z.eqb 45) date in
  y ← parts !! 0%nat; year ← fixed_digits y 4;
  m ← parts !! 1%nat; month ← fixed_digits m 2;
  d ← parts !! 2%nat; day ← fixed_digits d 2;
  if bool_decide (is_Some (parts !! 3%nat)) || negb (between 1 12 month) then None
  else if (day <? 1) || (days_in_month year month <? day) then None
  else Some (days_from_civil year month day).

(** [format!("{digits:0<6}")] *)
Definition pad_right (w : nat) (s : str) : str := s ++ replicate (w - length s) 48.

Definition parse_fraction (fraction : option str) : option Z :=
  match fraction with
  | None => Some 0
  | Some digits =>
      if (length (utf8 digits) =? 0)%nat || (FRACTION_DIGITS <? length (utf8 digits))%nat ||
         negb (forallb is_ascii_digit (utf8 digits)) then None
      else parse_i64 (pad_right FRACTION_DIGITS digits)
  end.

Definition parse_time (time : str) : option Z :=
  let '(hms, fraction) :=
    match split_once (Z.eqb 46) time with
    | Some (hms, fraction) => (hms, Some fraction)
    | None => (time, None)
    end in
  let parts := split (Z.eqb 58) hms in
  h ← parts !! 0%nat; hour ← fixed_digits h 2;
  m ← parts !! 1%nat; minute ← fixed_digits m 2;
  s ← parts !! 2%nat; second ← fixed_digits s 2;
  if bool_decide (is_Some (parts !! 3%nat)) || (23 <? hour) || (59 <? minute) || (59 <? second) then None
  else
    micros ← parse_fraction fraction;
    Some (((hour * 60 + minute) * 60 + second) * MICROS_PER_SECOND + micros).

Definition parse_parts (s : str) : option Z :=
  let '(date, time) :=
    match split_once (fun c => (c =? 32) || (c =? 84)) s with
    | Some (date, time) => (date, Some (trim_start time))
    | None => (s, None)
    end in
  days ← parse_date date;
  micros_of_day ← match time with None => Some 0 | Some time => parse_time time end;
  micros ← checked (days * MICROS_PER_DAY);
  checked (micros + micros_of_day).

Definition parse (literal : str) : outcome InvalidTimestamp Z :=
  ok_or (parse_parts (trim literal)) (mkInvalid literal).

(** ** Printing *)

Definition format (micros : Z) : str :=
  let days := micros / MICROS_PER_DAY in
  let micros_of_day := micros mod MICROS_PER_DAY in
  let '(year, month, day) := civil_from_days days in
  let seconds_of_day := Z.quot micros_of_day MICROS_PER_SECOND in
  let fraction := Z.rem micros_of_day MICROS_PER_SECOND in
  let hour := Z.quot seconds_of_day 3600 in
  let minute := Z.rem (Z.quot seconds_of_day 60) 60 in
  let second := Z.rem seconds_of_day 60 in
  let out := format_padded 4 year ++ [45] ++ format_padded 2 month ++ [45] ++ format_padded 2 day ++ [32] ++
    format_padded 2 hour ++ [58] ++ format_padded 2 minute ++ [58] ++ format_padded 2 second in
  if negb (fraction =? 0)
  then out ++ [46] ++ trim_end_matches (Z.eqb 48) (format_padded 6 fraction)
  else out.

End Timestamp.

Import Timestamp.

(** ** The calendar is the Gregorian one *)

(** The day after a date. *)
Definition next_day (date : Z * Z * Z) : Z * Z * Z :=
  let '(year, month, day) := date in
  if day <? days_in_month year month then (year, month, day + 1)
  else if month <? 12 then (year, month + 1, 1)
  else (year + 1, 1, 1).

(** A date as the calendar finds it: the years since the last one that a multiple of 400 began,
    which start in March, and the day of that year. *)
Definition year_start (y : Z) : Z := y * 365 + Z.quot y 4 - Z.quot y 100.
Definition year_end (y : Z) : Z := if y =? 399 then 146096 else year_start (y + 1) - 1.
Definition year_of (doe : Z) : Z := Z.quot (doe - Z.quot doe 1460 + Z.quot doe 36524 - Z.quot doe 146096) 365.

Definition month_day (doy : Z) : Z * Z :=
  let mp := Z.quot (5 * doy + 2) 153 in
  (if mp <? 10 then mp + 3 else mp - 9, doy - Z.quot (153 * mp + 2) 5 + 1).

Definition day_of_year (m d : Z) : Z := Z.quot (153 * Z.rem (m + 9) 12 + 2) 5 + d - 1.

Definition early (m : Z) : Z := if m <=? 2 then 1 else 0.

Definition civil (era y doy : Z) : Z * Z * Z :=
  let '(m, d) := month_day doy in (y + era * 400 + early m, m, d).

Definition leap_len (leap : bool) : Z := if leap then 365 else 364.

Lemma leap_len_pos leap : 364 <= leap_len leap <= 365.
Proof. destruct leap; cbn; lia. Qed.

(** The length of a month, and the day after one, when it is known whether the year is a leap
    year. *)
Definition month_len (leap : bool) (m : Z) : Z :=
  if m =? 2 then (if leap then 29 else 28)
  else if (m =? 4) || (m =? 6) || (m =? 9) || (m =? 11) then 30 else 31.

Definition next_in (leap : bool) (m d : Z) : Z * (Z * Z) :=
  if d <? month_len leap m then (0, (m, d + 1)) else if m <? 12 then (0, (m + 1, 1)) else (1, (1, 1)).

(** The years of 400, and the days of a year, one by one. *)
Definition year_ok (y : Z) : bool :=
  (year_of (year_start y) =? y) && (year_of (year_end y) =? y) &&
  (year_end y - year_start y =? leap_len (is_leap_year (y + 1))) &&
  (if y =? 399 then year_end y =? 146096 else year_start (y + 1) =? year_end y + 1).

Definition day_ok (leap : bool) (doy : Z) : bool :=
  let '(m, d) := month_day doy in
  between 1 12 m && between 1 (month_len leap m) d && (day_of_year m d =? doy) &&
  let '(years, next) := next_in leap m d in
  if doy <? leap_len leap
  then bool_decide (month_day (doy + 1) = next) && (early next.1 =? early m + years)
  else bool_decide (month_day 0 = next) && (years =? 0) && (early m =? 1).

Definition date_ok (leap : bool) (m d : Z) : bool :=
  negb (d <=? month_len leap m) ||
  between 0 (leap_len leap) (day_of_year m d) && bool_decide (month_day (day_of_year m d) = (m, d)) &&
  (if m <=? 2 then 306 <=? day_of_year m d else day_of_year m d <=? 305).

Definition all_below (n : nat) (p : Z -> bool) : bool := forallb (fun i => p (Z.of_nat i)) (seq 0 n).

Lemma all_below_spec n p i : all_below n p = true -> 0 <= i < Z.of_nat n -> p i = true.
Proof.
  unfold all_below. rewrite forallb_forall. intros H Hi. specialize (H (Z.to_nat i)). rewrite Z2Nat.id in H by lia.
  apply H, in_seq. lia.
Qed.

Lemma years_checked : all_below 400 year_ok = true.
Proof. vm_compute. reflexivity. Qed.

Lemma days_checked leap : all_below (Z.to_nat (leap_len leap + 1)) (day_ok leap) = true.
Proof. destruct leap; vm_compute; reflexivity. Qed.

Lemma dates_checked leap : all_below 12 (fun m => all_below 31 (fun d => date_ok leap (m + 1) (d + 1))) = true.
Proof. destruct leap; vm_compute; reflexivity. Qed.

(** ** The year of a day *)

Lemma quot_step n c : 0 < c -> 0 <= n -> Z.quot n c <= Z.quot (n + 1) c <= Z.quot n c + 1.
Proof. intros Hc Hn. rewrite !Z.quot_div_nonneg by lia. pose proof (Z.div_mod n c). pose proof (Z.div_mod (n + 1) c).
  pose proof (Z.mod_pos_bound n c). pose proof (Z.mod_pos_bound (n + 1) c). nia. Qed.

Lemma year_of_step doe : 0 <= doe < 146096 -> year_of doe <= year_of (doe + 1).
Proof.
  intros Hd. unfold year_of. pose proof (quot_step doe 1460). pose proof (quot_step doe 36524).
  assert (E : forall x, 0 <= x < 146096 -> Z.quot x 146096 = 0) by (intros; by apply Z.quot_small).
  destruct (decide (doe = 146095)) as [->|]; [by vm_compute|]. rewrite !E by lia.
  assert (Z.quot doe 1460 <= doe) by (rewrite Z.quot_div_nonneg by lia; pose proof (Z.div_mod doe 1460); pose proof (Z.mod_pos_bound doe 1460); lia).
  assert (0 <= Z.quot doe 36524) by (apply Z.quot_pos; lia).
  rewrite (Z.quot_div_nonneg (doe - _ + _ - _)), (Z.quot_div_nonneg (doe + 1 - _ + _ - _)) by lia. apply Z.div_le_mono; lia.
Qed.

Lemma year_of_mono n : forall a, 0 <= a -> a + Z.of_nat n <= 146096 -> year_of a <= year_of (a + Z.of_nat n).
Proof.
  induction n as [|n IH]; intros a Ha Hb; [by rewrite Z.add_0_r|]. etrans; [apply year_of_step; lia|].
  rewrite Nat2Z.inj_succ. replace (a + Z.succ (Z.of_nat n)) with (a + 1 + Z.of_nat n) by lia. apply IH; lia.
Qed.

Lemma year_facts y : 0 <= y < 400 -> year_of (year_start y) = y /\ year_of (year_end y) = y /\
  year_end y - year_start y = leap_len (is_leap_year (y + 1)) /\
  (if y =? 399 then year_end y = 146096 else year_start (y + 1) = year_end y + 1).
Proof.
  intros Hy. pose proof (all_below_spec 400 year_ok y years_checked ltac:(lia)) as H. unfold year_ok in H.
  rewrite !andb_true_iff, !Z.eqb_eq in H. destruct H as (((H1 & H2) & H3) & H4). split_and!; [done..|].
  destruct (y =? 399); by apply Z.eqb_eq in H4.
Qed.

Lemma year_start_bounds y : 0 <= y <= 399 -> 0 <= year_start y /\ year_end y <= 146096.
Proof.
  intros Hy. unfold year_end, year_start. rewrite !Z.quot_div_nonneg by lia.
  assert (0 <= y / 4) by (apply Z.div_pos; lia). assert (0 <= y / 100 <= y) by (split; [apply Z.div_pos; lia|apply Z.div_le_upper_bound; lia]).
  split; [lia|]. destruct (Z.eqb_spec y 399); [lia|].
  assert ((y + 1) / 4 <= 99) by (apply Z.lt_succ_r, Z.div_lt_upper_bound; lia).
  assert (0 <= (y + 1) / 100) by (apply Z.div_pos; lia). lia.
Qed.

Lemma year_of_within y doe : 0 <= y < 400 -> year_start y <= doe <= year_end y -> year_of doe = y.
Proof.
  intros Hy Hd. destruct (year_facts y Hy) as (H1 & H2 & _). pose proof (year_start_bounds y ltac:(lia)).
  pose proof (year_of_mono (Z.to_nat (doe - year_start y)) (year_start y)) as Ha.
  pose proof (year_of_mono (Z.to_nat (year_end y - doe)) doe) as Hb.
  rewrite Z2Nat.id in Ha, Hb by lia. replace (year_start y + (doe - year_start y)) with doe in Ha by lia.
  replace (doe + (year_end y - doe)) with (year_end y) in Hb by lia. lia.
Qed.

(** Every day of 400 years is in one of the years. *)
Lemma year_exists n : forall doe, (n <= 400)%nat -> 0 <= doe <= (if (n =? 0)%nat then -1 else year_end (Z.of_nat n - 1)) ->
  exists y, 0 <= y < Z.of_nat n /\ year_start y <= doe <= year_end y.
Proof.
  induction n as [|n IH]; intros doe Hn Hd; [cbn in Hd; lia|]. cbn [Nat.eqb] in Hd. rewrite Nat2Z.inj_succ in *.
  replace (Z.succ (Z.of_nat n) - 1) with (Z.of_nat n) in Hd by lia.
  destruct (decide (year_start (Z.of_nat n) <= doe)) as [Hs|Hs]; [exists (Z.of_nat n); lia|].
  destruct (IH doe ltac:(lia)) as (y & Hy & Hr); [|exists y; lia].
  destruct n as [|n]; [change (year_start (Z.of_nat 0)) with 0 in Hs; lia|]. cbn [Nat.eqb].
  destruct (year_facts (Z.of_nat n) ltac:(lia)) as (_ & _ & _ & H4). rewrite (proj2 (Z.eqb_neq _ _)) in H4 by lia.
  rewrite Nat2Z.inj_succ in *. replace (Z.succ (Z.of_nat n) - 1) with (Z.of_nat n) by lia.
  replace (Z.succ (Z.of_nat n)) with (Z.of_nat n + 1) in Hs by lia. lia.
Qed.

Lemma civil_at era y doy : 0 <= y < 400 -> 0 <= doy <= leap_len (is_leap_year (y + 1)) ->
  civil_from_days (era * DAYS_PER_400_YEARS + year_start y + doy - DAYS_FROM_CIVIL_EPOCH_TO_UNIX_EPOCH) = civil era y doy.
Proof.
  intros Hy Hd. destruct (year_facts y Hy) as (_ & _ & H3 & _). pose proof (year_start_bounds y ltac:(lia)).
  pose proof (year_of_within y (year_start y + doy) Hy ltac:(lia)) as Ey.
  unfold civil_from_days. cbv zeta.
  replace (era * DAYS_PER_400_YEARS + year_start y + doy - DAYS_FROM_CIVIL_EPOCH_TO_UNIX_EPOCH + DAYS_FROM_CIVIL_EPOCH_TO_UNIX_EPOCH)
    with (year_start y + doy + era * DAYS_PER_400_YEARS) by lia.
  rewrite Z.div_add, (Z.div_small (year_start y + doy)) by (unfold DAYS_PER_400_YEARS; lia). rewrite Z.add_0_l.
  replace (year_start y + doy + era * DAYS_PER_400_YEARS - era * DAYS_PER_400_YEARS) with (year_start y + doy) by lia.
  fold (year_of (year_start y + doy)). rewrite Ey. replace (365 * y + Z.quot y 4 - Z.quot y 100) with (year_start y) by (unfold year_start; lia).
  replace (year_start y + doy - year_start y) with doy by lia. unfold civil, month_day, early. cbv zeta. reflexivity.
Qed.

(** Every day is one of a year. *)
Lemma day_split d : exists era y doy, 0 <= y < 400 /\ 0 <= doy <= leap_len (is_leap_year (y + 1)) /\
  d = era * DAYS_PER_400_YEARS + year_start y + doy - DAYS_FROM_CIVIL_EPOCH_TO_UNIX_EPOCH.
Proof.
  set (z := d + DAYS_FROM_CIVIL_EPOCH_TO_UNIX_EPOCH).
  pose proof (Z.div_mod z DAYS_PER_400_YEARS ltac:(unfold DAYS_PER_400_YEARS; lia)) as Hz.
  pose proof (Z.mod_pos_bound z DAYS_PER_400_YEARS ltac:(unfold DAYS_PER_400_YEARS; lia)) as Hm.
  destruct (year_exists 400 (z mod DAYS_PER_400_YEARS) ltac:(lia)) as (y & Hy & Hr).
  { change (year_end (Z.of_nat 400 - 1)) with 146096. unfold DAYS_PER_400_YEARS in *. cbn [Nat.eqb]. lia. }
  change (Z.of_nat 400) with 400 in Hy. destruct (year_facts y Hy) as (_ & _ & H3 & _).
  exists (z / DAYS_PER_400_YEARS), y, (z mod DAYS_PER_400_YEARS - year_start y). split; [done|]. split; [lia|]. unfold z in *. lia.
Qed.

(** ** Years that a multiple of 400 apart are alike *)

Lemma rem_0_shift a b k : b <> 0 -> (Z.rem (a + k * b) b =? 0) = (Z.rem a b =? 0).
Proof.
  intros Hb. apply eq_true_iff_eq. rewrite !Z.eqb_eq, !Z.rem_divide by done.
  split; intros H; [|by apply Z.divide_add_r; [|apply Z.divide_factor_r]].
  replace a with (a + k * b - k * b) by lia. apply Z.divide_sub_r; [done|apply Z.divide_factor_r].
Qed.

Lemma leap_shift y k : is_leap_year (y + k * 400) = is_leap_year y.
Proof.
  unfold is_leap_year. rewrite (rem_0_shift y 400) by lia.
  replace (y + k * 400) with (y + (k * 4) * 100) at 2 by lia. rewrite rem_0_shift by lia.
  replace (y + k * 400) with (y + (k * 100) * 4) by lia. by rewrite rem_0_shift by lia.
Qed.

Lemma month_len_year y m : days_in_month y m = month_len (is_leap_year y) m.
Proof. done. Qed.

Lemma next_day_in y m d : next_day (y, m, d) = let '(years, next) := next_in (is_leap_year y) m d in (y + years, next.1, next.2).
Proof.
  unfold next_day, next_in. rewrite month_len_year. destruct (d <? _); [by rewrite Z.add_0_r|].
  destruct (m <? 12); [by rewrite Z.add_0_r|done].
Qed.

(** Whether a year is a leap year only matters in its February. *)
Lemma civil_leap era y m leap : is_leap_year (y + 1) = leap -> month_len (is_leap_year (y + era * 400 + early m)) m = month_len leap m.
Proof.
  intros <-. unfold month_len. destruct (Z.eqb_spec m 2) as [->|]; [|done]. change (early 2) with 1.
  replace (y + era * 400 + 1) with (y + 1 + era * 400) by lia. by rewrite leap_shift.
Qed.

Lemma day_facts leap doy : 0 <= doy <= leap_len leap -> day_ok leap doy = true.
Proof.
  intros Hd. pose proof (days_checked leap) as Hc. eapply (all_below_spec _ _ doy) in Hc; [done|].
  destruct leap; cbn in *; lia.
Qed.

Definition valid_date (date : Z * Z * Z) : bool :=
  let '(year, month, day) := date in between 1 12 month && between 1 (days_in_month year month) day.

Lemma calendar_day d : civil_from_days (d + 1) = next_day (civil_from_days d) /\ valid_date (civil_from_days d) = true /\
  let '(y, m, d') := civil_from_days d in days_from_civil y m d' = d.
Proof.
  destruct (day_split d) as (era & y & doy & Hy & Hdoy & ->). rewrite civil_at by done.
  pose proof (day_facts _ doy Hdoy) as Hok. unfold day_ok in Hok. unfold civil.
  set (leap := is_leap_year (y + 1)) in *. destruct (month_day doy) as [m dd] eqn:Emd.
  pose proof (civil_leap era y m leap eq_refl) as Hml.
  assert (Enext : next_in (is_leap_year (y + era * 400 + early m)) m dd = next_in leap m dd) by (unfold next_in; by rewrite Hml).
  rewrite next_day_in, Enext. destruct (next_in leap m dd) as [years next].
  rewrite !andb_true_iff, Z.eqb_eq in Hok. destruct Hok as [[[Hm Hd] Hdy] Hnext]. split; [|split].
  - destruct (Z.ltb_spec doy (leap_len leap)) as [Hlt|Hge].
    + rewrite andb_true_iff, bool_decide_eq_true, Z.eqb_eq in Hnext. destruct Hnext as [En Ee].
      replace (_ + doy - _ + 1) with (era * DAYS_PER_400_YEARS + year_start y + (doy + 1) - DAYS_FROM_CIVIL_EPOCH_TO_UNIX_EPOCH) by lia.
      rewrite civil_at by (fold leap; lia). unfold civil. rewrite En. destruct next as [m' d']. cbn [fst snd] in *. f_equal. f_equal. lia.
    + rewrite !andb_true_iff, bool_decide_eq_true, !Z.eqb_eq in Hnext. destruct Hnext as [[En ->] Ee].
      destruct (year_facts y Hy) as (_ & _ & H3 & H4). fold leap in H3. assert (doy = leap_len leap) as -> by lia.
      rewrite Ee, <- En. revert H4. destruct (Z.eqb_spec y 399) as [->|Hne]; intros H4.
      * replace (_ + leap_len leap - _ + 1) with ((era + 1) * DAYS_PER_400_YEARS + year_start 0 + 0 - DAYS_FROM_CIVIL_EPOCH_TO_UNIX_EPOCH)
          by (change (year_start 0) with 0; unfold DAYS_PER_400_YEARS; lia).
        rewrite civil_at by (try lia; vm_compute; intuition discriminate). unfold civil.
        change (month_day 0) with (3, 1). cbn [fst snd]. change (early 3) with 0. f_equal. f_equal. lia.
      * replace (_ + leap_len leap - _ + 1) with (era * DAYS_PER_400_YEARS + year_start (y + 1) + 0 - DAYS_FROM_CIVIL_EPOCH_TO_UNIX_EPOCH) by lia.
        rewrite civil_at; [|lia|pose proof (leap_len_pos (is_leap_year (y + 1 + 1))); lia]. unfold civil.
        change (month_day 0) with (3, 1). cbn [fst snd]. change (early 3) with 0. f_equal. f_equal. lia.
  - unfold valid_date. rewrite month_len_year, Hml. by rewrite Hm, Hd.
  - unfold days_from_civil. cbv zeta. unfold day_of_year in Hdy.
    assert (E : (if m <=? 2 then y + era * 400 + early m - 1 else y + era * 400 + early m) = y + era * 400) by (unfold early; destruct (m <=? 2); lia).
    rewrite E, Z.div_add, (Z.div_small y) by lia. replace (y + era * 400 - (0 + era) * 400) with y by lia.
    unfold year_start. lia.
Qed.

(** The first of March of year [y], counted from that of year 0. *)
Definition march (y : Z) : Z := y / 400 * DAYS_PER_400_YEARS + year_start (y mod 400).

Lemma days_march y m d : days_from_civil y m d = march (y - early m) + day_of_year m d - DAYS_FROM_CIVIL_EPOCH_TO_UNIX_EPOCH.
Proof.
  unfold days_from_civil, march. cbv zeta.
  assert (E : (if m <=? 2 then y - 1 else y) = y - early m) by (unfold early; destruct (m <=? 2); lia). rewrite E.
  set (y' := y - early m). replace (y' - y' / 400 * 400) with (y' mod 400) by (pose proof (Z.div_mod y' 400); lia).
  unfold year_start, day_of_year. lia.
Qed.

(** A date in a leap year or not, and the day of its year from March. *)
Lemma date_facts y m d : valid_date (y, m, d) = true ->
  let y' := y - early m in
  0 <= day_of_year m d <= leap_len (is_leap_year (y' mod 400 + 1)) /\ month_day (day_of_year m d) = (m, d) /\
  (if m <=? 2 then 306 <= day_of_year m d else day_of_year m d <= 305).
Proof.
  intros Hv. cbv zeta. unfold valid_date in Hv. rewrite andb_true_iff, !between_spec, month_len_year in Hv. destruct Hv as [Hm Hd].
  set (y' := y - early m). set (era := y' / 400). set (yoe := y' mod 400).
  pose proof (Z.div_mod y' 400 ltac:(lia)) as Ey. fold era yoe in Ey.
  pose proof (civil_leap era yoe m _ eq_refl) as Hml. replace (yoe + era * 400 + early m) with y in Hml by (unfold y' in Ey; lia).
  set (leap := is_leap_year (yoe + 1)) in *. rewrite Hml in Hd.
  assert (Hlen : month_len leap m <= 31) by (unfold month_len; repeat case_match; lia).
  pose proof (dates_checked leap) as Hc. eapply (all_below_spec _ _ (m - 1)) in Hc; [|lia]. cbv beta in Hc.
  eapply (all_below_spec _ _ (d - 1)) in Hc; [|lia]. unfold date_ok in Hc.
  replace (m - 1 + 1) with m in Hc by lia. replace (d - 1 + 1) with d in Hc by lia.
  rewrite (proj2 (Z.leb_le _ _)) in Hc by lia. cbn [negb orb] in Hc.
  rewrite !andb_true_iff, between_spec, bool_decide_eq_true in Hc. destruct Hc as [[Hdoy Emd] Hpart].
  split_and!; [lia..|done|]. destruct (m <=? 2); by apply Z.leb_le in Hpart.
Qed.

Lemma from_civil_inverse y m d : valid_date (y, m, d) = true -> civil_from_days (days_from_civil y m d) = (y, m, d).
Proof.
  intros Hv. destruct (date_facts y m d Hv) as (Hdoy & Emd & _). rewrite days_march. unfold march.
  set (y' := y - early m) in *. pose proof (Z.div_mod y' 400 ltac:(lia)) as Ey. pose proof (Z.mod_pos_bound y' 400 ltac:(lia)).
  rewrite civil_at by done. unfold civil. rewrite Emd.
  assert (y' + early m = y) by (unfold y'; lia). f_equal. f_equal. lia.
Qed.

(** ** The years of a range of days *)

Lemma march_step y : march (y + 1) = march y + 1 + leap_len (is_leap_year (y mod 400 + 1)).
Proof.
  unfold march. pose proof (Z.div_mod y 400 ltac:(lia)) as Ey. pose proof (Z.mod_pos_bound y 400 ltac:(lia)) as Hy.
  destruct (year_facts (y mod 400) Hy) as (_ & _ & H3 & H4). revert H4. destruct (Z.eqb_spec (y mod 400) 399) as [E|Hne]; intros H4.
  - assert (Eq : (y + 1) / 400 = y / 400 + 1 /\ (y + 1) mod 400 = 0).
    { split; symmetry; [apply (Z.div_unique _ _ _ 0); lia|apply (Z.mod_unique _ _ (y / 400 + 1)); lia]. }
    destruct Eq as [-> ->]. change (year_start 0) with 0. unfold DAYS_PER_400_YEARS. lia.
  - assert (Eq : (y + 1) / 400 = y / 400 /\ (y + 1) mod 400 = y mod 400 + 1).
    { split; symmetry; [apply (Z.div_unique _ _ _ (y mod 400 + 1)); lia|apply (Z.mod_unique _ _ (y / 400)); lia]. }
    destruct Eq as [-> ->]. lia.
Qed.

Lemma march_mono n : forall y, march y <= march (y + Z.of_nat n).
Proof.
  induction n as [|n IH]; intros y; [by rewrite Z.add_0_r|]. rewrite Nat2Z.inj_succ.
  replace (y + Z.succ (Z.of_nat n)) with (y + Z.of_nat n + 1) by lia. rewrite march_step.
  pose proof (leap_len_pos (is_leap_year ((y + Z.of_nat n) mod 400 + 1))). specialize (IH y). lia.
Qed.

Lemma new_year y : days_from_civil y 1 1 = march (y - 1) + 306 - DAYS_FROM_CIVIL_EPOCH_TO_UNIX_EPOCH.
Proof. rewrite days_march. done. Qed.

Lemma within_year y m d : valid_date (y, m, d) = true -> days_from_civil y 1 1 <= days_from_civil y m d < days_from_civil (y + 1) 1 1.
Proof.
  intros Hv. destruct (date_facts y m d Hv) as (Hdoy & _ & Hpart). rewrite !new_year, days_march.
  replace (y + 1 - 1) with y by lia. pose proof (march_step (y - 1)) as Hs. replace (y - 1 + 1) with y in Hs by lia.
  unfold early in *. destruct (m <=? 2).
  - lia.
  - pose proof (leap_len_pos (is_leap_year ((y - 1) mod 400 + 1))) as Hl.
    rewrite Z.sub_0_r in *. lia.
Qed.

Lemma new_year_mono y1 y2 : y1 <= y2 -> days_from_civil y1 1 1 <= days_from_civil y2 1 1.
Proof.
  intros H. rewrite !new_year. pose proof (march_mono (Z.to_nat (y2 - y1)) (y1 - 1)) as Hm. rewrite Z2Nat.id in Hm by lia.
  replace (y1 - 1 + (y2 - y1)) with (y2 - 1) in Hm by lia. lia.
Qed.

Lemma year_range y m d lo hi : valid_date (y, m, d) = true ->
  lo <= y < hi <-> days_from_civil lo 1 1 <= days_from_civil y m d < days_from_civil hi 1 1.
Proof.
  intros Hv. pose proof (within_year y m d Hv) as Hw. split.
  - intros [H1 H2]. pose proof (new_year_mono lo y H1). pose proof (new_year_mono (y + 1) hi ltac:(lia)). lia.
  - intros [H1 H2]. destruct (decide (y < lo)) as [Hl|]; [pose proof (new_year_mono (y + 1) lo ltac:(lia)); lia|].
    destruct (decide (hi <= y)) as [Hh|]; [pose proof (new_year_mono hi y Hh); lia|]. lia.
Qed.
