(* ===== verification/TimestampTheorems.v ===== *)
(** * Timestamps: the theorems

    The calendar follows the Gregorian one day by day; what a literal can write are the
    timestamps of the years 0000 to 9999, and each of them is printed as a literal of it. *)

From Stdlib Require Import ZArith Lia.
From stdpp Require Import base list numbers option.
From S2P Require Import Prelude Bytes Str Timestamp.
Import Timestamp.

Local Open Scope Z_scope.

(** [H] says that a guard did not return [None]. *)
Ltac past H E := match type of H with context [if ?b then None else _] => destruct b eqn:E; [done|] end.

(** ** Digits *)

Lemma utf8_digits s : forallb is_ascii_digit (utf8 s) = true ->
  utf8 s = s /\ Forall (fun c => is_ascii_digit c = true) s.
Proof.
  induction s as [|c s IH]; [done|]. rewrite utf8_cons, forallb_app, andb_true_iff. intros [Hc Hs].
  destruct (IH Hs) as [E Hd]. rewrite E. unfold utf8_char in *.
  destruct (Z.ltb_spec c 0x80); [|exfalso].
  - cbn in Hc. rewrite andb_true_r in Hc. split; [done|by constructor].
  - assert (2 <= c / 64) by (apply Z.div_le_lower_bound; lia). assert (0 <= c / 4096) by (apply Z.div_pos; lia).
    assert (0 <= c / 262144) by (apply Z.div_pos; lia).
    repeat case_match; cbn in Hc; rewrite andb_true_iff in Hc; destruct Hc as [Hc _]; apply between_spec in Hc; lia.
Qed.

Lemma digits_value_bound s : Forall (fun c => is_ascii_digit c = true) s -> 0 <= digits_value s < 10 ^ len s.
Proof.
  induction s as [|c s IH] using rev_ind; intros Hs; [by vm_compute|].
  apply Forall_app in Hs as [Hs [Hc _]%Forall_cons_1]. specialize (IH Hs). rewrite digits_value_snoc, length_app, Nat2Z.inj_add.
  rewrite Z.pow_add_r by lia. change (10 ^ len [c]) with 10. apply between_spec in Hc. nia.
Qed.

Lemma parse_i64_value s v : Forall (fun c => is_ascii_digit c = true) s -> parse_i64 s = Some v -> v = digits_value s.
Proof. unfold parse_i64. intros _. destruct s as [|c s]; [done|]. cbv zeta. destruct (in_i64 _); [|done]. congruence. Qed.

Lemma fixed_digits_bound s n v : fixed_digits s n = Some v -> 0 <= v < 10 ^ Z.of_nat n.
Proof.
  unfold fixed_digits. destruct (Nat.eqb_spec (length (utf8 s)) n) as [El|]; [|done].
  destruct (forallb is_ascii_digit (utf8 s)) eqn:Ed; [|done]. cbn [andb]. destruct (utf8_digits s Ed) as [Eu Hd].
  intros ->%parse_i64_value; [|done]. rewrite <- El, Eu. by apply digits_value_bound.
Qed.

Lemma digits_forallb s : Forall (fun c => is_ascii_digit c = true) s -> forallb is_ascii_digit s = true.
Proof. induction 1 as [|c s Hc _ IH]; cbn; [done|]. by rewrite Hc. Qed.

Lemma fixed_in_digits w n : (0 < w <= 18)%nat -> 0 <= n < 10 ^ Z.of_nat w -> fixed_digits (in_digits w n) w = Some n.
Proof.
  intros Hw Hn. unfold fixed_digits. pose proof (in_digits_digits w n ltac:(lia)) as Hd.
  rewrite utf8_ascii, length_in_digits, Nat.eqb_refl, digits_forallb by first [done | by apply digits_ascii].
  by apply parse_i64_digits.
Qed.

Ltac run_digits :=
  repeat (cbn [lookup list_lookup mbind option_bind]; rewrite fixed_in_digits by (lia || cbn; lia)); cbn [mbind option_bind].

Lemma digits_not p s : Forall (fun c => is_ascii_digit c = true) s -> (forall c, 48 <= c <= 57 -> p c = false) ->
  Forall (fun c => p c = false) s.
Proof. intros Hs Hp. apply (list.Forall_impl _ _ _ Hs). intros c Hc%between_spec. by apply Hp. Qed.

(** ** What a literal can write *)

Definition TS_MIN : Z := days_from_civil 0 1 1 * MICROS_PER_DAY.
Definition TS_MAX : Z := days_from_civil 10000 1 1 * MICROS_PER_DAY - 1.

Lemma parse_date_range date d : parse_date date = Some d -> days_from_civil 0 1 1 <= d < days_from_civil 10000 1 1.
Proof.
  unfold parse_date. cbv zeta. intros H.
  apply bind_Some in H as (ys & _ & H). apply bind_Some in H as (y & Hy & H).
  apply bind_Some in H as (ms & _ & H). apply bind_Some in H as (m & _ & H).
  apply bind_Some in H as (ds & _ & H). apply bind_Some in H as (dd & _ & H).
  past H E1. past H E2. injection H as <-.
  apply orb_false_iff in E1 as [_ Em%negb_false_iff]. apply orb_false_iff in E2 as [E2%Z.ltb_ge E3%Z.ltb_ge].
  apply fixed_digits_bound in Hy. change (10 ^ Z.of_nat 4) with 10000 in Hy. apply year_range; [|done].
  unfold valid_date. rewrite Em. cbn. by apply between_spec.
Qed.

Lemma parse_time_range time m : parse_time time = Some m -> 0 <= m < MICROS_PER_DAY.
Proof.
  unfold parse_time. destruct (match split_once (Z.eqb 46) time with Some (a, b) => (a, Some b) | None => (time, None) end) as [hms fraction].
  cbv zeta. intros H.
  apply bind_Some in H as (hs & _ & H). apply bind_Some in H as (h & Hh & H).
  apply bind_Some in H as (ms & _ & H). apply bind_Some in H as (mi & Hm & H).
  apply bind_Some in H as (ss & _ & H). apply bind_Some in H as (s & Hs & H).
  past H E1. rewrite !orb_false_iff, !Z.ltb_ge in E1. destruct E1 as [[[_ E1] E2] E3].
  apply bind_Some in H as (f & Hf & [= <-]).
  apply fixed_digits_bound in Hh, Hm, Hs.
  assert (0 <= f < 1000000).
  { unfold parse_fraction in Hf. destruct fraction as [digits|]; [|injection Hf as <-; lia].
    past Hf E. rewrite !orb_false_iff, negb_false_iff in E. destruct E as [[_ E4%Nat.ltb_ge] E5].
    destruct (utf8_digits digits E5) as [Eu Hd]. rewrite Eu in E4.
    assert (Hpd : Forall (fun c => is_ascii_digit c = true) (pad_right FRACTION_DIGITS digits)).
    { apply Forall_app. split; [done|]. by apply Forall_replicate. }
    apply parse_i64_value in Hf as ->; [|done]. pose proof (digits_value_bound _ Hpd) as Hb.
    replace (len (pad_right FRACTION_DIGITS digits)) with 6 in Hb; [done|].
    unfold pad_right. rewrite length_app, length_replicate. unfold FRACTION_DIGITS in *. lia. }
  unfold MICROS_PER_DAY, MICROS_PER_SECOND, SECONDS_PER_DAY. lia.
Qed.

Lemma parse_range s m : parse s = Ok m -> TS_MIN <= m <= TS_MAX.
Proof.
  unfold parse, ok_or. destruct (parse_parts (trim s)) as [v|] eqn:E; [|done]. intros [= <-]. revert E. unfold parse_parts.
  destruct (match split_once _ (trim s) with Some (a, b) => (a, Some (trim_start b)) | None => (trim s, None) end) as [date time].
  intros H. apply bind_Some in H as (d & Hd & H). apply bind_Some in H as (t & Ht & H).
  apply parse_date_range in Hd.
  assert (0 <= t < MICROS_PER_DAY) by (destruct time; [by eapply parse_time_range|injection Ht as <-; by vm_compute]).
  apply bind_Some in H as (x & Hx & H). unfold checked in *. destruct (in_i64 _) in Hx; [|done]. injection Hx as <-.
  destruct (in_i64 _) in H; [|done]. injection H as <-. unfold TS_MIN, TS_MAX. nia.
Qed.

(** ** Printing *)

Lemma pad_trim w s : length s = w -> pad_right w (trim_end_matches (Z.eqb 48) s) = s.
Proof.
  intros <-. destruct (trim_end_split (Z.eqb 48) s) as (t & E & Ht). unfold pad_right. set (a := trim_end_matches _ s) in *.
  rewrite E. f_equal. rewrite length_app. replace (length a + length t - length a)%nat with (length t) by lia.
  clear -Ht. induction Ht as [|c t Hc _ IH]; [done|]. cbn. apply Z.eqb_eq in Hc as <-. by rewrite IH.
Qed.

Lemma parse_fraction_printed f : 0 < f < 1000000 ->
  parse_fraction (Some (trim_end_matches (Z.eqb 48) (in_digits 6 f))) = Some f.
Proof.
  intros Hf. pose proof (in_digits_digits 6 f ltac:(lia)) as Hd.
  destruct (trim_end_split (Z.eqb 48) (in_digits 6 f)) as (t & E & Ht). set (a := trim_end_matches _ _) in *.
  assert (Ha : Forall (fun c => is_ascii_digit c = true) a) by (rewrite E in Hd; by apply Forall_app in Hd as [? _]).
  assert (Hl : (length a + length t)%nat = 6%nat) by (rewrite <- length_app, <- E; apply length_in_digits).
  assert (Hne : a <> []).
  { intros Ea. assert (Hz : digits_value t = 0).
    { clear -Ht. unfold digits_value. induction Ht as [|c t Hc _ IH]; [done|]. apply Z.eqb_eq in Hc as <-. exact IH. }
    pose proof (in_digits_value 6 f ltac:(cbn; lia)) as Hv. rewrite E, Ea in Hv. cbn [app] in Hv. lia. }
  unfold parse_fraction. rewrite (utf8_ascii a) by by apply digits_ascii.
  rewrite (digits_forallb a Ha). rewrite (proj2 (Nat.eqb_neq _ _)) by (destruct a; cbn; done).
  rewrite (proj2 (Nat.ltb_ge _ _)) by (unfold FRACTION_DIGITS; lia). cbn [orb negb].
  unfold a. rewrite pad_trim by apply length_in_digits. apply parse_i64_digits; [lia|]. cbn. lia.
Qed.

Lemma parse_date_printed y m d : 0 <= y < 10000 -> valid_date (y, m, d) = true ->
  parse_date (in_digits 4 y ++ 45 :: in_digits 2 m ++ 45 :: in_digits 2 d) = Some (days_from_civil y m d).
Proof.
  intros Hy Hv. pose proof Hv as Hv'. unfold valid_date in Hv'. rewrite andb_true_iff, !between_spec in Hv'. destruct Hv' as [Hm Hd].
  assert (Hdim : days_in_month y m <= 31) by (unfold days_in_month; repeat case_match; lia).
  assert (Hno : forall w n, 0 <= n -> Forall (fun c => (45 =? c) = false) (in_digits w n)).
  { intros w n Hn. apply (digits_not (Z.eqb 45)); [by apply in_digits_digits|]. intros c Hc. apply Z.eqb_neq. lia. }
  unfold parse_date. rewrite !(split_app (Z.eqb 45)), split_none by first [apply Hno; lia | done]. cbv zeta. run_digits.
  cbn. rewrite (proj2 (between_spec 1 12 m)) by lia. cbn.
  rewrite (proj2 (Z.ltb_ge d 1)), (proj2 (Z.ltb_ge _ d)) by lia. done.
Qed.

Definition fraction_text (f : Z) : str :=
  if negb (f =? 0) then 46 :: trim_end_matches (Z.eqb 48) (in_digits 6 f) else [].

Lemma parse_time_printed h m s f : 0 <= h < 24 -> 0 <= m < 60 -> 0 <= s < 60 -> 0 <= f < 1000000 ->
  parse_time ((in_digits 2 h ++ 58 :: in_digits 2 m ++ 58 :: in_digits 2 s) ++ fraction_text f) =
    Some (((h * 60 + m) * 60 + s) * MICROS_PER_SECOND + f).
Proof.
  intros Hh Hm Hs Hf. set (hms := in_digits 2 h ++ _).
  assert (Hno : forall b w n, 0 <= n -> b < 48 \/ 57 < b -> Forall (fun c => (b =? c) = false) (in_digits w n)).
  { intros b w n Hn Hb. apply (digits_not (Z.eqb b)); [by apply in_digits_digits|]. intros c Hc. apply Z.eqb_neq. lia. }
  assert (Hdot : Forall (fun c => (46 =? c) = false) hms).
  { unfold hms. repeat (apply Forall_app; split; [apply Hno; lia|]; constructor; [done|]). apply Hno; lia. }
  assert (Hsplit : match split_once (Z.eqb 46) (hms ++ fraction_text f) with
    | Some (a, b) => (a, Some b) | None => (hms ++ fraction_text f, None) end =
    (hms, if negb (f =? 0) then Some (trim_end_matches (Z.eqb 48) (in_digits 6 f)) else None)).
  { unfold fraction_text. destruct (negb (f =? 0)); [by rewrite split_once_app|]. by rewrite app_nil_r, split_once_none. }
  unfold parse_time. rewrite Hsplit. unfold hms. rewrite !(split_app (Z.eqb 58)), split_none by first [apply Hno; lia | done].
  cbv zeta. run_digits.
  rewrite bool_decide_eq_false_2 by by intros [? ?]. cbn [orb].
  rewrite (proj2 (Z.ltb_ge 23 h)), (proj2 (Z.ltb_ge 59 m)), (proj2 (Z.ltb_ge 59 s)) by lia. cbn [orb].
  destruct (Z.eqb_spec f 0) as [->|]; [done|]. cbn [negb].
  rewrite parse_fraction_printed by lia. done.
Qed.

Lemma not_space_digit c : is_ascii_digit c = true -> is_whitespace c = false.
Proof.
  intros H%between_spec. unfold is_whitespace. rewrite !between_false by lia.
  repeat rewrite (proj2 (Z.eqb_neq _ _)) by lia. done.
Qed.

Lemma in_digits_last w n : 0 <= n -> (0 < w)%nat -> exists s c, in_digits w n = s ++ [c] /\ is_ascii_digit c = true.
Proof.
  intros Hn Hw. destruct w as [|w]; [lia|]. eexists _, _. split; [done|].
  apply between_spec. pose proof (Z.mod_pos_bound n 10). lia.
Qed.

Lemma in_digits_first w n : 0 <= n -> (0 < w)%nat -> exists c s, in_digits w n = c :: s /\ is_ascii_digit c = true.
Proof.
  intros Hn Hw. pose proof (length_in_digits w n) as Hl. pose proof (in_digits_digits w n Hn) as Hd.
  destruct (in_digits w n) as [|c s]; [cbn in Hl; lia|]. exists c, s. split; [done|]. by apply Forall_cons_1 in Hd as [? _].
Qed.

(** The text ends in a digit that is not a space. *)
Lemma time_last h m s f : 0 <= s -> 0 <= f < 1000000 ->
  exists t c, (in_digits 2 h ++ 58 :: in_digits 2 m ++ 58 :: in_digits 2 s) ++ fraction_text f = t ++ [c] /\ is_ascii_digit c = true.
Proof.
  intros Hs Hf. unfold fraction_text. destruct (Z.eqb_spec f 0) as [->|Hne]; cbn [negb].
  - destruct (in_digits_last 2 s Hs ltac:(lia)) as (t & c & -> & Hc).
    exists (in_digits 2 h ++ 58 :: in_digits 2 m ++ 58 :: t), c. split; [|done]. by rewrite app_nil_r, <- !app_assoc.
  - destruct (trim_end_split (Z.eqb 48) (in_digits 6 f)) as (t & E & _). set (a := trim_end_matches _ _) in *.
    pose proof (in_digits_digits 6 f ltac:(lia)) as Hd. rewrite E in Hd. apply Forall_app in Hd as [Hd _].
    pose proof (parse_fraction_printed f ltac:(lia)) as Hp. fold a in Hp.
    destruct a as [|c a' _] using rev_ind; [done|]. apply Forall_app in Hd as [_ [Hc _]%Forall_cons_1].
    exists ((in_digits 2 h ++ 58 :: in_digits 2 m ++ 58 :: in_digits 2 s) ++ 46 :: a'), c. split; [|done]. by rewrite <- app_assoc.
Qed.

Lemma parse_printed y mo d h mi s f : 0 <= y < 10000 -> valid_date (y, mo, d) = true ->
  0 <= h < 24 -> 0 <= mi < 60 -> 0 <= s < 60 -> 0 <= f < 1000000 ->
  parse ((in_digits 4 y ++ 45 :: in_digits 2 mo ++ 45 :: in_digits 2 d) ++ 32 ::
    (in_digits 2 h ++ 58 :: in_digits 2 mi ++ 58 :: in_digits 2 s) ++ fraction_text f) =
  Ok (days_from_civil y mo d * MICROS_PER_DAY + (((h * 60 + mi) * 60 + s) * MICROS_PER_SECOND + f)).
Proof.
  intros Hy Hv Hh Hmi Hs Hf. pose proof Hv as Hv'. unfold valid_date in Hv'. rewrite andb_true_iff, !between_spec in Hv'. destruct Hv' as [Hm Hd].
  set (date := in_digits 4 y ++ _). set (time := (in_digits 2 h ++ _) ++ _).
  destruct (time_last h mi s f ltac:(lia) Hf) as (t & c & Et & Hc). fold time in Et.
  assert (Etrim : trim (date ++ 32 :: time) = date ++ 32 :: time).
  { assert (E : trim_start (date ++ 32 :: time) = date ++ 32 :: time).
    { destruct (in_digits_first 4 y ltac:(lia) ltac:(lia)) as (c0 & s0 & E0 & Hc0). unfold date. rewrite E0.
      apply drop_while_none. by apply not_space_digit. }
    unfold trim. rewrite E, Et. change (32 :: t ++ [c]) with ((32 :: t) ++ [c]). rewrite app_assoc.
    apply trim_end_none. by apply not_space_digit. }
  unfold parse. rewrite Etrim. unfold parse_parts. rewrite split_once_app; [|unfold date|done].
  2:{ assert (Hno : forall w n, 0 <= n -> Forall (fun c => ((c =? 32) || (c =? 84)) = false) (in_digits w n)).
      { intros w n Hn. apply (digits_not (fun c => (c =? 32) || (c =? 84))); [by apply in_digits_digits|]. intros x Hx.
        apply orb_false_iff. split; apply Z.eqb_neq; lia. }
      repeat (apply Forall_app; split; [apply Hno; lia|]; constructor; [done|]). apply Hno; lia. }
  unfold date. rewrite parse_date_printed by done. cbn [mbind option_bind].
  assert (Ets : trim_start time = time).
  { unfold trim_start, trim_start_matches, time. destruct (in_digits_first 2 h ltac:(lia) ltac:(lia)) as (c0 & s0 & -> & Hc0).
    cbn [app]. apply drop_while_none. by apply not_space_digit. }
  rewrite Ets. unfold time. rewrite parse_time_printed by done. cbn [option_bind].
  set (days := days_from_civil y mo d).
  assert (Hdays : days_from_civil 0 1 1 <= days < days_from_civil 10000 1 1) by by apply year_range.
  change (days_from_civil 0 1 1) with (-719528) in Hdays. change (days_from_civil 10000 1 1) with 2932897 in Hdays.
  unfold checked, in_i64, i64_min, i64_max, MICROS_PER_DAY, MICROS_PER_SECOND, SECONDS_PER_DAY.
  rewrite (proj2 (between_spec _ _ _)) by lia. cbn [mbind option_bind]. rewrite (proj2 (between_spec _ _ _)) by lia. done.
Qed.

Lemma format_in_range m : TS_MIN <= m <= TS_MAX -> exists y mo d h mi s f,
  0 <= y < 10000 /\ valid_date (y, mo, d) = true /\ 0 <= h < 24 /\ 0 <= mi < 60 /\ 0 <= s < 60 /\ 0 <= f < 1000000 /\
  m = days_from_civil y mo d * MICROS_PER_DAY + (((h * 60 + mi) * 60 + s) * MICROS_PER_SECOND + f) /\
  format m = (in_digits 4 y ++ 45 :: in_digits 2 mo ++ 45 :: in_digits 2 d) ++ 32 ::
    (in_digits 2 h ++ 58 :: in_digits 2 mi ++ 58 :: in_digits 2 s) ++ fraction_text f.
Proof.
  intros Hm. unfold TS_MIN, TS_MAX in Hm. unfold format.
  assert (ED : MICROS_PER_DAY = 86400000000) by done. assert (ES : MICROS_PER_SECOND = 1000000) by done.
  assert (E0 : days_from_civil 0 1 1 = -719528) by done. assert (E9 : days_from_civil 10000 1 1 = 2932897) by done.
  rewrite E0, E9 in Hm. rewrite ED in Hm. rewrite ED, ES.
  pose proof (Z.div_mod m 86400000000 ltac:(done)) as Em. pose proof (Z.mod_pos_bound m 86400000000 ltac:(done)) as Hb.
  set (days := m / 86400000000) in *. set (mod_ := m mod 86400000000) in *.
  destruct (calendar_day days) as (_ & Hv & Hc). destruct (civil_from_days days) as [[y mo] d].
  assert (Hy : 0 <= y < 10000).
  { apply (year_range y mo d 0 10000 Hv). rewrite Hc, E0, E9. lia. }
  cbv zeta. rewrite !(Z.quot_div_nonneg mod_), (Z.rem_mod_nonneg mod_) by (lia || done).
  set (sod := mod_ / 1000000). set (f := mod_ mod 1000000).
  pose proof (Z.div_mod mod_ 1000000 ltac:(done)) as E1. fold sod f in E1.
  pose proof (Z.mod_pos_bound mod_ 1000000 ltac:(done)) as Hf. fold f in Hf.
  assert (Hsod : 0 <= sod < 86400) by lia.
  rewrite !(Z.quot_div_nonneg sod), !Z.rem_mod_nonneg by (lia || apply Z.div_pos; lia).
  set (h := sod / 3600). set (mi := sod / 60 mod 60). set (s := sod mod 60).
  assert (H3600 : sod / 3600 = sod / 60 / 60) by (rewrite Z.div_div by lia; done).
  pose proof (Z.div_mod sod 60 ltac:(lia)) as E2. pose proof (Z.div_mod (sod / 60) 60 ltac:(lia)) as E3.
  pose proof (Z.mod_pos_bound sod 60 ltac:(lia)) as Hs. pose proof (Z.mod_pos_bound (sod / 60) 60 ltac:(lia)) as Hmi.
  fold s in Hs, E2. fold mi in Hmi, E3. rewrite <- H3600 in E3. fold h in E3.
  assert (Hh : 0 <= h < 24) by lia.
  pose proof Hv as Hv'. unfold valid_date in Hv'. rewrite andb_true_iff, !between_spec in Hv'. destruct Hv' as [Hmo Hd].
  assert (Hdim : days_in_month y mo <= 31) by (unfold days_in_month; repeat case_match; lia).
  exists y, mo, d, h, mi, s, f. split_and!; try done; [lia..|].
  rewrite !format_padded_digits by (lia || cbn; lia). unfold fraction_text.
  destruct (negb (f =? 0)); [|rewrite app_nil_r]; cbn [app]; by rewrite <- ?app_assoc.
Qed.

(** C26. The calendar is the proleptic Gregorian one: day 0 is 1970-01-01, each day has the date
    that follows the one before it, and [days_from_civil] is the inverse of
    [civil_from_days] on the dates that exist. *)
Theorem calendar_is_gregorian :
  civil_from_days 0 = (1970, 1, 1) /\
  (forall d, civil_from_days (d + 1) = next_day (civil_from_days d)) /\
  (forall d, let '(y, m, day) := civil_from_days d in days_from_civil y m day = d) /\
  (forall y m d, valid_date (y, m, d) = true -> civil_from_days (days_from_civil y m d) = (y, m, d)).
Proof.
  split; [reflexivity|]. split; [apply calendar_day|]. split; [apply calendar_day|]. apply from_civil_inverse.
Qed.

(** C27. Timestamps survive being printed: what literals write are the timestamps of the
    years 0000 to 9999, and parsing what [format] prints for one of those gives it back. *)
Theorem timestamp_roundtrip m :
  ((exists s, parse s = Ok m) <-> TS_MIN <= m <= TS_MAX) /\ (TS_MIN <= m <= TS_MAX <-> parse (format m) = Ok m).
Proof.
  assert (H : TS_MIN <= m <= TS_MAX -> parse (format m) = Ok m).
  { intros Hm. destruct (format_in_range m Hm) as (y & mo & d & h & mi & s & f & Hy & Hv & Hh & Hmi & Hs & Hf & Em & ->).
    rewrite parse_printed by done. by rewrite <- Em. }
  split; split; try done.
  - intros [s Hs]. by eapply parse_range.
  - eauto.
  - apply parse_range.
Qed.
