(* ===== verification/Float64.v ===== *)
(** * Floating-point numbers

    An [f64] is its 64 bits, since the code stores and hashes them; its value is the IEEE 754
    number of the standard library's specification of floating point. The order of
    [OrderedFloat] comes from the ordered-float crate and is given by the laws that crate
    documents. *)

From Stdlib Require Import ZArith Lia SpecFloat.
From stdpp Require Import base list numbers option.
From S2P Require Import Prelude Bytes Str.

Local Open Scope Z_scope.

Abbreviation f64 := Z.

Module F64.

Definition prec : Z := 53.
Definition emax : Z := 1024.

Definition SIGN_BIT_64 : Z := 2 ^ 63.
Definition is_f64 (b : f64) : Prop := 0 <= b < 2 ^ 64.

Definition negative (b : f64) : bool := SIGN_BIT_64 <=? b.
(** The bits without the sign. *)
Definition magnitude (b : f64) : Z := b mod 2 ^ 63.
Definition exponent (b : f64) : Z := magnitude b / 2 ^ 52.
Definition mantissa (b : f64) : Z := magnitude b mod 2 ^ 52.

(** The number the bits stand for. *)
Definition value (b : f64) : spec_float :=
  let s := negative b in
  if exponent b =? 2047 then (if mantissa b =? 0 then S754_infinity s else S754_nan)
  else if exponent b =? 0 then (if mantissa b =? 0 then S754_zero s else S754_finite s (Z.to_pos (mantissa b)) (-1074))
  else S754_finite s (Z.to_pos (mantissa b + 2 ^ 52)) (exponent b - 1075).

(** [f64::NAN.to_bits()] *)
Definition NAN : f64 := 0x7ff8000000000000.

(** The bits of a number; those of the one NaN are [NAN]. A number that an operation returns has 63
    bits besides its sign. *)
Definition of_value (x : spec_float) : f64 :=
  let signed (s : bool) (m : Z) := (if s then SIGN_BIT_64 else 0) + m mod 2 ^ 63 in
  match x with
  | S754_zero s => signed s 0
  | S754_infinity s => signed s (2047 * 2 ^ 52)
  | S754_nan => NAN
  | S754_finite s m e =>
      if Z.pos m <? 2 ^ 52 then signed s (Z.pos m) else signed s ((e + 1075) * 2 ^ 52 + (Z.pos m - 2 ^ 52))
  end.

(** [f.is_nan()] and [a == b] *)
Definition is_nan (b : f64) : bool := match value b with S754_nan => true | _ => false end.
Definition eqb (a b : f64) : bool := SFeqb (value a) (value b).
Definition ltb (a b : f64) : bool := SFltb (value a) (value b).
Definition leb (a b : f64) : bool := SFleb (value a) (value b).

Definition add (a b : f64) : f64 := of_value (SFadd prec emax (value a) (value b)).
Definition sub (a b : f64) : f64 := of_value (SFsub prec emax (value a) (value b)).
Definition mul (a b : f64) : f64 := of_value (SFmul prec emax (value a) (value b)).
Definition div (a b : f64) : f64 := of_value (SFdiv prec emax (value a) (value b)).
Definition abs (a : f64) : f64 := of_value (SFabs (value a)).

(** [i as f64], rounding to the nearest even *)
Definition of_int (i : Z) : f64 := of_value (binary_normalize prec emax i 0 false).

(** The whole part of a finite number. *)
Definition whole (s : bool) (m : positive) (e : Z) : Z :=
  let n := if 0 <=? e then Z.pos m * 2 ^ e else Z.pos m / 2 ^ (- e) in
  if s then - n else n.

(** [f.trunc()] and [f.fract()] *)
Definition trunc (a : f64) : f64 :=
  match value a with
  | S754_finite s m e => of_value (binary_normalize prec emax (whole s m e) 0 s)
  | _ => a
  end.
Definition fract (a : f64) : f64 := sub a (trunc a).

(** [f as i64], which saturates *)
Definition to_i64 (a : f64) : Z :=
  match value a with
  | S754_finite s m e => Z.max i64_min (Z.min i64_max (whole s m e))
  | S754_infinity s => if s then i64_min else i64_max
  | S754_zero _ | S754_nan => 0
  end.

End F64.

(** The order of [ordered_float::OrderedFloat<f64>]: that of the numbers, with NaN equal to itself
    and above every other number. *)
Class OrderedFloat := {
  float_cmp : f64 -> f64 -> comparison;
  float_cmp_number : forall a b c, SFcompare (F64.value a) (F64.value b) = Some c -> float_cmp a b = c;
  float_cmp_nan : forall a b, F64.is_nan a = true -> float_cmp a b = if F64.is_nan b then Eq else Gt;
  float_cmp_to_nan : forall a b, F64.is_nan a = false -> F64.is_nan b = true -> float_cmp a b = Lt;
}.

Lemma of_value_f64 x : F64.is_f64 (F64.of_value x).
Proof.
  assert (H : forall (s : bool) m, F64.is_f64 ((if s then F64.SIGN_BIT_64 else 0) + m mod 2 ^ 63)).
  { intros s m. pose proof (Z.mod_pos_bound m (2 ^ 63) ltac:(lia)). unfold F64.is_f64, F64.SIGN_BIT_64. destruct s; lia. }
  unfold F64.of_value. destruct x as [s|s| |s m e]; cbv zeta; [apply H|apply H|split; by vm_compute|]. destruct (_ <? _); apply H.
Qed.

(** ** The order of the bits *)

Section order.

Lemma magnitude_parts b : F64.magnitude b = F64.exponent b * 2 ^ 52 + F64.mantissa b /\ 0 <= F64.mantissa b < 2 ^ 52 /\
  0 <= F64.exponent b < 2048.
Proof.
  unfold F64.exponent, F64.mantissa. pose proof (Z.div_mod (F64.magnitude b) (2 ^ 52) ltac:(lia)).
  pose proof (Z.mod_pos_bound (F64.magnitude b) (2 ^ 52) ltac:(lia)).
  assert (0 <= F64.magnitude b < 2048 * 2 ^ 52) by (unfold F64.magnitude; pose proof (Z.mod_pos_bound b (2 ^ 63)); lia).
  split; [lia|]. split; [done|]. split; [apply Z.div_pos; lia|apply Z.div_lt_upper_bound; lia].
Qed.

(** The kinds of numbers, by their magnitude. *)
Lemma value_cases b :
  F64.magnitude b = 0 /\ F64.value b = S754_zero (F64.negative b) \/
  0 < F64.magnitude b < 2047 * 2 ^ 52 /\ (exists m e, F64.value b = S754_finite (F64.negative b) m e /\
     -1074 <= e /\ Z.pos m < 2 ^ 53 /\ (e = -1074 \/ 2 ^ 52 <= Z.pos m) /\ F64.magnitude b = (e + 1074) * 2 ^ 52 + Z.pos m) \/
  F64.magnitude b = 2047 * 2 ^ 52 /\ F64.value b = S754_infinity (F64.negative b) \/
  2047 * 2 ^ 52 < F64.magnitude b /\ F64.value b = S754_nan.
Proof.
  destruct (magnitude_parts b) as (E & Hm & He). unfold F64.value. cbv zeta.
  destruct (Z.eqb_spec (F64.exponent b) 2047) as [Ee|Ee].
  { destruct (Z.eqb_spec (F64.mantissa b) 0) as [Em|Em]; [right; right; left|right; right; right]; split; (lia || done). }
  destruct (Z.eqb_spec (F64.exponent b) 0) as [E0|E0].
  { destruct (Z.eqb_spec (F64.mantissa b) 0) as [Em|Em]; [left; split; [lia|done]|]. right. left. split; [lia|].
    eexists _, _. split; [done|]. rewrite Z2Pos.id by lia. lia. }
  right. left. split; [lia|]. eexists _, _. split; [done|]. rewrite Z2Pos.id by lia. lia.
Qed.

Lemma is_nan_magnitude b : F64.is_nan b = (2047 * 2 ^ 52 <? F64.magnitude b).
Proof.
  unfold F64.is_nan. symmetry.
  destruct (value_cases b) as [[Hm ->]|[[Hm (m & e & -> & _)]|[[Hm ->]|[Hm ->]]]];
    first [apply Z.ltb_ge; lia | apply Z.ltb_lt; lia].
Qed.

Lemma pos_compare_cont m n : Pos.compare_cont Eq m n = (Z.pos m ?= Z.pos n).
Proof. done. Qed.

Lemma finite_order m e n f :
  -1074 <= e -> Z.pos m < 2 ^ 53 -> (e = -1074 \/ 2 ^ 52 <= Z.pos m) ->
  -1074 <= f -> Z.pos n < 2 ^ 53 -> (f = -1074 \/ 2 ^ 52 <= Z.pos n) ->
  match e ?= f with Lt => Lt | Gt => Gt | Eq => Z.pos m ?= Z.pos n end =
  ((e + 1074) * 2 ^ 52 + Z.pos m ?= (f + 1074) * 2 ^ 52 + Z.pos n).
Proof.
  intros He Hm Hc Hf Hn Hd. symmetry. destruct (Z.compare_spec e f) as [->|H|H].
  - destruct (Z.compare_spec (Z.pos m) (Z.pos n)); first [apply Z.compare_eq_iff; lia | apply Z.compare_lt_iff; lia | apply Z.compare_gt_iff; lia].
  - apply Z.compare_lt_iff. nia.
  - apply Z.compare_gt_iff. nia.
Qed.

(** The numbers order by their magnitudes, backwards when they are negative. *)
Definition signed_magnitude (b : f64) : Z := if F64.negative b then - F64.magnitude b else F64.magnitude b.

Lemma value_order a b : F64.is_nan a = false -> F64.is_nan b = false ->
  SFcompare (F64.value a) (F64.value b) = Some (signed_magnitude a ?= signed_magnitude b).
Proof.
  rewrite !is_nan_magnitude, !Z.ltb_ge. intros Ha Hb. unfold signed_magnitude.
  destruct (value_cases a) as [[Hm ->]|[[Hm (m & e & -> & E1 & E2 & E3 & E4)]|[[Hm ->]|[Hm _]]]]; [| | |lia];
  destruct (value_cases b) as [[Hn ->]|[[Hn (n & f & -> & F1 & F2 & F3 & F4)]|[[Hn ->]|[Hn _]]]]; try lia;
  destruct (F64.negative a), (F64.negative b); cbn [SFcompare]; rewrite ?pos_compare_cont; f_equal; symmetry;
  try first [apply Z.compare_eq_iff; lia | apply Z.compare_lt_iff; lia | apply Z.compare_gt_iff; lia].
  - rewrite Z.compare_opp, E4, F4, <- finite_order by done. rewrite (Z.compare_antisym e f), (Z.compare_antisym (Z.pos m)).
    by destruct (e ?= f).
  - by rewrite E4, F4, <- finite_order.
Qed.

End order.
