(* ===== verification/Values.v ===== *)
(** * Values, columns and tuples

    The data model of [src/src/catalog/mod.rs]: SQL types and values, their conversions and
    comparisons, the encoding of rows as tuples, and the order-preserving encoding of index
    keys. *)

From Stdlib Require Import ZArith Lia.
From stdpp Require Import base list numbers option.
From S2P Require Import Prelude Bytes Ids Buf Str Float64.

Local Open Scope Z_scope.

(** ** Types *)

Module DataType.

Inductive DataType : Type :=
| BOOLEAN
| INT
| BIGINT
| FLOAT
| TIMESTAMP
| TEXT
| VARCHAR (n : Z)
| CHAR (n : Z).

#[export] Instance DataType_eq_dec : EqDecision DataType.
Proof. solve_decision. Defined.

Definition eqb (a b : DataType) : bool := bool_decide (a = b).

Definition TEXT_DESCRIPTOR_LEN : Z := 8.
Definition MAX_UTF8_CHAR_LEN : Z := 4.
Definition TEXT_KEY_TERMINATOR_LEN : Z := 2.
Definition usize_max : Z := 2 ^ 64 - 1.

Definition fixed_width (t : DataType) : Z :=
  match t with
  | BOOLEAN => 1
  | INT => 4
  | BIGINT => 8
  | FLOAT => 8
  | TIMESTAMP => 8
  | TEXT | VARCHAR _ | CHAR _ => TEXT_DESCRIPTOR_LEN
  end.

Definition checked_usize (n : Z) : option Z := if n <=? usize_max then Some n else None.

Definition key_width (t : DataType) : option Z :=
  match t with
  | TEXT => None
  | VARCHAR n | CHAR n =>
      bytes ← checked_usize (n * MAX_UTF8_CHAR_LEN);
      checked_usize (bytes + TEXT_KEY_TERMINATOR_LEN)
  | fixed => Some (fixed_width fixed)
  end.

Definition is_text (t : DataType) : bool :=
  match t with TEXT | VARCHAR _ | CHAR _ => true | _ => false end.

Definition value_type (t : DataType) : DataType :=
  match t with VARCHAR _ | CHAR _ => TEXT | other => other end.

Definition is_numeric (t : DataType) : bool :=
  match t with INT | BIGINT | FLOAT => true | _ => false end.

Definition rank (t : DataType) : option Z :=
  match t with INT => Some 0 | BIGINT => Some 1 | FLOAT => Some 2 | _ => None end.

Definition common_numeric (self other : DataType) : option DataType :=
  a ← rank self;
  b ← rank other;
  Some (if b <=? a then self else other).

Definition coerces_to (self to : DataType) : bool :=
  eqb self to || (is_text self && is_text to) ||
  match self, to with
  | INT, (BIGINT | FLOAT) | BIGINT, (INT | FLOAT) => true
  | _, _ => false
  end.

Definition compares_with (self other : DataType) : bool :=
  eqb (value_type self) (value_type other) || bool_decide (is_Some (common_numeric self other)).

End DataType.
Abbreviation DataType := DataType.DataType.

(** ** Values *)

Definition in_i32 (v : Z) : bool := between (- 2 ^ 31) (2 ^ 31 - 1) v.

Inductive CoercionError : Type :=
| WrongType
| OutOfRange
| TooLong (n : Z).

Module Value.

Inductive Value : Type :=
| BOOLEAN (b : bool)
| INT (i : Z)
| BIGINT (i : Z)
| FLOAT (f : f64)
| TIMESTAMP (t : Z)
| TEXT (s : str).

Definition data_type (v : Value) : DataType :=
  match v with
  | BOOLEAN _ => DataType.BOOLEAN
  | INT _ => DataType.INT
  | BIGINT _ => DataType.BIGINT
  | FLOAT _ => DataType.FLOAT
  | TIMESTAMP _ => DataType.TIMESTAMP
  | TEXT _ => DataType.TEXT
  end.

Definition text (s : str) : Value := TEXT s.
Definition float (f : f64) : Value := FLOAT f.

Definition integer (i : Z) : Value := if in_i32 i then INT i else BIGINT i.

Definition as_i64 (v : Value) : option Z :=
  match v with
  | INT i => Some i
  | BIGINT i => Some i
  | _ => None
  end.

Definition as_f64 (v : Value) : option f64 :=
  match v with
  | INT i => Some (F64.of_int i)
  | BIGINT i => Some (F64.of_int i)
  | FLOAT f => Some f
  | _ => None
  end.

(** ** Conversions *)

Definition CHAR_PAD : Z := 32.

Definition without_char_padding (s : str) : str := trim_end_matches (Z.eqb CHAR_PAD) s.

Definition fit_chars (s : str) (max_chars : Z) : outcome CoercionError Value :=
  if len s <=? max_chars then Ok (TEXT s) else Err (TooLong (len s)).

Definition coerce_to (self : Value) (to : DataType) : outcome CoercionError Value :=
  if DataType.eqb (data_type self) to then Ok self
  else match self, to with
  | TEXT s, DataType.VARCHAR max_chars => fit_chars s max_chars
  | TEXT s, DataType.CHAR n => fit_chars (without_char_padding s) n
  | INT i, DataType.BIGINT => Ok (BIGINT i)
  | BIGINT i, DataType.INT => if in_i32 i then Ok (INT i) else Err OutOfRange
  | INT i, DataType.FLOAT => Ok (float (F64.of_int i))
  | BIGINT i, DataType.FLOAT => Ok (float (F64.of_int i))
  | _, _ => Err WrongType
  end.

(** [9_007_199_254_740_992.0] *)
Definition I64_EXACT_FLOAT_BOUND : f64 := F64.of_int (2 ^ 53).

Definition ok {E A} (r : outcome E A) : option A := match r with Ok a => Some a | _ => None end.

Definition exactly_as (self : Value) (to : DataType) : option Value :=
  if DataType.eqb (data_type self) to then Some self
  else match self, to with
  | TEXT s, DataType.CHAR _ => Some (TEXT (without_char_padding s))
  | (INT _ | BIGINT _), (DataType.INT | DataType.BIGINT) => ok (coerce_to self to)
  | (INT _ | BIGINT _), DataType.FLOAT =>
      i ← as_i64 self;
      if F64.ltb (F64.of_int (Z.abs i)) I64_EXACT_FLOAT_BOUND then Some (float (F64.of_int i)) else None
  | FLOAT f, (DataType.INT | DataType.BIGINT) =>
      if negb (F64.eqb (F64.fract f) 0) || F64.leb I64_EXACT_FLOAT_BOUND (F64.abs f) then None
      else ok (coerce_to (BIGINT (F64.to_i64 f)) to)
  | _, _ => None
  end.

Definition padded_for (self : Value) (dtype : DataType) : Value :=
  match self, dtype with
  | TEXT s, DataType.CHAR n => TEXT (s ++ replicate (Z.to_nat (n - len s)) CHAR_PAD)
  | other, _ => other
  end.

(** ** Order *)

Definition bool_cmp (a b : bool) : comparison := Z.compare (Z.b2z a) (Z.b2z b).

Definition discriminant (v : Value) : Z :=
  match v with
  | BOOLEAN _ => 0
  | INT _ => 1
  | BIGINT _ => 2
  | FLOAT _ => 3
  | TIMESTAMP _ => 4
  | TEXT _ => 5
  end.

(** The derived [Ord]. *)
Definition cmp `{OrderedFloat} (v w : Value) : comparison :=
  match v, w with
  | BOOLEAN a, BOOLEAN b => bool_cmp a b
  | INT a, INT b => Z.compare a b
  | BIGINT a, BIGINT b => Z.compare a b
  | FLOAT a, FLOAT b => float_cmp a b
  | TIMESTAMP a, TIMESTAMP b => Z.compare a b
  | TEXT a, TEXT b => str_order a b
  | _, _ => Z.compare (discriminant v) (discriminant w)
  end.

Definition compare `{OrderedFloat} (v w : Value) : option comparison :=
  if DataType.eqb (data_type v) (data_type w) then Some (cmp v w)
  else match as_i64 v, as_i64 w with
  | Some a, Some b => Some (Z.compare a b)
  | _, _ =>
      a ← as_f64 v;
      b ← as_f64 w;
      Some (float_cmp a b)
  end.

(** ** Encodings *)

(** [i.to_le_bytes()] of a signed integer of [n] bytes, and its inverse. *)
Definition to_le_signed (n : nat) (i : Z) : bytes := to_le n (i mod 256 ^ Z.of_nat n).
Definition of_le_signed (n : nat) (l : bytes) : Z :=
  let v := of_le l in if v <? 256 ^ Z.of_nat n / 2 then v else v - 256 ^ Z.of_nat n.

Definition encode (v : Value) : bytes :=
  match v with
  | BOOLEAN b => [Z.b2z b]
  | INT i => to_le_signed 4 i
  | BIGINT i => to_le_signed 8 i
  | FLOAT f => to_le 8 f
  | TIMESTAMP t => to_le_signed 8 t
  | TEXT s => utf8 s
  end.

Definition SIGN_BIT_32 : Z := Z.shiftl 1 31.
Definition SIGN_BIT_64 : Z := Z.shiftl 1 63.

Definition TEXT_TERMINATOR : Z := 0.
Definition TEXT_ESCAPE : Z := 255.

Fixpoint encode_order_preserving_bytes (l : bytes) : bytes :=
  match l with
  | [] => [0; TEXT_TERMINATOR]
  | b :: l => (if b =? 0 then [b; TEXT_ESCAPE] else [b]) ++ encode_order_preserving_bytes l
  end.

Definition order_preserving_f64_bits (f : f64) : Z :=
  let canonical := if F64.is_nan f then F64.NAN else if F64.eqb f 0 then 0 else f in
  let bits := canonical in
  if Z.land bits SIGN_BIT_64 =? 0 then Z.lor bits SIGN_BIT_64 else Z.lxor bits (2 ^ 64 - 1).

Definition encode_order_preserving (v : Value) : bytes :=
  match v with
  | BOOLEAN b => [Z.b2z b]
  | INT i => to_be 4 (Z.lxor (i mod 2 ^ 32) SIGN_BIT_32)
  | BIGINT i | TIMESTAMP i => to_be 8 (Z.lxor (i mod 2 ^ 64) SIGN_BIT_64)
  | FLOAT f => to_be 8 (order_preserving_f64_bits f)
  | TEXT s => encode_order_preserving_bytes (utf8 s)
  end.

End Value.
Abbreviation Value := Value.Value.

(** ** Schemas and tuples *)

Inductive CatalogError : Type :=
| TupleSchemaMismatch
| ColumnType (column : str) (expected found : DataType)
| ColumnOutOfRange (column : str) (expected : DataType) (value : Value)
| ColumnTooLong (column : str) (expected : DataType) (n : Z)
| ColumnOutOfBounds
| RowTooLarge (size : Z)
| ColumnNotFound
| TableExists
| TableDoesNotExist
| TableCreationError (msg : str)
| IndexExists
| IndexDoesNotExist
| IndexCreationError (msg : str)
| TableOpenError (msg : str)
| IndexOpenError (msg : str).

Record Column : Type := mkColumn { c_name : str; c_dtype : DataType; c_offset : Z }.

Record Schema : Type := mkSchema { cols : list Column; data_len : Z; bitmap_len : Z }.

Module Catalog.

Import DataType.

(** [data.get(i)] and [data.get(lo..hi)] *)
Definition get_range (l : bytes) (lo hi : Z) : option bytes :=
  if (lo <=? hi) && (hi <=? len l) then Some (sub l lo (hi - lo)) else None.

Definition is_null (data : bytes) (col_idx : Z) : outcome CatalogError bool :=
  byte ← ok_or (data !! Z.to_nat (col_idx / 8)) TupleSchemaMismatch;
  Ok (Z.land (Z.shiftr byte (col_idx mod 8)) 1 =? 1).

Definition coerce (c : Column) (value : Value) : outcome CatalogError Value :=
  map_err (fun e => match e with
    | WrongType => ColumnType (c_name c) (c_dtype c) (Value.data_type value)
    | OutOfRange => ColumnOutOfRange (c_name c) (c_dtype c) value
    | TooLong n => ColumnTooLong (c_name c) (c_dtype c) n
    end) (Value.coerce_to value (c_dtype c)).

Definition payload_range (c : Column) : Z * Z := (c_offset c, c_offset c + fixed_width (c_dtype c)).

Definition text_descriptor (offset n : Z) : outcome CatalogError bytes :=
  let too_large := RowTooLarge (offset + n) in
  if negb (offset <=? u32_max) then Err too_large
  else if negb (n <=? u32_max) then Err too_large
  else Ok (to_le 4 offset ++ to_le 4 n).

Definition text_at (tuple descriptor : bytes) : outcome CatalogError Value :=
  w0 ← slice descriptor 0 4;
  w4 ← slice descriptor 4 8;
  let offset := of_le w0 in
  let n := of_le w4 in
  bytes ← ok_or (get_range tuple offset (offset + n)) TupleSchemaMismatch;
  text ← ok_or (from_utf8 bytes) TupleSchemaMismatch;
  Ok (Value.text text).

(** [bytes.try_into().unwrap()] to an array of [n] bytes *)
Definition to_array {E} (n : Z) (l : bytes) : outcome E bytes := if len l =? n then Ok l else Panic.

Definition decode (tuple bytes : bytes) (dtype : DataType) : outcome CatalogError Value :=
  match dtype with
  | BOOLEAN => b ← index bytes 0; Ok (Value.BOOLEAN (negb (b =? 0)))
  | INT => l ← to_array 4 bytes; Ok (Value.INT (Value.of_le_signed 4 l))
  | BIGINT => l ← to_array 8 bytes; Ok (Value.BIGINT (Value.of_le_signed 8 l))
  | FLOAT => l ← to_array 8 bytes; Ok (Value.float (of_le l))
  | TIMESTAMP => l ← to_array 8 bytes; Ok (Value.TIMESTAMP (Value.of_le_signed 8 l))
  | TEXT | VARCHAR _ | CHAR _ => text_at tuple bytes
  end.

Fixpoint new_cols (columns : list (DataType * str)) (offset : Z) : list Column * Z :=
  match columns with
  | [] => ([], offset)
  | (dtype, name) :: columns =>
      let '(cols, total) := new_cols columns (offset + fixed_width dtype) in
      (mkColumn name dtype offset :: cols, total)
  end.

(** [n.div_ceil(8)] *)
Definition div_ceil8 (n : Z) : Z := (n + 7) / 8.

Definition new (columns : list (DataType * str)) : Schema :=
  let '(cols, total) := new_cols columns 0 in
  mkSchema cols total (div_ceil8 (len columns)).

Definition get_value (s : Schema) (tuple : bytes) (col_idx : Z) : outcome CatalogError (option Value) :=
  col ← ok_or (cols s !! Z.to_nat col_idx) ColumnOutOfBounds;
  null ← is_null tuple col_idx;
  if (null : bool) then Ok None
  else
    let payload := if bitmap_len s <=? len tuple then Some (drop (Z.to_nat (bitmap_len s)) tuple) else None in
    bytes ← ok_or (p ← payload; let '(lo, hi) := payload_range col in get_range p lo hi) TupleSchemaMismatch;
    v ← decode tuple bytes (c_dtype col);
    Ok (Some v).

Definition zeros (n : Z) : bytes := replicate (Z.to_nat n) 0.

(** One column of a row: the fixed-width bytes, and where a text is to be described. *)
Definition encode_column (i : Z) (col : Column) (value : option Value) (data : bytes) (texts : list (Z * str))
    : outcome CatalogError (bytes * list (Z * str)) :=
  v ← match value with
      | Some v => c ← coerce col v; Ok (Some c)
      | None => Ok None
      end;
  match v with
  | Some (Value.TEXT s) => Ok (data ++ zeros TEXT_DESCRIPTOR_LEN, texts ++ [(len data, s)])
  | Some v => Ok (data ++ Value.encode v, texts)
  | None =>
      b ← index data (i / 8);
      data ← set_index data (i / 8) (Z.lor b (Z.shiftl 1 (i mod 8)));
      Ok (data ++ zeros (fixed_width (c_dtype col)), texts)
  end.

Fixpoint encode_columns (i : Z) (row : list (Column * option Value)) (data : bytes) (texts : list (Z * str))
    : outcome CatalogError (bytes * list (Z * str)) :=
  match row with
  | [] => Ok (data, texts)
  | (col, value) :: row =>
      '(data, texts) ← encode_column i col value data texts;
      encode_columns (i + 1) row data texts
  end.

Fixpoint encode_texts (texts : list (Z * str)) (data : bytes) : outcome CatalogError bytes :=
  match texts with
  | [] => Ok data
  | (descriptor_at, s) :: texts =>
      descriptor ← text_descriptor (len data) (len (utf8 s));
      data ← copy_from_slice data descriptor_at (descriptor_at + TEXT_DESCRIPTOR_LEN) descriptor;
      encode_texts texts (data ++ utf8 s)
  end.

Definition encode_tuple (s : Schema) (values : list (option Value)) : outcome CatalogError bytes :=
  if negb (len values =? len (cols s)) then Err TupleSchemaMismatch
  else
    '(data, texts) ← encode_columns 0 (zip (cols s) values) (zeros (bitmap_len s)) [];
    encode_texts texts data.

Fixpoint position (name : str) (l : list Column) : option Z :=
  match l with
  | [] => None
  | c :: l => if bool_decide (c_name c = name) then Some 0 else Z.succ <$> position name l
  end.

Definition col_idx (s : Schema) (name : str) : option Z := position name (cols s).

Definition TEXT_UPDATE_RESERVE : Z := PAGE_SIZE / 8.

Definition update_reserve (s : Schema) : Z :=
  if existsb (fun c => is_text (c_dtype c)) (cols s) then TEXT_UPDATE_RESERVE else 0.

End Catalog.
