(* ===== verification/ValueKeys.v ===== *)
(** * Index keys order like values

    The order-preserving encodings compare, byte by byte, as the values they encode do, and
    leave the comparison to what follows them when the values are equal: no encoding of a value
    is a proper prefix of another's. *)

From Stdlib Require Import ZArith Lia SpecFloat.
From stdpp Require Import base list numbers option.
From S2P Require Import Prelude Bytes Ids Buf Str Float64 Values.

Local Open Scope Z_scope.

Definition value_ok (v : Value) : Prop :=
  match v with
  | Value.BOOLEAN _ => True
  | Value.INT i => - 2 ^ 31 <= i < 2 ^ 31
  | Value.BIGINT i | Value.TIMESTAMP i => - 2 ^ 63 <= i < 2 ^ 63
  | Value.FLOAT f => F64.is_f64 f
  | Value.TEXT s => Forall is_scalar s
  end.

(** ** Flipping the top bit *)

Lemma land_pow2_small k x : 0 <= k -> 0 <= x < 2 ^ k -> Z.land x (2 ^ k) = 0.
Proof.
  intros Hk Hx. apply Z.bits_inj'. intros n Hn. rewrite Z.land_spec, Z.bits_0, Z.pow2_bits_eqb by done.
  destruct (Z.eqb_spec k n) as [<-|]; [|apply andb_false_r].
  rewrite <- (Z.mod_small x (2 ^ k)), Z.mod_pow2_bits_high by lia. done.
Qed.

Lemma lxor_pow2_small k x : 0 <= k -> 0 <= x < 2 ^ k -> Z.lxor x (2 ^ k) = x + 2 ^ k.
Proof. intros Hk Hx. symmetry. apply Z.add_nocarry_lxor. by apply land_pow2_small. Qed.

Lemma lxor_pow2_big k x : 0 <= k -> 0 <= x < 2 ^ k -> Z.lxor (x + 2 ^ k) (2 ^ k) = x.
Proof.
  intros Hk Hx. rewrite <- lxor_pow2_small by done. by rewrite Z.lxor_assoc, Z.lxor_nilpotent, Z.lxor_0_r.
Qed.

Lemma flip_sign k i : 0 <= k -> - 2 ^ k <= i < 2 ^ k -> Z.lxor (i mod 2 ^ (k + 1)) (2 ^ k) = i + 2 ^ k.
Proof.
  intros Hk Hi. rewrite Z.pow_add_r by lia. change (2 ^ 1) with 2. destruct (decide (0 <= i)).
  - rewrite Z.mod_small by lia. apply lxor_pow2_small; lia.
  - replace (i mod (2 ^ k * 2)) with ((i + 2 ^ k) + 2 ^ k).
    + apply lxor_pow2_big; lia.
    + apply (Z.mod_unique_pos _ _ (-1)); lia.
Qed.

Lemma land_pow2_big k x : 0 <= k -> 0 <= x < 2 ^ k -> Z.land (x + 2 ^ k) (2 ^ k) = 2 ^ k.
Proof.
  intros Hk Hx. rewrite <- lxor_pow2_small by done. apply Z.bits_inj'. intros n Hn.
  rewrite Z.land_spec, Z.lxor_spec, Z.pow2_bits_eqb by done. destruct (Z.eqb_spec k n) as [<-|]; [|apply andb_false_r].
  rewrite <- (Z.mod_small x (2 ^ k)), Z.mod_pow2_bits_high by lia. done.
Qed.

Lemma lxor_ones n x : 0 <= n -> 0 <= x < 2 ^ n -> Z.lxor x (2 ^ n - 1) = 2 ^ n - 1 - x.
Proof.
  intros Hn Hx. assert (E : x + Z.lxor x (2 ^ n - 1) = 2 ^ n - 1); [|lia].
  rewrite Z.add_nocarry_lxor.
  - by rewrite <- Z.lxor_assoc, Z.lxor_nilpotent, Z.lxor_0_l.
  - rewrite Z.sub_1_r, <- Z.ones_equiv. apply Z.bits_inj'. intros i Hi. rewrite Z.land_spec, Z.lxor_spec, Z.bits_0.
    destruct (decide (i < n)) as [Hlt|Hge].
    + rewrite Z.ones_spec_low by lia. by destruct (Z.testbit x i).
    + rewrite <- (Z.mod_small x (2 ^ n)), Z.mod_pow2_bits_high by lia. done.
Qed.

(** ** Floats *)

Lemma float_parts f : F64.is_f64 f -> f = F64.magnitude f + (if F64.negative f then 2 ^ 63 else 0) /\ 0 <= F64.magnitude f < 2 ^ 63.
Proof.
  unfold F64.is_f64, F64.magnitude, F64.negative, F64.SIGN_BIT_64. intros Hf.
  pose proof (Z.mod_pos_bound f (2 ^ 63) ltac:(lia)). split; [|done]. destruct (Z.leb_spec (2 ^ 63) f).
  - replace (f mod 2 ^ 63) with (f - 2 ^ 63); [lia|]. apply (Z.mod_unique_pos _ _ 1); lia.
  - rewrite Z.mod_small; lia.
Qed.

(** The bits of a number as the key encodes them. *)
Lemma float_bits f : F64.is_f64 f -> Value.order_preserving_f64_bits f =
  if F64.is_nan f then 2 ^ 63 + F64.NAN
  else let m := signed_magnitude f in if m <? 0 then 2 ^ 63 - 1 + m else 2 ^ 63 + m.
Proof.
  intros Hf. destruct (float_parts f Hf) as [Ef Hm]. unfold Value.order_preserving_f64_bits. cbv zeta.
  destruct (F64.is_nan f) eqn:En; [by vm_compute|]. unfold F64.eqb, SFeqb.
  rewrite value_order by done. change (signed_magnitude 0) with 0. change Value.SIGN_BIT_64 with (2 ^ 63).
  unfold signed_magnitude. set (m := F64.magnitude f) in *. destruct (F64.negative f).
  - destruct (Z.compare_spec (- m) 0) as [E|H|H]; [|rewrite Ef|lia].
    + assert (m = 0) as -> by lia. by vm_compute.
    + rewrite (proj2 (Z.ltb_lt _ _)), land_pow2_big by lia. cbn [Z.eqb]. rewrite (proj2 (Z.eqb_neq _ _)) by lia.
      rewrite lxor_ones by lia. lia.
  - rewrite (proj2 (Z.ltb_ge _ _)) by lia. destruct (Z.compare_spec m 0) as [E|H|H]; [|lia|rewrite Ef].
    + rewrite E. by vm_compute.
    + rewrite Z.add_0_r, land_pow2_small by lia. cbn [Z.eqb].
      rewrite <- Z.lxor_lor by (apply land_pow2_small; lia). rewrite lxor_pow2_small by lia. lia.
Qed.

Lemma float_bits_bound f : F64.is_f64 f -> 0 <= Value.order_preserving_f64_bits f < 2 ^ 64.
Proof.
  intros Hf. rewrite float_bits by done. destruct (float_parts f Hf) as [_ Hm]. unfold signed_magnitude. cbv zeta.
  destruct (F64.is_nan f); [by vm_compute|]. destruct (F64.negative f), (_ <? 0) eqn:E; try apply Z.ltb_lt in E; try apply Z.ltb_ge in E; lia.
Qed.

Section keys.
Context `{OrderedFloat}.

Lemma float_order f g : F64.is_f64 f -> F64.is_f64 g ->
  (Value.order_preserving_f64_bits f ?= Value.order_preserving_f64_bits g) = float_cmp f g.
Proof.
  intros Hf Hg. rewrite !float_bits by done. cbv zeta.
  assert (Hb : forall h, F64.is_f64 h -> F64.is_nan h = false -> - 2 ^ 63 < signed_magnitude h < F64.NAN).
  { intros h Hh En. destruct (float_parts h Hh) as [_ Hm]. rewrite is_nan_magnitude, Z.ltb_ge in En.
    unfold signed_magnitude, F64.NAN in *. destruct (F64.negative h); lia. }
  destruct (F64.is_nan f) eqn:Ef, (F64.is_nan g) eqn:Eg.
  - rewrite (float_cmp_nan f g Ef), Eg. apply Z.compare_refl.
  - rewrite (float_cmp_nan f g Ef), Eg. specialize (Hb g Hg Eg). apply Z.compare_gt_iff. destruct (_ <? 0); lia.
  - rewrite (float_cmp_to_nan f g Ef Eg). specialize (Hb f Hf Ef). apply Z.compare_lt_iff. destruct (_ <? 0); lia.
  - rewrite (float_cmp_number f g _ (value_order f g Ef Eg)).
    destruct (Z.compare_spec (signed_magnitude f) (signed_magnitude g)) as [E|Hl|Hl].
    + rewrite E. apply Z.compare_refl.
    + apply Z.compare_lt_iff. destruct (Z.ltb_spec (signed_magnitude f) 0), (Z.ltb_spec (signed_magnitude g) 0); lia.
    + apply Z.compare_gt_iff. destruct (Z.ltb_spec (signed_magnitude f) 0), (Z.ltb_spec (signed_magnitude g) 0); lia.
Qed.

(** ** Strings *)

Lemma text_orders l1 : forall l2, Forall is_byte l1 -> Forall is_byte l2 ->
  orders (lex Z.compare) Value.encode_order_preserving_bytes l1 l2.
Proof using.
  assert (Hnil : forall b l s t, is_byte b ->
    byte_order (Value.encode_order_preserving_bytes [] ++ s) (Value.encode_order_preserving_bytes (b :: l) ++ t) = Lt).
  { intros b l s t Hb. unfold is_byte in Hb. cbn [Value.encode_order_preserving_bytes]. unfold Value.TEXT_TERMINATOR, Value.TEXT_ESCAPE.
    destruct (Z.eqb_spec b 0) as [->|]; cbn [app]; rewrite !lex_cons; [done|]. by rewrite (proj2 (Z.compare_lt_iff 0 b)) by lia. }
  induction l1 as [|b l1 IH]; intros [|c l2] H1 H2 s t.
  - done.
  - apply Forall_cons_1 in H2 as [Hc _]. by apply Hnil.
  - apply Forall_cons_1 in H1 as [Hb _]. rewrite lex_antisym, Hnil by done. done.
  - apply Forall_cons_1 in H1 as [Hb H1]. apply Forall_cons_1 in H2 as [Hc H2]. unfold is_byte in *.
    cbn [Value.encode_order_preserving_bytes]. rewrite lex_cons, then_assoc, <- (IH l2 H1 H2 s t).
    destruct (Z.eqb_spec b 0) as [->|], (Z.eqb_spec c 0) as [->|]; cbn [app]; rewrite !lex_cons.
    + by rewrite !Z.compare_refl.
    + by rewrite (proj2 (Z.compare_lt_iff 0 c)) by lia.
    + by rewrite (proj2 (Z.compare_gt_iff b 0)) by lia.
    + by destruct (b ?= c).
Qed.

(** ** Values *)

Lemma value_orders v w : value_ok v -> value_ok w -> Value.data_type v = Value.data_type w ->
  orders Value.cmp Value.encode_order_preserving v w.
Proof.
  intros Hv Hw E s t.
  destruct v as [a|a|a|a|a|a], w as [b|b|b|b|b|b]; try done; cbn [Value.encode_order_preserving Value.cmp value_ok] in *.
  - by destruct a, b.
  - change Value.SIGN_BIT_32 with (2 ^ 31). change (2 ^ 32) with (2 ^ (31 + 1)). rewrite !flip_sign by lia.
    rewrite (to_be_orders 4 (a + 2 ^ 31) (b + 2 ^ 31)) by (cbn; lia). by rewrite !(Z.add_comm _ (2 ^ _)), Z.add_compare_mono_l.
  - change Value.SIGN_BIT_64 with (2 ^ 63). change (2 ^ 64) with (2 ^ (63 + 1)). rewrite !flip_sign by lia.
    rewrite (to_be_orders 8 (a + 2 ^ 63) (b + 2 ^ 63)) by (cbn; lia). by rewrite !(Z.add_comm _ (2 ^ _)), Z.add_compare_mono_l.
  - rewrite (to_be_orders 8) by (apply float_bits_bound; done). by rewrite float_order.
  - change Value.SIGN_BIT_64 with (2 ^ 63). change (2 ^ 64) with (2 ^ (63 + 1)). rewrite !flip_sign by lia.
    rewrite (to_be_orders 8 (a + 2 ^ 63) (b + 2 ^ 63)) by (cbn; lia). by rewrite !(Z.add_comm _ (2 ^ _)), Z.add_compare_mono_l.
  - rewrite text_orders by by apply utf8_bytes. done.
Qed.

(** Rows of values of the same types, and the keys made of them. *)
Definition same_types (vs ws : list Value) : Prop := Forall2 (fun v w => Value.data_type v = Value.data_type w) vs ws.

Lemma key_orders vs ws s t : Forall value_ok vs -> Forall value_ok ws -> same_types vs ws ->
  byte_order (concat (Value.encode_order_preserving <$> vs) ++ s) (concat (Value.encode_order_preserving <$> ws) ++ t) =
  then_cmp (lex Value.cmp vs ws) (byte_order s t).
Proof.
  intros Hv Hw Ht. apply orders_concat; [by eapply Forall2_length|].
  induction Ht as [|v w vs ws E _ IH]; [constructor|].
  apply Forall_cons_1 in Hv as [Hv Hvs]. apply Forall_cons_1 in Hw as [Hw Hws].
  constructor; [by apply value_orders|by apply IH].
Qed.

End keys.
