(* ===== verification/ValueTuples.v ===== *)
(** * Rows and their tuples

    What [Schema::encode_tuple] writes, column by column, and that [Schema::get_value] reads it
    back. *)

From Stdlib Require Import ZArith Lia.
From stdpp Require Import base list numbers option sets.
From S2P Require Import Prelude Bytes Ids Buf Str Float64 Values ValueKeys.
Import DataType Catalog.

Local Open Scope Z_scope.

(** ** Conversions keep to the types *)

Lemma trim_end_Forall (P : Z -> Prop) p s : Forall P s -> Forall P (trim_end_matches p s).
Proof. intros H. destruct (trim_end_split p s) as (t & E & _). rewrite E in H. by apply Forall_app in H as [? _]. Qed.

Lemma fit_ok s n w : Value.fit_chars s n = Ok w -> w = Value.TEXT s.
Proof. unfold Value.fit_chars. destruct (_ <=? _); [|done]. congruence. Qed.

Lemma coerce_ok v t w : Value.coerce_to v t = Ok w -> Value.data_type w = value_type t /\ (value_ok v -> value_ok w).
Proof.
  unfold Value.coerce_to, DataType.eqb. case_bool_decide as E.
  { intros [= <-]. subst t. by destruct v. }
  assert (Hf : forall i, F64.is_f64 (F64.of_int i)) by (intros; apply of_value_f64).
  destruct v as [b|i|i|f|x|s], t as [| | | | | |n|n]; try done.
  - intros [= <-]. cbn. split; [done|lia].
  - intros [= <-]. cbn. by split.
  - unfold in_i32. destruct (between _ _ i) eqn:Eb; [|done]. apply between_spec in Eb. intros [= <-]. cbn. split; [done|lia].
  - intros [= <-]. cbn. by split.
  - intros ->%fit_ok. by split.
  - intros ->%fit_ok. split; [done|]. apply trim_end_Forall.
Qed.

Lemma coerce_col_ok c v w : coerce c v = Ok w -> Value.data_type w = value_type (c_dtype c) /\ (value_ok v -> value_ok w).
Proof.
  unfold coerce, map_err. destruct (Value.coerce_to v (c_dtype c)) eqn:E; [|done..]. intros [= <-]. by apply coerce_ok.
Qed.

(** ** Fixed-width values *)

Definition enc_fixed (w : option Value) (t : DataType) : bytes :=
  match w with
  | Some (Value.TEXT _) => zeros TEXT_DESCRIPTOR_LEN
  | Some v => Value.encode v
  | None => zeros (fixed_width t)
  end.

Lemma width_pos t : 0 < fixed_width t.
Proof. destruct t; cbn; unfold TEXT_DESCRIPTOR_LEN; lia. Qed.

Lemma len_zeros n : 0 <= n -> len (zeros n) = n.
Proof. intros Hn. unfold zeros. rewrite length_replicate. lia. Qed.

Definition typed (w : option Value) (t : DataType) : Prop :=
  from_option (fun v => Value.data_type v = value_type t /\ value_ok v) True w.

Lemma len_enc_fixed w t : typed w t -> len (enc_fixed w t) = fixed_width t.
Proof.
  destruct w as [v|]; [|intros _; apply len_zeros; pose proof (width_pos t); lia]. intros [Ht _].
  destruct v, t; try done; cbn; rewrite ?length_to_le; reflexivity.
Qed.

Lemma signed_roundtrip n i : 0 < 256 ^ Z.of_nat n -> Z.Even (256 ^ Z.of_nat n) -> - (256 ^ Z.of_nat n / 2) <= i < 256 ^ Z.of_nat n / 2 ->
  Value.of_le_signed n (Value.to_le_signed n i) = i.
Proof.
  intros Hp [h Eh] Hi. unfold Value.of_le_signed, Value.to_le_signed. set (N := 256 ^ Z.of_nat n) in *.
  rewrite of_to_le by (apply Z.mod_pos_bound; lia). assert (E2 : N / 2 = h) by (rewrite Eh, Z.mul_comm, Z.div_mul; lia).
  rewrite E2 in *. destruct (decide (0 <= i)).
  - rewrite Z.mod_small by lia. rewrite (proj2 (Z.ltb_lt _ _)) by lia. done.
  - replace (i mod N) with (i + N); [|apply (Z.mod_unique_pos _ _ (-1)); lia].
    rewrite (proj2 (Z.ltb_ge _ _)) by lia. lia.
Qed.

Lemma to_array_ok {E} n l : len l = n -> to_array (E := E) n l = Ok l.
Proof. intros <-. unfold to_array. by rewrite Z.eqb_refl. Qed.

(** What a column that is not text is decoded to. *)
Lemma decode_fixed tuple v t : typed (Some v) t -> is_text t = false -> decode tuple (Value.encode v) t = Ok v.
Proof.
  intros [Ht Hv] Hn. assert (E8 : Z.Even (256 ^ Z.of_nat 8)) by (exists (2 ^ 63); reflexivity).
  assert (E4 : Z.Even (256 ^ Z.of_nat 4)) by (exists (2 ^ 31); reflexivity).
  destruct v as [b|i|i|f|x|s], t; try done; unfold decode; cbn [Value.encode value_ok] in *.
  - by destruct b.
  - rewrite to_array_ok by (unfold Value.to_le_signed; by rewrite length_to_le). cbn [mbind outcome_bind].
    rewrite signed_roundtrip; [done|done|done|]. change (256 ^ Z.of_nat 4 / 2) with (2 ^ 31). lia.
  - rewrite to_array_ok by (unfold Value.to_le_signed; by rewrite length_to_le). cbn [mbind outcome_bind].
    rewrite signed_roundtrip; [done|done|done|]. change (256 ^ Z.of_nat 8 / 2) with (2 ^ 63). lia.
  - rewrite to_array_ok by by rewrite length_to_le. cbn [mbind outcome_bind].
    rewrite of_to_le; [done|]. change (256 ^ Z.of_nat 8) with (2 ^ 64). exact Hv.
  - rewrite to_array_ok by (unfold Value.to_le_signed; by rewrite length_to_le). cbn [mbind outcome_bind].
    rewrite signed_roundtrip; [done|done|done|]. change (256 ^ Z.of_nat 8 / 2) with (2 ^ 63). lia.
Qed.

(** ** The null bitmap *)

Definition bit (data : bytes) (j : Z) : bool := Z.testbit (byte_at data (j / 8)) (j mod 8).

Lemma is_null_bit data j : 0 <= j -> j / 8 < len data -> is_null data j = Ok (bit data j).
Proof.
  intros Hj Hl. pose proof (Z.div_pos j 8 Hj ltac:(lia)). pose proof (Z.mod_pos_bound j 8 ltac:(lia)). unfold is_null.
  destruct (lookup_lt_is_Some_2 data (Z.to_nat (j / 8))) as [b Eb]; [lia|]. rewrite Eb. cbn [ok_or mbind outcome_bind].
  f_equal. unfold bit, byte_at. rewrite (nth_lookup_Some _ _ 0 b Eb).
  rewrite Z.testbit_odd. change 1 with (Z.ones 1) at 1. rewrite Z.land_ones by lia. change (2 ^ 1) with 2.
  rewrite Zmod_odd. by destruct (Z.odd _).
Qed.

Definition mark (data : bytes) (i : Z) : bytes := splice data (i / 8) [Z.lor (byte_at data (i / 8)) (Z.shiftl 1 (i mod 8))].

Lemma byte_at_single x : byte_at [x] 0 = x.
Proof. done. Qed.

Lemma mark_bit data i j : 0 <= i -> 0 <= j -> i / 8 < len data -> bit (mark data i) j = bit data j || (i =? j).
Proof.
  intros Hi Hj Hl. pose proof (Z.div_pos i 8 Hi ltac:(lia)). pose proof (Z.div_pos j 8 Hj ltac:(lia)).
  pose proof (Z.mod_pos_bound i 8 ltac:(lia)). pose proof (Z.mod_pos_bound j 8 ltac:(lia)).
  unfold bit, mark. destruct (decide (j / 8 = i / 8)) as [E|Hne].
  - rewrite E. rewrite byte_at_splice_in by (cbn; lia). rewrite Z.sub_diag, byte_at_single.
    rewrite Z.lor_spec, Z.shiftl_spec by lia. f_equal. destruct (Z.eqb_spec i j) as [->|Hij].
    + by rewrite Z.sub_diag.
    + assert (i mod 8 <> j mod 8) by (pose proof (Z.div_mod i 8); pose proof (Z.div_mod j 8); lia).
      change 1 with (2 ^ 0). destruct (decide (i mod 8 < j mod 8)).
      * rewrite Z.pow2_bits_eqb by lia. apply Z.eqb_neq. lia.
      * by rewrite Z.testbit_neg_r by lia.
  - rewrite byte_at_splice_out by (cbn; lia). rewrite (proj2 (Z.eqb_neq i j)) by congruence. by rewrite orb_false_r.
Qed.

(** ** Columns *)

Definition coerced (cv : Column * option Value) (w : option Value) : Prop :=
  match cv.2 with
  | None => w = None
  | Some v => exists x, coerce cv.1 v = Ok x /\ w = Some x
  end.

Definition texts_of (bm : Z) (cw : list (Column * option Value)) : list (Z * str) :=
  omap (fun cw => match cw.2 with Some (Value.TEXT s) => Some (bm + c_offset cw.1, s) | _ => None end) cw.

Lemma encode_column_spec bm i c v data texts data' texts' :
  encode_column i c v data texts = Ok (data', texts') -> from_option value_ok True v ->
  0 <= i < 8 * bm -> len data = bm + c_offset c -> 0 <= c_offset c ->
  exists w, coerced (c, v) w /\ typed w (c_dtype c) /\
    data' = (if w then data else mark data i) ++ enc_fixed w (c_dtype c) /\
    texts' = texts ++ texts_of bm [(c, w)].
Proof.
  intros He Hv Hi Hl Ho. unfold encode_column in He. destruct v as [v|].
  - destruct (coerce c v) as [x| |] eqn:Ec; [|done..]. cbn [mbind outcome_bind] in He.
    destruct (coerce_col_ok c v x Ec) as [Ht Hok]. exists (Some x). split; [by exists x|]. split; [split; auto|].
    destruct x; injection He as <- <-; unfold texts_of; cbn; rewrite ?app_nil_r; try done.
    split; [done|]. by rewrite Hl.
  - cbn [mbind outcome_bind] in He. pose proof (Z.div_pos i 8 ltac:(lia) ltac:(lia)).
    assert (i / 8 < len data) by (rewrite Hl; assert (i / 8 < bm) by (apply Z.div_lt_upper_bound; lia); lia).
    rewrite index_ok in He by lia. cbn [mbind outcome_bind] in He. rewrite set_index_ok in He by lia.
    cbn [mbind outcome_bind] in He. injection He as <- <-. exists None. split; [done|]. split; [done|].
    split; [done|]. unfold texts_of. cbn. by rewrite app_nil_r.
Qed.

(** Columns one after another from [off]. *)
Fixpoint laid (off : Z) (cs : list Column) : Prop :=
  match cs with
  | [] => True
  | c :: cs => c_offset c = off /\ laid (off + fixed_width (c_dtype c)) cs
  end.

Definition widths (cs : list Column) : Z := foldr (fun c n => fixed_width (c_dtype c) + n) 0 cs.

Lemma new_cols_laid columns : forall off, let '(cs, total) := new_cols columns off in
  laid off cs /\ total = off + widths cs /\ length cs = length columns /\ c_dtype <$> cs = columns.*1.
Proof.
  induction columns as [|[t n] columns IH]; intros off; cbn; [split_and!; [done|lia|done|done]|].
  specialize (IH (off + fixed_width t)). destruct (new_cols columns (off + fixed_width t)) as [cs total].
  destruct IH as (H1 & H2 & H3 & H4).
  split_and!; [by split| |cbn; by rewrite H3|csimpl; by rewrite H4].
  change (widths (mkColumn n t off :: cs)) with (fixed_width t + widths cs). lia.
Qed.

Lemma widths_nonneg cs : 0 <= widths cs.
Proof. induction cs as [|c cs IH]; [done|]. change (widths (c :: cs)) with (fixed_width (c_dtype c) + widths cs). pose proof (width_pos (c_dtype c)). lia. Qed.

Lemma len_mark data i : len (mark data i) = len data.
Proof. unfold mark. by rewrite length_splice. Qed.

Lemma sub_mark bm data i p n : 0 <= i < 8 * bm -> bm <= p -> 0 <= n -> p + n <= len data -> sub (mark data i) p n = sub data p n.
Proof.
  intros Hi Hp Hn Hpn. unfold mark. pose proof (Z.div_pos i 8 ltac:(lia) ltac:(lia)).
  assert (i / 8 < bm) by (apply Z.div_lt_upper_bound; lia). apply sub_splice_disjoint; cbn; lia.
Qed.

Lemma bit_app data l j : 0 <= j -> j / 8 < len data -> bit (data ++ l) j = bit data j.
Proof.
  intros Hj Hl. pose proof (Z.div_pos j 8 Hj ltac:(lia)). unfold bit, byte_at. by rewrite app_nth1 by lia.
Qed.

Definition null_at (ws : list (option Value)) (k : nat) : bool :=
  match ws !! k with Some None => true | _ => false end.

Lemma encode_columns_spec bm cs : forall i off vals data texts data' texts',
  encode_columns i (zip cs vals) data texts = Ok (data', texts') -> length vals = length cs ->
  Forall (from_option value_ok True) vals -> laid off cs -> 0 <= off -> 0 <= i -> i + len cs <= 8 * bm -> len data = bm + off ->
  exists ws, Forall2 coerced (zip cs vals) ws /\ length ws = length cs /\
    len data' = bm + off + widths cs /\
    (forall p n, bm <= p -> 0 <= n -> p + n <= len data -> sub data' p n = sub data p n) /\
    (forall j, 0 <= j < 8 * bm -> bit data' j = bit data j || (i <=? j) && null_at ws (Z.to_nat (j - i))) /\
    (forall k c w, cs !! k = Some c -> ws !! k = Some w -> typed w (c_dtype c) /\
       sub data' (bm + c_offset c) (fixed_width (c_dtype c)) = enc_fixed w (c_dtype c)) /\
    texts' = texts ++ texts_of bm (zip cs ws).
Proof.
  induction cs as [|c cs IH]; intros i off vals data texts data' texts' He Hlen Hok Hlaid Hoff Hi Hbm Hdata.
  { destruct vals; [|done]. cbn in He. injection He as <- <-. exists []. cbn. split_and!; try done; [lia| |by rewrite app_nil_r].
    intros j Hj. by rewrite andb_false_r, orb_false_r. }
  destruct vals as [|v vals]; [done|]. injection Hlen as Hlen. apply Forall_cons_1 in Hok as [Hv Hok].
  destruct Hlaid as [Eo Hlaid]. cbn [zip zip_with encode_columns] in He.
  destruct (encode_column i c v data texts) as [[d1 t1]| |] eqn:E1; [|done..]. cbn [mbind outcome_bind] in He.
  pose proof (width_pos (c_dtype c)) as Hw. rewrite length_cons in Hbm.
  destruct (encode_column_spec bm i c v data texts d1 t1 E1 Hv ltac:(lia) ltac:(lia) ltac:(lia)) as (w & Hc & Ht & Ed & Et).
  assert (Hm : len (if w then data else mark data i) = len data) by (destruct w; [done|apply len_mark]).
  pose proof (len_enc_fixed w (c_dtype c) Ht) as Hfix.
  assert (Hd1 : len d1 = bm + (off + fixed_width (c_dtype c))) by (rewrite Ed, length_app, Nat2Z.inj_add, Hm, Hfix; lia).
  destruct (IH (i + 1) (off + fixed_width (c_dtype c)) vals d1 t1 data' texts' He Hlen Hok Hlaid ltac:(lia) ltac:(lia) ltac:(lia) Hd1)
    as (ws & Hcs & Hlw & H1 & H2 & H3 & H4 & H5).
  assert (Hold : forall p n, bm <= p -> 0 <= n -> p + n <= len data -> sub d1 p n = sub data p n).
  { intros p n Hp Hn Hpn. rewrite Ed, sub_app_lt by lia. destruct w; [done|]. apply (sub_mark bm); lia. }
  exists (w :: ws). split_and!.
  - by constructor.
  - cbn. by rewrite Hlw.
  - change (widths (c :: cs)) with (fixed_width (c_dtype c) + widths cs). lia.
  - intros p n Hp Hn Hpn. rewrite H2 by lia. by apply Hold.
  - intros j Hj. rewrite H3 by done. rewrite Ed, bit_app by (try lia; rewrite Hm; assert (j / 8 < bm) by (apply Z.div_lt_upper_bound; lia); lia).
    destruct (decide (j = i)) as [->|Hne].
    + rewrite Z.sub_diag, (proj2 (Z.leb_gt (i + 1) i)), Z.leb_refl by lia. cbn [andb]. rewrite orb_false_r.
      change (null_at (w :: ws) (Z.to_nat 0)) with (match w with None => true | _ => false end).
      destruct w; [by rewrite orb_false_r|]. rewrite mark_bit, Z.eqb_refl; [done|lia..|].
      assert (i / 8 < bm) by (apply Z.div_lt_upper_bound; lia). lia.
    + assert (Eb : bit (if w then data else mark data i) j = bit data j).
      { destruct w; [done|]. rewrite mark_bit; [|lia..|].
        - rewrite (proj2 (Z.eqb_neq i j)) by lia. apply orb_false_r.
        - assert (i / 8 < bm) by (apply Z.div_lt_upper_bound; lia). lia. }
      rewrite Eb. apply (f_equal (orb (bit data j))). destruct (Z.leb_spec (i + 1) j), (Z.leb_spec i j); try (lia || done). cbn [andb].
      by replace (Z.to_nat (j - i)) with (S (Z.to_nat (j - (i + 1)))) by lia.
  - intros [|k] c' w' Ec Ew; cbn in Ec, Ew; [|by apply (H4 k)]. injection Ec as <-. injection Ew as <-. split; [done|].
    rewrite H2 by lia. rewrite Ed. replace (bm + c_offset c) with (len (if w then data else mark data i)) by lia.
    rewrite <- Hfix. rewrite sub_app_r by lia. rewrite Z.sub_diag. apply sub_all.
  - rewrite H5, Et, <- app_assoc. f_equal. unfold texts_of. cbn. by destruct w as [[]|].
Qed.

(** ** Text *)

(** The descriptors lie one after another in the data. *)
Fixpoint spaced (lo hi : Z) (texts : list (Z * str)) : Prop :=
  match texts with
  | [] => lo <= hi
  | (at_, _) :: texts => lo <= at_ /\ spaced (at_ + TEXT_DESCRIPTOR_LEN) hi texts
  end.

Lemma spaced_le texts : forall lo hi, spaced lo hi texts -> lo <= hi.
Proof.
  induction texts as [|[a s] texts IH]; intros lo hi; cbn; [done|]. intros [H1 H2%IH]. unfold TEXT_DESCRIPTOR_LEN in *. lia.
Qed.

Lemma spaced_in texts : forall lo hi a s, spaced lo hi texts -> (a, s) ∈ texts -> lo <= a /\ a + TEXT_DESCRIPTOR_LEN <= hi.
Proof.
  induction texts as [|[a0 s0] texts IH]; intros lo hi a s Hs Hin; [by apply elem_of_nil in Hin|].
  destruct Hs as [H1 H2]. apply list.elem_of_cons in Hin as [[= -> ->]|Hin].
  - split; [done|]. by eapply spaced_le.
  - destruct (IH _ _ a s H2 Hin). unfold TEXT_DESCRIPTOR_LEN in *. lia.
Qed.

Definition apart (p n a : Z) : Prop := p + n <= a \/ a + TEXT_DESCRIPTOR_LEN <= p.

(** A descriptor and the text it points at. *)
Definition describes (data : bytes) (a : Z) (s : str) : Prop := exists off,
  0 <= off <= u32_max /\ len (utf8 s) <= u32_max /\ off + len (utf8 s) <= len data /\
  sub data a TEXT_DESCRIPTOR_LEN = to_le 4 off ++ to_le 4 (len (utf8 s)) /\ sub data off (len (utf8 s)) = utf8 s.

Lemma encode_texts_spec texts : forall lo hi data data', encode_texts texts data = Ok data' ->
  spaced lo hi texts -> 0 <= lo -> hi <= len data ->
  len data <= len data' /\
  (forall p n, 0 <= p -> 0 <= n -> p + n <= len data -> (forall a s, (a, s) ∈ texts -> apart p n a) -> sub data' p n = sub data p n) /\
  (forall a s, (a, s) ∈ texts -> describes data' a s).
Proof.
  induction texts as [|[a s] texts IH]; intros lo hi data data' He Hsp Hlo Hhi; cbn [encode_texts] in He.
  { injection He as <-. split_and!; [lia|done|]. by intros a s ?%elem_of_nil. }
  destruct Hsp as [Ha Hsp]. pose proof (spaced_le _ _ _ Hsp) as Hle. change TEXT_DESCRIPTOR_LEN with 8 in *.
  unfold text_descriptor in He. destruct (Z.leb_spec (len data) u32_max) as [Ho|]; [|done].
  destruct (Z.leb_spec (len (utf8 s)) u32_max) as [Hs|]; [|done]. cbn [negb mbind outcome_bind] in He.
  set (d := to_le 4 (len data) ++ to_le 4 (len (utf8 s))) in *.
  assert (Hd : len d = 8) by (unfold d; rewrite length_app, !length_to_le; done).
  rewrite copy_from_slice_ok in He by lia. cbn [mbind outcome_bind] in He. set (d1 := splice data a d ++ utf8 s) in *.
  assert (Hd1 : len d1 = len data + len (utf8 s)) by (unfold d1; rewrite length_app, length_splice; lia).
  destruct (IH (a + 8) hi d1 data' He Hsp ltac:(lia) ltac:(lia)) as (H1 & H2 & H3).
  assert (Hrest : forall a' s', (a', s') ∈ texts -> a + 8 <= a' /\ a' + 8 <= hi) by (intros a' s'; by apply spaced_in).
  split_and!; [lia| |].
  - intros p n Hp Hn Hpn Hap. rewrite H2; [|lia..|].
    + unfold d1. rewrite sub_app_lt by (rewrite ?length_splice; lia). pose proof (Hap a s ltac:(set_solver)) as Hx.
      unfold apart in Hx. change TEXT_DESCRIPTOR_LEN with 8 in Hx. apply sub_splice_disjoint; lia.
    + intros a' s' Hin. apply (Hap a' s'). set_solver.
  - intros a' s' [[= -> ->]|Hin]%list.elem_of_cons; [|by apply H3]. exists (len data).
    change TEXT_DESCRIPTOR_LEN with 8. split_and!; [lia..| |].
    + rewrite H2; [|lia..|]. 
      * unfold d1. rewrite sub_app_lt by (rewrite ?length_splice; lia). rewrite <- Hd. apply sub_splice_same; [lia|fold d; lia].
      * intros b t Hb. destruct (Hrest b t Hb). unfold apart. lia.
    + rewrite H2; [|lia..|].
      * unfold d1. rewrite sub_app_r by (rewrite ?length_splice; lia). rewrite length_splice, Z.sub_diag. apply sub_all.
      * intros b t Hb. destruct (Hrest b t Hb). unfold apart. change TEXT_DESCRIPTOR_LEN with 8. lia.
Qed.

Lemma text_at_described data a s : describes data a s -> Forall is_scalar s -> 
  text_at data (sub data a TEXT_DESCRIPTOR_LEN) = Ok (Value.TEXT s).
Proof.
  intros (off & Ho & Hs & Hlen & Ed & Et) Hsc. rewrite Ed. unfold text_at.
  assert (Hb : 2 ^ 32 = 256 ^ Z.of_nat 4) by done. unfold u32_max in *.
  set (d := to_le 4 off ++ to_le 4 (len (utf8 s))).
  assert (Hd : len d = 8) by (unfold d; rewrite length_app, !length_to_le; done).
  rewrite !slice_ok by lia. cbn [mbind outcome_bind].
  change (sub d 0 (4 - 0)) with (to_le 4 off). change (sub d 4 (8 - 4)) with (to_le 4 (len (utf8 s))).
  rewrite !of_to_le by lia. unfold get_range. rewrite (proj2 (Z.leb_le _ _)), (proj2 (Z.leb_le _ _)) by lia.
  cbn [andb ok_or mbind outcome_bind]. replace (off + len (utf8 s) - off) with (len (utf8 s)) by lia.
  rewrite Et. cbn. by rewrite from_utf8_utf8.
Qed.

(** ** Whole rows *)

Lemma laid_nth cs : forall off k c, laid off cs -> cs !! k = Some c -> off <= c_offset c /\ c_offset c + fixed_width (c_dtype c) <= off + widths cs.
Proof.
  induction cs as [|c0 cs IH]; intros off [|k] c Hl Hk; try done; destruct Hl as [E Hl]; cbn in Hk;
    change (widths (c0 :: cs)) with (fixed_width (c_dtype c0) + widths cs); pose proof (widths_nonneg cs); pose proof (width_pos (c_dtype c0)).
  - injection Hk as ->. lia.
  - destruct (IH _ k c Hl Hk). lia.
Qed.

Lemma laid_apart cs : forall off k1 k2 c1 c2, laid off cs -> cs !! k1 = Some c1 -> cs !! k2 = Some c2 -> k1 <> k2 ->
  c_offset c1 + fixed_width (c_dtype c1) <= c_offset c2 \/ c_offset c2 + fixed_width (c_dtype c2) <= c_offset c1.
Proof.
  induction cs as [|c0 cs IH]; intros off [|k1] [|k2] c1 c2 Hl H1 H2 Hne; try done; destruct Hl as [E Hl]; cbn in H1, H2.
  - injection H1 as ->. destruct (laid_nth cs _ k2 c2 Hl H2). lia.
  - injection H2 as ->. destruct (laid_nth cs _ k1 c1 Hl H1). lia.
  - apply (IH (off + fixed_width (c_dtype c0)) k1 k2); try done. congruence.
Qed.

Lemma texts_spaced bm cs : forall ws off, laid off cs -> length ws = length cs ->
  (forall k c w, cs !! k = Some c -> ws !! k = Some w -> typed w (c_dtype c)) ->
  spaced (bm + off) (bm + off + widths cs) (texts_of bm (zip cs ws)).
Proof.
  induction cs as [|c cs IH]; intros [|w ws] off Hl Hlen Hty; try done.
  { cbn. lia. }
  destruct Hl as [E Hl]. injection Hlen as Hlen. pose proof (width_pos (c_dtype c)) as Hw.
  change (widths (c :: cs)) with (fixed_width (c_dtype c) + widths cs).
  specialize (IH ws _ Hl Hlen (fun k => Hty (S k))).
  assert (Hweak : forall lo lo' hi l, spaced lo hi l -> lo' <= lo -> spaced lo' hi l).
  { intros lo lo' hi [|[a s] l] Hs Hle; cbn in *; [lia|]. destruct Hs. split; [lia|done]. }
  replace (bm + off + (fixed_width (c_dtype c) + widths cs)) with (bm + (off + fixed_width (c_dtype c)) + widths cs) by lia.
  unfold texts_of in *. cbn. destruct w as [[]|]; try (eapply Hweak; [exact IH|lia]).
  cbn. split; [lia|]. destruct (Hty 0%nat c _ eq_refl eq_refl) as [Ht _].
  assert (Ewid : fixed_width (c_dtype c) = TEXT_DESCRIPTOR_LEN) by (destruct (c_dtype c); done).
  rewrite E, <- Ewid. by replace (bm + off + fixed_width (c_dtype c)) with (bm + (off + fixed_width (c_dtype c))) by lia.
Qed.

Lemma texts_in bm cs ws a s : length ws = length cs -> (a, s) ∈ texts_of bm (zip cs ws) ->
  exists k c, cs !! k = Some c /\ ws !! k = Some (Some (Value.TEXT s)) /\ a = bm + c_offset c.
Proof.
  intros Hlen. unfold texts_of. rewrite list_elem_of_omap. intros ([c w] & Hin & E). cbn in E.
  apply list_elem_of_lookup in Hin as [k Hk]. apply lookup_zip_with_Some in Hk as (c' & w' & [= <- <-] & Hc & Hw).
  destruct w as [[]|]; simplify_eq. eauto.
Qed.

Lemma texts_here bm cs ws k c s : cs !! k = Some c -> ws !! k = Some (Some (Value.TEXT s)) -> (bm + c_offset c, s) ∈ texts_of bm (zip cs ws).
Proof.
  intros Hc Hw. unfold texts_of. apply list_elem_of_omap. exists (c, Some (Value.TEXT s)). split; [|done].
  apply (list_elem_of_lookup_2 _ k). apply lookup_zip_with_Some. eauto.
Qed.

Lemma bit_zeros n j : bit (zeros n) j = false.
Proof.
  unfold bit, byte_at, zeros. assert (E : forall n i, nth i (replicate n 0) 0 = 0).
  { clear. induction n as [|n IH]; intros [|i]; cbn; auto. }
  by rewrite E, Z.bits_0.
Qed.

Lemma bitmap_covers n : 0 <= n -> n <= 8 * div_ceil8 n /\ 0 <= div_ceil8 n.
Proof. intros Hn. unfold div_ceil8. pose proof (Z.div_mod (n + 7) 8 ltac:(lia)). pose proof (Z.mod_pos_bound (n + 7) 8 ltac:(lia)). lia. Qed.

(** What a row of values is in a column: nothing for NULL, and otherwise the value converted to
    the column's type. *)
Definition stored (c : Column) (v w : option Value) : Prop := coerced (c, v) w.

Lemma row_encoded columns vals t :
  let s := Catalog.new columns in
  encode_tuple s vals = Ok t -> Forall (from_option value_ok True) vals ->
  exists ws, length ws = length (cols s) /\ Forall2 coerced (zip (cols s) vals) ws /\
    forall k c w, cols s !! k = Some c -> ws !! k = Some w -> get_value s t (Z.of_nat k) = Ok w.
Proof.
  cbv zeta. unfold Catalog.new. pose proof (new_cols_laid columns 0) as Hnew.
  destruct (new_cols columns 0) as [cs total]. destruct Hnew as (Hlaid & Htot & Hlc & _). cbn [cols bitmap_len data_len].
  unfold encode_tuple. cbn [cols bitmap_len]. destruct (Z.eqb_spec (len vals) (len cs)) as [Hlv|]; [|done]. cbn [negb].
  intros He Hok. set (bm := div_ceil8 (len columns)) in *. destruct (bitmap_covers (len columns) ltac:(lia)) as [Hbm Hbm0]. fold bm in Hbm, Hbm0.
  destruct (encode_columns 0 (zip cs vals) (zeros bm) []) as [[d texts]| |] eqn:Ec; [|done..]. cbn [mbind outcome_bind] in He.
  destruct (encode_columns_spec bm cs 0 0 vals (zeros bm) [] d texts Ec ltac:(lia) Hok Hlaid ltac:(lia) ltac:(lia) ltac:(lia)
    ltac:(rewrite len_zeros; lia)) as (ws & Hcw & Hlw & H1 & _ & H3 & H4 & H5). cbn [app] in H5. subst texts.
  exists ws. split; [done|]. split; [done|].
  assert (Hsp : spaced (bm + 0) (bm + 0 + widths cs) (texts_of bm (zip cs ws))).
  { apply texts_spaced; [done..|]. intros k c w Hc Hw. by destruct (H4 k c w Hc Hw). }
  destruct (encode_texts_spec _ _ _ d t He Hsp ltac:(lia) ltac:(lia)) as (G1 & G2 & G3).
  intros k c w Hc Hw. destruct (H4 k c w Hc Hw) as [Ht Hsub]. pose proof (laid_nth cs 0 k c Hlaid Hc) as Hpos.
  pose proof (width_pos (c_dtype c)) as Hwid. pose proof (lookup_lt_Some _ _ _ Hc) as Hk.
  assert (Hk8 : Z.of_nat k / 8 < bm) by (apply Z.div_lt_upper_bound; lia).
  assert (Hbit : bit t (Z.of_nat k) = match w with None => true | _ => false end).
  { assert (Ebit : bit t (Z.of_nat k) = bit d (Z.of_nat k)).
    { unfold bit. f_equal. pose proof (Z.div_pos (Z.of_nat k) 8 ltac:(lia) ltac:(lia)) as Hd8.
      pose proof (G2 (Z.of_nat k / 8) 1 ltac:(lia) ltac:(lia) ltac:(lia)) as Hb.
      assert (Ha : sub t (Z.of_nat k / 8) 1 = sub d (Z.of_nat k / 8) 1).
      { apply Hb. intros a s (k' & c' & Hc' & _ & ->)%texts_in; [|done]. pose proof (laid_nth cs 0 k' c' Hlaid Hc').
        unfold apart. lia. }
      apply (f_equal (fun l => byte_at l 0)) in Ha. rewrite !byte_at_sub in Ha by lia. by rewrite Z.add_0_r in Ha. }
    rewrite Ebit, H3 by lia. rewrite bit_zeros. cbn [orb]. rewrite (proj2 (Z.leb_le _ _)) by lia. cbn [andb].
    unfold null_at. replace (Z.to_nat (Z.of_nat k - 0)) with k by lia. rewrite Hw. by destruct w. }
  unfold get_value. cbn [cols bitmap_len]. rewrite Nat2Z.id, Hc. cbn [ok_or mbind outcome_bind].
  rewrite is_null_bit by lia. cbn [mbind outcome_bind]. rewrite Hbit. destruct w as [v|]; [|done].
  rewrite (proj2 (Z.leb_le bm (len t))) by lia. cbn [mbind option_bind payload_range]. unfold get_range.
  rewrite length_drop. rewrite (proj2 (Z.leb_le _ _)), (proj2 (Z.leb_le _ _)) by lia. cbn [andb ok_or mbind outcome_bind].
  set (raw := sub (drop _ t) _ _).
  assert (Eraw : raw = sub t (bm + c_offset c) (fixed_width (c_dtype c))).
  { unfold raw, sub. rewrite drop_drop. f_equal; [f_equal; lia|f_equal; lia]. }
  rewrite Eraw. clear raw Eraw. destruct (is_text (c_dtype c)) eqn:Etext.
  - destruct Ht as [Hty Hvok]. assert (Hv : exists s, v = Value.TEXT s) by (destruct v, (c_dtype c); try done; eauto).
    destruct Hv as [s ->]. assert (Ewid : fixed_width (c_dtype c) = TEXT_DESCRIPTOR_LEN) by (destruct (c_dtype c); done).
    pose proof (text_at_described t (bm + c_offset c) s (G3 _ _ (texts_here bm cs ws k c s Hc Hw)) Hvok) as Hta.
    rewrite Ewid. destruct (c_dtype c); try done; cbn [decode]; by rewrite Hta.
  - assert (Hns : match v with Value.TEXT _ => False | _ => True end).
    { destruct Ht as [Hty _]. destruct v, (c_dtype c); done. }
    rewrite G2; [|lia..|].
    + rewrite Hsub. cbn [enc_fixed]. destruct v; try done; by rewrite decode_fixed.
    + intros a s (k' & c' & Hc' & Hw' & ->)%texts_in; [|done].
      assert (Hne : k <> k') by (intros <-; rewrite Hw in Hw'; injection Hw' as ->; done).
      pose proof (laid_apart cs 0 k k' c c' Hlaid Hc Hc' Hne). destruct (H4 k' c' _ Hc' Hw') as [[Hty' _] _].
      assert (Ewid : fixed_width (c_dtype c') = TEXT_DESCRIPTOR_LEN) by (destruct (c_dtype c'); done).
      unfold apart. lia.
Qed.
