(* ===== verification/ValueTheorems.v ===== *)
(** * What holds of values and tuples

    The properties of [src/src/catalog/mod.rs]: conversions give values of the type asked for,
    a tuple gives back the row it was made of, and a row is refused only for a reason. *)

From Stdlib Require Import ZArith Lia SpecFloat.
From stdpp Require Import base list numbers option sets.
From S2P Require Import Prelude Bytes Ids Buf Str Float64 Values ValueKeys ValueTuples.

Local Open Scope Z_scope.

Import DataType Catalog.

(** ** How encoding a row can end *)

Definition first_refused (row : list (Column * option Value)) (e : CatalogError) : Prop :=
  exists before c v after, row = before ++ (c, Some v) :: after /\ coerce c v = Err e /\
    Forall (fun cv => exists w, coerced cv w) before.

Lemma first_refused_cons cv w row e : coerced cv w -> first_refused row e -> first_refused (cv :: row) e.
Proof.
  intros Hc (b & c & v & a & -> & He & Hb). exists (cv :: b), c, v, a. split_and!; [done..|]. constructor; eauto.
Qed.

Lemma coerce_returns c v : coerce c v <> Panic.
Proof.
  unfold coerce, Value.coerce_to, Value.fit_chars. by repeat case_match.
Qed.

Lemma encode_column_returns bm i c v data texts :
  0 <= i < 8 * bm -> bm <= len data ->
  (exists data' texts' w, encode_column i c v data texts = Ok (data', texts') /\ coerced (c, v) w /\ len data <= len data') \/
  (exists x e, v = Some x /\ coerce c x = Err e /\ encode_column i c v data texts = Err e).
Proof.
  intros Hi Hb. unfold encode_column. destruct v as [v|].
  - pose proof (coerce_returns c v) as Hp. destruct (coerce c v) as [x|e|] eqn:Ec; [left|right|done].
    + assert (Hd : forall l : bytes, len data <= len (data ++ l)) by (intros l; rewrite length_app; lia).
      cbn [mbind outcome_bind]. destruct x; eexists _, _, _; (split; [reflexivity|split; [by eexists|apply Hd]]).
    + by exists v, e.
  - left. pose proof (Z.div_pos i 8 ltac:(lia) ltac:(lia)). assert (i / 8 < bm) by (apply Z.div_lt_upper_bound; lia).
    cbn [mbind outcome_bind]. rewrite index_ok by lia. cbn [mbind outcome_bind]. rewrite set_index_ok by lia.
    cbn [mbind outcome_bind]. eexists _, _, None. split; [reflexivity|]. split; [done|]. rewrite length_app, length_splice. lia.
Qed.

Lemma encode_columns_returns bm row : forall i data texts,
  0 <= i -> i + len row <= 8 * bm -> bm <= len data ->
  (exists r, encode_columns i row data texts = Ok r /\ Forall (fun cv => exists w, coerced cv w) row) \/ (exists e, encode_columns i row data texts = Err e /\ first_refused row e).
Proof.
  induction row as [|[c v] row IH]; intros i data texts Hi Hrow Hb; cbn [encode_columns]; [left; eauto|].
  rewrite length_cons in Hrow.
  destruct (encode_column_returns bm i c v data texts ltac:(lia) Hb) as [(d & t & w & -> & Hc & Hd)|(x & e & -> & Hc & ->)].
  - cbn [mbind outcome_bind]. destruct (IH (i + 1) d t ltac:(lia) ltac:(lia) ltac:(lia)) as [(r & ? & ?)|(e & ? & Hf)]; [left|right].
    { exists r. split; [done|]. constructor; eauto. }
    exists e. split; [done|]. by eapply first_refused_cons.
  - right. exists e. split; [done|]. by exists [], c, x, row.
Qed.

(** A row is too large when the offset or the length of one of its texts needs more than 32 bits. *)
Lemma encode_texts_returns texts : forall data,
  (forall a s, (a, s) ∈ texts -> 0 <= a /\ a + TEXT_DESCRIPTOR_LEN <= len data) ->
  (exists t, encode_texts texts data = Ok t) \/ (exists n, encode_texts texts data = Err (RowTooLarge n) /\ u32_max < n).
Proof.
  induction texts as [|[a s] texts IH]; intros data Hin; cbn [encode_texts]; [left; eauto|].
  change TEXT_DESCRIPTOR_LEN with 8 in *. unfold text_descriptor.
  destruct (Z.leb_spec (len data) u32_max); cbn [negb]; [|right; eexists; split; [done|lia]].
  destruct (Z.leb_spec (len (utf8 s)) u32_max); cbn [negb]; [|right; eexists; split; [done|lia]].
  cbn [mbind outcome_bind]. destruct (Hin a s ltac:(set_solver)) as [Ha1 Ha2].
  rewrite copy_from_slice_ok by (try lia; rewrite length_app, !length_to_le; lia). cbn [mbind outcome_bind].
  apply IH. intros a' s' Hin'. destruct (Hin a' s' ltac:(set_solver)). rewrite length_app, length_splice. lia.
Qed.

Lemma coerce_width c v s : coerce c v = Ok (Value.TEXT s) -> fixed_width (c_dtype c) = TEXT_DESCRIPTOR_LEN.
Proof. intros [Ht _]%coerce_col_ok. by destruct (c_dtype c). Qed.

(** The descriptors an encoded row leaves to fill in lie within its data. *)
Lemma encode_columns_texts row : forall i data texts data' texts', encode_columns i row data texts = Ok (data', texts') ->
  (forall a s, (a, s) ∈ texts -> 0 <= a /\ a + TEXT_DESCRIPTOR_LEN <= len data) ->
  forall a s, (a, s) ∈ texts' -> 0 <= a /\ a + TEXT_DESCRIPTOR_LEN <= len data'.
Proof.
  induction row as [|[c v] row IH]; intros i data texts data' texts' He Hin; cbn [encode_columns] in He; [by injection He as <- <-|].
  destruct (encode_column i c v data texts) as [[d t]| |] eqn:E1; [|done..]. cbn [mbind outcome_bind] in He.
  apply (IH _ _ _ _ _ He). clear IH He. unfold encode_column in E1. destruct v as [v|].
  - destruct (coerce c v) as [x| |]; [|done..]. cbn [mbind outcome_bind] in E1.
    destruct x; injection E1 as <- <-; intros a s' Ha; rewrite length_app; try (destruct (Hin a s' Ha); lia).
    apply elem_of_app in Ha as [Ha| [= -> ->]%list_elem_of_singleton]; [destruct (Hin a s' Ha); lia|].
    change (length (zeros TEXT_DESCRIPTOR_LEN)) with 8%nat. change TEXT_DESCRIPTOR_LEN with 8. lia.
  - cbn [mbind outcome_bind] in E1. destruct (index data (i / 8)); [|done..]. cbn [mbind outcome_bind] in E1.
    unfold set_index in E1. destruct (_ && _); [|done]. cbn [mbind outcome_bind] in E1. injection E1 as <- <-.
    intros p q Hp. destruct (Hin p q Hp). rewrite length_app, length_splice. lia.
Qed.

Lemma new_facts columns : let s := Catalog.new columns in
  length (cols s) = length columns /\ bitmap_len s = div_ceil8 (len columns) /\ laid 0 (cols s).
Proof.
  cbv zeta. unfold Catalog.new. pose proof (new_cols_laid columns 0) as Hnew. destruct (new_cols columns 0) as [cs total]. by destruct Hnew as (? & ? & ? & _).
Qed.

(** ** Conversions and comparisons *)

Lemma coerce_again v t w : Value.coerce_to v t = Ok w -> Value.coerce_to w t = Ok w.
Proof.
  unfold Value.coerce_to at 1. unfold Value.fit_chars. intros Hw.
  destruct (DataType.eqb (Value.data_type v) t) eqn:Eq; [injection Hw as <-; unfold Value.coerce_to; by rewrite Eq|].
  destruct v, t; simplify_eq; try done; repeat case_match; simplify_eq; try done.
  - unfold Value.coerce_to, Value.fit_chars. cbn. by rewrite H.
  - unfold Value.coerce_to, Value.fit_chars, Value.without_char_padding in *. cbn. by rewrite trim_end_idem, H.
Qed.

Section order.
Context `{Hfloat : OrderedFloat}.



Lemma float_antisym f g : float_cmp g f = CompOpp (float_cmp f g).
Proof.
  destruct (F64.is_nan f) eqn:Ef, (F64.is_nan g) eqn:Eg.
  - by rewrite !float_cmp_nan, Ef, Eg.
  - by rewrite float_cmp_to_nan, float_cmp_nan, Eg.
  - by rewrite (float_cmp_nan g f), (float_cmp_to_nan f g), Ef.
  - rewrite (float_cmp_number f g _ (value_order f g Ef Eg)), (float_cmp_number g f _ (value_order g f Eg Ef)). apply Z.compare_antisym.
Qed.

Lemma str_antisym s t : str_order t s = CompOpp (str_order s t).
Proof. apply lex_antisym. Qed.

Lemma compare_antisym v w : Value.compare w v = CompOpp <$> Value.compare v w.
Proof.
  unfold Value.compare, DataType.eqb.
  destruct v as [a|a|a|a|a|a], w as [b|b|b|b|b|b]; try done; cbn [Value.data_type];
    repeat (first [rewrite bool_decide_true by done|rewrite bool_decide_false by discriminate]); cbn; f_equal;
    try apply Z.compare_antisym; try apply float_antisym; try apply str_antisym.
Qed.

End order.

(** ** An order of floats *)

(** The order that the library documents, written out. *)
Definition number_order (a b : f64) : comparison :=
  match SFcompare (F64.value a) (F64.value b) with
  | Some c => c
  | None => if F64.is_nan a then if F64.is_nan b then Eq else Gt else Lt
  end.

Lemma compare_nan a b : F64.is_nan a = true \/ F64.is_nan b = true -> SFcompare (F64.value a) (F64.value b) = None.
Proof. unfold F64.is_nan. intros [?|?]; destruct (F64.value a), (F64.value b); done. Qed.

#[refine] Instance number_ordered : OrderedFloat := {| float_cmp := number_order |}.
Proof.
  - unfold number_order. by intros a b c ->.
  - intros a b Ha. unfold number_order. rewrite compare_nan by auto. by rewrite Ha.
  - intros a b Ha Hb. unfold number_order. rewrite compare_nan by auto. by rewrite Ha.
Defined.

(** ** The order of values *)




Section ordered.
Context `{Hfloat : OrderedFloat}.





End ordered.

(** ** Claims *)

(** C28. A tuple gives back its row: reading any column of an encoded row gives NULL where the row
    has NULL, and otherwise the row's value converted to the column's type. *)
Theorem tuple_roundtrip columns vals t k v :
  let s := Catalog.new columns in
  encode_tuple s vals = Ok t -> Forall (from_option value_ok True) vals -> vals !! k = Some v ->
  exists c, cols s !! k = Some c /\
    match v with
    | None => get_value s t (Z.of_nat k) = Ok None
    | Some v => exists w, coerce c v = Ok w /\ get_value s t (Z.of_nat k) = Ok (Some w)
    end.
Proof.
  cbv zeta. intros He Hok Hk. destruct (row_encoded columns vals t He Hok) as (ws & Hlw & Hcw & Hget).
  assert (Hlen : length vals = length (cols (Catalog.new columns))).
  { unfold encode_tuple in He. destruct (Z.eqb_spec (len vals) (len (cols (Catalog.new columns)))); [lia|done]. }
  destruct (lookup_lt_is_Some_2 (cols (Catalog.new columns)) k) as [c Hc]; [rewrite <- Hlen; by eapply lookup_lt_Some|].
  exists c. split; [done|]. destruct (lookup_lt_is_Some_2 ws k) as [w Hw]; [rewrite Hlw; by eapply lookup_lt_Some|].
  assert (Hz : zip (cols (Catalog.new columns)) vals !! k = Some (c, v)) by (apply lookup_zip_with_Some; eauto).
  destruct (Forall2_lookup_l _ _ _ _ _ Hcw Hz) as (w' & Hw' & Hco). rewrite Hw in Hw'. injection Hw' as <-.
  pose proof (Hget k c w Hc Hw) as Hg. unfold coerced in Hco. cbn in Hco. destruct v as [v|]; [|by subst w].
  destruct Hco as (x & Hx & ->). eauto.
Qed.

(** C29. Encoding a row never panics, and fails only for a row of the wrong length, with the error of
    the first value that its column refuses, or for a row whose texts reach past what a 32-bit
    offset addresses. *)
Theorem encode_tuple_outcome columns vals :
  let s := Catalog.new columns in
  match encode_tuple s vals with
  | Ok _ => len vals = len columns /\ Forall (fun cv => exists w, coerced cv w) (zip (cols s) vals)
  | Err TupleSchemaMismatch => len vals <> len columns
  | Err (RowTooLarge n) => u32_max < n
  | Err e => len vals = len columns /\ first_refused (zip (cols s) vals) e
  | Panic => False
  end.
Proof.
  cbv zeta. destruct (new_facts columns) as (Hlc & Hbm & _). set (s := Catalog.new columns) in *.
  unfold encode_tuple. destruct (Z.eqb_spec (len vals) (len (cols s))) as [Hlv|Hlv]; cbn [negb]; [|lia].
  destruct (bitmap_covers (len columns) ltac:(lia)) as [H1 H2]. rewrite <- Hbm in H1, H2.
  pose proof (len_zeros (bitmap_len s) H2) as Hz.
  destruct (encode_columns_returns (bitmap_len s) (zip (cols s) vals) 0 (zeros (bitmap_len s)) []) as [([d t] & Hd & Hall)|(e & Hd & Hf)];
    [lia|rewrite length_zip_with; lia|lia| |].
  - rewrite Hd. cbn [mbind outcome_bind]. destruct (encode_texts_returns t d) as [[r Hr]|(n & Hr & Hn)]; [|rewrite Hr|by rewrite Hr].
    + apply (encode_columns_texts _ _ _ _ _ _ Hd). by intros a s0 ?%elem_of_nil.
    + split; [lia|done].
  - rewrite Hd. cbn [mbind outcome_bind]. pose proof Hf as (b & c & v & a & _ & Hc & _). 
    assert (He : match e with TupleSchemaMismatch | RowTooLarge _ => False | _ => True end).
    { unfold coerce, Value.coerce_to, Value.fit_chars in Hc. repeat case_match; simplify_eq; done. }
    destruct e; try done; (split; [lia|done]).
Qed.

(** C30. Conversions are typed: converting to a column's type gives a value of the type that column's
    values have, in range and within the column's length, which converting again leaves as it is; a
    conversion is refused for its type exactly when the types do not convert. *)
Theorem coercion_typed v t :
  match Value.coerce_to v t with
  | Ok w => coerces_to (Value.data_type v) t = true /\ Value.data_type w = value_type t /\ (value_ok v -> value_ok w) /\
      Value.coerce_to w t = Ok w /\
      match w, t with Value.TEXT s, (VARCHAR n | CHAR n) => len s <= n | _, _ => True end
  | Err WrongType => coerces_to (Value.data_type v) t = false
  | Err OutOfRange => exists i, v = Value.BIGINT i /\ t = INT /\ in_i32 i = false
  | Err (TooLong n) => exists s, v = Value.TEXT s /\
      ((exists m, t = VARCHAR m /\ m < n /\ n = len s) \/ (exists m, t = CHAR m /\ m < n /\ n = len (Value.without_char_padding s)))
  | Panic => False
  end.
Proof.
  destruct (Value.coerce_to v t) as [w|e|] eqn:Ec.
  - destruct (coerce_ok v t w Ec) as [Ht Hok]. split_and!; [|done..|by eapply coerce_again|].
    + unfold Value.coerce_to in Ec. unfold coerces_to. by destruct v, t.
    + unfold Value.coerce_to, Value.fit_chars in Ec. destruct v, t; cbn in *; repeat case_match; simplify_eq; try done; lia.
  - unfold Value.coerce_to, Value.fit_chars in Ec. destruct v, t; cbn in *; repeat case_match; simplify_eq; try done.
    + by exists i.
    + exists s. split; [done|]. left. exists n. split_and!; [done|lia|done].
    + exists s. split; [done|]. right. exists n. split_and!; [done|lia|done].
  - unfold Value.coerce_to, Value.fit_chars in Ec. destruct v, t; cbn in *; repeat case_match; simplify_eq; done.
Qed.


(** ** Witnesses *)

(** A table with a nullable integer and two texts, and a row of it. *)
Definition demo_columns : list (DataType * str) := [(BIGINT, [97]); (VARCHAR 4, [98]); (BOOLEAN, [99]); (CHAR 3, [100])].
Definition demo_row : list (option Value) :=
  [Some (Value.INT (-7)); Some (Value.TEXT [104; 105]); None; Some (Value.TEXT [120; 32; 32; 32; 32])].
Definition demo_tuple : bytes := match encode_tuple (Catalog.new demo_columns) demo_row with Ok t => t | _ => [] end.

Lemma demo_row_ok : Forall (from_option value_ok True) demo_row.
Proof. repeat constructor; cbn; unfold is_scalar; lia. Qed.

Lemma tuple_roundtrip_witness :
  get_value (Catalog.new demo_columns) demo_tuple 3 = Ok (Some (Value.TEXT [120])) /\
  exists c, cols (Catalog.new demo_columns) !! 3%nat = Some c /\
    exists w, coerce c (Value.TEXT [120; 32; 32; 32; 32]) = Ok w /\ get_value (Catalog.new demo_columns) demo_tuple 3 = Ok (Some w).
Proof.
  split; [by vm_compute|].
  exact (tuple_roundtrip demo_columns demo_row demo_tuple 3 (Some (Value.TEXT [120; 32; 32; 32; 32]))
    ltac:(vm_compute; reflexivity) demo_row_ok ltac:(reflexivity)).
Defined.

