(* ===== verification/Recovery.v ===== *)
(** * Rolling back the transactions a crash left open

    Models [roll_back_recovered] of [src/concurrency/transaction_manager.rs] on table heaps
    over a page pool: every slot stamped with the id of an unfinished transaction gets back
    the version that its undo image holds. What goes wrong half way can be repeated: a second
    run ends where one undisturbed run would have. *)

From Stdlib Require Import ZArith Lia.
From stdpp Require Import base list gmap numbers option.
From S2P Require Import Prelude Bytes Ids Buf TablePage TablePageProofs TableHeap SlotStore.
From S2P Require Import TableHeapProofs TableHeapScan TableHeapTheorems Transaction TxnManager.

Local Open Scope Z_scope.

Module Recovery.

Import TableHeap.

Section recovery.
Context {P BE : Type} `{Pool : PagePool P BE}.

Abbreviation terr := (TxnError BE).

Definition by_id (unfinished : list RecoveredTxn) : gmap TxnId RecoveredTxn :=
  foldl (fun m t => <[r_id t := t]> m) ∅ unfinished.

Definition stamped_by (by_id : gmap TxnId RecoveredTxn) (rid : RecordId) (m : TupleMeta) (_ : bytes)
    : option (RecordId * TxnId) :=
  if bool_decide (is_Some (by_id !! ts m)) then Some (rid, ts m) else None.

(** The loop that collects the stamped slots of a heap; [fuel] bounds the slots collected. *)
Fixpoint stamped_slots (fuel pages slots : nat) (by_id : gmap TxnId RecoveredTxn) (it : HeapIterator)
    : M P terr (list (RecordId * TxnId)) := fun p =>
  match fuel with
  | O => (Panic, p)
  | S fuel =>
      match next_with pages slots (stamped_by by_id) (it, p) with
      | (Ok None, (_, p)) => (Ok [], p)
      | (Ok (Some (Ok found)), (it, p)) =>
          (rest ← stamped_slots fuel pages slots by_id it; mret (found :: rest)) p
      | (Ok (Some (Err e)), (_, p)) => (Err (Storage e), p)
      | (_, (_, p)) => (Panic, p)
      end
  end.

(** The write that takes back what a transaction did to a slot. *)
Definition undo_write (image : option UndoImage) : SlotWrite :=
  match image with
  | Some image => mkWrite (i_meta image) (Some (i_data image))
  | None => mkWrite (mkMeta 0 true) None
  end.

Definition undo_slot (by_id : gmap TxnId RecoveredTxn) (rid : RecordId) (txn_id : TxnId) : M P terr unit :=
  txn ← liftc (expect (by_id !! txn_id));
  let image := r_undo txn !! rid in
  plain (write_slot Storage rid (fun meta _ =>
    if negb (ts meta =? txn_id) then liftc (Err (UnexpectedStamp rid txn_id (ts meta)))
    else mret (undo_write image))).

Fixpoint undo_slots (by_id : gmap TxnId RecoveredTxn) (stamped : list (RecordId * TxnId)) : M P terr Z :=
  match stamped with
  | [] => mret 0
  | (rid, txn_id) :: stamped =>
      _ ← undo_slot by_id rid txn_id;
      n ← undo_slots by_id stamped;
      mret (1 + n)
  end.

Fixpoint undo_heaps (fuel pages slots : nat) (by_id : gmap TxnId RecoveredTxn) (heaps : list Heap)
    : M P terr Z :=
  match heaps with
  | [] => mret 0
  | heap :: heaps =>
      stamped ← stamped_slots fuel pages slots by_id (iter heap);
      n ← undo_slots by_id stamped;
      rest ← undo_heaps fuel pages slots by_id heaps;
      mret (n + rest)
  end.

Definition log_ends (unfinished : list RecoveredTxn) (m : TxnManager) : TxnManager :=
  foldl (fun m t => TxnManager.log_txn (REnd (r_id t)) m) m unfinished.

Definition roll_back_recovered (fuel pages slots : nat) (heaps : list Heap) (unfinished : list RecoveredTxn)
    : M (P * TxnManager) terr Z :=
  rolled_back ← on_fst id (undo_heaps fuel pages slots (by_id unfinished) heaps);
  _ ← modify (fun pm => Ok (pm.1, log_ends unfinished pm.2));
  mret rolled_back.

End recovery.
End Recovery.
