(* ===== verification/RecoveryTheorems.v ===== *)
(** * What recovery leaves

    The rows of all tables after [roll_back_recovered], for tables whose pages are disjoint. *)

From Stdlib Require Import ZArith Lia.
From stdpp Require Import base list gmap numbers option.
From S2P Require Import Prelude Bytes Ids Buf TablePage TablePageProofs TableHeap SlotStore.
From S2P Require Import TableHeapProofs TableHeapScan TableHeapTheorems Transaction TxnManager Recovery.

Local Open Scope Z_scope.

Import TableHeap Recovery.

Section recovery.
Context {P BE : Type} `{Pool : PagePool P BE} `{Laws : !PagePoolLaws P BE}.
Context (B : gmap TxnId RecoveredTxn).

(** ** Rows before and after *)

(** A row as rolling back leaves it. *)
Definition rolled (rid : RecordId) (x : row) : row :=
  match B !! ts x.1 with
  | None => x
  | Some txn => written (undo_write (r_undo txn !! rid)) x.2
  end.

(** Undo images hold committed versions, and the ids of transactions are not 0. *)
Record committed_images : Prop := {
  ci_zero : B !! 0 = None;
  ci_image : forall id txn rid image, B !! id = Some txn -> r_undo txn !! rid = Some image ->
    meta_valid (i_meta image) /\ Forall is_byte (i_data image) /\ B !! ts (i_meta image) = None;
}.

Context (Himages : committed_images).

Lemma rolled_settled rid x : B !! ts (rolled rid x).1 = None.
Proof using Himages.
  destruct Himages as [H0 Hi]. unfold rolled. destruct (B !! ts x.1) as [txn|] eqn:E; [|done].
  destruct (r_undo txn !! rid) as [image|] eqn:Ei; cbn; [|done]. by destruct (Hi _ _ _ _ E Ei) as (_ & _ & ?).
Qed.

Lemma rolled_id rid x : B !! ts x.1 = None -> rolled rid x = x.
Proof using. unfold rolled. by intros ->. Qed.

Lemma undo_write_valid id txn rid : B !! id = Some txn -> write_valid (undo_write (r_undo txn !! rid)).
Proof using Himages.
  intros E. destruct (r_undo txn !! rid) as [image|] eqn:Ei.
  - by destruct (ci_image Himages _ _ _ _ E Ei) as (? & ? & _).
  - split; [|done]. unfold meta_valid, u64_max. cbn. lia.
Qed.

(** [C'] is [C] with some of its rows rolled back. *)
Definition partly (C C' : gmap RecordId row) : Prop :=
  forall rid, C' !! rid = C !! rid \/ C' !! rid = rolled rid <$> C !! rid.

Lemma partly_refl C : partly C C.
Proof using. by left. Qed.

Lemma partly_trans C1 C2 C3 : partly C1 C2 -> partly C2 C3 -> partly C1 C3.
Proof using Himages.
  intros H12 H23 rid. destruct (H23 rid) as [->| ->]; [done|]. destruct (H12 rid) as [->| ->]; [by right|right].
  destruct (C1 !! rid); [|done]. cbn. by rewrite (rolled_id rid (rolled rid _)) by apply rolled_settled.
Qed.

Lemma partly_insert C rid x : C !! rid = Some x -> partly C (<[rid := rolled rid x]> C).
Proof using.
  intros Hx rid'. destruct (decide (rid = rid')) as [<-|Hne].
  - right. by rewrite lookup_insert_eq, Hx.
  - left. by rewrite lookup_insert_ne.
Qed.

(** The rows that are still to be rolled back. *)
Definition unsettled (C : gmap RecordId row) : gmap RecordId row :=
  filter (fun rx => is_Some (B !! ts rx.2.1)) C.

Lemma unsettled_lookup C rid x : unsettled C !! rid = Some x <-> C !! rid = Some x /\ is_Some (B !! ts x.1).
Proof using. unfold unsettled. by rewrite map_lookup_filter_Some. Qed.

Lemma unsettled_insert C rid x : C !! rid = Some x -> is_Some (B !! ts x.1) ->
  base.size (unsettled C) = S (base.size (unsettled (<[rid := rolled rid x]> C))).
Proof using Himages.
  intros Hx Hs. assert (E : unsettled (<[rid := rolled rid x]> C) = base.delete rid (unsettled C)).
  { apply map_eq. intros rid'. apply option_eq. intros y. rewrite unsettled_lookup, lookup_delete_Some, unsettled_lookup.
    rewrite lookup_insert_Some. pose proof (rolled_settled rid x) as Hr. split.
    - intros [[[<- <-]|[Hne Hy]] Hsy]; [|by split]. rewrite Hr in Hsy. by destruct Hsy.
    - intros (Hne & Hy & Hsy). split; [by right|done]. }
  rewrite E, map_size_delete_Some; [|by exists x; apply unsettled_lookup].
  assert (base.size (unsettled C) <> 0)%nat; [|lia]. intros H0%map_size_empty_inv.
  assert (Hu : unsettled C !! rid = Some x) by by apply unsettled_lookup. by rewrite H0 in Hu.
Qed.

Lemma partly_keeps C C' rid : partly C C' -> unsettled C !! rid = None -> unsettled C' !! rid = None.
Proof using Himages.
  intros Hp Hn. apply eq_None_not_Some. intros [y [Hy Hsy]%unsettled_lookup]. destruct (Hp rid) as [E|E]; rewrite Hy in E.
  - assert (Hu : unsettled C !! rid = Some y) by (by apply unsettled_lookup). by rewrite Hn in Hu.
  - destruct (C !! rid) as [x|]; [|done]. injection E as ->. rewrite rolled_settled in Hsy. by destruct Hsy.
Qed.

Lemma partly_settled C C' : partly C C' -> unsettled C' = ∅ -> C' = map_imap (fun rid x => Some (rolled rid x)) C.
Proof using Himages.
  intros Hp Hs. apply map_eq. intros rid. rewrite map_lookup_imap. destruct (Hp rid) as [E|E]; rewrite E; [|by destruct (C !! rid)].
  destruct (C !! rid) as [x|] eqn:Hx; [|done]. cbn. destruct (B !! ts x.1) as [txn|] eqn:Hb; [|by rewrite rolled_id].
  assert (Hu : unsettled C' !! rid = Some x) by (apply unsettled_lookup; eauto). by rewrite Hs in Hu.
Qed.

(** ** Several tables in one pool *)

Definition page_ids (Ls : list chain) : list (list PageId) := (fun L : chain => L.*1) <$> Ls.

Record tables (p : P) (heaps : list Heap) (Ls : list chain) : Prop := {
  tb_heaps : Forall2 (fun h L => heap_is h p L) heaps Ls;
  tb_apart : NoDup (concat Ls).*1;
}.

Lemma tables_pages p p' heaps Ls : pool_pages p' = pool_pages p -> tables p heaps Ls -> tables p' heaps Ls.
Proof using. intros E [Hh Ha]. split; [|done]. eapply Forall2_impl; [|exact Hh]. intros h L. by apply heap_is_pages. Qed.

Lemma heap_frame h p p' L pid b :
  heap_is h p L -> pid ∉ L.*1 -> pool_pages p' = <[pid := b]> (pool_pages p) -> heap_is h p' L.
Proof using.
  intros [[Hf Hn Hp] Ht Hr] Hni E. split; [|done..]. split; [done..|]. intros k q c Hk.
  destruct (Hp k q c Hk) as (Hq & ? & ?). split; [|done]. rewrite E, lookup_insert_ne; [done|].
  intros <-. apply Hni. apply list_elem_of_fmap. exists (pid, c). split; [done|]. by eapply list_elem_of_lookup_2.
Qed.

(** The table that holds a row, and where. *)
Lemma tables_row p heaps Ls rid x : tables p heaps Ls -> row_map (concat Ls) !! rid = Some x ->
  exists A h L Z hA hZ k b, Ls = A ++ L :: Z /\ heaps = hA ++ h :: hZ /\ length hA = length A /\ heap_is h p L /\
    L !! k = Some (page_id rid, b) /\ 0 <= slot_id rid /\ tuples b !! Z.to_nat (slot_id rid) = Some x.
Proof using.
  intros [Hh Ha] Hx. apply (row_map_lookup _ _ _ Ha) in Hx. apply rows_elem in Hx as (b & Hin & H0 & Ht).
  apply list_elem_of_In, in_concat in Hin as (L & HL & HinL). apply list_elem_of_In in HL, HinL.
  apply list_elem_of_split in HL as (A & Z & ->). apply list_elem_of_lookup_1 in HinL as [k Hk].
  apply Forall2_app_inv_r in Hh as (hA & h2 & HA & H2 & ->). apply Forall2_cons_inv_r in H2 as (h & hZ & HhL & HZ & ->).
  exists A, h, L, Z, hA, hZ, k, b. split_and!; try done. by eapply Forall2_length.
Qed.

Lemma tables_put p p' hA h hZ A L Z k pid b b' :
  tables p (hA ++ h :: hZ) (A ++ L :: Z) -> length hA = length A -> L !! k = Some (pid, b) ->
  heap_is h p' (<[k := (pid, b')]> L) -> pool_pages p' = <[pid := b']> (pool_pages p) ->
  tables p' (hA ++ h :: hZ) (A ++ <[k := (pid, b')]> L :: Z).
Proof using.
  intros [Hh Ha] Hlen Hk HL E. apply Forall2_app_inv in Hh as [HA Hh]; [|done]. apply Forall2_cons_1 in Hh as [_ HZ].
  assert (Hin : pid ∈ L.*1).
  { apply list_elem_of_fmap. exists (pid, b). split; [done|]. by eapply list_elem_of_lookup_2. }
  assert (Hframe : forall hs Ls, Forall2 (fun h L => heap_is h p L) hs Ls -> (forall L', L' ∈ Ls -> pid ∉ L'.*1) ->
    Forall2 (fun h L => heap_is h p' L) hs Ls).
  { intros hs Ls H. induction H as [|h0 L0 hs Ls H0 H IH]; intros Hni; [constructor|]. constructor.
    - eapply heap_frame; [exact H0| |exact E]. apply Hni. by left.
    - apply IH. intros L' HL'. apply Hni. by right. }
  rewrite concat_app, fmap_app in Ha. cbn in Ha. rewrite fmap_app in Ha.
  apply list.NoDup_app in Ha as (NA & HAL & NLZ). apply list.NoDup_app in NLZ as (NL & HLZ & NZ).
  assert (Hfst : forall (L' : chain) Ls, L' ∈ Ls -> pid ∈ L'.*1 -> pid ∈ (concat Ls).*1).
  { intros L' Ls HL' (y & -> & Hy)%list_elem_of_fmap. apply list_elem_of_fmap. exists y. split; [done|].
    apply list_elem_of_In, in_concat. exists L'. split; by apply list_elem_of_In. }
  split.
  - apply Forall2_app; [|constructor; [done|]]; apply Hframe; try done.
    + intros L' HL' Hp. apply (HAL pid); [by eapply Hfst|]. apply elem_of_app. by left.
    + intros L' HL' Hp. apply (HLZ pid); [done|by eapply Hfst].
  - rewrite concat_app, fmap_app. cbn. rewrite fmap_app. rewrite (insert_fst L k pid b b' Hk).
    apply list.NoDup_app. split_and!; [done|done|]. by apply list.NoDup_app.
Qed.

Lemma concat_put (A : list chain) L Z k x y : L !! k = Some x ->
  concat (A ++ <[k := y]> L :: Z) = <[(length (concat A) + k)%nat := y]> (concat (A ++ L :: Z)) /\
  concat (A ++ L :: Z) !! (length (concat A) + k)%nat = Some x.
Proof using.
  intros Hk. pose proof (lookup_lt_Some _ _ _ Hk). rewrite !concat_app. cbn. split.
  - rewrite insert_app_r, insert_app_l by done. done.
  - rewrite lookup_app_r, lookup_app_l by lia. by replace (length (concat A) + k - length (concat A))%nat with k by lia.
Qed.

(** ** Rolling back one slot *)

Lemma undo_slot_ok p heaps Ls rid m d txn :
  tables p heaps Ls -> row_map (concat Ls) !! rid = Some (m, d) -> B !! ts m = Some txn ->
  match undo_slot B rid (ts m) p with
  | (Ok _, p') => exists Ls', tables p' heaps Ls' /\ page_ids Ls' = page_ids Ls /\
      row_map (concat Ls') = <[rid := rolled rid (m, d)]> (row_map (concat Ls))
  | (Err e, p') => tables p' heaps Ls /\ exists e', e = Storage e'
  | (Panic, _) => False
  end.
Proof using Himages.
  intros HT Hx Hb. destruct (tables_row _ _ _ _ _ HT Hx) as (A & h & L & Z & hA & hZ & k & b & -> & -> & Hlen & HH & Hk & H0 & Ht).
  unfold undo_slot. rewrite Hb. rewrite (bind_liftc _ _ _ txn) by done. unfold plain, write_slot.
  pose proof (fetch_law (page_id rid) p) as Hf.
  destruct (chain_lookup _ _ _ _ _ (hi_chain _ _ _ HH) (list_elem_of_lookup_2 _ _ _ Hk)) as [Hp WFb].
  destruct (fetch (page_id rid) p) as [[b0|e|] p1] eqn:Hfe; [|unfold write_slot_then, with_page; cbn [fst snd]; rewrite Hfe|done].
  2:{ split; [by eapply tables_pages|eauto]. }
  destruct Hf as [Hb0 E1]. assert (b0 = b) as -> by congruence.
  assert (Hput : forall bx, pool_pages (put_page (page_id rid) bx p1) = <[page_id rid := bx]> (pool_pages p)).
  { intros bx. rewrite put_law by (rewrite E1; eauto). by rewrite E1. }
  erewrite write_slot_then_eq; [|done..]. rewrite Z.eqb_refl. cbn [negb]. unfold mbind, M_bind, mret, M_ret. cbn beta iota.
  pose proof (undo_write_valid _ _ rid Hb) as Hv. pose proof (slot_in_page b rid m d H0 Ht) as Hlt.
  destruct (write_op_ok b (slot_id rid) m d _ WFb H0 Ht Hv) as [(e & He)|(b2 & He & W2 & Hx2 & Ht2)]; rewrite He; cbn.
  - split; [|eauto]. eapply tables_pages; [|exact HT]. rewrite Hput. by apply insert_id.
  - assert (Hnum : pnum b2 = pnum b).
    { pose proof (length_tuples b2) as F1. pose proof (length_tuples b) as F2. rewrite Ht2, length_insert in F1.
      destruct (wf_num b2 W2). lia. }
    pose proof (heap_put h p _ L k (page_id rid) b b2 HH Hk W2 Hx2 Hnum (Hput b2)) as HH'.
    exists (A ++ <[k := (page_id rid, b2)]> L :: Z). split; [eapply tables_put; eauto|].
    destruct (concat_put A L Z k _ (page_id rid, b2) Hk) as [Ec Hkc].
    split; [unfold page_ids; by rewrite !fmap_app, !fmap_cons, (insert_fst L k _ _ b2 Hk)|]. rewrite Ec.
    rewrite (row_map_update _ _ _ b _ (slot_id rid) (rolled rid (m, d))); [by destruct rid|apply HT|done|lia|].
    rewrite Ht2. unfold rolled. cbn. by rewrite Hb.
Qed.

(** ** Rolling back lists of slots and of tables *)

(** What a part of the work leaves: [n] rows are rolled back, and nothing else changed. *)
Definition progress (Ls Ls' : list chain) (n : Z) : Prop :=
  page_ids Ls' = page_ids Ls /\ partly (row_map (concat Ls)) (row_map (concat Ls')) /\
  Z.of_nat (base.size (unsettled (row_map (concat Ls)))) = n + Z.of_nat (base.size (unsettled (row_map (concat Ls')))).

Lemma progress_refl Ls : progress Ls Ls 0.
Proof using. split_and!; [done|apply partly_refl|done]. Qed.

Lemma progress_trans L1 L2 L3 n k : progress L1 L2 n -> progress L2 L3 k -> progress L1 L3 (n + k).
Proof using Himages. intros (A1 & A2 & A3) (B1 & B2 & B3). split_and!; [congruence|by eapply partly_trans|lia]. Qed.

(** The rows a list of stamped slots names. *)
Definition names (stamped : list (RecordId * TxnId)) (C : gmap RecordId row) : Prop :=
  NoDup stamped.*1 /\ forall rid id, (rid, id) ∈ stamped -> exists x, C !! rid = Some x /\ ts x.1 = id /\ is_Some (B !! id).

Lemma undo_slots_ok stamped : forall p heaps Ls, tables p heaps Ls -> names stamped (row_map (concat Ls)) ->
  match undo_slots B stamped p with
  | (Ok n, p') => exists Ls', tables p' heaps Ls' /\ progress Ls Ls' n /\
      (forall rid, rid ∈ stamped.*1 -> unsettled (row_map (concat Ls')) !! rid = None)
  | (Err e, p') => (exists Ls' n, tables p' heaps Ls' /\ progress Ls Ls' n) /\ exists e', e = Storage e'
  | (Panic, _) => False
  end.
Proof using Himages.
  induction stamped as [|[rid id] stamped IH]; intros p heaps Ls HT [Hnd Hn]; cbn [undo_slots].
  { exists Ls. split_and!; [done|apply progress_refl|]. by intros rid ?%elem_of_nil. }
  destruct (Hn rid id ltac:(by left)) as ([m d] & Hx & <- & [txn Hb]). apply list.NoDup_cons in Hnd as [Hni Hnd].
  pose proof (undo_slot_ok p heaps Ls rid m d txn HT Hx Hb) as H1. cbn [fst].
  destruct (undo_slot B rid (ts m) p) as [[[]|e|] p1] eqn:E1; [erewrite bind_Ok by done|erewrite bind_Err by done|done].
  2:{ destruct H1 as [H1 ?]. split; [|done]. exists Ls, 0. split; [done|apply progress_refl]. }
  destruct H1 as (L1 & HT1 & Hfst & Hrow).
  assert (Hp1 : progress Ls L1 1).
  { split_and!; [done|rewrite Hrow; by apply partly_insert|]. rewrite Hrow.
    rewrite (unsettled_insert (row_map (concat Ls)) rid (m, d)) by eauto. lia. }
  assert (Hn1 : names stamped (row_map (concat L1))).
  { split; [done|]. intros r i Hin. destruct (Hn r i ltac:(by right)) as (x & Hrx & Hix). exists x. split; [|done].
    rewrite Hrow, lookup_insert_ne; [done|]. intros ->. apply Hni. apply list_elem_of_fmap. by exists (r, i). }
  pose proof (IH p1 heaps L1 HT1 Hn1) as H2.
  destruct (undo_slots B stamped p1) as [[n|e|] p2] eqn:E2; [erewrite bind_Ok by done|erewrite bind_Err by done|done]; cbn.
  - destruct H2 as (L2 & HT2 & Hp2 & Hs). exists L2. split; [done|]. split; [by eapply progress_trans|].
    intros r [->|Hr]%list.elem_of_cons; [|by apply Hs]. destruct Hp2 as (_ & Hp2 & _).
    apply (partly_keeps (row_map (concat L1))); [done|]. rewrite Hrow. apply eq_None_not_Some.
    intros [y [Hy Hsy]%unsettled_lookup]. rewrite lookup_insert_eq in Hy. injection Hy as <-.
    rewrite (rolled_settled rid (m, d)) in Hsy. by destruct Hsy.
  - destruct H2 as [(L2 & n & HT2 & Hp2) ?]. split; [|done]. exists L2, (1 + n). split; [done|by eapply progress_trans].
Qed.

(** ** Finding the slots *)

Lemma stamped_slots_ok first L pages slots : PAGE_SIZE <= Z.of_nat slots -> (length L <= pages)%nat ->
  forall fuel it p rest, chain_is p first L -> iter_at it L rest -> last_page_id it ∈ L.*1 ->
  (length rest < fuel)%nat ->
  match stamped_slots fuel pages slots B it p with
  | (Ok l, p') => l = omap (row_fun (stamped_by B)) rest /\ pool_pages p' = pool_pages p
  | (Err e, p') => pool_pages p' = pool_pages p /\ exists e', e = Storage e'
  | (Panic, _) => False
  end.
Proof using.
  intros Hsl Hpg. induction fuel as [|fuel IH]; intros it p rest HC Hit Hla Hlen; [lia|]. cbn [stamped_slots].
  pose proof (hops_length (last_page_id it) L) as Hh.
  pose proof (next_with_ok (stamped_by B) first L it p rest pages slots HC Hit Hla Hsl ltac:(lia)) as Hr.
  unfold next_result in Hr. destruct (next_with pages slots (stamped_by B) (it, p)) as [[[[x|e|]|]|[]|] [it' p1]];
    destruct Hr as [E Hr]; try done.
  - destruct Hr as (pre & y & post & -> & Hpre & Hy & Hit' & El). rewrite length_app in Hlen. cbn in Hlen.
    pose proof (IH it' p1 post ltac:(by eapply chain_is_pages) Hit' ltac:(by rewrite El) ltac:(lia)) as H2.
    destruct (stamped_slots fuel pages slots B it' p1) as [[l|e|] p2] eqn:E2; [erewrite bind_Ok by done|erewrite bind_Err by done|done].
    + destruct H2 as [-> E']. cbn. rewrite omap_app, Hpre. cbn. rewrite Hy. split; [done|congruence].
    + destruct H2 as [E' ?]. split; [congruence|done].
  - split; [done|eauto].
  - destruct Hr as [-> _]. done.
Qed.

Lemma stamped_fst (R : list (RecordId * row)) : (omap (row_fun (stamped_by B)) R).*1 `sublist_of` R.*1.
Proof using.
  induction R as [|[rid [m d]] R IH]; [done|]. cbn. unfold row_fun, stamped_by at 1. cbn. case_bool_decide; cbn; by constructor.
Qed.

Lemma stamped_elem (R : list (RecordId * row)) rid id :
  (rid, id) ∈ omap (row_fun (stamped_by B)) R <-> exists x, (rid, x) ∈ R /\ ts x.1 = id /\ is_Some (B !! id).
Proof using.
  rewrite list_elem_of_omap. unfold row_fun, stamped_by. split.
  - intros ([r [m d]] & Hin & E). cbn in E. case_bool_decide; [|done]. injection E as -> <-. by exists (m, d).
  - intros ([m d] & Hin & <- & Hs). exists (rid, (m, d)). split; [done|]. cbn. by rewrite bool_decide_true.
Qed.

Lemma table_names p heaps Ls L : tables p heaps Ls -> L ∈ Ls ->
  names (omap (row_fun (stamped_by B)) (rows L)) (row_map (concat Ls)).
Proof using.
  intros [Hh Ha] HL. apply list_elem_of_lookup_1 in HL as [k Hk].
  assert (Hsub : rows L ⊆ rows (concat Ls)).
  { intros [rid x] (b & Hb & ?)%rows_elem. apply rows_elem. exists b. split; [|done]. apply list_elem_of_In, in_concat. exists L.
    split; apply list_elem_of_In; [by eapply list_elem_of_lookup_2|done]. }
  split.
  - eapply sublist_NoDup; [|apply stamped_fst]. apply rows_nodup.
    destruct (Forall2_lookup_r _ _ _ _ _ Hh Hk) as (h & _ & HH). apply HH.
  - intros rid id (x & Hin & <- & Hs)%stamped_elem. exists x. split; [|done]. apply row_map_lookup; [done|]. by apply Hsub.
Qed.

Lemma rows_size L : NoDup L.*1 -> base.size (row_map L) = length (rows L).
Proof using.
  intros Hnd. unfold row_map. rewrite <- length_map_to_list. apply Permutation_length, map_to_list_to_map. by apply rows_nodup.
Qed.

Lemma table_bounds p heaps Ls k L : tables p heaps Ls -> Ls !! k = Some L ->
  (length L <= length (concat Ls))%nat /\ (length (rows L) <= base.size (row_map (concat Ls)))%nat.
Proof using.
  intros [_ Ha] Hk. rewrite (rows_size _ Ha). apply list_elem_of_split_length in Hk as (A & Z & -> & _).
  rewrite concat_app. cbn. unfold rows. rewrite !bind_app, !length_app. lia.
Qed.

(** A row on a page of a table is a row of that table. *)
Lemma table_row_in p heaps Ls k L rid x : tables p heaps Ls -> Ls !! k = Some L ->
  page_id rid ∈ L.*1 -> row_map (concat Ls) !! rid = Some x -> (rid, x) ∈ rows L.
Proof using.
  intros [_ Ha] Hk Hpid Hx. apply list_elem_of_fmap in Hpid as ([pid b'] & Epid & Hb'). cbn in Epid. subst pid.
  apply (row_map_lookup _ _ _ Ha), rows_elem in Hx as (b & Hb & Hrest). apply rows_elem. exists b. split; [|done].
  assert (Hin : (page_id rid, b') ∈ concat Ls).
  { apply list_elem_of_In, in_concat. exists L. split; apply list_elem_of_In; [by eapply list_elem_of_lookup_2|done]. }
  by rewrite (NoDup_fst_inj _ _ _ _ Ha Hb Hin).
Qed.

Lemma partly_size C C' : partly C C' -> base.size C' = base.size C.
Proof using.
  intros Hp. rewrite <- !size_dom. f_equal. apply set_eq. intros rid. rewrite !elem_of_dom.
  destruct (Hp rid) as [->| ->]; [done|]. by rewrite fmap_is_Some.
Qed.

Lemma page_ids_length Ls Ls' : page_ids Ls' = page_ids Ls -> length (concat Ls') = length (concat Ls).
Proof using.
  unfold page_ids. revert Ls'. induction Ls as [|L Ls IH]; intros [|L' Ls'] E; try done. cbn in E. injection E as E1 E2.
  cbn. rewrite !length_app, (IH Ls' E2). apply (f_equal length) in E1. rewrite !length_fmap in E1. lia.
Qed.

(** The pages of the tables from the [k]th on. *)
Definition pages_from (k : nat) (Ls : list chain) : list PageId := concat (drop k (page_ids Ls)).

Lemma undo_heaps_ok fuel pages slots todo : PAGE_SIZE <= Z.of_nat slots -> forall p before Ls,
  tables p (before ++ todo) Ls -> (length (concat Ls) <= pages)%nat -> (base.size (row_map (concat Ls)) < fuel)%nat ->
  match undo_heaps fuel pages slots B todo p with
  | (Ok n, p') => exists Ls', tables p' (before ++ todo) Ls' /\ progress Ls Ls' n /\
      (forall rid, page_id rid ∈ pages_from (length before) Ls -> unsettled (row_map (concat Ls')) !! rid = None)
  | (Err e, p') => (exists Ls' n, tables p' (before ++ todo) Ls' /\ progress Ls Ls' n) /\ exists e', e = Storage e'
  | (Panic, _) => False
  end.
Proof using Himages.
  intros Hsl. induction todo as [|h todo IH]; intros p before Ls HT Hpg Hfu; cbn [undo_heaps].
  { exists Ls. split_and!; [done|apply progress_refl|]. intros rid Hr. exfalso. unfold pages_from, page_ids in Hr.
    rewrite drop_ge in Hr; [by apply elem_of_nil in Hr|]. rewrite length_fmap.
    pose proof (Forall2_length (tb_heaps _ _ _ HT)) as E. rewrite length_app in E. cbn in E. lia. }
  destruct (Forall2_lookup_l _ _ _ (length before) h (tb_heaps _ _ _ HT)) as (L & HL & HH); [by rewrite list_lookup_middle|].
  destruct (table_bounds _ _ _ _ _ HT HL) as [Hb1 Hb2]. pose proof (hi_chain _ _ _ HH) as HC.
  assert (Hit : iter_at (iter h) L (rows L)).
  { eapply iter_at_start; [exact HH|exact HC|]. apply grows_refl. intros ->. by destruct HC. }
  pose proof (stamped_slots_ok (first_page_id h) L pages slots Hsl ltac:(lia) fuel (iter h) p (rows L) HC Hit
    ltac:(by eapply iter_last) ltac:(lia)) as H1.
  destruct (stamped_slots fuel pages slots B (iter h) p) as [[l|e|] p1] eqn:E1; [erewrite bind_Ok by done|erewrite bind_Err by done|done].
  2:{ destruct H1 as [E1' ?]. split; [|done]. exists Ls, 0. split; [by eapply tables_pages|apply progress_refl]. }
  destruct H1 as [-> Ep1]. pose proof (tables_pages _ _ _ _ Ep1 HT) as HT1.
  pose proof (table_names _ _ _ L HT ltac:(by eapply list_elem_of_lookup_2)) as Hn.
  pose proof (undo_slots_ok _ p1 (before ++ h :: todo) Ls HT1 Hn) as H2.
  destruct (undo_slots B _ p1) as [[n|e|] p2] eqn:E2; [erewrite bind_Ok by done|erewrite bind_Err by done|done]; [|done].
  destruct H2 as (L2 & HT2 & Hp2 & Hset). rewrite (cons_middle h before todo), app_assoc in HT2.
  pose proof (IH p2 (before ++ [h]) L2 HT2 ltac:(rewrite (page_ids_length Ls L2) by apply Hp2; lia)
    ltac:(rewrite (partly_size (row_map (concat Ls))) by apply Hp2; lia)) as H3.
  rewrite (cons_middle h before todo), app_assoc.
  destruct (undo_heaps fuel pages slots B todo p2) as [[r|e|] p3] eqn:E3; [erewrite bind_Ok by done|erewrite bind_Err by done|done].
  2:{ destruct H3 as [(L3 & k & HT3 & Hp3) ?]. split; [|done]. exists L3, (n + k). split; [done|by eapply progress_trans]. }
  destruct H3 as (L3 & HT3 & Hp3 & Hset3). exists L3. split; [done|]. split; [by eapply progress_trans|].
  intros rid Hr. unfold pages_from in Hr. rewrite (drop_S _ L.*1 (length before)) in Hr by (unfold page_ids; by rewrite list_lookup_fmap, HL).
  cbn in Hr. apply elem_of_app in Hr as [Hr|Hr].
  - apply (partly_keeps (row_map (concat L2))); [apply Hp3|].
    destruct (decide (rid ∈ (omap (row_fun (stamped_by B)) (rows L)).*1)) as [Hin|Hout]; [by apply Hset|].
    apply (partly_keeps (row_map (concat Ls))); [apply Hp2|]. apply eq_None_not_Some. intros [x [Hx Hsx]%unsettled_lookup].
    apply Hout. apply list_elem_of_fmap. exists (rid, ts x.1). split; [done|]. apply stamped_elem. exists x. split; [|done].
    eapply table_row_in; [exact HT|exact HL|exact Hr|exact Hx].
  - apply Hset3. unfold pages_from. destruct Hp2 as (-> & _). rewrite length_app. cbn. by rewrite Nat.add_1_r.
Qed.

End recovery.

(** ** Claims *)

Section claims.
Context {P BE : Type} `{Pool : PagePool P BE} `{Laws : !PagePoolLaws P BE}.

Lemma log_ends_log u : forall m, txn_log (log_ends u m) = txn_log m ++ ((fun t => REnd (r_id t)) <$> u).
Proof.
  unfold log_ends. induction u as [|t u IH]; intros m; cbn; [by rewrite app_nil_r|]. rewrite IH. cbn. by rewrite <- app_assoc.
Qed.

(** C32. Recovery rolls unfinished transactions back, and can be repeated: let [C] be the rows at the
    crash and let earlier attempts have rolled back some of them. A run that returns leaves every
    row that an unfinished transaction stamped with the version of its undo image (or deleted, when
    the transaction inserted it) and every other row as it was at the crash, counts the slots it
    changed, and logs the end of each transaction. A run that storage stops leaves the rows partly
    rolled back, logs nothing, and another run can follow. *)
Theorem recovery_rolls_back u heaps Ls p m C fuel pages slots :
  committed_images (by_id u) -> tables p heaps Ls -> partly (by_id u) C (row_map (concat Ls)) ->
  PAGE_SIZE <= Z.of_nat slots -> (length (concat Ls) <= pages)%nat -> (base.size C < fuel)%nat ->
  match roll_back_recovered fuel pages slots heaps u (p, m) with
  | (Ok n, (p', m')) => exists Ls', tables p' heaps Ls' /\
      row_map (concat Ls') = map_imap (fun rid x => Some (rolled (by_id u) rid x)) C /\
      n = Z.of_nat (base.size (unsettled (by_id u) (row_map (concat Ls)))) /\
      txn_log m' = txn_log m ++ ((fun t => REnd (r_id t)) <$> u)
  | (Err e, (p', m')) => exists Ls', tables p' heaps Ls' /\ partly (by_id u) C (row_map (concat Ls')) /\
      m' = m /\ exists e', e = Storage e'
  | (Panic, _) => False
  end.
Proof.
  intros Hi HT HC Hsl Hpg Hfu. rewrite <- (partly_size _ _ _ HC) in Hfu.
  pose proof (undo_heaps_ok (by_id u) Hi fuel pages slots heaps Hsl p [] Ls HT Hpg Hfu) as H1.
  unfold roll_back_recovered. unfold mbind at 1, M_bind at 1, on_fst. cbn [fst snd].
  destruct (undo_heaps fuel pages slots (by_id u) heaps p) as [[n|e|] p'] eqn:E1; cbn [map_err id]; [| |done].
  - destruct H1 as (Ls' & HT' & (Hids & Hpart & Hn) & Hset). cbn. exists Ls'. split; [done|].
    assert (Hnone : unsettled (by_id u) (row_map (concat Ls')) = ∅).
    { apply map_eq. intros rid. rewrite lookup_empty. apply eq_None_not_Some. intros [x Hx]. pose proof Hx as [Hrow _]%unsettled_lookup.
      rewrite Hset in Hx; [done|]. unfold pages_from. cbn [length]. rewrite drop_0, <- Hids.
      apply (row_map_lookup _ _ _ (tb_apart _ _ _ HT')), rows_elem in Hrow as (b & Hb & _).
      apply list_elem_of_In, in_concat in Hb as (L & HL & HbL). apply list_elem_of_In, in_concat. exists L.*1.
      split; apply list_elem_of_In; [apply list_elem_of_fmap; exists L; split; [done|by apply list_elem_of_In]|].
      apply list_elem_of_fmap. exists (page_id rid, b). split; [done|]. by apply list_elem_of_In. }
    rewrite Hnone, map_size_empty in Hn. split_and!; [|lia|apply log_ends_log].
    apply partly_settled; [done| |done]. by eapply partly_trans.
  - destruct H1 as [(Ls' & n & HT' & _ & Hpart & _) He]. exists Ls'. split_and!; [done|by eapply partly_trans|done..].
Qed.

End claims.

(** ** A witness: a table with a row that an unfinished transaction updated *)

Definition demo_id : TxnId := TXN_START_ID + 1.
Definition demo_rid : RecordId := mkRid 0 0.
Definition demo_row : row := (mkMeta demo_id false, [9; 9]).
Definition demo_unfinished : list RecoveredTxn :=
  [mkRecovered demo_id {[ demo_rid := mkImage (mkMeta 3 false) [1; 2; 3] ]}].
Definition demo_heap : Heap * MapPool := (insert_with_meta demo_row.1 demo_row.2 heap0).2.

Lemma demo_images : committed_images (by_id demo_unfinished).
Proof.
  split; [by vm_compute|]. intros id txn rid image H1 H2. unfold by_id, demo_unfinished in H1. cbn [foldl r_id] in H1.
  apply lookup_insert_Some in H1 as [[<- <-]|[_ H1]]; [|by rewrite lookup_empty in H1]. cbn [r_undo] in H2.
  apply lookup_singleton_Some in H2 as [<- <-]. split_and!; [unfold meta_valid, u64_max; cbn; lia| |by vm_compute].
  repeat constructor; unfold is_byte; lia.
Qed.

Lemma demo_heap_is : exists L, heap_is demo_heap.1 demo_heap.2 L /\ rows L = [(demo_rid, demo_row)] /\ (length L <= 1)%nat.
Proof.
  pose proof (new_ok pool0) as H. rewrite heap0_new in H. destruct H as (b & HH & Hr).
  assert (Hv : meta_valid demo_row.1) by (unfold meta_valid, u64_max; vm_compute; split; discriminate).
  assert (Hb : Forall is_byte demo_row.2) by (repeat constructor; unfold is_byte; lia).
  pose proof (heap_insert_ok _ _ _ demo_row.1 demo_row.2 HH Hv Hb) as Hi.
  assert (E : (insert_with_meta demo_row.1 demo_row.2 heap0).1 = Ok demo_rid) by (vm_compute; reflexivity).
  assert (Es : base.size (mp_pages demo_heap.2) = 1%nat) by (vm_compute; reflexivity).
  unfold demo_heap in *. rewrite <- surjective_pairing in Hi.
  destruct (insert_with_meta demo_row.1 demo_row.2 heap0) as [r [h p]]. cbn [fst] in E. subst r.
  destruct Hi as (L' & HH' & Hrows & _). exists L'. split_and!; [done|by rewrite Hrows, Hr|].
  pose proof (chain_length _ _ _ (hi_chain _ _ _ HH')) as Hlen. cbn in *. lia.
Qed.

Definition demo_run := roll_back_recovered 2 1 (Z.to_nat PAGE_SIZE) [demo_heap.1] demo_unfinished (demo_heap.2, TxnManager.new).

Lemma recovery_rolls_back_witness : demo_run.1 = Ok 1 /\
  match demo_run with
  | (Ok n, (p', m')) => exists Ls', tables p' [demo_heap.1] Ls' /\
      row_map (concat Ls') = {[ demo_rid := (mkMeta 3 false, [1; 2; 3]) ]} /\ txn_log m' = [REnd demo_id]
  | _ => False
  end.
Proof.
  assert (E : demo_run.1 = Ok 1) by (vm_compute; reflexivity). split; [exact E|].
  destruct demo_heap_is as (L & HH & Hr & Hl).
  assert (HT : tables demo_heap.2 [demo_heap.1] [L]).
  { split; [constructor; [exact HH|constructor]|]. cbn. rewrite app_nil_r. apply HH. }
  assert (Hrow : row_map (concat [L]) = {[ demo_rid := demo_row ]}) by (unfold row_map; cbn [concat]; rewrite app_nil_r, Hr; done).
  pose proof (recovery_rolls_back demo_unfinished [demo_heap.1] [L] demo_heap.2 TxnManager.new {[ demo_rid := demo_row ]} 2 1
    (Z.to_nat PAGE_SIZE) demo_images HT ltac:(rewrite Hrow; apply partly_refl) ltac:(rewrite Z2Nat.id; [lia|unfold PAGE_SIZE; lia])
    ltac:(cbn; rewrite app_nil_r; lia) ltac:(vm_compute; lia)) as H.
  fold demo_run in H. destruct demo_run as [[n|e|] [p' m']]; cbn [fst] in E; [|discriminate E|discriminate E].
  destruct H as (Ls' & H1 & H2 & _ & H4). exists Ls'. split; [exact H1|]. split; [|exact H4]. rewrite H2. by vm_compute.
Defined.
