(* ===== verification/Slotted.v ===== *)
(** * Slotted entries of B+ tree pages

    Models [src/src/index/slotted.rs] on the bytes of a page, and the part of
    [src/src/index/page_codec.rs] that names what can be wrong with a page. *)

From Stdlib Require Import ZArith Lia String.
From stdpp Require Import base list numbers option.
From S2P Require Import Prelude Bytes Ids Buf.

Local Open Scope Z_scope.

Inductive PageCodecError : Type :=
| BadMagic
| UnsupportedVersion (v : Z)
| WrongPageKind (expected actual : Z)
| InvalidPageKind (k : Z)
| PKeyTooLong (max actual : Z)
| InvalidSize
| Malformed (msg : string)
| PBufferError (e : BufferError).

Definition SLOT_ENCODED_BYTES : Z := 2.

(** [u16::try_from(at).expect(..)] *)
Definition page_offset {E} (at_ : Z) : outcome E Z :=
  if (0 <=? at_) && (at_ <=? u16_max) then Ok at_ else Panic.

Definition SLOTS_PAST_PAGE : PageCodecError := Malformed "slot array runs past the page".
Definition ENTRY_OUT_OF_BOUNDS : PageCodecError :=
  Malformed "entry offsets are out of order or outside the page".

Record EntryArea : Type := mkArea { slots_start : Z; payload_len : Z }.

(** [a - b] of two [usize]s, which panics below 0. *)
Definition sub_usize {E} (a b : Z) : outcome E Z := if b <=? a then Ok (a - b) else Panic.

(** [buf.copy_within(lo..hi, dest)] *)
Definition copy_within {E} (buf : bytes) (lo hi dest : Z) : outcome E bytes :=
  if (0 <=? lo) && (lo <=? hi) && (hi <=? len buf) && (0 <=? dest) && (dest + (hi - lo) <=? len buf)
  then Ok (splice buf dest (sub buf lo (hi - lo))) else Panic.

(** [buf[lo..hi].fill(0)] *)
Definition fill_zero {E} (buf : bytes) (lo hi : Z) : outcome E bytes :=
  copy_from_slice buf lo hi (replicate (Z.to_nat (hi - lo)) 0).

Module EntryArea.

Section area.
Context (area : EntryArea).

Definition capacity : Z := PAGE_SIZE - slots_start area.
Definition entry_cost (key_len : Z) : Z := SLOT_ENCODED_BYTES + key_len + payload_len area.

Definition slot_offset (i : Z) : Z := slots_start area + i * SLOT_ENCODED_BYTES.

Definition start {E} (buf : bytes) (i : Z) : outcome E Z := get_u16_le buf (slot_offset i).

Definition end_ {E} (buf : bytes) (n i : Z) : outcome E Z :=
  if i + 1 <? n then start buf (i + 1) else Ok PAGE_SIZE.

Definition data_start {E} (buf : bytes) (n : Z) : outcome E Z :=
  if n =? 0 then Ok PAGE_SIZE else start buf 0.

Definition used {E} (buf : bytes) (n : Z) : outcome E Z :=
  ds ← data_start buf n;
  d ← sub_usize PAGE_SIZE ds;
  Ok (n * SLOT_ENCODED_BYTES + d).

Definition free {E} (buf : bytes) (n : Z) : outcome E Z :=
  u ← used buf n;
  sub_usize capacity u.

(** The loop of [check] over the entries from [i] on; [k] are left. *)
Fixpoint check_entries (k : nat) (buf : bytes) (n i : Z) : outcome PageCodecError unit :=
  match k with
  | O => Ok tt
  | S k =>
      s ← start buf i;
      e ← end_ buf n i;
      if e <? s + payload_len area then Err ENTRY_OUT_OF_BOUNDS
      else check_entries k buf n (i + 1)
  end.

Definition check (buf : bytes) (n : Z) : outcome PageCodecError unit :=
  if negb (len buf =? PAGE_SIZE) then Err InvalidSize
  else
    let slots_end := n * SLOT_ENCODED_BYTES + slots_start area in
    if negb (slots_end <=? PAGE_SIZE) then Err SLOTS_PAST_PAGE
    else if n =? 0 then Ok tt
    else
      s0 ← start buf 0;
      if s0 <? slots_end then Err ENTRY_OUT_OF_BOUNDS
      else check_entries (Z.to_nat n) buf n 0.

Definition key {E} (buf : bytes) (n i : Z) : outcome E bytes :=
  _ ← rassert (i <? n);
  e ← end_ buf n i;
  s ← start buf i;
  e' ← sub_usize e (payload_len area);
  slice buf s e'.

Definition payload {E} (buf : bytes) (n i : Z) : outcome E bytes :=
  _ ← rassert (i <? n);
  e ← end_ buf n i;
  e' ← sub_usize e (payload_len area);
  slice buf e' e.

Definition put_entry {E} (buf : bytes) (i at_ : Z) (key payload : bytes) : outcome E (bytes * Z) :=
  _ ← rassert (len payload =? payload_len area);
  o ← page_offset at_;
  buf ← put_u16_le buf (slot_offset i) o;
  let key_end := at_ + len key in
  buf ← copy_from_slice buf at_ key_end key;
  buf ← copy_from_slice buf key_end (key_end + len payload) payload;
  Ok (buf, key_end + len payload).

(** The encoders' loop: entries [i], [i + 1], ... laid out from offset [at_] on. *)
Fixpoint put_entries {E} (es : list (bytes * bytes)) (i at_ : Z) (buf : bytes) : outcome E (bytes * Z) :=
  match es with
  | [] => Ok (buf, at_)
  | (key, payload) :: es =>
      '(buf, at_) ← put_entry buf i at_ key payload;
      put_entries es (i + 1) at_ buf
  end.

Definition set_payload {E} (buf : bytes) (n i : Z) (payload : bytes) : outcome E bytes :=
  _ ← rassert (len payload =? payload_len area);
  e ← end_ buf n i;
  e' ← sub_usize e (payload_len area);
  copy_from_slice buf e' e payload.

(** Slots [i], [i + 1], ... ([k] of them) moved by [delta]. *)
Fixpoint move_starts {E} (k : nat) (i delta : Z) (buf : bytes) : outcome E bytes :=
  match k with
  | O => Ok buf
  | S k =>
      s ← start buf i;
      o ← page_offset (s + delta);
      buf ← put_u16_le buf (slot_offset i) o;
      move_starts k (i + 1) delta buf
  end.

Definition insert {E} (buf : bytes) (n pos : Z) (key payload : bytes) : outcome E bytes :=
  _ ← rassert (pos <=? n);
  let l := len key + len payload in
  f ← free buf n;
  _ ← rassert (entry_cost (len key) <=? f);
  ds ← data_start buf n;
  at_ ← (if pos <? n then start buf pos else Ok PAGE_SIZE);
  dest ← sub_usize ds l;
  buf ← copy_within buf ds at_ dest;
  buf ← move_starts (Z.to_nat pos) 0 (- l) buf;
  let slot := slot_offset pos in
  buf ← copy_within buf slot (slot_offset n) (slot + SLOT_ENCODED_BYTES);
  at' ← sub_usize at_ l;
  '(buf, _) ← put_entry buf pos at' key payload;
  Ok buf.

Definition remove {E} (buf : bytes) (n pos : Z) : outcome E bytes :=
  _ ← rassert (pos <? n);
  s ← start buf pos;
  e ← end_ buf n pos;
  l ← sub_usize e s;
  ds ← data_start buf n;
  buf ← copy_within buf ds s (ds + l);
  buf ← fill_zero buf ds (ds + l);
  buf ← move_starts (Z.to_nat pos) 0 l buf;
  let slot := slot_offset pos in
  let slots_end := slot_offset n in
  buf ← copy_within buf (slot + SLOT_ENCODED_BYTES) slots_end slot;
  fill_zero buf (slots_end - SLOT_ENCODED_BYTES) slots_end.

End area.
End EntryArea.
