(* ===== verification/SlottedProofs.v ===== *)
(** * What a slotted page holds

    A page whose entry area is well formed holds a list of entries; the operations of
    [Slotted] on its bytes are the list operations on it. *)

From Stdlib Require Import ZArith Lia String.
From stdpp Require Import base list numbers option.
From S2P Require Import Prelude Bytes Ids Buf Slotted.

Local Open Scope Z_scope.

(** A key and its payload. *)
Abbreviation entry := (bytes * bytes)%type.

Definition flat (e : entry) : bytes := e.1 ++ e.2.
Definition esize (es : list entry) : Z := len (concat (flat <$> es)).

Lemma esize_nil : esize [] = 0.
Proof. done. Qed.

Lemma esize_cons e es : esize (e :: es) = len (flat e) + esize es.
Proof. unfold esize. cbn. rewrite length_app. lia. Qed.

Lemma esize_app es1 es2 : esize (es1 ++ es2) = esize es1 + esize es2.
Proof. unfold esize. rewrite fmap_app, concat_app, length_app. lia. Qed.

Lemma esize_nonneg es : 0 <= esize es.
Proof. unfold esize. lia. Qed.

Lemma esize_take_drop i es : esize (take i es) + esize (drop i es) = esize es.
Proof. rewrite <- esize_app. by rewrite take_drop. Qed.

Lemma esize_drop_S i es e : es !! i = Some e -> esize (drop i es) = len (flat e) + esize (drop (S i) es).
Proof. intros He. rewrite (drop_S _ _ _ He). apply esize_cons. Qed.

Lemma esize_drop_le i j es : (i <= j)%nat -> esize (drop j es) <= esize (drop i es).
Proof.
  intros Hij. rewrite <- (esize_take_drop (j - i) (drop i es)), drop_drop.
  replace (i + (j - i))%nat with j by lia. pose proof (esize_nonneg (take (j - i) (drop i es))). lia.
Qed.

#[global] Opaque esize.

(** ** Moved bytes *)

Lemma byte_at_copied buf lo n dest i :
  0 <= lo -> 0 <= n -> lo + n <= len buf -> 0 <= dest -> dest + n <= len buf -> dest <= i < dest + n ->
  byte_at (splice buf dest (sub buf lo n)) i = byte_at buf (lo + (i - dest)).
Proof.
  intros. pose proof (len_sub buf lo n). rewrite byte_at_splice_in by lia. by rewrite byte_at_sub by lia.
Qed.

Lemma sub_copied buf lo n dest o m :
  0 <= lo -> 0 <= n -> lo + n <= len buf -> 0 <= dest -> dest + n <= len buf -> dest <= o -> 0 <= m -> o + m <= dest + n ->
  sub (splice buf dest (sub buf lo n)) o m = sub buf (lo + (o - dest)) m.
Proof.
  intros. apply sub_ext; rewrite ?length_splice; try lia. intros i Hi. rewrite byte_at_copied by lia. f_equal. lia.
Qed.

Lemma copy_within_ok {E} buf lo hi dest :
  0 <= lo -> lo <= hi -> hi <= len buf -> 0 <= dest -> dest + (hi - lo) <= len buf ->
  @copy_within E buf lo hi dest = Ok (splice buf dest (sub buf lo (hi - lo))).
Proof. intros. unfold copy_within. rewrite !(proj2 (Z.leb_le _ _)) by lia. done. Qed.

Lemma fill_zero_ok {E} buf lo hi :
  0 <= lo -> lo <= hi -> hi <= len buf -> @fill_zero E buf lo hi = Ok (splice buf lo (replicate (Z.to_nat (hi - lo)) 0)).
Proof. intros. unfold fill_zero. apply copy_from_slice_ok; try lia. rewrite length_replicate. lia. Qed.

Lemma sub_usize_ok {E} a b : b <= a -> @sub_usize E a b = Ok (a - b).
Proof. intros. unfold sub_usize. by rewrite (proj2 (Z.leb_le _ _)) by lia. Qed.

Lemma page_offset_ok {E} a : 0 <= a <= PAGE_SIZE -> @page_offset E a = Ok a.
Proof. unfold page_offset, u16_max, PAGE_SIZE. intros. by rewrite !(proj2 (Z.leb_le _ _)) by lia. Qed.

Section area.
Context (area : EntryArea).
Import EntryArea.

Abbreviation slot_at i := (slots_start area + i * 2).

Record holds (buf : bytes) (es : list entry) : Prop := {
  h_len : len buf = PAGE_SIZE;
  h_area : 0 <= slots_start area /\ 0 <= payload_len area;
  h_pay : Forall (fun e => len e.2 = payload_len area) es;
  h_fit : slots_start area + 2 * len es + esize es <= PAGE_SIZE;
  h_slots : forall i, (i < length es)%nat -> le_at 2 buf (slot_at (Z.of_nat i)) = PAGE_SIZE - esize (drop i es);
  h_data : sub buf (PAGE_SIZE - esize es) (esize es) = concat (flat <$> es);
}.

(** ** Reads *)

Section reads.
Context (buf : bytes) (es : list entry) (H : holds buf es).

Lemma start_ok {E} i : (i < length es)%nat -> @start area E buf (Z.of_nat i) = Ok (PAGE_SIZE - esize (drop i es)).
Proof using H.
  intros Hi. destruct H as [Hl Ha _ Hf Hs _]. unfold start, get_u16_le, slot_offset, SLOT_ENCODED_BYTES.
  pose proof (esize_nonneg es). rewrite get_le_ok by lia. by rewrite Hs.
Qed.

(** Where entry [i] starts, or the end of the page. *)
Lemma from_ok {E} i : (i <= length es)%nat ->
  (if Z.of_nat i <? len es then @start area E buf (Z.of_nat i) else Ok PAGE_SIZE) = Ok (PAGE_SIZE - esize (drop i es)).
Proof using H.
  intros Hi. destruct (Z.ltb_spec (Z.of_nat i) (len es)); [by apply start_ok; lia|].
  rewrite drop_ge by lia. rewrite esize_nil. by rewrite Z.sub_0_r.
Qed.

Lemma entry_end_ok {E} i : (i < length es)%nat -> @end_ area E buf (len es) (Z.of_nat i) = Ok (PAGE_SIZE - esize (drop (S i) es)).
Proof using H. intros Hi. unfold end_. replace (Z.of_nat i + 1) with (Z.of_nat (S i)) by lia. apply from_ok. lia. Qed.

Lemma data_start_ok {E} : @data_start area E buf (len es) = Ok (PAGE_SIZE - esize es).
Proof using H.
  unfold data_start. destruct (Z.eqb_spec (len es) 0) as [E0|].
  - assert (es = []) as -> by (destruct es; [done|cbn in E0; lia]). by rewrite esize_nil, Z.sub_0_r.
  - rewrite (start_ok 0) by lia. by rewrite drop_0.
Qed.

Lemma used_ok {E} : @used area E buf (len es) = Ok (2 * len es + esize es).
Proof using H.
  unfold used. rewrite data_start_ok. cbn [mbind outcome_bind]. pose proof (esize_nonneg es).
  rewrite sub_usize_ok by lia. cbn [mbind outcome_bind]. f_equal. unfold SLOT_ENCODED_BYTES. lia.
Qed.

Lemma entries_free_ok {E} : @free area E buf (len es) = Ok (capacity area - (2 * len es + esize es)).
Proof using H.
  unfold free. rewrite used_ok. cbn [mbind outcome_bind]. destruct H as [_ _ _ Hf _ _]. apply sub_usize_ok. unfold capacity. lia.
Qed.

(** The bytes of the entries from [i] on, and of entry [i]. *)
Lemma data_from i : sub buf (PAGE_SIZE - esize (drop i es)) (esize (drop i es)) = concat (flat <$> drop i es).
Proof using H.
  destruct H as [Hl Ha _ Hf _ Hd]. pose proof (esize_take_drop i es) as Ht. pose proof (esize_nonneg (take i es)).
  pose proof (esize_nonneg (drop i es)). pose proof (f_equal (fun l => sub l (esize (take i es)) (esize (drop i es))) Hd) as E.
  cbn beta in E. rewrite sub_sub in E by lia. replace (PAGE_SIZE - esize es + esize (take i es)) with (PAGE_SIZE - esize (drop i es)) in E by lia.
  rewrite E. rewrite <- (take_drop i es) at 1. rewrite fmap_app, concat_app.
  rewrite sub_app_r by done. change (len (concat (flat <$> take i es))) with (esize (take i es)). rewrite Z.sub_diag.
  apply sub_all.
Qed.

Lemma data_upto i : sub buf (PAGE_SIZE - esize es) (esize (take i es)) = concat (flat <$> take i es).
Proof using H.
  destruct H as [Hl Ha _ Hf _ Hd]. pose proof (esize_take_drop i es) as Ht. pose proof (esize_nonneg (take i es)).
  pose proof (esize_nonneg (drop i es)). pose proof (f_equal (fun l => sub l 0 (esize (take i es))) Hd) as E.
  cbn beta in E. rewrite sub_sub in E by lia. rewrite Z.add_0_r in E. rewrite E.
  rewrite <- (take_drop i es) at 1. rewrite fmap_app, concat_app. apply sub_app_l.
Qed.

Lemma data_entry i e : es !! i = Some e -> sub buf (PAGE_SIZE - esize (drop i es)) (len (flat e)) = flat e.
Proof using H.
  intros He. pose proof (data_from i) as Hd. rewrite (drop_S _ _ _ He) in Hd. cbn in Hd. rewrite esize_cons in Hd.
  pose proof (f_equal (fun l => sub l 0 (len (flat e))) Hd) as E. cbn beta in E. rewrite sub_app_l in E.
  etrans; [|exact E]. pose proof (esize_nonneg (drop (S i) es)).
  pose proof (esize_drop_S i es e He). pose proof (esize_drop_le 0 i es ltac:(lia)). rewrite drop_0 in *.
  destruct H as [Hl Ha _ Hf _ _]. rewrite sub_sub by lia. f_equal; lia.
Qed.

Lemma entry_pay i e : es !! i = Some e -> len e.2 = payload_len area.
Proof using H. intros He. destruct H as [_ _ Hp _ _ _]. by apply (Forall_lookup_1 _ _ _ _ Hp He). Qed.

Lemma key_ok {E} i e : es !! i = Some e -> @key area E buf (len es) (Z.of_nat i) = Ok e.1.
Proof using H.
  intros He. pose proof (lookup_lt_Some _ _ _ He) as Hi. pose proof (entry_pay _ _ He) as Hp.
  unfold key. rewrite (proj2 (Z.ltb_lt _ _)) by lia. cbn [rassert mbind outcome_bind]. rewrite entry_end_ok, start_ok by done.
  cbn [mbind outcome_bind]. pose proof (esize_drop_S i es e He) as Es. pose proof (esize_nonneg (drop (S i) es)).
  pose proof (esize_drop_le 0 i es ltac:(lia)). rewrite drop_0 in *. destruct H as [Hl Ha _ Hf _ _].
  unfold flat in Es. rewrite length_app in Es. rewrite sub_usize_ok by lia. cbn [mbind outcome_bind].
  rewrite slice_ok by lia. f_equal. pose proof (data_entry i e He) as Hd.
  pose proof (f_equal (fun l => sub l 0 (len e.1)) Hd) as Ed. unfold flat in Ed. cbn beta in Ed. rewrite sub_app_l in Ed.
  rewrite sub_sub in Ed by (rewrite ?length_app; lia). rewrite Z.add_0_r in Ed. etrans; [|exact Ed]. f_equal. lia.
Qed.

Lemma payload_ok {E} i e : es !! i = Some e -> @payload area E buf (len es) (Z.of_nat i) = Ok e.2.
Proof using H.
  intros He. pose proof (lookup_lt_Some _ _ _ He) as Hi. pose proof (entry_pay _ _ He) as Hp.
  unfold payload. rewrite (proj2 (Z.ltb_lt _ _)) by lia. cbn [rassert mbind outcome_bind]. rewrite entry_end_ok by done.
  cbn [mbind outcome_bind]. pose proof (esize_drop_S i es e He) as Es. pose proof (esize_nonneg (drop (S i) es)).
  pose proof (esize_drop_le 0 i es ltac:(lia)). rewrite drop_0 in *. destruct H as [Hl Ha _ Hf _ _].
  unfold flat in Es. rewrite length_app in Es. rewrite sub_usize_ok by lia. cbn [mbind outcome_bind].
  rewrite slice_ok by lia. f_equal. pose proof (data_entry i e He) as Hd.
  pose proof (f_equal (fun l => sub l (len e.1) (len e.2)) Hd) as Ed. unfold flat in Ed. cbn beta in Ed.
  rewrite sub_app_r, Z.sub_diag, sub_all in Ed by done. rewrite sub_sub in Ed by (rewrite ?length_app; lia).
  etrans; [|exact Ed]. f_equal; lia.
Qed.

Lemma check_entries_ok k : forall i, (i + k <= length es)%nat -> check_entries area k buf (len es) (Z.of_nat i) = Ok tt.
Proof using H.
  induction k as [|k IH]; intros i Hi; [done|]. cbn [check_entries]. rewrite start_ok, entry_end_ok by lia. cbn [mbind outcome_bind].
  destruct (lookup_lt_is_Some_2 es i ltac:(lia)) as [e He]. pose proof (esize_drop_S i es e He) as Es.
  pose proof (entry_pay _ _ He). unfold flat in Es. rewrite length_app in Es. rewrite (proj2 (Z.ltb_ge _ _)) by lia.
  replace (Z.of_nat i + 1) with (Z.of_nat (S i)) by lia. apply IH. lia.
Qed.

Lemma check_ok : check area buf (len es) = Ok tt.
Proof using H.
  pose proof (esize_nonneg es). unfold check. rewrite (proj2 (Z.eqb_eq _ _) (h_len _ _ H)). cbn [negb].
  pose proof (h_fit _ _ H). unfold SLOT_ENCODED_BYTES. rewrite (proj2 (Z.leb_le _ _)) by lia. cbn [negb].
  destruct (Z.eqb_spec (len es) 0); [done|]. rewrite (start_ok 0) by lia. cbn [mbind outcome_bind]. rewrite drop_0.
  rewrite (proj2 (Z.ltb_ge _ _)) by lia. rewrite Nat2Z.id. apply (check_entries_ok (length es) 0). lia.
Qed.

End reads.

(** ** Moving slots *)

Lemma move_starts_ok {E} delta k : forall i buf,
  len buf = PAGE_SIZE -> 0 <= slots_start area -> 0 <= i -> slot_at (i + Z.of_nat k) <= PAGE_SIZE ->
  (forall j, i <= j < i + Z.of_nat k -> 0 <= le_at 2 buf (slot_at j) + delta <= PAGE_SIZE) ->
  exists buf', @move_starts area E k i delta buf = Ok buf' /\ len buf' = PAGE_SIZE /\
    (forall j, i <= j < i + Z.of_nat k -> le_at 2 buf' (slot_at j) = le_at 2 buf (slot_at j) + delta) /\
    (forall o m, 0 <= o -> 0 <= m -> o + m <= PAGE_SIZE -> o + m <= slot_at i \/ slot_at (i + Z.of_nat k) <= o ->
       sub buf' o m = sub buf o m).
Proof.
  induction k as [|k IH]; intros i buf Hl Ha Hi Hk Hj; cbn [move_starts].
  { exists buf. split_and!; try done. intros j. lia. }
  unfold start, get_u16_le, put_u16_le, slot_offset, SLOT_ENCODED_BYTES. rewrite get_le_ok by lia. cbn [mbind outcome_bind].
  pose proof (Hj i ltac:(lia)) as Hi0. rewrite page_offset_ok by done. cbn [mbind outcome_bind].
  rewrite put_le_ok by lia. cbn [mbind outcome_bind]. set (v := le_at 2 buf (slot_at i) + delta) in *.
  set (b1 := splice buf (slot_at i) (to_le 2 v)).
  assert (Hb1 : len b1 = PAGE_SIZE) by (unfold b1; by rewrite length_splice).
  assert (Hsame : forall j, i < j -> slot_at j + 2 <= PAGE_SIZE -> le_at 2 b1 (slot_at j) = le_at 2 buf (slot_at j)).
  { intros j Hj' Hj2. unfold b1. apply le_at_splice_disjoint; rewrite ?length_to_le; lia. }
  destruct (IH (i + 1) b1 Hb1 Ha ltac:(lia) ltac:(lia)) as (b' & -> & Hl' & Hs & Hf).
  { intros j Hj'. rewrite Hsame by lia. apply Hj. lia. }
  assert (Hold : forall o m, 0 <= o -> 0 <= m -> o + m <= PAGE_SIZE -> o + m <= slot_at i \/ slot_at (i + 1) <= o -> sub b1 o m = sub buf o m).
  { intros o m Ho Hm Hom Hd. unfold b1. apply sub_splice_disjoint; rewrite ?length_to_le; lia. }
  exists b'. split_and!; [done|done| |].
  - intros j Hj'. destruct (decide (j = i)) as [->|].
    + unfold le_at. rewrite Hf by lia. change (le_at 2 b1 (slot_at i) = v). unfold b1.
      apply le_at_splice_same; [done|done|lia|lia|]. unfold PAGE_SIZE in *. cbn. lia.
    + rewrite Hs by lia. by rewrite Hsame by lia.
  - intros o m Ho Hm Hom Hd. rewrite Hf by lia. apply Hold; lia.
Qed.

(** ** Writes *)

(** The list with an entry put in. *)
Definition put_in (pos : nat) (e : entry) (es : list entry) : list entry := take pos es ++ e :: drop pos es.

Lemma put_in_drop pos k p es i : (pos <= length es)%nat ->
  esize (drop i (put_in pos (k, p) es)) =
    if decide (i <= pos)%nat then esize (drop i es) + (len k + len p) else esize (drop (i - 1) es).
Proof.
  intros Hpos. unfold put_in. case_decide as Hi.
  - rewrite drop_app_le by (rewrite length_take; lia). rewrite esize_app, esize_cons. unfold flat. cbn [fst snd].
    rewrite length_app. rewrite <- (take_drop pos es) at 3. rewrite drop_app_le by (rewrite length_take; lia). rewrite esize_app. lia.
  - rewrite drop_app_ge by (rewrite length_take; lia). rewrite length_take.
    replace (i - pos `min` length es)%nat with (S (i - pos - 1)) by lia. cbn [drop]. rewrite drop_drop. do 2 f_equal. lia.
Qed.

Lemma insert_ok {E} buf es pos k p : holds buf es -> (pos <= length es)%nat -> len p = payload_len area ->
  2 + len k + len p <= PAGE_SIZE - slots_start area - (2 * len es + esize es) ->
  exists buf', @insert area E buf (len es) (Z.of_nat pos) k p = Ok buf' /\ holds buf' (put_in pos (k, p) es) /\
    (forall o m, 0 <= o -> 0 <= m -> o + m <= slots_start area -> sub buf' o m = sub buf o m).
Proof.
  intros H Hpos Hp Hroom. pose proof H as [Hl [Ha1 Ha2] Hpay Hfit Hslots Hdata].
  pose proof (esize_take_drop pos es) as Htd. pose proof (esize_nonneg (take pos es)) as Hn1. pose proof (esize_nonneg (drop pos es)) as Hn2.
  unfold insert. rewrite (proj2 (Z.leb_le _ _)) by lia. cbn [rassert mbind outcome_bind]. rewrite (entries_free_ok _ _ H). cbn [mbind outcome_bind].
  unfold entry_cost, capacity, SLOT_ENCODED_BYTES. rewrite (proj2 (Z.leb_le _ _)) by lia. cbn [rassert mbind outcome_bind].
  rewrite (data_start_ok _ _ H). cbn [mbind outcome_bind]. rewrite (from_ok _ _ H) by done. cbn [mbind outcome_bind].
  set (l := len k + len p) in *. set (ds := PAGE_SIZE - esize es) in *. set (a := PAGE_SIZE - esize (drop pos es)) in *.
  rewrite (sub_usize_ok ds l) by lia. cbn [mbind outcome_bind]. rewrite copy_within_ok by lia. cbn [mbind outcome_bind].
  set (b1 := splice buf (ds - l) (sub buf ds (a - ds))).
  assert (Hc1 : len (sub buf ds (a - ds)) = a - ds) by (apply len_sub; lia).
  assert (Hb1 : len b1 = PAGE_SIZE) by (unfold b1; by rewrite length_splice).
  assert (Hs1 : forall i, (i < length es)%nat -> le_at 2 b1 (slot_at (Z.of_nat i)) = PAGE_SIZE - esize (drop i es)).
  { intros i Hi. rewrite <- Hslots by done. unfold b1. apply le_at_splice_disjoint; lia. }
  destruct (move_starts_ok (E := E) (- l) pos 0 b1 Hb1 Ha1 ltac:(lia) ltac:(lia)) as (b2 & Em & Hb2 & Hs2 & Hf2).
  { intros j Hj. rewrite <- (Z2Nat.id j) by lia. rewrite Hs1 by lia. pose proof (esize_drop_le (Z.to_nat j) pos es ltac:(lia)).
    pose proof (esize_drop_le 0 (Z.to_nat j) es ltac:(lia)). rewrite drop_0 in *. lia. }
  rewrite Nat2Z.id. rewrite Em. cbn [mbind outcome_bind]. unfold slot_offset, SLOT_ENCODED_BYTES.
  rewrite copy_within_ok by lia. cbn [mbind outcome_bind].
  set (c2 := sub b2 (slot_at (Z.of_nat pos)) (slot_at (len es) - slot_at (Z.of_nat pos))).
  assert (Hc2 : len c2 = 2 * (len es - Z.of_nat pos)) by (unfold c2; rewrite len_sub; lia).
  set (b3 := splice b2 (slot_at (Z.of_nat pos) + 2) c2).
  assert (Hb3 : len b3 = PAGE_SIZE) by (unfold b3; by rewrite length_splice).
  rewrite sub_usize_ok by lia. cbn [mbind outcome_bind]. unfold put_entry, put_u16_le, slot_offset, SLOT_ENCODED_BYTES.
  rewrite (proj2 (Z.eqb_eq _ _) Hp). cbn [rassert mbind outcome_bind]. rewrite page_offset_ok by lia. cbn [mbind outcome_bind].
  rewrite put_le_ok by lia. cbn [mbind outcome_bind]. rewrite !copy_from_slice_ok by (rewrite ?length_splice; lia). cbn [mbind outcome_bind].
  rewrite !copy_from_slice_ok by (rewrite ?length_splice; lia). cbn [mbind outcome_bind].
  set (b4 := splice b3 (slot_at (Z.of_nat pos)) (to_le 2 (a - l))).
  set (b5 := splice b4 (a - l) k). set (b6 := splice b5 (a - l + len k) p).
  assert (Hb4 : len b4 = PAGE_SIZE) by (unfold b4; by rewrite length_splice).
  assert (Hb5 : len b5 = PAGE_SIZE) by (unfold b5; by rewrite length_splice).
  assert (Hkeep : forall o m, 0 <= o -> 0 <= m -> o + m <= slot_at (len es + 1) -> sub b6 o m = sub b4 o m).
  { intros o m Ho Hm Hom. unfold b6, b5. rewrite !sub_splice_disjoint by (rewrite ?length_splice; lia). done. }
  assert (Hdat : forall o m, 0 <= m -> slot_at (len es + 1) <= o -> o + m <= PAGE_SIZE -> sub b4 o m = sub b1 o m).
  { intros o m Hm Ho Hom. unfold b4, b3. rewrite !sub_splice_disjoint by (rewrite ?length_splice, ?length_to_le; lia). apply Hf2; lia. }
  exists b6. split; [done|]. split.
  2:{ intros o m Ho Hm Hom. rewrite Hkeep by lia. unfold b4, b3. rewrite !sub_splice_disjoint by (rewrite ?length_splice, ?length_to_le; lia).
      rewrite Hf2 by lia. unfold b1. apply sub_splice_disjoint; lia. }
  assert (Hlen' : len (put_in pos (k, p) es) = len es + 1).
  { unfold put_in. rewrite length_app, length_cons, length_take, length_drop. lia. }
  assert (Hsz : esize (put_in pos (k, p) es) = esize es + l).
  { unfold put_in. rewrite esize_app, esize_cons. unfold flat. cbn [fst snd]. rewrite length_app. lia. }
  split; [unfold b6; by rewrite length_splice|done| |lia| |].
  - unfold put_in. apply Forall_app. split; [by apply Forall_take|]. constructor; [done|by apply Forall_drop].
  - intros i Hi. rewrite put_in_drop by lia. unfold le_at. rewrite Hkeep by lia. fold (le_at 2 b4 (slot_at (Z.of_nat i))). unfold b4.
    destruct (decide (i = pos)) as [->|Hne].
    { rewrite le_at_splice_same; [|done..|lia|lia|unfold PAGE_SIZE in *; cbn; lia]. case_decide; lia. }
    rewrite le_at_splice_disjoint by (rewrite ?length_to_le; lia). unfold b3. case_decide.
    + rewrite le_at_splice_disjoint by lia. rewrite Hs2, Hs1 by lia. lia.
    + unfold le_at. unfold c2. rewrite sub_copied by lia. rewrite Hf2 by lia.
      replace (slot_at (Z.of_nat pos) + (slot_at (Z.of_nat i) - (slot_at (Z.of_nat pos) + 2))) with (slot_at (Z.of_nat (i - 1))) by lia.
      fold (le_at 2 b1 (slot_at (Z.of_nat (i - 1)))). apply Hs1. lia.
  - rewrite Hsz. replace (PAGE_SIZE - (esize es + l)) with (ds - l) by lia.
    replace (esize es + l) with ((a - ds) + (l + (PAGE_SIZE - a))) by lia. rewrite !sub_app by (unfold b6, b5; rewrite ?length_splice; lia).
    replace (ds - l + (a - ds)) with (a - l) by lia. replace (a - l + l) with a by lia. unfold put_in. rewrite fmap_app, concat_app. cbn [fmap list_fmap concat].
    f_equal; [|f_equal].
    + unfold b6, b5. rewrite !sub_splice_disjoint by (rewrite ?length_splice; lia). rewrite Hdat by lia. unfold b1.
      rewrite sub_copied by lia. replace (ds + (ds - l - (ds - l))) with ds by lia. replace (a - ds) with (esize (take pos es)) by lia.
      by apply data_upto.
    + unfold flat. cbn [fst snd]. replace l with (len k + len p) by lia. rewrite sub_app by (unfold b6, b5; rewrite ?length_splice; lia).
      unfold b6. rewrite sub_splice_same by lia. f_equal. rewrite sub_splice_disjoint by lia. unfold b5. apply sub_splice_same; lia.
    + unfold b6, b5. rewrite !sub_splice_disjoint by (rewrite ?length_splice; lia). rewrite Hdat by lia. unfold b1.
      rewrite sub_splice_disjoint by lia. replace (PAGE_SIZE - a) with (esize (drop pos es)) by lia. by apply data_from.
Qed.

(** The list without an entry. *)
Definition take_out (pos : nat) (es : list entry) : list entry := take pos es ++ drop (S pos) es.

Lemma take_out_drop pos es i e : es !! pos = Some e ->
  esize (drop i (take_out pos es)) = if decide (i <= pos)%nat then esize (drop i es) - len (flat e) else esize (drop (S i) es).
Proof.
  intros He. pose proof (lookup_lt_Some _ _ _ He). unfold take_out. case_decide as Hi.
  - rewrite drop_app_le by (rewrite length_take; lia). rewrite esize_app. rewrite <- (take_drop pos es) at 3.
    rewrite drop_app_le by (rewrite length_take; lia). rewrite esize_app, (esize_drop_S _ _ _ He). lia.
  - rewrite drop_app_ge by (rewrite length_take; lia). rewrite length_take, drop_drop. do 2 f_equal. lia.
Qed.

Lemma entries_remove_ok {E} buf es pos e : holds buf es -> es !! pos = Some e ->
  exists buf', @remove area E buf (len es) (Z.of_nat pos) = Ok buf' /\ holds buf' (take_out pos es) /\
    (forall o m, 0 <= o -> 0 <= m -> o + m <= slots_start area -> sub buf' o m = sub buf o m).
Proof.
  intros H He. pose proof (lookup_lt_Some _ _ _ He) as Hpos. pose proof H as [Hl [Ha1 Ha2] Hpay Hfit Hslots Hdata].
  pose proof (esize_take_drop pos es) as Htd. pose proof (esize_nonneg (take pos es)) as Hn1.
  pose proof (esize_drop_S pos es e He) as HdS. pose proof (esize_nonneg (drop (S pos) es)) as Hn2.
  unfold remove. rewrite (proj2 (Z.ltb_lt _ _)) by lia. cbn [rassert mbind outcome_bind]. rewrite (start_ok _ _ H) by done.
  cbn [mbind outcome_bind]. rewrite (entry_end_ok _ _ H) by done. cbn [mbind outcome_bind].
  rewrite sub_usize_ok by lia. cbn [mbind outcome_bind]. rewrite (data_start_ok _ _ H). cbn [mbind outcome_bind].
  replace (PAGE_SIZE - esize (drop (S pos) es) - (PAGE_SIZE - esize (drop pos es))) with (len (flat e)) by lia.
  set (l := len (flat e)) in *. set (ds := PAGE_SIZE - esize es) in *. set (a := PAGE_SIZE - esize (drop pos es)) in *.
  rewrite copy_within_ok by lia. cbn [mbind outcome_bind]. assert (Hc1 : len (sub buf ds (a - ds)) = a - ds) by (apply len_sub; lia).
  set (b1 := splice buf (ds + l) (sub buf ds (a - ds))).
  assert (Hb1 : len b1 = PAGE_SIZE) by (unfold b1; by rewrite length_splice).
  rewrite fill_zero_ok by lia. cbn [mbind outcome_bind]. set (z1 := replicate (Z.to_nat (ds + l - ds)) 0).
  assert (Hz1 : len z1 = l) by (unfold z1; rewrite length_replicate; lia).
  set (b2 := splice b1 ds z1). assert (Hb2 : len b2 = PAGE_SIZE) by (unfold b2; by rewrite length_splice).
  assert (Hs2 : forall i, (i < length es)%nat -> le_at 2 b2 (slot_at (Z.of_nat i)) = PAGE_SIZE - esize (drop i es)).
  { intros i Hi. rewrite <- Hslots by done. unfold b2, b1. rewrite !le_at_splice_disjoint by (rewrite ?length_splice; lia). done. }
  destruct (move_starts_ok (E := E) l pos 0 b2 Hb2 Ha1 ltac:(lia) ltac:(lia)) as (b3 & Em & Hb3 & Hs3 & Hf3).
  { intros j Hj. rewrite <- (Z2Nat.id j) by lia. rewrite Hs2 by lia. pose proof (esize_drop_le (Z.to_nat j) pos es ltac:(lia)).
    pose proof (esize_drop_le 0 (Z.to_nat j) es ltac:(lia)). rewrite drop_0 in *. lia. }
  rewrite Nat2Z.id, Em. cbn [mbind outcome_bind]. unfold slot_offset, SLOT_ENCODED_BYTES.
  rewrite copy_within_ok by lia. cbn [mbind outcome_bind].
  set (c3 := sub b3 (slot_at (Z.of_nat pos) + 2) (slot_at (len es) - (slot_at (Z.of_nat pos) + 2))).
  assert (Hc3 : len c3 = 2 * (len es - Z.of_nat pos - 1)) by (unfold c3; rewrite len_sub; lia).
  set (b4 := splice b3 (slot_at (Z.of_nat pos)) c3). assert (Hb4 : len b4 = PAGE_SIZE) by (unfold b4; by rewrite length_splice).
  rewrite fill_zero_ok by lia. set (z2 := replicate (Z.to_nat (slot_at (len es) - (slot_at (len es) - 2))) 0).
  assert (Hz2 : len z2 = 2) by (unfold z2; rewrite length_replicate; lia).
  set (b5 := splice b4 (slot_at (len es) - 2) z2).
  assert (Hdat : forall o m, 0 <= m -> slot_at (len es) <= o -> o + m <= PAGE_SIZE -> sub b5 o m = sub b2 o m).
  { intros o m Hm Ho Hom. unfold b5, b4. rewrite !sub_splice_disjoint by (rewrite ?length_splice; lia). apply Hf3; lia. }
  exists b5. split; [done|]. split.
  2:{ intros o m Ho Hm Hom. unfold b5, b4. rewrite !sub_splice_disjoint by (rewrite ?length_splice; lia). rewrite Hf3 by lia.
      unfold b2, b1. rewrite !sub_splice_disjoint by (rewrite ?length_splice; lia). done. }
  assert (Hlen' : len (take_out pos es) = len es - 1).
  { unfold take_out. rewrite length_app, length_take, length_drop. lia. }
  assert (Hsz : esize (take_out pos es) = esize es - l) by (unfold take_out; rewrite esize_app; lia).
  split; [unfold b5; by rewrite length_splice|done| |lia| |].
  - unfold take_out. apply Forall_app. split; [by apply Forall_take|by apply Forall_drop].
  - intros i Hi. rewrite (take_out_drop _ _ _ _ He). fold l. unfold b5. rewrite le_at_splice_disjoint by (rewrite ?length_splice; lia).
    unfold b4. case_decide as Hip; [destruct (decide (i = pos)) as [->|Hne]|].
    + unfold le_at, c3. rewrite sub_copied by lia. rewrite Hf3 by lia.
      replace (slot_at (Z.of_nat pos) + 2 + (slot_at (Z.of_nat pos) - slot_at (Z.of_nat pos))) with (slot_at (Z.of_nat (S pos))) by lia.
      fold (le_at 2 b2 (slot_at (Z.of_nat (S pos)))). rewrite Hs2 by lia. lia.
    + rewrite le_at_splice_disjoint by lia. rewrite Hs3, Hs2 by lia. lia.
    + unfold le_at, c3. rewrite sub_copied by lia. rewrite Hf3 by lia.
      replace (slot_at (Z.of_nat pos) + 2 + (slot_at (Z.of_nat i) - slot_at (Z.of_nat pos))) with (slot_at (Z.of_nat (S i))) by lia.
      fold (le_at 2 b2 (slot_at (Z.of_nat (S i)))). by rewrite Hs2 by lia.
  - rewrite Hsz. replace (PAGE_SIZE - (esize es - l)) with (ds + l) by lia.
    replace (esize es - l) with ((a - ds) + (PAGE_SIZE - (a + l))) by lia. rewrite sub_app by (unfold b5, b4; rewrite ?length_splice; lia).
    unfold take_out. rewrite fmap_app, concat_app. f_equal.
    + rewrite Hdat by lia. unfold b2. rewrite sub_splice_disjoint by lia. unfold b1.
      rewrite sub_copied by lia. replace (ds + (ds + l - (ds + l))) with ds by lia. replace (a - ds) with (esize (take pos es)) by lia.
      by apply data_upto.
    + replace (ds + l + (a - ds)) with (a + l) by lia. rewrite Hdat by lia. unfold b2, b1. rewrite !sub_splice_disjoint by (rewrite ?length_splice; lia).
      replace (a + l) with (PAGE_SIZE - esize (drop (S pos) es)) by lia.
      replace (PAGE_SIZE - (PAGE_SIZE - esize (drop (S pos) es))) with (esize (drop (S pos) es)) by lia. by apply data_from.
Qed.

Lemma set_payload_ok {E} buf es i k p0 p : holds buf es -> es !! i = Some (k, p0) -> len p = payload_len area ->
  exists buf', @set_payload area E buf (len es) (Z.of_nat i) p = Ok buf' /\ holds buf' (<[i := (k, p)]> es) /\
    (forall o m, 0 <= o -> 0 <= m -> o + m <= slots_start area -> sub buf' o m = sub buf o m).
Proof.
  intros H He Hp. pose proof (lookup_lt_Some _ _ _ He) as Hi. pose proof H as [Hl [Ha1 Ha2] Hpay Hfit Hslots Hdata].
  pose proof (entry_pay _ _ H _ _ He) as Hp0. cbn [snd] in Hp0.
  pose proof (esize_take_drop i es) as Htd. pose proof (esize_nonneg (take i es)) as Hn1.
  pose proof (esize_drop_S i es _ He) as HdS. pose proof (esize_nonneg (drop (S i) es)) as Hn2.
  unfold flat in HdS. cbn [fst snd] in HdS. rewrite length_app in HdS.
  unfold set_payload. rewrite (proj2 (Z.eqb_eq _ _) Hp). cbn [rassert mbind outcome_bind]. rewrite (entry_end_ok _ _ H) by done.
  cbn [mbind outcome_bind]. rewrite sub_usize_ok by lia. cbn [mbind outcome_bind]. rewrite copy_from_slice_ok by lia.
  set (b := splice buf _ p). set (es' := <[i := (k, p)]> es).
  assert (Ees : es' = take i es ++ (k, p) :: drop (S i) es) by (unfold es'; by rewrite insert_take_drop).
  assert (Hdrop : forall j, esize (drop j es') = esize (drop j es)).
  { intros j. destruct (decide (j <= i)%nat).
    - assert (E1 : forall e, es !! i = Some e -> drop j es = drop j (take i es) ++ e :: drop (S i) es).
      { intros e Hie. rewrite <- (take_drop_middle _ _ _ Hie) at 1. by rewrite drop_app_le by (rewrite length_take; lia). }
      rewrite (E1 _ He). rewrite Ees, drop_app_le by (rewrite length_take; lia). rewrite !esize_app, !esize_cons. unfold flat.
      cbn [fst snd]. rewrite !length_app. lia.
    - unfold es'. by rewrite drop_insert_lt by lia. }
  pose proof (Hdrop 0%nat) as Hsz. rewrite !drop_0 in Hsz.
  exists b. split; [done|]. split.
  2:{ intros o m Ho Hm Hom. unfold b. apply sub_splice_disjoint; lia. }
  split; [unfold b; by rewrite length_splice|done|by apply Forall_insert|unfold es' in *; rewrite length_insert; lia| |].
  - intros j Hj. unfold es' in Hj. rewrite length_insert in Hj. rewrite Hdrop, <- Hslots by done. unfold b.
    apply le_at_splice_disjoint; lia.
  - rewrite Hsz. replace (esize es) with (esize (take i es) + ((len k + len p) + esize (drop (S i) es))) at 2 by lia.
    rewrite Ees, fmap_app, concat_app. cbn [fmap list_fmap concat]. rewrite !sub_app by (unfold b; rewrite ?length_splice; lia).
    f_equal; [|f_equal].
    + unfold b. rewrite sub_splice_disjoint by lia. by apply data_upto.
    + unfold flat. cbn [fst snd]. f_equal.
      * unfold b. rewrite sub_splice_disjoint by lia. pose proof (data_entry _ _ H i _ He) as Hd. unfold flat in Hd. cbn [fst snd] in Hd.
        pose proof (f_equal (fun x => sub x 0 (len k)) Hd) as Hd'. cbn beta in Hd'. rewrite sub_app_l in Hd'.
        rewrite sub_sub in Hd' by (rewrite ?length_app; lia). etrans; [|exact Hd']. f_equal. lia.
      * unfold b. replace (PAGE_SIZE - esize es + esize (take i es) + len k) with (PAGE_SIZE - esize (drop (S i) es) - payload_len area) by lia.
        apply sub_splice_same; lia.
    + unfold b. rewrite sub_splice_disjoint by lia. etrans; [|apply (data_from _ _ H (S i))]. f_equal. lia.
Qed.

(** ** Encoding *)

(** The first entries of [es] are laid out. *)
Record holds_first (buf : bytes) (n : nat) (es : list entry) : Prop := {
  hf_len : len buf = PAGE_SIZE;
  hf_slots : forall i, (i < n)%nat -> le_at 2 buf (slot_at (Z.of_nat i)) = PAGE_SIZE - esize (drop i es);
  hf_data : sub buf (PAGE_SIZE - esize es) (esize (take n es)) = concat (flat <$> take n es);
}.

Lemma put_entry_ok {E} buf n es k p : holds_first buf n es -> es !! n = Some (k, p) ->
  0 <= slots_start area -> slots_start area + 2 * len es + esize es <= PAGE_SIZE -> len p = payload_len area ->
  exists buf', @put_entry area E buf (Z.of_nat n) (PAGE_SIZE - esize (drop n es)) k p =
      Ok (buf', PAGE_SIZE - esize (drop (S n) es)) /\ holds_first buf' (S n) es /\
    (forall o m, 0 <= o -> 0 <= m -> o + m <= slots_start area -> sub buf' o m = sub buf o m).
Proof.
  intros [Hl Hs Hd] He Ha Hfit Hp. pose proof (lookup_lt_Some _ _ _ He) as Hn. pose proof (esize_take_drop n es) as Htd.
  pose proof (esize_nonneg (take n es)) as Hn1. pose proof (esize_drop_S n es _ He) as HdS. pose proof (esize_nonneg (drop (S n) es)) as Hn2.
  unfold flat in HdS. cbn [fst snd] in HdS. rewrite length_app in HdS.
  unfold put_entry, put_u16_le, slot_offset, SLOT_ENCODED_BYTES. rewrite (proj2 (Z.eqb_eq _ _) Hp). cbn [rassert mbind outcome_bind].
  set (a := PAGE_SIZE - esize (drop n es)) in *. rewrite page_offset_ok by lia. cbn [mbind outcome_bind].
  rewrite put_le_ok by lia. cbn [mbind outcome_bind]. rewrite copy_from_slice_ok by (rewrite ?length_splice; lia). cbn [mbind outcome_bind].
  rewrite copy_from_slice_ok by (rewrite ?length_splice; lia). cbn [mbind outcome_bind].
  set (b1 := splice buf (slot_at (Z.of_nat n)) (to_le 2 a)). set (b2 := splice b1 a k). set (b3 := splice b2 (a + len k) p).
  assert (Hb1 : len b1 = PAGE_SIZE) by (unfold b1; by rewrite length_splice).
  assert (Hb2 : len b2 = PAGE_SIZE) by (unfold b2; by rewrite length_splice).
  assert (Hb3 : len b3 = PAGE_SIZE) by (unfold b3; by rewrite length_splice).
  exists b3. split; [do 2 f_equal; lia|]. split.
  2:{ intros o m Ho Hm Hom. unfold b3, b2, b1. rewrite !sub_splice_disjoint by (rewrite ?length_splice, ?length_to_le; lia). done. }
  split; [done| |].
  - intros i Hi. unfold b3, b2. rewrite !le_at_splice_disjoint by (rewrite ?length_splice; lia). unfold b1. destruct (decide (i = n)) as [->|].
    + apply le_at_splice_same; [done|done|lia|lia|]. unfold PAGE_SIZE in *. cbn. lia.
    + rewrite le_at_splice_disjoint by (rewrite ?length_to_le; lia). apply Hs. lia.
  - rewrite (take_S_r _ _ _ He), fmap_app, concat_app, esize_app. cbn [fmap list_fmap concat]. rewrite app_nil_r, esize_cons, esize_nil, Z.add_0_r.
    unfold flat at 1 3. cbn [fst snd]. rewrite length_app. rewrite sub_app by lia. f_equal.
    + unfold b3, b2, b1. rewrite !sub_splice_disjoint by (rewrite ?length_splice, ?length_to_le; lia). done.
    + replace (PAGE_SIZE - esize es + esize (take n es)) with a by lia. rewrite Nat2Z.inj_add, sub_app by lia. f_equal.
      * unfold b3. rewrite sub_splice_disjoint by lia. unfold b2. apply sub_splice_same; lia.
      * unfold b3. apply sub_splice_same; lia.
Qed.

Lemma put_entries_ok {E} es : 0 <= slots_start area -> 0 <= payload_len area -> slots_start area + 2 * len es + esize es <= PAGE_SIZE ->
  Forall (fun e => len e.2 = payload_len area) es -> forall buf, len buf = PAGE_SIZE ->
  exists buf', @put_entries area E es 0 (PAGE_SIZE - esize es) buf = Ok (buf', PAGE_SIZE) /\ holds buf' es /\
    (forall o m, 0 <= o -> 0 <= m -> o + m <= slots_start area -> sub buf' o m = sub buf o m).
Proof.
  intros Ha Hpl Hfit Hpay. 
  assert (Hrest : forall rest n buf, drop n es = rest -> (n <= length es)%nat -> holds_first buf n es ->
    exists buf', @put_entries area E rest (Z.of_nat n) (PAGE_SIZE - esize (drop n es)) buf = Ok (buf', PAGE_SIZE) /\ holds_first buf' (length es) es /\
    (forall o m, 0 <= o -> 0 <= m -> o + m <= slots_start area -> sub buf' o m = sub buf o m)).
  { induction rest as [|[k p] rest IH]; intros n buf Hd Hn Hf; cbn [put_entries].
    - assert (Hlen : length (drop n es) = 0%nat) by (by rewrite Hd). rewrite length_drop in Hlen. assert (n = length es) as -> by lia.
      rewrite Hd, esize_nil, Z.sub_0_r. eauto.
    - assert (He : es !! n = Some (k, p)). { pose proof (lookup_drop es n 0) as E1. rewrite Hd, Nat.add_0_r in E1. by rewrite <- E1. }
      pose proof (Forall_lookup_1 _ _ _ _ Hpay He) as Hp. cbn [snd] in Hp.
      destruct (put_entry_ok (E := E) buf n es k p Hf He Ha Hfit Hp) as (b1 & -> & Hf1 & Hk1). cbn [mbind outcome_bind].
      pose proof (lookup_lt_Some _ _ _ He). replace (Z.of_nat n + 1) with (Z.of_nat (S n)) by lia.
      destruct (IH (S n) b1) as (b2 & -> & Hf2 & Hk2); [|lia|done|].
      { rewrite (drop_S _ _ _ He) in Hd. by injection Hd. }
      exists b2. split_and!; [done..|]. intros o m Ho Hm Hom. by rewrite Hk2, Hk1. }
  intros buf Hl. destruct (Hrest es 0%nat buf) as (b & Eb & [H1 H2 H3] & Hk); [by rewrite drop_0|lia| |].
  { split; [done|lia|]. by rewrite take_0, esize_nil. }
  rewrite drop_0 in Eb. exists b. split; [done|]. split; [|done]. rewrite firstn_all in H3. by split.
Qed.

(** ** Checked pages *)

(** Where entry [i] of [n] starts, or the end of the page. *)
Definition from (buf : bytes) (n i : nat) : Z := if (i <? n)%nat then le_at 2 buf (slot_at (Z.of_nat i)) else PAGE_SIZE.

Definition read_entry (buf : bytes) (n i : nat) : entry :=
  (sub buf (from buf n i) (from buf n (S i) - payload_len area - from buf n i),
   sub buf (from buf n (S i) - payload_len area) (payload_len area)).

(** The entries a page that [check] accepts holds. *)
Definition read_entries (buf : bytes) (n : nat) : list entry := read_entry buf n <$> seq 0 n.

Lemma from_start {E} buf n i : len buf = PAGE_SIZE -> 0 <= slots_start area -> slots_start area + 2 * Z.of_nat n <= PAGE_SIZE ->
  (i < n)%nat -> @start area E buf (Z.of_nat i) = Ok (from buf n i).
Proof.
  intros Hl Ha Hn Hi. unfold start, get_u16_le, slot_offset, SLOT_ENCODED_BYTES, from. rewrite get_le_ok by lia.
  by rewrite (proj2 (Nat.ltb_lt _ _)).
Qed.

Lemma from_end {E} buf n i : len buf = PAGE_SIZE -> 0 <= slots_start area -> slots_start area + 2 * Z.of_nat n <= PAGE_SIZE ->
  (i < n)%nat -> @end_ area E buf (Z.of_nat n) (Z.of_nat i) = Ok (from buf n (S i)).
Proof.
  intros Hl Ha Hn Hi. unfold end_. destruct (Z.ltb_spec (Z.of_nat i + 1) (Z.of_nat n)).
  - replace (Z.of_nat i + 1) with (Z.of_nat (S i)) by lia. apply from_start; lia.
  - unfold from. by rewrite (proj2 (Nat.ltb_ge _ _)) by lia.
Qed.

Lemma check_entries_inv buf n k : forall i, len buf = PAGE_SIZE -> 0 <= slots_start area ->
  slots_start area + 2 * Z.of_nat n <= PAGE_SIZE -> (i + k = n)%nat ->
  check_entries area k buf (Z.of_nat n) (Z.of_nat i) = Ok tt ->
  forall j, (i <= j < n)%nat -> from buf n j + payload_len area <= from buf n (S j).
Proof.
  induction k as [|k IH]; intros i Hl Ha Hn Hik Hc j Hj; [lia|]. cbn [check_entries] in Hc.
  rewrite (from_start buf n), from_end in Hc by lia. cbn [mbind outcome_bind] in Hc.
  destruct (Z.ltb_spec (from buf n (S i)) (from buf n i + payload_len area)); [done|].
  destruct (decide (j = i)) as [->|]; [done|]. apply (IH (S i)); try lia. by replace (Z.of_nat (S i)) with (Z.of_nat i + 1) by lia.
Qed.

Lemma from_mono buf n : 0 <= payload_len area -> (forall j, (j < n)%nat -> from buf n j + payload_len area <= from buf n (S j)) ->
  forall i j, (i <= j <= n)%nat -> from buf n i <= from buf n j.
Proof.
  intros Hp Hs i j. induction j as [|j IH]; intros Hij; [by assert (i = 0)%nat as -> by lia|].
  destruct (decide (i = S j)) as [->|]; [lia|]. specialize (Hs j ltac:(lia)). specialize (IH ltac:(lia)). lia.
Qed.

Lemma read_entries_from buf n : len buf = PAGE_SIZE -> 0 <= payload_len area -> (forall j, (j < n)%nat -> 0 <= from buf n j) ->
  (forall j, (j < n)%nat -> from buf n j + payload_len area <= from buf n (S j)) ->
  forall k i, (i + k = n)%nat -> esize (drop i (read_entries buf n)) = PAGE_SIZE - from buf n i /\
    sub buf (from buf n i) (PAGE_SIZE - from buf n i) = concat (flat <$> drop i (read_entries buf n)).
Proof.
  intros Hl Hp H0 Hs. assert (Hend : from buf n n = PAGE_SIZE) by (unfold from; by rewrite Nat.ltb_irrefl).
  induction k as [|k IH]; intros i Hik.
  { assert (i = n) as -> by lia. rewrite drop_ge by (unfold read_entries; by rewrite length_fmap, length_seq). rewrite Hend, Z.sub_diag. done. }
  assert (He : read_entries buf n !! i = Some (read_entry buf n i)).
  { unfold read_entries. rewrite list_lookup_fmap, lookup_seq_lt by lia. done. }
  destruct (IH (S i) ltac:(lia)) as [IH1 IH2]. pose proof (Hs i ltac:(lia)). pose proof (H0 i ltac:(lia)).
  pose proof (from_mono buf n Hp Hs (S i) n ltac:(lia)). rewrite Hend in *.
  assert (Hflat : flat (read_entry buf n i) = sub buf (from buf n i) (from buf n (S i) - from buf n i)).
  { unfold flat, read_entry. cbn [fst snd]. replace (from buf n (S i) - from buf n i) with
      ((from buf n (S i) - payload_len area - from buf n i) + payload_len area) by lia.
    rewrite sub_app by lia. do 2 f_equal. lia. }
  rewrite (drop_S _ _ _ He), esize_cons. cbn [fmap list_fmap concat]. rewrite Hflat. rewrite len_sub by lia. split; [lia|].
  rewrite <- IH2. replace (PAGE_SIZE - from buf n i) with ((from buf n (S i) - from buf n i) + (PAGE_SIZE - from buf n (S i))) by lia.
  rewrite sub_app by lia. do 2 f_equal. lia.
Qed.

(** [check] accepts exactly the pages that hold [n] entries. *)
Lemma check_holds buf (n : nat) : Forall is_byte buf -> 0 <= slots_start area -> 0 <= payload_len area ->
  check area buf (Z.of_nat n) = Ok tt -> holds buf (read_entries buf n).
Proof.
  intros Hbytes Ha Hp Hc. unfold check in Hc. destruct (Z.eqb_spec (len buf) PAGE_SIZE) as [Hl|]; [|done]. cbn [negb] in Hc.
  unfold SLOT_ENCODED_BYTES in Hc. destruct (Z.leb_spec (Z.of_nat n * 2 + slots_start area) PAGE_SIZE) as [Hn|]; [|done]. cbn [negb] in Hc.
  assert (Hlen : length (read_entries buf n) = n) by (unfold read_entries; by rewrite length_fmap, length_seq).
  destruct (Z.eqb_spec (Z.of_nat n) 0) as [E0|Hn0].
  { assert (n = 0%nat) as -> by lia. split; try done; [change (read_entries buf 0) with (@nil entry); rewrite esize_nil; cbn; lia|cbn; lia]. }
  pose proof (from_start (E := PageCodecError) buf n 0 Hl Ha ltac:(lia) ltac:(lia)) as Hst. change (Z.of_nat 0) with 0 in Hst. rewrite Hst in Hc. cbn [mbind outcome_bind] in Hc.
  destruct (Z.ltb_spec (from buf n 0) (Z.of_nat n * 2 + slots_start area)) as [|H0]; [done|]. rewrite Nat2Z.id in Hc.
  pose proof (check_entries_inv buf n n 0 Hl Ha ltac:(lia) ltac:(lia) Hc) as Hs.
  assert (Hs' : forall j, (j < n)%nat -> from buf n j + payload_len area <= from buf n (S j)) by (intros; apply Hs; lia).
  assert (Hpos : forall j, (j < n)%nat -> 0 <= from buf n j).
  { intros j Hj. pose proof (from_mono buf n Hp Hs' 0 j ltac:(lia)). lia. }
  pose proof (read_entries_from buf n Hl Hp Hpos Hs') as Hr.
  destruct (Hr n 0%nat ltac:(lia)) as [Hr1 Hr2]. rewrite drop_0 in Hr1, Hr2. split; [done|done| |lia| |].
  - apply Forall_fmap, Forall_forall. intros i [_ Hi]%in_seq. cbn. pose proof (from_mono buf n Hp Hs' (S i) n ltac:(lia)).
    pose proof (Hs' i ltac:(lia)). pose proof (Hpos i ltac:(lia)). assert (from buf n n = PAGE_SIZE) by (unfold from; by rewrite Nat.ltb_irrefl).
    apply len_sub; lia.
  - intros i Hi. rewrite Hlen in Hi. destruct (Hr (n - i)%nat i ltac:(lia)) as [-> _]. unfold from.
    rewrite (proj2 (Nat.ltb_lt _ _)) by done. lia.
  - rewrite Hr1. replace (PAGE_SIZE - (PAGE_SIZE - from buf n 0)) with (from buf n 0) by lia. done.
Qed.

End area.
