(* ===== verification/BPlusPage.v ===== *)
(** * B+ tree pages

    Models [src/src/index/page_codec.rs] and [src/src/index/b_plus_page.rs]: the common page
    header, the layout of a tree's pages, and internal, leaf and header pages as the code
    decodes, changes and encodes them. A debug assertion panics, as in a build with them on.

    The binary searches of the standard library say where a key is in a sorted list without
    duplicates; which of several equal keys they find is not specified, and the first is
    taken here. *)

From Stdlib Require Import ZArith Lia String.
From stdpp Require Import base list numbers option.
From S2P Require Import Prelude Bytes Ids Buf Str Slotted.

Local Open Scope Z_scope.

(** [IndexKey] *)
Abbreviation IndexKey := bytes.

Definition key_le (a b : IndexKey) : bool := match byte_order a b with Gt => false | _ => true end.
Definition key_lt (a b : IndexKey) : bool := match byte_order a b with Lt => true | _ => false end.
Definition key_eq (a b : IndexKey) : bool := match byte_order a b with Eq => true | _ => false end.

Inductive InsertError : Type := | DuplicateKey.
Inductive RemoveError : Type := | KeyNotFound.

(** ** The common header *)

Module PageCodec.

Definition MAGIC : bytes := [67; 77; 68; 66].
Definition VERSION : Z := 3.
Definition KIND_HEADER : Z := 0.
Definition KIND_INTERNAL : Z := 1.
Definition KIND_LEAF : Z := 2.
Definition U32_BYTES : Z := 4.
Definition U64_BYTES : Z := 8.
Definition KIND_OFFSET : Z := len MAGIC + 2.
Definition COMMON_HEADER_BYTES : Z := KIND_OFFSET + 1 + 1.

Definition OVERFLOW : PageCodecError := PBufferError Overflow.

Definition encode_page_id (p : option PageId) : Z := encode_u64 p.

Definition decode_page_id (raw : Z) : outcome PageCodecError (option PageId) :=
  map_err (fun _ => OVERFLOW) (decode_u64 raw).

Definition decode_child_page_id (raw : Z) : outcome PageCodecError PageId :=
  o ← decode_page_id raw;
  ok_or o (Malformed "an internal page child names no page").

Definition encode_record_id (rid : RecordId) : Z * Z := (page_id rid, slot_id rid).

Definition decode_record_id (page slot : Z) : outcome PageCodecError RecordId :=
  p ← map_err (fun _ => OVERFLOW) (PageId_try_from page);
  if slot <=? u32_max then Ok (mkRid p slot) else Err OVERFLOW.

(** The reader of a page. *)
Definition reading {A} (r : outcome BufferError A) : outcome PageCodecError A := map_err PBufferError r.

Definition write_common_header (w : BufWriter) (kind : Z) : outcome PageCodecError BufWriter :=
  w ← reading (write_bytes MAGIC w);
  w ← reading (write_u16_le VERSION w);
  w ← reading (write_u8 kind w);
  reading (write_u8 0 w).

Definition read_common_header (r : BufReader) : outcome PageCodecError (Z * BufReader) :=
  '(magic, r) ← reading (read_bytes (len MAGIC) r);
  if negb (bool_decide (magic = MAGIC)) then Err BadMagic
  else
    '(version, r) ← reading (read_u16_le r);
    if negb (version =? VERSION) then Err (UnsupportedVersion version)
    else
      '(kind, r) ← reading (read_u8 r);
      '(_, r) ← reading (read_u8 r);
      Ok (kind, r).

Definition read_common_header_of_kind (r : BufReader) (expected : Z) : outcome PageCodecError BufReader :=
  '(actual, r) ← read_common_header r;
  if negb (actual =? expected) then Err (WrongPageKind expected actual) else Ok r.

Definition peek_common_header (buf : bytes) : outcome PageCodecError Z :=
  if len buf <? COMMON_HEADER_BYTES then Err (PBufferError (BufferTooSmall COMMON_HEADER_BYTES (len buf)))
  else
    magic ← slice buf 0 4;
    if negb (bool_decide (magic = MAGIC)) then Err BadMagic
    else
      b4 ← index buf 4;
      b5 ← index buf 5;
      let version := of_le [b4; b5] in
      if negb (version =? VERSION) then Err (UnsupportedVersion version)
      else index buf KIND_OFFSET.

Definition expect_common_header (buf : bytes) (expected : Z) : outcome PageCodecError unit :=
  actual ← peek_common_header buf;
  if negb (actual =? expected) then Err (WrongPageKind expected actual) else Ok tt.

Definition put_common_header {E} (buf : bytes) (kind : Z) : outcome E bytes :=
  buf ← copy_from_slice buf 0 4 MAGIC;
  buf ← copy_from_slice buf 4 6 (to_le 2 VERSION);
  buf ← set_index buf KIND_OFFSET kind;
  set_index buf 7 0.

End PageCodec.

Import PageCodec.

(** ** Layouts *)

Definition LEAF_TOMBSTONE_CAPACITY : Z := 16.
Definition PAGE_ID_ENCODED_BYTES : Z := U64_BYTES.
Definition RECORD_ID_ENCODED_BYTES : Z := 2 * U64_BYTES.
Definition TOMBSTONE_COUNT_ENCODED_BYTES : Z := U32_BYTES.
Definition TOMBSTONE_SLOT_ENCODED_BYTES : Z := U32_BYTES.
Definition NODE_SIZE_OFFSET : Z := COMMON_HEADER_BYTES.
Definition NODE_PAGE_ID_OFFSET : Z := COMMON_HEADER_BYTES + U32_BYTES + U32_BYTES.
Definition INTERNAL_FIXED_HEADER_BYTES : Z := NODE_PAGE_ID_OFFSET + PAGE_ID_ENCODED_BYTES.
Definition LEAF_FIXED_HEADER_BYTES : Z := NODE_PAGE_ID_OFFSET + PAGE_ID_ENCODED_BYTES.
Definition HEADER_FIXED_HEADER_BYTES : Z :=
  COMMON_HEADER_BYTES + U32_BYTES + U32_BYTES + PAGE_ID_ENCODED_BYTES + PAGE_ID_ENCODED_BYTES.
Definition MIN_ENTRIES_PER_PAGE : Z := 4.

Definition leaf_slots_start (tombstone_capacity : Z) : Z :=
  LEAF_FIXED_HEADER_BYTES + TOMBSTONE_COUNT_ENCODED_BYTES + tombstone_capacity * TOMBSTONE_SLOT_ENCODED_BYTES.

Definition INTERNAL_AREA : EntryArea := mkArea INTERNAL_FIXED_HEADER_BYTES PAGE_ID_ENCODED_BYTES.

Definition longest_key_for {E} (area : EntryArea) : outcome E Z :=
  sub_usize (EntryArea.capacity area / MIN_ENTRIES_PER_PAGE) (EntryArea.entry_cost area 0).

Definition MAX_KEY_LEN : Z :=
  Z.min (EntryArea.capacity (mkArea (leaf_slots_start LEAF_TOMBSTONE_CAPACITY) RECORD_ID_ENCODED_BYTES) / MIN_ENTRIES_PER_PAGE
           - EntryArea.entry_cost (mkArea (leaf_slots_start LEAF_TOMBSTONE_CAPACITY) RECORD_ID_ENCODED_BYTES) 0)
        (EntryArea.capacity INTERNAL_AREA / MIN_ENTRIES_PER_PAGE - EntryArea.entry_cost INTERNAL_AREA 0).

Definition ensure_fits_page (needed : Z) : outcome PageCodecError unit :=
  if PAGE_SIZE <? needed then Err (PBufferError (BufferTooSmall needed PAGE_SIZE)) else Ok tt.

Inductive Edge : Type := | First | Last.

Record Layout : Type := mkLayout { max_key_len : Z; tombstone_capacity : Z }.

Module Layout.

Definition build (max_key tombstones : Z) : outcome PageCodecError Layout :=
  if max_key =? 0 then Err (Malformed "key_len must be > 0")
  else
    let leaf_slots := TOMBSTONE_SLOT_ENCODED_BYTES * tombstones + leaf_slots_start 0 in
    if negb (leaf_slots <? PAGE_SIZE) then Err (Malformed "tombstones do not fit in a leaf")
    else
      leaf ← longest_key_for (mkArea leaf_slots RECORD_ID_ENCODED_BYTES);
      internal ← longest_key_for INTERNAL_AREA;
      if Z.min leaf internal <? max_key then Err (Malformed "keys that long do not fit four to a page")
      else Ok (mkLayout max_key tombstones).

Definition new (max_key : Z) : outcome PageCodecError Layout := build max_key LEAF_TOMBSTONE_CAPACITY.

Section layout.
Context (l : Layout).

Definition leaf_area : EntryArea := mkArea (leaf_slots_start (tombstone_capacity l)) RECORD_ID_ENCODED_BYTES.
Definition internal_area : EntryArea := INTERNAL_AREA.
Definition leaf_tombstone_count_offset : Z := LEAF_FIXED_HEADER_BYTES.
Definition leaf_tombstone_offset (i : Z) : Z :=
  LEAF_FIXED_HEADER_BYTES + TOMBSTONE_COUNT_ENCODED_BYTES + i * TOMBSTONE_SLOT_ENCODED_BYTES.
Definition leaf_max_entry_bytes : Z := EntryArea.entry_cost leaf_area (max_key_len l).
Definition internal_max_entry_bytes : Z := EntryArea.entry_cost INTERNAL_AREA (max_key_len l).
Definition leaf_min_used : Z := (EntryArea.capacity leaf_area - leaf_max_entry_bytes) / 2.
Definition internal_min_used : Z := (EntryArea.capacity INTERNAL_AREA - 2 * internal_max_entry_bytes) / 2.

Definition check_key (key : IndexKey) : outcome PageCodecError unit :=
  if max_key_len l <? len key then Err (PKeyTooLong (max_key_len l) (len key)) else Ok tt.

Fixpoint check_keys (keys : list IndexKey) : outcome PageCodecError unit :=
  match keys with
  | [] => Ok tt
  | k :: keys => _ ← check_key k; check_keys keys
  end.

End layout.
End Layout.

(** [keys.is_sorted()] *)
Fixpoint is_sorted (keys : list IndexKey) : bool :=
  match keys with
  | a :: (b :: _) as rest => key_le a b && is_sorted rest
  | _ => true
  end.

(** [slice::partition_point] of a list on which [p] holds of a prefix. *)
Fixpoint partition_prefix {A} (p : A -> bool) (l : list A) : nat :=
  match l with
  | [] => 0
  | x :: l => if p x then S (partition_prefix p l) else 0
  end.

(** The loop of [balanced_split]; [left] is what the entries before [split] cost. *)
Fixpoint balanced_loop (costs : list Z) (total left : Z) (split : nat) (drop_middle : bool) (best : Z * nat) : nat :=
  match costs with
  | [] => best.2
  | cost :: costs =>
      let right := total - left - (if drop_middle then cost else 0) in
      let best :=
        if (0 <? split)%nat then
          let gap := Z.abs (left - right) in
          if gap <? best.1 then (gap, split) else best
        else best in
      balanced_loop costs total (left + cost) (S split) drop_middle best
  end.

Definition balanced_split (costs : list Z) (drop_middle : bool) : nat :=
  balanced_loop costs (zsum costs) 0 0 drop_middle (u64_max, 1%nat).

(** ** Kinds of pages *)

Inductive PageKind : Type := | KInternal | KLeaf.

Definition kind (buf : bytes) : outcome PageCodecError PageKind :=
  k ← peek_common_header buf;
  if k =? KIND_INTERNAL then Ok KInternal
  else if k =? KIND_LEAF then Ok KLeaf
  else Err (InvalidPageKind k).

(** ** Internal pages *)

Record InternalPage : Type := mkInternal { i_children : list PageId; i_keys : list IndexKey }.

(** [u32::try_from(n)?] *)
Definition to_u32 (n : Z) : outcome PageCodecError Z := if n <=? u32_max then Ok n else Err OVERFLOW.

Module InternalPage.

Section internal.
Context (layout : Layout).

Definition new : InternalPage := mkInternal [] [].

Definition cost (key : IndexKey) : Z := EntryArea.entry_cost INTERNAL_AREA (len key).
Definition used_bytes (p : InternalPage) : Z := zsum (cost <$> i_keys p).

Definition check (p : InternalPage) : outcome PageCodecError unit :=
  match i_children p, i_keys p with
  | [], [] => Ok tt
  | _, _ =>
      if negb (length (i_children p) =? length (i_keys p) + 1)%nat
      then Err (Malformed "internal invariant violated: child_count != size + 1")
      else if negb (is_sorted (i_keys p)) then Err (Malformed "internal keys out of order")
      else Layout.check_keys layout (i_keys p)
  end.

Definition debug_check {E} (p : InternalPage) : outcome E unit := rassert (is_ok (check p)).

(** A changed page, once its debug assertion passed. *)
Definition checked {E} (p : InternalPage) : outcome E InternalPage := _ ← debug_check p; Ok p.

Definition new_root {E} (left : PageId) (separator : IndexKey) (right : PageId) : outcome E InternalPage :=
  checked (mkInternal [left; right] [separator]).

Definition get_child (p : InternalPage) (i : nat) : option PageId := i_children p !! i.

Definition find_child_index (p : InternalPage) (key : IndexKey) : nat :=
  partition_prefix (fun k => key_le k key) (i_keys p).

(** [v.insert(i, x)] *)
Definition insert_at {A} (i : nat) (x : A) (l : list A) : list A := take i l ++ x :: drop i l.

Definition insert_separator {E} (p : InternalPage) (sep : IndexKey) (right : PageId) : outcome E InternalPage :=
  let i := find_child_index p sep in
  _ ← rassert (i <? length (i_children p))%nat;
  checked (mkInternal (insert_at (S i) right (i_children p)) (insert_at i sep (i_keys p))).

(** What is left of the page, the page to its right, and the key between them. *)
Definition split_into {E} (p : InternalPage) : outcome E (InternalPage * InternalPage * IndexKey) :=
  _ ← rassert (3 <=? length (i_keys p))%nat;
  _ ← debug_check p;
  let mid := Nat.min (balanced_split (cost <$> i_keys p) true) (length (i_keys p) - 2) in
  let right := mkInternal (drop (S mid) (i_children p)) (drop (S mid) (i_keys p)) in
  sep ← expect (list.last (take (S mid) (i_keys p)));
  let left := mkInternal (take (S mid) (i_children p)) (take mid (i_keys p)) in
  _ ← debug_check left;
  _ ← debug_check right;
  Ok (left, right, sep).

Definition absorb_right {E} (p : InternalPage) (sep : IndexKey) (right : InternalPage) : outcome E InternalPage :=
  _ ← debug_check p;
  _ ← debug_check right;
  checked (mkInternal (i_children p ++ i_children right) (i_keys p ++ sep :: i_keys right)).

(** The entries of the page: each key with the child to its right. *)
Definition entries (p : InternalPage) : list (bytes * bytes) :=
  zip (i_keys p) ((fun c => to_le 8 (encode_page_id (Some c))) <$> drop 1 (i_children p)).

Definition encode (p : InternalPage) (buf : bytes) : outcome PageCodecError bytes :=
  _ ← check p;
  match i_children p with
  | [] => Err (Malformed "internal page has no children")
  | leftmost :: _ =>
      let used := used_bytes p in
      _ ← ensure_fits_page (INTERNAL_FIXED_HEADER_BYTES + used);
      if negb (len buf =? PAGE_SIZE) then Err InvalidSize
      else
        buf ← fill_zero buf 0 PAGE_SIZE;
        buf ← put_common_header buf KIND_INTERNAL;
        n ← to_u32 (len (i_keys p));
        buf ← put_u32_le buf NODE_SIZE_OFFSET n;
        buf ← put_u64_le buf NODE_PAGE_ID_OFFSET (encode_page_id (Some leftmost));
        let key_bytes := zsum ((fun k => len k) <$> i_keys p) in
        at_ ← sub_usize PAGE_SIZE (key_bytes + len (i_keys p) * PAGE_ID_ENCODED_BYTES);
        '(buf, at_) ← EntryArea.put_entries INTERNAL_AREA (entries p) 0 at_ buf;
        _ ← rassert (at_ =? PAGE_SIZE);
        Ok buf
  end.

(** The keys and right children of entries [i], [i + 1], ... ([k] of them). *)
Fixpoint decode_entries (k : nat) (buf : bytes) (size i : Z) : outcome PageCodecError (list IndexKey * list PageId) :=
  match k with
  | O => Ok ([], [])
  | S k =>
      key ← EntryArea.key INTERNAL_AREA buf size i;
      child ← EntryArea.payload INTERNAL_AREA buf size i;
      raw ← (if len child =? 8 then Ok (of_le child) else Err InvalidSize);
      c ← decode_child_page_id raw;
      '(keys, children) ← decode_entries k buf size (i + 1);
      Ok (key :: keys, c :: children)
  end.

Definition decode (buf : bytes) : outcome PageCodecError InternalPage :=
  r ← reading (BufReader_new buf);
  r ← read_common_header_of_kind r KIND_INTERNAL;
  '(size, r) ← reading (read_u32_le r);
  '(_, r) ← reading (read_u32_le r);
  '(raw, r) ← reading (read_u64_le r);
  leftmost ← decode_child_page_id raw;
  _ ← EntryArea.check INTERNAL_AREA buf size;
  '(keys, children) ← decode_entries (Z.to_nat size) buf size 0;
  let page := mkInternal (leftmost :: children) keys in
  _ ← check page;
  Ok page.

Definition is_overfull (p : InternalPage) : bool := EntryArea.capacity INTERNAL_AREA <? used_bytes p.
Definition is_underfull (p : InternalPage) : bool := used_bytes p <? Layout.internal_min_used layout.

Definition can_lend (p : InternalPage) (edge : Edge) : bool :=
  match (match edge with First => head (i_keys p) | Last => list.last (i_keys p) end) with
  | Some k => Layout.internal_min_used layout <=? used_bytes p - cost k
  | None => false
  end.

Definition fits_replacing {E} (p : InternalPage) (idx : nat) (new_key : IndexKey) : outcome E bool :=
  k ← expect (i_keys p !! idx);
  Ok (used_bytes p - cost k + cost new_key <=? EntryArea.capacity INTERNAL_AREA).

(** [v.remove(i)] *)
Definition remove_at {A} (i : nat) (l : list A) : list A := take i l ++ drop (S i) l.

Definition remove_separator {E} (p : InternalPage) (left : nat) : outcome E (IndexKey * PageId * InternalPage) :=
  sep ← expect (i_keys p !! left);
  right ← expect (i_children p !! S left);
  p ← checked (mkInternal (remove_at (S left) (i_children p)) (remove_at left (i_keys p)));
  Ok (sep, right, p).

Definition pop_last_child_and_key {E} (p : InternalPage) : outcome E (IndexKey * PageId * InternalPage) :=
  child ← expect (list.last (i_children p));
  key ← expect (list.last (i_keys p));
  p ← checked (mkInternal (removelast (i_children p)) (removelast (i_keys p)));
  Ok (key, child, p).

Definition pop_first_child_and_key {E} (p : InternalPage) : outcome E (IndexKey * PageId * InternalPage) :=
  child ← expect (head (i_children p));
  key ← expect (head (i_keys p));
  p ← checked (mkInternal (drop 1 (i_children p)) (drop 1 (i_keys p)));
  Ok (key, child, p).

Definition replace_key {E} (p : InternalPage) (idx : nat) (new_key : IndexKey) : outcome E (IndexKey * InternalPage) :=
  old ← expect (i_keys p !! idx);
  p ← checked (mkInternal (i_children p) (<[idx := new_key]> (i_keys p)));
  Ok (old, p).

Definition prepend_child_and_key {E} (p : InternalPage) (key : IndexKey) (child : PageId) : outcome E InternalPage :=
  checked (mkInternal (child :: i_children p) (key :: i_keys p)).

Definition append_key_and_child {E} (p : InternalPage) (key : IndexKey) (child : PageId) : outcome E InternalPage :=
  checked (mkInternal (i_children p ++ [child]) (i_keys p ++ [key])).

End internal.
End InternalPage.

(** ** Leaf pages *)

Record LeafPage : Type := mkLeaf {
  l_entries : list (IndexKey * RecordId);
  l_next : option PageId;
  l_tombstones : list Z;
}.

(** [encode_record_id_bytes] and [decode_record_id_bytes] *)
Definition encode_record_id_bytes (rid : RecordId) : bytes :=
  let '(page, slot) := encode_record_id rid in to_le 8 page ++ to_le 8 slot.

Definition decode_record_id_bytes (payload : bytes) : outcome PageCodecError RecordId :=
  if len payload <? U64_BYTES then Err InvalidSize
  else if len payload <? RECORD_ID_ENCODED_BYTES then Err InvalidSize
  else decode_record_id (of_le (sub payload 0 U64_BYTES)) (of_le (sub payload U64_BYTES U64_BYTES)).

Module LeafPage.

Section leaf.
Context (layout : Layout).

Definition new : LeafPage := mkLeaf [] None [].

Definition first_key (p : LeafPage) : option IndexKey := fst <$> head (l_entries p).
Definition keys (p : LeafPage) : list IndexKey := (l_entries p).*1.
Definition tombstones_full (p : LeafPage) : bool := tombstone_capacity layout <=? len (l_tombstones p).

Definition cost (key : IndexKey) : Z := EntryArea.entry_cost (Layout.leaf_area layout) (len key).
Definition used_bytes (p : LeafPage) : Z := zsum (cost <$> keys p).

Definition check (p : LeafPage) : outcome PageCodecError unit :=
  if negb (is_sorted (keys p)) then Err (Malformed "leaf keys out of order")
  else if tombstone_capacity layout <? len (l_tombstones p)
  then Err (Malformed "leaf tombstones count exceeds tombstone capacity")
  else if existsb (fun slot => len (l_entries p) <=? slot) (l_tombstones p)
  then Err (Malformed "leaf tombstones index out of bounds")
  else Layout.check_keys layout (keys p).

Definition debug_check {E} (p : LeafPage) : outcome E unit := rassert (is_ok (check p)).
Definition checked {E} (p : LeafPage) : outcome E LeafPage := _ ← debug_check p; Ok p.

(** [u32::try_from(index).expect(..)] *)
Definition slot {E} (i : nat) : outcome E Z := if Z.of_nat i <=? u32_max then Ok (Z.of_nat i) else Panic.

(** Where the key is, or where it would go. *)
Definition search (p : LeafPage) (key : IndexKey) : nat + nat :=
  let pos := partition_prefix (fun e => key_lt e.1 key) (l_entries p) in
  match l_entries p !! pos with
  | Some e => if key_eq e.1 key then inl pos else inr pos
  | None => inr pos
  end.

Definition lower_bound (p : LeafPage) (key : IndexKey) : nat :=
  partition_prefix (fun e => key_lt e.1 key) (l_entries p).
Definition upper_bound (p : LeafPage) (key : IndexKey) : nat :=
  partition_prefix (fun e => key_le e.1 key) (l_entries p).

Definition is_tombstoned (p : LeafPage) (s : Z) : bool := existsb (Z.eqb s) (l_tombstones p).

Definition get {E} (p : LeafPage) (key : IndexKey) : outcome E (option RecordId) :=
  match search p key with
  | inr _ => Ok None
  | inl pos =>
      s ← slot pos;
      if is_tombstoned p s then Ok None
      else e ← expect (l_entries p !! pos); Ok (Some e.2)
  end.

(** Drops the first tombstone of slot [s]. *)
Fixpoint drop_first (s : Z) (l : list Z) : list Z :=
  match l with
  | [] => []
  | x :: l => if x =? s then l else x :: drop_first s l
  end.

Definition remove_tombstone (p : LeafPage) (s : Z) : LeafPage :=
  mkLeaf (l_entries p) (l_next p) (drop_first s (l_tombstones p)).

Definition adjust_tombstones_after_insert (at_ : Z) (ts : list Z) : list Z :=
  (fun s => if at_ <=? s then s + 1 else s) <$> ts.

Definition adjust_tombstones_after_remove (at_ : Z) (ts : list Z) : list Z :=
  (fun s => if at_ <? s then s - 1 else s) <$> List.filter (fun s => negb (s =? at_)) ts.

Definition physical_remove_at {E} (p : LeafPage) (s : Z) : outcome E LeafPage :=
  _ ← expect (l_entries p !! Z.to_nat s);
  Ok (mkLeaf (InternalPage.remove_at (Z.to_nat s) (l_entries p)) (l_next p)
        (adjust_tombstones_after_remove s (l_tombstones p))).

(** The entries of the page as the bytes of keys and record ids. *)
Definition entries (p : LeafPage) : list (bytes * bytes) :=
  (fun e => (e.1, encode_record_id_bytes e.2)) <$> l_entries p.

(** The tombstones written one after another from the [i]th on. *)
Fixpoint put_tombstones {E} (ts : list Z) (i : Z) (buf : bytes) : outcome E bytes :=
  match ts with
  | [] => Ok buf
  | s :: ts =>
      buf ← put_u32_le buf (Layout.leaf_tombstone_offset i) s;
      put_tombstones ts (i + 1) buf
  end.

Definition encode (p : LeafPage) (buf : bytes) : outcome PageCodecError bytes :=
  _ ← check p;
  let area := Layout.leaf_area layout in
  let used := used_bytes p in
  _ ← ensure_fits_page (PAGE_SIZE - EntryArea.capacity area + used);
  if negb (len buf =? PAGE_SIZE) then Err InvalidSize
  else
    buf ← fill_zero buf 0 PAGE_SIZE;
    buf ← put_common_header buf KIND_LEAF;
    n ← to_u32 (len (l_entries p));
    buf ← put_u32_le buf NODE_SIZE_OFFSET n;
    buf ← put_u64_le buf NODE_PAGE_ID_OFFSET (encode_page_id (l_next p));
    t ← to_u32 (len (l_tombstones p));
    buf ← put_u32_le buf Layout.leaf_tombstone_count_offset t;
    buf ← put_tombstones (l_tombstones p) 0 buf;
    at_ ← sub_usize PAGE_SIZE (used - len (l_entries p) * SLOT_ENCODED_BYTES);
    '(buf, at_) ← EntryArea.put_entries area (entries p) 0 at_ buf;
    _ ← rassert (at_ =? PAGE_SIZE);
    Ok buf.

Fixpoint read_tombstones (k : nat) (r : BufReader) : outcome PageCodecError (list Z * BufReader) :=
  match k with
  | O => Ok ([], r)
  | S k =>
      '(s, r) ← reading (read_u32_le r);
      '(ts, r) ← read_tombstones k r;
      Ok (s :: ts, r)
  end.

Fixpoint decode_entries (k : nat) (buf : bytes) (size i : Z) : outcome PageCodecError (list (IndexKey * RecordId)) :=
  match k with
  | O => Ok []
  | S k =>
      key ← EntryArea.key (Layout.leaf_area layout) buf size i;
      payload ← EntryArea.payload (Layout.leaf_area layout) buf size i;
      rid ← decode_record_id_bytes payload;
      es ← decode_entries k buf size (i + 1);
      Ok ((key, rid) :: es)
  end.

Definition decode (buf : bytes) : outcome PageCodecError LeafPage :=
  r ← reading (BufReader_new buf);
  r ← read_common_header_of_kind r KIND_LEAF;
  '(size, r) ← reading (read_u32_le r);
  '(_, r) ← reading (read_u32_le r);
  '(raw, r) ← reading (read_u64_le r);
  next ← decode_page_id raw;
  _ ← EntryArea.check (Layout.leaf_area layout) buf size;
  '(count, r) ← reading (read_u32_le r);
  if tombstone_capacity layout <? count then Err (Malformed "leaf tombstones count exceeds tombstone capacity")
  else
    '(ts, _) ← read_tombstones (Z.to_nat count) r;
    es ← decode_entries (Z.to_nat size) buf size 0;
    let page := mkLeaf es next ts in
    _ ← check page;
    Ok page.

Definition insert (p : LeafPage) (key : IndexKey) (rid : RecordId) : outcome InsertError LeafPage :=
  match search p key with
  | inl pos =>
      s ← slot pos;
      if negb (is_tombstoned p s) then Err DuplicateKey
      else
        e ← expect (l_entries p !! pos);
        checked (remove_tombstone (mkLeaf (<[pos := (e.1, rid)]> (l_entries p)) (l_next p) (l_tombstones p)) s)
  | inr pos =>
      s ← slot pos;
      checked (mkLeaf (InternalPage.insert_at pos (key, rid) (l_entries p)) (l_next p)
                 (adjust_tombstones_after_insert s (l_tombstones p)))
  end.

(** What is left of the leaf, the leaf to its right, which has id [right_id], and its first key. *)
Definition split_into {E} (p : LeafPage) (right_id : PageId) : outcome E (LeafPage * LeafPage * IndexKey) :=
  _ ← debug_check p;
  _ ← rassert (2 <=? length (l_entries p))%nat;
  let mid := balanced_split (cost <$> keys p) false in
  s ← slot mid;
  let left := mkLeaf (take mid (l_entries p)) (Some right_id) (List.filter (fun t => t <? s) (l_tombstones p)) in
  let right := mkLeaf (drop mid (l_entries p)) (l_next p)
    ((fun t => t - s) <$> List.filter (fun t => negb (t <? s)) (l_tombstones p)) in
  _ ← debug_check left;
  _ ← debug_check right;
  e ← expect (head (l_entries right));
  Ok (left, right, e.1).

(** The oldest tombstone and the leaf without its entry. *)
Definition purge_oldest_tombstone {E} (p : LeafPage) : outcome E (Z * LeafPage) :=
  match l_tombstones p with
  | [] => Panic
  | oldest :: ts =>
      p ← physical_remove_at (mkLeaf (l_entries p) (l_next p) ts) oldest;
      Ok (oldest, p)
  end.

(** [while self.tombstones.len() > capacity]; each turn drops a tombstone. *)
Fixpoint purge_loop {E} (fuel : nat) (p : LeafPage) : outcome E LeafPage :=
  match fuel with
  | O => Ok p
  | S fuel =>
      if tombstone_capacity layout <? len (l_tombstones p)
      then '(_, p) ← purge_oldest_tombstone p; purge_loop fuel p
      else Ok p
  end.

Definition absorb_right {E} (p right : LeafPage) : outcome E LeafPage :=
  _ ← debug_check p;
  _ ← debug_check right;
  n ← slot (length (l_entries p));
  let merged := mkLeaf (l_entries p ++ l_entries right) (l_next right)
    (l_tombstones p ++ ((fun t => t + n) <$> l_tombstones right)) in
  p ← purge_loop (length (l_tombstones merged)) merged;
  checked p.

Definition is_overfull (p : LeafPage) : bool := EntryArea.capacity (Layout.leaf_area layout) <? used_bytes p.
Definition is_underfull (p : LeafPage) : bool := used_bytes p <? Layout.leaf_min_used layout.

Definition can_lend (p : LeafPage) (edge : Edge) : bool :=
  match (match edge with First => head (l_entries p) | Last => list.last (l_entries p) end) with
  | Some e => Layout.leaf_min_used layout <=? used_bytes p - cost e.1
  | None => false
  end.

Definition key_exists (p : LeafPage) (key : IndexKey) : bool :=
  match search p key with inl _ => true | inr _ => false end.

Definition remove_key (p : LeafPage) (key : IndexKey) : outcome RemoveError LeafPage :=
  match search p key with
  | inr _ => Err KeyNotFound
  | inl pos =>
      s ← slot pos;
      if is_tombstoned p s then Err KeyNotFound
      else if tombstone_capacity layout =? 0 then
        p ← physical_remove_at p s;
        checked p
      else
        '(s, p) ←
          (if tombstones_full p then
             '(purged, p) ← purge_oldest_tombstone p;
             Ok (if purged <? s then s - 1 else s, p)
           else Ok (s, p));
        checked (mkLeaf (l_entries p) (l_next p) (l_tombstones p ++ [s]))
  end.

Definition pop_first {E} (p : LeafPage) : outcome E (option (IndexKey * RecordId * bool) * LeafPage) :=
  match l_entries p with
  | [] => Ok (None, p)
  | (key, rid) :: es =>
      let was := is_tombstoned p 0 in
      p ← checked (mkLeaf es (l_next p) (adjust_tombstones_after_remove 0 (l_tombstones p)));
      Ok (Some (key, rid, was), p)
  end.

Definition pop_last {E} (p : LeafPage) : outcome E (option (IndexKey * RecordId * bool) * LeafPage) :=
  let s := Z.of_nat (length (l_entries p) - 1) in
  if u32_max <? s then Ok (None, p)
  else
    match list.last (l_entries p) with
    | None => Ok (None, p)
    | Some (key, rid) =>
        let was := is_tombstoned p s in
        p ← checked (remove_tombstone (mkLeaf (removelast (l_entries p)) (l_next p) (l_tombstones p)) s);
        Ok (Some (key, rid, was), p)
    end.

Definition push_front {E} (p : LeafPage) (key : IndexKey) (rid : RecordId) (tombstoned : bool) : outcome E LeafPage :=
  let ts := adjust_tombstones_after_insert 0 (l_tombstones p) in
  checked (mkLeaf ((key, rid) :: l_entries p) (l_next p) (if tombstoned then ts ++ [0] else ts)).

Definition push_back {E} (p : LeafPage) (key : IndexKey) (rid : RecordId) (tombstoned : bool) : outcome E LeafPage :=
  s ← slot (length (l_entries p));
  checked (mkLeaf (l_entries p ++ [(key, rid)]) (l_next p) (if tombstoned then l_tombstones p ++ [s] else l_tombstones p)).

(** The live entries in key order. *)
Fixpoint live_from (i : Z) (p : LeafPage) (es : list (IndexKey * RecordId)) : list (IndexKey * RecordId) :=
  match es with
  | [] => []
  | e :: es => if is_tombstoned p i then live_from (i + 1) p es else e :: live_from (i + 1) p es
  end.

Definition iter (p : LeafPage) : list (IndexKey * RecordId) := live_from 0 p (l_entries p).

End leaf.
End LeafPage.

(** ** Header pages *)

Record HeaderPage : Type := mkHeader {
  root_page_id : option PageId;
  first_leaf_id : option PageId;
  h_max_key_len : Z;
}.

Module HeaderPage.

Definition encode (p : HeaderPage) (buf : bytes) : outcome PageCodecError bytes :=
  _ ← Layout.new (h_max_key_len p);
  buf ← fill_zero buf 0 (len buf);
  w ← reading (BufWriter_new buf);
  w ← write_common_header w KIND_HEADER;
  w ← reading (write_u32_le (h_max_key_len p) w);
  w ← reading (write_u32_le 0 w);
  w ← reading (write_u64_le (encode_page_id (root_page_id p)) w);
  w ← reading (write_u64_le (encode_page_id (first_leaf_id p)) w);
  _ ← rassert (w_pos w =? HEADER_FIXED_HEADER_BYTES);
  Ok (w_buf w).

Definition decode (buf : bytes) : outcome PageCodecError HeaderPage :=
  r ← reading (BufReader_new buf);
  r ← read_common_header_of_kind r KIND_HEADER;
  '(max_key, r) ← reading (read_u32_le r);
  '(_, r) ← reading (read_u32_le r);
  '(root, r) ← reading (read_u64_le r);
  root ← decode_page_id root;
  '(first, r) ← reading (read_u64_le r);
  first ← decode_page_id first;
  if max_key =? 0 then Err (Malformed "header key_len must be > 0")
  else Ok (mkHeader root first max_key).

End HeaderPage.
