(* ===== verification/PageView.v ===== *)
(** * Views of B+ tree pages

    Models [src/src/index/page_view.rs]: reads and in-place changes of header, internal and
    leaf pages on the bytes of the page. A view is its bytes; [new] validates them. *)

From Stdlib Require Import ZArith Lia String.
From stdpp Require Import base list numbers option.
From S2P Require Import Prelude Bytes Ids Buf Str Slotted BPlusPage.

Local Open Scope Z_scope.

Import PageCodec.

Definition check_len (buf : bytes) : outcome PageCodecError unit :=
  if negb (len buf =? PAGE_SIZE) then Err InvalidSize else Ok tt.

(** The loop of [partition_point] between [lo] and [hi], halving the distance each turn. *)
Fixpoint partition_loop {E} (fuel : nat) (lo hi : Z) (pred : Z -> outcome E bool) : outcome E Z :=
  match fuel with
  | O => Panic
  | S fuel =>
      if lo <? hi then
        let mid := lo + (hi - lo) / 2 in
        b ← pred mid;
        if (b : bool) then partition_loop fuel (mid + 1) hi pred else partition_loop fuel lo mid pred
      else Ok lo
  end.

Definition partition_point {E} (n : Z) (pred : Z -> outcome E bool) : outcome E Z :=
  partition_loop (S (Z.to_nat n)) 0 n pred.

Definition HDR_KEY_LEN_OFF : Z := COMMON_HEADER_BYTES.
Definition HDR_ROOT_OFF : Z := COMMON_HEADER_BYTES + 8.
Definition HDR_FIRST_LEAF_OFF : Z := COMMON_HEADER_BYTES + 16.

Module HeaderPageView.

Definition new (b : bytes) : outcome PageCodecError unit :=
  _ ← check_len b;
  _ ← expect_common_header b KIND_HEADER;
  k ← get_u32_le b HDR_KEY_LEN_OFF;
  if k =? 0 then Err (Malformed "header key_len must be > 0") else Ok tt.

Definition max_key_len {E} (b : bytes) : outcome E Z := get_u32_le b HDR_KEY_LEN_OFF.

Definition root_page_id (b : bytes) : outcome PageCodecError (option PageId) :=
  raw ← get_u64_le b HDR_ROOT_OFF; decode_page_id raw.

Definition first_leaf_id (b : bytes) : outcome PageCodecError (option PageId) :=
  raw ← get_u64_le b HDR_FIRST_LEAF_OFF; decode_page_id raw.

Definition init (b : bytes) (max_key : Z) : outcome PageCodecError bytes :=
  _ ← Layout.new max_key;
  _ ← check_len b;
  b ← fill_zero b 0 HEADER_FIXED_HEADER_BYTES;
  b ← put_common_header b KIND_HEADER;
  b ← put_u32_le b HDR_KEY_LEN_OFF max_key;
  b ← put_u64_le b HDR_ROOT_OFF (encode_page_id None);
  put_u64_le b HDR_FIRST_LEAF_OFF (encode_page_id None).

Definition set_root_page_id {E} (b : bytes) (p : option PageId) : outcome E bytes :=
  put_u64_le b HDR_ROOT_OFF (encode_page_id p).

Definition set_first_leaf_id {E} (b : bytes) (p : option PageId) : outcome E bytes :=
  put_u64_le b HDR_FIRST_LEAF_OFF (encode_page_id p).

End HeaderPageView.

Definition node_size {E} (b : bytes) : outcome E Z := get_u32_le b NODE_SIZE_OFFSET.

(** [a.saturating_sub(b)] *)
Definition saturating_sub (a b : Z) : Z := Z.max 0 (a - b).

Module InternalPageView.

Section view.
Context (layout : Layout).

Definition new (b : bytes) : outcome PageCodecError unit :=
  _ ← check_len b;
  _ ← expect_common_header b KIND_INTERNAL;
  n ← node_size b;
  EntryArea.check (Layout.internal_area) b n.

Definition size {E} (b : bytes) : outcome E Z := get_u32_le b NODE_SIZE_OFFSET.

Definition child_count {E} (b : bytes) : outcome E Z := n ← size b; Ok (n + 1).

Definition key {E} (b : bytes) (i : Z) : outcome E bytes :=
  n ← size b; EntryArea.key Layout.internal_area b n i.

Definition child (b : bytes) (i : Z) : outcome PageCodecError (option PageId) :=
  c ← child_count b;
  if c <=? i then Ok None
  else
    raw ← (if i =? 0 then get_u64_le b NODE_PAGE_ID_OFFSET
           else n ← size b;
                payload ← EntryArea.payload Layout.internal_area b n (i - 1);
                if len payload =? 8 then Ok (of_le payload) else Panic);
    c ← decode_child_page_id raw;
    Ok (Some c).

Definition used_bytes {E} (b : bytes) : outcome E Z :=
  n ← size b; EntryArea.used Layout.internal_area b n.

Definition find_child_index {E} (b : bytes) (k : bytes) : outcome E Z :=
  n ← size b;
  partition_point n (fun i => ki ← key b i; Ok (key_le ki k)).

Definition child_for (b : bytes) (k : bytes) : outcome PageCodecError (option PageId) :=
  i ← find_child_index b k; child b i.

Definition may_split_on_insert {E} (b : bytes) : outcome E bool :=
  n ← size b;
  f ← EntryArea.free Layout.internal_area b n;
  Ok (f <? Layout.internal_max_entry_bytes layout).

Definition may_underflow_on_remove {E} (b : bytes) : outcome E bool :=
  u ← used_bytes b;
  Ok (saturating_sub u (Layout.internal_max_entry_bytes layout) <? Layout.internal_min_used layout).

End view.
End InternalPageView.

Inductive LeafInsertError : Type := | LDuplicateKey | LFull.

Module LeafPageView.

Section view.
Context (layout : Layout).

Abbreviation area := (Layout.leaf_area layout).

Definition size {E} (b : bytes) : outcome E Z := get_u32_le b NODE_SIZE_OFFSET.

Definition tombstone_count {E} (b : bytes) : outcome E Z := get_u32_le b Layout.leaf_tombstone_count_offset.

Definition tombstone {E} (b : bytes) (i : Z) : outcome E Z :=
  _ ← rassert (i <? tombstone_capacity layout);
  get_u32_le b (Layout.leaf_tombstone_offset i).

(** [(i..).take(k).any(|i| f(tombstone(i)))] *)
Fixpoint any_tombstone {E} (k : nat) (b : bytes) (i : Z) (f : Z -> bool) : outcome E bool :=
  match k with
  | O => Ok false
  | S k =>
      t ← tombstone b i;
      if f t then Ok true else any_tombstone k b (i + 1) f
  end.

Definition new (b : bytes) : outcome PageCodecError unit :=
  _ ← check_len b;
  _ ← expect_common_header b KIND_LEAF;
  n ← node_size b;
  _ ← EntryArea.check area b n;
  count ← tombstone_count b;
  if tombstone_capacity layout <? count
  then Err (Malformed "leaf tombstones count exceeds tombstone capacity")
  else
    bad ← any_tombstone (Z.to_nat count) b 0 (fun t => n <=? t);
    if (bad : bool) then Err (Malformed "leaf tombstones index out of bounds") else Ok tt.

Definition next_leaf_id (b : bytes) : outcome PageCodecError (option PageId) :=
  raw ← get_u64_le b NODE_PAGE_ID_OFFSET; decode_page_id raw.

Definition used_bytes {E} (b : bytes) : outcome E Z := n ← size b; EntryArea.used area b n.

Definition may_split_on_insert {E} (b : bytes) : outcome E bool :=
  n ← size b;
  f ← EntryArea.free area b n;
  Ok (f <? Layout.leaf_max_entry_bytes layout).

Definition may_underflow_on_remove {E} (b : bytes) : outcome E bool :=
  u ← used_bytes b;
  Ok (saturating_sub u (Layout.leaf_max_entry_bytes layout) <? Layout.leaf_min_used layout).

Definition key {E} (b : bytes) (i : Z) : outcome E bytes := n ← size b; EntryArea.key area b n i.

Definition record_id (b : bytes) (i : Z) : outcome PageCodecError RecordId :=
  n ← size b;
  p ← EntryArea.payload area b n i;
  decode_record_id_bytes p.

Definition is_tombstoned {E} (b : bytes) (s : Z) : outcome E bool :=
  count ← tombstone_count b;
  any_tombstone (Z.to_nat count) b 0 (fun t => t =? s).

Definition search {E} (b : bytes) (k : bytes) : outcome E (Z + Z) :=
  n ← size b;
  pos ← partition_point n (fun i => ki ← key b i; Ok (key_lt ki k));
  if pos <? n then
    kp ← key b pos;
    Ok (if key_eq kp k then inl pos else inr pos)
  else Ok (inr pos).

Definition lower_bound {E} (b : bytes) (k : bytes) : outcome E Z :=
  n ← size b; partition_point n (fun i => ki ← key b i; Ok (key_lt ki k)).

Definition upper_bound {E} (b : bytes) (k : bytes) : outcome E Z :=
  n ← size b; partition_point n (fun i => ki ← key b i; Ok (key_le ki k)).

Definition key_exists {E} (b : bytes) (k : bytes) : outcome E bool :=
  r ← search b k; Ok (match r with inl _ => true | inr _ => false end).

Definition get (b : bytes) (k : bytes) : outcome PageCodecError (option RecordId) :=
  r ← search b k;
  match r with
  | inr _ => Ok None
  | inl pos =>
      t ← is_tombstoned b pos;
      if (t : bool) then Ok None else rid ← record_id b pos; Ok (Some rid)
  end.

Definition set_size {E} (b : bytes) (n : Z) : outcome E bytes := put_u32_le b NODE_SIZE_OFFSET n.
Definition set_tombstone_count {E} (b : bytes) (n : Z) : outcome E bytes :=
  put_u32_le b Layout.leaf_tombstone_count_offset n.
Definition set_tombstone {E} (b : bytes) (i s : Z) : outcome E bytes :=
  put_u32_le b (Layout.leaf_tombstone_offset i) s.

(** The two loops of [rewrite_tombstones]: from the [i]th on, [k] are left; [kept] are kept. *)
Fixpoint rewrite_loop {E} (k : nat) (i kept : Z) (f : Z -> option Z) (b : bytes) : outcome E (bytes * Z) :=
  match k with
  | O => Ok (b, kept)
  | S k =>
      t ← tombstone b i;
      match f t with
      | Some s => b ← set_tombstone b kept s; rewrite_loop k (i + 1) (kept + 1) f b
      | None => rewrite_loop k (i + 1) kept f b
      end
  end.

Fixpoint clear_loop {E} (k : nat) (i : Z) (b : bytes) : outcome E bytes :=
  match k with
  | O => Ok b
  | S k => b ← set_tombstone b i 0; clear_loop k (i + 1) b
  end.

Definition rewrite_tombstones {E} (f : Z -> option Z) (b : bytes) : outcome E bytes :=
  count ← tombstone_count b;
  '(b, kept) ← rewrite_loop (Z.to_nat count) 0 0 f b;
  b ← clear_loop (Z.to_nat (count - kept)) kept b;
  set_tombstone_count b kept.

Definition insert (b : bytes) (k : bytes) (rid : RecordId) : outcome LeafInsertError bytes :=
  let payload := encode_record_id_bytes rid in
  r ← search b k;
  match r with
  | inl pos =>
      t ← is_tombstoned b pos;
      if negb t then Err LDuplicateKey
      else
        n ← size b;
        b ← EntryArea.set_payload area b n pos payload;
        rewrite_tombstones (fun s => if negb (s =? pos) then Some s else None) b
  | inr pos =>
      n ← size b;
      f ← EntryArea.free area b n;
      if f <? EntryArea.entry_cost area (len k) then Err LFull
      else
        b ← EntryArea.insert area b n pos k payload;
        b ← set_size b (n + 1);
        rewrite_tombstones (fun s => Some (if pos <=? s then s + 1 else s)) b
  end.

Definition physical_remove_at {E} (b : bytes) (slot : Z) : outcome E bytes :=
  n ← size b;
  b ← EntryArea.remove area b n slot;
  m ← sub_usize n 1;
  b ← set_size b m;
  rewrite_tombstones (fun s => match Z.compare s slot with
                               | Eq => None
                               | Gt => Some (s - 1)
                               | Lt => Some s
                               end) b.

(** The rewrite that drops the first tombstone: [rewrite_tombstones] with a closure that
    refuses only the first slot it is given. *)
Definition drop_oldest {E} (b : bytes) : outcome E bytes :=
  count ← tombstone_count b;
  '(b, kept) ←
    (match Z.to_nat count with
     | O => Ok (b, 0)
     | S k => _ ← tombstone b 0; rewrite_loop k 1 0 Some b
     end);
  b ← clear_loop (Z.to_nat (count - kept)) kept b;
  set_tombstone_count b kept.

Definition remove_key (b : bytes) (k : bytes) : outcome RemoveError bytes :=
  r ← search b k;
  match r with
  | inr _ => Err KeyNotFound
  | inl slot =>
      t ← is_tombstoned b slot;
      if (t : bool) then Err KeyNotFound
      else
        let capacity := tombstone_capacity layout in
        if capacity =? 0 then physical_remove_at b slot
        else
          count ← tombstone_count b;
          '(b, slot) ←
            (if capacity <=? count then
               evicted ← tombstone b 0;
               b ← drop_oldest b;
               b ← physical_remove_at b evicted;
               Ok (b, if evicted <? slot then slot - 1 else slot)
             else Ok (b, slot));
          count ← tombstone_count b;
          b ← set_tombstone_count b (count + 1);
          set_tombstone b count slot
  end.

End view.
End LeafPageView.

(** Either kind of node. *)
Inductive NodeKind : Type := | NInternal | NLeaf.

Module NodeView.

Definition new (layout : Layout) (b : bytes) : outcome PageCodecError NodeKind :=
  k ← peek_common_header b;
  if k =? KIND_INTERNAL then _ ← InternalPageView.new b; Ok NInternal
  else if k =? KIND_LEAF then _ ← LeafPageView.new layout b; Ok NLeaf
  else Err (InvalidPageKind k).

Definition may_split_on_insert {E} (layout : Layout) (k : NodeKind) (b : bytes) : outcome E bool :=
  match k with
  | NInternal => InternalPageView.may_split_on_insert layout b
  | NLeaf => LeafPageView.may_split_on_insert layout b
  end.

Definition may_underflow_on_remove {E} (layout : Layout) (k : NodeKind) (b : bytes) : outcome E bool :=
  match k with
  | NInternal => InternalPageView.may_underflow_on_remove layout b
  | NLeaf => LeafPageView.may_underflow_on_remove layout b
  end.

End NodeView.
