(* ===== verification/BPlusKeys.v ===== *)
(** * Orders of keys and sorted lists of them

    Keys order like the bytes they are; what the searches find in sorted lists. *)

From Stdlib Require Import ZArith Lia Sorted.
From stdpp Require Import base list numbers option sorting.
From S2P Require Import Prelude Bytes Ids Buf Str Slotted BPlusPage PageView.

Local Open Scope Z_scope.

(** ** The order *)

Definition klt (a b : IndexKey) : Prop := byte_order a b = Lt.
Definition kle (a b : IndexKey) : Prop := byte_order a b <> Gt.

Lemma klt_irrefl a : ~ klt a a.
Proof. unfold klt. by rewrite lex_refl. Qed.

Lemma klt_trans a b c : klt a b -> klt b c -> klt a c.
Proof. apply lex_trans. Qed.

Lemma kle_lteq a b : kle a b <-> klt a b \/ a = b.
Proof.
  unfold kle, klt. pose proof (lex_Eq a b) as He. destruct (byte_order a b); split; try done; intros; auto.
  - right. by apply He.
  - destruct H as [|H]; [done|]. by apply He in H.
Qed.

Lemma kle_refl a : kle a a.
Proof. apply kle_lteq. by right. Qed.

Lemma not_klt a b : ~ klt a b <-> kle b a.
Proof. unfold klt, kle. rewrite (lex_antisym a b). by destruct (byte_order a b). Qed.

Lemma not_kle a b : ~ kle a b <-> klt b a.
Proof. unfold klt, kle. rewrite (lex_antisym a b). destruct (byte_order a b); cbn; intuition congruence. Qed.

Lemma kle_trans a b c : kle a b -> kle b c -> kle a c.
Proof. rewrite !kle_lteq. intros [H1|<-] [H2|<-]; auto. left. by eapply klt_trans. Qed.

Lemma klt_kle_trans a b c : klt a b -> kle b c -> klt a c.
Proof. rewrite kle_lteq. intros H1 [H2|<-]; [by eapply klt_trans|done]. Qed.

Lemma kle_klt_trans a b c : kle a b -> klt b c -> klt a c.
Proof. rewrite kle_lteq. intros [H1|<-] H2; [by eapply klt_trans|done]. Qed.

Lemma klt_kle a b : klt a b -> kle a b.
Proof. intros. apply kle_lteq. by left. Qed.

Lemma klt_cases a b : klt a b \/ a = b \/ klt b a.
Proof. unfold klt. rewrite (lex_antisym a b). pose proof (lex_Eq a b). destruct (byte_order a b); cbn; intuition. Qed.

#[export] Instance klt_dec a b : Decision (klt a b).
Proof. unfold klt. solve_decision. Defined.
#[export] Instance kle_dec a b : Decision (kle a b).
Proof. unfold kle. solve_decision. Defined.

Lemma key_lt_spec a b : key_lt a b = true <-> klt a b.
Proof. unfold key_lt, klt. by destruct (byte_order a b). Qed.
Lemma key_le_spec a b : key_le a b = true <-> kle a b.
Proof. unfold key_le, kle. by destruct (byte_order a b). Qed.
Lemma key_eq_spec a b : key_eq a b = true <-> a = b.
Proof. unfold key_eq. rewrite <- lex_Eq. by destruct (byte_order a b). Qed.

Lemma key_eq_refl a : key_eq a a = true.
Proof. by apply key_eq_spec. Qed.
Lemma key_eq_ne a b : a <> b -> key_eq a b = false.
Proof. intros H. destruct (key_eq a b) eqn:E; [|done]. by apply key_eq_spec in E. Qed.

(** ** Sorted lists *)

Abbreviation ascending := (StronglySorted klt).

Lemma ascending_lookup ks i j a b : ascending ks -> ks !! i = Some a -> ks !! j = Some b -> (i < j)%nat -> klt a b.
Proof.
  intros Hs. revert i j. induction Hs as [|x ks Hs IH Hx]; intros [|i] [|j] Ha Hb Hij; try done; try lia.
  - cbn in Ha, Hb. injection Ha as ->. by apply (Forall_lookup_1 _ _ _ _ Hx Hb).
  - apply (IH i j); [done..|lia].
Qed.

Lemma ascending_app ks1 ks2 : ascending (ks1 ++ ks2) <->
  ascending ks1 /\ ascending ks2 /\ (forall a b, a ∈ ks1 -> b ∈ ks2 -> klt a b).
Proof.
  induction ks1 as [|x ks1 IH]; cbn.
  { split; [intros H; split_and!; [constructor|done|]|by intros (_ & ? & _)]. by intros a b ?%elem_of_nil. }
  split.
  - intros [Hs Hx]%StronglySorted_inv. apply IH in Hs as (H1 & H2 & H3). apply Forall_app in Hx as [Hx1 Hx2]. split_and!.
    + by constructor.
    + done.
    + intros a b [->|Ha]%list.elem_of_cons Hb; [|auto]. rewrite list.Forall_forall in Hx2. auto.
  - intros ([Hs Hx]%StronglySorted_inv & H2 & H3). constructor.
    + apply IH. split_and!; [done..|]. intros a b Ha Hb. apply H3; [by right|done].
    + apply Forall_app. split; [done|]. apply list.Forall_forall. intros b Hb. apply H3; [by left|done].
Qed.

Lemma ascending_is_sorted ks : ascending ks -> is_sorted ks = true.
Proof.
  induction 1 as [|a [|b ks] Hs IH Ha]; [done..|]. change (key_le a b && is_sorted (b :: ks) = true). rewrite IH, andb_true_r.
  apply key_le_spec, klt_kle. by apply Forall_cons_1 in Ha as [? _].
Qed.

Lemma ascending_sublist ks1 ks2 : ks1 `sublist_of` ks2 -> ascending ks2 -> ascending ks1.
Proof.
  intros Hsub. induction Hsub as [|x l1 l2 H IH|x l1 l2 H IH]; intros Hs; [done|..]; apply StronglySorted_inv in Hs as [Hs Hx].
  - constructor; [by apply IH|]. apply list.Forall_forall. intros y Hy. rewrite list.Forall_forall in Hx. apply Hx. by eapply elem_of_submseteq, sublist_submseteq.
  - by apply IH.
Qed.

Lemma ascending_take n ks : ascending ks -> ascending (take n ks).
Proof. intros H. rewrite <- (take_drop n ks) in H. by apply ascending_app in H as [? _]. Qed.
Lemma ascending_drop n ks : ascending ks -> ascending (drop n ks).
Proof. intros H. rewrite <- (take_drop n ks) in H. by apply ascending_app in H as (_ & ? & _). Qed.

Lemma ascending_nodup ks : ascending ks -> NoDup ks.
Proof.
  induction 1 as [|x ks Hs IH Hx]; constructor; [|done]. intros Hin. rewrite list.Forall_forall in Hx. by apply (klt_irrefl x), Hx.
Qed.

(** ** Searches *)

Section prefix.
Context {A : Type} (p : A -> bool).

Lemma partition_prefix_le l : (partition_prefix p l <= length l)%nat.
Proof. induction l as [|x l IH]; cbn; [lia|]. destruct (p x); lia. Qed.

Lemma partition_prefix_before l i x : l !! i = Some x -> (i < partition_prefix p l)%nat -> p x = true.
Proof.
  revert i. induction l as [|y l IH]; intros [|i] Hx Hi; try done; cbn in *; destruct (p y) eqn:E; try lia.
  - by injection Hx as <-.
  - apply (IH i); [done|lia].
Qed.

Lemma partition_prefix_at l x : l !! partition_prefix p l = Some x -> p x = false.
Proof. induction l as [|y l IH]; [done|]. cbn. destruct (p y) eqn:E; cbn; [done|]. by intros [= <-]. Qed.

(** On a list whose elements with [p] come first, the prefix is all of them. *)
Lemma partition_prefix_spec l : (forall i j x y, (i < j)%nat -> l !! i = Some x -> l !! j = Some y -> p y = true -> p x = true) ->
  forall i x, l !! i = Some x -> p x = (i <? partition_prefix p l)%nat.
Proof.
  intros Hmono i x Hx. destruct (Nat.ltb_spec i (partition_prefix p l)) as [Hi|Hi]; [by eapply partition_prefix_before|].
  destruct (p x) eqn:E; [|done]. pose proof (lookup_lt_Some _ _ _ Hx).
  destruct (lookup_lt_is_Some_2 l (partition_prefix p l) ltac:(lia)) as [y Hy]. pose proof (partition_prefix_at _ _ Hy) as Hf.
  destruct (decide (i = partition_prefix p l)) as [->|]; [congruence|].
  rewrite (Hmono (partition_prefix p l) i y x ltac:(lia) Hy Hx E) in Hf. done.
Qed.
End prefix.

Lemma lt_prefix_spec ks k : ascending ks -> forall i x, ks !! i = Some x ->
  key_lt x k = (i <? partition_prefix (fun x => key_lt x k) ks)%nat.
Proof.
  intros Hs. apply partition_prefix_spec. intros i j x y Hij Hx Hy. rewrite !key_lt_spec. intros H.
  eapply klt_trans; [|exact H]. by eapply ascending_lookup.
Qed.

Lemma le_prefix_spec ks k : ascending ks -> forall i x, ks !! i = Some x ->
  key_le x k = (i <? partition_prefix (fun x => key_le x k) ks)%nat.
Proof.
  intros Hs. apply partition_prefix_spec. intros i j x y Hij Hx Hy. rewrite !key_le_spec. intros H.
  eapply kle_trans; [|exact H]. apply klt_kle. by eapply ascending_lookup.
Qed.

Lemma partition_prefix_fmap {A B} (p : B -> bool) (f : A -> B) l : partition_prefix p (f <$> l) = partition_prefix (fun x => p (f x)) l.
Proof. induction l as [|x l IH]; [done|]. cbn. by rewrite IH. Qed.

(** The halving loop finds the boundary [c] of its predicate. *)
Lemma partition_loop_ok {E} n c (pred : Z -> outcome E bool) :
  (forall i, 0 <= i < n -> pred i = Ok (i <? c)) -> forall fuel lo hi,
  0 <= lo <= c -> c <= hi <= n -> hi - lo < Z.of_nat fuel -> partition_loop fuel lo hi pred = Ok c.
Proof.
  intros Hpred. induction fuel as [|fuel IH]; intros lo hi Hlo Hhi Hf; [lia|]. cbn [partition_loop].
  destruct (Z.ltb_spec lo hi); [|f_equal; lia]. pose proof (Z.div_pos (hi - lo) 2 ltac:(lia) ltac:(lia)).
  pose proof (Z.div_lt (hi - lo) 2 ltac:(lia) ltac:(lia)). cbv zeta. rewrite Hpred by lia. cbn [mbind outcome_bind].
  destruct (Z.ltb_spec (lo + (hi - lo) / 2) c); apply IH; lia.
Qed.

Lemma partition_point_ok {E} n c (pred : Z -> outcome E bool) :
  0 <= c <= n -> (forall i, 0 <= i < n -> pred i = Ok (i <? c)) -> partition_point n pred = Ok c.
Proof. intros Hc Hp. unfold partition_point. apply (partition_loop_ok n); [done|lia|lia|lia]. Qed.

(** Without an order of the predicate, the loop still stops at a boundary of it. *)
Lemma partition_loop_total {E} (p : Z -> bool) n fuel : forall lo hi, 0 <= lo -> lo <= hi -> hi <= n -> hi - lo < Z.of_nat fuel ->
  exists i, @partition_loop E fuel lo hi (fun j => Ok (p j)) = Ok i /\ lo <= i <= hi /\ (lo < i -> p (i - 1) = true) /\ (i < hi -> p i = false).
Proof.
  induction fuel as [|fuel IH]; intros lo hi H0 Hle Hn Hf; [lia|]. cbn [partition_loop].
  destruct (Z.ltb_spec lo hi) as [Hlt|Hge]; [|exists lo; split_and!; [done|lia..]].
  set (mid := lo + (hi - lo) / 2). assert (Hm : lo <= mid < hi) by (unfold mid; Z.to_euclidean_division_equations; lia).
  cbn [mbind outcome_bind]. destruct (p mid) eqn:Ep.
  - destruct (IH (mid + 1) hi) as (i & Hi & Hr & H1 & H2); [lia..|]. exists i. split_and!; [done|lia|lia| |done].
    intros _. destruct (decide (i = mid + 1)) as [->|]; [by replace (mid + 1 - 1) with mid by lia|apply H1; lia].
  - destruct (IH lo mid) as (i & Hi & Hr & H1 & H2); [lia..|]. exists i. split_and!; [done|lia|lia|done|].
    intros _. destruct (decide (i = mid)) as [->|]; [done|apply H2; lia].
Qed.
