(* ===== verification/PageViewProofs.v ===== *)
(** * Pages as views read and write them

    The bytes of a leaf or internal page and the decoded page they stand for; each operation
    of a view does to the bytes what the operation on the decoded page does to the page. *)

From Stdlib Require Import ZArith Lia String Sorted.
From stdpp Require Import base list numbers option.
From S2P Require Import Prelude Bytes Ids Buf Str Slotted SlottedProofs BPlusPage PageView BPlusKeys.

Local Open Scope Z_scope.

Import PageCodec.

(** ** Fields of a page *)

(** Bytes of two pages agree from [o] to [o + m]. *)
Lemma byte_at_sub1 b i : 0 <= i -> byte_at b i = byte_at (sub b i 1) 0.
Proof. intros. rewrite byte_at_sub by lia. f_equal. lia. Qed.

(** The common header, the entry count and the page link of a node. *)
Record node_is (b : bytes) (kind n : Z) (link : option PageId) : Prop := {
  n_len : len b = PAGE_SIZE;
  n_magic : sub b 0 4 = MAGIC;
  n_version : byte_at b 4 = 3 /\ byte_at b 5 = 0;
  n_kind : byte_at b 6 = kind;
  n_size : le_at 4 b 8 = n;
  n_link : le_at 8 b 16 = encode_page_id link;
}.

Lemma node_is_frame b b' kind n link : node_is b kind n link -> len b' = PAGE_SIZE ->
  (forall o m, 0 <= o -> 0 <= m -> o + m <= 24 -> sub b' o m = sub b o m) -> node_is b' kind n link.
Proof.
  intros [H1 H2 [H3 H3'] H4 H5 H6] Hl Hf. split; [done|by rewrite Hf|split|..].
  - by rewrite byte_at_sub1, Hf, <- byte_at_sub1 by lia.
  - by rewrite byte_at_sub1, Hf, <- byte_at_sub1 by lia.
  - by rewrite byte_at_sub1, Hf, <- byte_at_sub1 by lia.
  - unfold le_at in *. by rewrite Hf by lia.
  - unfold le_at in *. by rewrite Hf by lia.
Qed.

Lemma node_resize b kind n link n' : node_is b kind n link -> 0 <= n' <= u32_max ->
  node_is (splice b 8 (to_le 4 n')) kind n' link.
Proof.
  intros [H1 H2 [H3 H3'] H4 H5 H6] Hn. assert (PAGE_SIZE = 8192) by done. unfold u32_max in Hn. split.
  - by rewrite length_splice.
  - by rewrite sub_splice_disjoint by blia.
  - rewrite !byte_at_splice_out by blia. done.
  - by rewrite byte_at_splice_out by blia.
  - apply le_at_splice_same; [done|done|lia|lia|]. cbn. lia.
  - by rewrite le_at_splice_disjoint by blia.
Qed.

Section fields.
Context (b : bytes) (kind n : Z) (link : option PageId) (H : node_is b kind n link).

Lemma peek_ok : peek_common_header b = Ok kind.
Proof using H.
  destruct H as [H1 H2 [H3 H3'] H4 H5 H6]. assert (PAGE_SIZE = 8192) by done. unfold peek_common_header.
  change COMMON_HEADER_BYTES with 8. change KIND_OFFSET with 6. rewrite (proj2 (Z.ltb_ge _ _)) by lia.
  rewrite slice_ok by lia. cbn [mbind outcome_bind]. rewrite (H2 : sub b 0 (4 - 0) = MAGIC), bool_decide_true by done. cbn [negb].
  rewrite !index_ok by lia. cbn [mbind outcome_bind]. rewrite H3, H3'. cbn. by rewrite H4.
Qed.

Lemma expect_ok : expect_common_header b kind = Ok tt.
Proof using H. unfold expect_common_header. rewrite peek_ok. cbn [mbind outcome_bind]. by rewrite Z.eqb_refl. Qed.

Lemma check_len_ok : check_len b = Ok tt.
Proof using H. unfold check_len. by rewrite (n_len _ _ _ _ H), Z.eqb_refl. Qed.

Lemma size_ok {E} : @get_u32_le E b NODE_SIZE_OFFSET = Ok n.
Proof using H.
  pose proof (n_len _ _ _ _ H). assert (PAGE_SIZE = 8192) by done. unfold get_u32_le. change NODE_SIZE_OFFSET with 8.
  rewrite get_le_ok by lia. f_equal. apply H.
Qed.

Lemma link_ok {E} : @get_u64_le E b NODE_PAGE_ID_OFFSET = Ok (encode_page_id link).
Proof using H.
  pose proof (n_len _ _ _ _ H). assert (PAGE_SIZE = 8192) by done. unfold get_u64_le. change NODE_PAGE_ID_OFFSET with 16.
  rewrite get_le_ok by lia. f_equal. apply H.
Qed.
End fields.

Lemma decode_link p : link_valid p -> decode_page_id (encode_page_id p) = Ok p.
Proof. intros Hp. unfold decode_page_id, encode_page_id. by rewrite decode_encode_u64. Qed.

Lemma holds_frame area b b' es : holds area b es -> len b' = PAGE_SIZE ->
  (forall o m, slots_start area <= o -> 0 <= m -> o + m <= PAGE_SIZE -> sub b' o m = sub b o m) -> holds area b' es.
Proof.
  intros [H1 H2 H3 H4 H5 H6] Hl Hf. pose proof (esize_nonneg es). split; try done.
  - intros i Hi. rewrite <- H5 by done. unfold le_at. apply f_equal. apply Hf; lia.
  - rewrite <- H6. apply Hf; lia.
Qed.

(** ** Tombstones *)

Section leaf.
Context (layout : Layout).
Context (Hcap : 0 <= tombstone_capacity layout) (Hroom : 28 + 4 * tombstone_capacity layout <= PAGE_SIZE).

Import LeafPageView.

Abbreviation cap := (tombstone_capacity layout).
Abbreviation area := (Layout.leaf_area layout).

Lemma slots_start_eq : slots_start area = 28 + 4 * cap.
Proof using. unfold Layout.leaf_area, leaf_slots_start. cbn [slots_start]. change (LEAF_FIXED_HEADER_BYTES + TOMBSTONE_COUNT_ENCODED_BYTES) with 28.
  change TOMBSTONE_SLOT_ENCODED_BYTES with 4. lia. Qed.

Definition tombs_at (b : bytes) (i : Z) (ts : list Z) : Prop :=
  forall j s, ts !! j = Some s -> le_at 4 b (28 + 4 * (i + Z.of_nat j)) = s.

Record tombs_are (b : bytes) (ts : list Z) : Prop := {
  t_count : le_at 4 b 24 = len ts;
  t_slots : tombs_at b 0 ts;
  t_cap : len ts <= cap;
}.

Lemma tombs_frame b b' ts : tombs_are b ts ->
  (forall o m, 24 <= o -> 0 <= m -> o + m <= 28 + 4 * cap -> sub b' o m = sub b o m) -> tombs_are b' ts.
Proof using Hcap Hroom.
  intros [H1 H2 H3] Hf. split; [|intros j s Hj|done].
  - unfold le_at in *. rewrite Hf by lia. done.
  - rewrite <- (H2 j s Hj). pose proof (lookup_lt_Some _ _ _ Hj). unfold le_at. by rewrite Hf by lia.
Qed.

Lemma tombstone_offset i : Layout.leaf_tombstone_offset i = 28 + 4 * i.
Proof using Hcap Hroom. unfold Layout.leaf_tombstone_offset. change (LEAF_FIXED_HEADER_BYTES + TOMBSTONE_COUNT_ENCODED_BYTES) with 28.
  change TOMBSTONE_SLOT_ENCODED_BYTES with 4. lia. Qed.

Lemma tombstone_ok {E} b i ts j s : len b = PAGE_SIZE -> tombs_at b i ts -> ts !! j = Some s -> 0 <= i -> i + len ts <= cap ->
  @tombstone layout E b (i + Z.of_nat j) = Ok s.
Proof using Hcap Hroom.
  intros Hl Ht Hj Hi Hc. pose proof (lookup_lt_Some _ _ _ Hj). unfold tombstone. rewrite (proj2 (Z.ltb_lt _ _)) by lia.
  cbn [rassert mbind outcome_bind]. rewrite tombstone_offset. unfold get_u32_le. rewrite get_le_ok by lia. f_equal. by apply Ht.
Qed.

Lemma tombstone_head {E} b i t ts : len b = PAGE_SIZE -> tombs_at b i (t :: ts) -> 0 <= i -> i + len (t :: ts) <= cap ->
  @tombstone layout E b i = Ok t.
Proof using Hcap Hroom. intros. rewrite <- (tombstone_ok b i (t :: ts) 0 t) by done. f_equal. lia. Qed.

Lemma tombs_at_cons b i t ts : tombs_at b i (t :: ts) -> le_at 4 b (28 + 4 * i) = t /\ tombs_at b (i + 1) ts.
Proof using Hcap Hroom.
  intros Ht. split; [rewrite <- (Ht 0%nat t eq_refl); f_equal; lia|]. intros j s Hj. rewrite <- (Ht (S j) s Hj). f_equal. lia.
Qed.

Lemma any_tombstone_ok {E} b f ts : forall i, len b = PAGE_SIZE -> tombs_at b i ts -> 0 <= i -> i + len ts <= cap ->
  @any_tombstone layout E (length ts) b i f = Ok (existsb f ts).
Proof using Hcap Hroom.
  induction ts as [|t ts IH]; intros i Hl Ht Hi Hc; [done|]. cbn [length any_tombstone existsb].
  rewrite (tombstone_head b i t ts) by done. cbn [mbind outcome_bind].
  destruct (f t); [done|]. apply tombs_at_cons in Ht as [_ Ht]. rewrite length_cons in Hc. apply IH; [done..|lia|lia].
Qed.

Lemma count_ok {E} b ts : len b = PAGE_SIZE -> tombs_are b ts -> @tombstone_count E b = Ok (len ts).
Proof using Hcap Hroom.
  intros Hl [Hc _ _]. unfold tombstone_count, get_u32_le. change Layout.leaf_tombstone_count_offset with 24.
  rewrite get_le_ok by lia. by rewrite Hc.
Qed.

(** Only tombstones and their count change. *)
Definition tombs_only (b b' : bytes) : Prop := len b' = PAGE_SIZE /\
  forall o m, 0 <= o -> 0 <= m -> o + m <= PAGE_SIZE -> o + m <= 24 \/ 28 + 4 * cap <= o -> sub b' o m = sub b o m.

Lemma set_tombstone_ok {E} b i s : len b = PAGE_SIZE -> 0 <= i < cap -> 0 <= s <= u32_max ->
  exists b', @set_tombstone E b i s = Ok b' /\ tombs_only b b' /\ le_at 4 b' (28 + 4 * i) = s /\
    le_at 4 b' 24 = le_at 4 b 24 /\ (forall j, 0 <= j < cap -> j <> i -> le_at 4 b' (28 + 4 * j) = le_at 4 b (28 + 4 * j)).
Proof using Hcap Hroom.
  intros Hl Hi Hs. unfold set_tombstone, put_u32_le. rewrite tombstone_offset, put_le_ok by lia. eexists. split; [done|].
  unfold u32_max in Hs. split_and!.
  - split; [by rewrite length_splice|]. intros o m Ho Hm Hom Hd. apply sub_splice_disjoint; blia.
  - apply le_at_splice_same; [done|done|lia|lia|]. cbn. lia.
  - apply le_at_splice_disjoint; blia.
  - intros j Hj Hne. apply le_at_splice_disjoint; blia.
Qed.

Lemma tombs_only_trans b1 b2 b3 : tombs_only b1 b2 -> tombs_only b2 b3 -> tombs_only b1 b3.
Proof using Hcap Hroom. intros [_ H1] [H2 H3]. split; [done|]. intros o m Ho Hm Hom Hd. by rewrite H3, H1. Qed.

Lemma tombs_at_app b i ts us : tombs_at b i ts -> tombs_at b (i + len ts) us -> tombs_at b i (ts ++ us).
Proof using Hcap Hroom.
  intros H1 H2 j s [Hj|[Hge Hj]]%lookup_app_Some; [by apply H1|]. rewrite <- (H2 _ s Hj). f_equal. lia.
Qed.

Lemma rewrite_loop_ok {E} f rest : forall i b out,
  len b = PAGE_SIZE -> tombs_at b 0 out -> tombs_at b i rest -> len out <= i -> i + len rest <= cap ->
  (forall t s, t ∈ rest -> f t = Some s -> 0 <= s <= u32_max) ->
  exists b', @rewrite_loop layout E (length rest) i (len out) f b = Ok (b', len (out ++ omap f rest)) /\
    tombs_only b b' /\ tombs_at b' 0 (out ++ omap f rest) /\ le_at 4 b' 24 = le_at 4 b 24.
Proof using Hcap Hroom.
  induction rest as [|t rest IH]; intros i b out Hl Ho Hr Hoi Hi Hf; cbn [length rewrite_loop omap list_omap].
  { exists b. rewrite app_nil_r. split_and!; try done. }
  rewrite (tombstone_head b i t rest) by (done || lia). cbn [mbind outcome_bind].
  apply tombs_at_cons in Hr as [Hti Hr]. rewrite length_cons in Hi. destruct (f t) as [s|] eqn:Es.
  - pose proof (Hf t s ltac:(by left) Es) as Hs.
    destruct (set_tombstone_ok (E := E) b (len out) s Hl ltac:(lia) Hs) as (b1 & -> & H1 & H2 & H3 & H4). cbn [mbind outcome_bind].
    destruct (IH (i + 1) b1 (out ++ [s])) as (b2 & E2 & G1 & G2 & G3); try lia.
    + apply H1.
    + apply tombs_at_app; [|intros [|j] u Hj; [injection Hj as <-; rewrite <- H2; f_equal; lia|done]].
      intros j u Hj. pose proof (lookup_lt_Some _ _ _ Hj). rewrite H4 by lia. by apply Ho.
    + intros j u Hj. pose proof (lookup_lt_Some _ _ _ Hj). rewrite H4 by lia. by apply Hr.
    + rewrite length_app. cbn. lia.
    + intros u v Hu. apply Hf. by right.
    + exists b2. rewrite length_app in E2. cbn [length] in E2. replace (len out + 1) with (Z.of_nat (length out + 1)) by lia.
      rewrite E2. rewrite <- app_assoc in *. cbn [app] in *. split_and!; [done|by eapply tombs_only_trans|done|congruence].
  - destruct (IH (i + 1) b out Hl Ho Hr ltac:(lia) ltac:(lia)) as (b2 & -> & G); [|by exists b2]. intros u v Hu. apply Hf. by right.
Qed.

Lemma clear_loop_ok {E} k : forall i b out, len b = PAGE_SIZE -> tombs_at b 0 out -> len out <= i -> i + Z.of_nat k <= cap ->
  exists b', @clear_loop E k i b = Ok b' /\ tombs_only b b' /\ tombs_at b' 0 out /\ le_at 4 b' 24 = le_at 4 b 24.
Proof using Hcap Hroom.
  induction k as [|k IH]; intros i b out Hl Ho Hoi Hi; cbn [clear_loop]; [exists b; split_and!; done|].
  destruct (set_tombstone_ok (E := E) b i 0 Hl ltac:(lia) ltac:(unfold u32_max; lia)) as (b1 & -> & H1 & H2 & H3 & H4). cbn [mbind outcome_bind].
  destruct (IH (i + 1) b1 out) as (b2 & -> & G1 & G2 & G3); [apply H1| |lia..|].
  - intros j u Hj. pose proof (lookup_lt_Some _ _ _ Hj). rewrite H4 by lia. by apply Ho.
  - exists b2. split_and!; [done|by eapply tombs_only_trans|done|congruence].
Qed.

(** The end of both rewrites: the freed slots are cleared and the count is set. *)
Lemma finish_rewrite {E} b n out : len b = PAGE_SIZE -> tombs_at b 0 out -> len out <= n <= cap ->
  exists b', (b ← clear_loop (Z.to_nat (n - len out)) (len out) b; @set_tombstone_count E b (len out)) = Ok b' /\
    tombs_only b b' /\ tombs_are b' out.
Proof using Hcap Hroom.
  intros Hl Ho Hn. destruct (clear_loop_ok (E := E) (Z.to_nat (n - len out)) (len out) b out Hl Ho ltac:(lia) ltac:(lia)) as (b1 & -> & H1 & H2 & H3).
  cbn [mbind outcome_bind]. unfold set_tombstone_count, put_u32_le. change Layout.leaf_tombstone_count_offset with 24.
  destruct H1 as [Hl1 Hf1]. rewrite put_le_ok by lia. eexists. split; [done|]. assert (PAGE_SIZE = 8192) by done. split; [split|split].
  - by rewrite length_splice.
  - intros o m ? ? ? ?. rewrite sub_splice_disjoint by blia. by apply Hf1.
  - apply le_at_splice_same; [done|done|lia|lia|]. cbn. lia.
  - intros j s Hj. pose proof (lookup_lt_Some _ _ _ Hj). rewrite le_at_splice_disjoint by blia. by apply H2.
  - lia.
Qed.

Lemma length_omap_le {A B} (f : A -> option B) l : (length (omap f l) <= length l)%nat.
Proof using Hcap Hroom. induction l as [|x l IH]; [done|]. cbn. destruct (f x); cbn; lia. Qed.

Lemma rewrite_tombstones_ok {E} f b ts : len b = PAGE_SIZE -> tombs_are b ts ->
  (forall t s, t ∈ ts -> f t = Some s -> 0 <= s <= u32_max) ->
  exists b', @rewrite_tombstones layout E f b = Ok b' /\ tombs_only b b' /\ tombs_are b' (omap f ts).
Proof using Hcap Hroom.
  intros Hl Ht Hf. unfold rewrite_tombstones. rewrite (count_ok b ts Hl Ht). cbn [mbind outcome_bind]. destruct Ht as [Hc Hs Hcp].
  rewrite Nat2Z.id. destruct (rewrite_loop_ok (E := E) f ts 0 b [] Hl) as (b1 & E1 & H1 & H2 & H3); [by intros ? ? ?|done|done|done|done|].
  cbn [length app] in E1. change (Z.of_nat 0) with 0 in E1. rewrite E1. cbn [mbind outcome_bind]. pose proof (length_omap_le f ts).
  destruct (finish_rewrite (E := E) b1 (len ts) (omap f ts) ltac:(apply H1) H2 ltac:(lia)) as (b2 & -> & G1 & G2).
  exists b2. split_and!; [done|by eapply tombs_only_trans|done].
Qed.

Lemma drop_oldest_ok {E} b t ts : len b = PAGE_SIZE -> tombs_are b (t :: ts) -> Forall (fun s => 0 <= s <= u32_max) ts ->
  exists b', @drop_oldest layout E b = Ok b' /\ tombs_only b b' /\ tombs_are b' ts.
Proof using Hcap Hroom.
  intros Hl Ht Hts. unfold drop_oldest. rewrite (count_ok b (t :: ts) Hl Ht). cbn [mbind outcome_bind]. destruct Ht as [Hc Hs Hcp].
  rewrite Nat2Z.id. cbn [length]. rewrite length_cons in Hcp.
  rewrite (tombstone_head b 0 t ts) by (done || (cbn [length]; lia)). cbn [mbind outcome_bind].
  apply tombs_at_cons in Hs as [_ Hs].
  destruct (rewrite_loop_ok (E := E) Some ts 1 b [] Hl) as (b1 & E1 & H1 & H2 & H3); [by intros ? ? ?|done|cbn; lia|lia| |].
  { intros u s Hu [= ->]. rewrite list.Forall_forall in Hts. by apply Hts. }
  assert (Eo : omap Some ts = ts) by (clear; induction ts as [|x l IH]; [done|cbn; by rewrite IH]).
  cbn [length app] in E1. change (Z.of_nat 0) with 0 in E1. rewrite Eo in *. rewrite E1. cbn [mbind outcome_bind].
  destruct (finish_rewrite (E := E) b1 (Z.of_nat (S (length ts))) ts ltac:(apply H1) H2 ltac:(lia)) as (b2 & -> & G1 & G2).
  exists b2. split_and!; [done|by eapply tombs_only_trans|done].
Qed.

End leaf.
