(* ===== verification/LeafContents.v ===== *)
(** * What a leaf holds

    A well-formed leaf as the finite map of its live entries, those without a tombstone; and
    inserting and removing entries of it, with the tombstones moved along: each result is well
    formed, and what it holds is what the map operation gives. *)

From Stdlib Require Import ZArith Lia String Sorted.
From stdpp Require Import base list numbers option gmap sorting.
From S2P Require Import Prelude Bytes Ids Buf Str Slotted BPlusPage BPlusKeys.

Local Open Scope Z_scope.

(** A record id as a table page gives it out. *)
Definition rid_valid (rid : RecordId) : Prop := page_id_valid (page_id rid) /\ 0 <= slot_id rid <= u32_max.

(** A record id read back from the payload of its entry. *)
Lemma decode_rid rid : rid_valid rid -> decode_record_id_bytes (encode_record_id_bytes rid) = Ok rid.
Proof.
  destruct rid as [pg sl]. intros [Hp Hs]. cbn [page_id slot_id] in *. unfold decode_record_id_bytes, encode_record_id_bytes.
  cbn [PageCodec.encode_record_id page_id slot_id]. rewrite length_app, !length_to_le.
  change (Z.of_nat (8 + 8) <? PageCodec.U64_BYTES) with false. change (Z.of_nat (8 + 8) <? RECORD_ID_ENCODED_BYTES) with false. cbn iota.
  rewrite (sub_app_l (to_le 8 pg) (to_le 8 sl) : sub (to_le 8 pg ++ to_le 8 sl) 0 PageCodec.U64_BYTES = to_le 8 pg).
  rewrite (sub_app_r (to_le 8 pg)) by (by rewrite length_to_le).
  rewrite (sub_all (to_le 8 sl) : sub (to_le 8 sl) (PageCodec.U64_BYTES - len (to_le 8 pg)) PageCodec.U64_BYTES = to_le 8 sl).
  unfold page_id_valid, PageId_MAX, u32_max in *. rewrite !of_to_le by (cbn; lia).
  unfold PageCodec.decode_record_id. rewrite PageId_try_from_valid by (unfold page_id_valid, PageId_MAX, u32_max; lia).
  cbn. unfold u32_max. by rewrite (proj2 (Z.leb_le _ _)) by lia.
Qed.

Section leaf.
Context (layout : Layout).

(** Sorted distinct keys no longer than the layout allows; tombstones of distinct entries. *)
Record leaf_wf (p : LeafPage) : Prop := {
  w_sorted : ascending (LeafPage.keys p);
  w_keys : Forall (fun k => len k <= max_key_len layout) (LeafPage.keys p);
  w_nodup : NoDup (l_tombstones p);
  w_slots : Forall (fun s => 0 <= s < len (l_entries p)) (l_tombstones p);
  w_cap : len (l_tombstones p) <= tombstone_capacity layout;
  w_rids : Forall (fun e : IndexKey * RecordId => rid_valid e.2) (l_entries p);
  w_next : link_valid (l_next p);
  w_size : len (l_entries p) <= u32_max;
}.

(** The entry of [k] at slot [i] is live. *)
Definition lives (p : LeafPage) (k : IndexKey) (rid : RecordId) : Prop :=
  exists i, l_entries p !! i = Some (k, rid) /\ Z.of_nat i ∉ l_tombstones p.

Definition contents (p : LeafPage) : gmap IndexKey RecordId := list_to_map (LeafPage.iter p).

Lemma check_keys_ok ks : Forall (fun k => len k <= max_key_len layout) ks -> Layout.check_keys layout ks = Ok tt.
Proof using.
  induction 1 as [|k ks Hk _ IH]; [done|]. cbn. unfold Layout.check_key. by rewrite (proj2 (Z.ltb_ge _ _)) by lia.
Qed.

Lemma existsb_false {A} (f : A -> bool) l : Forall (fun x => f x = false) l -> existsb f l = false.
Proof using. induction 1 as [|x l Hx _ IH]; [done|]. cbn. by rewrite Hx. Qed.

Lemma leaf_check_ok p : leaf_wf p -> LeafPage.check layout p = Ok tt.
Proof using.
  intros []. unfold LeafPage.check. rewrite ascending_is_sorted by done. cbn [negb]. rewrite (proj2 (Z.ltb_ge _ _)) by lia.
  rewrite existsb_false; [by apply check_keys_ok|]. eapply Forall_impl; [exact w_slots0|]. intros s Hs. cbn beta in Hs. apply Z.leb_gt. lia.
Qed.

Lemma leaf_checked_ok {E} p : leaf_wf p -> @LeafPage.checked layout E p = Ok p.
Proof using. intros H. unfold LeafPage.checked, LeafPage.debug_check. by rewrite leaf_check_ok. Qed.

Lemma leaf_slot_ok {E} i : Z.of_nat i <= u32_max -> @LeafPage.slot E i = Ok (Z.of_nat i).
Proof using. intros. unfold LeafPage.slot. by rewrite (proj2 (Z.leb_le _ _)). Qed.

(** ** Searching *)

Lemma entries_lookup p i k rid : l_entries p !! i = Some (k, rid) -> LeafPage.keys p !! i = Some k.
Proof using. intros H. unfold LeafPage.keys. by rewrite list_lookup_fmap, H. Qed.

Lemma search_cases p k : leaf_wf p ->
  match LeafPage.search p k with
  | inl i => exists rid, l_entries p !! i = Some (k, rid)
  | inr i => (i <= length (l_entries p))%nat /\ (forall j e, l_entries p !! j = Some e -> (j < i)%nat -> klt e.1 k) /\
      (forall j e, l_entries p !! j = Some e -> (i <= j)%nat -> klt k e.1)
  end.
Proof using.
  intros [Hs _ _ _ _ _ _ _]. unfold LeafPage.search. set (i := partition_prefix (fun e => key_lt e.1 k) (l_entries p)).
  assert (Hle : (i <= length (l_entries p))%nat) by apply partition_prefix_le.
  assert (Hb : forall j e, l_entries p !! j = Some e -> (j < i)%nat -> klt e.1 k).
  { intros j e He Hj. apply key_lt_spec. exact (partition_prefix_before (fun e : IndexKey * RecordId => key_lt e.1 k) (l_entries p) j e He Hj). }
  destruct (l_entries p !! i) as [[k' rid]|] eqn:Ei.
  2:{ apply lookup_ge_None in Ei. split_and!; [done..|]. intros j e He Hj. apply lookup_lt_Some in He. lia. }
  assert (Hat : ~ klt k' k). { intros H. apply key_lt_spec in H. apply partition_prefix_at in Ei. cbn in Ei. congruence. }
  cbn [fst]. destruct (key_eq k' k) eqn:Ek; [apply key_eq_spec in Ek as ->; by exists rid|].
  split_and!; [done..|]. intros j [k2 r2] He Hj. assert (Hk : klt k k').
  { destruct (klt_cases k k') as [?|[->|?]]; [done| |done]. by rewrite key_eq_refl in Ek. }
  destruct (decide (i = j)) as [Hij|]; [rewrite <- Hij, Ei in He; by injection He as <- <-|]. eapply klt_trans; [exact Hk|].
  eapply (ascending_lookup _ i j); [exact Hs|by eapply entries_lookup..|lia].
Qed.

Lemma key_slot_unique p k i j r1 r2 : leaf_wf p -> l_entries p !! i = Some (k, r1) -> l_entries p !! j = Some (k, r2) -> i = j.
Proof using.
  intros [Hs _ _ _ _ _ _ _] H1 H2. apply entries_lookup in H1, H2. apply ascending_nodup in Hs. by eapply NoDup_lookup.
Qed.

Lemma search_found p k i rid : leaf_wf p -> l_entries p !! i = Some (k, rid) -> LeafPage.search p k = inl i.
Proof using.
  intros Hw Hi. pose proof (search_cases p k Hw) as Hc. destruct (LeafPage.search p k) as [j|j].
  - destruct Hc as [r Hj]. f_equal. by eapply key_slot_unique.
  - destruct Hc as (_ & H1 & H2). exfalso. destruct (decide (i < j)%nat) as [Hl|Hl];
      [apply (klt_irrefl k), (H1 i _ Hi Hl)|apply (klt_irrefl k), (H2 i _ Hi ltac:(lia))].
Qed.

Lemma tombstoned_spec p s : LeafPage.is_tombstoned p s = true <-> s ∈ l_tombstones p.
Proof using.
  unfold LeafPage.is_tombstoned. rewrite existsb_exists. split.
  - intros (x & Hx & ->%Z.eqb_eq). by apply list_elem_of_In.
  - intros Hs. exists s. split; [by apply list_elem_of_In|apply Z.eqb_refl].
Qed.

Lemma tombstoned_false p s : LeafPage.is_tombstoned p s = false <-> s ∉ l_tombstones p.
Proof using. rewrite <- tombstoned_spec. destruct (LeafPage.is_tombstoned p s); split; congruence. Qed.

(** ** The live entries *)

Lemma live_from_elem p es : forall i k rid, (k, rid) ∈ LeafPage.live_from i p es <->
  exists j, es !! j = Some (k, rid) /\ i + Z.of_nat j ∉ l_tombstones p.
Proof using.
  induction es as [|e es IH]; intros i k rid; cbn [LeafPage.live_from].
  { split; [by intros ?%not_elem_of_nil|]. intros (j & Hj & _). by rewrite lookup_nil in Hj. }
  assert (Hrest : (exists j, es !! j = Some (k, rid) /\ i + 1 + Z.of_nat j ∉ l_tombstones p) <->
                  (exists j, (e :: es) !! S j = Some (k, rid) /\ i + Z.of_nat (S j) ∉ l_tombstones p)).
  { split; intros (j & H1 & H2); exists j; (split; [exact H1|]); [replace (i + Z.of_nat (S j)) with (i + 1 + Z.of_nat j) by lia
      |replace (i + 1 + Z.of_nat j) with (i + Z.of_nat (S j)) by lia]; exact H2. }
  destruct (LeafPage.is_tombstoned p i) eqn:Et.
  - apply tombstoned_spec in Et. rewrite IH, Hrest. split; [intros [j ?]; by exists (S j)|]. intros ([|j] & H1 & H2); [|by exists j].
    rewrite Z.add_0_r in H2. done.
  - apply tombstoned_false in Et. rewrite list.elem_of_cons, IH, Hrest. split.
    + intros [<-|[j ?]]; [|by exists (S j)]. exists 0%nat. by rewrite Z.add_0_r.
    + intros ([|j] & H1 & H2); [left; cbn in H1; congruence|right; by exists j].
Qed.

Lemma live_from_sublist p es : forall i, LeafPage.live_from i p es `sublist_of` es.
Proof using. induction es as [|e es IH]; intros i; cbn; [done|]. destruct (LeafPage.is_tombstoned p i); by constructor. Qed.

Lemma iter_lives p k rid : (k, rid) ∈ LeafPage.iter p <-> lives p k rid.
Proof using. apply (live_from_elem p (l_entries p) 0). Qed.

Lemma sublist_fmap' {A B} (f : A -> B) l1 l2 : l1 `sublist_of` l2 -> f <$> l1 `sublist_of` f <$> l2.
Proof using. induction 1; cbn; by constructor. Qed.

Lemma iter_ascending p : leaf_wf p -> ascending (LeafPage.iter p).*1.
Proof using. intros Hw. eapply ascending_sublist; [apply sublist_fmap', live_from_sublist|apply Hw]. Qed.

Lemma contents_lives p k rid : leaf_wf p -> contents p !! k = Some rid <-> lives p k rid.
Proof using.
  intros Hw. unfold contents. rewrite <- elem_of_list_to_map; [apply iter_lives|]. by apply ascending_nodup, iter_ascending.
Qed.

Lemma contents_None p k : leaf_wf p -> contents p !! k = None <-> forall rid, ~ lives p k rid.
Proof using.
  intros Hw. split.
  - intros H rid Hl. apply contents_lives in Hl; [|done]. congruence.
  - intros H. destruct (contents p !! k) as [rid|] eqn:E; [|done]. apply contents_lives in E; [|done]. by destruct (H rid).
Qed.

Lemma lives_at p k i r : leaf_wf p -> l_entries p !! i = Some (k, r) -> forall rid, lives p k rid <-> rid = r /\ Z.of_nat i ∉ l_tombstones p.
Proof using.
  intros Hw Hi rid. split.
  - intros (j & Hj & Ht). assert (i = j) as <- by (by eapply key_slot_unique). by rewrite Hi in Hj; injection Hj as ->.
  - intros [-> Ht]. by exists i.
Qed.

Lemma get_contents {E} p k : leaf_wf p -> @LeafPage.get E p k = Ok (contents p !! k).
Proof using.
  intros Hw. unfold LeafPage.get. pose proof (search_cases p k Hw) as Hc. destruct (LeafPage.search p k) as [i|i].
  - destruct Hc as [r Hi]. pose proof (lookup_lt_Some _ _ _ Hi). pose proof (w_size _ Hw). rewrite leaf_slot_ok by lia. cbn [mbind outcome_bind].
    destruct (LeafPage.is_tombstoned p (Z.of_nat i)) eqn:Et.
    + apply tombstoned_spec in Et. f_equal. symmetry. apply contents_None; [done|]. intros rid [_ ?]%(lives_at p k i r Hw Hi). done.
    + apply tombstoned_false in Et. rewrite Hi. cbn. do 2 f_equal. symmetry. apply contents_lives; [done|]. by exists i.
  - destruct Hc as (_ & H1 & H2). f_equal. symmetry. apply contents_None; [done|]. intros rid (j & Hj & _).
    destruct (decide (j < i)%nat) as [Hl|Hl]; [apply (klt_irrefl k), (H1 j _ Hj Hl)|apply (klt_irrefl k), (H2 j _ Hj ltac:(lia))].
Qed.

End leaf.

(** * Operations on leaves *)

Import InternalPage (insert_at, remove_at).
Import LeafPage (drop_first, adjust_tombstones_after_insert, adjust_tombstones_after_remove).

(** ** Lists *)

Section lists.
Context {A : Type}.
Implicit Types l : list A.

Lemma insert_at_length i x l : length (insert_at i x l) = S (length l).
Proof. unfold insert_at. rewrite length_app, length_cons, length_take, length_drop. lia. Qed.

Lemma insert_at_lookup i x l j : (i <= length l)%nat ->
  insert_at i x l !! j = if decide (j < i)%nat then l !! j else if decide (j = i) then Some x else l !! (j - 1)%nat.
Proof.
  intros Hi. unfold insert_at. case_decide as Hj.
  - rewrite lookup_app_l by (rewrite length_take; lia). by apply lookup_take_lt.
  - rewrite lookup_app_r by (rewrite length_take; lia). rewrite length_take_le by lia. case_decide as He.
    + subst. by rewrite Nat.sub_diag.
    + replace (j - i)%nat with (S (j - i - 1)) by lia. change (drop i l !! (j - i - 1)%nat = l !! (j - 1)%nat). rewrite lookup_drop. f_equal. lia.
Qed.

Lemma remove_at_length i l : (i < length l)%nat -> length (remove_at i l) = (length l - 1)%nat.
Proof. intros. unfold remove_at. rewrite length_app, length_take, length_drop. lia. Qed.

Lemma remove_at_lookup i l j : (i < length l)%nat ->
  remove_at i l !! j = if decide (j < i)%nat then l !! j else l !! S j.
Proof.
  intros Hi. unfold remove_at. case_decide as Hj.
  - rewrite lookup_app_l by (rewrite length_take; lia). by apply lookup_take_lt.
  - rewrite lookup_app_r by (rewrite length_take; lia). rewrite length_take_le by lia. rewrite lookup_drop. f_equal. lia.
Qed.

Lemma remove_at_sublist i l : remove_at i l `sublist_of` l.
Proof.
  unfold remove_at. rewrite <- (take_drop i l) at 3. apply sublist_app; [done|].
  replace (S i) with (i + 1)%nat by lia. rewrite <- (drop_drop l 1 i). apply sublist_drop.
Qed.

Lemma Forall_insert_at (P : A -> Prop) i x l : P x -> Forall P l -> Forall P (insert_at i x l).
Proof. intros Hx Hl. unfold insert_at. apply Forall_app. split; [by apply Forall_take|]. constructor; [done|by apply Forall_drop]. Qed.

Lemma Forall_remove_at (P : A -> Prop) i l : Forall P l -> Forall P (remove_at i l).
Proof. intros Hl. unfold remove_at. apply Forall_app. split; [by apply Forall_take|by apply Forall_drop]. Qed.

Lemma filter_sublist' (f : A -> bool) l : List.filter f l `sublist_of` l.
Proof. induction l as [|x l IH]; cbn; [done|]. destruct (f x); by constructor. Qed.

Lemma Forall_sublist' (P : A -> Prop) l1 l2 : l1 `sublist_of` l2 -> Forall P l2 -> Forall P l1.
Proof. intros Hs. rewrite !list.Forall_forall. intros H x Hx. apply H. by eapply elem_of_submseteq, sublist_submseteq. Qed.

Lemma elem_filter (f : A -> bool) x l : x ∈ List.filter f l <-> x ∈ l /\ f x = true.
Proof. by rewrite !list_elem_of_In, filter_In. Qed.
End lists.

Lemma fmap_insert_at {A B} (f : A -> B) i x l : f <$> insert_at i x l = insert_at i (f x) (f <$> l).
Proof. unfold insert_at. by rewrite fmap_app, fmap_cons, fmap_take, fmap_drop. Qed.

Lemma fmap_remove_at {A B} (f : A -> B) i l : f <$> remove_at i l = remove_at i (f <$> l).
Proof. unfold remove_at. by rewrite fmap_app, fmap_take, fmap_drop. Qed.

Lemma ascending_insert_at ks i k : ascending ks -> (forall j a, ks !! j = Some a -> (j < i)%nat -> klt a k) ->
  (forall j a, ks !! j = Some a -> (i <= j)%nat -> klt k a) -> ascending (insert_at i k ks).
Proof.
  intros Hs H1 H2. unfold insert_at. apply ascending_app. split_and!.
  - by apply ascending_take.
  - constructor; [by apply ascending_drop|]. apply list.Forall_forall. intros a [j Hj]%list_elem_of_lookup_1.
    rewrite lookup_drop in Hj. eapply H2; [exact Hj|lia].
  - intros a b [j Hj]%list_elem_of_lookup_1 Hb. apply lookup_take_Some in Hj as [Hj Hlt]. pose proof (H1 _ _ Hj Hlt) as Hak.
    apply list.elem_of_cons in Hb as [->|[m Hm]%list_elem_of_lookup_1]; [done|]. rewrite lookup_drop in Hm.
    eapply klt_trans; [exact Hak|]. eapply H2; [exact Hm|lia].
Qed.

(** ** Tombstones *)

Lemma after_insert_elem at_ ts s : s ∈ adjust_tombstones_after_insert at_ ts <->
  (s < at_ /\ s ∈ ts) \/ (at_ < s /\ s - 1 ∈ ts).
Proof.
  unfold adjust_tombstones_after_insert. rewrite list_elem_of_fmap. split.
  - intros (t & -> & Ht). destruct (Z.leb_spec at_ t); [right|left; split; [lia|done]]. split; [lia|].
    by replace (t + 1 - 1) with t by lia.
  - intros [[H1 H2]|[H1 H2]]; [exists s|exists (s - 1)]; (split; [|done]);
      [rewrite (proj2 (Z.leb_gt _ _)) by lia|rewrite (proj2 (Z.leb_le _ _)) by lia]; lia.
Qed.

Lemma after_insert_nodup at_ ts : NoDup ts -> NoDup (adjust_tombstones_after_insert at_ ts).
Proof.
  intros. apply NoDup_fmap_2_strong; [|done]. intros x y _ _. destruct (Z.leb_spec at_ x), (Z.leb_spec at_ y); lia.
Qed.

Lemma after_remove_elem at_ ts s : s ∈ adjust_tombstones_after_remove at_ ts <->
  (s < at_ /\ s ∈ ts) \/ (at_ <= s /\ s + 1 ∈ ts).
Proof.
  unfold adjust_tombstones_after_remove. rewrite list_elem_of_fmap. split.
  - intros (t & -> & [Ht Hn]%elem_filter). apply negb_true_iff, Z.eqb_neq in Hn.
    destruct (Z.ltb_spec at_ t); [right|left; split; [lia|done]]. split; [lia|]. by replace (t - 1 + 1) with t by lia.
  - intros [[H1 H2]|[H1 H2]]; [exists s|exists (s + 1)]; (split; [|apply elem_filter; split; [done|by apply negb_true_iff, Z.eqb_neq; lia]]);
      [rewrite (proj2 (Z.ltb_ge _ _)) by lia|rewrite (proj2 (Z.ltb_lt _ _)) by lia]; lia.
Qed.

Lemma after_remove_nodup at_ ts : NoDup ts -> NoDup (adjust_tombstones_after_remove at_ ts).
Proof.
  intros Hn. apply NoDup_fmap_2_strong; [|by eapply sublist_NoDup, filter_sublist'].
  intros x y [_ Hx]%elem_filter [_ Hy]%elem_filter. apply negb_true_iff, Z.eqb_neq in Hx, Hy.
  destruct (Z.ltb_spec at_ x), (Z.ltb_spec at_ y); lia.
Qed.

Lemma after_remove_length at_ ts : (length (adjust_tombstones_after_remove at_ ts) <= length ts)%nat.
Proof. unfold adjust_tombstones_after_remove. rewrite length_fmap. apply sublist_length, filter_sublist'. Qed.

Lemma drop_first_elem s ts t : NoDup ts -> t ∈ drop_first s ts <-> t ∈ ts /\ t <> s.
Proof.
  induction 1 as [|x ts Hx Hn IH]; cbn [drop_first]; [split; [by intros ?%not_elem_of_nil|intros [?%not_elem_of_nil _]; done]|].
  destruct (Z.eqb_spec x s) as [->|Hne]; rewrite ?list.elem_of_cons.
  - split; [intros H; split; [by right|congruence]|]. intros [[->|H] Hts]; done.
  - rewrite IH. split; [intros [->|[H1 H2]]; auto|]. intros [[->|H] Hts]; auto.
Qed.

Lemma drop_first_sublist s ts : drop_first s ts `sublist_of` ts.
Proof. induction ts as [|x ts IH]; cbn; [done|]. destruct (x =? s); by constructor. Qed.

(** ** The leaves the operations make *)

Section leaf.
Context (layout : Layout).

Abbreviation leaf_wf := (leaf_wf layout).

Definition overwritten (p : LeafPage) (i : nat) (k : IndexKey) (rid : RecordId) : LeafPage :=
  mkLeaf (<[i := (k, rid)]> (l_entries p)) (l_next p) (drop_first (Z.of_nat i) (l_tombstones p)).
Definition inserted (p : LeafPage) (i : nat) (k : IndexKey) (rid : RecordId) : LeafPage :=
  mkLeaf (insert_at i (k, rid) (l_entries p)) (l_next p) (adjust_tombstones_after_insert (Z.of_nat i) (l_tombstones p)).
Definition removed (p : LeafPage) (i : nat) : LeafPage :=
  mkLeaf (remove_at i (l_entries p)) (l_next p) (adjust_tombstones_after_remove (Z.of_nat i) (l_tombstones p)).
Definition buried (p : LeafPage) (i : nat) : LeafPage :=
  mkLeaf (l_entries p) (l_next p) (l_tombstones p ++ [Z.of_nat i]).
Definition forgot (p : LeafPage) : LeafPage := mkLeaf (l_entries p) (l_next p) (drop 1 (l_tombstones p)).

Lemma overwritten_wf p i k r rid : leaf_wf p -> l_entries p !! i = Some (k, r) -> rid_valid rid -> leaf_wf (overwritten p i k rid).
Proof using.
  intros [H1 H2 H3 H4 H5 H6 H7 H8] Hi Hr.
  assert (Hk : LeafPage.keys (overwritten p i k rid) = LeafPage.keys p).
  { unfold LeafPage.keys. cbn. rewrite list_fmap_insert. cbn. apply list_insert_id. by rewrite list_lookup_fmap, Hi. }
  split; rewrite ?Hk; try done; cbn [overwritten l_entries l_tombstones l_next].
  - by eapply sublist_NoDup, drop_first_sublist.
  - rewrite length_insert. eapply Forall_sublist'; [apply drop_first_sublist|done].
  - pose proof (sublist_length _ _ (drop_first_sublist (Z.of_nat i) (l_tombstones p))). lia.
  - by apply Forall_insert.
  - by rewrite length_insert.
Qed.

Lemma overwritten_lives p i k r rid : leaf_wf p -> l_entries p !! i = Some (k, r) ->
  forall k' rid', lives (overwritten p i k rid) k' rid' <-> if decide (k' = k) then rid' = rid else lives p k' rid'.
Proof using.
  intros Hw Hi k' rid'. pose proof (lookup_lt_Some _ _ _ Hi) as Hlt. unfold lives. cbn [overwritten l_entries l_tombstones].
  split.
  - intros (j & Hj & Ht). rewrite drop_first_elem in Ht by apply Hw. destruct (decide (j = i)) as [->|Hji].
    + rewrite list_lookup_insert_eq in Hj by done. injection Hj as -> ->. by rewrite decide_True.
    + rewrite list_lookup_insert_ne in Hj by done. rewrite decide_False; [|intros ->; by apply Hji; eapply key_slot_unique].
      exists j. split; [done|]. intros ?. apply Ht. split; [done|lia].
  - case_decide as Hk.
    + intros ->. subst k'. exists i. rewrite list_lookup_insert_eq by done. split; [done|]. rewrite drop_first_elem by apply Hw. tauto.
    + intros (j & Hj & Ht). exists j. rewrite list_lookup_insert_ne by (intros <-; congruence). split; [done|].
      rewrite drop_first_elem by apply Hw. tauto.
Qed.

Lemma inserted_wf p i k rid : leaf_wf p -> LeafPage.search p k = inr i -> len k <= max_key_len layout -> rid_valid rid ->
  len (l_entries p) + 1 <= u32_max -> leaf_wf (inserted p i k rid).
Proof using.
  intros Hw Hs Hk Hr Hn. pose proof (search_cases _ p k Hw) as Hc. rewrite Hs in Hc. destruct Hc as (Hi & Hb & Ha).
  destruct Hw as [H1 H2 H3 H4 H5 H6 H7 H8].
  assert (Eq : LeafPage.keys (inserted p i k rid) = insert_at i k (LeafPage.keys p)) by apply fmap_insert_at.
  split; rewrite ?Eq; try done; cbn [inserted l_entries l_tombstones l_next]; rewrite ?insert_at_length.
  - apply ascending_insert_at; [done| |]; intros j a Hj; unfold LeafPage.keys in Hj; rewrite list_lookup_fmap in Hj;
      destruct (l_entries p !! j) as [e|] eqn:Ej; try done; injection Hj as <-; [by apply Hb|by apply Ha].
  - by apply Forall_insert_at.
  - by apply after_insert_nodup.
  - rewrite list.Forall_forall in *. intros s [[? ?]|[? ?]]%after_insert_elem; specialize (H4 _ H0); lia.
  - unfold adjust_tombstones_after_insert. by rewrite length_fmap.
  - by apply Forall_insert_at.
  - lia.
Qed.

Lemma inserted_lives p i k rid : leaf_wf p -> LeafPage.search p k = inr i ->
  forall k' rid', lives (inserted p i k rid) k' rid' <-> if decide (k' = k) then rid' = rid else lives p k' rid'.
Proof using.
  intros Hw Hs. pose proof (search_cases _ p k Hw) as Hc. rewrite Hs in Hc. destruct Hc as (Hi & Hb & Ha).
  intros k' rid'. unfold lives. cbn [inserted l_entries l_tombstones].
  assert (Hno : forall j r, l_entries p !! j <> Some (k, r)).
  { intros j r Hj. destruct (decide (j < i)%nat) as [Hl|Hl]; [apply (klt_irrefl k), (Hb j _ Hj Hl)|apply (klt_irrefl k), (Ha j _ Hj ltac:(lia))]. }
  setoid_rewrite after_insert_elem. split.
  - intros (j & Hj & Ht). rewrite insert_at_lookup in Hj by done. repeat case_decide; subst; try congruence; try (by destruct (Hno _ _ Hj)).
    + exists j. split; [done|]. intros ?. apply Ht. left. split; [lia|done].
    + exists (j - 1)%nat. split; [done|]. intros ?. apply Ht. right. replace (Z.of_nat j - 1) with (Z.of_nat (j - 1)) by lia. split; [lia|done].
  - case_decide as Hk.
    + intros ->. subst. exists i. rewrite insert_at_lookup, decide_False, decide_True by (done || lia). split; [done|]. intros [[? _]|[? _]]; lia.
    + intros (j & Hj & Ht). destruct (decide (j < i)%nat) as [Hl|Hl]; [exists j|exists (S j)]; rewrite insert_at_lookup by done.
      * rewrite decide_True by done. split; [done|]. intros [[_ ?]|[? _]]; [done|lia].
      * rewrite !decide_False by lia. replace (S j - 1)%nat with j by lia. split; [done|].
        replace (Z.of_nat (S j) - 1) with (Z.of_nat j) by lia. intros [[? _]|[_ ?]]; [lia|done].
Qed.

Lemma removed_wf p i : leaf_wf p -> (i < length (l_entries p))%nat -> leaf_wf (removed p i).
Proof using.
  intros [H1 H2 H3 H4 H5 H6 H7 H8] Hi.
  assert (Eq : LeafPage.keys (removed p i) = remove_at i (LeafPage.keys p)) by apply fmap_remove_at.
  split; rewrite ?Eq; try done; cbn [removed l_entries l_tombstones l_next]; rewrite ?remove_at_length by done.
  - by eapply ascending_sublist, H1; apply remove_at_sublist.
  - by apply Forall_remove_at.
  - by apply after_remove_nodup.
  - rewrite list.Forall_forall in *. intros s [[? ?]|[? ?]]%after_remove_elem; specialize (H4 _ H0); lia.
  - pose proof (after_remove_length (Z.of_nat i) (l_tombstones p)). lia.
  - by apply Forall_remove_at.
  - lia.
Qed.

Lemma removed_lives p i k r : leaf_wf p -> l_entries p !! i = Some (k, r) ->
  forall k' rid', lives (removed p i) k' rid' <-> k' <> k /\ lives p k' rid'.
Proof using.
  intros Hw Hi k' rid'. pose proof (lookup_lt_Some _ _ _ Hi) as Hlt. unfold lives. cbn [removed l_entries l_tombstones].
  setoid_rewrite after_remove_elem. split.
  - intros (j & Hj & Ht). rewrite remove_at_lookup in Hj by done. case_decide as Hl.
    + split; [intros ->; assert (j = i) by (by eapply key_slot_unique); lia|]. exists j. split; [done|]. intros ?. apply Ht. left. split; [lia|done].
    + split; [intros ->; assert (S j = i) by (by eapply key_slot_unique); lia|]. exists (S j). split; [done|].
      replace (Z.of_nat (S j)) with (Z.of_nat j + 1) by lia. intros ?. apply Ht. right. split; [lia|done].
  - intros (Hne & j & Hj & Ht). assert (j <> i) by (intros ->; congruence). destruct (decide (j < i)%nat) as [Hl|Hl]; [exists j|exists (j - 1)%nat];
      rewrite remove_at_lookup by done.
    + rewrite decide_True by done. split; [done|]. intros [[_ ?]|[? _]]; [done|lia].
    + rewrite decide_False by lia. replace (S (j - 1)) with j by lia. split; [done|].
      replace (Z.of_nat (j - 1) + 1) with (Z.of_nat j) by lia. intros [[? _]|[_ ?]]; [lia|done].
Qed.

Lemma buried_wf p i : leaf_wf p -> (i < length (l_entries p))%nat -> Z.of_nat i ∉ l_tombstones p ->
  len (l_tombstones p) < tombstone_capacity layout -> leaf_wf (buried p i).
Proof using.
  intros [H1 H2 H3 H4 H5 H6 H7 H8] Hi Hn Hc. split; try done; cbn [buried l_entries l_tombstones l_next].
  - apply list.NoDup_app. split_and!; [done|intros x Hx ->%list_elem_of_singleton; done|apply NoDup_singleton].
  - apply Forall_app. split; [done|]. repeat constructor; lia.
  - rewrite length_app. cbn. lia.
Qed.

Lemma buried_lives p i k r : leaf_wf p -> l_entries p !! i = Some (k, r) ->
  forall k' rid', lives (buried p i) k' rid' <-> k' <> k /\ lives p k' rid'.
Proof using.
  intros Hw Hi k' rid'. unfold lives. cbn [buried l_entries l_tombstones]. setoid_rewrite not_elem_of_app. setoid_rewrite list_elem_of_singleton. split.
  - intros (j & Hj & Ht1 & Ht2). split; [|by exists j]. intros ->. apply Ht2. f_equal. by eapply key_slot_unique.
  - intros (Hne & j & Hj & Ht). exists j. split_and!; [done..|]. intros ?. assert (j = i) as -> by lia. congruence.
Qed.

(** Dropping the oldest tombstone and the entry it is for leaves what lives as it is. *)
Lemma forgot_wf p : leaf_wf p -> leaf_wf (forgot p).
Proof using.
  intros [H1 H2 H3 H4 H5 H6 H7 H8]. split; try done; cbn [forgot l_entries l_tombstones l_next].
  - by eapply sublist_NoDup, sublist_drop.
  - by apply Forall_drop.
  - rewrite length_drop. lia.
Qed.

Lemma purged_lives p t ts k r : leaf_wf p -> l_tombstones p = t :: ts -> l_entries p !! Z.to_nat t = Some (k, r) ->
  forall k' rid', lives (removed (forgot p) (Z.to_nat t)) k' rid' <-> lives p k' rid'.
Proof using.
  intros Hw Ht Hi k' rid'. rewrite (removed_lives (forgot p) (Z.to_nat t) k r (forgot_wf _ Hw) Hi). unfold lives. cbn [forgot l_entries l_tombstones].
  pose proof (w_slots _ _ Hw) as Hs. rewrite Ht in *. apply Forall_cons_1 in Hs as [Hs0 _]. cbn [drop]. setoid_rewrite not_elem_of_cons. split.
  - intros (Hne & j & Hj & Hjt). exists j. split_and!; [done| |done]. intros <-. rewrite Nat2Z.id in Hi. congruence.
  - intros (j & Hj & Hjt & Hjs). split; [|by exists j]. intros ->. apply Hjt.
    assert (j = Z.to_nat t) as -> by (by eapply key_slot_unique). lia.
Qed.

(** ** The operations *)

Definition insert_result (p : LeafPage) (k : IndexKey) (rid : RecordId) : outcome InsertError LeafPage :=
  match LeafPage.search p k with
  | inl i => if decide (Z.of_nat i ∈ l_tombstones p) then Ok (overwritten p i k rid) else Err DuplicateKey
  | inr i => Ok (inserted p i k rid)
  end.

Lemma insert_is p k rid : leaf_wf p -> len k <= max_key_len layout -> rid_valid rid -> len (l_entries p) + 1 <= u32_max ->
  LeafPage.insert layout p k rid = insert_result p k rid.
Proof using.
  intros Hw Hk Hr Hn. unfold LeafPage.insert, insert_result. pose proof (search_cases _ p k Hw) as Hc.
  destruct (LeafPage.search p k) as [i|i] eqn:Es.
  - destruct Hc as [r Hi]. pose proof (lookup_lt_Some _ _ _ Hi). rewrite leaf_slot_ok by lia. cbn [mbind outcome_bind]. case_decide as Ht.
    + rewrite (proj2 (tombstoned_spec _ _) Ht). cbn [negb]. rewrite Hi. cbn [expect mbind outcome_bind fst].
      exact (leaf_checked_ok layout (overwritten p i k rid) (overwritten_wf p i k r rid Hw Hi Hr)).
    + by rewrite (proj2 (tombstoned_false _ _) Ht).
  - destruct Hc as (Hi & _). rewrite leaf_slot_ok by lia. cbn [mbind outcome_bind].
    apply (leaf_checked_ok layout (inserted p i k rid)). by apply inserted_wf.
Qed.

Definition purged (p : LeafPage) (t : Z) : LeafPage := removed (forgot p) (Z.to_nat t).

Definition remove_result (p : LeafPage) (k : IndexKey) : outcome RemoveError LeafPage :=
  match LeafPage.search p k with
  | inr _ => Err KeyNotFound
  | inl i =>
      if decide (Z.of_nat i ∈ l_tombstones p) then Err KeyNotFound
      else if tombstone_capacity layout =? 0 then Ok (removed p i)
      else if LeafPage.tombstones_full layout p then
        match l_tombstones p with
        | [] => Panic
        | t :: _ => Ok (buried (purged p t) (if t <? Z.of_nat i then i - 1 else i))
        end
      else Ok (buried p i)
  end.

Lemma oldest_lookup p t ts : leaf_wf p -> l_tombstones p = t :: ts -> exists k r, l_entries p !! Z.to_nat t = Some (k, r).
Proof using.
  intros Hw Ht. pose proof (w_slots _ _ Hw) as Hs. rewrite Ht in Hs. apply Forall_cons_1 in Hs as [Hs _].
  destruct (lookup_lt_is_Some_2 (l_entries p) (Z.to_nat t) ltac:(lia)) as [[k r] ?]. by exists k, r.
Qed.

(** Where the entry at slot [i] is once the oldest tombstone and its entry are gone. *)
Lemma purged_slot p t ts i k r : leaf_wf p -> l_tombstones p = t :: ts -> l_entries p !! i = Some (k, r) -> Z.of_nat i ∉ l_tombstones p ->
  let i' := (if (t <? Z.of_nat i)%Z then i - 1 else i)%nat in
  l_entries (purged p t) !! i' = Some (k, r) /\ Z.of_nat i' ∉ l_tombstones (purged p t) /\
  len (l_tombstones (purged p t)) < len (l_tombstones p).
Proof using.
  intros Hw Ht Hi Hn. pose proof (w_slots _ _ Hw) as Hs. pose proof (lookup_lt_Some _ _ _ Hi).
  rewrite Ht in *. apply Forall_cons_1 in Hs as [Hs0 Hs]. apply not_elem_of_cons in Hn as [Hn0 Hn].
  cbn [purged removed forgot l_entries l_tombstones]. rewrite Ht. cbn [drop]. rewrite Z2Nat.id by lia. rewrite remove_at_lookup by lia. cbn zeta.
  rewrite after_remove_elem. split_and!.
  - destruct (Z.ltb_spec t (Z.of_nat i)); [rewrite decide_False by lia; replace (S (i - 1)) with i by lia|rewrite decide_True by lia]; done.
  - destruct (Z.ltb_spec t (Z.of_nat i)); intros [[? Hx]|[? Hx]]; try done; try lia.
    replace (Z.of_nat (i - 1) + 1) with (Z.of_nat i) in Hx by lia. done.
  - pose proof (after_remove_length t ts). change (drop 0 ts) with ts. cbn [length]. lia.
Qed.

Lemma purged_wf p t ts : leaf_wf p -> l_tombstones p = t :: ts -> leaf_wf (purged p t).
Proof using.
  intros Hw Ht. destruct (oldest_lookup p t ts Hw Ht) as (k & r & Hi). pose proof (lookup_lt_Some _ _ _ Hi).
  by apply removed_wf; [apply forgot_wf|].
Qed.

Lemma physical_remove_is {E} p s : leaf_wf p -> 0 <= s < len (l_entries p) ->
  @LeafPage.physical_remove_at E p s = Ok (removed p (Z.to_nat s)).
Proof using.
  intros Hw Hs. unfold LeafPage.physical_remove_at, removed. destruct (lookup_lt_is_Some_2 (l_entries p) (Z.to_nat s) ltac:(lia)) as [e ->].
  cbn. by rewrite Z2Nat.id by lia.
Qed.

Lemma remove_is p k : leaf_wf p -> LeafPage.remove_key layout p k = remove_result p k.
Proof using.
  intros Hw. unfold LeafPage.remove_key, remove_result. pose proof (search_cases _ p k Hw) as Hc.
  destruct (LeafPage.search p k) as [i|i] eqn:Es; [|done].
  destruct Hc as [r Hi]. pose proof (lookup_lt_Some _ _ _ Hi) as Hlt. pose proof (w_size _ _ Hw). pose proof (w_cap _ _ Hw).
  rewrite leaf_slot_ok by lia. cbn [mbind outcome_bind].
  case_decide as Ht; [by rewrite (proj2 (tombstoned_spec _ _) Ht)|]. rewrite (proj2 (tombstoned_false _ _) Ht).
  destruct (Z.eqb_spec (tombstone_capacity layout) 0) as [Hz|Hz].
  { rewrite physical_remove_is by (done || lia). cbn [mbind outcome_bind]. rewrite Nat2Z.id. by apply leaf_checked_ok, removed_wf. }
  unfold LeafPage.tombstones_full. destruct (Z.leb_spec (tombstone_capacity layout) (len (l_tombstones p))) as [Hf|Hf].
  - unfold LeafPage.purge_oldest_tombstone. destruct (l_tombstones p) as [|t ts] eqn:Et; [cbn in *; lia|]. rewrite <- Et in *.
    destruct (purged_slot p t ts i k r Hw Et Hi Ht) as (Hi' & Hn' & Hl'). pose proof (lookup_lt_Some _ _ _ Hi') as Hlt'.
    pose proof (w_slots _ _ Hw) as Hs. rewrite Et in Hs. apply Forall_cons_1 in Hs as [Hs0 _].
    assert (Ef : mkLeaf (l_entries p) (l_next p) ts = forgot p) by (unfold forgot; by rewrite Et).
    rewrite Ef, physical_remove_is by (apply forgot_wf, Hw || exact Hs0). cbn [mbind outcome_bind].
    change (removed (forgot p) (Z.to_nat t)) with (purged p t). rewrite <- (leaf_checked_ok layout (buried _ _)).
    + do 2 f_equal. unfold buried. do 3 f_equal. destruct (Z.ltb_spec t (Z.of_nat i)); lia.
    + apply buried_wf; [by eapply purged_wf|done|done|lia].
  - apply (leaf_checked_ok layout (buried p i)). by apply buried_wf.
Qed.

(** ** What they do to the contents *)

Lemma insert_contents p k rid : leaf_wf p -> len k <= max_key_len layout -> rid_valid rid -> len (l_entries p) + 1 <= u32_max ->
  match insert_result p k rid with
  | Ok p' => leaf_wf p' /\ contents p !! k = None /\ contents p' = <[k := rid]> (contents p)
  | Err DuplicateKey => is_Some (contents p !! k)
  | Panic => False
  end.
Proof using.
  intros Hw Hk Hr Hn. unfold insert_result. pose proof (search_cases _ p k Hw) as Hc.
  assert (Hput : forall p', leaf_wf p' -> (forall k' rid', lives p' k' rid' <-> if decide (k' = k) then rid' = rid else lives p k' rid') ->
      contents p' = <[k := rid]> (contents p)).
  { intros p' Hw' Hl. apply map_eq. intros k'. apply option_eq. intros rid'. rewrite (contents_lives layout), Hl, lookup_insert_Some by done.
    rewrite (contents_lives layout) by done. case_decide; naive_solver. }
  destruct (LeafPage.search p k) as [i|i] eqn:Es.
  - destruct Hc as [r Hi]. case_decide as Ht.
    + pose proof (overwritten_wf p i k r rid Hw Hi Hr) as Hw'. split_and!; [done| |by apply Hput; [|by eapply overwritten_lives]].
      apply (contents_None layout); [done|]. intros rid' [_ ?]%(lives_at layout p k i r Hw Hi). done.
    + exists r. apply (contents_lives layout); [done|]. by exists i.
  - pose proof (inserted_wf p i k rid Hw Es Hk Hr Hn) as Hw'. split_and!; [done| |by apply Hput; [|apply inserted_lives]].
    apply (contents_None layout); [done|]. intros rid' (j & Hj & _). rewrite (search_found layout p k j rid') in Es by done. done.
Qed.

Lemma remove_contents p k : leaf_wf p ->
  match remove_result p k with
  | Ok p' => leaf_wf p' /\ is_Some (contents p !! k) /\ contents p' = delete k (contents p)
  | Err KeyNotFound => contents p !! k = None
  | Panic => False
  end.
Proof using.
  intros Hw. unfold remove_result. pose proof (search_cases _ p k Hw) as Hc. pose proof (w_cap _ _ Hw).
  assert (Hdel : forall p', leaf_wf p' -> (forall k' rid', lives p' k' rid' <-> k' <> k /\ lives p k' rid') ->
      contents p' = delete k (contents p)).
  { intros p' Hw' Hl. apply map_eq. intros k'. apply option_eq. intros rid'. rewrite (contents_lives layout), Hl, lookup_delete_Some by done.
    rewrite (contents_lives layout) by done. naive_solver. }
  destruct (LeafPage.search p k) as [i|i] eqn:Es.
  2:{ apply (contents_None layout); [done|]. intros rid' (j & Hj & _). rewrite (search_found layout p k j rid') in Es by done. done. }
  destruct Hc as [r Hi]. pose proof (lookup_lt_Some _ _ _ Hi) as Hlt. case_decide as Ht.
  { apply (contents_None layout); [done|]. intros rid' [_ ?]%(lives_at layout p k i r Hw Hi). done. }
  assert (Hin : is_Some (contents p !! k)). { exists r. apply (contents_lives layout); [done|]. by exists i. }
  destruct (Z.eqb_spec (tombstone_capacity layout) 0) as [Hz|Hz].
  { pose proof (removed_wf p i Hw Hlt). split_and!; [done..|]. apply Hdel; [done|]. by eapply removed_lives. }
  unfold LeafPage.tombstones_full. destruct (Z.leb_spec (tombstone_capacity layout) (len (l_tombstones p))) as [Hf|Hf].
  - destruct (l_tombstones p) as [|t ts] eqn:Et; [cbn in *; lia|]. rewrite <- Et in *.
    destruct (purged_slot p t ts i k r Hw Et Hi Ht) as (Hi' & Hn' & Hl'). pose proof (lookup_lt_Some _ _ _ Hi') as Hlt'.
    pose proof (purged_wf p t ts Hw Et) as Hwq. pose proof (buried_wf _ _ Hwq Hlt' Hn' ltac:(lia)). split_and!; [done..|]. apply Hdel; [done|].
    intros k' rid'. rewrite (buried_lives _ _ k r Hwq Hi' k' rid'). destruct (oldest_lookup p t ts Hw Et) as (kt & rt & Ht').
    unfold purged. by rewrite (purged_lives p t ts kt rt Hw Et Ht').
  - pose proof (buried_wf p i Hw Hlt Ht Hf). split_and!; [done..|]. apply Hdel; [done|]. by eapply buried_lives.
Qed.

End leaf.
