(* ===== verification/LeafViewProofs.v ===== *)
(** * Leaf views

    The bytes of a leaf page and the leaf they encode. Every operation of a leaf view on the
    bytes gives the bytes of what the operation on the leaf gives. *)

From Stdlib Require Import ZArith Lia String Sorted.
From stdpp Require Import base list numbers option.
From S2P Require Import Prelude Bytes Ids Buf Str Slotted SlottedProofs BPlusPage PageView BPlusKeys PageViewProofs LeafContents.

Local Open Scope Z_scope.

Import PageCodec LeafPageView.
Import LeafPage (drop_first, adjust_tombstones_after_insert, adjust_tombstones_after_remove).

Section leaf.
Context (layout : Layout).
Context (Hcap : 0 <= tombstone_capacity layout) (Hroom : 28 + 4 * tombstone_capacity layout <= PAGE_SIZE).

Abbreviation cap := (tombstone_capacity layout).
Abbreviation area := (Layout.leaf_area layout).
Abbreviation leaf_wf := (leaf_wf layout).
Abbreviation tombs_are := (tombs_are layout).
Abbreviation tombs_only := (tombs_only layout).

Record leaf_is (b : bytes) (p : LeafPage) : Prop := {
  v_node : node_is b KIND_LEAF (len (l_entries p)) (l_next p);
  v_entries : holds area b (LeafPage.entries p);
  v_tombs : tombs_are b (l_tombstones p);
}.

Lemma entries_length p : length (LeafPage.entries p) = length (l_entries p).
Proof using. apply length_fmap. Qed.

Lemma area_start : slots_start area = 28 + 4 * cap.
Proof using. apply slots_start_eq. Qed.

(** A change of the entries that keeps what is before them. *)
Lemma leaf_entries_changed b b' p es : leaf_is b p -> holds area b' es ->
  (forall o m, 0 <= o -> 0 <= m -> o + m <= slots_start area -> sub b' o m = sub b o m) ->
  node_is b' KIND_LEAF (len (l_entries p)) (l_next p) /\ tombs_are b' (l_tombstones p).
Proof using Hcap Hroom.
  intros [H1 H2 H3] Hh Hf. rewrite area_start in Hf. split.
  - eapply node_is_frame; [exact H1|apply Hh|]. intros. apply Hf; lia.
  - eapply tombs_frame; [exact Hcap|exact Hroom|exact H3|]. intros. apply Hf; lia.
Qed.

Lemma resized b n m link es ts : node_is b KIND_LEAF n link -> holds area b es -> tombs_are b ts -> 0 <= m <= u32_max ->
  exists b', (forall E, @set_size E b m = Ok b') /\ node_is b' KIND_LEAF m link /\ holds area b' es /\ tombs_are b' ts.
Proof using Hcap Hroom.
  intros H1 H2 H3 Hm. pose proof (n_len _ _ _ _ H1) as Hl. assert (PAGE_SIZE = 8192) by done. exists (splice b 8 (to_le 4 m)). split_and!.
  - intros E. unfold set_size, put_u32_le. change NODE_SIZE_OFFSET with 8. apply put_le_ok; lia.
  - by eapply node_resize.
  - eapply holds_frame; [exact H2|by rewrite length_splice|]. rewrite area_start. intros. apply sub_splice_disjoint; blia.
  - eapply tombs_frame; [exact Hcap|exact Hroom|exact H3|]. intros. apply sub_splice_disjoint; blia.
Qed.

Lemma retombed b b' n link es ts : node_is b KIND_LEAF n link -> holds area b es -> tombs_only b b' -> tombs_are b' ts ->
  node_is b' KIND_LEAF n link /\ holds area b' es /\ tombs_are b' ts.
Proof using Hcap Hroom.
  intros H1 H2 [Hl Hf] H3. assert (PAGE_SIZE = 8192) by done. split_and!; [| |done].
  - eapply node_is_frame; [exact H1|done|]. intros. apply Hf; lia.
  - eapply holds_frame; [exact H2|done|]. rewrite area_start. intros. apply Hf; lia.
Qed.

Section view.
Context (b : bytes) (p : LeafPage) (Hb : leaf_is b p) (Hw : leaf_wf p).

Lemma view_len : len b = PAGE_SIZE.
Proof using Hb Hw Hcap Hroom. apply Hb. Qed.

Lemma view_size {E} : @size E b = Ok (len (l_entries p)).
Proof using Hb Hw Hcap Hroom. eapply size_ok, Hb. Qed.

Lemma view_count {E} : @tombstone_count E b = Ok (len (l_tombstones p)).
Proof using Hb Hw Hcap Hroom. eapply count_ok; [exact Hcap|exact Hroom|apply view_len|apply Hb]. Qed.

Lemma view_key {E} i k rid : l_entries p !! i = Some (k, rid) -> @key layout E b (Z.of_nat i) = Ok k.
Proof using Hb Hw Hcap Hroom.
  intros Hi. unfold key. rewrite view_size. cbn [mbind outcome_bind]. rewrite <- entries_length.
  rewrite (key_ok area b (LeafPage.entries p) (v_entries _ _ Hb) i (k, encode_record_id_bytes rid)); [done|].
  unfold LeafPage.entries. by rewrite list_lookup_fmap, Hi.
Qed.

Lemma view_payload {E} i k rid : l_entries p !! i = Some (k, rid) ->
  @EntryArea.payload area E b (len (l_entries p)) (Z.of_nat i) = Ok (encode_record_id_bytes rid).
Proof using Hb Hw Hcap Hroom.
  intros Hi. rewrite <- entries_length. rewrite (payload_ok area b (LeafPage.entries p) (v_entries _ _ Hb) i (k, encode_record_id_bytes rid)); [done|].
  unfold LeafPage.entries. by rewrite list_lookup_fmap, Hi.
Qed.

Lemma view_small : len (l_entries p) <= PAGE_SIZE /\ PAGE_SIZE = 8192.
Proof using Hb Hw Hcap Hroom.
  split; [|done]. pose proof (h_fit _ _ _ (v_entries _ _ Hb)) as Hf. pose proof (esize_nonneg (LeafPage.entries p)).
  rewrite entries_length, area_start in Hf. lia.
Qed.

(** The binary search over the slots is the search over the keys. *)
Lemma view_partition {E} f c : (forall i k, LeafPage.keys p !! i = Some k -> f k = (i <? c)%nat) -> (c <= length (l_entries p))%nat ->
  partition_point (len (l_entries p)) (fun i => ki ← @key layout E b i; Ok (f ki)) = Ok (Z.of_nat c).
Proof using Hb Hw Hcap Hroom.
  intros Hf Hc. apply partition_point_ok; [lia|]. intros i Hi.
  destruct (lookup_lt_is_Some_2 (l_entries p) (Z.to_nat i) ltac:(lia)) as [[k rid] Hk].
  replace i with (Z.of_nat (Z.to_nat i)) at 1 by lia. rewrite (view_key _ k rid Hk). cbn [mbind outcome_bind].
  rewrite (Hf (Z.to_nat i) k) by (by eapply entries_lookup). f_equal.
  destruct (Nat.ltb_spec (Z.to_nat i) c), (Z.ltb_spec i (Z.of_nat c)); try done; lia.
Qed.

Definition zpos (r : nat + nat) : Z + Z := match r with inl i => inl (Z.of_nat i) | inr i => inr (Z.of_nat i) end.

Lemma keys_partition f : partition_prefix (fun e : IndexKey * RecordId => f e.1) (l_entries p) = partition_prefix f (LeafPage.keys p).
Proof using. symmetry. apply (partition_prefix_fmap f fst). Qed.

Lemma lower_bound_is {E} k : @lower_bound layout E b k = Ok (Z.of_nat (LeafPage.lower_bound p k)).
Proof using Hb Hw Hcap Hroom.
  unfold lower_bound, LeafPage.lower_bound. rewrite view_size. cbn [mbind outcome_bind].
  apply view_partition; [|apply partition_prefix_le]. rewrite (keys_partition (fun x => key_lt x k)). by apply lt_prefix_spec, Hw.
Qed.

Lemma upper_bound_is {E} k : @upper_bound layout E b k = Ok (Z.of_nat (LeafPage.upper_bound p k)).
Proof using Hb Hw Hcap Hroom.
  unfold upper_bound, LeafPage.upper_bound. rewrite view_size. cbn [mbind outcome_bind].
  apply view_partition; [|apply partition_prefix_le]. rewrite (keys_partition (fun x => key_le x k)). by apply le_prefix_spec, Hw.
Qed.

Lemma search_is {E} k : @search layout E b k = Ok (zpos (LeafPage.search p k)).
Proof using Hb Hw Hcap Hroom.
  pose proof (lower_bound_is (E := E) k) as Hl. unfold lower_bound in Hl. unfold search. rewrite view_size in *. cbn [mbind outcome_bind] in *.
  rewrite Hl. unfold LeafPage.search. fold (LeafPage.lower_bound p k). set (i := LeafPage.lower_bound p k). cbn [mbind outcome_bind].
  assert (i <= length (l_entries p))%nat by apply partition_prefix_le.
  destruct (l_entries p !! i) as [[k' rid]|] eqn:Ei.
  - pose proof (lookup_lt_Some _ _ _ Ei). rewrite (proj2 (Z.ltb_lt _ _)) by lia. rewrite (view_key i k' rid Ei). cbn. by destruct (key_eq k' k).
  - apply lookup_ge_None in Ei. by rewrite (proj2 (Z.ltb_ge _ _)) by lia.
Qed.

Lemma tombstoned_is {E} s : @is_tombstoned layout E b s = Ok (LeafPage.is_tombstoned p s).
Proof using Hb Hw Hcap Hroom.
  unfold is_tombstoned, LeafPage.is_tombstoned. rewrite view_count. cbn [mbind outcome_bind]. rewrite Nat2Z.id.
  rewrite (any_tombstone_ok layout Hcap Hroom) by (apply view_len || apply Hb || (pose proof (t_cap _ _ _ (v_tombs _ _ Hb)); lia)).
  f_equal. clear. induction (l_tombstones p) as [|t ts IH]; [done|]. cbn. by rewrite IH, Z.eqb_sym.
Qed.

Lemma record_is i k rid : l_entries p !! i = Some (k, rid) -> record_id layout b (Z.of_nat i) = Ok rid.
Proof using Hb Hw Hcap Hroom.
  intros Hi. unfold record_id. rewrite view_size. cbn [mbind outcome_bind]. rewrite (view_payload i k rid Hi). cbn [mbind outcome_bind].
  apply decode_rid, (Forall_lookup_1 _ _ _ _ (w_rids _ _ Hw) Hi).
Qed.

Lemma get_is k : get layout b k = LeafPage.get p k.
Proof using Hb Hw Hcap Hroom.
  unfold get, LeafPage.get. rewrite search_is. cbn [mbind outcome_bind]. pose proof (search_cases _ p k Hw) as Hc.
  destruct (LeafPage.search p k) as [i|i]; cbn [zpos]; [|done]. destruct Hc as [rid Hi]. pose proof (lookup_lt_Some _ _ _ Hi).
  pose proof (w_size _ _ Hw). rewrite tombstoned_is, leaf_slot_ok by lia. cbn [mbind outcome_bind]. destruct (LeafPage.is_tombstoned p (Z.of_nat i)); [done|].
  by rewrite (record_is i k rid Hi), Hi.
Qed.

Lemma used_is : LeafPage.used_bytes layout p = 2 * len (l_entries p) + esize (LeafPage.entries p).
Proof using.
  clear. unfold LeafPage.used_bytes, LeafPage.keys, LeafPage.entries. induction (l_entries p) as [|[k rid] es IH].
  { cbn [fmap list_fmap]. by rewrite esize_nil. }
  rewrite !fmap_cons, esize_cons, zsum_cons, IH. unfold LeafPage.cost, EntryArea.entry_cost, flat. cbn [fst snd].
  rewrite length_app. change (length (encode_record_id_bytes rid)) with 16%nat. change (payload_len (Layout.leaf_area layout)) with 16. unfold SLOT_ENCODED_BYTES. cbn [length]. lia.
Qed.

Lemma drop_first_omap s ts : NoDup ts -> omap (fun t => if negb (t =? s) then Some t else None) ts = drop_first s ts.
Proof using.
  induction 1 as [|t ts Ht Hn IH]; [done|]. cbn [omap list_omap drop_first]. destruct (Z.eqb_spec t s) as [->|]; cbn [negb]; [|by f_equal].
  clear IH Hn. induction ts as [|u ts IH]; [done|]. apply not_elem_of_cons in Ht as [Hu Ht]. cbn [omap list_omap].
  rewrite (proj2 (Z.eqb_neq u s)) by congruence. cbn [negb]. f_equal. by apply IH.
Qed.

Lemma after_insert_omap s ts : omap (fun t => Some (if s <=? t then t + 1 else t)) ts = adjust_tombstones_after_insert s ts.
Proof using. induction ts as [|t ts IH]; [done|]. cbn [omap list_omap]. by rewrite IH. Qed.

Lemma after_remove_omap s ts :
  omap (fun t => match Z.compare t s with Eq => None | Gt => Some (t - 1) | Lt => Some t end) ts = adjust_tombstones_after_remove s ts.
Proof using.
  unfold adjust_tombstones_after_remove. induction ts as [|t ts IH]; [done|]. cbn [omap list_omap List.filter].
  destruct (Z.compare_spec t s) as [->|Ht|Ht].
  - by rewrite Z.eqb_refl.
  - rewrite (proj2 (Z.eqb_neq t s)) by lia. cbn [negb]. rewrite fmap_cons, (proj2 (Z.ltb_ge _ _)) by lia. by rewrite <- IH.
  - rewrite (proj2 (Z.eqb_neq t s)) by lia. cbn [negb]. rewrite fmap_cons, (proj2 (Z.ltb_lt _ _)) by lia. by rewrite <- IH.
Qed.

Lemma tombs_u32 : Forall (fun s => 0 <= s < PAGE_SIZE) (l_tombstones p).
Proof using Hb Hw Hcap Hroom. pose proof view_small. eapply list.Forall_impl; [exact (w_slots _ _ Hw)|]. cbn. lia. Qed.

Lemma view_overwrite k r rid i : l_entries p !! i = Some (k, r) ->
  exists b', (b' ← @EntryArea.set_payload area LeafInsertError b (len (l_entries p)) (Z.of_nat i) (encode_record_id_bytes rid);
     rewrite_tombstones layout (fun s => if negb (s =? Z.of_nat i) then Some s else None) b') = Ok b' /\ leaf_is b' (overwritten p i k rid).
Proof using Hb Hw Hcap Hroom.
  intros Hi. pose proof view_small. rewrite <- entries_length.
  destruct (set_payload_ok (E := LeafInsertError) area b (LeafPage.entries p) i k (encode_record_id_bytes r) (encode_record_id_bytes rid)) as (b1 & -> & H1 & F1);
    [apply Hb|unfold LeafPage.entries; by rewrite list_lookup_fmap, Hi|done|]. cbn [mbind outcome_bind].
  destruct (leaf_entries_changed b b1 p _ Hb H1 F1) as [N1 T1].
  destruct (rewrite_tombstones_ok (E := LeafInsertError) layout Hcap Hroom (fun s => if negb (s =? Z.of_nat i) then Some s else None) b1 (l_tombstones p)) as (b2 & -> & O2 & T2);
    [apply H1|done| |].
  { intros t s Ht Hs. pose proof tombs_u32 as Hu. rewrite list.Forall_forall in Hu. specialize (Hu t Ht). unfold u32_max.
    destruct (negb _); [injection Hs as <-; lia|done]. }
  rewrite drop_first_omap in T2 by apply Hw.
  destruct (retombed b1 b2 _ _ _ _ N1 H1 O2 T2) as (N3 & H3 & T3). exists b2. split; [done|]. split; cbn [overwritten l_entries l_tombstones l_next].
  - by rewrite length_insert.
  - unfold LeafPage.entries in *. cbn [overwritten l_entries]. by rewrite list_fmap_insert.
  - done.
Qed.

Lemma view_put k rid i : LeafPage.search p k = inr i -> LeafPage.cost layout k <= EntryArea.capacity area - LeafPage.used_bytes layout p ->
  exists b', (b' ← @EntryArea.insert area LeafInsertError b (len (l_entries p)) (Z.of_nat i) k (encode_record_id_bytes rid);
     b' ← set_size b' (len (l_entries p) + 1);
     rewrite_tombstones layout (fun s => Some (if Z.of_nat i <=? s then s + 1 else s)) b') = Ok b' /\ leaf_is b' (inserted p i k rid).
Proof using Hb Hw Hcap Hroom.
  intros Hs Hc. pose proof view_small. pose proof (search_cases _ p k Hw) as Hsc. rewrite Hs in Hsc. destruct Hsc as [Hi _].
  rewrite used_is in Hc. rewrite <- entries_length in *. unfold LeafPage.cost, EntryArea.entry_cost, SLOT_ENCODED_BYTES, EntryArea.capacity in Hc.
  destruct (insert_ok (E := LeafInsertError) area b (LeafPage.entries p) i k (encode_record_id_bytes rid)) as (b1 & -> & H1 & F1);
    [apply Hb|done|done|change (len (encode_record_id_bytes rid)) with (payload_len area); lia|]. cbn [mbind outcome_bind].
  destruct (leaf_entries_changed b b1 p _ Hb H1 F1) as [N1 T1]. rewrite entries_length in *.
  destruct (resized b1 _ (len (l_entries p) + 1) _ _ _ N1 H1 T1 ltac:(unfold u32_max; lia)) as (b2 & -> & N2 & H2 & T2). cbn [mbind outcome_bind].
  destruct (rewrite_tombstones_ok (E := LeafInsertError) layout Hcap Hroom (fun s => Some (if Z.of_nat i <=? s then s + 1 else s)) b2 (l_tombstones p)) as (b3 & -> & O3 & T3);
    [apply H2|done| |].
  { intros t s Ht [= <-]. pose proof tombs_u32 as Hu. rewrite list.Forall_forall in Hu. specialize (Hu t Ht). unfold u32_max. destruct (_ <=? _); lia. }
  rewrite after_insert_omap in T3. destruct (retombed b2 b3 _ _ _ _ N2 H2 O3 T3) as (N4 & H4 & T4).
  exists b3. split; [done|]. split; cbn [inserted l_entries l_tombstones l_next].
  - rewrite insert_at_length. replace (Z.of_nat (S (length (l_entries p)))) with (len (l_entries p) + 1) by lia. done.
  - unfold LeafPage.entries in *. cbn [inserted l_entries]. by rewrite fmap_insert_at.
  - done.
Qed.

Lemma view_insert k rid : match insert layout b k rid with
  | Ok b' => exists p', insert_result p k rid = Ok p' /\ leaf_is b' p'
  | Err LDuplicateKey => insert_result p k rid = Err DuplicateKey
  | Err LFull => exists p', insert_result p k rid = Ok p' /\ LeafPage.is_overfull layout p' = true
  | Panic => False
  end.
Proof using Hb Hw Hcap Hroom.
  unfold insert, insert_result. rewrite search_is. cbn [mbind outcome_bind]. pose proof (search_cases _ p k Hw) as Hc.
  destruct (LeafPage.search p k) as [i|i] eqn:Es; cbn [zpos].
  - destruct Hc as [r Hi]. rewrite tombstoned_is. cbn [mbind outcome_bind]. case_decide as Ht.
    + rewrite (proj2 (tombstoned_spec _ _) Ht). cbn [negb]. rewrite view_size. cbn [mbind outcome_bind].
      destruct (view_overwrite k r rid i Hi) as (b' & -> & H). eauto.
    + by rewrite (proj2 (tombstoned_false _ _) Ht).
  - rewrite view_size. cbn [mbind outcome_bind]. pose proof (entries_free_ok (E := LeafInsertError) area b (LeafPage.entries p) (v_entries _ _ Hb)) as Ef.
    rewrite entries_length, <- used_is in Ef. rewrite Ef. cbn [mbind outcome_bind]. fold (LeafPage.cost layout k).
    destruct (Z.ltb_spec (EntryArea.capacity area - LeafPage.used_bytes layout p) (LeafPage.cost layout k)) as [Hf|Hf].
    + eexists. split; [done|]. unfold LeafPage.is_overfull. apply Z.ltb_lt. unfold LeafPage.used_bytes, LeafPage.keys in *.
      cbn [inserted l_entries]. rewrite fmap_insert_at. cbn [fst]. unfold InternalPage.insert_at. rewrite fmap_app, fmap_cons, zsum_app.
      rewrite <- (take_drop i (l_entries p).*1), fmap_app, zsum_app in Hf. rewrite zsum_cons. lia.
    + destruct (view_put k rid i Es Hf) as (b' & -> & H). eauto.
Qed.

(** A refused insert: the entry costs more than the page has free. *)
Lemma view_full k rid : insert layout b k rid = Err LFull ->
  (forall r, ~ lives p k r) /\ EntryArea.capacity area - LeafPage.used_bytes layout p < LeafPage.cost layout k.
Proof using Hb Hw Hcap Hroom.
  unfold insert. rewrite search_is. cbn [mbind outcome_bind]. pose proof (search_cases _ p k Hw) as Hc.
  destruct (LeafPage.search p k) as [i|i] eqn:Es; cbn [zpos].
  - destruct Hc as [r Hi]. rewrite tombstoned_is. cbn [mbind outcome_bind]. destruct (LeafPage.is_tombstoned p (Z.of_nat i)); cbn [negb]; [|done].
    rewrite view_size. cbn [mbind outcome_bind]. destruct (view_overwrite k r rid i Hi) as (b' & -> & _). done.
  - rewrite view_size. cbn [mbind outcome_bind]. pose proof (entries_free_ok (E := LeafInsertError) area b (LeafPage.entries p) (v_entries _ _ Hb)) as Ef.
    rewrite entries_length, <- used_is in Ef. rewrite Ef. cbn [mbind outcome_bind]. fold (LeafPage.cost layout k).
    destruct (Z.ltb_spec (EntryArea.capacity area - LeafPage.used_bytes layout p) (LeafPage.cost layout k)) as [Hf|Hf].
    + intros _. split; [|done]. intros r (j & Hj & _). rewrite (search_found layout p k j r Hw Hj) in Es. done.
    + destruct (view_put k rid i Es Hf) as (b' & -> & _). done.
Qed.

Lemma view_removed {E} i : (i < length (l_entries p))%nat ->
  exists b', @physical_remove_at layout E b (Z.of_nat i) = Ok b' /\ leaf_is b' (removed p i).
Proof using Hb Hw Hcap Hroom.
  intros Hi. pose proof view_small. destruct (lookup_lt_is_Some_2 (LeafPage.entries p) i ltac:(by rewrite entries_length)) as [e He].
  unfold physical_remove_at. rewrite view_size. cbn [mbind outcome_bind]. rewrite <- entries_length.
  destruct (entries_remove_ok (E := E) area b (LeafPage.entries p) i e) as (b1 & -> & H1 & F1); [apply Hb|done|]. cbn [mbind outcome_bind].
  destruct (leaf_entries_changed b b1 p _ Hb H1 F1) as [N1 T1]. rewrite entries_length in *. rewrite sub_usize_ok by lia. cbn [mbind outcome_bind].
  destruct (resized b1 _ (len (l_entries p) - 1) _ _ _ N1 H1 T1 ltac:(unfold u32_max; lia)) as (b2 & -> & N2 & H2 & T2). cbn [mbind outcome_bind].
  destruct (rewrite_tombstones_ok (E := E) layout Hcap Hroom
    (fun s => match Z.compare s (Z.of_nat i) with Eq => None | Gt => Some (s - 1) | Lt => Some s end) b2 (l_tombstones p)) as (b3 & -> & O3 & T3);
    [apply H2|done| |].
  { intros t s Ht Hs. pose proof tombs_u32 as Hu. rewrite list.Forall_forall in Hu. specialize (Hu t Ht). unfold u32_max.
    destruct (Z.compare_spec t (Z.of_nat i)); simplify_eq; lia. }
  rewrite after_remove_omap in T3. destruct (retombed b2 b3 _ _ _ _ N2 H2 O3 T3) as (N4 & H4 & T4).
  exists b3. split; [done|]. split; cbn [removed l_entries l_tombstones l_next].
  - rewrite remove_at_length by done. replace (Z.of_nat (length (l_entries p) - 1)) with (len (l_entries p) - 1) by lia. done.
  - unfold LeafPage.entries in *. cbn [removed l_entries]. by rewrite fmap_remove_at.
  - done.
Qed.

Lemma view_forgot {E} t ts : l_tombstones p = t :: ts -> exists b', @drop_oldest layout E b = Ok b' /\ leaf_is b' (forgot p).
Proof using Hb Hw Hcap Hroom.
  intros Ht. destruct Hb as [N H T]. pose proof tombs_u32 as Hu. rewrite Ht in *. apply Forall_cons_1 in Hu as [_ Hu].
  destruct (drop_oldest_ok (E := E) layout Hcap Hroom b t ts) as (b' & -> & O1 & T1); [apply H|done| |].
  { eapply list.Forall_impl; [exact Hu|]. unfold u32_max. cbn. pose proof view_small. lia. }
  destruct (retombed b b' _ _ _ _ N H O1 T1) as (N2 & H2 & T2). exists b'. split; [done|]. split; [done..|].
  cbn [forgot l_tombstones]. by rewrite Ht.
Qed.

Lemma view_buried {E} i : (i < length (l_entries p))%nat -> len (l_tombstones p) < cap ->
  exists b', (count ← @tombstone_count E b; b' ← set_tombstone_count b (count + 1); set_tombstone b' count (Z.of_nat i)) = Ok b' /\
    leaf_is b' (buried p i).
Proof using Hb Hw Hcap Hroom.
  intros Hi Hc. pose proof view_small as Hsm. pose proof view_len as Hl. destruct Hb as [N H T]. rewrite view_count. cbn [mbind outcome_bind].
  unfold set_tombstone_count, put_u32_le. change Layout.leaf_tombstone_count_offset with 24. rewrite put_le_ok by lia. cbn [mbind outcome_bind].
  set (b1 := splice b 24 (to_le 4 (len (l_tombstones p) + 1))). assert (Hl1 : len b1 = PAGE_SIZE) by (unfold b1; by rewrite length_splice).
  destruct (set_tombstone_ok (E := E) layout Hcap Hroom b1 (len (l_tombstones p)) (Z.of_nat i) Hl1 ltac:(lia) ltac:(unfold u32_max; lia))
    as (b2 & -> & O2 & S2 & C2 & F2).
  assert (O1 : tombs_only b b1). { split; [done|]. intros. apply sub_splice_disjoint; blia. }
  assert (T2 : tombs_are b2 (l_tombstones p ++ [Z.of_nat i])).
  { destruct T as [Tc Ts Tl]. split; [| |rewrite length_app; cbn; lia].
    - rewrite C2, length_app. cbn [length]. replace (Z.of_nat (length (l_tombstones p) + 1)) with (len (l_tombstones p) + 1) by lia.
      apply le_at_splice_same; [done|done|lia|lia|]. cbn. lia.
    - apply (tombs_at_app layout Hcap Hroom).
      + intros j s Hj. pose proof (lookup_lt_Some _ _ _ Hj). rewrite F2 by lia. unfold b1. rewrite le_at_splice_disjoint by blia. by apply Ts.
      + intros [|j] s Hj; [|done]. injection Hj as <-. rewrite <- S2. f_equal. lia. }
  destruct (retombed b b2 _ _ _ _ N H ltac:(by eapply tombs_only_trans) T2) as (N3 & H3 & T3).
  exists b2. split; [done|]. by split.
Qed.

End view.

Lemma view_remove b p k : leaf_is b p -> leaf_wf p -> match remove_key layout b k with
  | Ok b' => exists p', remove_result layout p k = Ok p' /\ leaf_is b' p'
  | Err e => remove_result layout p k = Err e
  | Panic => False
  end.
Proof using Hcap Hroom.
  intros Hb Hw. unfold remove_key, remove_result. rewrite (search_is b p) by done. cbn [mbind outcome_bind]. pose proof (search_cases _ p k Hw) as Hc.
  destruct (LeafPage.search p k) as [i|i] eqn:Es; cbn [zpos]; [|done]. destruct Hc as [r Hi]. pose proof (lookup_lt_Some _ _ _ Hi) as Hlt.
  rewrite (tombstoned_is b p) by done. cbn [mbind outcome_bind]. case_decide as Ht; [by rewrite (proj2 (tombstoned_spec _ _) Ht)|].
  rewrite (proj2 (tombstoned_false _ _) Ht). destruct (Z.eqb_spec cap 0) as [Hz|Hz].
  { destruct (view_removed (E := RemoveError) b p Hb Hw i Hlt) as (b' & -> & H). eauto. }
  rewrite (view_count b p) by done. cbn [mbind outcome_bind]. unfold LeafPage.tombstones_full.
  destruct (Z.leb_spec cap (len (l_tombstones p))) as [Hf|Hf]; cbn [mbind outcome_bind].
  2:{ destruct (view_buried (E := RemoveError) b p Hb Hw i Hlt Hf) as (b' & -> & H). eauto. }
  destruct (l_tombstones p) as [|t ts] eqn:Et; [cbn in *; lia|]. rewrite <- Et in *.
  destruct (oldest_lookup layout p t ts Hw Et) as (kt & rt & Ht'). pose proof (lookup_lt_Some _ _ _ Ht') as Hltt.
  destruct (purged_slot layout p t ts i k r Hw Et Hi Ht) as (Hi' & Hn' & Hl'). pose proof (lookup_lt_Some _ _ _ Hi') as Hlt'.
  pose proof (w_slots _ _ Hw) as Hs. pose proof (w_cap _ _ Hw). rewrite Et in Hs. apply Forall_cons_1 in Hs as [Hs0 _].
  rewrite (tombstone_head layout Hcap Hroom b 0 t ts) by (lia || apply Hb || (rewrite <- Et; apply Hb)). cbn [mbind outcome_bind].
  destruct (view_forgot (E := RemoveError) b p Hb Hw t ts Et) as (b1 & -> & H1). cbn [mbind outcome_bind].
  pose proof (forgot_wf layout p Hw) as Hw1. destruct (view_removed (E := RemoveError) b1 (forgot p) H1 Hw1 (Z.to_nat t) Hltt) as (b2 & E2 & H2).
  rewrite Z2Nat.id in E2 by lia. rewrite E2. cbn [mbind outcome_bind].
  destruct (view_buried (E := RemoveError) b2 (purged p t) H2 ltac:(by eapply purged_wf) _ Hlt' ltac:(lia)) as (b3 & E3 & H3).
  replace (if t <? Z.of_nat i then Z.of_nat i - 1 else Z.of_nat i) with (Z.of_nat (if (t <? Z.of_nat i)%Z then i - 1 else i)%nat)
    by (destruct (Z.ltb_spec t (Z.of_nat i)); lia).
  rewrite E3. eauto.
Qed.

End leaf.
