(* ===== verification/PageCodecProofs.v ===== *)
(** * Encoding and decoding pages

    What the encoders of leaf, internal and header pages write is what the views read and what
    the decoders give back; the operations of a view of an internal or header page on the page
    its bytes encode. *)

From Stdlib Require Import ZArith Lia String Sorted.
From stdpp Require Import base list numbers option.
From S2P Require Import Prelude Bytes Ids Buf Str Slotted SlottedProofs BPlusPage PageView BPlusKeys PageViewProofs LeafContents.
From S2P Require Import LeafViewProofs.

Local Open Scope Z_scope.

Import PageCodec.

(** ** Reading *)

Lemma read_bytes_at b o n : len b = PAGE_SIZE -> 0 <= o -> 0 <= n -> o + n <= PAGE_SIZE ->
  read_bytes n (mkBufReader b o) = Ok (sub b o n, mkBufReader b (o + n)).
Proof.
  intros Hl ? ? ?. assert (PAGE_SIZE = 8192) by done. unfold read_bytes, checked_add_usize, u64_max. cbn [r_buf r_pos].
  rewrite (proj2 (Z.leb_le _ _)) by lia. cbn [ok_or mbind outcome_bind].
  rewrite (proj2 (Z.ltb_ge _ _)) by lia. rewrite slice_ok by lia. cbn. by replace (o + n - o) with n by lia.
Qed.

Lemma read_int_at b o n : len b = PAGE_SIZE -> 0 <= o -> 0 <= n -> o + n <= PAGE_SIZE ->
  reading (read_int n (mkBufReader b o)) = Ok (le_at n b o, mkBufReader b (o + n)).
Proof. intros. unfold read_int. by rewrite read_bytes_at. Qed.

Lemma sub2 b o : 0 <= o -> o + 2 <= len b -> sub b o 2 = [byte_at b o; byte_at b (o + 1)].
Proof.
  intros. apply bytes_ext; [apply Nat2Z.inj; by rewrite len_sub by lia|]. intros i Hi. rewrite len_sub in Hi by lia. rewrite byte_at_sub by lia.
  assert (i = 0 \/ i = 1) as [-> | ->] by lia; [by rewrite Z.add_0_r|done].
Qed.

Lemma read_header_ok b kind n link : node_is b kind n link ->
  read_common_header_of_kind (mkBufReader b 0) kind = Ok (mkBufReader b 8).
Proof.
  intros [Hl Hm [H4 H5] Hk _ _]. assert (PAGE_SIZE = 8192) by done. unfold read_common_header_of_kind, read_common_header, reading.
  change (len MAGIC) with 4. rewrite read_bytes_at by lia. cbn [map_err mbind outcome_bind]. rewrite Hm, bool_decide_true by done. cbn [negb].
  fold (reading (read_u16_le (mkBufReader b (0 + 4)))). unfold read_u16_le. rewrite read_int_at by lia. cbn [mbind outcome_bind].
  unfold le_at. rewrite sub2 by lia. rewrite (H4 : byte_at b (0 + 4) = 3), (H5 : byte_at b (0 + 4 + 1) = 0). cbn [negb].
  change (negb (of_le [3; 0] =? VERSION)) with false. cbn iota.
  fold (reading (read_u8 (mkBufReader b (0 + 4 + 2)))). unfold read_u8. rewrite read_int_at by lia. cbn [mbind outcome_bind].
  fold (reading (read_int 1 (mkBufReader b (0 + 4 + 2 + 1)))). rewrite read_int_at by lia. cbn [mbind outcome_bind].
  assert (Ek : le_at 1 b (0 + 4 + 2) = kind).
  { rewrite <- Hk. unfold le_at. rewrite (byte_at_sub1 b 6) by lia. change (0 + 4 + 2) with 6.
    assert (Hs : len (sub b 6 1) = 1) by (by rewrite len_sub by lia). destruct (sub b 6 1) as [|x [|y l]]; cbn [length] in Hs; try lia. change (x + 256 * 0 = x). lia. }
  by rewrite Ek, Z.eqb_refl.
Qed.

(** ** Writing *)

Lemma put_header_ok {E} b kind : len b = PAGE_SIZE -> exists b', @put_common_header E b kind = Ok b' /\ len b' = PAGE_SIZE /\
  sub b' 0 4 = MAGIC /\ (byte_at b' 4 = 3 /\ byte_at b' 5 = 0) /\ byte_at b' 6 = kind /\
  (forall o m, 8 <= o -> 0 <= m -> o + m <= PAGE_SIZE -> sub b' o m = sub b o m).
Proof.
  intros Hl. assert (PAGE_SIZE = 8192) by done. unfold put_common_header. change KIND_OFFSET with 6.
  rewrite copy_from_slice_ok by (lia || done). cbn [mbind outcome_bind].
  set (b1 := splice b 0 MAGIC). assert (H1 : len b1 = 8192) by (unfold b1; rewrite length_splice; lia).
  rewrite copy_from_slice_ok by (lia || done). cbn [mbind outcome_bind].
  set (b2 := splice b1 4 (to_le 2 VERSION)). assert (H2 : len b2 = 8192) by (unfold b2; rewrite length_splice; lia).
  rewrite set_index_ok by lia. cbn [mbind outcome_bind].
  set (b3 := splice b2 6 [kind]). assert (H3 : len b3 = 8192) by (unfold b3; rewrite length_splice; lia).
  rewrite set_index_ok by lia. eexists. split; [done|]. change (to_le 2 VERSION) with [3; 0] in *.
  assert (L1 : len MAGIC = 4) by done. split_and!.
  - rewrite length_splice. lia.
  - rewrite sub_splice_disjoint by (cbn [length]; lia). unfold b3. rewrite sub_splice_disjoint by (cbn [length]; lia).
    unfold b2. rewrite sub_splice_disjoint by (cbn [length]; lia). exact (sub_splice_same b 0 MAGIC ltac:(lia) ltac:(lia)).
  - rewrite byte_at_splice_out by (cbn [length]; lia). unfold b3. rewrite byte_at_splice_out by (cbn [length]; lia).
    unfold b2. by rewrite byte_at_splice_in by (cbn [length]; lia).
  - rewrite byte_at_splice_out by (cbn [length]; lia). unfold b3. rewrite byte_at_splice_out by (cbn [length]; lia).
    unfold b2. by rewrite byte_at_splice_in by (cbn [length]; lia).
  - rewrite byte_at_splice_out by (cbn [length]; lia). unfold b3. by rewrite byte_at_splice_in by (cbn [length]; lia).
  - intros. rewrite sub_splice_disjoint by (cbn [length]; lia). unfold b3. rewrite sub_splice_disjoint by (cbn [length]; lia).
    unfold b2. rewrite sub_splice_disjoint by (cbn [length]; lia). unfold b1. by rewrite sub_splice_disjoint by lia.
Qed.

(** The first part of both node encoders. *)
Lemma put_node_ok b kind n link : len b = PAGE_SIZE -> 0 <= n <= u32_max -> link_valid link ->
  exists b', node_is b' kind n link /\ forall A (k : bytes -> outcome PageCodecError A),
    (buf ← fill_zero b 0 PAGE_SIZE; buf ← put_common_header buf kind; n' ← to_u32 n;
     buf ← put_u32_le buf NODE_SIZE_OFFSET n'; buf ← put_u64_le buf NODE_PAGE_ID_OFFSET (encode_page_id link); k buf) = k b'.
Proof.
  intros Hl Hn Hk. assert (PAGE_SIZE = 8192) by done. pose proof (encode_u64_bound _ Hk) as He. unfold u32_max, u64_max in *.
  rewrite fill_zero_ok by lia. set (b0 := splice _ _ _). assert (H0 : len b0 = PAGE_SIZE) by (unfold b0; rewrite length_splice; lia).
  destruct (put_header_ok (E := PageCodecError) b0 kind H0) as (b1 & E1 & H1 & Hm & Hv & Hkd & _).
  set (b2 := splice b1 8 (to_le 4 n)). assert (H2 : len b2 = PAGE_SIZE) by (unfold b2; rewrite length_splice; lia).
  exists (splice b2 16 (to_le 8 (encode_page_id link))). split.
  - split.
    + rewrite length_splice. lia.
    + rewrite sub_splice_disjoint by blia. unfold b2. by rewrite sub_splice_disjoint by blia.
    + rewrite !byte_at_splice_out by blia. unfold b2. by rewrite !byte_at_splice_out by blia.
    + rewrite byte_at_splice_out by blia. unfold b2. by rewrite byte_at_splice_out by blia.
    + rewrite le_at_splice_disjoint by blia. apply le_at_splice_same; [done|done|lia|lia|]. cbn. lia.
    + apply le_at_splice_same; [done|done|lia|lia|]. cbn. unfold encode_page_id. lia.
  - intros A k. cbn [mbind outcome_bind]. rewrite E1. cbn [mbind outcome_bind]. unfold to_u32, u32_max.
    rewrite (proj2 (Z.leb_le _ _)) by lia. cbn [mbind outcome_bind]. unfold put_u32_le, put_u64_le.
    change NODE_SIZE_OFFSET with 8. change NODE_PAGE_ID_OFFSET with 16. rewrite put_le_ok by lia. cbn [mbind outcome_bind].
    fold b2. by rewrite put_le_ok by lia.
Qed.

(** ** Leaf pages *)

Section leaf.
Context (layout : Layout).
Context (Hcap : 0 <= tombstone_capacity layout) (Hroom : 28 + 4 * tombstone_capacity layout <= PAGE_SIZE).

Abbreviation cap := (tombstone_capacity layout).
Abbreviation area := (Layout.leaf_area layout).

Lemma put_tombstones_ok {E} ts : forall i b, len b = PAGE_SIZE -> Forall (fun s => 0 <= s <= u32_max) ts -> 0 <= i -> i + len ts <= cap ->
  exists b', @LeafPage.put_tombstones E ts i b = Ok b' /\ tombs_only layout b b' /\ tombs_at b' i ts /\
    le_at 4 b' 24 = le_at 4 b 24 /\ (forall j, 0 <= j < i -> le_at 4 b' (28 + 4 * j) = le_at 4 b (28 + 4 * j)).
Proof using Hcap Hroom.
  induction ts as [|s ts IH]; intros i b Hl Hs Hi Hc; cbn [LeafPage.put_tombstones].
  { exists b. split_and!; try done. }
  apply Forall_cons_1 in Hs as [Hs0 Hs]. rewrite length_cons in Hc.
  destruct (set_tombstone_ok (E := E) layout Hcap Hroom b i s Hl ltac:(lia) Hs0) as (b1 & E1 & O1 & S1 & C1 & F1).
  unfold LeafPageView.set_tombstone in E1. rewrite E1. cbn [mbind outcome_bind].
  destruct (IH (i + 1) b1 ltac:(apply O1) Hs ltac:(lia) ltac:(lia)) as (b2 & -> & O2 & T2 & C2 & F2).
  exists b2. split_and!; [done|by eapply tombs_only_trans| |congruence|].
  - intros [|j] u Hj; cbn in Hj.
    + injection Hj as <-. replace (i + Z.of_nat 0) with i by lia. rewrite F2 by lia. done.
    + rewrite <- (T2 j u Hj). f_equal. lia.
  - intros j Hj. rewrite F2, F1 by lia. done.
Qed.

Lemma check_new b p : leaf_is layout b p -> leaf_wf layout p -> LeafPageView.new layout b = Ok tt.
Proof using Hcap Hroom.
  intros Hb Hw. unfold LeafPageView.new. erewrite check_len_ok, expect_ok by apply Hb. cbn [mbind outcome_bind].
  unfold node_size. erewrite size_ok by apply Hb. cbn [mbind outcome_bind]. rewrite <- entries_length, check_ok by apply Hb. cbn [mbind outcome_bind].
  rewrite (view_count layout Hcap Hroom b p) by done. cbn [mbind outcome_bind]. pose proof (w_cap _ _ Hw). rewrite (proj2 (Z.ltb_ge _ _)) by lia.
  rewrite Nat2Z.id, (any_tombstone_ok layout Hcap Hroom) by (lia || apply Hb). cbn [mbind outcome_bind].
  rewrite existsb_false; [done|]. eapply list.Forall_impl; [exact (w_slots _ _ Hw)|]. cbn. intros s Hs. apply Z.leb_gt. rewrite entries_length. lia.
Qed.

Lemma encode_leaf p buf : leaf_wf layout p -> len buf = PAGE_SIZE ->
  if LeafPage.is_overfull layout p
  then LeafPage.encode layout p buf = Err (PBufferError (BufferTooSmall (PAGE_SIZE - EntryArea.capacity area + LeafPage.used_bytes layout p) PAGE_SIZE))
  else exists b, LeafPage.encode layout p buf = Ok b /\ leaf_is layout b p.
Proof using Hcap Hroom.
  intros Hw Hl. unfold LeafPage.is_overfull, LeafPage.encode. rewrite leaf_check_ok by done. cbn [mbind outcome_bind]. unfold ensure_fits_page.
  destruct (Z.ltb_spec (EntryArea.capacity area) (LeafPage.used_bytes layout p)) as [Hf|Hf].
  { by rewrite (proj2 (Z.ltb_lt _ _)) by lia. }
  rewrite (proj2 (Z.ltb_ge _ _)) by lia. cbn [mbind outcome_bind]. rewrite Hl, Z.eqb_refl. cbn [negb].
  assert (PAGE_SIZE = 8192) by done. pose proof (used_is layout p) as Hu. pose proof (esize_nonneg (LeafPage.entries p)).
  unfold EntryArea.capacity in Hf. rewrite area_start in Hf. pose proof (w_cap _ _ Hw) as Hc. pose proof (w_slots _ _ Hw) as Hs.
  destruct (put_node_ok buf KIND_LEAF (len (l_entries p)) (l_next p) Hl ltac:(unfold u32_max; lia) (w_next _ _ Hw)) as (b1 & N1 & ->).
  unfold to_u32 at 1. rewrite (proj2 (Z.leb_le _ _)) by (unfold u32_max; lia). cbn [mbind outcome_bind].
  unfold put_u32_le at 1. change Layout.leaf_tombstone_count_offset with 24. pose proof (n_len _ _ _ _ N1) as Hl1.
  rewrite put_le_ok by lia. cbn [mbind outcome_bind]. set (b2 := splice _ _ _).
  assert (O2 : tombs_only layout b1 b2). { split; [unfold b2; by rewrite length_splice|]. intros. apply sub_splice_disjoint; blia. }
  destruct (put_tombstones_ok (E := PageCodecError) (l_tombstones p) 0 b2) as (b3 & -> & O3 & T3 & C3 & _); [apply O2| |done|lia|].
  { eapply list.Forall_impl; [exact Hs|]. cbn. unfold u32_max. lia. }
  cbn [mbind outcome_bind]. rewrite sub_usize_ok by (unfold SLOT_ENCODED_BYTES; lia). cbn [mbind outcome_bind].
  replace (PAGE_SIZE - _) with (PAGE_SIZE - esize (LeafPage.entries p)) by (unfold SLOT_ENCODED_BYTES; lia).
  destruct (put_entries_ok (E := PageCodecError) area (LeafPage.entries p)) with (buf := b3) as (b4 & -> & H4 & F4);
    [rewrite area_start; lia|done|rewrite area_start, entries_length; lia| |apply O3|].
  { unfold LeafPage.entries. apply Forall_fmap. apply list.Forall_forall. done. }
  cbn [mbind outcome_bind]. rewrite Z.eqb_refl. cbn [rassert mbind outcome_bind]. exists b4. split; [done|].
  assert (O4 : tombs_only layout b1 b3) by (by eapply tombs_only_trans). rewrite area_start in F4. split; [|done|].
  - eapply node_is_frame; [exact N1|apply H4|]. intros. rewrite F4 by lia. apply O4; lia.
  - eapply tombs_frame with (b := b3); [lia|lia| |intros; apply F4; lia]. split; [|done|done].
    rewrite C3. apply le_at_splice_same; [done|done|lia|lia|]. cbn. lia.
Qed.

Lemma decode_entries_ok b p : leaf_is layout b p -> leaf_wf layout p -> forall k i, (i + k = length (l_entries p))%nat ->
  LeafPage.decode_entries layout k b (len (l_entries p)) (Z.of_nat i) = Ok (drop i (l_entries p)).
Proof using Hcap Hroom.
  intros Hb Hw. induction k as [|k IH]; intros i Hi; cbn [LeafPage.decode_entries]; [by rewrite drop_ge by lia|].
  destruct (lookup_lt_is_Some_2 (l_entries p) i ltac:(lia)) as [[key rid] He].
  pose proof (view_key (E := PageCodecError) layout Hcap Hroom b p Hb Hw i key rid He) as Hk. unfold LeafPageView.key in Hk.
  rewrite (view_size layout Hcap Hroom b p) in Hk by done. cbn [mbind outcome_bind] in Hk. rewrite Hk. cbn [mbind outcome_bind].
  rewrite (view_payload layout Hcap Hroom b p Hb Hw i key rid He). cbn [mbind outcome_bind].
  rewrite decode_rid by exact (Forall_lookup_1 _ _ _ _ (w_rids _ _ Hw) He). cbn [mbind outcome_bind].
  replace (Z.of_nat i + 1) with (Z.of_nat (S i)) by lia. rewrite IH by lia. cbn [mbind outcome_bind]. by rewrite (drop_S _ _ _ He).
Qed.

Lemma read_tombstones_ok b ts : len b = PAGE_SIZE -> forall i, tombs_at b i ts -> 0 <= i -> i + len ts <= cap ->
  LeafPage.read_tombstones (length ts) (mkBufReader b (28 + 4 * i)) = Ok (ts, mkBufReader b (28 + 4 * (i + len ts))).
Proof using Hcap Hroom.
  intros Hl. induction ts as [|t ts IH]; intros i Ht Hi Hc; cbn [length LeafPage.read_tombstones].
  { do 3 f_equal. lia. }
  rewrite length_cons in Hc. apply (tombs_at_cons layout Hcap Hroom) in Ht as [Ht0 Ht]. unfold read_u32_le. rewrite read_int_at by lia. cbn [mbind outcome_bind].
  replace (28 + 4 * i + 4) with (28 + 4 * (i + 1)) by lia. rewrite IH by (done || lia). cbn [mbind outcome_bind]. rewrite Ht0. do 3 f_equal. lia.
Qed.

Lemma decode_leaf b p : leaf_is layout b p -> leaf_wf layout p -> LeafPage.decode layout b = Ok p.
Proof using Hcap Hroom.
  intros Hb Hw. pose proof Hb as [N H T]. pose proof (n_len _ _ _ _ N) as Hl. assert (PAGE_SIZE = 8192) by done.
  unfold LeafPage.decode. unfold BufReader_new. rewrite Hl, Z.ltb_irrefl. cbn [reading map_err mbind outcome_bind].
  erewrite read_header_ok by exact N. cbn [mbind outcome_bind]. unfold read_u32_le, read_u64_le.
  repeat (rewrite read_int_at by lia; cbn [mbind outcome_bind]).
  change (8 + 4 + 4) with 16. rewrite (n_size _ _ _ _ N), (n_link _ _ _ _ N), decode_link by apply Hw. cbn [mbind outcome_bind].
  rewrite <- entries_length, check_ok by done. cbn [mbind outcome_bind]. repeat (rewrite read_int_at by lia; cbn [mbind outcome_bind]).
  change (16 + 8) with 24. rewrite (t_count _ _ _ T). pose proof (t_cap _ _ _ T). rewrite (proj2 (Z.ltb_ge _ _)) by lia.
  rewrite !Nat2Z.id. pose proof (read_tombstones_ok b (l_tombstones p) Hl 0 (t_slots _ _ _ T) ltac:(lia) ltac:(lia)) as Et.
  change (28 + 4 * 0) with (24 + 4) in Et. rewrite Et. cbn [mbind outcome_bind].
  rewrite entries_length. rewrite (decode_entries_ok b p Hb Hw (length (l_entries p)) 0%nat eq_refl : LeafPage.decode_entries _ _ _ _ 0 = _). cbn [mbind outcome_bind].
  rewrite drop_0. assert (Ep : mkLeaf (l_entries p) (l_next p) (l_tombstones p) = p) by (by destruct p). rewrite Ep, leaf_check_ok by done. done.
Qed.

End leaf.

(** * Internal and header pages *)

Import PageCodec.

Section internal.
Context (layout : Layout).

(** Sorted distinct keys no longer than the layout allows, with a child on each side of each. *)
Record internal_wf (p : InternalPage) : Prop := {
  iw_children : length (i_children p) = S (length (i_keys p));
  iw_sorted : ascending (i_keys p);
  iw_keys : Forall (fun k => len k <= max_key_len layout) (i_keys p);
  iw_ids : Forall page_id_valid (i_children p);
}.

Lemma internal_check_ok p : internal_wf p -> InternalPage.check layout p = Ok tt.
Proof using.
  intros [H1 H2 H3 H4]. unfold InternalPage.check. destruct (i_children p) as [|c cs] eqn:Ec; [done|].
  assert (En : (length (c :: cs) =? length (i_keys p) + 1)%nat = true) by (apply Nat.eqb_eq; lia).
  rewrite En, ascending_is_sorted, check_keys_ok by done. by destruct (i_keys p).
Qed.

Lemma internal_checked_ok {E} p : internal_wf p -> @InternalPage.checked layout E p = Ok p.
Proof using. intros H. unfold InternalPage.checked, InternalPage.debug_check. by rewrite internal_check_ok. Qed.

Record internal_is (b : bytes) (p : InternalPage) : Prop := {
  iv_node : node_is b KIND_INTERNAL (len (i_keys p)) (head (i_children p));
  iv_entries : holds INTERNAL_AREA b (InternalPage.entries p);
}.

Lemma ientries_length p : internal_wf p -> length (InternalPage.entries p) = length (i_keys p).
Proof using. intros [H1 _ _ _]. unfold InternalPage.entries. rewrite length_zip, length_fmap, length_drop. lia. Qed.

Lemma ientries_lookup p i k c : internal_wf p -> i_keys p !! i = Some k -> i_children p !! S i = Some c ->
  InternalPage.entries p !! i = Some (k, to_le 8 (encode_page_id (Some c))).
Proof using.
  intros Hw Hk Hc. unfold InternalPage.entries. apply lookup_zip_Some. split; [done|]. rewrite list_lookup_fmap, lookup_drop. by rewrite (Hc : i_children p !! (1 + i)%nat = _).
Qed.

Lemma ikey_child p i k : internal_wf p -> i_keys p !! i = Some k -> exists c, i_children p !! S i = Some c /\ page_id_valid c.
Proof using.
  intros [H1 _ _ H4] Hk. pose proof (lookup_lt_Some _ _ _ Hk). destruct (lookup_lt_is_Some_2 (i_children p) (S i) ltac:(lia)) as [c Hc].
  exists c. split; [done|]. exact (Forall_lookup_1 _ _ _ _ H4 Hc).
Qed.

Lemma decode_child c : page_id_valid c -> decode_child_page_id (of_le (to_le 8 (encode_page_id (Some c)))) = Ok c.
Proof using.
  intros Hc. pose proof (encode_u64_bound (Some c) Hc) as He. unfold u64_max in He. unfold encode_page_id. rewrite of_to_le by (change (256 ^ Z.of_nat 8) with 18446744073709551616; lia).
  unfold decode_child_page_id. fold (encode_page_id (Some c)). by rewrite decode_link.
Qed.

Lemma iused_is p : internal_wf p -> InternalPage.used_bytes p = 2 * len (i_keys p) + esize (InternalPage.entries p).
Proof using.
  intros [H1 _ _ _]. unfold InternalPage.used_bytes, InternalPage.entries. destruct (i_children p) as [|c0 cs]; [done|]. cbn [drop length] in *.
  assert (Hl : length cs = length (i_keys p)) by lia. clear H1 c0. change (drop 0 cs) with cs.
  revert cs Hl. induction (i_keys p) as [|k ks IH]; intros cs Hl.
  { cbn. by rewrite esize_nil. }
  destruct cs as [|c cs]; [done|]. cbn [length] in Hl. rewrite fmap_cons, zsum_cons, (IH cs) by lia. rewrite fmap_cons. cbn [zip zip_with].
  rewrite esize_cons. unfold InternalPage.cost, EntryArea.entry_cost, flat, SLOT_ENCODED_BYTES. cbn [fst snd]. rewrite length_app.
  rewrite length_to_le. change (payload_len INTERNAL_AREA) with 8. cbn [length]. lia.
Qed.

Lemma ipayloads p : internal_wf p -> Forall (fun e => len e.2 = payload_len INTERNAL_AREA) (InternalPage.entries p).
Proof using.
  intros _. apply list.Forall_forall. intros [k v] Hin. unfold InternalPage.entries in Hin. apply elem_of_zip_r in Hin.
  apply list_elem_of_fmap in Hin as (c & -> & _). cbn [snd]. by rewrite length_to_le.
Qed.

Lemma encode_internal p buf : internal_wf p -> len buf = PAGE_SIZE ->
  if InternalPage.is_overfull p
  then InternalPage.encode layout p buf = Err (PBufferError (BufferTooSmall (INTERNAL_FIXED_HEADER_BYTES + InternalPage.used_bytes p) PAGE_SIZE))
  else exists b, InternalPage.encode layout p buf = Ok b /\ internal_is b p.
Proof using.
  intros Hw Hl. unfold InternalPage.is_overfull, InternalPage.encode. rewrite internal_check_ok by done. cbn [mbind outcome_bind].
  pose proof (iused_is p Hw) as Hu. pose proof (ientries_length p Hw) as Hel. pose proof (esize_nonneg (InternalPage.entries p)).
  assert (Hkb : zsum ((fun k => len k) <$> i_keys p) + len (i_keys p) * 8 = esize (InternalPage.entries p)).
  { assert (Hz : InternalPage.used_bytes p = 2 * len (i_keys p) + (zsum ((fun k => len k) <$> i_keys p) + len (i_keys p) * 8)); [|lia].
    clear. unfold InternalPage.used_bytes. induction (i_keys p) as [|k ks IH]; [done|]. rewrite !fmap_cons, !zsum_cons, IH.
    unfold InternalPage.cost, EntryArea.entry_cost, SLOT_ENCODED_BYTES. change (payload_len INTERNAL_AREA) with 8. cbn [length]. lia. }
  pose proof (iw_ids _ Hw) as Hids. destruct (i_children p) as [|c cs] eqn:Ec; [by pose proof (iw_children _ Hw) as H1; rewrite Ec in H1|].
  unfold ensure_fits_page. unfold EntryArea.capacity. change (slots_start INTERNAL_AREA) with 24. change INTERNAL_FIXED_HEADER_BYTES with 24.
  assert (PAGE_SIZE = 8192) by done.
  destruct (Z.ltb_spec (PAGE_SIZE - 24) (InternalPage.used_bytes p)) as [Hf|Hf].
  { by rewrite (proj2 (Z.ltb_lt _ _)) by lia. }
  rewrite (proj2 (Z.ltb_ge _ _)) by lia. cbn [mbind outcome_bind]. rewrite Hl, Z.eqb_refl. cbn [negb].
  destruct (put_node_ok buf KIND_INTERNAL (len (i_keys p)) (Some c) Hl ltac:(unfold u32_max; lia)) as (b1 & N1 & ->).
  { by apply Forall_cons_1 in Hids as [? _]. }
  change PAGE_ID_ENCODED_BYTES with 8. rewrite Hkb, sub_usize_ok by lia. cbn [mbind outcome_bind].
  destruct (put_entries_ok (E := PageCodecError) INTERNAL_AREA (InternalPage.entries p)) with (buf := b1) as (b2 & -> & H2 & F2);
    [done|done|change (slots_start INTERNAL_AREA) with 24; lia|by apply ipayloads|apply N1|].
  cbn [mbind outcome_bind]. rewrite Z.eqb_refl. cbn [rassert mbind outcome_bind]. exists b2. split; [done|]. split; [|done].
  rewrite Ec. eapply node_is_frame; [exact N1|apply H2|]. intros. by apply F2.
Qed.

Section view.
Context (b : bytes) (p : InternalPage) (Hb : internal_is b p) (Hw : internal_wf p).

Import InternalPageView.

Lemma iview_size {E} : @size E b = Ok (len (i_keys p)).
Proof using Hb. eapply size_ok, Hb. Qed.

Lemma iview_key {E} i k : i_keys p !! i = Some k -> @key E b (Z.of_nat i) = Ok k.
Proof using Hb Hw.
  intros Hk. destruct (ikey_child p i k Hw Hk) as (c & Hc & _). unfold key. rewrite iview_size. cbn [mbind outcome_bind].
  rewrite <- (ientries_length p Hw). exact (key_ok INTERNAL_AREA b _ (iv_entries _ _ Hb) i _ (ientries_lookup p i k c Hw Hk Hc)).
Qed.

Lemma iview_payload {E} i k c : i_keys p !! i = Some k -> i_children p !! S i = Some c ->
  @EntryArea.payload INTERNAL_AREA E b (len (i_keys p)) (Z.of_nat i) = Ok (to_le 8 (encode_page_id (Some c))).
Proof using Hb Hw.
  intros Hk Hc. rewrite <- (ientries_length p Hw). exact (payload_ok INTERNAL_AREA b _ (iv_entries _ _ Hb) i _ (ientries_lookup p i k c Hw Hk Hc)).
Qed.

Lemma iview_child i : child b (Z.of_nat i) = Ok (i_children p !! i).
Proof using Hb Hw.
  unfold child, child_count. rewrite iview_size. cbn [mbind outcome_bind]. pose proof (iw_children _ Hw) as Hn.
  destruct (Z.leb_spec (len (i_keys p) + 1) (Z.of_nat i)) as [Hi|Hi]; [by rewrite lookup_ge_None_2 by lia|].
  destruct (lookup_lt_is_Some_2 (i_children p) i ltac:(lia)) as [c Hc]. rewrite Hc. pose proof (Forall_lookup_1 _ _ _ _ (iw_ids _ Hw) Hc) as Hv.
  destruct i as [|i].
  - change (Z.of_nat 0 =? 0) with true. cbn iota. erewrite link_ok by apply Hb. cbn [mbind outcome_bind]. unfold decode_child_page_id.
    rewrite decode_link; [|destruct (i_children p); [done|]; cbn in *; by injection Hc as ->].
    destruct (i_children p); [done|]. cbn in *. by injection Hc as ->.
  - rewrite (proj2 (Z.eqb_neq _ _)) by lia. destruct (lookup_lt_is_Some_2 (i_keys p) i ltac:(lia)) as [k Hk].
    cbn [mbind outcome_bind]. replace (Z.of_nat (S i) - 1) with (Z.of_nat i) by lia.
    rewrite (iview_payload i k c Hk Hc). cbn [mbind outcome_bind]. change (len (to_le 8 _) =? 8) with true. cbn iota. cbn [mbind outcome_bind].
    by rewrite decode_child by done.
Qed.

Lemma iview_find {E} k : @find_child_index E b k = Ok (Z.of_nat (InternalPage.find_child_index p k)).
Proof using Hb Hw.
  unfold find_child_index, InternalPage.find_child_index. rewrite iview_size. cbn [mbind outcome_bind].
  pose proof (partition_prefix_le (fun x => key_le x k) (i_keys p)). apply partition_point_ok; [lia|]. intros i Hi.
  destruct (lookup_lt_is_Some_2 (i_keys p) (Z.to_nat i) ltac:(lia)) as [ki Hk].
  replace i with (Z.of_nat (Z.to_nat i)) at 1 by lia. rewrite (iview_key _ ki Hk). cbn [mbind outcome_bind].
  rewrite (le_prefix_spec _ k (iw_sorted _ Hw) (Z.to_nat i) ki Hk). f_equal.
  destruct (Nat.ltb_spec (Z.to_nat i) (partition_prefix (fun x => key_le x k) (i_keys p))), (Z.ltb_spec i (Z.of_nat (partition_prefix (fun x => key_le x k) (i_keys p)))); try done; lia.
Qed.

Lemma iview_child_for k : child_for b k = Ok (InternalPage.get_child p (InternalPage.find_child_index p k)).
Proof using Hb Hw. unfold child_for. rewrite iview_find. cbn [mbind outcome_bind]. apply iview_child. Qed.

Lemma icheck_new : new b = Ok tt.
Proof using Hb Hw.
  unfold new. erewrite check_len_ok, expect_ok by apply Hb. cbn [mbind outcome_bind]. unfold node_size. erewrite size_ok by apply Hb.
  cbn [mbind outcome_bind]. rewrite <- (ientries_length p Hw). apply check_ok, Hb.
Qed.

Lemma idecode_entries_ok : forall k i, (i + k = length (i_keys p))%nat ->
  InternalPage.decode_entries k b (len (i_keys p)) (Z.of_nat i) = Ok (drop i (i_keys p), drop (S i) (i_children p)).
Proof using Hb Hw.
  pose proof (iw_children _ Hw) as Hn. induction k as [|k IH]; intros i Hi; cbn [InternalPage.decode_entries].
  { by rewrite !drop_ge by lia. }
  destruct (lookup_lt_is_Some_2 (i_keys p) i ltac:(lia)) as [key Hk]. destruct (ikey_child p i key Hw Hk) as (c & Hc & Hv).
  pose proof (iview_key (E := PageCodecError) i key Hk) as Ek. unfold InternalPageView.key in Ek. rewrite iview_size in Ek.
  cbn [mbind outcome_bind] in Ek. change Layout.internal_area with INTERNAL_AREA in Ek. rewrite Ek. cbn [mbind outcome_bind].
  rewrite (iview_payload i key c Hk Hc). cbn [mbind outcome_bind]. change (len (to_le 8 _) =? 8) with true. cbn iota. cbn [mbind outcome_bind].
  rewrite decode_child by done. cbn [mbind outcome_bind]. replace (Z.of_nat i + 1) with (Z.of_nat (S i)) by lia. rewrite IH by lia.
  cbn [mbind outcome_bind]. by rewrite (drop_S _ _ _ Hk), (drop_S _ _ _ Hc).
Qed.

Lemma decode_internal : InternalPage.decode layout b = Ok p.
Proof using Hb Hw.
  pose proof (iv_node _ _ Hb) as N. pose proof (n_len _ _ _ _ N) as Hl. assert (PAGE_SIZE = 8192) by done. pose proof (iw_children _ Hw) as Hn.
  unfold InternalPage.decode, BufReader_new. rewrite Hl, Z.ltb_irrefl. cbn [reading map_err mbind outcome_bind].
  erewrite read_header_ok by exact N. cbn [mbind outcome_bind]. unfold read_u32_le, read_u64_le.
  repeat (rewrite read_int_at by lia; cbn [mbind outcome_bind]).
  change (8 + 4 + 4) with 16. rewrite (n_size _ _ _ _ N), (n_link _ _ _ _ N). pose proof (iw_ids _ Hw) as Hids.
  destruct (i_children p) as [|c cs] eqn:Ec; [done|]. apply Forall_cons_1 in Hids as [Hv _]. cbn [head].
  unfold decode_child_page_id. rewrite decode_link by done. cbn [mbind outcome_bind ok_or].
  rewrite <- (ientries_length p Hw), check_ok by apply Hb. cbn [mbind outcome_bind]. rewrite (ientries_length p Hw), Nat2Z.id.
  rewrite (idecode_entries_ok (length (i_keys p)) 0%nat eq_refl : InternalPage.decode_entries _ _ _ 0 = _). cbn [mbind outcome_bind].
  rewrite Ec. cbn [drop]. assert (Ep : mkInternal (c :: drop 0 cs) (drop 0 (i_keys p)) = p) by (rewrite !drop_0, <- Ec; by destruct p).
  rewrite Ep, internal_check_ok by done. done.
Qed.

End view.
End internal.

(** ** Header pages *)

Record header_is (b : bytes) (h : HeaderPage) : Prop := {
  hd_node : node_is b KIND_HEADER (h_max_key_len h) (root_page_id h);
  hd_first : le_at 8 b 24 = encode_page_id (first_leaf_id h);
}.

Record header_wf (h : HeaderPage) : Prop := {
  hw_layout : exists l, Layout.new (h_max_key_len h) = Ok l;
  hw_key : 0 < h_max_key_len h <= u32_max;
  hw_root : link_valid (root_page_id h);
  hw_first : link_valid (first_leaf_id h);
}.

Lemma write_at data b o : len b = PAGE_SIZE -> 0 <= o -> o + len data <= PAGE_SIZE ->
  reading (write_bytes data (mkBufWriter b o)) = Ok (mkBufWriter (splice b o data) (o + len data)).
Proof.
  intros Hl ? ?. assert (PAGE_SIZE = 8192) by done. unfold reading, write_bytes, checked_add_usize, u64_max. cbn [w_buf w_pos].
  rewrite (proj2 (Z.leb_le _ _)) by lia. cbn [ok_or mbind outcome_bind].
  rewrite (proj2 (Z.ltb_ge _ _)) by lia. by rewrite copy_from_slice_ok by lia.
Qed.

Ltac header_write :=
  unfold write_u8, write_u16_le, write_u32_le, write_u64_le; rewrite write_at by blia; cbn [mbind outcome_bind]; rewrite ?length_to_le; cbn [length].

Lemma encode_header h buf : header_wf h -> len buf = PAGE_SIZE -> exists b, HeaderPage.encode h buf = Ok b /\ header_is b h.
Proof.
  intros [[l Hlay] Hk Hr Hf] Hl. assert (PAGE_SIZE = 8192) by done. unfold HeaderPage.encode. rewrite Hlay. cbn [mbind outcome_bind].
  rewrite fill_zero_ok by lia. cbn [mbind outcome_bind]. set (b0 := splice _ _ _). assert (H0 : len b0 = PAGE_SIZE) by (unfold b0; rewrite length_splice; lia).
  unfold BufWriter_new. rewrite H0, Z.ltb_irrefl. cbn [reading map_err mbind outcome_bind]. unfold write_common_header.
  assert (len MAGIC = 4) by done. pose proof (encode_u64_bound _ Hr). pose proof (encode_u64_bound _ Hf). unfold u32_max, u64_max, encode_page_id in *.
  rewrite write_at by blia. cbn [mbind outcome_bind]. change (0 + len MAGIC) with 4. do 7 header_write. cbn [w_pos w_buf].
  change (_ =? HEADER_FIXED_HEADER_BYTES) with true. cbn [rassert mbind outcome_bind].
  eexists. split; [done|]. change (4 + Z.of_nat 2) with 6. change (6 + Z.of_nat 1) with 7. change (7 + Z.of_nat 1) with 8.
  change (8 + Z.of_nat 4) with 12. change (12 + Z.of_nat 4) with 16. change (16 + Z.of_nat 8) with 24. change (to_le 2 VERSION) with [3; 0].
  split; [split|].
  - rewrite !length_splice. lia.
  - repeat (rewrite sub_splice_disjoint by (rewrite ?length_splice, ?length_to_le; cbn [length]; lia)). exact (sub_splice_same b0 0 MAGIC ltac:(lia) ltac:(lia)).
  - split; repeat (rewrite byte_at_splice_out by (rewrite ?length_splice, ?length_to_le; cbn [length]; lia));
      by rewrite byte_at_splice_in by (rewrite ?length_splice, ?length_to_le; cbn [length]; lia).
  - repeat (rewrite byte_at_splice_out by (rewrite ?length_splice, ?length_to_le; cbn [length]; lia)).
    by rewrite byte_at_splice_in by (rewrite ?length_splice, ?length_to_le; cbn [length]; lia).
  - repeat (rewrite le_at_splice_disjoint by (rewrite ?length_splice, ?length_to_le; cbn [length]; lia)).
    apply le_at_splice_same; [done|done|lia|rewrite ?length_splice; lia|]. change (256 ^ 4) with 4294967296. lia.
  - repeat (rewrite le_at_splice_disjoint by (rewrite ?length_splice, ?length_to_le; cbn [length]; lia)).
    apply le_at_splice_same; [done|done|lia|rewrite ?length_splice; lia|]. change (256 ^ 8) with 18446744073709551616. unfold encode_page_id. lia.
  - apply le_at_splice_same; [done|done|lia|rewrite ?length_splice; lia|]. change (256 ^ 8) with 18446744073709551616. unfold encode_page_id. lia.
Qed.

Lemma decode_header b h : header_is b h -> header_wf h -> HeaderPage.decode b = Ok h.
Proof.
  intros [N F] [_ Hk Hr Hf]. pose proof (n_len _ _ _ _ N) as Hl. assert (PAGE_SIZE = 8192) by done.
  unfold HeaderPage.decode, BufReader_new. rewrite Hl, Z.ltb_irrefl. cbn [reading map_err mbind outcome_bind].
  erewrite read_header_ok by exact N. cbn [mbind outcome_bind]. unfold read_u32_le, read_u64_le.
  do 3 (rewrite read_int_at by lia; cbn [mbind outcome_bind]). change (8 + 4 + 4) with 16. change (16 + 8) with 24.
  rewrite (n_link _ _ _ _ N), decode_link by done. cbn [mbind outcome_bind]. rewrite read_int_at by lia. cbn [mbind outcome_bind].
  rewrite F, decode_link by done. cbn [mbind outcome_bind]. rewrite (n_size _ _ _ _ N). rewrite (proj2 (Z.eqb_neq _ _)) by lia. by destruct h.
Qed.

Section header_view.
Context (b : bytes) (h : HeaderPage) (Hb : header_is b h) (Hw : header_wf h).

Lemma hview_new : HeaderPageView.new b = Ok tt.
Proof using Hb Hw.
  unfold HeaderPageView.new. erewrite check_len_ok, expect_ok by apply Hb. cbn [mbind outcome_bind].
  change HDR_KEY_LEN_OFF with NODE_SIZE_OFFSET. erewrite size_ok by apply Hb. cbn [mbind outcome_bind].
  pose proof (hw_key _ Hw). by rewrite (proj2 (Z.eqb_neq _ _)) by lia.
Qed.

Lemma hview_root : HeaderPageView.root_page_id b = Ok (root_page_id h).
Proof using Hb Hw.
  unfold HeaderPageView.root_page_id. change HDR_ROOT_OFF with NODE_PAGE_ID_OFFSET. erewrite link_ok by apply Hb. apply decode_link, Hw.
Qed.

Lemma hview_first : HeaderPageView.first_leaf_id b = Ok (first_leaf_id h).
Proof using Hb Hw.
  unfold HeaderPageView.first_leaf_id. pose proof (n_len _ _ _ _ (hd_node _ _ Hb)). assert (PAGE_SIZE = 8192) by done.
  unfold get_u64_le. change HDR_FIRST_LEAF_OFF with 24. rewrite get_le_ok by lia. cbn [mbind outcome_bind]. rewrite (hd_first _ _ Hb). apply decode_link, Hw.
Qed.

Lemma hview_set_root {E} r : link_valid r -> exists b', @HeaderPageView.set_root_page_id E b r = Ok b' /\
  header_is b' (mkHeader r (first_leaf_id h) (h_max_key_len h)).
Proof using Hb.
  intros Hr. destruct Hb as [[H1 H2 H3 H4 H5 H6] F]. assert (PAGE_SIZE = 8192) by done. pose proof (encode_u64_bound _ Hr) as He. unfold u64_max in He.
  unfold HeaderPageView.set_root_page_id, put_u64_le. change HDR_ROOT_OFF with 16. rewrite put_le_ok by lia. eexists. split; [done|].
  split; [split|]; cbn [h_max_key_len root_page_id first_leaf_id].
  - by rewrite length_splice.
  - by rewrite sub_splice_disjoint by blia.
  - by rewrite !byte_at_splice_out by blia.
  - by rewrite byte_at_splice_out by blia.
  - by rewrite le_at_splice_disjoint by blia.
  - apply le_at_splice_same; [done|done|lia|lia|]. change (256 ^ 8) with 18446744073709551616. unfold encode_page_id. lia.
  - by rewrite le_at_splice_disjoint by blia.
Qed.

Lemma hview_set_first {E} r : link_valid r -> exists b', @HeaderPageView.set_first_leaf_id E b r = Ok b' /\
  header_is b' (mkHeader (root_page_id h) r (h_max_key_len h)).
Proof using Hb.
  intros Hr. destruct Hb as [N F]. pose proof (n_len _ _ _ _ N). assert (PAGE_SIZE = 8192) by done. pose proof (encode_u64_bound _ Hr) as He. unfold u64_max in He.
  unfold HeaderPageView.set_first_leaf_id, put_u64_le. change HDR_FIRST_LEAF_OFF with 24. rewrite put_le_ok by lia. eexists. split; [done|].
  split; cbn [h_max_key_len root_page_id first_leaf_id].
  - eapply node_is_frame; [exact N|by rewrite length_splice|]. intros. apply sub_splice_disjoint; blia.
  - apply le_at_splice_same; [done|done|lia|lia|]. change (256 ^ 8) with 18446744073709551616. unfold encode_page_id. lia.
Qed.

End header_view.
