(* ===== verification/BPlusSplit.v ===== *)
(** * Balanced splits

    The split point that [balanced_split] chooses has the least difference between the two
    sides, which is at most the cost of one entry; so both halves of an overfull page fit in a
    page and neither is underfull. A leaf that one entry overfills splits in two leaves that
    fit, neither underfull, which together hold what it held; merging two adjacent leaves is
    the converse. *)

From Stdlib Require Import ZArith Lia String Sorted.
From stdpp Require Import base list numbers option gmap.
From S2P Require Import Prelude Bytes Ids Buf Str Slotted BPlusPage BPlusKeys LeafContents.

Local Open Scope Z_scope.

Section split.
Context (costs : list Z) (drop_middle : bool).

Definition before (s : nat) : Z := zsum (take s costs).
Definition after (s : nat) : Z := zsum (drop (if drop_middle then S s else s) costs).
Definition gap (s : nat) : Z := Z.abs (before s - after s).

Lemma before_S s c : costs !! s = Some c -> before (S s) = before s + c.
Proof using. intros H. unfold before. rewrite (take_S_r _ _ _ H), zsum_app, zsum_cons, zsum_nil. lia. Qed.

Lemma before_after s c : costs !! s = Some c -> after s = zsum costs - before s - (if drop_middle then c else 0).
Proof using.
  intros H. unfold before, after. rewrite <- (take_drop s costs) at 2. rewrite zsum_app, (drop_S _ _ _ H), zsum_cons.
  destruct drop_middle; [|rewrite (drop_S _ _ _ H), zsum_cons]; lia.
Qed.

Definition best_upto (n : nat) (best : Z * nat) : Prop :=
  if (n <=? 1)%nat then best = (u64_max, 1%nat)
  else (1 <= best.2 < n)%nat /\ best.1 = gap best.2 /\ forall s, (1 <= s < n)%nat -> best.1 <= gap s.

Lemma balanced_loop_best rest : forall s best, drop s costs = rest -> (s <= length costs)%nat -> best_upto s best ->
  (forall i, gap i < u64_max) -> exists best', balanced_loop rest (zsum costs) (before s) s drop_middle best = best'.2 /\
    best_upto (length costs) best'.
Proof using.
  induction rest as [|c rest IH]; intros s best Hd Hs Hb Hg; cbn [balanced_loop].
  { exists best. split; [done|]. assert (s = length costs) as <-; [|done].
    apply (f_equal length) in Hd. rewrite length_drop in Hd. cbn in Hd. lia. }
  assert (Hc : costs !! s = Some c). { rewrite <- (Nat.add_0_r s), <- lookup_drop, Hd. done. }
  pose proof (lookup_lt_Some _ _ _ Hc). rewrite <- (before_after s c Hc), <- (before_S s c Hc). fold (gap s).
  apply IH; [|lia| |done].
  - apply (f_equal (drop 1)) in Hd. rewrite drop_drop in Hd. replace (S s) with (s + 1)%nat by lia. rewrite Hd. by rewrite skipn_cons, drop_0.
  - unfold best_upto in *. destruct (Nat.leb_spec (S s) 1) as [H1|H1].
    + assert (s = 0%nat) as -> by lia. exact Hb.
    + rewrite (proj2 (Nat.ltb_lt 0 s)) by lia. destruct (Nat.leb_spec s 1) as [H2|H2].
      * rewrite Hb. cbn [fst]. rewrite (proj2 (Z.ltb_lt _ _)) by apply Hg. cbn [fst snd]. split_and!; [lia|lia|done|]. intros s' Hs'. by assert (s' = s) as -> by lia.
      * destruct Hb as (Hr & He & Hm). destruct (Z.ltb_spec (gap s) best.1) as [Hlt|Hle]; cbn [fst snd].
        -- split_and!; [lia|lia|done|]. intros s' Hs'. destruct (decide (s' = s)) as [->|]; [lia|]. specialize (Hm s' ltac:(lia)). lia.
        -- split_and!; [lia|lia|done|]. intros s' Hs'. destruct (decide (s' = s)) as [->|]; [lia|]. apply Hm. lia.
Qed.

(** The chosen point is the best one. *)
Lemma balanced_split_best : (2 <= length costs)%nat -> (forall i, gap i < u64_max) ->
  let s := balanced_split costs drop_middle in (1 <= s < length costs)%nat /\ forall s', (1 <= s' < length costs)%nat -> gap s <= gap s'.
Proof using.
  intros Hn Hg. destruct (balanced_loop_best costs 0 (u64_max, 1%nat)) as (best & Hl & Hb); [by rewrite drop_0|lia|done|done|].
  change (before 0) with 0 in Hl. fold (balanced_split costs drop_middle) in Hl. cbn zeta. rewrite Hl. unfold best_upto in Hb.
  rewrite (proj2 (Nat.leb_gt _ _)) in Hb by lia. destruct Hb as (Hr & He & Hm). split; [exact Hr|]. intros s' Hs'. rewrite <- He. by apply Hm.
Qed.

Context (m : Z) (Hm : Forall (fun c => 0 < c <= m) costs).

Lemma before_nonneg s : 0 <= before s.
Proof using Hm. apply zsum_nonneg. apply list.Forall_take. eapply list.Forall_impl; [exact Hm|]. cbn. lia. Qed.

Lemma after_nonneg s : 0 <= after s.
Proof using Hm. apply zsum_nonneg. apply list.Forall_drop. eapply list.Forall_impl; [exact Hm|]. cbn. lia. Qed.

Lemma before_all s : (length costs <= s)%nat -> before s = zsum costs.
Proof using. intros. unfold before. by rewrite take_ge. Qed.

Lemma gap_small : zsum costs < u64_max -> forall i, gap i < u64_max.
Proof using Hm.
  intros Ht i. unfold gap. pose proof (before_nonneg i) as Hb. pose proof (after_nonneg i) as Ha.
  assert (before i + after i <= zsum costs).
  { unfold before, after. rewrite <- (take_drop i costs) at 3. rewrite zsum_app.
    assert (zsum (drop (S i) costs) <= zsum (drop i costs)) as Hd.
    { destruct (costs !! i) as [c|] eqn:Hc.
      - rewrite (drop_S _ _ _ Hc), zsum_cons. pose proof (Forall_lookup_1 _ _ _ _ Hm Hc). cbn beta in *. lia.
      - apply lookup_ge_None in Hc. rewrite !drop_ge by lia. done. }
    destruct drop_middle; lia. }
  lia.
Qed.

(** The first point from which on the left side weighs at least as much as the right one. *)
Lemma crossing (f : nat -> Z) n : f 0%nat < 0 -> 0 <= f n -> exists s, (s < n)%nat /\ f s < 0 /\ 0 <= f (S s).
Proof using.
  induction n as [|n IH]; intros H0 Hn; [lia|]. destruct (Z.le_gt_cases 0 (f n)) as [H|H].
  - destruct (IH H0 H) as (s & ? & ?). exists s. split; [lia|done].
  - exists n. split; [lia|]. done.
Qed.

End split.

Lemma split_leaf_gap costs m : Forall (fun c => 0 < c <= m) costs -> (2 <= length costs)%nat -> zsum costs < u64_max ->
  let s := balanced_split costs false in (1 <= s < length costs)%nat /\
    before costs s + after costs false s = zsum costs /\ Z.abs (before costs s - after costs false s) <= m.
Proof.
  intros Hm Hn Ht. destruct (balanced_split_best costs false Hn (gap_small costs false m Hm Ht)) as [Hs Hbest]. cbn zeta in *.
  set (s := balanced_split costs false) in *. split; [done|]. split.
  { unfold before, after. rewrite <- zsum_app. by rewrite take_drop. }
  fold (gap costs false s).
  destruct (crossing (fun i => 2 * before costs i - zsum costs) (length costs)) as (i & Hi & H1 & H2).
  - assert (before costs 0 = 0) as -> by done. destruct costs as [|c cs]; [cbn in Hn; lia|]. apply Forall_cons_1 in Hm as [Hc Hcs]. rewrite zsum_cons.
    pose proof (zsum_nonneg cs ltac:(eapply list.Forall_impl; [exact Hcs|]; cbn; lia)). lia.
  - rewrite before_all by done. assert (0 <= zsum costs); [|lia]. apply zsum_nonneg. eapply list.Forall_impl; [exact Hm|]. cbn. lia.
  - destruct (lookup_lt_is_Some_2 costs i Hi) as [c Hc]. pose proof (Forall_lookup_1 _ _ _ _ Hm Hc) as Hcm. cbn beta in Hcm.
    rewrite (before_S costs i c Hc) in H2. pose proof (before_after costs false i c Hc) as Ha.
    destruct (decide ((0 < i)%nat /\ zsum costs - 2 * before costs i <= c)) as [[Hi0 Hle]|Hno].
    { etrans; [apply (Hbest i); lia|]. unfold gap. rewrite Ha. lia. }
    destruct (decide (S i < length costs)%nat) as [Hi1|Hi1].
    + destruct (lookup_lt_is_Some_2 costs (S i) Hi1) as [c1 Hc1]. etrans; [apply (Hbest (S i)); lia|]. unfold gap.
      pose proof (after_nonneg costs false m Hm (S i)) as Hpos. rewrite (before_after costs false (S i) c1 Hc1), (before_S costs i c Hc) in *.
      destruct (decide (i = 0%nat)) as [->|]; [assert (before costs 0 = 0) by done|]; lia.
    + exfalso. pose proof (before_nonneg costs m Hm i). pose proof (before_all costs (S i) ltac:(lia)) as He. rewrite (before_S costs i c Hc) in He. lia.
Qed.

Lemma split_internal_gap costs m : Forall (fun c => 0 < c <= m) costs -> (2 <= length costs)%nat -> 2 * m < zsum costs < u64_max ->
  let s := balanced_split costs true in (1 <= s <= length costs - 2)%nat /\
    (forall c, costs !! s = Some c -> before costs s + c + after costs true s = zsum costs) /\ Z.abs (before costs s - after costs true s) <= m.
Proof.
  intros Hm Hn [Hbig Ht]. destruct (balanced_split_best costs true Hn (gap_small costs true m Hm Ht)) as [Hs Hbest]. cbn zeta in *.
  set (s := balanced_split costs true) in *.
  assert (Hc : forall i, (i < length costs)%nat -> exists c, costs !! i = Some c /\ 0 < c <= m /\ after costs true i = zsum costs - before costs i - c /\
    before costs (S i) = before costs i + c).
  { intros i Hi. destruct (lookup_lt_is_Some_2 costs i Hi) as [c Hc]. exists c. split; [done|]. split; [exact (Forall_lookup_1 _ _ _ _ Hm Hc)|].
    split; [apply (before_after costs true i c Hc)|by apply before_S]. }
  assert (Hsmall : gap costs true s <= m).
  { destruct (crossing (fun i => before costs i + before costs (S i) - zsum costs) (length costs - 1)) as (i & Hi & H1 & H2).
    - destruct (Hc 0%nat ltac:(lia)) as (c & _ & ? & _ & ->). assert (before costs 0 = 0) by done. lia.
    - replace (S (length costs - 1)) with (length costs) by lia. rewrite (before_all costs (length costs)) by done.
      pose proof (before_nonneg costs m Hm (length costs - 1)). lia.
    - destruct (Hc i ltac:(lia)) as (c & _ & Hcm & Ha & Hb). destruct (Hc (S i) ltac:(lia)) as (c1 & _ & Hcm1 & Ha1 & Hb1).
      destruct (decide (zsum costs - before costs i - before costs (S i) <= m)) as [Hle|Hgt].
      + destruct (decide (i = 0%nat)) as [->|]; [assert (before costs 0 = 0) by done; lia|].
        etrans; [apply (Hbest i); lia|]. unfold gap. lia.
      + etrans; [apply (Hbest (S i)); lia|]. unfold gap. lia. }
  destruct (Hc s ltac:(lia)) as (c & Hcs & Hcm & Ha & Hb). split; [|split; [intros c' Hc'; assert (c' = c) as -> by congruence; lia|done]].
  split; [lia|]. destruct (decide (s = length costs - 1)%nat) as [He|]; [|lia]. exfalso. unfold gap in Hsmall.
  assert (after costs true s = 0) as E0 by (unfold after; rewrite drop_ge by lia; done). lia.
Qed.

(** * Splitting and merging leaves *)

(** A layout whose tombstones leave room for four of the longest entries in every page. *)
Record layout_ok (l : Layout) : Prop := {
  lo_key : 0 < max_key_len l;
  lo_cap : 0 <= tombstone_capacity l;
  lo_room : 28 + 4 * tombstone_capacity l < PAGE_SIZE;
  lo_leaf : 4 * Layout.leaf_max_entry_bytes l <= EntryArea.capacity (Layout.leaf_area l);
  lo_internal : 4 * Layout.internal_max_entry_bytes l <= EntryArea.capacity INTERNAL_AREA;
}.

Lemma build_layout_ok k t l : 0 <= k -> 0 <= t -> Layout.build k t = Ok l -> layout_ok l /\ l = mkLayout k t.
Proof.
  intros Hk Ht. unfold Layout.build. destruct (Z.eqb_spec k 0); [done|]. change (leaf_slots_start 0) with 28. change TOMBSTONE_SLOT_ENCODED_BYTES with 4.
  destruct (Z.ltb_spec (4 * t + 28) PAGE_SIZE) as [Hr|]; [|done]. cbn [negb]. unfold longest_key_for, sub_usize, EntryArea.capacity, EntryArea.entry_cost.
  cbn [slots_start payload_len]. change RECORD_ID_ENCODED_BYTES with 16. change MIN_ENTRIES_PER_PAGE with 4. change SLOT_ENCODED_BYTES with 2.
  destruct (Z.leb_spec (2 + 0 + 16) ((PAGE_SIZE - (4 * t + 28)) / 4)) as [H1|]; [|done]. cbn [mbind outcome_bind].
  change (slots_start INTERNAL_AREA) with 24. change (payload_len INTERNAL_AREA) with 8.
  destruct (Z.leb_spec (2 + 0 + 8) ((PAGE_SIZE - 24) / 4)) as [H2|]; [|done]. cbn [mbind outcome_bind].
  destruct (Z.ltb_spec (Z.min ((PAGE_SIZE - (4 * t + 28)) / 4 - (2 + 0 + 16)) ((PAGE_SIZE - 24) / 4 - (2 + 0 + 8))) k) as [|H3]; [done|].
  intros [= <-]. split; [|done]. assert (PAGE_SIZE = 8192) by done. split; cbn [max_key_len tombstone_capacity]; [lia|lia|lia|..].
  - unfold Layout.leaf_max_entry_bytes, EntryArea.entry_cost, EntryArea.capacity, Layout.leaf_area. cbn [slots_start payload_len max_key_len tombstone_capacity].
    change RECORD_ID_ENCODED_BYTES with 16. change SLOT_ENCODED_BYTES with 2. unfold leaf_slots_start. change (LEAF_FIXED_HEADER_BYTES + TOMBSTONE_COUNT_ENCODED_BYTES) with 28.
    change TOMBSTONE_SLOT_ENCODED_BYTES with 4. Z.to_euclidean_division_equations; lia.
  - unfold Layout.internal_max_entry_bytes, EntryArea.entry_cost, EntryArea.capacity. cbn [max_key_len].
    change (slots_start INTERNAL_AREA) with 24. change (payload_len INTERNAL_AREA) with 8. change SLOT_ENCODED_BYTES with 2. Z.to_euclidean_division_equations; lia.
Qed.

Section leaf.
Context (layout : Layout) (Hok : layout_ok layout).

Abbreviation leaf_wf := (leaf_wf layout).
Abbreviation area := (Layout.leaf_area layout).

Definition low (p : LeafPage) (mid : nat) (right_id : PageId) : LeafPage :=
  mkLeaf (take mid (l_entries p)) (Some right_id) (List.filter (fun t => t <? Z.of_nat mid) (l_tombstones p)).
Definition high (p : LeafPage) (mid : nat) : LeafPage :=
  mkLeaf (drop mid (l_entries p)) (l_next p)
    ((fun t => t - Z.of_nat mid) <$> List.filter (fun t => negb (t <? Z.of_nat mid)) (l_tombstones p)).

Lemma low_wf p mid id : leaf_wf p -> (mid <= length (l_entries p))%nat -> page_id_valid id -> leaf_wf (low p mid id).
Proof using.
  intros [H1 H2 H3 H4 H5 H6 H7 H8] Hm Hid. split; cbn [low l_entries l_next l_tombstones LeafPage.keys]; try done.
  - unfold LeafPage.keys. cbn [l_entries low]. rewrite fmap_take. by apply ascending_take.
  - unfold LeafPage.keys. cbn [l_entries low]. rewrite fmap_take. by apply list.Forall_take.
  - by eapply sublist_NoDup, filter_sublist'.
  - rewrite length_take_le by done. apply list.Forall_forall. rewrite list.Forall_forall in H4. intros s [Hs Hlt%Z.ltb_lt]%elem_filter.
    specialize (H4 s Hs). lia.
  - pose proof (sublist_length _ _ (filter_sublist' (fun t => t <? Z.of_nat mid) (l_tombstones p))). lia.
  - by apply list.Forall_take.
  - rewrite length_take. lia.
Qed.

Lemma high_wf p mid : leaf_wf p -> (mid <= length (l_entries p))%nat -> leaf_wf (high p mid).
Proof using.
  intros [H1 H2 H3 H4 H5 H6 H7 H8] Hm. split; cbn [high l_entries l_next l_tombstones LeafPage.keys]; try done.
  - unfold LeafPage.keys. cbn [l_entries high]. rewrite fmap_drop. by apply ascending_drop.
  - unfold LeafPage.keys. cbn [l_entries high]. rewrite fmap_drop. by apply list.Forall_drop.
  - apply NoDup_fmap_2_strong; [intros; lia|]. by eapply sublist_NoDup, filter_sublist'.
  - rewrite length_drop. apply Forall_fmap, list.Forall_forall. rewrite list.Forall_forall in H4.
    intros s [Hs Hlt]%elem_filter. apply negb_true_iff, Z.ltb_ge in Hlt. specialize (H4 s Hs). cbn. lia.
  - rewrite length_fmap. pose proof (sublist_length _ _ (filter_sublist' (fun t => negb (t <? Z.of_nat mid)) (l_tombstones p))). lia.
  - by apply list.Forall_drop.
  - rewrite length_drop. lia.
Qed.

Lemma split_lives p mid id : (mid <= length (l_entries p))%nat ->
  forall k rid, lives p k rid <-> lives (low p mid id) k rid \/ lives (high p mid) k rid.
Proof using.
  intros Hm k rid. unfold lives. cbn [low high l_entries l_tombstones]. setoid_rewrite elem_filter. setoid_rewrite list_elem_of_fmap.
  setoid_rewrite elem_filter. split.
  - intros (i & Hi & Ht). destruct (decide (i < mid)%nat) as [Hlt|Hge].
    + left. exists i. rewrite lookup_take_lt by done. split; [done|]. by intros [? _].
    + right. exists (i - mid)%nat. rewrite lookup_drop. replace (mid + (i - mid))%nat with i by lia. split; [done|].
      intros (t & He & Hin & _). apply Ht. by replace (Z.of_nat i) with t by lia.
  - intros [(i & Hi & Ht)|(i & Hi & Ht)].
    + apply lookup_take_Some in Hi as [Hi Hlt]. exists i. split; [done|]. intros Hin. apply Ht. split; [done|]. apply Z.ltb_lt. lia.
    + rewrite lookup_drop in Hi. exists (mid + i)%nat. split; [done|]. intros Hin. apply Ht. exists (Z.of_nat (mid + i)). split_and!; [lia|done|].
      apply negb_true_iff, Z.ltb_ge. lia.
Qed.

(** What two leaves whose keys do not overlap hold together. *)
Lemma union_contents p q r : leaf_wf p -> leaf_wf q -> leaf_wf r ->
  (forall k rid, lives p k rid <-> lives q k rid \/ lives r k rid) ->
  (forall a b, a ∈ LeafPage.keys q -> b ∈ LeafPage.keys r -> klt a b) -> contents p = contents q ∪ contents r.
Proof using.
  intros Hp Hq Hr Hl Hlt. apply map_eq. intros k. apply option_eq. intros rid. rewrite (contents_lives layout), Hl by done.
  rewrite lookup_union_Some_raw, !(contents_lives layout), (contents_None layout) by done. split; [|tauto].
  intros [Hk|Hk]; [by left|right]. split; [|done]. intros rid' (i & Hi & _). destruct Hk as (j & Hj & _). apply (klt_irrefl k), Hlt.
  - apply entries_lookup in Hi. by eapply list_elem_of_lookup_2.
  - apply entries_lookup in Hj. by eapply list_elem_of_lookup_2.
Qed.

Lemma cost_bounds k : len k <= max_key_len layout -> 0 < LeafPage.cost layout k <= Layout.leaf_max_entry_bytes layout.
Proof using.
  intros Hk. unfold LeafPage.cost, Layout.leaf_max_entry_bytes, EntryArea.entry_cost. change (payload_len (Layout.leaf_area layout)) with 16.
  change SLOT_ENCODED_BYTES with 2. lia.
Qed.

Lemma costs_bounds p : leaf_wf p -> Forall (fun c => 0 < c <= Layout.leaf_max_entry_bytes layout) (LeafPage.cost layout <$> LeafPage.keys p).
Proof using. intros Hw. apply Forall_fmap. eapply list.Forall_impl; [apply Hw|]. intros k Hk. by apply cost_bounds. Qed.

Lemma zsum_le_len l m : Forall (fun c => 0 < c <= m) l -> zsum l <= m * Z.of_nat (length l).
Proof using. induction 1 as [|x l Hx _ IH]; [by rewrite zsum_nil, Z.mul_0_r|]. rewrite zsum_cons, length_cons. lia. Qed.

(** The parts of an overfull leaf. *)
Record halves (p l r : LeafPage) (right_id : PageId) (sep : IndexKey) : Prop := {
  hv_left : leaf_wf l;
  hv_right : leaf_wf r;
  hv_fit : LeafPage.is_overfull layout l = false /\ LeafPage.is_overfull layout r = false;
  hv_full : LeafPage.is_underfull layout l = false /\ LeafPage.is_underfull layout r = false;
  hv_next : l_next l = Some right_id /\ l_next r = l_next p;
  hv_entries : l_entries l ++ l_entries r = l_entries p;
  hv_first : head (LeafPage.keys r) = Some sep;
  hv_lives : forall k rid, lives p k rid <-> lives l k rid \/ lives r k rid;
  hv_contents : contents p = contents l ∪ contents r;
}.

Lemma split_leaf_ok {E} p right_id : leaf_wf p -> page_id_valid right_id -> LeafPage.is_overfull layout p = true ->
  LeafPage.used_bytes layout p <= EntryArea.capacity area + Layout.leaf_max_entry_bytes layout ->
  exists l r sep, @LeafPage.split_into layout E p right_id = Ok (l, r, sep) /\ halves p l r right_id sep.
Proof using Hok.
  intros Hw Hid Hov%Z.ltb_lt Hle. destruct Hok as [Hk Hcap Hroom Hmax _]. pose proof (costs_bounds p Hw) as Hcb.
  pose proof (zsum_le_len _ _ Hcb) as Hlen. rewrite length_fmap in Hlen. unfold LeafPage.used_bytes in *.
  assert (Hn : length (LeafPage.keys p) = length (l_entries p)) by apply length_fmap.
  assert (H0 : 0 < Layout.leaf_max_entry_bytes layout).
  { unfold Layout.leaf_max_entry_bytes, EntryArea.entry_cost. change (payload_len area) with 16. change SLOT_ENCODED_BYTES with 2. lia. }
  assert (Hmany : (2 <= length (LeafPage.keys p))%nat) by nia.
  assert (Hcapv : EntryArea.capacity area <= 8192).
  { unfold EntryArea.capacity, Layout.leaf_area, leaf_slots_start. cbn [slots_start]. change TOMBSTONE_SLOT_ENCODED_BYTES with 4.
    change (LEAF_FIXED_HEADER_BYTES + TOMBSTONE_COUNT_ENCODED_BYTES) with 28. change PAGE_SIZE with 8192. lia. }
  destruct (split_leaf_gap (LeafPage.cost layout <$> LeafPage.keys p) (Layout.leaf_max_entry_bytes layout) Hcb) as (Hs & Hsum & Hgap);
    [by rewrite length_fmap|unfold u64_max; lia|].
  set (mid := balanced_split (LeafPage.cost layout <$> LeafPage.keys p) false) in *. rewrite length_fmap in Hs.
  pose proof (low_wf p mid right_id Hw ltac:(lia) Hid) as Hl. pose proof (high_wf p mid Hw ltac:(lia)) as Hr.
  assert (Eb : before (LeafPage.cost layout <$> LeafPage.keys p) mid = LeafPage.used_bytes layout (low p mid right_id)).
  { unfold before, LeafPage.used_bytes, LeafPage.keys. cbn [low l_entries]. by rewrite !fmap_take. }
  assert (Ea : after (LeafPage.cost layout <$> LeafPage.keys p) false mid = LeafPage.used_bytes layout (high p mid)).
  { unfold after, LeafPage.used_bytes, LeafPage.keys. cbn [high l_entries]. by rewrite !fmap_drop. }
  rewrite Eb, Ea in *. destruct (lookup_lt_is_Some_2 (l_entries p) mid ltac:(lia)) as [[sep rsep] Hsep].
  exists (low p mid right_id), (high p mid), sep. split.
  - unfold LeafPage.split_into, LeafPage.debug_check. rewrite leaf_check_ok by done. cbn [rassert is_ok mbind outcome_bind].
    rewrite (proj2 (Nat.leb_le 2 _)) by lia. cbn [rassert mbind outcome_bind]. fold mid. pose proof (w_size _ _ Hw).
    rewrite leaf_slot_ok by lia. cbn [mbind outcome_bind]. fold (low p mid right_id). fold (high p mid). rewrite !leaf_check_ok by done.
    cbn [rassert is_ok mbind outcome_bind]. cbn [high l_entries]. rewrite (drop_S _ _ _ Hsep). done.
  - split; [done|done|split; apply Z.ltb_ge; lia|split; apply Z.ltb_ge; unfold Layout.leaf_min_used; apply Z.div_le_upper_bound; lia|done|apply take_drop| |by apply split_lives; lia|].
    + unfold LeafPage.keys. cbn [high l_entries]. rewrite (drop_S _ _ _ Hsep). done.
    + apply union_contents; [done..|by apply split_lives; lia|]. pose proof (w_sorted _ _ Hw) as Ha. unfold LeafPage.keys in *.
      cbn [low high l_entries]. rewrite fmap_take, fmap_drop. rewrite <- (take_drop mid (l_entries p).*1) in Ha. by apply ascending_app in Ha as (_ & _ & ?).
Qed.

End leaf.
