(* ===== verification/InternalOps.v ===== *)
(** * Operations on internal pages

    Putting a separator and its right child into a well-formed internal page, and splitting a
    page that one separator overfills. *)

From Stdlib Require Import ZArith Lia String Sorted.
From stdpp Require Import base list numbers option.
From S2P Require Import Prelude Bytes Ids Buf Str Slotted BPlusPage BPlusKeys LeafContents BPlusSplit PageCodecProofs.

Local Open Scope Z_scope.

Import InternalPage (insert_at, remove_at).

Section internal.
Context (layout : Layout) (Hok : layout_ok layout).

Abbreviation internal_wf := (internal_wf layout).

Lemma find_le p k : (InternalPage.find_child_index p k <= length (i_keys p))%nat.
Proof using. apply partition_prefix_le. Qed.

(** The keys before the child for [k] are at most [k], those after it are greater. *)
Lemma find_before p k i a : internal_wf p -> i_keys p !! i = Some a -> (i < InternalPage.find_child_index p k)%nat -> kle a k.
Proof using.
  intros Hw Ha Hi. apply key_le_spec. rewrite (le_prefix_spec _ k (iw_sorted _ _ Hw) i a Ha). by apply Nat.ltb_lt.
Qed.

Lemma find_after p k i a : internal_wf p -> i_keys p !! i = Some a -> (InternalPage.find_child_index p k <= i)%nat -> klt k a.
Proof using.
  intros Hw Ha Hi. apply not_kle. rewrite <- key_le_spec, (le_prefix_spec _ k (iw_sorted _ _ Hw) i a Ha).
  intros Hlt%Nat.ltb_lt. unfold InternalPage.find_child_index in Hi. lia.
Qed.

(** [k] falls between the keys around child [i]. *)
Lemma find_unique p k i : internal_wf p -> (i <= length (i_keys p))%nat -> (forall j a, i_keys p !! j = Some a -> (j < i)%nat -> kle a k) ->
  (forall j a, i_keys p !! j = Some a -> (i <= j)%nat -> klt k a) -> InternalPage.find_child_index p k = i.
Proof using.
  intros Hw Hi Hb Ha. pose proof (find_le p k) as Hf. destruct (Nat.lt_trichotomy (InternalPage.find_child_index p k) i) as [Hlt|[He|Hgt]]; [|done|].
  - destruct (lookup_lt_is_Some_2 (i_keys p) (InternalPage.find_child_index p k) ltac:(lia)) as [a Hk].
    exfalso. apply (klt_irrefl a). eapply kle_klt_trans; [by eapply Hb|]. by eapply find_after.
  - destruct (lookup_lt_is_Some_2 (i_keys p) i ltac:(lia)) as [a Hk].
    exfalso. apply (klt_irrefl k). eapply klt_kle_trans; [by eapply Ha|]. by eapply find_before.
Qed.

Definition with_separator (p : InternalPage) (i : nat) (sep : IndexKey) (right : PageId) : InternalPage :=
  mkInternal (insert_at (S i) right (i_children p)) (insert_at i sep (i_keys p)).

Lemma with_separator_wf p sep right : internal_wf p -> sep ∉ i_keys p -> len sep <= max_key_len layout -> page_id_valid right ->
  internal_wf (with_separator p (InternalPage.find_child_index p sep) sep right).
Proof using.
  intros Hw Hn Hl Hr. pose proof (find_le p sep) as Hf. destruct Hw as [H1 H2 H3 H4] eqn:E. split; cbn [with_separator i_children i_keys].
  - rewrite !insert_at_length. lia.
  - apply ascending_insert_at; [done| |].
    + intros j a Ha Hj. pose proof (find_before p sep j a Hw Ha Hj) as [?| ->]%kle_lteq; [done|]. by destruct Hn; eapply list_elem_of_lookup_2.
    + intros j a Ha Hj. by eapply find_after.
  - by apply Forall_insert_at.
  - by apply Forall_insert_at.
Qed.

Lemma insert_separator_ok {E} p sep right : internal_wf p -> sep ∉ i_keys p -> len sep <= max_key_len layout -> page_id_valid right ->
  @InternalPage.insert_separator layout E p sep right = Ok (with_separator p (InternalPage.find_child_index p sep) sep right).
Proof using.
  intros Hw Hn Hl Hr. unfold InternalPage.insert_separator. pose proof (find_le p sep). pose proof (iw_children _ _ Hw).
  rewrite (proj2 (Nat.ltb_lt _ _)) by lia. cbn [rassert mbind outcome_bind].
  apply (internal_checked_ok layout (with_separator _ _ _ _)). by apply with_separator_wf.
Qed.

Lemma icost_bounds k : len k <= max_key_len layout -> 0 < InternalPage.cost k <= Layout.internal_max_entry_bytes layout.
Proof using.
  intros Hk. unfold InternalPage.cost, Layout.internal_max_entry_bytes, EntryArea.entry_cost. change (payload_len INTERNAL_AREA) with 8.
  change SLOT_ENCODED_BYTES with 2. lia.
Qed.

Lemma icosts_bounds p : internal_wf p -> Forall (fun c => 0 < c <= Layout.internal_max_entry_bytes layout) (InternalPage.cost <$> i_keys p).
Proof using. intros Hw. apply Forall_fmap. eapply list.Forall_impl; [apply Hw|]. intros k Hk. by apply icost_bounds. Qed.

Lemma with_separator_used p i sep right : InternalPage.used_bytes (with_separator p i sep right) = InternalPage.used_bytes p + InternalPage.cost sep.
Proof using.
  unfold InternalPage.used_bytes. cbn [with_separator i_keys]. unfold insert_at. rewrite fmap_app, fmap_cons, zsum_app, zsum_cons.
  rewrite <- (take_drop i (i_keys p)) at 3. rewrite fmap_app, zsum_app. lia.
Qed.

(** The parts of an overfull page around the key that moves up. *)
Record ihalves (p l r : InternalPage) (sep : IndexKey) : Prop := {
  ih_left : internal_wf l;
  ih_right : internal_wf r;
  ih_fit : InternalPage.is_overfull l = false /\ InternalPage.is_overfull r = false;
  ih_full : InternalPage.is_underfull layout l = false /\ InternalPage.is_underfull layout r = false;
  ih_keys : i_keys l ++ sep :: i_keys r = i_keys p;
  ih_children : i_children l ++ i_children r = i_children p;
}.

Lemma split_internal_ok {E} p : internal_wf p -> InternalPage.is_overfull p = true ->
  InternalPage.used_bytes p <= EntryArea.capacity INTERNAL_AREA + Layout.internal_max_entry_bytes layout ->
  exists l r sep, @InternalPage.split_into layout E p = Ok (l, r, sep) /\ ihalves p l r sep.
Proof using Hok.
  intros Hw Hov%Z.ltb_lt Hle. pose proof (icosts_bounds p Hw) as Hcb. pose proof (zsum_le_len _ _ Hcb) as Hlen. rewrite length_fmap in Hlen.
  pose proof (lo_internal _ Hok) as Hmax. pose proof (lo_key _ Hok). unfold InternalPage.used_bytes in *.
  assert (H0 : 0 < Layout.internal_max_entry_bytes layout).
  { unfold Layout.internal_max_entry_bytes, EntryArea.entry_cost. change (payload_len INTERNAL_AREA) with 8. change SLOT_ENCODED_BYTES with 2. lia. }
  assert (Hmany : (5 <= length (i_keys p))%nat) by nia. change (EntryArea.capacity INTERNAL_AREA) with 8168 in *.
  destruct (split_internal_gap (InternalPage.cost <$> i_keys p) (Layout.internal_max_entry_bytes layout) Hcb) as (Hs & Hsum & Hgap);
    [rewrite length_fmap; lia|unfold u64_max; lia|].
  set (mid := balanced_split (InternalPage.cost <$> i_keys p) true) in *. rewrite length_fmap in Hs.
  destruct (lookup_lt_is_Some_2 (i_keys p) mid ltac:(lia)) as [sep Hsep].
  set (l := mkInternal (take (S mid) (i_children p)) (take mid (i_keys p))).
  set (r := mkInternal (drop (S mid) (i_children p)) (drop (S mid) (i_keys p))).
  pose proof Hw as [Hch Hasc Hkl Hids].
  assert (Hl : internal_wf l).
  { split; cbn [l i_children i_keys]; [rewrite !length_take; lia|by apply ascending_take|by apply list.Forall_take|by apply list.Forall_take]. }
  assert (Hr : internal_wf r).
  { split; cbn [r i_children i_keys]; [rewrite !length_drop; lia|by apply ascending_drop|by apply list.Forall_drop|by apply list.Forall_drop]. }
  assert (Eb : before (InternalPage.cost <$> i_keys p) mid = InternalPage.used_bytes l).
  { unfold before, InternalPage.used_bytes. cbn [l i_keys]. by rewrite fmap_take. }
  assert (Ea : after (InternalPage.cost <$> i_keys p) true mid = InternalPage.used_bytes r).
  { unfold after, InternalPage.used_bytes. cbn [r i_keys]. by rewrite fmap_drop. }
  specialize (Hsum (InternalPage.cost sep) ltac:(by rewrite list_lookup_fmap, Hsep)). rewrite Eb, Ea in *.
  pose proof (icost_bounds sep ltac:(exact (Forall_lookup_1 _ _ _ _ Hkl Hsep))) as Hcs.
  exists l, r, sep. split.
  - unfold InternalPage.split_into, InternalPage.debug_check. rewrite (proj2 (Nat.leb_le 3 _)) by lia. cbn [rassert mbind outcome_bind].
    rewrite (internal_check_ok layout p Hw). cbn [rassert is_ok mbind outcome_bind]. fold mid. rewrite Nat.min_l by lia.
    rewrite (take_S_r _ _ _ Hsep), last_snoc. cbn [expect mbind outcome_bind]. fold l r. rewrite (internal_check_ok layout l Hl), (internal_check_ok layout r Hr). done.
  - split; [done|done|split; apply Z.ltb_ge; change (EntryArea.capacity INTERNAL_AREA) with 8168; lia| | |apply take_drop].
    + split; apply Z.ltb_ge; unfold Layout.internal_min_used; change (EntryArea.capacity INTERNAL_AREA) with 8168; apply Z.div_le_upper_bound; lia.
    + cbn [l r i_keys]. rewrite <- (drop_S _ _ _ Hsep). apply take_drop.
Qed.

End internal.
