(* ===== verification/BPlusTheorems.v ===== *)
(** * Theorems on B+ tree pages *)

From Stdlib Require Import ZArith Lia String Sorted.
From stdpp Require Import base list numbers option gmap.
From S2P Require Import Prelude Bytes Ids Buf Str TableHeap Slotted SlottedProofs BPlusPage PageView BPlusKeys PageViewProofs.
From S2P Require Import LeafContents LeafViewProofs PageCodecProofs BPlusSplit InternalOps.

Local Open Scope Z_scope.

(** The bytes of a leaf page that holds the live entries of [m]. *)
Definition leaf_holds (layout : Layout) (b : bytes) (m : gmap IndexKey RecordId) : Prop :=
  exists p, leaf_is layout b p /\ leaf_wf layout p /\ contents p = m.

(** C33: a leaf page's bytes are a finite map. On every leaf page that holds the entries of
    [m], the view's [get] is the lookup in [m]; [insert] fails with a duplicate for a key of
    [m], fails as full only for a new key that costs more than the free bytes, and otherwise
    leaves a page that holds [m] with the key; [remove_key] fails for a key not in [m] and
    otherwise leaves a page that holds [m] without it. Nothing panics, whatever tombstones
    the page keeps. *)
Theorem leaf_view_refines_map layout b m k rid :
  layout_ok layout -> leaf_holds layout b m -> len k <= max_key_len layout -> rid_valid rid ->
  LeafPageView.get layout b k = Ok (m !! k) /\
  (match LeafPageView.insert layout b k rid with
   | Ok b' => m !! k = None /\ leaf_holds layout b' (<[k := rid]> m)
   | Err LDuplicateKey => is_Some (m !! k)
   | Err LFull => m !! k = None /\ exists used, @LeafPageView.used_bytes layout unit b = Ok used /\
       EntryArea.capacity (Layout.leaf_area layout) < used + LeafPage.cost layout k
   | Panic => False
   end) /\
  (match LeafPageView.remove_key layout b k with
   | Ok b' => is_Some (m !! k) /\ leaf_holds layout b' (delete k m)
   | Err KeyNotFound => m !! k = None
   | Panic => False
   end).
Proof.
  intros Hok (p & Hb & Hw & <-) Hk Hr. pose proof (lo_cap _ Hok) as Hcap. pose proof (lo_room _ Hok) as Hroom. assert (Hroom' : 28 + 4 * tombstone_capacity layout <= PAGE_SIZE) by lia.
  pose proof (view_small layout Hcap Hroom' b p Hb Hw) as Hsm. split_and!.
  - rewrite (get_is layout Hcap Hroom' b p Hb Hw). by apply (get_contents layout).
  - pose proof (view_insert layout Hcap Hroom' b p Hb Hw k rid) as Hi. pose proof (view_full layout Hcap Hroom' b p Hb Hw k rid) as Hf.
    pose proof (insert_contents layout p k rid Hw Hk Hr ltac:(unfold u32_max; lia)) as Hc.
    destruct (LeafPageView.insert layout b k rid) as [b'|[]|].
    + destruct Hi as (p' & E & Hb'). rewrite E in Hc. destruct Hc as (Hw' & Hn & Hc). split; [done|]. by exists p'.
    + by rewrite Hi in Hc.
    + destruct (Hf eq_refl) as [Hn Hfull]. split; [by apply (contents_None layout)|]. exists (LeafPage.used_bytes layout p). split; [|lia].
      unfold LeafPageView.used_bytes. rewrite (view_size layout Hcap Hroom' b p Hb Hw). cbn [mbind outcome_bind]. rewrite used_is, <- entries_length.
      apply used_ok, Hb.
    + done.
  - pose proof (view_remove layout Hcap Hroom' b p k Hb Hw) as Hv. pose proof (remove_contents layout p k Hw) as Hc.
    destruct (LeafPageView.remove_key layout b k) as [b'|[]|].
    + destruct Hv as (p' & E & Hb'). rewrite E in Hc. destruct Hc as (Hw' & Hn & Hc). split; [done|]. by exists p'.
    + by rewrite Hv in Hc.
    + done.
Qed.

(** What a view of the bytes [b] reads, for each of its reads, is what the leaf [p] has. *)
Record reads_as (layout : Layout) (b : bytes) (p : LeafPage) : Prop := {
  ra_new : LeafPageView.new layout b = Ok tt;
  ra_size : @LeafPageView.size unit b = Ok (len (l_entries p));
  ra_next : LeafPageView.next_leaf_id b = Ok (l_next p);
  ra_key i k rid : l_entries p !! i = Some (k, rid) -> @LeafPageView.key layout unit b (Z.of_nat i) = Ok k;
  ra_record i k rid : l_entries p !! i = Some (k, rid) -> LeafPageView.record_id layout b (Z.of_nat i) = Ok rid;
  ra_count : @LeafPageView.tombstone_count unit b = Ok (len (l_tombstones p));
  ra_tombstone i t : l_tombstones p !! i = Some t -> @LeafPageView.tombstone layout unit b (Z.of_nat i) = Ok t;
  ra_tombstoned s : @LeafPageView.is_tombstoned layout unit b s = Ok (LeafPage.is_tombstoned p s);
  ra_used : @LeafPageView.used_bytes layout unit b = Ok (LeafPage.used_bytes layout p);
  ra_split : @LeafPageView.may_split_on_insert layout unit b =
    Ok (EntryArea.capacity (Layout.leaf_area layout) <? LeafPage.used_bytes layout p + Layout.leaf_max_entry_bytes layout);
  ra_underflow : @LeafPageView.may_underflow_on_remove layout unit b =
    Ok (saturating_sub (LeafPage.used_bytes layout p) (Layout.leaf_max_entry_bytes layout) <? Layout.leaf_min_used layout);
  ra_search k : @LeafPageView.search layout unit b k = Ok (zpos (LeafPage.search p k));
  ra_lower k : @LeafPageView.lower_bound layout unit b k = Ok (Z.of_nat (LeafPage.lower_bound p k));
  ra_upper k : @LeafPageView.upper_bound layout unit b k = Ok (Z.of_nat (LeafPage.upper_bound p k));
  ra_exists k : @LeafPageView.key_exists layout unit b k = Ok (LeafPage.key_exists p k);
  ra_get k : LeafPageView.get layout b k = LeafPage.get p k;
}.

Section reads.
Context (layout : Layout) (Hok : layout_ok layout) (b : bytes) (p : LeafPage) (Hb : leaf_is layout b p) (Hw : leaf_wf layout p).

Lemma view_reads : reads_as layout b p.
Proof using Hok Hb Hw.
  pose proof (lo_cap _ Hok) as Hcap. pose proof (lo_room _ Hok) as Hroom. assert (Hroom' : 28 + 4 * tombstone_capacity layout <= PAGE_SIZE) by lia. clear Hroom.
  assert (Hu : forall E, @LeafPageView.used_bytes layout E b = Ok (LeafPage.used_bytes layout p)).
  { intros E. unfold LeafPageView.used_bytes. rewrite (view_size layout Hcap Hroom' b p Hb Hw). cbn [mbind outcome_bind]. rewrite used_is, <- entries_length. apply used_ok, Hb. }
  split.
  - by apply (check_new layout Hcap Hroom' b p).
  - by apply (view_size layout Hcap Hroom' b p).
  - unfold LeafPageView.next_leaf_id. erewrite link_ok by apply Hb. cbn [mbind outcome_bind]. apply decode_link, Hw.
  - intros i k rid Hi. by apply (view_key layout Hcap Hroom' b p Hb Hw i k rid).
  - intros i k rid Hi. by apply (record_is layout Hcap Hroom' b p Hb Hw i k rid).
  - by apply (view_count layout Hcap Hroom' b p).
  - intros i t Hi. apply (tombstone_ok layout Hcap Hroom' b 0 (l_tombstones p) i t); [by apply (view_len layout Hcap Hroom' b p)|apply Hb|done|lia|]. pose proof (t_cap _ _ _ (v_tombs _ _ _ Hb)). lia.
  - intros t. by apply tombstoned_is.
  - apply Hu.
  - unfold LeafPageView.may_split_on_insert. rewrite (view_size layout Hcap Hroom' b p Hb Hw). cbn [mbind outcome_bind].
    pose proof (entries_free_ok (E := unit) _ b _ (v_entries _ _ _ Hb)) as Ef. rewrite entries_length, <- (used_is layout) in Ef. rewrite Ef. cbn [mbind outcome_bind]. f_equal.
    destruct (Z.ltb_spec (EntryArea.capacity (Layout.leaf_area layout) - LeafPage.used_bytes layout p) (Layout.leaf_max_entry_bytes layout)); symmetry; [apply Z.ltb_lt|apply Z.ltb_ge]; lia.
  - unfold LeafPageView.may_underflow_on_remove. by rewrite Hu.
  - intros k. by apply search_is.
  - intros k. by apply lower_bound_is.
  - intros k. by apply upper_bound_is.
  - intros k. unfold LeafPageView.key_exists. rewrite (search_is layout Hcap Hroom' b p Hb Hw). unfold LeafPage.key_exists. by destruct (LeafPage.search p k).
  - intros k. by apply get_is.
Qed.

Lemma view_fits : LeafPage.is_overfull layout p = false.
Proof using Hb.
  clear Hok Hw. apply Z.ltb_ge. rewrite used_is. pose proof (h_fit _ _ _ (v_entries _ _ _ Hb)) as Hf. rewrite entries_length in Hf. unfold EntryArea.capacity. lia.
Qed.

End reads.

(** C34: a view and the page it views agree. On the bytes of a well-formed leaf, every read of
    the view gives what the decoded leaf has. An insert that the leaf refuses as a duplicate
    the view refuses too; one that makes the leaf overfull the view reports as full; after
    any other the view's bytes are those of the leaf after it. A removal gives the bytes of
    the leaf after the leaf's removal, or the same error. *)
Theorem leaf_view_is_leaf_page layout b p k rid :
  layout_ok layout -> leaf_is layout b p -> leaf_wf layout p -> len k <= max_key_len layout -> rid_valid rid ->
  reads_as layout b p /\
  match LeafPage.insert layout p k rid with
  | Ok p' =>
      if LeafPage.is_overfull layout p' then LeafPageView.insert layout b k rid = Err LFull
      else exists b', LeafPageView.insert layout b k rid = Ok b' /\ leaf_is layout b' p'
  | Err DuplicateKey => LeafPageView.insert layout b k rid = Err LDuplicateKey
  | Panic => False
  end /\
  match LeafPage.remove_key layout p k with
  | Ok p' => exists b', LeafPageView.remove_key layout b k = Ok b' /\ leaf_is layout b' p'
  | Err e => LeafPageView.remove_key layout b k = Err e
  | Panic => False
  end.
Proof.
  intros Hok Hb Hw Hk Hr. pose proof (lo_cap _ Hok) as Hcap. pose proof (lo_room _ Hok) as Hroom. assert (Hroom' : 28 + 4 * tombstone_capacity layout <= PAGE_SIZE) by lia.
  pose proof (view_small layout Hcap Hroom' b p Hb Hw) as Hsm. rewrite (insert_is layout p k rid Hw Hk Hr) by (unfold u32_max; lia).
  rewrite (remove_is layout p k Hw). split_and!; [by apply view_reads| |].
  - pose proof (view_insert layout Hcap Hroom' b p Hb Hw k rid) as Hi. destruct (LeafPageView.insert layout b k rid) as [b'|[]|]; [| | |done].
    + destruct Hi as (p' & -> & Hb'). rewrite (view_fits layout b' p' Hb'). by exists b'.
    + by rewrite Hi.
    + by destruct Hi as (p' & -> & ->).
  - pose proof (view_remove layout Hcap Hroom' b p k Hb Hw) as Hi. destruct (LeafPageView.remove_key layout b k) as [b'|e|]; [| |done].
    + destruct Hi as (p' & -> & Hb'). by exists b'.
    + by rewrite Hi.
Qed.

(** C35: pages round-trip. A well-formed leaf or internal page whose entries fit in a page
    encodes to bytes that decode to it and that a view accepts; one that is overfull is
    refused. Header pages round-trip too. *)
Theorem page_roundtrip layout leaf node header buf :
  layout_ok layout -> leaf_wf layout leaf -> internal_wf layout node -> header_wf header -> len buf = PAGE_SIZE ->
  (if LeafPage.is_overfull layout leaf then exists e, LeafPage.encode layout leaf buf = Err e
   else exists b, LeafPage.encode layout leaf buf = Ok b /\ LeafPage.decode layout b = Ok leaf /\ NodeView.new layout b = Ok NLeaf) /\
  (if InternalPage.is_overfull node then exists e, InternalPage.encode layout node buf = Err e
   else exists b, InternalPage.encode layout node buf = Ok b /\ InternalPage.decode layout b = Ok node /\ NodeView.new layout b = Ok NInternal) /\
  (exists b, HeaderPage.encode header buf = Ok b /\ HeaderPage.decode b = Ok header /\ HeaderPageView.new b = Ok tt).
Proof.
  intros Hok Hl Hn Hh Hlen. pose proof (lo_cap _ Hok) as Hcap. pose proof (lo_room _ Hok) as Hroom. assert (Hroom' : 28 + 4 * tombstone_capacity layout <= PAGE_SIZE) by lia.
  split_and!.
  - pose proof (encode_leaf layout Hcap Hroom' leaf buf Hl Hlen) as He. destruct (LeafPage.is_overfull layout leaf); [by eexists|].
    destruct He as (b & -> & Hb). exists b. split_and!; [done|by apply decode_leaf|]. unfold NodeView.new. erewrite peek_ok by apply Hb. cbn.
    by rewrite (check_new layout Hcap Hroom' b leaf Hb Hl).
  - pose proof (encode_internal layout node buf Hn Hlen) as He. destruct (InternalPage.is_overfull node); [by eexists|].
    destruct He as (b & -> & Hb). exists b. split_and!; [done|by apply decode_internal|]. unfold NodeView.new. erewrite peek_ok by apply Hb. cbn.
    by rewrite (icheck_new layout b node Hb Hn).
  - destruct (encode_header header buf Hh Hlen) as (b & -> & Hb). exists b. split_and!; [done|by apply decode_header|by eapply hview_new].
Qed.

(** C36: splits are balanced. A leaf or internal page that one entry of at most the longest
    key overfills splits without a panic into two pages that both fit and of which neither is
    underfull; the left leaf links to the right one, every entry keeps its order, the
    separator is the right leaf's first key, and the two leaves hold what the leaf held. *)
Theorem splits_fit layout leaf node right_id :
  layout_ok layout -> page_id_valid right_id ->
  leaf_wf layout leaf -> LeafPage.is_overfull layout leaf = true ->
  LeafPage.used_bytes layout leaf <= EntryArea.capacity (Layout.leaf_area layout) + Layout.leaf_max_entry_bytes layout ->
  internal_wf layout node -> InternalPage.is_overfull node = true ->
  InternalPage.used_bytes node <= EntryArea.capacity INTERNAL_AREA + Layout.internal_max_entry_bytes layout ->
  (exists l r sep, @LeafPage.split_into layout unit leaf right_id = Ok (l, r, sep) /\ halves layout leaf l r right_id sep) /\
  (exists l r sep, @InternalPage.split_into layout unit node = Ok (l, r, sep) /\ ihalves layout node l r sep).
Proof. intros. split; [by apply split_leaf_ok|by apply split_internal_ok]. Qed.

(** C37: the binary search over a page's slots terminates on every predicate, sorted page or
    not: its loop halves the range, so one turn more than there are slots is enough, and it
    stops between a slot that satisfies the predicate and one that does not. Where the slots
    that satisfy it come first, that is how many there are. *)
Theorem partition_point_terminates {E} (n : Z) (p : Z -> bool) :
  0 <= n -> exists i, @partition_point E n (fun j => Ok (p j)) = Ok i /\ 0 <= i <= n /\
    (0 < i -> p (i - 1) = true) /\ (i < n -> p i = false) /\
    ((forall j j', 0 <= j <= j' -> p j' = true -> p j = true) -> forall j, 0 <= j < n -> p j = true <-> j < i).
Proof.
  intros Hn. destruct (partition_loop_total (E := E) p n (S (Z.to_nat n)) 0 n) as (i & Hi & Hr & H1 & H2); [lia|lia|lia|lia|].
  exists i. split_and!; [done|lia|lia|intros; apply H1; lia|intros; apply H2; lia|]. intros Hm j Hj. split.
  - intros Hp. destruct (Z.lt_ge_cases j i) as [|Hge]; [done|]. rewrite (Hm i j) in H2 by (done || lia). specialize (H2 ltac:(lia)). done.
  - intros Hlt. apply (Hm j (i - 1)); [lia|]. apply H1. lia.
Qed.

(** ** Witnesses *)

Definition demo_layout : Layout := mkLayout 8 2.

Lemma demo_layout_ok : layout_ok demo_layout.
Proof. by apply (build_layout_ok 8 2). Qed.

(** Three entries, the second of them removed. *)
Definition demo_leaf : LeafPage :=
  mkLeaf [([1], mkRid 7 1); ([2], mkRid 7 2); ([2; 5], mkRid 8 0)] (Some 4) [1].

Lemma demo_leaf_wf : leaf_wf demo_layout demo_leaf.
Proof.
  split; cbn; [repeat constructor|repeat constructor; cbn; lia|repeat constructor; by intros ?%not_elem_of_nil| |lia| |done|unfold u32_max; lia].
  - repeat constructor; lia.
  - repeat constructor; cbn; unfold page_id_valid, PageId_MAX, u32_max; lia.
Qed.

Definition demo_bytes : bytes := match LeafPage.encode demo_layout demo_leaf zero_page with Ok b => b | _ => [] end.

Lemma demo_bytes_is : leaf_is demo_layout demo_bytes demo_leaf.
Proof.
  destruct (encode_leaf demo_layout ltac:(by cbn) ltac:(by cbn) demo_leaf zero_page demo_leaf_wf zero_page_len) as (b & E & Hb).
  unfold demo_bytes. by rewrite E.
Qed.

Lemma demo_contents : contents demo_leaf = <[[1] := mkRid 7 1]> (<[[2; 5] := mkRid 8 0]> ∅).
Proof. vm_compute. reflexivity. Qed.

(** The removed key can be put back. *)
Lemma leaf_view_refines_map_witness :
  LeafPageView.get demo_layout demo_bytes [2; 5] = Ok (Some (mkRid 8 0)) /\ LeafPageView.get demo_layout demo_bytes [2] = Ok None.
Proof.
  assert (H : leaf_holds demo_layout demo_bytes (contents demo_leaf)) by (exists demo_leaf; split_and!; [apply demo_bytes_is|apply demo_leaf_wf|done]).
  split.
  - destruct (leaf_view_refines_map demo_layout demo_bytes (contents demo_leaf) [2; 5] (mkRid 1 1) demo_layout_ok H) as [-> _]; [by cbn|done|].
    by rewrite demo_contents.
  - destruct (leaf_view_refines_map demo_layout demo_bytes (contents demo_leaf) [2] (mkRid 1 1) demo_layout_ok H) as [-> _]; [by cbn|done|].
    by rewrite demo_contents.
Defined.

Lemma leaf_view_is_leaf_page_witness :
  exists b', LeafPageView.remove_key demo_layout demo_bytes [2; 5] = Ok b' /\
    leaf_is demo_layout b' (mkLeaf (l_entries demo_leaf) (Some 4) [1; 2]).
Proof.
  destruct (leaf_view_is_leaf_page demo_layout demo_bytes demo_leaf [2; 5] (mkRid 1 1) demo_layout_ok demo_bytes_is demo_leaf_wf)
    as (_ & _ & H); [by cbn|done|].
  assert (E : LeafPage.remove_key demo_layout demo_leaf [2; 5] = Ok (mkLeaf (l_entries demo_leaf) (Some 4) [1; 2])) by (vm_compute; reflexivity).
  rewrite E in H. exact H.
Defined.

Definition demo_node : InternalPage := mkInternal [3; 9] [[2]].
Definition demo_header : HeaderPage := mkHeader (Some 3) (Some 3) 8.

Lemma demo_node_wf : internal_wf demo_layout demo_node.
Proof.
  split; cbn; [done|repeat constructor|repeat constructor; cbn; lia|]. repeat constructor; unfold page_id_valid, PageId_MAX, u32_max; lia.
Qed.

Lemma demo_header_wf : header_wf demo_header.
Proof. split; [by eexists|cbn; unfold u32_max; lia|done|done]. Qed.

Lemma page_roundtrip_witness : exists b, LeafPage.encode demo_layout demo_leaf zero_page = Ok b /\ LeafPage.decode demo_layout b = Ok demo_leaf.
Proof.
  destruct (page_roundtrip demo_layout demo_leaf demo_node demo_header zero_page demo_layout_ok demo_leaf_wf demo_node_wf demo_header_wf zero_page_len)
    as [(b & H1 & H2 & _) _]. exists b. split; [exact H1|exact H2].
Defined.

(** Keys so long that four of their entries fill a page, and pages of five. *)
Definition long_key (i : Z) : IndexKey := i :: replicate 1999 0.
Definition long_layout : Layout := mkLayout 2000 16.
Definition five_leaf : LeafPage := mkLeaf ((fun i => (long_key i, mkRid i 0)) <$> [1; 2; 3; 4; 5]) None [2].
Definition five_node : InternalPage := mkInternal [1; 2; 3; 4; 5; 6] (long_key <$> [1; 2; 3; 4; 5]).

Lemma long_layout_ok : layout_ok long_layout.
Proof. by apply (build_layout_ok 2000 16). Qed.

Lemma long_ascending : ascending (long_key <$> [1; 2; 3; 4; 5]).
Proof. repeat constructor. Qed.

Lemma five_leaf_wf : leaf_wf long_layout five_leaf.
Proof.
  split; cbn [five_leaf l_entries l_next l_tombstones].
  - exact long_ascending.
  - repeat constructor; vm_compute; congruence.
  - repeat constructor. by intros ?%not_elem_of_nil.
  - repeat constructor; vm_compute; congruence.
  - vm_compute. congruence.
  - repeat constructor; vm_compute; congruence.
  - done.
  - vm_compute. congruence.
Qed.

Lemma five_node_wf : internal_wf long_layout five_node.
Proof.
  split; cbn [five_node i_children i_keys].
  - done.
  - exact long_ascending.
  - repeat constructor; vm_compute; congruence.
  - repeat constructor; vm_compute; congruence.
Qed.

Lemma splits_fit_witness : exists l r sep, @LeafPage.split_into long_layout unit five_leaf 9 = Ok (l, r, sep) /\
  LeafPage.is_overfull long_layout l = false /\ LeafPage.is_overfull long_layout r = false.
Proof.
  destruct (splits_fit long_layout five_leaf five_node 9 long_layout_ok) as [(l & r & sep & Hs & H) _];
    [by vm_compute|apply five_leaf_wf|by vm_compute|by vm_compute|apply five_node_wf|by vm_compute|by vm_compute|].
  exists l, r, sep. split; [done|]. exact (hv_fit _ _ _ _ _ _ H).
Defined.

Lemma partition_point_terminates_witness :
  exists i, @partition_point unit 5 (fun j => Ok (Z.odd j)) = Ok i /\ (0 < i -> Z.odd (i - 1) = true) /\ (i < 5 -> Z.odd i = false).
Proof.
  destruct (partition_point_terminates (E := unit) 5 Z.odd) as (i & H & _ & H1 & H2 & _); [lia|]. by exists i.
Defined.
