(* ===== verification/BPlusTree.v ===== *)
(** * B+ trees

    Models [src/src/index/b_plus_tree.rs], [src/src/index/context.rs] and the errors of
    [src/src/index/mod.rs]: creating and opening a tree, searching, inserting with splits,
    removing with rebalancing, and scanning the leaf chain. The tree runs on the buffer pool
    interface [PagePool]; a latched page is its id and the bytes its guard shows, and writing
    through a guard puts the bytes back. One operation runs at a time. Log messages and
    [print_tree] are left out.

    A walk from a page to a child has no bound in the code; [fuel] bounds how many pages it
    visits, and running out of it is a panic. *)

From Stdlib Require Import ZArith Lia String.
From stdpp Require Import base list numbers option gmap.
From S2P Require Import Prelude Bytes Ids Buf Str TableHeap Values Slotted BPlusPage PageView.

Local Open Scope Z_scope.

Import PageCodec.

Inductive IndexError (BE : Type) : Type :=
| IInsert (e : InsertError)
| IRemove (e : RemoveError)
| IMaxKeyLength (expected actual : Z)
| IKeyTooLong (max actual : Z)
| IUnsupportedKeyLength (n : Z)
| IBpm (e : BE)
| IPage (e : PageCodecError)
| IStructure (what : string)
| ICatalog (e : CatalogError).
Arguments IInsert {BE}. Arguments IRemove {BE}. Arguments IMaxKeyLength {BE}. Arguments IKeyTooLong {BE}.
Arguments IUnsupportedKeyLength {BE}. Arguments IBpm {BE}. Arguments IPage {BE}. Arguments IStructure {BE}.
Arguments ICatalog {BE}.

(** A latched page: [PageRef] and [PageMut]. *)
Record PageMut : Type := mkGuard { g_id : PageId; g_data : bytes }.

(** [TreeContext]; the back of [write_set] comes first. *)
Record TreeContext : Type := mkContext {
  c_header : option PageMut;
  c_root : PageId;
  c_write_set : list PageMut;
}.

Definition descend_into (ctx : TreeContext) (child : PageMut) (child_is_safe : bool) : TreeContext :=
  if child_is_safe then mkContext None (c_root ctx) [child]
  else mkContext (c_header ctx) (c_root ctx) (child :: c_write_set ctx).

Inductive Rebalance : Type := | Redistributed | Merged | Kept.

Record Split : Type := mkSplit { sp_left : PageId; sp_separator : IndexKey; sp_right : PageId }.

Inductive Bound (A : Type) : Type := | Included (a : A) | Excluded (a : A) | Unbounded.
Arguments Included {A}. Arguments Excluded {A}. Arguments Unbounded {A}.

Record BPlusTree : Type := mkTree { header_page_id : PageId; layout : Layout }.

(** [BPlusTreeIter] *)
Record BPlusTreeIter : Type := mkTreeIter {
  it_leaf : option bytes;
  it_seen : gset PageId;
  it_slot : Z;
  it_upper : Bound IndexKey;
}.

(** [LeafPagesIter] *)
Record LeafPagesIter : Type := mkLeafPages {
  lp_next : option PageId;
  lp_seen : gset PageId;
  lp_finished : bool;
}.

Definition LATCH_NOT_HELD {BE} : IndexError BE :=
  IStructure "a page latch needed for restructuring was released during descent".
Definition HEADER_LATCH_RELEASED {BE} : IndexError BE :=
  IStructure "the root changed after the header latch was released".
Definition EMPTY_SIBLING {BE} : IndexError BE :=
  IStructure "sibling chosen to lend an entry has none to give".
Definition SPLIT_ABOVE_LATCHED_PATH {BE} : IndexError BE :=
  IStructure "a split reached the highest latched page, which is not the root".
Definition NO_CHILD_FOR_KEY {BE} : IndexError BE :=
  IStructure "internal page has no child to descend into for the key".
Definition ROOT_WITHOUT_FIRST_LEAF {BE} : IndexError BE :=
  IStructure "the header names a root but no first leaf".
Definition LEAF_CHAIN_CYCLE {BE} : IndexError BE := IPage (Malformed "leaf chain contains a cycle").

Module BPlusTree.

Section pool.
Context {P BE : Type} `{Pool : PagePool P BE}.

Abbreviation ierr := (IndexError BE).

Definition read_page (pid : PageId) : M P ierr PageMut := fun p =>
  match fetch pid p with
  | (Ok b, p) => (Ok (mkGuard pid b), p)
  | (Err e, p) => (Err (IBpm e), p)
  | (Panic, p) => (Panic, p)
  end.
Definition write_page (pid : PageId) : M P ierr PageMut := read_page pid.

(** The bytes written through a guard. *)
Definition store (g : PageMut) (b : bytes) : M P ierr PageMut := fun p =>
  (Ok (mkGuard (g_id g) b), put_page (g_id g) b p).

Definition allocate_page : M P ierr PageMut := fun p =>
  match new_page p with
  | (Ok (pid, b), p) => (Ok (mkGuard pid b), p)
  | (Err e, p) => (Err (IBpm e), p)
  | (Panic, p) => (Panic, p)
  end.

(** [r?] of a page codec. *)
Definition coded {A} (r : outcome PageCodecError A) : M P ierr A := liftc (map_err IPage r).

(** Code on decoded pages that has no error to return. *)
Definition pure {A} (r : outcome ierr A) : M P ierr A := liftc r.

Definition layout_for (max_key : Z) : outcome ierr Layout :=
  map_err (fun _ => IUnsupportedKeyLength max_key) (Layout.new max_key).

Definition with_layout (l : Layout) : M P ierr BPlusTree :=
  _ ← pure (if max_key_len l <=? u32_max then Ok tt else Err (IUnsupportedKeyLength u32_max));
  page ← allocate_page;
  b ← coded (HeaderPageView.init (g_data page) (max_key_len l));
  _ ← store page b;
  mret (mkTree (g_id page) l).

Definition new (max_key : Z) : M P ierr BPlusTree :=
  l ← pure (layout_for max_key);
  with_layout l.

(** ** Reading *)

Section tree.
Context (tree : BPlusTree).

Definition check_key_len (key : IndexKey) : outcome ierr unit :=
  if len key <=? max_key_len (layout tree) then Ok tt
  else Err (IKeyTooLong (max_key_len (layout tree)) (len key)).

Definition header_from_bytes (b : bytes) : outcome ierr HeaderPage :=
  _ ← map_err IPage (HeaderPageView.new b);
  actual ← HeaderPageView.max_key_len b;
  if negb (actual =? max_key_len (layout tree))
  then Err (IMaxKeyLength (max_key_len (layout tree)) actual)
  else
    root ← map_err IPage (HeaderPageView.root_page_id b);
    first ← map_err IPage (HeaderPageView.first_leaf_id b);
    k ← HeaderPageView.max_key_len b;
    Ok (mkHeader root first k).

Definition read_header : M P ierr HeaderPage :=
  page ← read_page (header_page_id tree);
  pure (header_from_bytes (g_data page)).

Definition store_header (page : PageMut) (h : HeaderPage) : M P ierr PageMut :=
  _ ← coded (HeaderPageView.new (g_data page));
  b ← pure (HeaderPageView.set_root_page_id (g_data page) (root_page_id h));
  b ← pure (HeaderPageView.set_first_leaf_id b (first_leaf_id h));
  store page b.

Definition child_for_key (b : bytes) (key : IndexKey) : outcome ierr (option PageId) :=
  k ← map_err IPage (peek_common_header b);
  if k =? KIND_LEAF then Ok None
  else
    _ ← map_err IPage (InternalPageView.new b);
    c ← map_err IPage (InternalPageView.child_for b key);
    c ← ok_or c NO_CHILD_FOR_KEY;
    Ok (Some c).

Definition get_root_page_from_header : M P ierr (option PageMut) :=
  current ← read_page (header_page_id tree);
  header ← pure (header_from_bytes (g_data current));
  match root_page_id header with
  | None => mret None
  | Some root => root ← read_page root; mret (Some root)
  end.

(** The loop of [find_leaf]. *)
Fixpoint find_leaf_loop (fuel : nat) (current : PageMut) (key : IndexKey) : M P ierr PageMut :=
  match fuel with
  | O => liftc Panic
  | S fuel =>
      c ← pure (child_for_key (g_data current) key);
      match c with
      | None => mret current
      | Some c => child ← read_page c; find_leaf_loop fuel child key
      end
  end.

Definition find_leaf (fuel : nat) (key : IndexKey) : M P ierr (option PageMut) :=
  root ← get_root_page_from_header;
  match root with
  | None => mret None
  | Some root => leaf ← find_leaf_loop fuel root key; mret (Some leaf)
  end.

Definition search (fuel : nat) (key : IndexKey) : M P ierr (option RecordId) :=
  if max_key_len (layout tree) <? len key then mret None
  else
    page ← find_leaf fuel key;
    match page with
    | None => mret None
    | Some page =>
        _ ← coded (LeafPageView.new (layout tree) (g_data page));
        coded (LeafPageView.get (layout tree) (g_data page) key)
    end.

(** ** Inserting *)

Definition insert_in_place (leaf_page : PageMut) (key : IndexKey) (rid : RecordId) : M P ierr bool :=
  _ ← coded (LeafPageView.new (layout tree) (g_data leaf_page));
  match LeafPageView.insert (layout tree) (g_data leaf_page) key rid with
  | Ok b => _ ← store leaf_page b; mret true
  | Err LDuplicateKey => pure (Err (IInsert DuplicateKey))
  | Err LFull => mret false
  | Panic => pure Panic
  end.

Definition relatch_child_for_write (child : PageMut) : M P ierr PageMut := write_page (g_id child).

Fixpoint latch_leaf_loop (fuel : nat) (current : PageMut) (key : IndexKey) : M P ierr (option PageMut) :=
  match fuel with
  | O => liftc Panic
  | S fuel =>
      c ← pure (child_for_key (g_data current) key);
      match c with
      | None => mret None
      | Some c =>
          child ← read_page c;
          k ← coded (kind (g_data child));
          match k with
          | KLeaf => g ← relatch_child_for_write child; mret (Some g)
          | KInternal => latch_leaf_loop fuel child key
          end
      end
  end.

Definition latch_leaf_for_write (fuel : nat) (key : IndexKey) : M P ierr (option PageMut) :=
  root ← get_root_page_from_header;
  match root with
  | None => mret None
  | Some root => latch_leaf_loop fuel root key
  end.

Definition safe_for_insert (k : NodeKind) (b : bytes) : outcome ierr bool :=
  s ← NodeView.may_split_on_insert (layout tree) k b; Ok (negb s).
Definition safe_for_remove (k : NodeKind) (b : bytes) : outcome ierr bool :=
  s ← NodeView.may_underflow_on_remove (layout tree) k b; Ok (negb s).

Fixpoint latch_path_loop (fuel : nat) (ctx : TreeContext) (key : IndexKey)
    (is_safe : NodeKind -> bytes -> outcome ierr bool) : M P ierr TreeContext :=
  match fuel with
  | O => liftc Panic
  | S fuel =>
      current ← pure (ok_or (head (c_write_set ctx)) LATCH_NOT_HELD);
      c ← pure (child_for_key (g_data current) key);
      match c with
      | None => mret ctx
      | Some c =>
          child ← write_page c;
          k ← coded (NodeView.new (layout tree) (g_data child));
          child_is_safe ← pure (is_safe k (g_data child));
          latch_path_loop fuel (descend_into ctx child child_is_safe) key is_safe
      end
  end.

Definition latch_path_to_leaf (fuel : nat) (ctx : TreeContext) (key : IndexKey)
    (is_safe : NodeKind -> bytes -> outcome ierr bool) : M P ierr TreeContext :=
  root ← write_page (c_root ctx);
  latch_path_loop fuel (mkContext (c_header ctx) (c_root ctx) (root :: c_write_set ctx)) key is_safe.

(** [ctx.write_set.pop_back().ok_or(LATCH_NOT_HELD)?] *)
Definition pop_back (ws : list PageMut) : outcome ierr (PageMut * list PageMut) :=
  match ws with
  | g :: ws => Ok (g, ws)
  | [] => Err LATCH_NOT_HELD
  end.

Definition encode_leaf (page : PageMut) (leaf : LeafPage) : M P ierr PageMut :=
  b ← coded (LeafPage.encode (layout tree) leaf (g_data page));
  store page b.
Definition encode_internal (page : PageMut) (node : InternalPage) : M P ierr PageMut :=
  b ← coded (InternalPage.encode (layout tree) node (g_data page));
  store page b.

(** The loop that takes a split up the latched path; what it leaves is for a new root. *)
Fixpoint split_loop (ws : list PageMut) (split : Split) : M P ierr (option Split) :=
  match ws with
  | [] => mret (Some split)
  | parent_page :: ws =>
      parent ← coded (InternalPage.decode (layout tree) (g_data parent_page));
      parent ← pure (InternalPage.insert_separator (layout tree) parent (sp_separator split) (sp_right split));
      if negb (InternalPage.is_overfull parent) then
        _ ← encode_internal parent_page parent;
        mret None
      else
        right_page ← allocate_page;
        '(parent, right_node, separator) ← pure (InternalPage.split_into (layout tree) parent);
        _ ← encode_internal parent_page parent;
        _ ← encode_internal right_page right_node;
        split_loop ws (mkSplit (g_id parent_page) separator (g_id right_page))
  end.

Definition grow_new_root (ctx : TreeContext) (header : HeaderPage) (split : Split) : M P ierr unit :=
  if negb (sp_left split =? c_root ctx) then pure (Err SPLIT_ABOVE_LATCHED_PATH)
  else
    header_page ← pure (ok_or (c_header ctx) HEADER_LATCH_RELEASED);
    root_page ← allocate_page;
    root ← pure (InternalPage.new_root (layout tree) (sp_left split) (sp_separator split) (sp_right split));
    _ ← encode_internal root_page root;
    _ ← store_header header_page (mkHeader (Some (g_id root_page)) (first_leaf_id header) (h_max_key_len header));
    mret tt.

(** [leaf.insert(key, record_id).map_err(..)] *)
Definition insert_into (leaf : LeafPage) (key : IndexKey) (rid : RecordId) : outcome ierr LeafPage :=
  map_err (fun _ => IInsert DuplicateKey) (LeafPage.insert (layout tree) leaf key rid).

Definition insert_pessimistic (fuel : nat) (key : IndexKey) (rid : RecordId) : M P ierr unit :=
  header_page ← write_page (header_page_id tree);
  header ← pure (header_from_bytes (g_data header_page));
  match root_page_id header with
  | None =>
      leaf_page ← allocate_page;
      leaf ← pure (insert_into LeafPage.new key rid);
      _ ← encode_leaf leaf_page leaf;
      _ ← store_header header_page (mkHeader (Some (g_id leaf_page)) (Some (g_id leaf_page)) (h_max_key_len header));
      mret tt
  | Some root =>
      ctx ← latch_path_to_leaf fuel (mkContext (Some header_page) root []) key safe_for_insert;
      '(leaf_page, ws) ← pure (pop_back (c_write_set ctx));
      done ← insert_in_place leaf_page key rid;
      if (done : bool) then mret tt
      else
        leaf ← coded (LeafPage.decode (layout tree) (g_data leaf_page));
        leaf ← pure (insert_into leaf key rid);
        if negb (LeafPage.is_overfull (layout tree) leaf) then
          _ ← encode_leaf leaf_page leaf;
          mret tt
        else
          right_page ← allocate_page;
          '(leaf, right_leaf, separator) ← pure (LeafPage.split_into (layout tree) leaf (g_id right_page));
          _ ← encode_leaf leaf_page leaf;
          _ ← encode_leaf right_page right_leaf;
          rest ← split_loop ws (mkSplit (g_id leaf_page) separator (g_id right_page));
          match rest with
          | None => mret tt
          | Some split => grow_new_root ctx header split
          end
  end.

(** [Index::insert] *)
Definition insert (fuel : nat) (key : IndexKey) (rid : RecordId) : M P ierr unit :=
  _ ← pure (check_key_len key);
  leaf ← latch_leaf_for_write fuel key;
  done ← (match leaf with
          | Some leaf_page => insert_in_place leaf_page key rid
          | None => mret false
          end);
  if (done : bool) then mret tt else insert_pessimistic fuel key rid.

(** ** Removing *)

Definition lending_edge (sibling_is_right : bool) : Edge := if sibling_is_right then First else Last.

(** Whether the removal was made, and the header after it. *)
Definition remove_in_place_if_final (ctx : TreeContext) (leaf_page : PageMut) (key : IndexKey) : M P ierr bool :=
  let leaf_is_root := g_id leaf_page =? c_root ctx in
  _ ← coded (LeafPageView.new (layout tree) (g_data leaf_page));
  if negb leaf_is_root then
    unsafe ← pure (LeafPageView.may_underflow_on_remove (layout tree) (g_data leaf_page));
    if (unsafe : bool) then mret false
    else
      b ← pure (map_err IRemove (LeafPageView.remove_key (layout tree) (g_data leaf_page) key));
      _ ← store leaf_page b;
      mret true
  else
    header_page ← pure (ok_or (c_header ctx) HEADER_LATCH_RELEASED);
    _ ← coded (HeaderPageView.new (g_data header_page));
    b ← pure (map_err IRemove (LeafPageView.remove_key (layout tree) (g_data leaf_page) key));
    _ ← store leaf_page b;
    n ← pure (LeafPageView.size b);
    if n =? 0 then
      h ← pure (HeaderPageView.set_root_page_id (g_data header_page) None);
      h ← pure (HeaderPageView.set_first_leaf_id h None);
      _ ← store header_page h;
      mret true
    else mret true.

Definition sibling_of (parent : InternalPage) (child_idx : nat) : option (nat * PageId) :=
  let sibling_idx := match child_idx with O => 1%nat | S i => i end in
  sibling_id ← InternalPage.get_child parent sibling_idx;
  Some (sibling_idx, sibling_id).

(** The loop that borrows entries; each turn takes one from the sibling. *)
Fixpoint borrow_loop (fuel : nat) (sibling_is_right : bool) (leaf sibling : LeafPage) : outcome ierr (LeafPage * LeafPage) :=
  match fuel with
  | O => Ok (leaf, sibling)
  | S fuel =>
      if LeafPage.is_underfull (layout tree) leaf && LeafPage.can_lend (layout tree) sibling (lending_edge sibling_is_right) then
        '(borrowed, sibling) ←
          (if sibling_is_right then LeafPage.pop_first (layout tree) sibling else LeafPage.pop_last (layout tree) sibling);
        '(k, rid, tombstoned) ← ok_or borrowed EMPTY_SIBLING;
        if tombstoned && LeafPage.tombstones_full (layout tree) leaf
        then borrow_loop fuel sibling_is_right leaf sibling
        else
          leaf ← (if sibling_is_right then LeafPage.push_back (layout tree) leaf k rid tombstoned
                  else LeafPage.push_front (layout tree) leaf k rid tombstoned);
          borrow_loop fuel sibling_is_right leaf sibling
      else Ok (leaf, sibling)
  end.

(** What rebalancing did, and the parent after it. *)
Definition rebalance_leaf (key : IndexKey) (leaf : LeafPage) (leaf_page : PageMut) (parent : InternalPage)
    : M P ierr (Rebalance * InternalPage) :=
  let leaf_idx := InternalPage.find_child_index parent key in
  match sibling_of parent leaf_idx with
  | None =>
      _ ← encode_leaf leaf_page leaf;
      mret (Kept, parent)
  | Some (sibling_idx, sibling_id) =>
      sibling_page ← write_page sibling_id;
      sibling ← coded (LeafPage.decode (layout tree) (g_data sibling_page));
      let sibling_is_right := (leaf_idx <? sibling_idx)%nat in
      let leaf_before_borrowing := leaf in
      '(leaf, sibling) ← pure (borrow_loop (S (length (l_entries sibling))) sibling_is_right leaf sibling);
      if LeafPage.is_underfull (layout tree) leaf then
        (if sibling_is_right then
           leaf ← pure (LeafPage.absorb_right (layout tree) leaf sibling);
           '(_, _, parent) ← pure (InternalPage.remove_separator (layout tree) parent leaf_idx);
           _ ← encode_leaf leaf_page leaf;
           mret (Merged, parent)
         else
           sibling ← pure (LeafPage.absorb_right (layout tree) sibling leaf);
           '(_, _, parent) ← pure (InternalPage.remove_separator (layout tree) parent sibling_idx);
           _ ← encode_leaf sibling_page sibling;
           mret (Merged, parent))
      else
        '(separator_idx, new_separator) ← pure
          (if sibling_is_right then k ← ok_or (LeafPage.first_key sibling) EMPTY_SIBLING; Ok (leaf_idx, k)
           else k ← ok_or (LeafPage.first_key leaf) EMPTY_SIBLING; Ok (sibling_idx, k));
        fits ← pure (InternalPage.fits_replacing parent separator_idx new_separator);
        if negb fits then
          _ ← encode_leaf leaf_page leaf_before_borrowing;
          mret (Kept, parent)
        else
          '(_, parent) ← pure (InternalPage.replace_key (layout tree) parent separator_idx new_separator);
          _ ← encode_leaf sibling_page sibling;
          _ ← encode_leaf leaf_page leaf;
          mret (Redistributed, parent)
  end.

Definition rebalance_internal (key : IndexKey) (node : InternalPage) (node_page : PageMut) (parent : InternalPage)
    : M P ierr (Rebalance * InternalPage) :=
  let node_idx := InternalPage.find_child_index parent key in
  match sibling_of parent node_idx with
  | None => mret (Kept, parent)
  | Some (sibling_idx, sibling_id) =>
      sibling_page ← write_page sibling_id;
      sibling ← coded (InternalPage.decode (layout tree) (g_data sibling_page));
      let sibling_is_right := (node_idx <? sibling_idx)%nat in
      if negb (InternalPage.can_lend (layout tree) sibling (lending_edge sibling_is_right)) then
        (if sibling_is_right then
           separator ← pure (expect (i_keys parent !! node_idx));
           node ← pure (InternalPage.absorb_right (layout tree) node separator sibling);
           '(_, _, parent) ← pure (InternalPage.remove_separator (layout tree) parent node_idx);
           _ ← encode_internal node_page node;
           mret (Merged, parent)
         else
           separator ← pure (expect (i_keys parent !! sibling_idx));
           sibling ← pure (InternalPage.absorb_right (layout tree) sibling separator node);
           '(_, _, parent) ← pure (InternalPage.remove_separator (layout tree) parent sibling_idx);
           _ ← encode_internal sibling_page sibling;
           mret (Merged, parent))
      else
        let '(separator_idx, rotated) :=
          (if sibling_is_right then (node_idx, head (i_keys sibling)) else (sibling_idx, list.last (i_keys sibling))) in
        rotated ← pure (ok_or rotated EMPTY_SIBLING);
        fits ← pure (InternalPage.fits_replacing parent separator_idx rotated);
        if negb fits then mret (Kept, parent)
        else
          '(sibling, parent, node) ← pure
            (if sibling_is_right then
               '(rotated_key, rotated_child, sibling) ← InternalPage.pop_first_child_and_key (layout tree) sibling;
               '(old_separator, parent) ← InternalPage.replace_key (layout tree) parent node_idx rotated_key;
               node ← InternalPage.append_key_and_child (layout tree) node old_separator rotated_child;
               Ok (sibling, parent, node)
             else
               '(rotated_key, rotated_child, sibling) ← InternalPage.pop_last_child_and_key (layout tree) sibling;
               '(old_separator, parent) ← InternalPage.replace_key (layout tree) parent sibling_idx rotated_key;
               node ← InternalPage.prepend_child_and_key (layout tree) node old_separator rotated_child;
               Ok (sibling, parent, node));
          _ ← encode_internal sibling_page sibling;
          _ ← encode_internal node_page node;
          mret (Redistributed, parent)
  end.

(** The loop that takes an underfull page up the latched path. *)
Fixpoint rebalance_loop (ctx : TreeContext) (header : HeaderPage) (key : IndexKey) (ws : list PageMut)
    (parent_page : PageMut) (parent : InternalPage) (outcome : Rebalance) : M P ierr unit :=
  match outcome with
  | Kept => mret tt
  | _ =>
      if g_id parent_page =? c_root ctx then
        match i_children parent with
        | [only_child] =>
            header_page ← pure (ok_or (c_header ctx) HEADER_LATCH_RELEASED);
            _ ← store_header header_page (mkHeader (Some only_child) (first_leaf_id header) (h_max_key_len header));
            mret tt
        | _ => mret tt
        end
      else if negb (InternalPage.is_underfull (layout tree) parent) then mret tt
      else
        match ws with
        | [] => pure (Err LATCH_NOT_HELD)
        | grandparent_page :: ws =>
            grandparent ← coded (InternalPage.decode (layout tree) (g_data grandparent_page));
            '(outcome, grandparent) ← rebalance_internal key parent parent_page grandparent;
            grandparent_page ← encode_internal grandparent_page grandparent;
            rebalance_loop ctx header key ws grandparent_page grandparent outcome
        end
  end.

Definition remove_pessimistic (fuel : nat) (key : IndexKey) : M P ierr unit :=
  header_page ← write_page (header_page_id tree);
  header ← pure (header_from_bytes (g_data header_page));
  match root_page_id header with
  | None => pure (Err (IRemove KeyNotFound))
  | Some root =>
      ctx ← latch_path_to_leaf fuel (mkContext (Some header_page) root []) key safe_for_remove;
      '(leaf_page, ws) ← pure (pop_back (c_write_set ctx));
      final ← remove_in_place_if_final ctx leaf_page key;
      if (final : bool) then mret tt
      else
        leaf ← coded (LeafPage.decode (layout tree) (g_data leaf_page));
        leaf ← pure (map_err IRemove (LeafPage.remove_key (layout tree) leaf key));
        if negb (LeafPage.is_underfull (layout tree) leaf) then
          _ ← encode_leaf leaf_page leaf;
          mret tt
        else
          '(parent_page, ws) ← pure (pop_back ws);
          parent ← coded (InternalPage.decode (layout tree) (g_data parent_page));
          '(outcome, parent) ← rebalance_leaf key leaf leaf_page parent;
          parent_page ← encode_internal parent_page parent;
          rebalance_loop ctx header key ws parent_page parent outcome
  end.

(** [Index::remove] *)
Definition remove (fuel : nat) (key : IndexKey) : M P ierr unit :=
  if max_key_len (layout tree) <? len key then pure (Err (IRemove KeyNotFound))
  else
    leaf ← latch_leaf_for_write fuel key;
    match leaf with
    | None => remove_pessimistic fuel key
    | Some leaf_page =>
        _ ← coded (LeafPageView.new (layout tree) (g_data leaf_page));
        unsafe ← pure (LeafPageView.may_underflow_on_remove (layout tree) (g_data leaf_page));
        if negb unsafe then
          b ← pure (map_err IRemove (LeafPageView.remove_key (layout tree) (g_data leaf_page) key));
          _ ← store leaf_page b;
          mret tt
        else
          exists_ ← pure (LeafPageView.key_exists (layout tree) (g_data leaf_page) key);
          if negb exists_ then pure (Err (IRemove KeyNotFound))
          else remove_pessimistic fuel key
    end.

(** ** Scanning *)

(** [Index::scan]; an iterator over nothing is one without a leaf. *)
Definition scan (fuel : nat) (start_bound end_bound : Bound IndexKey) : M P ierr BPlusTreeIter :=
  let nothing := mkTreeIter None ∅ 0 end_bound in
  header ← read_header;
  match root_page_id header with
  | None => mret nothing
  | Some _ =>
      start_page ←
        (match start_bound with
         | Unbounded =>
             first ← pure (ok_or (first_leaf_id header) ROOT_WITHOUT_FIRST_LEAF);
             page ← read_page first;
             mret (Some page)
         | Excluded key | Included key => find_leaf fuel key
         end);
      match start_page with
      | None => mret nothing
      | Some start_page =>
          _ ← coded (LeafPageView.new (layout tree) (g_data start_page));
          start_slot ← pure
            (match start_bound with
             | Unbounded => Ok 0
             | Excluded key => LeafPageView.upper_bound (layout tree) (g_data start_page) key
             | Included key => LeafPageView.lower_bound (layout tree) (g_data start_page) key
             end);
          mret (mkTreeIter (Some (g_data start_page)) {[g_id start_page]} start_slot end_bound)
      end
  end.

(** The leaf that was copied and the pages seen, or [None] at the end of the chain. *)
Definition load_leaf (seen : gset PageId) (leaf_id : option PageId) : M P ierr (option (bytes * gset PageId)) :=
  match leaf_id with
  | None => mret None
  | Some leaf_id =>
      if bool_decide (leaf_id ∈ seen) then pure (Err LEAF_CHAIN_CYCLE)
      else
        page ← read_page leaf_id;
        _ ← coded (LeafPageView.new (layout tree) (g_data page));
        mret (Some (g_data page, {[leaf_id]} ∪ seen))
  end.

Definition past_upper (upper : Bound IndexKey) (key : IndexKey) : bool :=
  match upper with
  | Included u => negb (key_le key u)
  | Excluded u => negb (key_lt key u)
  | Unbounded => false
  end.

(** One turn of the loop of [next]: the iterator and whether it goes on, ends or yields. *)
Inductive turn : Type := | Continue | Stop | Yield (k : IndexKey) (rid : RecordId).

Definition next_turn (b : bytes) (it : BPlusTreeIter) : M P ierr (turn * BPlusTreeIter) :=
  _ ← coded (LeafPageView.new (layout tree) b);
  n ← pure (LeafPageView.size b);
  if n <=? it_slot it then
    next ← coded (LeafPageView.next_leaf_id b);
    loaded ← load_leaf (it_seen it) next;
    match loaded with
    | Some (b, seen) => mret (Continue, mkTreeIter (Some b) seen 0 (it_upper it))
    | None => mret (Stop, mkTreeIter None (it_seen it) (it_slot it) (it_upper it))
    end
  else
    let i := it_slot it in
    let it := mkTreeIter (it_leaf it) (it_seen it) (i + 1) (it_upper it) in
    dead ← pure (LeafPageView.is_tombstoned (layout tree) b i);
    if (dead : bool) then mret (Continue, it)
    else
      key ← pure (LeafPageView.key (layout tree) b i);
      if past_upper (it_upper it) key
      then mret (Stop, mkTreeIter None (it_seen it) (it_slot it) (it_upper it))
      else
        rid ← coded (LeafPageView.record_id (layout tree) b i);
        mret (Yield key rid, it).

(** [next]: what it returns and the iterator after it, which an error finishes. *)
Fixpoint next (fuel : nat) (it : BPlusTreeIter)
    : P -> outcome unit (option (outcome ierr (IndexKey * RecordId)) * BPlusTreeIter) * P := fun p =>
  match fuel with
  | O => (Panic, p)
  | S fuel =>
      match it_leaf it with
      | None => (Ok (None, it), p)
      | Some b =>
          match next_turn b it p with
          | (Ok (Continue, it), p) => next fuel it p
          | (Ok (Stop, it), p) => (Ok (None, it), p)
          | (Ok (Yield k rid, it), p) => (Ok (Some (Ok (k, rid)), it), p)
          | (Err e, p) => (Ok (Some (Err e), mkTreeIter None (it_seen it) (it_slot it) (it_upper it)), p)
          | (Panic, p) => (Panic, p)
          end
      end
  end.

Definition leaf_pages : M P ierr LeafPagesIter :=
  header ← read_header;
  mret (mkLeafPages (first_leaf_id header) ∅ false).

(** [LeafPagesIter::next]: what it returns and the iterator after it. *)
Definition next_leaf_page (it : LeafPagesIter) (p : P)
    : option (outcome ierr (PageId * LeafPage)) * LeafPagesIter * P :=
  let finished := mkLeafPages (lp_next it) (lp_seen it) true in
  match lp_next it with
  | Some leaf_id =>
      if lp_finished it then (None, finished, p)
      else if bool_decide (leaf_id ∈ lp_seen it) then (Some (Err LEAF_CHAIN_CYCLE), finished, p)
      else
        let seen := {[leaf_id]} ∪ lp_seen it in
        let finished := mkLeafPages (lp_next it) seen true in
        match (page ← read_page leaf_id;
               coded (LeafPage.decode (layout tree) (g_data page))) p with
        | (Ok leaf, p) => (Some (Ok (leaf_id, leaf)), mkLeafPages (l_next leaf) seen false, p)
        | (Err e, p) => (Some (Err e), finished, p)
        | (Panic, p) => (Some Panic, finished, p)
        end
  | None => (None, finished, p)
  end.

End tree.

(** [BPlusTree::open] *)
Definition open (max_key : Z) (header_id : PageId) : M P ierr BPlusTree :=
  l ← pure (layout_for max_key);
  let tree := mkTree header_id l in
  _ ← read_header tree;
  mret tree.

End pool.
End BPlusTree.
