(* ===== verification/BPlusTreeInv.v ===== *)
(** * The shape of a B+ tree

    A subtree stored in pages: its leaves in order, its internal pages, and the bounds of its
    keys; the way down to a page of it and what is beside the way; and that a tree only
    depends on its own pages. *)

From Stdlib Require Import ZArith Lia String Sorted.
From stdpp Require Import base list numbers option gmap.
From S2P Require Import Prelude Bytes Ids Buf Str TableHeap Slotted BPlusPage PageView BPlusKeys PageViewProofs.
From S2P Require Import LeafContents LeafViewProofs PageCodecProofs BPlusSplit InternalOps BPlusTree.

Local Open Scope Z_scope.

(** ** Bounds *)

Definition bound : Type := option IndexKey.

Definition above (lo : bound) (k : IndexKey) : Prop := match lo with Some a => kle a k | None => True end.
Definition below (hi : bound) (k : IndexKey) : Prop := match hi with Some b => klt k b | None => True end.
Definition strictly_above (lo : bound) (k : IndexKey) : Prop := match lo with Some a => klt a k | None => True end.

(** Keys of a subtree, and separators inside it. *)
Definition within (lo hi : bound) (k : IndexKey) : Prop := above lo k /\ below hi k.
Definition inside (lo hi : bound) (k : IndexKey) : Prop := strictly_above lo k /\ below hi k.

Lemma inside_within lo hi k : inside lo hi k -> within lo hi k.
Proof. intros [H1 H2]. split; [|done]. destruct lo; [by apply klt_kle|done]. Qed.

Lemma within_klt a lo k : within lo (Some a) k -> klt k a.
Proof. by intros [_ ?]. Qed.

Lemma below_weaken hi a k : below hi a -> klt k a -> below hi k.
Proof. destruct hi as [b|]; [|done]. cbn. intros H1 H2. by eapply klt_trans. Qed.

Lemma above_weaken lo a k : above lo a -> kle a k -> above lo k.
Proof. destruct lo as [b|]; [|done]. cbn. intros H1 H2. by eapply kle_trans. Qed.

Lemma strictly_above_weaken lo a k : strictly_above lo a -> kle a k -> strictly_above lo k.
Proof. destruct lo as [b|]; [|done]. cbn. intros H1 H2. by eapply klt_kle_trans. Qed.

(** ** Leaves in order *)

Abbreviation leaves := (list (PageId * LeafPage)).

Definition first_id (L : leaves) (e : option PageId) : option PageId :=
  match L with (id, _) :: _ => Some id | [] => e end.

(** Each leaf links to the next, the last to [e]. *)
Fixpoint linked (L : leaves) (e : option PageId) : Prop :=
  match L with
  | [] => True
  | (_, p) :: L => l_next p = first_id L e /\ linked L e
  end.

Lemma first_id_app L1 L2 e : first_id (L1 ++ L2) e = first_id L1 (first_id L2 e).
Proof. by destruct L1 as [|[]]. Qed.

Lemma leaves_linked_app L1 L2 e : linked (L1 ++ L2) e <-> linked L1 (first_id L2 e) /\ linked L2 e.
Proof. induction L1 as [|[id p] L1 IH]; cbn; [tauto|]. rewrite IH, first_id_app. tauto. Qed.

(** ** Subtrees *)

Section tree.
Context (layout : Layout).

Abbreviation node_spec := (PageId -> bound -> bound -> leaves -> list PageId -> Prop).

(** The children [cs] of a page from [lo] up to [hi], the keys [ks] between them. *)
Inductive chain (R : node_spec) : bound -> bound -> list PageId -> list IndexKey -> leaves -> list PageId -> Prop :=
| chain_one c lo hi L I : R c lo hi L I -> chain R lo hi [c] [] L I
| chain_cons c cs k ks lo hi L1 I1 L2 I2 : R c lo (Some k) L1 I1 -> chain R (Some k) hi cs ks L2 I2 ->
    chain R lo hi (c :: cs) (k :: ks) (L1 ++ L2) (I1 ++ I2).

Record leaf_at (pages : gmap PageId bytes) (pid : PageId) (lo hi : bound) (p : LeafPage) : Prop := {
  la_bytes : exists b, pages !! pid = Some b /\ leaf_is layout b p;
  la_wf : leaf_wf layout p;
  la_keys : Forall (within lo hi) (LeafPage.keys p);
}.

Record node_at (pages : gmap PageId bytes) (pid : PageId) (lo hi : bound) (p : InternalPage) (b : bytes) : Prop := {
  na_page : pages !! pid = Some b;
  na_bytes : internal_is b p;
  na_wf : internal_wf layout p;
  na_keys : Forall (inside lo hi) (i_keys p);
}.

(** The subtree of height [h] at page [pid]: its leaves and its internal pages. *)
Fixpoint tree_at (h : nat) (pages : gmap PageId bytes) (pid : PageId) (lo hi : bound) (L : leaves) (I : list PageId) : Prop :=
  match h with
  | O => exists p, leaf_at pages pid lo hi p /\ L = [(pid, p)] /\ I = []
  | S h => exists p b I', node_at pages pid lo hi p b /\ I = pid :: I' /\
      chain (tree_at h pages) lo hi (i_children p) (i_keys p) L I'
  end.

(** ** Chains *)

(** The children before and after one of them. *)
Inductive before_child (R : node_spec) : bound -> list PageId -> list IndexKey -> bound -> leaves -> list PageId -> Prop :=
| before_nil lo : before_child R lo [] [] lo [] []
| before_cons c cs k ks lo lo' L1 I1 L2 I2 : R c lo (Some k) L1 I1 -> before_child R (Some k) cs ks lo' L2 I2 ->
    before_child R lo (c :: cs) (k :: ks) lo' (L1 ++ L2) (I1 ++ I2).

Inductive after_child (R : node_spec) : bound -> bound -> list PageId -> list IndexKey -> leaves -> list PageId -> Prop :=
| after_nil hi : after_child R hi hi [] [] [] []
| after_cons k hi cs ks L I : chain R (Some k) hi cs ks L I -> after_child R (Some k) hi cs (k :: ks) L I.

Lemma children_length R lo hi cs ks L I : chain R lo hi cs ks L I -> length cs = S (length ks).
Proof using. induction 1; cbn; lia. Qed.

Lemma before_length R lo cs ks lo' L I : before_child R lo cs ks lo' L I -> length cs = length ks.
Proof using. induction 1; cbn; lia. Qed.

Lemma after_length R hi hi' cs ks L I : after_child R hi hi' cs ks L I -> length cs = length ks.
Proof using. destruct 1 as [|k hi cs ks L I H]; [done|]. apply children_length in H. cbn. lia. Qed.

(** The bounds of child [i]. *)
Definition low_of (lo : bound) (ks : list IndexKey) : bound := match list.last ks with Some k => Some k | None => lo end.
Definition high_of (hi : bound) (ks : list IndexKey) : bound := match ks with k :: _ => Some k | [] => hi end.

Lemma before_low R lo cs ks lo' L I : before_child R lo cs ks lo' L I -> lo' = low_of lo ks.
Proof using.
  induction 1 as [|c cs k ks lo lo' L1 I1 L2 I2 _ _ IH]; [done|]. rewrite IH. unfold low_of. destruct ks as [|k' ks]; [done|].
  rewrite (last_cons k (k' :: ks)). destruct (list.last (k' :: ks)) eqn:E; [done|]. by apply last_None in E.
Qed.

Lemma after_high R hi hi' cs ks L I : after_child R hi hi' cs ks L I -> hi = high_of hi' ks.
Proof using. by destruct 1. Qed.

Lemma chain_focus R lo hi cs ks L I (i : nat) : chain R lo hi cs ks L I -> (i <= length ks)%nat ->
  exists cs1 c cs2 ks1 ks2 lo' hi' L1 Lc L2 I1 Ic I2, cs = cs1 ++ c :: cs2 /\ ks = ks1 ++ ks2 /\ length ks1 = i /\
    L = L1 ++ Lc ++ L2 /\ I = I1 ++ Ic ++ I2 /\
    before_child R lo cs1 ks1 lo' L1 I1 /\ R c lo' hi' Lc Ic /\ after_child R hi' hi cs2 ks2 L2 I2.
Proof using.
  intros Hc. revert i. induction Hc as [c lo hi L I HR|c cs k ks lo hi L1 I1 L2 I2 HR Hc IH]; intros i Hi.
  - exists [], c, [], [], [], lo, hi, [], L, [], [], I, []. cbn in *. rewrite !app_nil_r. split_and!; try done; [lia|constructor|constructor].
  - destruct i as [|i].
    + exists [], c, cs, [], (k :: ks), lo, (Some k), [], L1, L2, [], I1, I2. split_and!; try done; by constructor.
    + cbn in Hi. destruct (IH i ltac:(lia)) as (cs1 & c' & cs2 & ks1 & ks2 & lo' & hi' & La & Lc & Lb & Ia & Ic & Ib & -> & -> & Hl & -> & -> & H1 & H2 & H3).
      exists (c :: cs1), c', cs2, (k :: ks1), ks2, lo', hi', (L1 ++ La), Lc, Lb, (I1 ++ Ia), Ic, Ib.
      rewrite <- !app_assoc. split_and!; try done; [cbn; lia|by constructor].
Qed.

Lemma chain_after R lo hi' hi cs1 ks1 L1 I1 cs2 ks2 L2 I2 : chain R lo hi' cs1 ks1 L1 I1 -> after_child R hi' hi cs2 ks2 L2 I2 ->
  chain R lo hi (cs1 ++ cs2) (ks1 ++ ks2) (L1 ++ L2) (I1 ++ I2).
Proof using.
  intros Hc Ha. induction Hc as [c lo hi' L I HR|c cs k ks lo hi' La Ia Lb Ib HR Hc IH].
  - destruct Ha as [hi|k hi cs ks L' I' Ha]; cbn; [rewrite !app_nil_r; by constructor|]. by constructor.
  - cbn. rewrite <- !app_assoc. constructor; [done|]. by apply IH.
Qed.

Lemma before_chain R lo lo' hi cs1 ks1 L1 I1 cs2 ks2 L2 I2 : before_child R lo cs1 ks1 lo' L1 I1 -> chain R lo' hi cs2 ks2 L2 I2 ->
  chain R lo hi (cs1 ++ cs2) (ks1 ++ ks2) (L1 ++ L2) (I1 ++ I2).
Proof using. intros Hb. revert L2 I2. induction Hb; intros L2' I2' Hc; cbn; [done|]. rewrite <- !app_assoc. constructor; [done|]. by apply IHHb. Qed.

(** Children [cs] put in the place of one of them. *)
Lemma chain_plug R lo lo' hi' hi cs1 ks1 L1 I1 cs ks L I cs2 ks2 L2 I2 :
  before_child R lo cs1 ks1 lo' L1 I1 -> chain R lo' hi' cs ks L I -> after_child R hi' hi cs2 ks2 L2 I2 ->
  chain R lo hi (cs1 ++ cs ++ cs2) (ks1 ++ ks ++ ks2) (L1 ++ L ++ L2) (I1 ++ I ++ I2).
Proof using. intros H1 H2 H3. eapply before_chain; [done|]. by eapply chain_after. Qed.

(** A chain cut at one of its keys, and two chains that meet at a key. *)
Lemma chain_cut R lo hi cs1 cs2 ks1 k ks2 L I : chain R lo hi (cs1 ++ cs2) (ks1 ++ k :: ks2) L I -> length cs1 = S (length ks1) ->
  exists L1 L2 I1 I2, L = L1 ++ L2 /\ I = I1 ++ I2 /\ chain R lo (Some k) cs1 ks1 L1 I1 /\ chain R (Some k) hi cs2 ks2 L2 I2.
Proof using.
  revert cs1 lo L I. induction ks1 as [|k1 ks1 IH]; intros cs1 lo L I Hc Hl; destruct cs1 as [|c cs1]; try done; cbn in Hc; inversion Hc; subst.
  - destruct cs1; [|done]. exists L1, L2, I1, I2. split_and!; try done. by constructor.
  - cbn in Hl. destruct (IH cs1 (Some k1) L2 I2) as (La & Lb & Ia & Ib & -> & -> & H1 & H2); [done|lia|].
    exists (L1 ++ La), Lb, (I1 ++ Ia), Ib. rewrite !app_assoc. split_and!; try done. by constructor.
Qed.

Lemma chain_join R lo k hi cs1 ks1 L1 I1 cs2 ks2 L2 I2 : chain R lo (Some k) cs1 ks1 L1 I1 -> chain R (Some k) hi cs2 ks2 L2 I2 ->
  chain R lo hi (cs1 ++ cs2) (ks1 ++ k :: ks2) (L1 ++ L2) (I1 ++ I2).
Proof using. intros H1 H2. eapply chain_after; [done|]. by constructor. Qed.

Lemma chain_impl (R R' : node_spec) lo hi cs ks L I : (forall c lo hi L' I', L' ⊆ L -> I' ⊆ I -> R c lo hi L' I' -> R' c lo hi L' I') ->
  chain R lo hi cs ks L I -> chain R' lo hi cs ks L I.
Proof using.
  intros Hi Hc. induction Hc as [c lo hi L I HR|c cs k ks lo hi L1 I1 L2 I2 HR Hc IH].
  - constructor. by apply Hi.
  - constructor; [apply Hi; [by intros x ?; apply elem_of_app; left|by intros x ?; apply elem_of_app; left|done]|].
    apply IH. intros c' lo' hi' L' I' HL HI. apply Hi; [intros x ?; apply elem_of_app; right; auto|intros x ?; apply elem_of_app; right; auto].
Qed.

(** ** A tree depends on its own pages *)

Definition same_at (pages pages' : gmap PageId bytes) (ids : list PageId) : Prop := forall q, q ∈ ids -> pages' !! q = pages !! q.

Lemma same_at_sub pages pages' ids ids' : same_at pages pages' ids -> ids' ⊆ ids -> same_at pages pages' ids'.
Proof using. intros H Hs q Hq. apply H. by apply Hs. Qed.

Lemma tree_frame h : forall pages pages' pid lo hi L I, tree_at h pages pid lo hi L I -> same_at pages pages' L.*1 -> same_at pages pages' I ->
  tree_at h pages' pid lo hi L I.
Proof using.
  induction h as [|h IH]; intros pages pages' pid lo hi L I Ht HL HI; cbn in *.
  - destruct Ht as (p & [(b & Hp & Hb) Hw Hk] & -> & ->). exists p. split_and!; try done. split; [|done|done]. exists b. split; [|done].
    rewrite <- Hp. apply HL. by left.
  - destruct Ht as (p & b & I' & [Hp Hb Hw Hk] & -> & Hc). exists p, b, I'. split_and!; try done.
    + split; try done. rewrite <- Hp. apply HI. by left.
    + eapply chain_impl; [|exact Hc]. intros c lo' hi' L' I2 HLs HIs HR. eapply IH; [exact HR| |].
      * eapply same_at_sub; [exact HL|]. intros x Hx. apply list_elem_of_fmap in Hx as (e & -> & He). apply list_elem_of_fmap. exists e. split; [done|by apply HLs].
      * eapply same_at_sub; [exact HI|]. intros x Hx. right. by apply HIs.
Qed.

Lemma tree_pid h pages pid lo hi L I : tree_at h pages pid lo hi L I -> pid ∈ I ++ L.*1.
Proof using.
  destruct h; cbn; [intros (p & _ & -> & ->); cbn; by left|]. intros (p & b & I' & _ & -> & _). by left.
Qed.

Lemma chain_dom (R : node_spec) (pages : gmap PageId bytes) lo hi cs ks L I :
  (forall c lo hi L I, R c lo hi L I -> forall q, q ∈ I ++ L.*1 -> is_Some (pages !! q)) ->
  chain R lo hi cs ks L I -> forall q, q ∈ I ++ L.*1 -> is_Some (pages !! q).
Proof using.
  intros HR Hc. induction Hc as [c lo hi L I H|c cs k ks lo hi L1 I1 L2 I2 H Hc IH]; intros q Hq; [by eapply HR|].
  rewrite fmap_app in Hq. rewrite !elem_of_app in Hq. destruct Hq as [[Hq|Hq]|[Hq|Hq]].
  - eapply HR; [exact H|]. apply elem_of_app. by left.
  - apply IH, elem_of_app. by left.
  - eapply HR; [exact H|]. apply elem_of_app. by right.
  - apply IH, elem_of_app. by right.
Qed.

Lemma tree_dom h : forall pages pid lo hi L I, tree_at h pages pid lo hi L I -> forall q, q ∈ I ++ L.*1 -> is_Some (pages !! q).
Proof using.
  induction h as [|h IH]; intros pages pid lo hi L I Ht q Hq; cbn in Ht.
  - destruct Ht as (p & [(b & Hp & Hb) Hw Hk] & -> & ->). cbn in Hq. apply list_elem_of_singleton in Hq as ->. by exists b.
  - destruct Ht as (p & b & I' & [Hp Hb Hw Hk] & -> & Hc). cbn in Hq. apply list.elem_of_cons in Hq as [->|Hq]; [by exists b|].
    eapply chain_dom; [|exact Hc|done]. intros. by eapply IH.
Qed.

(** ** Keys of a subtree *)

(** Some leaf has the key, live or not. *)
Definition keyed (L : leaves) (k : IndexKey) : Prop := exists id p, (id, p) ∈ L /\ k ∈ LeafPage.keys p.

Lemma keyed_app L1 L2 k : keyed (L1 ++ L2) k <-> keyed L1 k \/ keyed L2 k.
Proof using.
  unfold keyed. setoid_rewrite elem_of_app. split.
  - intros (id & p & [H|H] & Hk); [left|right]; by exists id, p.
  - intros [(id & p & H & Hk)|(id & p & H & Hk)]; exists id, p; auto.
Qed.

Lemma chain_within (R : node_spec) lo hi cs ks L I :
  (forall c lo hi L I, R c lo hi L I -> forall k, keyed L k -> within lo hi k) -> ascending ks -> Forall (inside lo hi) ks ->
  chain R lo hi cs ks L I -> forall k, keyed L k -> within lo hi k.
Proof using.
  intros HR Ha Hk Hc. induction Hc as [c lo hi L I H|c cs k ks lo hi L1 I1 L2 I2 H Hc IH]; intros x Hx; [by eapply HR|].
  apply StronglySorted_inv in Ha as [Ha Hgt]. apply Forall_cons_1 in Hk as [[Hk1 Hk2] Hks]. apply keyed_app in Hx as [Hx|Hx].
  - destruct (HR _ _ _ _ _ H x Hx) as [H1 H2]. split; [done|]. by eapply below_weaken.
  - destruct (IH Ha) with (k := x) as [H1 H2]; [|done|].
    + rewrite list.Forall_forall in *. intros y Hy. split; [cbn; by apply Hgt|]. by apply Hks.
    + split; [|done]. cbn in H1. destruct lo as [a|]; [|done]. cbn in *. apply klt_kle. by eapply klt_kle_trans.
Qed.

Lemma tree_within h : forall pages pid lo hi L I, tree_at h pages pid lo hi L I -> forall k, keyed L k -> within lo hi k.
Proof using.
  induction h as [|h IH]; intros pages pid lo hi L I Ht k Hk; cbn in Ht.
  - destruct Ht as (p & [Hp Hw Hkeys] & -> & ->). destruct Hk as (id & q & Hin & Hk). apply list_elem_of_singleton in Hin as [= -> ->].
    rewrite list.Forall_forall in Hkeys. by apply Hkeys.
  - destruct Ht as (p & b & I' & [Hp Hb Hw Hkeys] & -> & Hc). eapply chain_within; [|apply Hw|exact Hkeys|exact Hc|exact Hk]. intros. by eapply IH.
Qed.

End tree.
