(* ===== verification/BPlusTreeWalk.v ===== *)
(** * Walking down a B+ tree

    The way from the root of a subtree to a page inside it, what lies beside it, and the loops
    of the code that walk it; what it means that the pages of a pool hold a tree with the
    entries of a map, and that searching it is looking up in the map. *)

From Stdlib Require Import ZArith Lia String Sorted.
From stdpp Require Import base list numbers option gmap.
From S2P Require Import Prelude Bytes Ids Buf TableHeap Str Slotted BPlusPage PageView BPlusKeys PageViewProofs LeafContents.
From S2P Require Import LeafContents LeafViewProofs PageCodecProofs BPlusSplit InternalOps BPlusTree BPlusTreeInv.

Local Open Scope Z_scope.

Section walk.
Context (tree : BPlusTree) (Hok : layout_ok (layout tree)).

Abbreviation lay := (layout tree).
Abbreviation tree_at := (tree_at lay).
Abbreviation leaf_at := (leaf_at lay).
Abbreviation node_at := (node_at lay).

(** The way from a subtree to one inside it; [ws] are the internal pages passed, the lowest
    first; the leaves and internal pages before and after the inner subtree. *)
Inductive way (pages : gmap PageId bytes) : nat -> PageId -> bound -> bound -> nat -> PageId -> bound -> bound ->
    list PageMut -> leaves -> leaves -> list PageId -> list PageId -> Prop :=
| way_here h pid lo hi : way pages h pid lo hi h pid lo hi [] [] [] [] []
| way_down h pid lo hi p b c cs1 cs2 ks1 ks2 lo1 hi1 Lb Ib La Ia h' q lo' hi' ws L1 L2 I1 I2 :
    node_at pages pid lo hi p b -> i_children p = cs1 ++ c :: cs2 -> i_keys p = ks1 ++ ks2 ->
    before_child (tree_at h pages) lo cs1 ks1 lo1 Lb Ib -> after_child (tree_at h pages) hi1 hi cs2 ks2 La Ia ->
    way pages h c lo1 hi1 h' q lo' hi' ws L1 L2 I1 I2 ->
    way pages (S h) pid lo hi h' q lo' hi' (ws ++ [mkGuard pid b]) (Lb ++ L1) (L2 ++ La) (pid :: Ib ++ I1) (I2 ++ Ia).

(** The inner subtree in its place. *)
Lemma way_plug pages h pid lo hi h' q lo' hi' ws L1 L2 I1 I2 L I : way pages h pid lo hi h' q lo' hi' ws L1 L2 I1 I2 ->
  tree_at h' pages q lo' hi' L I -> tree_at h pages pid lo hi (L1 ++ L ++ L2) (I1 ++ I ++ I2).
Proof using.
  induction 1 as [|h pid lo hi p b c cs1 cs2 ks1 ks2 lo1 hi1 Lb Ib La Ia h' q lo' hi' ws L1 L2 I1 I2 Hn Hcs Hks Hb Ha Hw IH]; intros Ht.
  { by rewrite !app_nil_r. }
  specialize (IH Ht). cbn [BPlusTreeInv.tree_at]. exists p, b, (Ib ++ (I1 ++ I ++ I2) ++ Ia). split_and!; [done| |].
  - cbn [app]. by rewrite <- !app_assoc.
  - rewrite Hcs, Hks. replace ((Lb ++ L1) ++ L ++ L2 ++ La) with (Lb ++ (L1 ++ L ++ L2) ++ La) by (by rewrite <- !app_assoc).
    change (ks1 ++ ks2) with (ks1 ++ [] ++ ks2). change (cs1 ++ c :: cs2) with (cs1 ++ [c] ++ cs2).
    eapply chain_plug; [exact Hb|by constructor|exact Ha].
Qed.

Lemma before_frame h pages pages' lo cs ks lo' L I : before_child (tree_at h pages) lo cs ks lo' L I ->
  same_at pages pages' L.*1 -> same_at pages pages' I -> before_child (tree_at h pages') lo cs ks lo' L I.
Proof using.
  induction 1 as [|c cs k ks lo lo' L1 I1 L2 I2 HR Hb IH]; intros HL HI; [constructor|]. rewrite fmap_app in HL. constructor.
  - eapply tree_frame; [exact HR|eapply same_at_sub; [exact HL|]|eapply same_at_sub; [exact HI|]]; intros x ?; apply elem_of_app; by left.
  - apply IH; [eapply same_at_sub; [exact HL|]|eapply same_at_sub; [exact HI|]]; intros x ?; apply elem_of_app; by right.
Qed.

Lemma chain_frame h pages pages' lo hi cs ks L I : chain (tree_at h pages) lo hi cs ks L I ->
  same_at pages pages' L.*1 -> same_at pages pages' I -> chain (tree_at h pages') lo hi cs ks L I.
Proof using.
  intros Hc HL HI. eapply chain_impl; [|exact Hc]. intros c lo' hi' L' I' HLs HIs HR. eapply tree_frame; [exact HR| |].
  - eapply same_at_sub; [exact HL|]. intros x Hx. apply list_elem_of_fmap in Hx as (e & -> & He). apply list_elem_of_fmap. exists e. split; [done|by apply HLs].
  - by eapply same_at_sub.
Qed.

Lemma after_frame h pages pages' lo hi cs ks L I : after_child (tree_at h pages) lo hi cs ks L I ->
  same_at pages pages' L.*1 -> same_at pages pages' I -> after_child (tree_at h pages') lo hi cs ks L I.
Proof using. destruct 1 as [|k hi cs ks L I Hc]; intros HL HI; [constructor|]. constructor. by eapply chain_frame. Qed.

Lemma same_at_app pages pages' l1 l2 : same_at pages pages' (l1 ++ l2) <-> same_at pages pages' l1 /\ same_at pages pages' l2.
Proof using.
  unfold same_at. setoid_rewrite elem_of_app. split; [intros H; split; intros; apply H; auto|]. intros [H1 H2] q [Hq|Hq]; auto.
Qed.

Lemma way_frame pages pages' h pid lo hi h' q lo' hi' ws L1 L2 I1 I2 : way pages h pid lo hi h' q lo' hi' ws L1 L2 I1 I2 ->
  same_at pages pages' (I1 ++ I2) -> same_at pages pages' (L1 ++ L2).*1 -> way pages' h pid lo hi h' q lo' hi' ws L1 L2 I1 I2.
Proof using.
  induction 1 as [|h pid lo hi p b c cs1 cs2 ks1 ks2 lo1 hi1 Lb Ib La Ia h' q lo' hi' ws L1 L2 I1 I2 [Hn1 Hn2 Hn3 Hn4] Hcs Hks Hb Ha Hw IH]; intros HI HL; [constructor|].
  rewrite !fmap_app in *. repeat setoid_rewrite same_at_app in IH. rewrite !same_at_app in HL. apply same_at_app in HI as [HI1 HI2].
  assert (Hpid : pages' !! pid = pages !! pid) by (apply HI1; by left).
  assert (HIb : same_at pages pages' Ib /\ same_at pages pages' I1).
  { apply same_at_app. eapply same_at_sub; [exact HI1|]. intros x ?. by right. }
  apply same_at_app in HI2. destruct HIb, HI2, HL as [[? ?] [? ?]]. econstructor; [split; try done; congruence|done|done|by eapply before_frame|by eapply after_frame|].
  by apply IH.
Qed.

Lemma way_trans pages h pid lo hi h1 q1 lo1 hi1 ws1 La1 Lb1 Ia1 Ib1 h2 q2 lo2 hi2 ws2 La2 Lb2 Ia2 Ib2 :
  way pages h pid lo hi h1 q1 lo1 hi1 ws1 La1 Lb1 Ia1 Ib1 -> way pages h1 q1 lo1 hi1 h2 q2 lo2 hi2 ws2 La2 Lb2 Ia2 Ib2 ->
  way pages h pid lo hi h2 q2 lo2 hi2 (ws2 ++ ws1) (La1 ++ La2) (Lb2 ++ Lb1) (Ia1 ++ Ia2) (Ib2 ++ Ib1).
Proof using.
  induction 1 as [|h pid lo hi p b c cs1 cs2 ks1 ks2 lo' hi' Lb Ib La Ia h' q lo3 hi3 ws L1 L2 I1 I2 Hn Hcs Hks Hb Ha Hw IH]; intros H2.
  { rewrite !app_nil_r. done. }
  specialize (IH H2). rewrite !app_assoc in *. cbn [app]. rewrite <- (app_assoc Lb), <- (app_assoc Ib). rewrite <- (app_assoc (ws2) ws), (app_assoc ws2 ws).
  econstructor; done.
Qed.

(** ** What is beside the way *)

Lemma before_keys h pages lo cs ks lo' L I : before_child (tree_at h pages) lo cs ks lo' L I -> ascending ks ->
  forall x, keyed L x -> exists a, lo' = Some a /\ klt x a.
Proof using.
  induction 1 as [|c cs k ks lo lo' L1 I1 L2 I2 HR Hb IH]; intros Ha x Hx; [by destruct Hx as (id & p & ?%not_elem_of_nil & _)|].
  apply StronglySorted_inv in Ha as [Ha Hgt]. apply keyed_app in Hx as [Hx|Hx]; [|by apply IH].
  pose proof (within_klt _ _ _ (tree_within lay _ _ _ _ _ _ _ HR x Hx)) as Hlt. rewrite (before_low _ _ _ _ _ _ _ Hb). unfold low_of.
  destruct (list.last ks) as [k'|] eqn:Ek; [|by exists k]. exists k'. split; [done|]. apply last_Some_elem_of in Ek.
  rewrite list.Forall_forall in Hgt. eapply klt_trans; [exact Hlt|by apply Hgt].
Qed.

Lemma after_keys h pages hi hi' cs ks L I : after_child (tree_at h pages) hi hi' cs ks L I -> ascending ks -> Forall (below hi') ks ->
  forall x, keyed L x -> exists a, hi = Some a /\ kle a x.
Proof using.
  destruct 1 as [|k hi cs ks L I Hc]; intros Ha Hk x Hx; [by destruct Hx as (id & p & ?%not_elem_of_nil & _)|].
  apply StronglySorted_inv in Ha as [Ha Hgt]. apply Forall_cons_1 in Hk as [_ Hk]. exists k. split; [done|].
  eapply (chain_within (tree_at h pages) (Some k) hi); [intros; by eapply tree_within|exact Ha| |exact Hc|done].
  rewrite list.Forall_forall in *. intros y Hy. split; [cbn; by apply Hgt|by apply Hk].
Qed.

(** A key within the bounds of an inner subtree is within those of every page on the way,
    and no leaf beside the way has it. *)
Lemma node_child_bounds h pages pid lo hi p b c cs1 cs2 ks1 ks2 lo1 hi1 Lb Ib La Ia k :
  node_at pages pid lo hi p b -> i_children p = cs1 ++ c :: cs2 -> i_keys p = ks1 ++ ks2 ->
  before_child (tree_at h pages) lo cs1 ks1 lo1 Lb Ib -> after_child (tree_at h pages) hi1 hi cs2 ks2 La Ia ->
  within lo1 hi1 k -> within lo hi k /\ ~ keyed Lb k /\ ~ keyed La k.
Proof using.
  intros [_ _ Hw Hin] Hcs Hks Hb Ha [H1 H2]. pose proof (iw_sorted _ _ Hw) as Hasc. rewrite Hks in *. apply Forall_app in Hin as [Hin1 Hin2].
  apply ascending_app in Hasc as (Ha1 & Ha2 & _). split_and!.
  - split.
    + rewrite (before_low _ _ _ _ _ _ _ Hb) in H1. unfold low_of in H1. destruct (list.last ks1) as [a|] eqn:Ea; [|done].
      apply last_Some_elem_of in Ea. rewrite list.Forall_forall in Hin1. destruct (Hin1 a Ea) as [Hlo _]. cbn in H1.
      destruct lo as [l|]; [|done]. cbn in *. apply klt_kle. by eapply klt_kle_trans.
    + rewrite (after_high _ _ _ _ _ _ _ Ha) in H2. unfold high_of in H2. destruct ks2 as [|a ks2]; [done|]. apply Forall_cons_1 in Hin2 as [[_ Hhi] _].
      cbn in H2. by eapply below_weaken.
  - intros Hk. destruct (before_keys _ _ _ _ _ _ _ _ Hb Ha1 k Hk) as (a & -> & Hlt). cbn in H1. by apply (klt_irrefl k), (klt_kle_trans _ a).
  - intros Hk. destruct (after_keys _ _ _ _ _ _ _ _ Ha Ha2) with (x := k) as (a & -> & Hle); [|done|].
    + eapply list.Forall_impl; [exact Hin2|]. by intros x [_ ?].
    + cbn in H2. by apply (klt_irrefl k), (klt_kle_trans _ a).
Qed.

Lemma way_beside pages h pid lo hi h' q lo' hi' ws L1 L2 I1 I2 k : way pages h pid lo hi h' q lo' hi' ws L1 L2 I1 I2 -> within lo' hi' k ->
  within lo hi k /\ ~ keyed L1 k /\ ~ keyed L2 k.
Proof using.
  induction 1 as [|h pid lo hi p b c cs1 cs2 ks1 ks2 lo1 hi1 Lb Ib La Ia h' q lo' hi' ws L1 L2 I1 I2 Hn Hcs Hks Hb Ha Hw IH]; intros Hk.
  { split_and!; [done|..]; by intros (id & p & ?%not_elem_of_nil & _). }
  destruct (IH Hk) as (Hin & H1 & H2). destruct (node_child_bounds _ _ _ _ _ _ _ _ _ _ _ _ _ _ _ _ _ _ k Hn Hcs Hks Hb Ha Hin) as (H3 & H4 & H5).
  split; [done|]. rewrite !keyed_app. tauto.
Qed.

(** ** One step down *)

Section step.
Context (pages : gmap PageId bytes) (pid : PageId) (lo hi : bound).

Lemma child_for_key_node p b key : node_at pages pid lo hi p b -> exists c, i_children p !! InternalPage.find_child_index p key = Some c /\
  forall BE, @BPlusTree.child_for_key BE b key = Ok (Some c).
Proof using.
  intros [Hp Hb Hw Hk]. pose proof (find_le p key) as Hf. pose proof (iw_children _ _ Hw) as Hn.
  destruct (lookup_lt_is_Some_2 (i_children p) (InternalPage.find_child_index p key) ltac:(lia)) as [c Hc]. exists c. split; [done|].
  intros BE. unfold BPlusTree.child_for_key. erewrite peek_ok by apply Hb. cbn [map_err mbind outcome_bind].
  change (PageCodec.KIND_INTERNAL =? PageCodec.KIND_LEAF) with false. cbn iota.
  rewrite (icheck_new lay b p Hb Hw). cbn [map_err mbind outcome_bind]. rewrite (iview_child_for lay b p Hb Hw key).
  unfold InternalPage.get_child. rewrite Hc. done.
Qed.

Lemma child_for_key_leaf {BE} b p key : leaf_is lay b p -> @BPlusTree.child_for_key BE b key = Ok None.
Proof using. intros Hb. unfold BPlusTree.child_for_key. erewrite peek_ok by apply Hb. done. Qed.

(** The child for a key, with what is beside it; the key is within its bounds. *)
Lemma child_focus h p b key L I : node_at pages pid lo hi p b -> within lo hi key ->
  chain (tree_at h pages) lo hi (i_children p) (i_keys p) L I ->
  exists c cs1 cs2 ks1 ks2 lo1 hi1 Lb Lc La Ib Ic Ia, i_children p = cs1 ++ c :: cs2 /\ i_keys p = ks1 ++ ks2 /\
    i_children p !! InternalPage.find_child_index p key = Some c /\ L = Lb ++ Lc ++ La /\ I = Ib ++ Ic ++ Ia /\
    before_child (tree_at h pages) lo cs1 ks1 lo1 Lb Ib /\ after_child (tree_at h pages) hi1 hi cs2 ks2 La Ia /\
    tree_at h pages c lo1 hi1 Lc Ic /\ within lo1 hi1 key.
Proof using.
  intros Hn Hin Hc. pose proof (find_le p key) as Hf. pose proof (na_wf _ _ _ _ _ _ _ Hn) as Hw.
  destruct (chain_focus _ _ _ _ _ _ _ _ Hc Hf) as (cs1 & c & cs2 & ks1 & ks2 & lo1 & hi1 & Lb & Lc & La & Ib & Ic & Ia & Ecs & Eks & Hl & -> & -> & Hb & HR & Ha).
  exists c, cs1, cs2, ks1, ks2, lo1, hi1, Lb, Lc, La, Ib, Ic, Ia. split_and!; try done.
  - rewrite Ecs. rewrite <- Hl, <- (before_length _ _ _ _ _ _ _ Hb). by rewrite list_lookup_middle.
  - split.
    + rewrite (before_low _ _ _ _ _ _ _ Hb). unfold low_of. destruct (list.last ks1) as [k|] eqn:Ek; [|apply Hin]. cbn.
      rewrite last_lookup in Ek. apply (find_before lay p key (pred (length ks1)) k Hw).
      * rewrite Eks. by apply lookup_app_l_Some.
      * apply lookup_lt_Some in Ek. lia.
    + rewrite (after_high _ _ _ _ _ _ _ Ha). unfold high_of. destruct ks2 as [|k ks2]; [apply Hin|]. cbn.
      apply (find_after lay p key (length ks1) k Hw); [|lia]. rewrite Eks. by rewrite list_lookup_middle.
Qed.

End step.

(** ** Searching *)

Context {P BE : Type} {Pool : PagePool P BE} {Laws : PagePoolLaws P BE}.

(** What a step of the code does when the pool does not fail: a value and the pool's pages. *)
Definition gives {A} (r : outcome (IndexError BE) A * P) (pages : gmap PageId bytes) (Q : A -> Prop) : Prop :=
  pool_pages r.2 = pages /\ match r.1 with Ok a => Q a | Err (IBpm _) => True | _ => False end.

Lemma gives_bind {A B} (m : M P (IndexError BE) A) (f : A -> M P (IndexError BE) B) p pages (Q : A -> Prop) (R : B -> Prop) :
  gives (m p) pages Q -> (forall a p', pool_pages p' = pages -> Q a -> gives (f a p') pages R) -> gives ((m ≫= f) p) pages R.
Proof using.
  unfold mbind, M_bind, gives. destruct (m p) as [[a|e|] p']; cbn; [|done|done]. intros [Hp HQ] Hf. by apply Hf.
Qed.

Lemma gives_ret {A} (a : A) p pages (Q : A -> Prop) : pool_pages p = pages -> Q a -> gives (mret (M := M P (IndexError BE)) a p) pages Q.
Proof using. done. Qed.

Lemma read_page_gives pid p b : pool_pages p !! pid = Some b -> gives (BPlusTree.read_page pid p) (pool_pages p) (fun g => g = mkGuard pid b).
Proof using.
  intros Hb. unfold gives, BPlusTree.read_page. pose proof (fetch_law pid p) as Hf. destruct (fetch pid p) as [[b'|e|] p']; [|done|done].
  destruct Hf as [H1 H2]. cbn. split; [done|]. congruence.
Qed.

Lemma bind_pure {A B} (a : A) (f : A -> M P (IndexError BE) B) r p : r = Ok a -> (BPlusTree.pure r ≫= f) p = f a p.
Proof using. by intros ->. Qed.

Lemma bind_coded {A B} (a : A) (f : A -> M P (IndexError BE) B) r p : r = Ok a -> (BPlusTree.coded r ≫= f) p = f a p.
Proof using. by intros ->. Qed.

(** The leaf a walk for [key] ends at, with the way to it. *)
Definition leads (pages : gmap PageId bytes) h pid lo hi key (L : leaves) (I : list PageId) (g : PageMut) : Prop :=
  exists lo' hi' ws L1 L2 I1 I2 lf, way pages h pid lo hi 0 (g_id g) lo' hi' ws L1 L2 I1 I2 /\ leaf_at pages (g_id g) lo' hi' lf /\
    pages !! g_id g = Some (g_data g) /\ leaf_is lay (g_data g) lf /\ within lo' hi' key /\ L = L1 ++ (g_id g, lf) :: L2 /\ I = I1 ++ I2.

Lemma leads_down pages h pid lo hi key L I p b c cs1 cs2 ks1 ks2 lo1 hi1 Lb La Ib Ia Lc Ic g :
  node_at pages pid lo hi p b -> i_children p = cs1 ++ c :: cs2 -> i_keys p = ks1 ++ ks2 ->
  before_child (tree_at h pages) lo cs1 ks1 lo1 Lb Ib -> after_child (tree_at h pages) hi1 hi cs2 ks2 La Ia ->
  L = Lb ++ Lc ++ La -> I = pid :: Ib ++ Ic ++ Ia -> leads pages h c lo1 hi1 key Lc Ic g -> leads pages (S h) pid lo hi key L I g.
Proof using.
  intros Hn Hcs Hks Hb Ha -> -> (lo' & hi' & ws & L1 & L2 & I1 & I2 & lf & Hw & Hlf & Hg & Hgb & Hin & -> & ->).
  eexists _, _, _, _, _, _, _, lf. split_and!; [by econstructor|done..| |].
  - cbn [app]; by rewrite <- !app_assoc.
  - cbn [app]; by rewrite <- !app_assoc.
Qed.

Lemma find_leaf_gives h : forall pid lo hi L I key p b fuel, tree_at h (pool_pages p) pid lo hi L I -> within lo hi key ->
  pool_pages p !! pid = Some b -> (h < fuel)%nat ->
  gives (BPlusTree.find_leaf_loop fuel (mkGuard pid b) key p) (pool_pages p) (leads (pool_pages p) h pid lo hi key L I).
Proof using Laws.
  induction h as [|h IH]; intros pid lo hi L I key p b fuel Ht Hin Hb Hf; (destruct fuel as [|fuel]; [lia|]); cbn [BPlusTree.find_leaf_loop BPlusTreeInv.tree_at] in *.
  - destruct Ht as (lf & Hlf & -> & ->). pose proof Hlf as [(b' & Hb' & His) _ _]. assert (b' = b) as -> by congruence.
    rewrite (bind_pure None) by (by eapply child_for_key_leaf). apply gives_ret; [done|].
    eexists lo, hi, [], [], [], [], [], lf. split_and!; try done. constructor.
  - destruct Ht as (np & b' & I' & Hn & -> & Hc). assert (b' = b) as -> by (pose proof (na_page _ _ _ _ _ _ _ Hn); congruence).
    destruct (child_focus _ _ _ _ h np b key L I' Hn Hin Hc) as (c & cs1 & cs2 & ks1 & ks2 & lo1 & hi1 & Lb & Lc & La & Ib & Ic & Ia & Ecs & Eks & Hi & -> & -> & Hbc & Hac & Hct & Hin').
    destruct (child_for_key_node _ _ _ _ np b key Hn) as (c' & Hc' & Ec). assert (c' = c) as -> by congruence.
    rewrite (bind_pure (Some c)) by apply Ec. destruct (tree_dom lay h _ _ _ _ _ _ Hct c (tree_pid lay h _ _ _ _ _ _ Hct)) as [bc Hbcs].
    eapply gives_bind; [apply (read_page_gives c p bc Hbcs)|]. intros g p' Hp ->. rewrite <- Hp in *.
    unfold gives in *. destruct (IH c lo1 hi1 Lc Ic key p' bc fuel Hct Hin' Hbcs ltac:(lia)) as [E1 E2]. split; [done|].
    destruct (BPlusTree.find_leaf_loop fuel (mkGuard c bc) key p') as [[g|e|] p'']; [|done|done]. cbn [fst] in *. by eapply leads_down.
Qed.

End walk.

(** * Searching *)

(** The entries that live in some leaf. *)
Definition entries_are (L : leaves) (m : gmap IndexKey RecordId) : Prop :=
  forall k rid, m !! k = Some rid <-> exists id p, (id, p) ∈ L /\ lives p k rid.

Section search.
Context (tree : BPlusTree) (Hok : layout_ok (layout tree)).

Abbreviation lay := (layout tree).
Abbreviation tree_at := (tree_at lay).

Definition header_at (pages : gmap PageId bytes) (hb : bytes) (h : HeaderPage) : Prop :=
  pages !! header_page_id tree = Some hb /\ header_is hb h /\ header_wf h /\ h_max_key_len h = max_key_len lay.

(** The root and its leaves, fewer than [d] levels above them; every page is one of its own. *)
Record rooted (pages : gmap PageId bytes) (h : HeaderPage) (d : nat) (root : PageId) (L : leaves) (I : list PageId) : Prop := {
  rt_height : exists ht, (ht < d)%nat /\ tree_at ht pages root None None L I;
  rt_linked : linked L None;
  rt_first : first_leaf_id h = first_id L None;
  rt_nodup : NoDup (header_page_id tree :: I ++ L.*1);
}.

(** The pages hold the tree with at most [d] levels and the entries of [m]. *)
Definition tree_holds (d : nat) (pages : gmap PageId bytes) (m : gmap IndexKey RecordId) : Prop :=
  exists hb h, header_at pages hb h /\
    match root_page_id h with
    | None => first_leaf_id h = None /\ m = ∅
    | Some root => exists L I, rooted pages h d root L I /\ entries_are L m
    end.

Lemma header_read {BE} pages hb h : header_at pages hb h -> @BPlusTree.header_from_bytes BE tree hb = Ok h.
Proof using.
  intros (Hp & Hh & Hw & Hk). unfold BPlusTree.header_from_bytes. rewrite (hview_new hb h Hh Hw). cbn [map_err mbind outcome_bind].
  unfold HeaderPageView.max_key_len. change HDR_KEY_LEN_OFF with NODE_SIZE_OFFSET. erewrite size_ok by apply Hh. cbn [mbind outcome_bind].
  rewrite Hk, Z.eqb_refl. cbn [negb]. rewrite (hview_root hb h Hh Hw), (hview_first hb h Hh Hw). cbn [map_err mbind outcome_bind].
  rewrite <- Hk. by destruct h.
Qed.

(** What lives at a leaf for a key is what lives in the tree. *)
Lemma leaf_entries pages h pid L m g key lf L1 L2 ws lo hi I1 I2 :
  way tree pages h pid None None 0 (g_id g) lo hi ws L1 L2 I1 I2 -> within lo hi key -> L = L1 ++ (g_id g, lf) :: L2 ->
  leaf_wf lay lf -> entries_are L m -> m !! key = contents lf !! key.
Proof using.
  intros Hw Hin -> Hlf Hm. destruct (way_beside tree _ _ _ _ _ _ _ _ _ _ _ _ _ _ key Hw Hin) as (_ & H1 & H2).
  assert (Hno : forall id p rid, (id, p) ∈ L1 ++ L2 -> ~ lives p key rid).
  { intros id p rid Hin' (i & Hi & _). apply entries_lookup, list_elem_of_lookup_2 in Hi. apply elem_of_app in Hin' as [?|?]; [apply H1|apply H2]; by exists id, p. }
  apply option_eq. intros rid. rewrite (contents_lives lay) by done. rewrite (Hm key rid). split.
  - intros (id & p & Hp & Hl). apply elem_of_app in Hp as [Hp|[Hp|Hp]%list.elem_of_cons].
    + exfalso. eapply Hno; [|exact Hl]. apply elem_of_app. by left.
    + by injection Hp as -> ->.
    + exfalso. eapply Hno; [|exact Hl]. apply elem_of_app. by right.
  - intros Hl. exists (g_id g), lf. split; [|done]. apply elem_of_app. right. by left.
Qed.

Context {P BE : Type} {Pool : PagePool P BE} {Laws : PagePoolLaws P BE}.

Lemma root_page_gives p hb h : header_at (pool_pages p) hb h ->
  match root_page_id h with Some root => is_Some (pool_pages p !! root) | None => True end ->
  gives (BPlusTree.get_root_page_from_header tree p) (pool_pages p) (fun r =>
    match root_page_id h with
    | None => r = None
    | Some root => exists b, r = Some (mkGuard root b) /\ pool_pages p !! root = Some b
    end).
Proof using Laws.
  intros Hh Hr. unfold BPlusTree.get_root_page_from_header. eapply gives_bind; [apply read_page_gives, Hh|].
  intros g p' Hp ->. cbn [g_data]. rewrite (bind_pure h) by (by eapply header_read). destruct (root_page_id h) as [root|]; [|by apply gives_ret].
  destruct Hr as [b Hb]. eapply gives_bind; [rewrite <- Hp in *; by apply read_page_gives|]. intros g p'' Hp'' ->. apply gives_ret; [done|]. by exists b.
Qed.

Lemma find_leaf_leads p d key fuel hb h root L I : header_at (pool_pages p) hb h -> root_page_id h = Some root ->
  rooted (pool_pages p) h d root L I -> (d <= fuel)%nat ->
  gives (BPlusTree.find_leaf tree fuel key p) (pool_pages p) (fun r => exists g ht, r = Some g /\ leads tree (pool_pages p) ht root None None key L I g).
Proof using Laws.
  intros Hh Er [(ht & Hht & Ht) _ _ _] Hf. unfold BPlusTree.find_leaf.
  assert (Hroot : is_Some (pool_pages p !! root)) by (eapply tree_dom; [exact Ht|by eapply tree_pid]).
  eapply gives_bind; [apply (root_page_gives p hb h Hh); by rewrite Er|]. rewrite Er. intros r p' Hp (b & -> & Hb). rewrite <- Hp in *.
  eapply gives_bind; [eapply find_leaf_gives; [exact Ht|done|exact Hb|lia]|]. intros g p'' Hp'' Hg. apply gives_ret; [done|]. by exists g, ht.
Qed.

Lemma search_gives p d m key fuel : tree_holds d (pool_pages p) m -> (d <= fuel)%nat -> len key <= max_key_len lay ->
  gives (BPlusTree.search tree fuel key p) (pool_pages p) (fun r => r = m !! key).
Proof using Laws Hok.
  intros (hb & h & Hh & Hr) Hf Hk. unfold BPlusTree.search. rewrite (proj2 (Z.ltb_ge _ _)) by lia.
  destruct (root_page_id h) as [root|] eqn:Er.
  - destruct Hr as (L & I & Hrt & Hm). eapply gives_bind; [by eapply find_leaf_leads|].
    intros r p' Hp (g & ht & -> & (lo & hi & ws & L1 & L2 & I1 & I2 & lf & Hw & [_ Hlw _] & Hg & Hgb & Hin & HL & HI)).
    pose proof (lo_cap _ Hok) as Hcap. pose proof (lo_room _ Hok) as Hroom.
    rewrite (bind_coded tt) by (apply (check_new lay Hcap ltac:(lia) (g_data g) lf Hgb Hlw)).
    unfold BPlusTree.coded, liftc. rewrite (get_is lay Hcap ltac:(lia) (g_data g) lf Hgb Hlw), (get_contents lay) by done.
    split; [done|]. cbn. symmetry. by eapply leaf_entries.
  - destruct Hr as [_ ->]. unfold BPlusTree.find_leaf. eapply gives_bind with (Q := fun r => r = None).
    + eapply gives_bind; [apply (root_page_gives p hb h Hh); by rewrite Er|]. rewrite Er. intros r p' Hp ->. by apply gives_ret.
    + intros r p' Hp ->. by apply gives_ret.
Qed.

End search.
