(* ===== verification/BPlusTreeSplit.v ===== *)
(** * Splits going up a B+ tree

    The loop that puts the separator of a split page into its parent, splitting that in turn:
    from a subtree cut in two at a separator it makes the tree around it one tree again, or
    one cut in two at its root. *)

From Stdlib Require Import ZArith Lia String Sorted.
From stdpp Require Import base list numbers option gmap.
From S2P Require Import Prelude Bytes Ids Buf Str TableHeap Slotted BPlusPage PageView BPlusKeys PageViewProofs.
From S2P Require Import LeafContents LeafViewProofs PageCodecProofs BPlusSplit InternalOps BPlusTree BPlusTreeInv BPlusTreeWalk.

Local Open Scope Z_scope.

(** ** Counting page ids *)

Fixpoint cnt (x : PageId) (l : list PageId) : nat :=
  match l with
  | [] => 0
  | y :: l => (if decide (x = y) then 1 else 0) + cnt x l
  end.

Lemma cnt_app x l1 l2 : cnt x (l1 ++ l2) = (cnt x l1 + cnt x l2)%nat.
Proof. induction l1 as [|y l1 IH]; cbn; [done|]. rewrite IH. lia. Qed.

Lemma cnt_elem x l : x ∈ l <-> (0 < cnt x l)%nat.
Proof.
  induction l as [|y l IH]; cbn; [split; [by intros ?%not_elem_of_nil|lia]|]. rewrite list.elem_of_cons, IH. case_decide; split; intros; try lia; auto.
Qed.

Lemma cnt_nodup l : NoDup l <-> forall x, (cnt x l <= 1)%nat.
Proof.
  induction l as [|y l IH]; cbn; [split; [lia|constructor]|]. rewrite list.NoDup_cons, cnt_elem, IH. split.
  - intros [Hy Hl] x. specialize (Hl x). case_decide; [subst|]; lia.
  - intros H. split.
    + specialize (H y). rewrite decide_True in H by done. lia.
    + intros x. specialize (H x). lia.
Qed.

Ltac cnt_simpl := repeat first [rewrite fmap_app in * | rewrite cnt_app in * | rewrite fmap_cons in * | progress cbn [cnt fmap list_fmap fst] in *].

Section split.
Context (tree : BPlusTree) (Hok : layout_ok (layout tree)).
Context {P BE : Type} {Pool : PagePool P BE} {Laws : PagePoolLaws P BE}.

Abbreviation lay := (layout tree).
Abbreviation tree_at := (tree_at lay).
Abbreviation node_at := (node_at lay).
Abbreviation way := (way tree).

(** A run that ends without an error but the pool's, with what it returns and the pages then. *)
Definition runs {A} (r : outcome (IndexError BE) A * P) (Q : A -> gmap PageId bytes -> Prop) : Prop :=
  match r with
  | (Ok a, p) => Q a (pool_pages p)
  | (Err (IBpm _), _) => True
  | _ => False
  end.

Lemma runs_bind {A B} (m : M P (IndexError BE) A) (f : A -> M P (IndexError BE) B) p Q R :
  runs (m p) Q -> (forall a p', Q a (pool_pages p') -> runs (f a p') R) -> runs ((m ≫= f) p) R.
Proof using. unfold mbind, M_bind, runs. destruct (m p) as [[a|e|] p']; cbn; [|done|done]. intros H1 H2. exact (H2 a p' H1). Qed.

Lemma runs_mono {A} (r : outcome (IndexError BE) A * P) (Q Q' : A -> gmap PageId bytes -> Prop) : runs r Q -> (forall a pages, Q a pages -> Q' a pages) -> runs r Q'.
Proof using. unfold runs. destruct r as [[a|[]|] p]; auto. Qed.

Lemma gives_runs {A} (r : outcome (IndexError BE) A * P) pages Q : gives r pages Q -> runs r (fun a pages' => Q a /\ pages' = pages).
Proof using. unfold gives, runs. destruct r as [[a|[]|] p]; cbn; intros [? ?]; done. Qed.

Lemma runs_ret {A} (a : A) p (Q : A -> gmap PageId bytes -> Prop) : Q a (pool_pages p) -> runs (mret (M := M P (IndexError BE)) a p) Q.
Proof using. done. Qed.

Lemma store_runs g b p : is_Some (pool_pages p !! g_id g) ->
  runs (BPlusTree.store g b p) (fun g' pages => g' = mkGuard (g_id g) b /\ pages = <[g_id g := b]> (pool_pages p)).
Proof using Laws. intros Hg. cbn. split; [done|]. by apply put_law. Qed.

Lemma allocate_runs p : runs (BPlusTree.allocate_page p) (fun g pages => pool_pages p !! g_id g = None /\ page_id_valid (g_id g) /\
  g_data g = zero_page /\ pages = <[g_id g := zero_page]> (pool_pages p)).
Proof using Laws.
  unfold BPlusTree.allocate_page. pose proof (new_page_law p) as Hn. destruct (new_page p) as [[[pid b]|e|] p']; [|done|done].
  cbn. destruct Hn as (H1 & H2 & -> & H4). done.
Qed.

Lemma encode_leaf_runs g leaf p : leaf_wf lay leaf -> LeafPage.is_overfull lay leaf = false -> len (g_data g) = PAGE_SIZE ->
  is_Some (pool_pages p !! g_id g) ->
  runs (BPlusTree.encode_leaf tree g leaf p) (fun _ pages => exists b, leaf_is lay b leaf /\ pages = <[g_id g := b]> (pool_pages p)).
Proof using Laws Hok.
  intros Hw Ho Hl Hp. unfold BPlusTree.encode_leaf. pose proof (lo_cap _ Hok) as Hcap. pose proof (lo_room _ Hok) as Hroom.
  pose proof (encode_leaf lay Hcap ltac:(lia) leaf (g_data g) Hw Hl) as He. rewrite Ho in He. destruct He as (b & Eb & Hb).
  rewrite (bind_coded b) by done. pose proof (store_runs g b p Hp) as Hs. unfold runs in *. destruct (BPlusTree.store g b p) as [[g'|e|] p']; [|done|done].
  destruct Hs as [-> ->]. by exists b.
Qed.

Lemma encode_internal_runs g node p : internal_wf lay node -> InternalPage.is_overfull node = false -> len (g_data g) = PAGE_SIZE ->
  is_Some (pool_pages p !! g_id g) ->
  runs (BPlusTree.encode_internal tree g node p) (fun g' pages => exists b, internal_is b node /\ g' = mkGuard (g_id g) b /\
    pages = <[g_id g := b]> (pool_pages p)).
Proof using Laws.
  intros Hw Ho Hl Hp. unfold BPlusTree.encode_internal. pose proof (encode_internal lay node (g_data g) Hw Hl) as He. rewrite Ho in He.
  destruct He as (b & Eb & Hb). rewrite (bind_coded b) by done. pose proof (store_runs g b p Hp) as Hs. unfold runs in *.
  destruct (BPlusTree.store g b p) as [[g'|e|] p']; [|done|done]. destruct Hs as [-> ->]. by exists b.
Qed.

Lemma split_loop_app ws1 ws2 s p : BPlusTree.split_loop tree (ws1 ++ ws2) s p =
  (r ← BPlusTree.split_loop tree ws1 s; match r with None => mret None | Some s => BPlusTree.split_loop tree ws2 s end) p.
Proof using.
  revert s p. induction ws1 as [|g ws1 IH]; intros s p; [done|]. cbn [app BPlusTree.split_loop].
  unfold mbind, M_bind, BPlusTree.coded, BPlusTree.pure, liftc, mret, M_ret.
  destruct (InternalPage.decode lay (g_data g)) as [n|e|]; cbn [map_err]; [|done|done].
  destruct (InternalPage.insert_separator lay n (sp_separator s) (sp_right s)) as [n'|e|]; [|done|done].
  destruct (InternalPage.is_overfull n'); cbn [negb].
  - destruct (BPlusTree.allocate_page p) as [[g'|e|] p1]; [|done|done]. destruct (InternalPage.split_into lay n') as [[[l r] sep]|e|]; [|done|done].
    destruct (BPlusTree.encode_internal tree g l p1) as [[g1|e|] p2]; [|done|done].
    destruct (BPlusTree.encode_internal tree g' r p2) as [[g2|e|] p3]; [|done|done]. apply IH.
  - destruct (BPlusTree.encode_internal tree g n' p) as [[g1|e|] p2]; done.
Qed.

(** ** Trees that grow *)

(** From [pages] to [pages'], where only pages of [Ix] were written, the internal pages [I]
    became [I']: the old ones are the same, new ones were not there before. *)
Record grown (pages pages' : gmap PageId bytes) (Ix I I' : list PageId) : Prop := {
  gr_mono : forall x, is_Some (pages !! x) -> is_Some (pages' !! x);
  gr_frame : forall x, is_Some (pages !! x) -> cnt x Ix = 0%nat -> pages' !! x = pages !! x;
  gr_old : forall x, is_Some (pages !! x) -> cnt x I' = cnt x I;
  gr_new : forall x, pages !! x = None -> (cnt x I' <= 1)%nat;
}.

Lemma grown_frame pages pages' Ix I I' ids : grown pages pages' Ix I I' -> (forall x, x ∈ ids -> is_Some (pages !! x) /\ cnt x Ix = 0%nat) ->
  same_at pages pages' ids.
Proof using. intros H Hi x Hx. destruct (Hi x Hx). by apply H. Qed.

(** The pages of a subtree are there. *)
Lemma ids_there h pages pid lo hi L I x : tree_at h pages pid lo hi L I -> (0 < cnt x (I ++ L.*1))%nat -> is_Some (pages !! x).
Proof using. intros Ht Hx. eapply tree_dom; [exact Ht|]. by apply cnt_elem. Qed.

Lemma before_there h pages lo cs ks lo' L I x : before_child (tree_at h pages) lo cs ks lo' L I -> (0 < cnt x (I ++ L.*1))%nat -> is_Some (pages !! x).
Proof using.
  induction 1 as [|c cs k ks lo lo' L1 I1 L2 I2 HR Hb IH]; cnt_simpl; [lia|]. intros Hx.
  destruct (decide (0 < cnt x (I1 ++ L1.*1))%nat) as [H1|H1]; [by eapply ids_there|]. cnt_simpl. apply IH. lia.
Qed.

Lemma after_there h pages lo hi cs ks L I x : after_child (tree_at h pages) lo hi cs ks L I -> (0 < cnt x (I ++ L.*1))%nat -> is_Some (pages !! x).
Proof using.
  destruct 1 as [|k hi cs ks L I Hc]; [cnt_simpl; lia|]. intros Hx%cnt_elem. eapply (chain_dom (tree_at h pages)); [|exact Hc|done]. intros. by eapply tree_dom.
Qed.

Lemma way_there pages h pid lo hi h' q lo' hi' ws L1 L2 I1 I2 x : way pages h pid lo hi h' q lo' hi' ws L1 L2 I1 I2 ->
  (0 < cnt x (I1 ++ I2 ++ L1.*1 ++ L2.*1))%nat -> is_Some (pages !! x).
Proof using.
  induction 1 as [|h pid lo hi p b c cs1 cs2 ks1 ks2 lo1 hi1 Lb Ib La Ia h' q lo' hi' ws L1 L2 I1 I2 Hn Hcs Hks Hb Ha Hw IH]; [cnt_simpl; lia|].
  intros Hx. cnt_simpl. destruct (decide (x = pid)) as [->|]; [by eexists; apply Hn|].
  destruct (decide (0 < cnt x Ib + cnt x Lb.*1)%nat) as [H1|H1]; [eapply before_there; [exact Hb|cnt_simpl; lia]|].
  destruct (decide (0 < cnt x Ia + cnt x La.*1)%nat) as [H2|H2]; [eapply after_there; [exact Ha|cnt_simpl; lia]|]. apply IH. lia.
Qed.

(** ** One page up *)

Lemma internal_fits b p : internal_is b p -> internal_wf lay p -> InternalPage.used_bytes p <= EntryArea.capacity INTERNAL_AREA.
Proof using.
  intros Hb Hw. rewrite (iused_is lay p Hw). pose proof (SlottedProofs.h_fit _ _ _ (iv_entries _ _ Hb)) as Hf. rewrite (ientries_length lay p Hw) in Hf.
  unfold EntryArea.capacity. lia.
Qed.

Lemma guard_len pages pid lo hi p b : node_at pages pid lo hi p b -> len b = PAGE_SIZE.
Proof using. intros Hn. apply (n_len _ _ _ _ (iv_node _ _ (na_bytes _ _ _ _ _ _ _ Hn))). Qed.

Section up.
Context (pages : gmap PageId bytes) (h : nat) (pid : PageId) (lo hi : bound) (p : InternalPage) (b : bytes).
Context (c r : PageId) (sep : IndexKey) (cs1 cs2 : list PageId) (ks1 ks2 : list IndexKey) (lo1 hi1 : bound).
Context (Lb La Lx Ly : leaves) (Ib Ia Ix Iy : list PageId).
Context (Hn : node_at pages pid lo hi p b) (Hcs : i_children p = cs1 ++ c :: cs2) (Hks : i_keys p = ks1 ++ ks2).
Context (Hb : before_child (tree_at h pages) lo cs1 ks1 lo1 Lb Ib) (Ha : after_child (tree_at h pages) hi1 hi cs2 ks2 La Ia).
Context (Hx : tree_at h pages c lo1 (Some sep) Lx Ix) (Hy : tree_at h pages r (Some sep) hi1 Ly Iy).
Context (Hsep : inside lo1 hi1 sep) (Hlen : len sep <= max_key_len lay) (Hr : page_id_valid r).

(** The separator goes between the child and its new sibling. *)
Lemma up_keys : (forall k, k ∈ ks1 -> klt k sep) /\ (forall k, k ∈ ks2 -> klt sep k).
Proof using Hn Hks Hb Ha Hsep.
  pose proof (iw_sorted _ _ (na_wf _ _ _ _ _ _ _ Hn)) as Hasc. rewrite Hks in Hasc. apply ascending_app in Hasc as (H1 & H2 & _). destruct Hsep as [Hlo Hhi].
  rewrite (before_low _ _ _ _ _ _ _ Hb) in Hlo. rewrite (after_high _ _ _ _ _ _ _ Ha) in Hhi. unfold low_of, high_of in *. split; intros k Hk.
  - destruct (list.last ks1) as [a|] eqn:Ea; [|by apply last_None in Ea as ->; apply not_elem_of_nil in Hk].
    cbn in Hlo. apply list_elem_of_lookup_1 in Hk as [i Hi]. rewrite last_lookup in Ea. destruct (decide (i = pred (length ks1))) as [->|Hne]; [congruence|].
    eapply klt_trans; [|exact Hlo]. apply (ascending_lookup ks1 i (pred (length ks1))); try done. apply lookup_lt_Some in Hi. lia.
  - destruct ks2 as [|a ks2']; [by apply not_elem_of_nil in Hk|]. cbn in Hhi. apply list.elem_of_cons in Hk as [->|Hk]; [done|].
    apply StronglySorted_inv in H2 as [_ H2]. rewrite list.Forall_forall in H2. eapply klt_trans; [exact Hhi|by apply H2].
Qed.

Lemma up_not_in : sep ∉ i_keys p.
Proof using Hn Hks Hb Ha Hsep.
  rewrite Hks. destruct up_keys as [H1 H2]. intros [Hi|Hi]%elem_of_app; [by apply (klt_irrefl sep), H1|by apply (klt_irrefl sep), H2].
Qed.

Lemma up_index : InternalPage.find_child_index p sep = length ks1.
Proof using Hn Hks Hb Ha Hsep.
  destruct up_keys as [H1 H2]. apply (find_unique lay); [apply Hn|rewrite Hks, length_app; lia|..]; intros j a Hj Hlt; rewrite Hks in Hj.
  - rewrite lookup_app_l in Hj by lia. apply klt_kle, H1. by eapply list_elem_of_lookup_2.
  - rewrite lookup_app_r in Hj by lia. apply H2. by eapply list_elem_of_lookup_2.
Qed.

Definition up_page : InternalPage := with_separator p (length ks1) sep r.

Lemma up_page_is : i_children up_page = cs1 ++ [c; r] ++ cs2 /\ i_keys up_page = ks1 ++ [sep] ++ ks2.
Proof using Hcs Hks Hb.
  unfold up_page, with_separator, InternalPage.insert_at. cbn [i_children i_keys]. rewrite Hcs, Hks. pose proof (before_length _ _ _ _ _ _ _ Hb) as Hl. split.
  - replace (cs1 ++ c :: cs2) with ((cs1 ++ [c]) ++ cs2) by (by rewrite <- app_assoc).
    rewrite take_app_length', drop_app_length' by (rewrite length_app; cbn; lia). by rewrite <- app_assoc.
  - by rewrite take_app_length, drop_app_length.
Qed.

Lemma up_wf : internal_wf lay up_page.
Proof using Hn Hks Hb Ha Hsep Hlen Hr. unfold up_page. rewrite <- up_index. apply with_separator_wf; [apply Hn|apply up_not_in|done|done]. Qed.

Lemma up_chain : chain (tree_at h pages) lo hi (i_children up_page) (i_keys up_page) (Lb ++ (Lx ++ Ly) ++ La) (Ib ++ (Ix ++ Iy) ++ Ia).
Proof using Hcs Hks Hb Ha Hx Hy.
  destruct up_page_is as [-> ->]. eapply chain_plug; [exact Hb| |exact Ha]. constructor; [done|by constructor].
Qed.

Lemma up_inside : Forall (inside lo hi) (i_keys up_page).
Proof using Hn Hcs Hks Hb Ha Hsep.
  destruct up_page_is as [_ ->]. pose proof (na_keys _ _ _ _ _ _ _ Hn) as Hin. rewrite Hks in Hin. apply Forall_app in Hin as [H1 H2].
  apply Forall_app. split; [done|]. constructor; [|done]. destruct Hsep as [Hlo Hhi].
  rewrite (before_low _ _ _ _ _ _ _ Hb) in Hlo. rewrite (after_high _ _ _ _ _ _ _ Ha) in Hhi. unfold low_of, high_of in *. split.
  - destruct (list.last ks1) as [a|] eqn:Ea; [|done]. apply last_Some_elem_of in Ea. rewrite list.Forall_forall in H1. destruct (H1 a Ea) as [Hl _].
    eapply strictly_above_weaken; [exact Hl|by apply klt_kle].
  - destruct ks2 as [|a ks2']; [done|]. apply Forall_cons_1 in H2 as [[_ H2] _]. by eapply below_weaken.
Qed.

(** Where the split goes from the page: nowhere, or on to the page's parent. *)
Definition up_result (h : nat) (pages' : gmap PageId bytes) (L : leaves) (I' : list PageId) (res : option Split) : Prop :=
  match res with
  | None => tree_at h pages' pid lo hi L I'
  | Some s => exists sep' r' L1 L2 I1 I2, s = mkSplit pid sep' r' /\ L = L1 ++ L2 /\ I' = I1 ++ I2 /\
      tree_at h pages' pid lo (Some sep') L1 I1 /\ tree_at h pages' r' (Some sep') hi L2 I2 /\
      inside lo hi sep' /\ len sep' <= max_key_len lay /\ page_id_valid r'
  end.

Abbreviation L := (Lb ++ (Lx ++ Ly) ++ La).
Abbreviation I := (pid :: Ib ++ (Ix ++ Iy) ++ Ia).

Context (Hnd : forall x, (cnt x (I ++ L.*1) <= 1)%nat).

Lemma up_there x : (0 < cnt x (I ++ L.*1))%nat -> is_Some (pages !! x).
Proof using Hn Hb Ha Hx Hy Hnd.
  intros H0. cnt_simpl. destruct (decide (x = pid)) as [->|]; [by eexists; apply Hn|].
  destruct (decide (0 < cnt x Ib + cnt x Lb.*1)%nat) as [H1|H1]; [eapply before_there; [exact Hb|cnt_simpl; lia]|].
  destruct (decide (0 < cnt x Ia + cnt x La.*1)%nat) as [H2|H2]; [eapply after_there; [exact Ha|cnt_simpl; lia]|].
  destruct (decide (0 < cnt x Ix + cnt x Lx.*1)%nat) as [H3|H3]; [eapply ids_there; [exact Hx|cnt_simpl; lia]|].
  eapply ids_there; [exact Hy|cnt_simpl; lia].
Qed.

(** Pages that differ only at the page and at one that is new have the same children. *)
Lemma up_children pages' new cs ks lo' hi' L' I' : (forall x, x <> pid -> x <> new -> pages' !! x = pages !! x) -> pages !! new = None ->
  (forall x, cnt x (I' ++ L'.*1) <= cnt x (Ib ++ (Ix ++ Iy) ++ Ia) + cnt x L.*1)%nat ->
  chain (tree_at h pages) lo' hi' cs ks L' I' -> chain (tree_at h pages') lo' hi' cs ks L' I'.
Proof using Hn Hb Ha Hx Hy Hnd.
  intros Hsame Hnew Hsub Hc.
  assert (Hids : forall x, (0 < cnt x (I' ++ L'.*1))%nat -> pages' !! x = pages !! x).
  { intros x H0. specialize (Hsub x). pose proof (Hnd x) as Hnx. assert (Hpos : (0 < cnt x (I ++ L.*1))%nat) by (cnt_simpl; lia).
    destruct (up_there x Hpos) as [bx Hbx]. apply Hsame; [|congruence]. intros ->. cnt_simpl. rewrite decide_True in Hnx by done. lia. }
  eapply chain_frame; [exact Hc|..]; intros x H0%cnt_elem; apply Hids; cnt_simpl; lia.
Qed.

Lemma up_stays pages' b' : pages' = <[pid := b']> pages -> internal_is b' (up_page) -> tree_at (S h) pages' pid lo hi L I /\ grown pages pages' [pid] I I.
Proof using Hn Hcs Hks Hb Ha Hx Hy Hsep Hlen Hr Hnd.
  intros -> Hb'. split.
  - exists up_page, b', (Ib ++ (Ix ++ Iy) ++ Ia). split_and!; [|done|].
    + split; [by rewrite lookup_insert_eq|done|apply up_wf|apply up_inside].
    + pose proof up_chain as Hc. eapply chain_frame; [exact Hc|..]; intros x H0%cnt_elem; rewrite lookup_insert_ne; try done; intros <-;
        pose proof (Hnd pid) as Hnx; cnt_simpl; rewrite decide_True in Hnx by done; lia.
  - assert (Hp : pages !! pid = Some b) by apply Hn. split; [| |done|].
    + intros x [bx Hbx]. destruct (decide (x = pid)) as [->|]; [by rewrite lookup_insert_eq|by rewrite lookup_insert_ne, Hbx].
    + intros x _ Hc. cbn in Hc. rewrite lookup_insert_ne; [done|]. intros <-. by rewrite decide_True in Hc.
    + intros x Hnone. destruct (decide (0 < cnt x (I ++ L.*1))%nat) as [H0|H0]; [destruct (up_there x H0); congruence|]. cnt_simpl. lia.
Qed.

Lemma up_splits pages' new l r' sep' bl br : pages !! new = None -> page_id_valid new -> pages' = <[new := br]> (<[pid := bl]> (<[new := zero_page]> pages)) ->
  ihalves lay up_page l r' sep' -> internal_is bl l -> internal_is br r' ->
  exists I', up_result (S h) pages' L I' (Some (mkSplit pid sep' new)) /\ grown pages pages' [pid] I I'.
Proof using Hn Hcs Hks Hb Ha Hx Hy Hsep Hlen Hr Hnd.
  intros Hnew Hval -> [Hl Hrr _ _ Ekeys Echildren] Hbl Hbr. assert (Hp : pages !! pid = Some b) by apply Hn. assert (Hne : new <> pid) by congruence.
  pose proof up_chain as Hc. pose proof up_inside as Hin. rewrite <- Ekeys, <- Echildren in *.
  destruct (chain_cut _ _ _ _ _ _ _ _ _ _ Hc (iw_children _ _ Hl)) as (L1 & L2 & I1 & I2 & EL & EI & Hc1 & Hc2).
  pose proof (iw_sorted _ _ up_wf) as Hasc. rewrite <- Ekeys in Hasc. apply ascending_app in Hasc as (_ & Hgt & Hlt). apply StronglySorted_inv in Hgt as [_ Hgt].
  apply Forall_app in Hin as [Hin1 Hin2]. apply Forall_cons_1 in Hin2 as [Hins Hin2].
  assert (Hsame : forall x, x <> pid -> x <> new -> <[new := br]> (<[pid := bl]> (<[new := zero_page]> pages)) !! x = pages !! x).
  { intros x H1 H2. by rewrite !lookup_insert_ne by congruence. }
  assert (Hsub : forall x, (cnt x (Ib ++ (Ix ++ Iy) ++ Ia) = cnt x I1 + cnt x I2 /\ cnt x L.*1 = cnt x L1.*1 + cnt x L2.*1)%nat).
  { intros x. rewrite EI, EL. cnt_simpl. lia. }
  exists ((pid :: I1) ++ (new :: I2)). split.
  - exists sep', new, L1, L2, (pid :: I1), (new :: I2). split_and!; try done.
    + exists l, bl, I1. split_and!; [|done|].
      * split; [by rewrite lookup_insert_ne, lookup_insert_eq by congruence|done|done|]. rewrite list.Forall_forall in *. intros k Hk. split; [by apply Hin1|].
        cbn. apply Hlt; [done|by left].
      * eapply (up_children _ new); [exact Hsame|done| |exact Hc1]. intros x. specialize (Hsub x). cnt_simpl. lia.
    + exists r', br, I2. split_and!; [|done|].
      * split; [by rewrite lookup_insert_eq|done|done|]. rewrite list.Forall_forall in *. intros k Hk. split; [cbn; by apply Hgt|by apply Hin2].
      * eapply (up_children _ new); [exact Hsame|done| |exact Hc2]. intros x. specialize (Hsub x). cnt_simpl. lia.
    + pose proof (iw_keys _ _ up_wf) as Hkl. rewrite <- Ekeys in Hkl. rewrite list.Forall_forall in Hkl. apply Hkl. apply elem_of_app. right. by left.
  - split.
    + intros x [bx Hbx]. destruct (decide (x = pid)) as [->|]; [by rewrite lookup_insert_ne, lookup_insert_eq by congruence|].
      rewrite Hsame by congruence. by exists bx.
    + intros x [bx Hbx] Hcx. cbn in Hcx. apply Hsame; [|congruence]. intros ->. by rewrite decide_True in Hcx.
    + intros x [bx Hbx]. specialize (Hsub x). cnt_simpl. rewrite (decide_False (P := x = new)) by congruence. lia.
    + intros x Hnone. specialize (Hsub x). destruct (decide (0 < cnt x (I ++ L.*1))%nat) as [H0|H0]; [destruct (up_there x H0); congruence|].
      cnt_simpl. repeat case_decide; lia.
Qed.

Lemma up_runs pool : pool_pages pool = pages ->
  runs (BPlusTree.split_loop tree [mkGuard pid b] (mkSplit c sep r) pool) (fun res pages' =>
    exists I', up_result (S h) pages' L I' res /\ grown pages pages' [pid] I I' /\
      (res = None \/ EntryArea.capacity INTERNAL_AREA < InternalPage.used_bytes p + Layout.internal_max_entry_bytes lay)).
Proof using All.
  intros Hpool. cbn [BPlusTree.split_loop g_data]. rewrite (bind_coded p) by (apply (decode_internal lay b p); apply Hn).
  rewrite (bind_pure up_page). 2:{ cbn [sp_separator sp_right]. unfold up_page. rewrite <- up_index. apply insert_separator_ok; [apply Hn|apply up_not_in|done|done]. }
  pose proof (guard_len _ _ _ _ _ _ Hn) as Hbl. assert (Hp : pages !! pid = Some b) by apply Hn.
  destruct (InternalPage.is_overfull up_page) eqn:Eo; cbn [negb].
  - pose proof (internal_fits b p (na_bytes _ _ _ _ _ _ _ Hn) (na_wf _ _ _ _ _ _ _ Hn)) as Hfit. pose proof (icost_bounds lay sep Hlen) as Hcost.
    pose proof (with_separator_used p (length ks1) sep r) as Hu. fold up_page in Hu.
    eapply runs_bind; [apply allocate_runs|]. rewrite Hpool. intros g p1 (Hnew & Hval & Hz & Hp1).
    destruct (split_internal_ok (E := IndexError BE) lay Hok up_page up_wf Eo ltac:(lia)) as (l & rr & sep' & Es & Hh).
    rewrite (bind_pure (l, rr, sep')) by done. assert (g_id g <> pid) by congruence.
    eapply runs_bind; [apply encode_internal_runs; [apply Hh|apply Hh|done|rewrite Hp1; cbn [g_id]; rewrite lookup_insert_ne by done; by rewrite Hp]|].
    intros g1 p2 (bl & Hbl' & -> & Hp2). cbn [g_id] in *.
    eapply runs_bind; [apply encode_internal_runs; [apply Hh|apply Hh|rewrite Hz; apply zero_page_len|rewrite Hp2, Hp1, lookup_insert_ne, lookup_insert_eq by done; by eexists]|].
    intros g2 p3 (br & Hbr & -> & Hp3). apply runs_ret. cbn [g_id].
    destruct (up_splits (pool_pages p3) (g_id g) l rr sep' bl br) as (I' & H1 & H2); [done|done|by rewrite Hp3, Hp2, Hp1|done|done|done|].
    exists I'. split_and!; [done|done|]. right. apply Z.ltb_lt in Eo. lia.
  - eapply runs_bind; [apply encode_internal_runs; [apply up_wf|done|done|cbn [g_id]; by rewrite Hpool, Hp]|].
    intros g1 p2 (b' & Hb' & -> & Hp2). apply runs_ret. cbn [g_id] in Hp2. rewrite Hpool in Hp2.
    destruct (up_stays (pool_pages p2) b' Hp2 Hb') as [H1 H2]. exists I. split_and!; [done|done|by left].
Qed.

End up.

(** ** All the way up *)

(** The highest page of the path may split. *)
Definition top_unsafe (ws : list PageMut) : Prop :=
  forall g, list.last ws = Some g -> exists p, internal_is (g_data g) p /\ internal_wf lay p /\
    EntryArea.capacity INTERNAL_AREA < InternalPage.used_bytes p + Layout.internal_max_entry_bytes lay.

Lemma absent {A} (o : option A) : o = None -> is_Some o -> False.
Proof using. intros -> [x Hx]. done. Qed.

Lemma grown_around pages pages' pid Ib Ia L Ix I I' : grown pages pages' Ix I I' ->
  (forall x, (0 < cnt x (pid :: Ib ++ Ia ++ L))%nat -> is_Some (pages !! x)) ->
  grown pages pages' (pid :: Ib ++ Ix ++ Ia) (pid :: Ib ++ I ++ Ia) (pid :: Ib ++ I' ++ Ia).
Proof using.
  intros [H1 H2 H3 H4] Hd. split.
  - done.
  - intros x Hx Hc. apply H2; [done|]. cnt_simpl. lia.
  - intros x Hx. specialize (H3 x Hx). cnt_simpl. lia.
  - intros x Hx. specialize (H4 x Hx). destruct (decide (0 < cnt x (pid :: Ib ++ Ia ++ L))%nat) as [H0|H0]; [destruct (absent _ Hx (Hd x H0))|]. cnt_simpl. lia.
Qed.

Lemma grown_trans pages1 pages2 pages3 Ix Ix' I1 I2 I3 : grown pages1 pages2 Ix I1 I2 -> grown pages2 pages3 Ix' I2 I3 ->
  (forall x, is_Some (pages1 !! x) -> (cnt x Ix' <= cnt x Ix)%nat) -> grown pages1 pages3 Ix I1 I3.
Proof using.
  intros [A1 A2 A3 A4] [B1 B2 B3 B4] Hs. split.
  - auto.
  - intros x Hx Hc. rewrite B2; [by apply A2|by apply A1|]. specialize (Hs x Hx). lia.
  - intros x Hx. rewrite B3 by (by apply A1). by apply A3.
  - intros x Hx. destruct (pages2 !! x) eqn:E2; [rewrite B3 by (by eexists); by apply A4|by apply B4].
Qed.

Lemma split_loop_runs pages h pid lo hi h' q lo' hi' ws L1 L2 I1 I2 : way pages h pid lo hi h' q lo' hi' ws L1 L2 I1 I2 ->
  forall pool sep r Lx Ly Ix Iy, pool_pages pool = pages -> tree_at h' pages q lo' (Some sep) Lx Ix -> tree_at h' pages r (Some sep) hi' Ly Iy ->
  inside lo' hi' sep -> len sep <= max_key_len lay -> page_id_valid r ->
  (forall x, (cnt x ((I1 ++ (Ix ++ Iy) ++ I2) ++ (L1 ++ (Lx ++ Ly) ++ L2).*1) <= 1)%nat) ->
  runs (BPlusTree.split_loop tree ws (mkSplit q sep r) pool) (fun res pages' =>
    exists I', up_result pid lo hi h pages' (L1 ++ (Lx ++ Ly) ++ L2) I' res /\ grown pages pages' (I1 ++ I2) (I1 ++ (Ix ++ Iy) ++ I2) I' /\
      (res = None \/ top_unsafe ws)).
Proof using Laws Hok.
  induction 1 as [h pid lo hi|h pid lo hi p b c cs1 cs2 ks1 ks2 lo1 hi1 Lb Ib La Ia h' q lo' hi' ws L1 L2 I1 I2 Hn Hcs Hks Hb Ha Hw IH];
    intros pool sep r Lx Ly Ix Iy Hpool Hx Hy Hsep Hlen Hr Hnd.
  { apply runs_ret. exists (Ix ++ Iy). split_and!.
    - exists sep, r, Lx, Ly, Ix, Iy. cbn. rewrite app_nil_r. split_and!; try done; by rewrite Hpool.
    - cbn. rewrite app_nil_r. rewrite Hpool. split; [done|done|done|]. intros x _. specialize (Hnd x). cnt_simpl. lia.
    - right. done. }
  assert (Hthere : forall x, (0 < cnt x (pid :: Ib ++ Ia ++ Lb.*1 ++ La.*1))%nat -> is_Some (pages !! x)).
  { intros x H0. cnt_simpl. destruct (decide (x = pid)) as [->|]; [by eexists; apply Hn|].
    destruct (decide (0 < cnt x Ib + cnt x Lb.*1)%nat) as [H1|H1]; [eapply before_there; [exact Hb|cnt_simpl; lia]|].
    eapply after_there; [exact Ha|cnt_simpl; lia]. }
  rewrite split_loop_app. eapply runs_bind; [apply (IH pool sep r Lx Ly Ix Iy); try done; intros x; specialize (Hnd x); cnt_simpl; lia|].
  intros res p1 (I' & Hres & Hgr & _). set (pages1 := pool_pages p1) in *.
  set (Lin := L1 ++ (Lx ++ Ly) ++ L2) in *. set (Iin := I1 ++ (Ix ++ Iy) ++ I2) in *.
  assert (EL : (Lb ++ L1) ++ (Lx ++ Ly) ++ L2 ++ La = Lb ++ Lin ++ La) by (unfold Lin; by rewrite <- !app_assoc).
  assert (EI : (pid :: Ib ++ I1) ++ (Ix ++ Iy) ++ I2 ++ Ia = pid :: Ib ++ Iin ++ Ia) by (unfold Iin; cbn [app]; by rewrite <- !app_assoc).
  assert (EX : (pid :: Ib ++ I1) ++ I2 ++ Ia = pid :: Ib ++ (I1 ++ I2) ++ Ia) by (cbn [app]; by rewrite <- !app_assoc).
  rewrite EL, EI, EX in *.
  assert (Hnd' : forall x, (cnt x ((pid :: Ib ++ I' ++ Ia) ++ (Lb ++ Lin ++ La).*1) <= 1)%nat).
  { intros x. pose proof (Hnd x) as Hx0. destruct (pages !! x) eqn:Ex.
    - pose proof (gr_old _ _ _ _ _ Hgr x ltac:(by eexists)). cnt_simpl. lia.
    - pose proof (gr_new _ _ _ _ _ Hgr x Ex). assert (H0 : (cnt x (pid :: Ib ++ Ia ++ Lb.*1 ++ La.*1) = 0)%nat).
      { destruct (decide (0 < cnt x (pid :: Ib ++ Ia ++ Lb.*1 ++ La.*1))%nat) as [H0|]; [destruct (absent _ Ex (Hthere x H0))|lia]. }
      assert (Hlin : (cnt x Lin.*1 = 0)%nat).
      { destruct (decide (0 < cnt x Lin.*1)%nat) as [H1|]; [|lia]. exfalso. unfold Lin in H1. cnt_simpl.
        destruct (decide (0 < cnt x Lx.*1)%nat); [eapply (absent _ Ex), ids_there; [exact Hx|cnt_simpl; lia]|].
        destruct (decide (0 < cnt x Ly.*1)%nat); [eapply (absent _ Ex), ids_there; [exact Hy|cnt_simpl; lia]|].
        eapply (absent _ Ex), way_there; [exact Hw|cnt_simpl; lia]. }
      cnt_simpl. lia. }
  assert (Hsame : same_at pages pages1 (pid :: Ib ++ Ia ++ Lb.*1 ++ La.*1)).
  { intros x H0%cnt_elem. apply (gr_frame _ _ _ _ _ Hgr); [by apply Hthere|]. specialize (Hnd x). unfold Iin in Hnd. cnt_simpl. lia. }
  assert (Hn1 : node_at pages1 pid lo hi p b). { destruct Hn as [N1 N2 N3 N4]. split; try done. rewrite <- N1. apply Hsame. by left. }
  assert (Hb1 : before_child (tree_at h pages1) lo cs1 ks1 lo1 Lb Ib).
  { eapply before_frame; [exact Hb|..]; eapply same_at_sub; try exact Hsame; intros x H0%cnt_elem; apply cnt_elem; cnt_simpl; lia. }
  assert (Ha1 : after_child (tree_at h pages1) hi1 hi cs2 ks2 La Ia).
  { eapply after_frame; [exact Ha|..]; eapply same_at_sub; try exact Hsame; intros x H0%cnt_elem; apply cnt_elem; cnt_simpl; lia. }
  pose proof (grown_around pages pages1 pid Ib Ia (Lb.*1 ++ La.*1) _ _ _ Hgr Hthere) as Hgr'.
  destruct res as [s|].
  - destruct Hres as (sep' & r' & La' & Lb' & Ia' & Ib' & -> & E1 & -> & Ht1 & Ht2 & Hins & Hlen' & Hr'). rewrite E1 in *.
    pose proof (up_runs pages1 h pid lo hi p b c r' sep' cs1 cs2 ks1 ks2 lo1 hi1 Lb La La' Lb' Ib Ia Ia' Ib' Hn1 Hcs Hks Hb1 Ha1 Ht1 Ht2 Hins Hlen' Hr' Hnd' p1 eq_refl) as Hup.
    unfold runs in *. destruct (BPlusTree.split_loop tree [mkGuard pid b] (mkSplit c sep' r') p1) as [[res|e|] p2]; [|done|done].
    destruct Hup as (I2' & Hres2 & Hgr2 & Hsafe). exists I2'. split_and!; [done| |].
    + eapply grown_trans; [exact Hgr'|exact Hgr2|]. intros x _. cnt_simpl. lia.
    + destruct Hsafe as [->|Hsafe]; [by left|]. right. intros g Hg. rewrite last_snoc in Hg. injection Hg as <-. exists p. split_and!; [apply Hn|apply Hn|done].
  - apply runs_ret. exists (pid :: Ib ++ I' ++ Ia). split_and!; [|done|by left]. exists p, b, (Ib ++ I' ++ Ia). split_and!; [done|done|].
    rewrite Hcs, Hks. change (ks1 ++ ks2) with (ks1 ++ [] ++ ks2). change (cs1 ++ c :: cs2) with (cs1 ++ [c] ++ cs2).
    eapply chain_plug; [exact Hb1|by constructor|exact Ha1].
Qed.

End split.
