(* ===== verification/BPlusTreeLatch.v ===== *)
(** * Latching a path of a B+ tree

    The loops that latch the leaf for a key, for an insert or a remove that cannot spread and
    for one that may: what is latched is the part of the way from the lowest page that is
    safe. *)

From Stdlib Require Import ZArith Lia String Sorted.
From stdpp Require Import base list numbers option gmap.
From S2P Require Import Prelude Bytes Ids Buf Str TableHeap Slotted BPlusPage PageView BPlusKeys PageViewProofs.
From S2P Require Import LeafContents LeafViewProofs PageCodecProofs BPlusSplit InternalOps BPlusTree BPlusTreeInv BPlusTreeWalk.

Local Open Scope Z_scope.

Section latch.
Context (tree : BPlusTree) (Hok : layout_ok (layout tree)).
Context {P BE : Type} {Pool : PagePool P BE} {Laws : PagePoolLaws P BE}.

Abbreviation lay := (layout tree).
Abbreviation tree_at := (tree_at lay).
Abbreviation leaf_at := (leaf_at lay).
Abbreviation node_at := (node_at lay).
Abbreviation way := (way tree).

(** One page down the way. *)
Lemma way_step pages h pid lo hi p b c cs1 cs2 ks1 ks2 lo1 hi1 Lb Ib La Ia :
  node_at pages pid lo hi p b -> i_children p = cs1 ++ c :: cs2 -> i_keys p = ks1 ++ ks2 ->
  before_child (tree_at h pages) lo cs1 ks1 lo1 Lb Ib -> after_child (tree_at h pages) hi1 hi cs2 ks2 La Ia ->
  way pages (S h) pid lo hi h c lo1 hi1 [mkGuard pid b] Lb La (pid :: Ib) Ia.
Proof using.
  intros Hn Hcs Hks Hb Ha. pose proof (way_down tree pages h pid lo hi p b c cs1 cs2 ks1 ks2 lo1 hi1 Lb Ib La Ia h c lo1 hi1 [] [] [] [] []
    Hn Hcs Hks Hb Ha (way_here tree pages h c lo1 hi1)) as H. by rewrite !app_nil_r in H.
Qed.

Lemma kind_leaf b p : leaf_is lay b p -> kind b = Ok KLeaf.
Proof using. intros Hb. unfold kind. erewrite peek_ok by apply Hb. done. Qed.

Lemma kind_internal b p : internal_is b p -> kind b = Ok KInternal.
Proof using. intros Hb. unfold kind. erewrite peek_ok by apply Hb. done. Qed.

Lemma node_view_leaf b p : leaf_is lay b p -> leaf_wf lay p -> NodeView.new lay b = Ok NLeaf.
Proof using Hok.
  intros Hb Hw. pose proof (lo_cap _ Hok). pose proof (lo_room _ Hok). unfold NodeView.new. erewrite peek_ok by apply Hb. cbn.
  by rewrite (check_new lay ltac:(lia) ltac:(lia) b p Hb Hw).
Qed.

Lemma node_view_internal b p : internal_is b p -> internal_wf lay p -> NodeView.new lay b = Ok NInternal.
Proof using. intros Hb Hw. unfold NodeView.new. erewrite peek_ok by apply Hb. cbn. by rewrite (icheck_new lay b p Hb Hw). Qed.

(** The page a tree starts at, with its kind. *)
Lemma tree_root h pages pid lo hi L I : tree_at h pages pid lo hi L I -> exists b, pages !! pid = Some b /\
  match h with
  | O => exists p, leaf_is lay b p /\ leaf_at pages pid lo hi p /\ L = [(pid, p)] /\ I = []
  | S h => exists p I', node_at pages pid lo hi p b /\ I = pid :: I' /\ chain (tree_at h pages) lo hi (i_children p) (i_keys p) L I'
  end.
Proof using.
  destruct h; cbn.
  - intros (p & [(b & Hb & His) Hw Hk] & -> & ->). exists b. split; [done|]. exists p. split_and!; try done. split; [by exists b|done|done].
  - intros (p & b & I' & Hn & -> & Hc). exists b. split; [apply Hn|]. by exists p, I'.
Qed.

(** ** The optimistic descent *)

Lemma latch_leaf_gives h : forall pid lo hi L I key p b fuel, tree_at h (pool_pages p) pid lo hi L I -> within lo hi key ->
  pool_pages p !! pid = Some b -> (h < fuel)%nat ->
  gives (BPlusTree.latch_leaf_loop fuel (mkGuard pid b) key p) (pool_pages p) (fun r =>
    match h with
    | O => r = None
    | S _ => exists g, r = Some g /\ leads tree (pool_pages p) h pid lo hi key L I g
    end).
Proof using Laws.
  induction h as [|h IH]; intros pid lo hi L I key p b fuel Ht Hin Hb Hf; (destruct fuel as [|fuel]; [lia|]); cbn [BPlusTree.latch_leaf_loop];
    destruct (tree_root _ _ _ _ _ _ _ Ht) as (b' & Hb' & Hroot); assert (b' = b) as -> by congruence.
  - destruct Hroot as (lf & His & Hlf & -> & ->). rewrite (bind_pure None) by (by eapply child_for_key_leaf). by apply gives_ret.
  - destruct Hroot as (np & I' & Hn & -> & Hc).
    destruct (child_focus tree _ _ _ _ h np b key L I' Hn Hin Hc) as (c & cs1 & cs2 & ks1 & ks2 & lo1 & hi1 & Lb & Lc & La & Ib & Ic & Ia & Ecs & Eks & Hi & -> & -> & Hbc & Hac & Hct & Hin').
    destruct (child_for_key_node tree _ _ _ _ np b key Hn) as (c' & Hc' & Ec). assert (c' = c) as -> by congruence.
    rewrite (bind_pure (Some c)) by apply Ec. destruct (tree_root _ _ _ _ _ _ _ Hct) as (bc & Hbcs & Hcroot).
    eapply gives_bind; [apply (read_page_gives c p bc Hbcs)|]. intros g p' Hp ->. rewrite <- Hp in *. cbn [g_data]. destruct h as [|h].
    + destruct Hcroot as (lf & His & Hlf & -> & ->). rewrite (bind_coded KLeaf) by (by eapply kind_leaf).
      eapply gives_bind; [by apply (read_page_gives c p' bc)|]. intros g p'' Hp'' ->. apply gives_ret; [done|]. exists (mkGuard c bc). split; [done|].
      eapply leads_down; try done. eexists lo1, hi1, [], [], [], [], [], lf. split_and!; try done. constructor.
    + destruct Hcroot as (cp & I2 & Hcn & HI & Hcc). rewrite (bind_coded KInternal) by (eapply kind_internal, Hcn).
      destruct (IH c lo1 hi1 Lc Ic key p' bc fuel Hct Hin' Hbcs ltac:(lia)) as [E1 E2]. split; [done|].
      destruct (BPlusTree.latch_leaf_loop fuel (mkGuard c bc) key p') as [[r|e|] p'']; [|done|done]. cbn [fst] in *.
      destruct E2 as (g & -> & Hg). exists g. split; [done|]. by eapply leads_down.
Qed.

(** ** The pessimistic descent *)

Section path.
Context (is_safe : NodeKind -> bytes -> outcome (IndexError BE) bool) (Safe : bytes -> Prop).
Context (safe_leaf : forall b p, leaf_is lay b p -> leaf_wf lay p -> exists s, is_safe NLeaf b = Ok s /\ (s = true -> Safe b)).
Context (safe_internal : forall b p, internal_is b p -> internal_wf lay p -> exists s, is_safe NInternal b = Ok s /\ (s = true -> Safe b)).
Context (pages : gmap PageId bytes) (root : PageId) (hr : nat) (hg : PageMut).

(** The pages latched on the way from the root to the page of guard [g]: those from an
    anchor on. The anchor is the root, and the header is latched, or it is safe. *)
Definition held (ctx : TreeContext) (h : nat) (g : PageMut) (lo hi : bound) (L1 L2 : leaves) (I1 I2 : list PageId) : Prop :=
  exists ha a loa hia ws1 ws2 La1 Lb1 Ia1 Ib1 La2 Lb2 Ia2 Ib2,
    way pages hr root None None ha a loa hia ws1 La1 Lb1 Ia1 Ib1 /\ way pages ha a loa hia h (g_id g) lo hi ws2 La2 Lb2 Ia2 Ib2 /\
    c_write_set ctx = g :: ws2 /\ c_root ctx = root /\ L1 = La1 ++ La2 /\ L2 = Lb2 ++ Lb1 /\ I1 = Ia1 ++ Ia2 /\ I2 = Ib2 ++ Ib1 /\
    ((c_header ctx = Some hg /\ ha = hr /\ a = root /\ loa = None /\ hia = None /\ La1 = [] /\ Lb1 = [] /\ Ia1 = [] /\ Ib1 = []) \/
     (exists t, list.last (g :: ws2) = Some t /\ Safe (g_data t))).

Lemma held_step ctx h g lo hi L1 L2 I1 I2 np c cs1 cs2 ks1 ks2 lo1 hi1 Lb Ib La Ia bc s :
  held ctx (S h) g lo hi L1 L2 I1 I2 -> node_at pages (g_id g) lo hi np (g_data g) -> i_children np = cs1 ++ c :: cs2 -> i_keys np = ks1 ++ ks2 ->
  before_child (tree_at h pages) lo cs1 ks1 lo1 Lb Ib -> after_child (tree_at h pages) hi1 hi cs2 ks2 La Ia -> (s = true -> Safe bc) ->
  held (descend_into ctx (mkGuard c bc) s) h (mkGuard c bc) lo1 hi1 (L1 ++ Lb) (La ++ L2) (I1 ++ g_id g :: Ib) (Ia ++ I2).
Proof using.
  intros (ha & a & loa & hia & ws1 & ws2 & La1 & Lb1 & Ia1 & Ib1 & La2 & Lb2 & Ia2 & Ib2 & Hw1 & Hw2 & Ews & Er & -> & -> & -> & -> & Hanchor) Hn Hcs Hks Hb Ha Hs.
  pose proof (way_step _ _ _ _ _ _ _ _ _ _ _ _ _ _ _ _ _ _ Hn Hcs Hks Hb Ha) as Hstep. pose proof (way_trans tree _ _ _ _ _ _ _ _ _ _ _ _ _ _ _ _ _ _ _ _ _ _ _ Hw2 Hstep) as Hw3.
  destruct s; unfold held, descend_into; cbn [g_id c_write_set c_root c_header].
  - pose proof (way_trans tree _ _ _ _ _ _ _ _ _ _ _ _ _ _ _ _ _ _ _ _ _ _ _ Hw1 Hw3) as Hw4.
    eexists h, c, lo1, hi1, _, [], _, _, _, _, [], [], [], []. split; [exact Hw4|]. split; [constructor|]. rewrite !app_nil_r. cbn [app].
    rewrite <- !app_assoc. split_and!; try done. right. eexists. split; [done|]. by apply Hs.
  - exists ha, a, loa, hia, ws1, ([mkGuard (g_id g) (g_data g)] ++ ws2), La1, Lb1, Ia1, Ib1, (La2 ++ Lb), (La ++ Lb2), (Ia2 ++ g_id g :: Ib), (Ia ++ Ib2).
    split; [done|]. split; [done|]. rewrite <- !app_assoc. split_and!; try done.
    + rewrite Ews. by destruct g.
    + destruct Hanchor as [?|(t & Ht & Hst)]; [by left|right]. exists t. split; [|done]. cbn [app]. rewrite last_cons_cons. destruct g. done.
Qed.

Lemma latch_path_gives h : forall key ctx g lo hi L1 L2 I1 I2 L I p fuel, pool_pages p = pages ->
  held ctx h g lo hi L1 L2 I1 I2 -> tree_at h pages (g_id g) lo hi L I -> pages !! g_id g = Some (g_data g) -> within lo hi key -> (h < fuel)%nat ->
  gives (BPlusTree.latch_path_loop tree fuel ctx key is_safe p) pages (fun ctx' =>
    exists g' lo' hi' L1' L2' I1' I2' lf, held ctx' 0 g' lo' hi' L1' L2' I1' I2' /\ leaf_at pages (g_id g') lo' hi' lf /\
      pages !! g_id g' = Some (g_data g') /\ leaf_is lay (g_data g') lf /\ within lo' hi' key /\
      L1 ++ L ++ L2 = L1' ++ (g_id g', lf) :: L2' /\ I1 ++ I ++ I2 = I1' ++ I2').
Proof using Laws Hok safe_leaf safe_internal.
  induction h as [|h IH]; intros key ctx g lo hi L1 L2 I1 I2 L I p fuel Hpool Hheld Ht Hg Hin Hf; (destruct fuel as [|fuel]; [lia|]);
    cbn [BPlusTree.latch_path_loop]; destruct (tree_root _ _ _ _ _ _ _ Ht) as (b & Hb & Hroot); assert (b = g_data g) as -> by congruence;
    rewrite (bind_pure g) by (destruct Hheld as (? & ? & ? & ? & ? & ? & ? & ? & ? & ? & ? & ? & ? & ? & _ & _ & -> & _); done).
  - destruct Hroot as (lf & His & Hlf & -> & ->). rewrite (bind_pure None) by (by eapply child_for_key_leaf). apply gives_ret; [done|].
    by exists g, lo, hi, L1, L2, I1, I2, lf.
  - destruct Hroot as (np & I' & Hn & -> & Hc).
    destruct (child_focus tree _ _ _ _ h np _ key L I' Hn Hin Hc) as (c & cs1 & cs2 & ks1 & ks2 & lo1 & hi1 & Lb & Lc & La & Ib & Ic & Ia & Ecs & Eks & Hi & -> & -> & Hbc & Hac & Hct & Hin').
    destruct (child_for_key_node tree _ _ _ _ np _ key Hn) as (c' & Hc' & Ec). assert (c' = c) as -> by congruence.
    rewrite (bind_pure (Some c)) by apply Ec. destruct (tree_root _ _ _ _ _ _ _ Hct) as (bc & Hbcs & Hcroot).
    pose proof (read_page_gives c p bc ltac:(by rewrite Hpool)) as Hrd. rewrite Hpool in Hrd. eapply gives_bind; [exact Hrd|]. intros g' p' Hp ->. cbn [g_data].
    assert (Hview : exists k s, NodeView.new lay bc = Ok k /\ is_safe k bc = Ok s /\ (s = true -> Safe bc)).
    { destruct h; destruct Hcroot as (cp & Hcroot).
      - destruct Hcroot as (His & [_ Hw _] & _ & _). destruct (safe_leaf bc cp His Hw) as (s & ? & ?). exists NLeaf, s. split; [|done]. by eapply node_view_leaf.
      - destruct Hcroot as (I2' & [_ Hib Hw _] & _ & _). destruct (safe_internal bc cp Hib Hw) as (s & ? & ?). exists NInternal, s. split; [|done]. by eapply node_view_internal. }
    destruct Hview as (k & s & Ek & Es & Hs). rewrite (bind_coded k), (bind_pure s) by done.
    pose proof (held_step _ _ _ _ _ _ _ _ _ _ _ _ _ _ _ _ _ _ _ _ _ bc s Hheld Hn Ecs Eks Hbc Hac Hs) as Hheld'.
    destruct (IH key _ (mkGuard c bc) lo1 hi1 _ _ _ _ Lc Ic p' fuel Hp Hheld' Hct Hbcs Hin' ltac:(lia)) as [E1 E2]. split; [done|].
    destruct (BPlusTree.latch_path_loop tree fuel _ key is_safe p') as [[r|e|] p'']; [|done|done]. cbn [fst] in *.
    destruct E2 as (g' & lo' & hi' & L1' & L2' & I1' & I2' & lf & R1 & R2 & R3 & R4 & R5 & R6 & R7). exists g', lo', hi', L1', L2', I1', I2', lf.
    split_and!; try done; [rewrite <- R6|rewrite <- R7]; rewrite <- ?app_assoc; cbn [app]; rewrite <- ?app_assoc; done.
Qed.

End path.
End latch.
