(* ===== verification/BPlusTreeInsert.v ===== *)
(** * Inserting into a B+ tree

    An insert adds the key to the map the tree holds, or finds it there and changes nothing. *)

From Stdlib Require Import ZArith Lia String Sorted.
From stdpp Require Import base list numbers option gmap.
From S2P Require Import Prelude Bytes Ids Buf Str TableHeap Slotted BPlusPage PageView BPlusKeys PageViewProofs.
From S2P Require Import LeafContents LeafViewProofs PageCodecProofs BPlusSplit InternalOps.
From S2P Require Import BPlusTree BPlusTreeInv BPlusTreeWalk BPlusTreeSplit BPlusTreeLatch.

Local Open Scope Z_scope.

(** ** Leaves and entries *)

Section entries.
Context (layout : Layout).

Lemma insert_result_props p k rid p' : leaf_wf layout p -> insert_result p k rid = Ok p' ->
  l_next p' = l_next p /\ (forall x, x ∈ LeafPage.keys p' -> x = k \/ x ∈ LeafPage.keys p) /\
  LeafPage.used_bytes layout p' <= LeafPage.used_bytes layout p + LeafPage.cost layout k.
Proof using.
  intros Hw. unfold insert_result. pose proof (search_cases _ p k Hw) as Hc. destruct (LeafPage.search p k) as [i|i].
  - destruct Hc as [r Hi]. case_decide; [|done]. intros [= <-]. split; [done|].
    assert (Hk : LeafPage.keys (overwritten p i k rid) = LeafPage.keys p).
    { unfold LeafPage.keys. cbn. rewrite list_fmap_insert. cbn. apply list_insert_id. by rewrite list_lookup_fmap, Hi. }
    split; [intros x; rewrite Hk; auto|]. unfold LeafPage.used_bytes. rewrite Hk. unfold LeafPage.cost, EntryArea.entry_cost.
    change (payload_len (Layout.leaf_area layout)) with 16. change SLOT_ENCODED_BYTES with 2. lia.
  - intros [= <-]. split; [done|]. assert (Hk : LeafPage.keys (inserted p i k rid) = InternalPage.insert_at i k (LeafPage.keys p)) by apply fmap_insert_at.
    split.
    + intros x. rewrite Hk. unfold InternalPage.insert_at. rewrite elem_of_app, list.elem_of_cons. intros [Hx|[->|Hx]]; [right|by left|right].
      * by eapply elem_of_take in Hx as (j & Hj & _); eapply list_elem_of_lookup_2.
      * apply list_elem_of_lookup_1 in Hx as [j Hj]. rewrite lookup_drop in Hj. by eapply list_elem_of_lookup_2.
    + unfold LeafPage.used_bytes. rewrite Hk. unfold InternalPage.insert_at. rewrite fmap_app, fmap_cons, zsum_app, zsum_cons.
      rewrite <- (take_drop i (LeafPage.keys p)) at 3. rewrite fmap_app, zsum_app. lia.
Qed.

Lemma not_keyed L k id p rid : ~ keyed L k -> (id, p) ∈ L -> ~ lives p k rid.
Proof using. intros Hn Hin (i & Hi & _). apply Hn. exists id, p. split; [done|]. apply entries_lookup in Hi. by eapply list_elem_of_lookup_2. Qed.

Lemma entries_insert L1 lid lf L2 m key rid lf' : entries_are (L1 ++ (lid, lf) :: L2) m -> ~ keyed L1 key -> ~ keyed L2 key ->
  leaf_wf layout lf -> leaf_wf layout lf' -> contents lf' = <[key := rid]> (contents lf) -> entries_are (L1 ++ (lid, lf') :: L2) (<[key := rid]> m).
Proof using.
  intros Hm H1 H2 Hw Hw' Hc k r. rewrite lookup_insert_Some, (Hm k r). setoid_rewrite elem_of_app. setoid_rewrite list.elem_of_cons.
  assert (Hl : lives lf' k r <-> (key = k /\ rid = r) \/ (key <> k /\ lives lf k r)).
  { rewrite <- !(contents_lives layout) by done. rewrite Hc. apply lookup_insert_Some. }
  split.
  - intros [[-> ->]|(Hne & id & p & Hin & Hp)]; [exists lid, lf'; split; [by right; left|]; apply Hl; auto|].
    destruct Hin as [Hin|[[= -> ->]|Hin]]; [exists id, p; auto|exists lid, lf'; split; [by right; left|]; apply Hl; auto|exists id, p; auto].
  - intros (id & p & Hin & Hp). destruct (decide (key = k)) as [->|Hne].
    + left. split; [done|]. destruct Hin as [Hin|[[= -> ->]|Hin]]; [by destruct (not_keyed _ _ _ _ _ H1 Hin Hp)| |by destruct (not_keyed _ _ _ _ _ H2 Hin Hp)].
      apply Hl in Hp as [[_ ?]|[? _]]; done.
    + right. split; [done|]. destruct Hin as [Hin|[[= -> ->]|Hin]]; [exists id, p; auto| |exists id, p; auto].
      apply Hl in Hp as [[? _]|[_ Hp]]; [done|]. exists lid, lf. auto.
Qed.

Lemma entries_split L1 lid lf L2 m l rid r : entries_are (L1 ++ (lid, lf) :: L2) m -> (forall k x, lives lf k x <-> lives l k x \/ lives r k x) ->
  entries_are (L1 ++ ([(lid, l)] ++ [(rid, r)]) ++ L2) m.
Proof using.
  intros Hm Hl k x. rewrite (Hm k x).
  assert (Hr : forall z, z ∈ L1 ++ ([(lid, l)] ++ [(rid, r)]) ++ L2 <-> z ∈ L1 \/ (z = (lid, l) \/ z = (rid, r)) \/ z ∈ L2) by set_solver.
  setoid_rewrite Hr. setoid_rewrite elem_of_app. setoid_rewrite list.elem_of_cons. split.
  - intros (id & p & [Hin|[[= -> ->]|Hin]] & Hp); [exists id, p; auto| |exists id, p; auto 10]. apply Hl in Hp as [Hp|Hp]; [exists lid, l|exists rid, r]; auto 10.
  - intros (id & p & [Hin|[[[= -> ->]|[= -> ->]]|Hin]] & Hp); [exists id, p; auto|exists lid, lf; rewrite Hl; auto|exists lid, lf; rewrite Hl; auto|exists id, p; auto].
Qed.

Lemma linked_replace L1 lid lf lf' L2 : l_next lf' = l_next lf -> linked (L1 ++ (lid, lf) :: L2) None -> linked (L1 ++ (lid, lf') :: L2) None.
Proof using. intros Hn. rewrite !leaves_linked_app. cbn. rewrite Hn. tauto. Qed.

Lemma linked_split L1 lid lf l r rid L2 : l_next l = Some rid -> l_next r = l_next lf -> linked (L1 ++ (lid, lf) :: L2) None ->
  linked (L1 ++ ([(lid, l)] ++ [(rid, r)]) ++ L2) None.
Proof using. intros Hl Hr. rewrite !leaves_linked_app. cbn. rewrite Hl, Hr. tauto. Qed.

Lemma first_replace L1 lid (lf lf' : LeafPage) L2 : first_id (L1 ++ (lid, lf') :: L2) None = first_id (L1 ++ (lid, lf) :: L2) None.
Proof using. by destruct L1 as [|[]]. Qed.

Lemma first_split L1 lid (lf l r : LeafPage) rid L2 : first_id (L1 ++ ([(lid, l)] ++ [(rid, r)]) ++ L2) None = first_id (L1 ++ (lid, lf) :: L2) None.
Proof using. by destruct L1 as [|[]]. Qed.

End entries.

Section insert.
Context (tree : BPlusTree) (Hok : layout_ok (layout tree)).
Context {P BE : Type} {Pool : PagePool P BE} {Laws : PagePoolLaws P BE}.

Abbreviation lay := (layout tree).
Abbreviation tree_at := (tree_at lay).
Abbreviation leaf_at := (leaf_at lay).
Abbreviation node_at := (node_at lay).
Abbreviation way := (way tree).
Abbreviation hdr := (header_page_id tree).

Lemma lo_cap' : 0 <= tombstone_capacity lay.
Proof using Hok. apply Hok. Qed.
Lemma lo_room' : 28 + 4 * tombstone_capacity lay <= PAGE_SIZE.
Proof using Hok. pose proof (lo_room _ Hok). lia. Qed.

(** ** Safe pages *)

(** A page with room for one more of the longest entries. *)
Definition roomy (b : bytes) : Prop :=
  (exists p, leaf_is lay b p /\ leaf_wf lay p /\ LeafPage.used_bytes lay p + Layout.leaf_max_entry_bytes lay <= EntryArea.capacity (Layout.leaf_area lay)) \/
  (exists p, internal_is b p /\ internal_wf lay p /\ InternalPage.used_bytes p + Layout.internal_max_entry_bytes lay <= EntryArea.capacity INTERNAL_AREA).

Lemma safe_insert_leaf b p : leaf_is lay b p -> leaf_wf lay p -> exists s, @BPlusTree.safe_for_insert BE tree NLeaf b = Ok s /\ (s = true -> roomy b).
Proof using Hok.
  intros Hb Hw. unfold BPlusTree.safe_for_insert. cbn [NodeView.may_split_on_insert]. unfold LeafPageView.may_split_on_insert.
  rewrite (view_size lay lo_cap' lo_room' b p Hb Hw). cbn [mbind outcome_bind].
  pose proof (SlottedProofs.entries_free_ok (E := IndexError BE) _ b _ (v_entries _ _ _ Hb)) as Ef. rewrite entries_length, <- (used_is lay) in Ef. rewrite Ef.
  cbn [mbind outcome_bind]. eexists. split; [done|]. intros Hs%negb_true_iff%Z.ltb_ge. left. exists p. split_and!; [done|done|lia].
Qed.

Lemma safe_insert_internal b p : internal_is b p -> internal_wf lay p -> exists s, @BPlusTree.safe_for_insert BE tree NInternal b = Ok s /\ (s = true -> roomy b).
Proof using.
  intros Hb Hw. unfold BPlusTree.safe_for_insert. cbn [NodeView.may_split_on_insert]. unfold InternalPageView.may_split_on_insert.
  rewrite (iview_size b p Hb). cbn [mbind outcome_bind].
  pose proof (SlottedProofs.entries_free_ok (E := IndexError BE) _ b _ (iv_entries _ _ Hb)) as Ef. rewrite (ientries_length lay p Hw), <- (iused_is lay p Hw) in Ef.
  change Layout.internal_area with INTERNAL_AREA. rewrite Ef. cbn [mbind outcome_bind]. eexists. split; [done|]. intros Hs%negb_true_iff%Z.ltb_ge.
  right. exists p. split_and!; [done|done|lia].
Qed.

Lemma leaf_unique b p q : leaf_is lay b p -> leaf_wf lay p -> leaf_is lay b q -> leaf_wf lay q -> p = q.
Proof using Hok.
  intros H1 H2 H3 H4. pose proof (decode_leaf lay lo_cap' lo_room' b p H1 H2) as E1. rewrite (decode_leaf lay lo_cap' lo_room' b q H3 H4) in E1. congruence.
Qed.

Lemma internal_unique b p q : internal_is b p -> internal_wf lay p -> internal_is b q -> internal_wf lay q -> p = q.
Proof using. intros H1 H2 H3 H4. pose proof (decode_internal lay b p H1 H2) as E1. rewrite (decode_internal lay b q H3 H4) in E1. congruence. Qed.

Lemma leaf_not_internal b p q : leaf_is lay b p -> internal_is b q -> False.
Proof using. intros H1 H2. pose proof (n_kind _ _ _ _ (v_node _ _ _ H1)) as E1. rewrite (n_kind _ _ _ _ (iv_node _ _ H2)) in E1. done. Qed.

(** ** The leaf's page *)

(** A run whose only errors are the pool's and a duplicate key, which leaves pages as [D]. *)
Definition results {A} (r : outcome (IndexError BE) A * P) (Q : A -> gmap PageId bytes -> Prop) (D : gmap PageId bytes -> Prop) : Prop :=
  match r with
  | (Ok a, p) => Q a (pool_pages p)
  | (Err (IBpm _), _) => True
  | (Err (IInsert DuplicateKey), p) => D (pool_pages p)
  | _ => False
  end.

Lemma results_bind {A B} (m : M P (IndexError BE) A) (f : A -> M P (IndexError BE) B) p Q R D :
  results (m p) Q D -> (forall a p', Q a (pool_pages p') -> results (f a p') R D) -> results ((m ≫= f) p) R D.
Proof using. unfold mbind, M_bind, results. destruct (m p) as [[a|e|] p']; cbn; [|done|done]. intros H1 H2. exact (H2 a p' H1). Qed.

Lemma runs_results {A} (r : outcome (IndexError BE) A * P) Q D : runs r Q -> results r Q D.
Proof using. unfold runs, results. destruct r as [[a|[]|] p]; done. Qed.

Lemma gives_results {A} (r : outcome (IndexError BE) A * P) pages Q D : gives r pages Q -> results r (fun a pages' => Q a /\ pages' = pages) D.
Proof using. unfold gives, results. destruct r as [[a|[]|] p]; cbn; intros [? ?]; done. Qed.

Lemma in_place_results g lf key rid p : pool_pages p !! g_id g = Some (g_data g) -> leaf_is lay (g_data g) lf -> leaf_wf lay lf ->
  results (BPlusTree.insert_in_place tree g key rid p) (fun done pages =>
    if (done : bool) then exists b lf', leaf_is lay b lf' /\ insert_result lf key rid = Ok lf' /\ pages = <[g_id g := b]> (pool_pages p)
    else pages = pool_pages p /\ (exists lf', insert_result lf key rid = Ok lf' /\ LeafPage.is_overfull lay lf' = true) /\
      EntryArea.capacity (Layout.leaf_area lay) < LeafPage.used_bytes lay lf + LeafPage.cost lay key)
    (fun pages => pages = pool_pages p /\ insert_result lf key rid = Err DuplicateKey).
Proof using Laws Hok.
  intros Hg Hb Hw. unfold BPlusTree.insert_in_place. rewrite (bind_coded tt) by (by eapply check_new; [apply lo_cap'|apply lo_room'|..]).
  pose proof (view_insert lay lo_cap' lo_room' (g_data g) lf Hb Hw key rid) as Hv. pose proof (view_full lay lo_cap' lo_room' (g_data g) lf Hb Hw key rid) as Hf.
  destruct (LeafPageView.insert lay (g_data g) key rid) as [b|[]|].
  - destruct Hv as (lf' & E & Hb'). eapply results_bind; [apply runs_results, store_runs; by rewrite Hg|]. intros g' p' [_ Hp]. exists b, lf'. done.
  - done.
  - destruct (Hf eq_refl) as [_ Hfull]. split_and!; [done|done|lia].
  - done.
Qed.

Lemma contents_of_insert lf key rid lf' : leaf_wf lay lf -> len key <= max_key_len lay -> rid_valid rid -> len (l_entries lf) <= PAGE_SIZE ->
  insert_result lf key rid = Ok lf' -> leaf_wf lay lf' /\ contents lf !! key = None /\ contents lf' = <[key := rid]> (contents lf).
Proof using.
  intros Hw Hk Hr Hn E. assert (PAGE_SIZE = 8192) by done. pose proof (insert_contents lay lf key rid Hw Hk Hr ltac:(unfold u32_max; lia)) as H0. by rewrite E in H0.
Qed.

(** ** A leaf that stays one *)

Lemma tree_holds_mono d d' pages m : tree_holds tree d pages m -> (d <= d')%nat -> tree_holds tree d' pages m.
Proof using.
  intros (hb & h & Hh & Hr) Hd. exists hb, h. split; [done|]. destruct (root_page_id h); [|done]. destruct Hr as (L & I & [(ht & Hht & Ht) H2 H3 H4] & Hm).
  exists L, I. split; [|done]. split; [exists ht; split; [lia|done]|done..].
Qed.

Lemma same_insert pages q b ids : q ∉ ids -> same_at pages (<[q := b]> pages) ids.
Proof using. intros Hq x Hx. apply lookup_insert_ne. by intros ->. Qed.

Lemma rooted_replace pages h d ht root lid lf lf' b lo hi ws L1 L2 I1 I2 : rooted tree pages h d root (L1 ++ (lid, lf) :: L2) (I1 ++ I2) ->
  (ht < d)%nat -> way pages ht root None None 0 lid lo hi ws L1 L2 I1 I2 -> leaf_is lay b lf' -> leaf_wf lay lf' -> Forall (within lo hi) (LeafPage.keys lf') ->
  l_next lf' = l_next lf -> rooted tree (<[lid := b]> pages) h d root (L1 ++ (lid, lf') :: L2) (I1 ++ I2).
Proof using.
  intros [_ H2 H3 H4] Hht Hw Hb Hwf Hk Hn. pose proof (proj1 (cnt_nodup _) H4 lid) as Hlid. split.
  - exists ht. split; [done|]. assert (Hw' : way (<[lid := b]> pages) ht root None None 0 lid lo hi ws L1 L2 I1 I2).
    { eapply way_frame; [exact Hw| |]; apply same_insert; rewrite cnt_elem; cnt_simpl; repeat case_decide; try done; lia. }
    assert (Ht : tree_at 0 (<[lid := b]> pages) lid lo hi [(lid, lf')] []).
    { exists lf'. split_and!; try done. split; [|done|done]. exists b. by rewrite lookup_insert_eq. }
    exact (way_plug tree _ _ _ _ _ _ _ _ _ _ _ _ _ _ _ _ Hw' Ht).
  - by eapply linked_replace.
  - rewrite H3. symmetry. apply first_replace.
  - by rewrite fmap_app, fmap_cons in *.
Qed.

Lemma header_kept pages pages' hb h : header_at tree pages hb h -> pages' !! hdr = pages !! hdr -> header_at tree pages' hb h.
Proof using. intros (H1 & H2 & H3 & H4) E. split_and!; try done. by rewrite E. Qed.

(** A leaf on the way to a key, with the tree around it. *)
Record found (pages : gmap PageId bytes) (d : nat) (m : gmap IndexKey RecordId) (key : IndexKey) (h : HeaderPage) (hb : bytes) (root : PageId)
    (ht : nat) (g : PageMut) (lf : LeafPage) lo hi ws L1 L2 I1 I2 : Prop := {
  fd_header : header_at tree pages hb h;
  fd_root : root_page_id h = Some root;
  fd_rooted : rooted tree pages h d root (L1 ++ (g_id g, lf) :: L2) (I1 ++ I2);
  fd_height : (ht < d)%nat;
  fd_entries : entries_are (L1 ++ (g_id g, lf) :: L2) m;
  fd_way : way pages ht root None None 0 (g_id g) lo hi ws L1 L2 I1 I2;
  fd_page : pages !! g_id g = Some (g_data g);
  fd_leaf : leaf_is lay (g_data g) lf;
  fd_wf : leaf_wf lay lf;
  fd_keys : Forall (within lo hi) (LeafPage.keys lf);
  fd_in : within lo hi key;
}.

Section found.
Context (p : P) (d : nat) (m : gmap IndexKey RecordId) (key : IndexKey) (rid : RecordId) (h : HeaderPage) (hb : bytes) (root : PageId) (ht : nat).
Context (g : PageMut) (lf : LeafPage) (lo hi : bound) (ws : list PageMut) (L1 L2 : leaves) (I1 I2 : list PageId).
Context (F : found (pool_pages p) d m key h hb root ht g lf lo hi ws L1 L2 I1 I2).
Context (Hk : len key <= max_key_len lay) (Hr : rid_valid rid).

Lemma found_map : m !! key = contents lf !! key.
Proof using F. destruct F. by eapply leaf_entries. Qed.

(** What the leaf holds with the new entry. *)
Lemma found_insert lf' : insert_result lf key rid = Ok lf' ->
  m !! key = None /\ leaf_wf lay lf' /\ Forall (within lo hi) (LeafPage.keys lf') /\ l_next lf' = l_next lf /\
  entries_are (L1 ++ (g_id g, lf') :: L2) (<[key := rid]> m) /\
  LeafPage.used_bytes lay lf' <= LeafPage.used_bytes lay lf + LeafPage.cost lay key.
Proof using F Hk Hr Hok.
  intros E. destruct F as [F1 F2 F3 F4 F5 F6 F7 F8 F9 F10 F11]. pose proof (view_small lay lo_cap' lo_room' _ lf F8 F9) as [Hs _].
  destruct (contents_of_insert lf key rid lf' F9 Hk Hr Hs E) as (Hw' & Hc & Hc'). destruct (insert_result_props lay lf key rid lf' F9 E) as (Hn & Hks & Hu).
  destruct (way_beside tree _ _ _ _ _ _ _ _ _ _ _ _ _ _ key F6 F11) as (_ & Hb1 & Hb2). split_and!; try done.
  - by rewrite found_map.
  - rewrite list.Forall_forall in *. intros x Hx. destruct (Hks x Hx) as [->|Hx']; [done|by apply F10].
  - by eapply entries_insert.
Qed.

Lemma found_dup : insert_result lf key rid = Err DuplicateKey -> is_Some (m !! key).
Proof using F Hk Hr Hok.
  intros E. rewrite found_map. destruct F as [F1 F2 F3 F4 F5 F6 F7 F8 F9 F10 F11]. pose proof (view_small lay lo_cap' lo_room' _ lf F8 F9) as [Hs Hp].
  pose proof (insert_contents lay lf key rid F9 Hk Hr ltac:(unfold u32_max; lia)) as H0. by rewrite E in H0.
Qed.

Lemma found_header_other : hdr <> g_id g.
Proof using F.
  pose proof (proj1 (cnt_nodup _) (rt_nodup _ _ _ _ _ _ _ (fd_rooted _ _ _ _ _ _ _ _ _ _ _ _ _ _ _ _ _ F)) hdr) as Hnd. intros E. cnt_simpl.
  repeat case_decide; try done; lia.
Qed.

Lemma in_place_holds : results (BPlusTree.insert_in_place tree g key rid p) (fun done pages =>
    if (done : bool) then m !! key = None /\ tree_holds tree d pages (<[key := rid]> m)
    else pages = pool_pages p /\ exists lf', insert_result lf key rid = Ok lf' /\ LeafPage.is_overfull lay lf' = true /\
      EntryArea.capacity (Layout.leaf_area lay) < LeafPage.used_bytes lay lf + LeafPage.cost lay key)
    (fun pages => pages = pool_pages p /\ is_Some (m !! key)).
Proof using F Hk Hr Hok Laws.
  pose proof (in_place_results g lf key rid p (fd_page _ _ _ _ _ _ _ _ _ _ _ _ _ _ _ _ _ F) (fd_leaf _ _ _ _ _ _ _ _ _ _ _ _ _ _ _ _ _ F) (fd_wf _ _ _ _ _ _ _ _ _ _ _ _ _ _ _ _ _ F)) as H.
  unfold results in *. destruct (BPlusTree.insert_in_place tree g key rid p) as [[[]|[[]| | | | | | | |]|] p']; try done.
  - destruct H as (b & lf' & Hb & E & ->). destruct (found_insert lf' E) as (Hm & Hw & Hks & Hn & He & _). split; [done|]. pose proof found_header_other.
    destruct F as [F1 F2 F3 F4 F5 F6 F7 F8 F9 F10 F11]. exists hb, h. split; [eapply header_kept; [exact F1|by apply lookup_insert_ne]|]. rewrite F2.
    eexists _, _. split; [by eapply rooted_replace|done].
  - destruct H as (-> & (lf' & E & Ho) & Hc). split; [done|]. by exists lf'.
  - destruct H as [-> E]. split; [done|]. by apply found_dup.
Qed.

End found.

(** ** The header page *)

Lemma header_written {E} pages hb h r f : header_at tree pages hb h -> link_valid r -> link_valid f ->
  exists b1 b2, @HeaderPageView.set_root_page_id E hb r = Ok b1 /\ @HeaderPageView.set_first_leaf_id E b1 f = Ok b2 /\
    forall pages', header_at tree (<[hdr := b2]> pages') b2 (mkHeader r f (h_max_key_len h)).
Proof using.
  intros (_ & Hh & Hw & Hm) Hr Hf. destruct (hview_set_root (E := E) hb h Hh r Hr) as (b1 & E1 & H1). destruct (hview_set_first (E := E) b1 _ H1 f Hf) as (b2 & E2 & H2).
  cbn [root_page_id h_max_key_len] in H2. exists b1, b2. split_and!; [done|done|]. intros pages'. split_and!; try done; [by rewrite lookup_insert_eq|]. by destruct Hw.
Qed.

Lemma store_header_runs pages hb h r f p : header_at tree pages hb h -> pool_pages p !! hdr = Some hb -> link_valid r -> link_valid f ->
  runs (BPlusTree.store_header (mkGuard hdr hb) (mkHeader r f (h_max_key_len h)) p) (fun _ pages' =>
    exists hb', header_at tree pages' hb' (mkHeader r f (h_max_key_len h)) /\ pages' = <[hdr := hb']> (pool_pages p)).
Proof using Laws.
  intros Hat Hp Hr Hf. destruct (header_written (E := IndexError BE) pages hb h r f Hat Hr Hf) as (b1 & b2 & E1 & E2 & H2). destruct Hat as (_ & Hh & Hw & _).
  unfold BPlusTree.store_header. rewrite (bind_coded tt) by (by eapply hview_new). cbn [g_data root_page_id first_leaf_id]. rewrite (bind_pure b1), (bind_pure b2) by done.
  eapply runs_mono; [apply store_runs; by exists hb|]. intros g' pages' [_ ->]. exists b2. split; [apply H2|done].
Qed.

(** ** The first leaf *)

Lemma first_leaf_wf : leaf_wf lay LeafPage.new.
Proof using Hok. pose proof lo_cap'. split; try done; constructor. Qed.

Lemma new_leaf_runs p d m hb h key rid : tree_holds tree d (pool_pages p) m -> header_at tree (pool_pages p) hb h -> root_page_id h = None -> m = ∅ ->
  len key <= max_key_len lay -> rid_valid rid ->
  runs ((leaf_page ← BPlusTree.allocate_page;
      leaf ← BPlusTree.pure (BPlusTree.insert_into tree LeafPage.new key rid);
      _ ← BPlusTree.encode_leaf tree leaf_page leaf;
      _ ← BPlusTree.store_header (mkGuard hdr hb) (mkHeader (Some (g_id leaf_page)) (Some (g_id leaf_page)) (h_max_key_len h));
      mret tt) p) (fun _ pages => m !! key = None /\ tree_holds tree (S d) pages (<[key := rid]> m)).
Proof using Laws Hok.
  intros Ht Hh Hnr -> Hk Hr. pose proof first_leaf_wf as Hw. eapply runs_bind; [apply allocate_runs|]. intros [lid b0] p1 (Hfresh & Hid & Hb0 & Hp1). cbn [g_id g_data] in *.
  pose proof (insert_is lay LeafPage.new key rid Hw Hk Hr ltac:(cbn; unfold u32_max; lia)) as Ei. cbn [insert_result LeafPage.search LeafPage.new l_entries] in Ei.
  destruct (insert_result LeafPage.new key rid) as [lf|[]|] eqn:Er; [|done|done].
  destruct (contents_of_insert LeafPage.new key rid lf Hw Hk Hr ltac:(cbn; unfold PAGE_SIZE; lia) Er) as (Hlw & _ & Hc).
  destruct (insert_result_props lay LeafPage.new key rid lf Hw Er) as (Hn & Hks & Hu).
  pose proof (cost_bounds lay key Hk) as Hcb. pose proof (lo_leaf _ Hok) as Hcap. change (LeafPage.used_bytes lay LeafPage.new) with 0 in Hu.
  rewrite (bind_pure lf) by (unfold BPlusTree.insert_into; rewrite Ei; done).
  eapply runs_bind; [apply (encode_leaf_runs tree Hok); [done|apply Z.ltb_ge; lia|cbn; by rewrite Hb0|rewrite Hp1; by rewrite lookup_insert_eq]|].
  intros g' p2 (b & Hb & Hp2). cbn [g_id] in *. assert (Hne : hdr <> lid) by (destruct Hh as [Hh _]; intros E; congruence).
  assert (Hhd : pool_pages p2 !! hdr = Some hb) by (rewrite Hp2, Hp1, !lookup_insert_ne by done; apply Hh).
  eapply runs_bind; [apply (store_header_runs (pool_pages p) hb h); [done|done|done|done]|]. intros g'' p3 (hb' & Hh' & Hp3). apply runs_ret. split; [done|].
  exists hb', (mkHeader (Some lid) (Some lid) (h_max_key_len h)). split; [done|]. cbn [root_page_id]. exists [(lid, lf)], []. split; [split|].
  - exists 0%nat. split; [lia|]. exists lf. split_and!; try done. split; [|done|by apply list.Forall_forall].
    exists b. split; [|done]. by rewrite Hp3, lookup_insert_ne, Hp2, lookup_insert_eq by done.
  - cbn. split; [|done]. by rewrite Hn.
  - done.
  - cbn. apply list.NoDup_cons. split; [by rewrite list_elem_of_singleton|]. apply NoDup_singleton.
  - intros k r. change (∅ : gmap IndexKey RecordId) with (contents LeafPage.new). rewrite <- Hc, (contents_lives lay) by done. split.
    + intros Hl. exists lid, lf. split; [by left|done].
    + intros (id & q & [= -> ->]%list_elem_of_singleton & Hl). done.
Qed.

End insert.
