(* ===== verification/BPlusTreeGrow.v ===== *)
(** * Inserts that split

    A full leaf is split and its separator goes up the latched path, at most to a new root;
    with what fits its leaf and the first leaf of a tree, this is every insert. *)

From Stdlib Require Import ZArith Lia String Sorted.
From stdpp Require Import base list numbers option gmap.
From S2P Require Import Prelude Bytes Ids Buf Str TableHeap Slotted BPlusPage PageView BPlusKeys PageViewProofs.
From S2P Require Import LeafContents LeafViewProofs PageCodecProofs BPlusSplit InternalOps.
From S2P Require Import BPlusTree BPlusTreeInv BPlusTreeWalk BPlusTreeSplit BPlusTreeLatch BPlusTreeInsert.

Local Open Scope Z_scope.

Section grow.
Context (tree : BPlusTree) (Hok : layout_ok (layout tree)).
Context {P BE : Type} {Pool : PagePool P BE} {Laws : PagePoolLaws P BE}.

Abbreviation lay := (layout tree).
Abbreviation tree_at := (tree_at lay).
Abbreviation leaf_at := (leaf_at lay).
Abbreviation node_at := (node_at lay).
Abbreviation way := (way tree).
Abbreviation hdr := (header_page_id tree).

(** ** The halves of a leaf *)

Lemma left_not_empty p l r rid sep : halves lay p l r rid sep -> LeafPage.keys l <> [].
Proof using Hok.
  intros H E. destruct (hv_full _ _ _ _ _ _ H) as [Hu%Z.ltb_ge _]. unfold LeafPage.used_bytes in Hu. rewrite E in Hu. cbn [fmap list_fmap] in Hu. change (zsum []) with 0 in Hu. pose proof (lo_leaf _ Hok).
  pose proof (lo_key _ Hok). assert (0 < Layout.leaf_max_entry_bytes lay).
  { unfold Layout.leaf_max_entry_bytes, EntryArea.entry_cost. change (payload_len (Layout.leaf_area lay)) with 16. change SLOT_ENCODED_BYTES with 2. lia. }
  assert (0 < Layout.leaf_min_used lay); [|lia]. unfold Layout.leaf_min_used. apply Z.div_str_pos. lia.
Qed.

Lemma halves_bounds p l r rid sep lo hi : halves lay p l r rid sep -> leaf_wf lay p -> Forall (within lo hi) (LeafPage.keys p) ->
  Forall (within lo (Some sep)) (LeafPage.keys l) /\ Forall (within (Some sep) hi) (LeafPage.keys r) /\ inside lo hi sep /\ len sep <= max_key_len lay.
Proof using Hok.
  intros H Hw Hin. pose proof (left_not_empty _ _ _ _ _ H) as Hne.
  assert (E : LeafPage.keys p = LeafPage.keys l ++ LeafPage.keys r) by (unfold LeafPage.keys; rewrite <- fmap_app, (hv_entries _ _ _ _ _ _ H); done).
  pose proof (w_sorted _ _ Hw) as Hs. rewrite E in Hs, Hin. apply ascending_app in Hs as (_ & Hs & Hlt). apply Forall_app in Hin as [Hl Hr].
  pose proof (hv_first _ _ _ _ _ _ H) as Hf. destruct (LeafPage.keys r) as [|s ks] eqn:Ek; [done|]. injection Hf as ->.
  rewrite list.Forall_forall in Hl. split_and!.
  - apply list.Forall_forall. intros x Hx. split; [by apply Hl|]. apply Hlt; [done|by left].
  - rewrite list.Forall_forall in *. intros x Hx. split; [|by apply Hr]. apply list.elem_of_cons in Hx as [->|Hx]; [apply kle_refl|].
    apply StronglySorted_inv in Hs as [_ Hgt]. rewrite list.Forall_forall in Hgt. by apply klt_kle, Hgt.
  - split; [|rewrite list.Forall_forall in Hr; apply Hr; by left]. destruct (LeafPage.keys l) as [|a ks']; [done|]. specialize (Hl a ltac:(by left)) as [Ha _].
    specialize (Hlt a sep ltac:(by left) ltac:(by left)). destruct lo; [|done]. cbn in *. by eapply kle_klt_trans.
  - pose proof (w_keys _ _ (hv_right _ _ _ _ _ _ H)) as Hks. rewrite Ek in Hks. by apply Forall_cons_1 in Hks as [? _].
Qed.

Lemma leaf_fits b p : leaf_is lay b p -> LeafPage.used_bytes lay p <= EntryArea.capacity (Layout.leaf_area lay).
Proof using.
  intros Hb. rewrite used_is. pose proof (SlottedProofs.h_fit _ _ _ (v_entries _ _ _ Hb)) as Hf. rewrite entries_length in Hf. unfold EntryArea.capacity. lia.
Qed.

(** ** A new root *)

Lemma new_root_runs p pages hb h root hr sep r Lx Ly Ix Iy ctx :
  header_at tree pages hb h -> root_page_id h = Some root -> c_header ctx = Some (mkGuard hdr hb) -> c_root ctx = root ->
  pool_pages p !! hdr = Some hb -> page_id_valid r -> len sep <= max_key_len lay ->
  tree_at hr (pool_pages p) root None (Some sep) Lx Ix -> tree_at hr (pool_pages p) r (Some sep) None Ly Iy ->
  (forall x, (cnt x (hdr :: (Ix ++ Iy) ++ (Lx ++ Ly).*1) <= 1)%nat) -> linked (Lx ++ Ly) None -> first_leaf_id h = first_id (Lx ++ Ly) None ->
  runs (BPlusTree.grow_new_root tree ctx h (mkSplit root sep r) p) (fun _ pages' => exists hb' h' root' I', header_at tree pages' hb' h' /\
    root_page_id h' = Some root' /\ rooted tree pages' h' (S (S hr)) root' (Lx ++ Ly) I').
Proof using Laws Hok.
  intros Hh Hroot Hch Hcr Hhb Hr Hlen Hx Hy Hnd Hlk Hfst. unfold BPlusTree.grow_new_root. cbn [sp_left sp_separator sp_right]. rewrite Hcr, Z.eqb_refl. cbn [negb].
  rewrite (bind_pure (mkGuard hdr hb)) by (by rewrite Hch). eapply runs_bind; [apply allocate_runs|]. intros [nr b0] p1 (Hfresh & Hid & Hb0 & Hp1). cbn [g_id g_data] in *.
  set (node := mkInternal [root; r] [sep]). assert (Hrv : page_id_valid root).
  { destruct Hh as (_ & _ & Hw & _). pose proof (hw_root _ Hw) as Hv. by rewrite Hroot in Hv. }
  assert (Hw : internal_wf lay node) by (split; [done|apply SSorted_cons; [apply SSorted_nil|apply list.Forall_nil_2]|by apply Forall_singleton|apply Forall_cons_2; [done|by apply Forall_singleton]]).
  rewrite (bind_pure node) by (apply internal_checked_ok, Hw). pose proof (icost_bounds lay sep Hlen) as Hcb. pose proof (lo_internal _ Hok) as Hcap.
  eapply runs_bind; [apply (encode_internal_runs tree); [done| |cbn; by rewrite Hb0|rewrite Hp1; by rewrite lookup_insert_eq]|].
  { apply Z.ltb_ge. unfold InternalPage.used_bytes. cbn [node i_keys fmap list_fmap]. rewrite zsum_cons. change (zsum []) with 0. lia. }
  intros g' p2 (b & Hb & _ & Hp2). cbn [g_id] in *. assert (Hne : hdr <> nr) by (intros E; congruence).
  assert (Hhd : pool_pages p2 !! hdr = Some hb) by (rewrite Hp2, Hp1, !lookup_insert_ne by done; done).
  eapply runs_bind; [apply (store_header_runs tree pages hb h); [done|done|done|]|].
  { destruct Hh as (_ & _ & Hhw & _). apply Hhw. }
  intros g'' p3 (hb' & Hh' & Hp3). apply runs_ret.
  assert (Hsame : forall ids, (forall x, x ∈ ids -> is_Some (pool_pages p !! x) /\ x <> hdr) -> same_at (pool_pages p) (pool_pages p3) ids).
  { intros ids Hids x Hxi. destruct (Hids x Hxi) as [[bx Hbx] Hxh]. assert (x <> nr) by (intros ->; congruence).
    by rewrite Hp3, Hp2, Hp1, !lookup_insert_ne by done. }
  assert (Hthere : forall h' pid lo hi L I, tree_at h' (pool_pages p) pid lo hi L I -> (cnt hdr (I ++ L.*1) = 0)%nat -> tree_at h' (pool_pages p3) pid lo hi L I).
  { intros h' pid lo hi L I Ht Hc. assert (forall x, x ∈ I ++ L.*1 -> is_Some (pool_pages p !! x) /\ x <> hdr).
    { intros x Hxi. split; [by eapply tree_dom|]. intros ->. apply cnt_elem in Hxi. lia. }
    eapply tree_frame; [exact Ht| |]; apply Hsame; intros x Hxi; apply H; apply elem_of_app; auto. }
  pose proof (Hnd hdr) as Hndh. cnt_simpl. rewrite decide_True in Hndh by done.
  eexists hb', _, nr, (nr :: Ix ++ Iy). split; [exact Hh'|]. split; [done|]. split.
  - exists (S hr). split; [lia|]. exists node, b, (Ix ++ Iy). split_and!; [|done|].
    + split; [|done|done|by apply Forall_singleton]. by rewrite Hp3, lookup_insert_ne, Hp2, lookup_insert_eq by done.
    + constructor; [apply Hthere; [done|cnt_simpl; lia]|]. constructor. apply Hthere; [done|cnt_simpl; lia].
  - done.
  - done.
  - apply cnt_nodup. intros x. pose proof (Hnd x) as Hx'. cnt_simpl. destruct (decide (x = nr)) as [->|Hxn]; [|repeat case_decide; lia].
    assert (H0 : (cnt nr Ix + cnt nr Lx.*1 = 0)%nat).
    { destruct (decide (0 < cnt nr (Ix ++ Lx.*1))%nat) as [Hc|Hc]; [|cnt_simpl; lia]. destruct (ids_there tree _ _ _ _ _ _ _ _ Hx Hc). congruence. }
    assert (H1 : (cnt nr Iy + cnt nr Ly.*1 = 0)%nat).
    { destruct (decide (0 < cnt nr (Iy ++ Ly.*1))%nat) as [Hc|Hc]; [|cnt_simpl; lia]. destruct (ids_there tree _ _ _ _ _ _ _ _ Hy Hc). congruence. }
    rewrite decide_False by done. lia.
Qed.

(** ** A split of the leaf *)

Lemma roomy_top g ws : roomy tree (g_data g) -> list.last ws = Some g -> top_unsafe tree ws -> False.
Proof using.
  intros Hr Hl Hu. destruct (Hu g Hl) as (q & Hq & Hqw & Hlt). destruct Hr as [(p & Hp & _)|(p & Hp & Hpw & Hle)]; [by eapply leaf_not_internal|].
  assert (p = q) as -> by (by eapply internal_unique). lia.
Qed.

Lemma roomy_leaf b lf key : roomy tree b -> leaf_is lay b lf -> leaf_wf lay lf -> len key <= max_key_len lay ->
  EntryArea.capacity (Layout.leaf_area lay) < LeafPage.used_bytes lay lf + LeafPage.cost lay key -> False.
Proof using Hok.
  intros Hr Hb Hw Hk Hlt. pose proof (cost_bounds lay key Hk). destruct Hr as [(p & Hp & Hpw & Hle)|(p & Hp & _)]; [|by eapply leaf_not_internal].
  assert (p = lf) as -> by (by eapply leaf_unique). lia.
Qed.

Section after_split.
Context (d : nat) (m : gmap IndexKey RecordId) (h : HeaderPage) (hb : bytes) (root : PageId) (hr : nat) (ctx : TreeContext).
Context (g : PageMut) (lf l r : LeafPage) (rid : PageId) (sep : IndexKey) (lo hi : bound).
Context (pages0 pages1 : gmap PageId bytes) (ws2 : list PageMut).
Context (ha : nat) (a : PageId) (loa hia : bound) (ws1 : list PageMut) (La1 Lb1 La2 Lb2 : leaves) (Ia1 Ib1 Ia2 Ib2 : list PageId).
Context (Hw1 : way pages0 hr root None None ha a loa hia ws1 La1 Lb1 Ia1 Ib1) (Hw2 : way pages0 ha a loa hia 0 (g_id g) lo hi ws2 La2 Lb2 Ia2 Ib2).
Context (Hhead : header_at tree pages0 hb h) (Hroot : root_page_id h = Some root) (Hd : (hr < d)%nat).
Context (Hlf : is_Some (pages0 !! g_id g)) (Hfresh : pages0 !! rid = None) (Hrid : page_id_valid rid).
Context (Hsame : forall x, x <> g_id g -> x <> rid -> pages1 !! x = pages0 !! x).
Context (Hl : tree_at 0 pages1 (g_id g) lo (Some sep) [(g_id g, l)] []) (Hr : tree_at 0 pages1 rid (Some sep) hi [(rid, r)] []).
Context (Hsep : inside lo hi sep) (Hlen : len sep <= max_key_len lay).
Context (Hnd : forall x, (cnt x (hdr :: (Ia1 ++ Ia2 ++ Ib2 ++ Ib1) ++ (La1 ++ La2 ++ (g_id g, lf) :: Lb2 ++ Lb1).*1) <= 1)%nat).

Abbreviation mid := ([(g_id g, l)] ++ [(rid, r)]).
Abbreviation L' := (La1 ++ (La2 ++ mid ++ Lb2) ++ Lb1).

Lemma split_other x : is_Some (pages0 !! x) -> cnt x [g_id g] = 0%nat -> pages1 !! x = pages0 !! x.
Proof using Hsame Hfresh. intros [b Hb] Hc. cbn in Hc. case_decide; [done|]. apply Hsame; [done|]. intros ->. congruence. Qed.

Lemma split_there x : (0 < cnt x (Ia1 ++ Ia2 ++ Ib2 ++ Ib1 ++ (La1 ++ La2 ++ Lb2 ++ Lb1).*1))%nat -> is_Some (pages0 !! x).
Proof using Hw1 Hw2.
  clear Hd Hnd Hlen. intros Hx. destruct (decide (0 < cnt x (Ia1 ++ Ib1 ++ La1.*1 ++ Lb1.*1))%nat) as [H0|H0]; [eapply way_there; [exact Hw1|exact H0]|].
  eapply way_there; [exact Hw2|]. cnt_simpl. lia.
Qed.

Lemma split_fresh_id : cnt rid (Ia1 ++ Ia2 ++ Ib2 ++ Ib1 ++ (La1 ++ La2 ++ Lb2 ++ Lb1).*1) = 0%nat /\ rid <> g_id g /\ rid <> hdr.
Proof using Hw1 Hw2 Hlf Hfresh Hhead.
  clear Hd Hlen. clear Hnd. split_and!.
  - destruct (decide (0 < cnt rid (Ia1 ++ Ia2 ++ Ib2 ++ Ib1 ++ (La1 ++ La2 ++ Lb2 ++ Lb1).*1))%nat) as [H0|H0]; [|lia]. destruct (split_there rid H0). congruence.
  - intros E. destruct Hlf as [b Hb]. congruence.
  - intros E. destruct Hhead as [Hb _]. congruence.
Qed.

Lemma split_same ids : (forall x, x ∈ ids -> (0 < cnt x (Ia1 ++ Ia2 ++ Ib2 ++ Ib1 ++ (La1 ++ La2 ++ Lb2 ++ Lb1).*1))%nat) -> same_at pages0 pages1 ids.
Proof using Hw1 Hw2 Hsame Hfresh Hnd.
  clear Hd Hlen. intros Hids x Hx. specialize (Hids x Hx). apply split_other; [by apply split_there|]. pose proof (Hnd x) as Hndx. cnt_simpl. lia.
Qed.

Ltac in_ways := intros ? ?%cnt_elem; cnt_simpl; lia.

Lemma way2_split : way pages1 ha a loa hia 0 (g_id g) lo hi ws2 La2 Lb2 Ia2 Ib2.
Proof using Hw1 Hw2 Hsame Hfresh Hnd. clear Hd Hlen. eapply way_frame; [exact Hw2| |]; apply split_same; in_ways. Qed.

Lemma way1_split pages2 I' : grown pages1 pages2 (Ia2 ++ Ib2) (Ia2 ++ Ib2) I' -> way pages2 hr root None None ha a loa hia ws1 La1 Lb1 Ia1 Ib1.
Proof using Hw1 Hw2 Hsame Hfresh Hnd.
  clear Hd Hlen. intros Hg. assert (Hs : forall ids, (forall x, x ∈ ids -> (0 < cnt x (Ia1 ++ Ib1 ++ (La1 ++ Lb1).*1))%nat) -> same_at pages0 pages2 ids).
  { intros ids Hids x Hx. pose proof (Hids x Hx) as Hc. pose proof (Hnd x) as Hndx.
    assert (E : pages1 !! x = pages0 !! x) by (apply split_other; [apply split_there; cnt_simpl; lia|cnt_simpl; lia]).
    rewrite <- E. eapply gr_frame; [exact Hg| |cnt_simpl; lia]. rewrite E. apply split_there. cnt_simpl. lia. }
  eapply way_frame; [exact Hw1| |]; apply Hs; in_ways.
Qed.

Lemma header_split pages2 I' : grown pages1 pages2 (Ia2 ++ Ib2) (Ia2 ++ Ib2) I' -> pages2 !! hdr = Some hb.
Proof using Hhead Hsame Hfresh Hnd.
  clear Hd Hlen. intros Hg. pose proof (Hnd hdr) as Hndx. destruct Hhead as [Hb _]. assert (E : pages1 !! hdr = pages0 !! hdr).
  { apply split_other; [by exists hb|]. cnt_simpl. repeat case_decide; try done; lia. }
  rewrite <- Hb, <- E. eapply gr_frame; [exact Hg|rewrite E; by exists hb|]. cnt_simpl. repeat case_decide; try done; lia.
Qed.

(** The ids of the tree once the split is in it. *)
Lemma cnt_split pages2 I' : grown pages1 pages2 (Ia2 ++ Ib2) (Ia2 ++ Ib2) I' ->
  forall x, (cnt x (hdr :: (Ia1 ++ I' ++ Ib1) ++ L'.*1) <= 1)%nat.
Proof using Hw1 Hw2 Hsame Hlf Hfresh Hhead Hnd Hl Hr.
  clear Hd Hlen. intros Hg x. destruct split_fresh_id as (Hf1 & Hf2 & Hf3). pose proof (Hnd x) as Hndx. destruct (pages1 !! x) as [b|] eqn:Ex.
  - pose proof (gr_old _ _ _ _ _ Hg x ltac:(by exists b)) as Ho. destruct (decide (x = rid)) as [->|Hne]; cnt_simpl; repeat case_decide; try done; lia.
  - pose proof (gr_new _ _ _ _ _ Hg x Ex) as Ho. assert (Hx0 : ~ is_Some (pages0 !! x)).
    { intros Hx. destruct (decide (x = g_id g)) as [->|Hne].
      - pose proof (tree_pid _ _ _ _ _ _ _ _ Hl) as Hp. destruct (tree_dom _ _ _ _ _ _ _ _ Hl (g_id g) Hp). congruence.
      - rewrite split_other in Ex by (done || (cbn; by rewrite decide_False)). rewrite Ex in Hx. by destruct Hx. }
    assert (H0 : cnt x (Ia1 ++ Ia2 ++ Ib2 ++ Ib1 ++ (La1 ++ La2 ++ Lb2 ++ Lb1).*1) = 0%nat).
    { destruct (decide (0 < cnt x (Ia1 ++ Ia2 ++ Ib2 ++ Ib1 ++ (La1 ++ La2 ++ Lb2 ++ Lb1).*1))%nat) as [Hc|Hc]; [by destruct (Hx0 (split_there x Hc))|lia]. }
    assert (x <> hdr) by (intros ->; apply Hx0; destruct Hhead; by eexists). assert (x <> g_id g) by (by intros ->).
    assert (x <> rid). { intros ->. pose proof (tree_pid _ _ _ _ _ _ _ _ Hr) as Hp. destruct (tree_dom _ _ _ _ _ _ _ _ Hr rid Hp). congruence. }
    cnt_simpl. repeat case_decide; try done; lia.
Qed.

Context (Hlinked : linked L' None) (Hfirst : first_leaf_id h = first_id L' None) (Hentries : entries_are L' m).
Context (Hctx : c_root ctx = root) (Htop : (c_header ctx = Some (mkGuard hdr hb) /\ ha = hr /\ a = root /\ loa = None /\ hia = None /\ La1 = [] /\ Lb1 = [] /\ Ia1 = [] /\ Ib1 = []) \/
  ~ top_unsafe tree ws2).

Lemma after_split_runs p : pool_pages p = pages1 ->
  runs ((rest ← BPlusTree.split_loop tree ws2 (mkSplit (g_id g) sep rid);
         match rest with None => mret tt | Some split => BPlusTree.grow_new_root tree ctx h split end) p)
    (fun _ pages => tree_holds tree (S d) pages m).
Proof using Laws Hok Hw1 Hw2 Hhead Hroot Hd Hlf Hfresh Hrid Hsame Hl Hr Hsep Hlen Hnd Hlinked Hfirst Hentries Hctx Htop.
  intros Hp. destruct split_fresh_id as (Hf1 & Hf2 & Hf3). eapply runs_bind.
  { eapply (split_loop_runs tree Hok pages1); [exact way2_split|done|exact Hl|exact Hr|done|done|done|].
    intros x. pose proof (Hnd x) as Hndx. destruct (decide (x = rid)) as [->|Hne]; cnt_simpl; repeat case_decide; try done; lia. }
  intros res p2 (I' & Hres & Hg & Hun). cbn [app] in Hg.
  pose proof (cnt_split _ _ Hg) as Hc. pose proof (header_split _ _ Hg) as Hhd. destruct res as [s|].
  - destruct Htop as [(Hch & -> & -> & -> & -> & -> & -> & -> & ->)|Hno]; [|by destruct Hun]. cbn [app] in *. rewrite app_nil_r in *.
    destruct Hres as (sep' & r' & L1 & L2 & I1 & I2 & -> & EL & -> & H1 & H2 & H3 & H4 & H5). rewrite EL in *.
    pose proof (new_root_runs p2 pages0 hb h root hr sep' r' L1 L2 I1 I2 ctx Hhead Hroot Hch Hctx Hhd H5 H4 H1 H2) as Hn.
    rewrite app_nil_r in Hc. specialize (Hn Hc Hlinked Hfirst). unfold runs in *.
    destruct (BPlusTree.grow_new_root tree ctx h _ p2) as [[u|[]|] p3]; try done. destruct Hn as (hb' & h' & root' & I' & Hh' & Hr' & Hrt).
    eapply tree_holds_mono; [|exact (le_n_S _ _ Hd)]. exists hb', h'. split; [done|]. rewrite Hr'. by exists (L1 ++ L2), I'.
  - apply runs_ret. exists hb, h. split; [eapply header_kept; [exact Hhead|]; rewrite Hhd; symmetry; apply Hhead|]. rewrite Hroot.
    exists L', (Ia1 ++ I' ++ Ib1). split; [|done]. split; [|done|done|by apply cnt_nodup].
    exists hr. split; [lia|]. eapply way_plug; [by eapply way1_split|exact Hres].
Qed.

End after_split.

(** ** A full leaf *)

Lemma split_leaf_runs p d m key rid h hb root hr g lf lf' lo hi ws ws2 L1 L2 I1 I2 ctx :
  found tree (pool_pages p) d m key h hb root hr g lf lo hi ws L1 L2 I1 I2 -> len key <= max_key_len lay -> rid_valid rid ->
  held tree (roomy tree) (pool_pages p) root hr (mkGuard hdr hb) ctx 0 g lo hi L1 L2 I1 I2 -> c_write_set ctx = g :: ws2 ->
  insert_result lf key rid = Ok lf' -> LeafPage.is_overfull lay lf' = true ->
  EntryArea.capacity (Layout.leaf_area lay) < LeafPage.used_bytes lay lf + LeafPage.cost lay key ->
  runs ((right_page ← BPlusTree.allocate_page;
         '(leaf, right_leaf, separator) ← BPlusTree.pure (LeafPage.split_into lay lf' (g_id right_page));
         _ ← BPlusTree.encode_leaf tree g leaf;
         _ ← BPlusTree.encode_leaf tree right_page right_leaf;
         rest ← BPlusTree.split_loop tree ws2 (mkSplit (g_id g) separator (g_id right_page));
         match rest with None => mret tt | Some split => BPlusTree.grow_new_root tree ctx h split end) p)
    (fun _ pages => m !! key = None /\ tree_holds tree (S d) pages (<[key := rid]> m)).
Proof using Laws Hok.
  intros F Hk Hrv Hheld Hws Ei Ho Hfull. destruct (found_insert tree Hok _ _ _ _ _ _ _ _ _ _ _ _ _ _ _ _ _ _ F Hk Hrv lf' Ei) as (Hm & Hw' & Hks & Hn & He & Hu).
  destruct F as [F1 F2 F3 F4 F5 F6 F7 F8 F9 F10 F11]. destruct Hheld as (ha & a & loa & hia & ws1 & ws2' & La1 & Lb1 & Ia1 & Ib1 & La2 & Lb2 & Ia2 & Ib2 & Hw1 & Hw2 & Ews & Hcr & -> & -> & -> & -> & Hanchor).
  assert (ws2' = ws2) as -> by congruence. eapply runs_bind; [apply allocate_runs|]. intros [r b0] p1 (Hfresh & Hid & Hb0 & Hp1). cbn [g_id g_data] in *.
  pose proof (cost_bounds lay key Hk) as Hcb. pose proof (leaf_fits _ _ F8) as Hfit.
  destruct (split_leaf_ok (E := IndexError BE) lay Hok lf' r Hw' Hid Ho ltac:(lia)) as (l & rr & sep & Es & Hv). rewrite (bind_pure (l, rr, sep)) by done.
  destruct (halves_bounds _ _ _ _ _ lo hi Hv Hw' Hks) as (Hkl & Hkr & Hsep & Hlen). assert (Hgr : g_id g <> r) by (intros E; congruence).
  eapply runs_bind; [apply (encode_leaf_runs tree Hok); [apply Hv|apply Hv|apply (n_len _ _ _ _ (v_node _ _ _ F8))|rewrite Hp1, lookup_insert_ne by done; by rewrite F7]|].
  intros g1 p2 (b1 & Hb1 & Hp2). eapply runs_bind.
  { apply (encode_leaf_runs tree Hok); [apply Hv|apply Hv|cbn; by rewrite Hb0|]. cbn [g_id]. rewrite Hp2, lookup_insert_ne, Hp1, lookup_insert_eq by done. done. }
  intros g2 p3 (b2 & Hb2 & Hp3). cbn [g_id] in *. pose proof F3 as [_ R2 R3 R4].
  assert (EL : La1 ++ (La2 ++ ([(g_id g, l)] ++ [(r, rr)]) ++ Lb2) ++ Lb1 = (La1 ++ La2) ++ ([(g_id g, l)] ++ [(r, rr)]) ++ (Lb2 ++ Lb1)) by (by rewrite <- !app_assoc).
  pose proof (after_split_runs d (<[key := rid]> m) h hb root hr ctx g lf l rr r sep lo hi (pool_pages p) (pool_pages p3) ws2 ha a loa hia ws1 La1 Lb1 La2 Lb2 Ia1 Ib1 Ia2 Ib2
    Hw1 Hw2 F1 F2 F4 ltac:(by rewrite F7) Hfresh Hid) as Hrun.
  assert (Hres : runs ((rest ← BPlusTree.split_loop tree ws2 (mkSplit (g_id g) sep r);
      match rest with None => mret tt | Some split => BPlusTree.grow_new_root tree ctx h split end) p3) (fun _ pages => tree_holds tree (S d) pages (<[key := rid]> m))).
  { apply Hrun; clear Hrun; try done.
    - intros x Hx1 Hx2. by rewrite Hp3, lookup_insert_ne, Hp2, lookup_insert_ne, Hp1, lookup_insert_ne by done.
    - exists l. split_and!; try done. split; [|apply Hv|done]. exists b1. by rewrite Hp3, lookup_insert_ne, Hp2, lookup_insert_eq by done.
    - exists rr. split_and!; try done. split; [|apply Hv|done]. exists b2. by rewrite Hp3, lookup_insert_eq by done.
    - intros x. pose proof (proj1 (cnt_nodup _) R4 x). cnt_simpl. lia.
    - rewrite EL. destruct (hv_next _ _ _ _ _ _ Hv) as [N1 N2]. apply (linked_split _ _ lf); [done|by rewrite N2, Hn|exact R2].
    - rewrite EL. rewrite R3. symmetry. apply first_split.
    - rewrite EL. eapply entries_split; [exact He|apply Hv].
    - destruct Hanchor as [Ha|(t & Ht & Hroomy)]; [by left|right]. destruct ws2 as [|g' ws2].
      + injection Ht as <-. by destruct (roomy_leaf _ lf key Hroomy F8 F9 Hk Hfull).
      + rewrite last_cons_cons in Ht. intros Hun. by eapply roomy_top. }
  unfold runs in *. destruct ((rest ← BPlusTree.split_loop tree ws2 (mkSplit (g_id g) sep r); _) p3) as [[u|[]|] p4]; done.
Qed.

(** ** Every insert *)

Lemma results_mono {A} (r : outcome (IndexError BE) A * P) (Q Q' : A -> gmap PageId bytes -> Prop) (D D' : gmap PageId bytes -> Prop) :
  results r Q D -> (forall a pages, Q a pages -> Q' a pages) -> (forall pages, D pages -> D' pages) -> results r Q' D'.
Proof using. unfold results. destruct r as [[a|[[]| | | | | | | |]|] p]; auto. Qed.

Lemma insert_pessimistic_results p d m key rid fuel : tree_holds tree d (pool_pages p) m -> (d <= fuel)%nat -> len key <= max_key_len lay -> rid_valid rid ->
  results (BPlusTree.insert_pessimistic tree fuel key rid p) (fun _ pages => m !! key = None /\ tree_holds tree (S d) pages (<[key := rid]> m))
    (fun pages => pages = pool_pages p /\ is_Some (m !! key)).
Proof using Laws Hok.
  intros Hholds Hf Hk Hrv. pose proof Hholds as (hb & h & Hh & Hr). unfold BPlusTree.insert_pessimistic.
  eapply results_bind; [apply gives_results, read_page_gives, Hh|]. intros g p1 [-> Hp1]. cbn [g_data]. rewrite (bind_pure h) by (by eapply header_read).
  destruct (root_page_id h) as [root|] eqn:Er.
  2:{ destruct Hr as [_ Hm]. apply runs_results. rewrite <- Hp1 in *. by apply new_leaf_runs. }
  destruct Hr as (L & I & Hrt & Hm). pose proof Hrt as [(ht & Hht & Ht) _ _ _].
  destruct (tree_root tree _ _ _ _ _ _ _ Ht) as (br & Hbr & _). unfold BPlusTree.latch_path_to_leaf. cbn [c_root c_header c_write_set].
  eapply results_bind.
  { eapply results_bind; [apply gives_results, read_page_gives; rewrite Hp1; exact Hbr|]. intros gr p2 [-> Hp2]. rewrite Hp1 in Hp2.
    eapply gives_results, (latch_path_gives tree Hok (BPlusTree.safe_for_insert tree) (roomy tree) (safe_insert_leaf tree Hok) (safe_insert_internal tree)
      (pool_pages p) root ht (mkGuard hdr hb) ht key _ (mkGuard root br) None None [] [] [] [] L I p2 fuel Hp2); [|exact Ht|exact Hbr|done|lia].
    exists ht, root, None, None, [], [], [], [], [], [], [], [], [], []. split; [constructor|]. split; [constructor|]. split_and!; try done. left. done. }
  cbn beta. rewrite !app_nil_r. cbn [app]. intros ctx p3 [(g & lo & hi & L1 & L2 & I1 & I2 & lf & Hheld & [_ Hlw Hlk] & Hg & Hgl & Hin & -> & ->) Hp3].
  pose proof Hheld as (ha & a & loa & hia & ws1 & ws2 & La1 & Lb1 & Ia1 & Ib1 & La2 & Lb2 & Ia2 & Ib2 & Hw1 & Hw2 & Ews & Hcr & EL1 & EL2 & EI1 & EI2 & _).
  rewrite (bind_pure (g, ws2)) by (by rewrite Ews).
  assert (F : found tree (pool_pages p3) d m key h hb root ht g lf lo hi (ws2 ++ ws1) L1 L2 I1 I2).
  { rewrite Hp3. split; try done. rewrite EL1, EL2, EI1, EI2. by eapply way_trans. }
  rewrite <- Hp3 in *. eapply results_bind; [eapply results_mono; [exact (in_place_holds tree Hok _ _ _ _ _ _ _ _ _ _ _ _ _ _ _ _ _ _ F Hk Hrv)|intros ? ? H; exact H|done]|].
  intros [] p4 Hq; cbn beta iota in Hq.
  { destruct Hq as [Hq1 Hq2]. split; [done|]. eapply tree_holds_mono; [exact Hq2|lia]. }
  destruct Hq as (Hp4 & lf' & Ei & Ho & Hfull). rewrite <- Hp4 in *. apply runs_results.
  rewrite (bind_coded lf) by (eapply decode_leaf; [apply lo_cap', Hok|apply lo_room', Hok|done|done]).
  pose proof (view_small lay (lo_cap' tree Hok) (lo_room' tree Hok) _ lf Hgl Hlw) as [Hs Hps].
  rewrite (bind_pure lf') by (unfold BPlusTree.insert_into; rewrite (insert_is lay) by (done || (unfold u32_max; lia)); by rewrite Ei).
  rewrite Ho. cbn [negb]. by eapply split_leaf_runs.
Qed.

(** The leaf the optimistic descent latches; [None] for a tree that is a leaf or empty. *)
Lemma write_leaf_gives p d m hb h key fuel : header_at tree (pool_pages p) hb h ->
  match root_page_id h with None => first_leaf_id h = None /\ m = ∅ | Some root => exists L I, rooted tree (pool_pages p) h d root L I /\ entries_are L m end -> (d <= fuel)%nat ->
  gives (BPlusTree.latch_leaf_for_write (BE := BE) tree fuel key p) (pool_pages p) (fun r => r = None \/ exists g lf root ht lo hi ws L1 L2 I1 I2,
    r = Some g /\ found tree (pool_pages p) d m key h hb root ht g lf lo hi ws L1 L2 I1 I2).
Proof using Laws.
  intros Hh Hr Hf. unfold BPlusTree.latch_leaf_for_write. destruct (root_page_id h) as [root|] eqn:Er.
  2:{ eapply gives_bind; [apply (root_page_gives tree p hb h Hh); by rewrite Er|]. rewrite Er. intros r p' Hp ->. apply gives_ret; auto. }
  destruct Hr as (L & I & Hrt & Hm). pose proof Hrt as [(ht & Hht & Ht) _ _ _]. destruct (tree_root tree _ _ _ _ _ _ _ Ht) as (br & Hbr & _).
  eapply gives_bind; [apply (root_page_gives tree p hb h Hh); rewrite Er; by rewrite Hbr|]. rewrite Er. intros r p' Hp (b & -> & Hb). rewrite <- Hp in *.
  pose proof (latch_leaf_gives tree ht root None None L I key p' b fuel Ht ltac:(done) Hb ltac:(lia)) as [G1 G2]. split; [done|].
  destruct (BPlusTree.latch_leaf_loop fuel (mkGuard root b) key p') as [[r|e|] p'']; [|done|done]. cbn [fst] in *. destruct ht as [|ht]; [by left|right].
  destruct G2 as (g & -> & (lo & hi & ws & L1 & L2 & I1 & I2 & lf & Hw & [_ Hlw Hlk] & Hg & Hgl & Hin & -> & ->)).
  exists g, lf, root, (S ht), lo, hi, ws, L1, L2, I1, I2. split; [done|]. by split.
Qed.

(** Inserting: the key is added to the map, or was in it and nothing changed; the only
    other errors are the buffer pool's. *)
Lemma insert_results p d m key rid fuel : tree_holds tree d (pool_pages p) m -> (d <= fuel)%nat -> len key <= max_key_len lay -> rid_valid rid ->
  results (BPlusTree.insert tree fuel key rid p) (fun _ pages => m !! key = None /\ tree_holds tree (S d) pages (<[key := rid]> m))
    (fun pages => pages = pool_pages p /\ is_Some (m !! key)).
Proof using Laws Hok.
  intros Hholds Hf Hk Hrv. pose proof Hholds as (hb & h & Hh & Hr). unfold BPlusTree.insert.
  rewrite (bind_pure tt) by (unfold BPlusTree.check_key_len; by rewrite (proj2 (Z.leb_le _ _)) by lia).
  eapply results_bind; [apply gives_results, (write_leaf_gives p d m hb h key fuel Hh Hr Hf)|]. intros r p1 [Hr1 Hp1].
  eapply results_bind with (Q := fun done pages => if (done : bool) then m !! key = None /\ tree_holds tree d pages (<[key := rid]> m) else pages = pool_pages p).
  { destruct Hr1 as [->|(g & lf & root & ht & lo & hi & ws & L1 & L2 & I1 & I2 & -> & F)]; [done|]. rewrite <- Hp1 in *.
    eapply results_mono; [exact (in_place_holds tree Hok _ _ _ _ _ _ _ _ _ _ _ _ _ _ _ _ _ _ F Hk Hrv)|intros [] ? H; [exact H|apply H]|done]. }
  intros [] p2 Hq; cbn beta iota in Hq.
  - destruct Hq as [Hq1 Hq2]. split; [done|]. eapply tree_holds_mono; [exact Hq2|lia].
  - rewrite <- Hq in *. by apply insert_pessimistic_results.
Qed.

End grow.
