(* ===== verification/BPlusTreeScan.v ===== *)
(** * Scanning and making B+ trees

    A scan from one bound to another yields the entries of the map between the bounds, each
    once and in key order. A new tree holds the empty map, and an opened one what is in its
    pages. *)

From Stdlib Require Import ZArith Lia String Sorted.
From stdpp Require Import base list numbers option gmap.
From S2P Require Import Prelude Bytes Ids Buf TableHeap Str Slotted SlottedProofs BPlusPage PageView BPlusKeys PageViewProofs.
From S2P Require Import LeafContents LeafViewProofs PageCodecProofs BPlusSplit InternalOps BPlusTree BPlusTreeInv BPlusTreeWalk.
From S2P Require Import BPlusTreeSplit.

Local Open Scope Z_scope.

(** ** Bounds of a scan *)

Definition after_start (s : Bound IndexKey) (k : IndexKey) : Prop :=
  match s with Included a => kle a k | Excluded a => klt a k | Unbounded => True end.
Definition before_end (e : Bound IndexKey) (k : IndexKey) : Prop :=
  match e with Included b => kle k b | Excluded b => klt k b | Unbounded => True end.

Lemma past_upper_spec e k : BPlusTree.past_upper e k = false <-> before_end e k.
Proof. destruct e; cbn; [by rewrite negb_false_iff, key_le_spec|by rewrite negb_false_iff, key_lt_spec|done]. Qed.

(** The entries up to the first one past the end. *)
Fixpoint upto (e : Bound IndexKey) (l : list (IndexKey * RecordId)) : list (IndexKey * RecordId) :=
  match l with
  | [] => []
  | x :: l => if BPlusTree.past_upper e x.1 then [] else x :: upto e l
  end.

Lemma upto_sublist e l : upto e l `sublist_of` l.
Proof. induction l as [|x l IH]; cbn; [done|]. destruct (BPlusTree.past_upper e x.1); [apply sublist_nil_l|by constructor]. Qed.

Lemma before_end_down e a b : before_end e b -> klt a b -> before_end e a.
Proof. destruct e; cbn; [intros; apply klt_kle; by eapply klt_kle_trans|intros; by eapply klt_trans|done]. Qed.

Lemma upto_elem e l x : ascending l.*1 -> x ∈ upto e l <-> x ∈ l /\ before_end e x.1.
Proof.
  induction l as [|y l IH]; cbn; intros Ha; [by split; [intros ?%not_elem_of_nil|intros [?%not_elem_of_nil ?]]|].
  apply StronglySorted_inv in Ha as [Ha Hgt]. rewrite list.Forall_forall in Hgt. destruct (BPlusTree.past_upper e y.1) eqn:Ep.
  - split; [by intros ?%not_elem_of_nil|]. intros [Hx Hb]. exfalso. assert (Hy : before_end e y.1).
    { apply list.elem_of_cons in Hx as [->|Hx]; [done|]. eapply before_end_down; [exact Hb|]. apply Hgt, list_elem_of_fmap. by exists x. }
    apply past_upper_spec in Hy. congruence.
  - apply past_upper_spec in Ep. rewrite !list.elem_of_cons, IH by done. split; [intros [->|[? ?]]; auto|intros [[->|?] ?]; auto].
Qed.

(** ** The leaves in key order *)

Section order.
Context (tree : BPlusTree).
Abbreviation lay := (layout tree).
Abbreviation tree_at := (tree_at lay).
Abbreviation way := (way tree).

(** The live entries of leaves, in order. *)
Definition live_of (L : leaves) : list (IndexKey * RecordId) := mjoin (LeafPage.iter <$> L.*2).

Lemma live_of_app L1 L2 : live_of (L1 ++ L2) = live_of L1 ++ live_of L2.
Proof using. unfold live_of. by rewrite !fmap_app, join_app. Qed.

Lemma live_of_elem L k rid : (k, rid) ∈ live_of L <-> exists id p, (id, p) ∈ L /\ lives p k rid.
Proof using.
  unfold live_of. rewrite list_elem_of_join. split.
  - intros (l & Hin & (q & -> & ((id & p) & -> & Hp)%list_elem_of_fmap)%list_elem_of_fmap). exists id, p. split; [done|]. by apply iter_lives.
  - intros (id & p & Hp & Hl). exists (LeafPage.iter p). split; [by apply iter_lives|]. apply list_elem_of_fmap. exists p. split; [done|]. apply list_elem_of_fmap. by exists (id, p).
Qed.

Lemma live_keyed L k : k ∈ (live_of L).*1 -> keyed L k.
Proof using.
  intros ((k' & rid) & -> & Hx)%list_elem_of_fmap. apply live_of_elem in Hx as (id & p & Hp & (i & Hi & _)). exists id, p. split; [done|].
  apply entries_lookup in Hi. by eapply list_elem_of_lookup_2.
Qed.

Lemma chain_ascending (R : PageId -> bound -> bound -> leaves -> list PageId -> Prop) lo hi cs ks L I :
  (forall c lo hi L I, R c lo hi L I -> ascending (live_of L).*1 /\ forall k, keyed L k -> within lo hi k) -> ascending ks -> Forall (inside lo hi) ks ->
  chain R lo hi cs ks L I -> ascending (live_of L).*1.
Proof using.
  intros HR Ha Hin Hc. induction Hc as [c lo hi L I H|c cs k ks lo hi L1 I1 L2 I2 H Hc IH]; [by eapply HR|].
  apply StronglySorted_inv in Ha as [Ha Hgt]. apply Forall_cons_1 in Hin as [[Hk1 Hk2] Hks]. rewrite live_of_app, fmap_app. apply ascending_app.
  assert (Hks' : Forall (inside (Some k) hi) ks).
  { rewrite list.Forall_forall in *. intros y Hy. split; [cbn; by apply Hgt|by apply Hks]. }
  split_and!; [by eapply HR|by apply IH|]. intros a b Hx%live_keyed Hy%live_keyed. apply (HR _ _ _ _ _ H) in Hx as [_ Hx].
  eapply (chain_within R) in Hy as [Hy _]; [|intros; by eapply HR|exact Ha|exact Hks'|exact Hc]. cbn in *. by eapply klt_kle_trans.
Qed.

Lemma tree_ascending h : forall pages pid lo hi L I, tree_at h pages pid lo hi L I -> ascending (live_of L).*1.
Proof using.
  induction h as [|h IH]; intros pages pid lo hi L I Ht; pose proof Ht as Ht'; cbn in Ht.
  - destruct Ht as (p & [_ Hw _] & -> & ->). unfold live_of. cbn. rewrite app_nil_r. by apply (iter_ascending lay).
  - destruct Ht as (p & b & I' & [_ _ Hw Hk] & -> & Hc). eapply chain_ascending; [|apply Hw|exact Hk|exact Hc].
    intros c lo' hi' L' I0 Hc'. split; [by eapply IH|]. by eapply tree_within.
Qed.

Lemma tree_leaves h : forall pages pid lo hi L I, tree_at h pages pid lo hi L I -> forall id p, (id, p) ∈ L ->
  exists b, pages !! id = Some b /\ leaf_is lay b p /\ leaf_wf lay p.
Proof using.
  induction h as [|h IH]; intros pages pid lo hi L I Ht id p Hp; cbn in Ht.
  - destruct Ht as (q & [(b & Hb & His) Hw _] & -> & ->). apply list_elem_of_singleton in Hp as [= -> ->]. by exists b.
  - destruct Ht as (q & b & I' & _ & -> & Hc). induction Hc as [c lo hi L I H|c cs k ks lo hi L1 I1 L2 I2 H Hc IHc]; [by eapply IH|].
    apply elem_of_app in Hp as [Hp|Hp]; [by eapply IH|by apply IHc].
Qed.

(** Leaves before the way have keys below its low bound, those after it from its high bound. *)
Lemma way_order pages h pid lo hi h' q lo' hi' ws L1 L2 I1 I2 : way pages h pid lo hi h' q lo' hi' ws L1 L2 I1 I2 ->
  (forall k, above lo' k -> above lo k) /\ (forall k, below hi' k -> below hi k) /\
  (forall x k, keyed L1 x -> above lo' k -> klt x k) /\ (forall x k, keyed L2 x -> below hi' k -> klt k x).
Proof using.
  induction 1 as [|h pid lo hi p b c cs1 cs2 ks1 ks2 lo1 hi1 Lb Ib La Ia h' q lo' hi' ws L1 L2 I1 I2 Hn Hcs Hks Hb Ha Hw IH].
  { split_and!; [done|done|..]; by intros x k (id & p & ?%not_elem_of_nil & _). }
  destruct IH as (H1 & H2 & H3 & H4). destruct Hn as [_ _ Hwf Hin]. pose proof (iw_sorted _ _ Hwf) as Hasc. rewrite Hks in *.
  apply Forall_app in Hin as [Hin1 Hin2]. apply ascending_app in Hasc as (Ha1 & Ha2 & _). pose proof (before_low _ _ _ _ _ _ _ Hb) as Elo. pose proof (after_high _ _ _ _ _ _ _ Ha) as Ehi.
  split_and!.
  - intros k Hk%H1. rewrite Elo in Hk. unfold low_of in Hk. destruct (list.last ks1) as [a|] eqn:Ea; [|done]. apply last_Some_elem_of in Ea.
    rewrite list.Forall_forall in Hin1. destruct (inside_within _ _ _ (Hin1 a Ea)). by eapply above_weaken.
  - intros k Hk%H2. rewrite Ehi in Hk. unfold high_of in Hk. destruct ks2 as [|a ks2]; [done|]. apply Forall_cons_1 in Hin2 as [[_ Hin2] _]. by eapply below_weaken.
  - intros x k Hx Hk. apply keyed_app in Hx as [Hx|Hx]; [|by apply H3]. destruct (before_keys tree _ _ _ _ _ _ _ _ Hb Ha1 x Hx) as (a & -> & Hxa).
    eapply klt_kle_trans; [exact Hxa|]. by apply (H1 k).
  - intros x k Hx Hk. apply keyed_app in Hx as [Hx|Hx]; [by apply H4|].
    destruct (after_keys tree _ _ _ _ _ _ _ _ Ha Ha2 ltac:(eapply list.Forall_impl; [exact Hin2|intros ? [_ ?]; done]) x Hx) as (a & -> & Hxa).
    eapply klt_kle_trans; [exact (H2 k Hk)|exact Hxa].
Qed.

End order.

(** ** The rest of a leaf *)

Section rest.
Context (lay : Layout).

Definition leaf_rest (p : LeafPage) (i : nat) : list (IndexKey * RecordId) := LeafPage.live_from (Z.of_nat i) p (drop i (l_entries p)).

Lemma leaf_rest_end p i : (length (l_entries p) <= i)%nat -> leaf_rest p i = [].
Proof using. intros Hi. unfold leaf_rest. by rewrite drop_ge. Qed.

Lemma leaf_rest_step p i e : l_entries p !! i = Some e ->
  leaf_rest p i = if LeafPage.is_tombstoned p (Z.of_nat i) then leaf_rest p (S i) else e :: leaf_rest p (S i).
Proof using.
  intros Hi. unfold leaf_rest. rewrite (drop_S _ _ _ Hi). cbn [LeafPage.live_from]. replace (Z.of_nat i + 1) with (Z.of_nat (S i)) by lia. done.
Qed.

Lemma leaf_rest_elem p i k rid : (k, rid) ∈ leaf_rest p i <-> exists j, (i <= j)%nat /\ l_entries p !! j = Some (k, rid) /\ Z.of_nat j ∉ l_tombstones p.
Proof using.
  unfold leaf_rest. rewrite live_from_elem. split.
  - intros (j & Hj & Ht). rewrite lookup_drop in Hj. exists (i + j)%nat. split_and!; [lia|done|]. by rewrite Nat2Z.inj_add.
  - intros (j & Hle & Hj & Ht). exists (j - i)%nat. rewrite lookup_drop. replace (i + (j - i))%nat with j by lia. split; [done|].
    replace (Z.of_nat i + Z.of_nat (j - i)) with (Z.of_nat j) by lia. done.
Qed.

Lemma leaf_rest_ascending p i : leaf_wf lay p -> ascending (leaf_rest p i).*1.
Proof using.
  intros Hw. eapply ascending_sublist; [apply sublist_fmap'; etrans; [apply live_from_sublist|apply sublist_drop]|apply Hw].
Qed.

(** The slot a scan starts at, by its bound. *)
Definition start_slot (s : Bound IndexKey) (p : LeafPage) : nat :=
  match s with Unbounded => 0 | Excluded k => LeafPage.upper_bound p k | Included k => LeafPage.lower_bound p k end.

Lemma start_slot_spec s p j k rid : leaf_wf lay p -> l_entries p !! j = Some (k, rid) -> (start_slot s p <= j)%nat <-> after_start s k.
Proof using.
  intros Hw Hj. apply entries_lookup in Hj. destruct s as [a|a|]; cbn [start_slot after_start]; [| |split; [done|lia]].
  - unfold LeafPage.lower_bound. rewrite (keys_partition p (fun x => key_lt x a)). pose proof (lt_prefix_spec _ a (w_sorted _ _ Hw) j k Hj) as E.
    destruct (Nat.ltb_spec j (partition_prefix (fun x => key_lt x a) (LeafPage.keys p))) as [Hlt|Hge].
    + apply key_lt_spec in E. split; [lia|]. intros Hle. destruct (klt_irrefl k). by eapply klt_kle_trans.
    + split; [intros _|done]. apply not_klt. by rewrite <- key_lt_spec, E.
  - unfold LeafPage.upper_bound. rewrite (keys_partition p (fun x => key_le x a)). pose proof (le_prefix_spec _ a (w_sorted _ _ Hw) j k Hj) as E.
    destruct (Nat.ltb_spec j (partition_prefix (fun x => key_le x a) (LeafPage.keys p))) as [Hlt|Hge].
    + apply key_le_spec in E. split; [lia|]. intros Hle. destruct (klt_irrefl k). by eapply kle_klt_trans.
    + split; [intros _|done]. apply not_kle. by rewrite <- key_le_spec, E.
Qed.

Lemma start_rest_elem s p k rid : leaf_wf lay p -> (k, rid) ∈ leaf_rest p (start_slot s p) <-> lives p k rid /\ after_start s k.
Proof using.
  intros Hw. rewrite leaf_rest_elem. unfold lives. split.
  - intros (j & Hle & Hj & Ht). split; [by exists j|]. by eapply start_slot_spec.
  - intros ((j & Hj & Ht) & Ha). exists j. split_and!; [|done|done]. by eapply start_slot_spec.
Qed.

End rest.

(** ** The iterator *)

Section iter.
Context (tree : BPlusTree) (Hok : layout_ok (layout tree)).
Context {P BE : Type} {Pool : PagePool P BE} {Laws : PagePoolLaws P BE}.

Abbreviation lay := (layout tree).

(** The items of an iterator, up to the first error. *)
Fixpoint drain (fuel n : nat) (it : BPlusTreeIter) : M P (IndexError BE) (list (IndexKey * RecordId)) := fun p =>
  match n with
  | O => (Panic, p)
  | S n =>
      match BPlusTree.next tree fuel it p with
      | (Ok (None, _), p) => (Ok [], p)
      | (Ok (Some (Ok x), it), p) => (l ← drain fuel n it; mret (x :: l)) p
      | (Ok (Some (Err e), _), p) => (Err e, p)
      | (_, p) => (Panic, p)
      end
  end.

Definition turns (L : leaves) : nat := sum_list ((fun e : PageId * LeafPage => S (length (l_entries e.2))) <$> L).

Section leaves.
Context (pages : gmap PageId bytes) (L : leaves) (Hlinked : linked L None) (Hnd : NoDup L.*1).
Context (Hpages : forall id p, (id, p) ∈ L -> exists b, pages !! id = Some b /\ leaf_is lay b p /\ leaf_wf lay p).

(** The iterator is at slot [i] of a leaf of [L], and has [rest] before it, which takes it at
    most [n] turns. *)
Definition iter_at (n : nat) (it : BPlusTreeIter) (rest : list (IndexKey * RecordId)) : Prop :=
  match it_leaf it with
  | None => rest = []
  | Some b => exists L1 id p L2 i, L = L1 ++ (id, p) :: L2 /\ leaf_is lay b p /\ leaf_wf lay p /\ it_slot it = Z.of_nat i /\
      (forall q, q ∈ it_seen it -> q ∈ L1.*1 ++ [id]) /\ rest = leaf_rest p i ++ live_of L2 /\ (S (length (l_entries p) - i) + turns L2 <= n)%nat
  end.

Definition turn_result (n : nat) (rest : list (IndexKey * RecordId)) (u : Bound IndexKey) (t : BPlusTree.turn) (it : BPlusTreeIter) : Prop :=
  it_upper it = u /\
  match t with
  | BPlusTree.Continue => iter_at n it rest
  | BPlusTree.Stop => it_leaf it = None /\ (rest = [] \/ exists x rest', rest = x :: rest' /\ BPlusTree.past_upper u x.1 = true)
  | BPlusTree.Yield k rid => exists rest', rest = (k, rid) :: rest' /\ BPlusTree.past_upper u k = false /\ iter_at n it rest'
  end.

Lemma next_link b p : leaf_is lay b p -> leaf_wf lay p -> LeafPageView.next_leaf_id b = Ok (l_next p).
Proof using. intros Hb Hw. unfold LeafPageView.next_leaf_id. erewrite link_ok by apply Hb. cbn [mbind outcome_bind]. apply decode_link, Hw. Qed.

Lemma turn_gives n it rest b p : pool_pages p = pages -> it_leaf it = Some b -> iter_at (S n) it rest ->
  gives (BPlusTree.next_turn tree b it p) pages (fun r => turn_result n rest (it_upper it) r.1 r.2).
Proof using Laws Hok Hlinked Hnd Hpages.
  intros Hpool Hleaf Hat. unfold iter_at in Hat. rewrite Hleaf in Hat. destruct Hat as (L1 & id & q & L2 & i & EL & Hb & Hw & Hslot & Hseen & -> & Hn).
  pose proof (lo_cap _ Hok) as Hcap. pose proof (lo_room _ Hok) as Hroom. assert (Hroom' : 28 + 4 * tombstone_capacity lay <= PAGE_SIZE) by lia.
  unfold BPlusTree.next_turn. rewrite (bind_coded tt) by (by eapply check_new). rewrite (bind_pure (len (l_entries q))) by (by eapply (view_size lay Hcap Hroom')).
  rewrite Hslot. destruct (Z.leb_spec (len (l_entries q)) (Z.of_nat i)) as [Hend|Hin].
  - rewrite (bind_coded (l_next q)) by (by apply next_link). rewrite leaf_rest_end by lia. cbn [app].
    pose proof Hlinked as Hlk. rewrite EL in Hlk. apply leaves_linked_app in Hlk as [_ [Hnext _]]. unfold BPlusTree.load_leaf.
    rewrite Hnext. destruct L2 as [|[id2 q2] L2]; cbn [first_id].
    + apply gives_ret; [done|]. split; [done|]. split; [done|by left].
    + assert (Hns : id2 ∉ it_seen it).
      { intros Hs%Hseen. rewrite EL in Hnd. rewrite fmap_app, fmap_cons, fmap_cons in Hnd. cbn [fst] in Hnd. apply list.NoDup_app in Hnd as (_ & Hdis & Hnd2).
        apply list.NoDup_cons in Hnd2 as [Hid _]. apply elem_of_app in Hs as [Hs|Hs%list_elem_of_singleton].
        - apply (Hdis id2 Hs). right. by left.
        - subst id2. apply Hid. by left. }
      rewrite bool_decide_eq_false_2 by done. destruct (Hpages id2 q2) as (b2 & Hb2 & His2 & Hw2); [rewrite EL; apply elem_of_app; right; right; by left|].
      rewrite <- Hpool in *. eapply gives_bind with (Q := fun r => r = Some (b2, {[id2]} ∪ it_seen it)).
      { eapply gives_bind; [by apply (read_page_gives id2 p b2)|]. intros g p' Hp ->. cbn [g_data]. rewrite (bind_coded tt) by (by eapply check_new). by apply gives_ret. }
      intros r p' Hp ->. apply gives_ret; [done|]. split; [done|]. unfold iter_at. cbn [fst snd it_leaf it_slot it_seen].
      exists (L1 ++ [(id, q)]), id2, q2, L2, 0%nat. split_and!; try done.
      * by rewrite <- app_assoc.
      * rewrite fmap_app. cbn. intros x [->%elem_of_singleton|Hx%Hseen]%elem_of_union; apply elem_of_app; [right; by left|left; done].
      * cbn in Hn |- *. unfold turns in *. cbn [fmap list_fmap sum_list] in *. cbn [snd] in Hn. lia.
  - destruct (lookup_lt_is_Some_2 (l_entries q) i ltac:(lia)) as [[k rid] Hi]. rewrite (bind_pure (LeafPage.is_tombstoned q (Z.of_nat i))) by (by eapply (tombstoned_is lay Hcap Hroom')).
    rewrite (leaf_rest_step _ _ _ Hi).
    assert (Hnxt : forall rest', rest' = leaf_rest q (S i) ++ live_of L2 -> iter_at n (mkTreeIter (it_leaf it) (it_seen it) (Z.of_nat i + 1) (it_upper it)) rest').
    { intros rest' ->. unfold iter_at. cbn [it_leaf it_slot it_seen]. rewrite Hleaf. exists L1, id, q, L2, (S i). split_and!; try done; lia. }
    destruct (LeafPage.is_tombstoned q (Z.of_nat i)).
    + apply gives_ret; [done|]. split; [done|]. by apply Hnxt.
    + rewrite (bind_pure k) by (by eapply (view_key lay Hcap Hroom')). cbn [it_upper it_seen it_slot app].
      destruct (BPlusTree.past_upper (it_upper it) k) eqn:Ep.
      * apply gives_ret; [done|]. split; [done|]. split; [done|]. right. by eexists (k, rid), _.
      * rewrite (bind_coded rid) by (by eapply (record_is lay Hcap Hroom')). apply gives_ret; [done|]. split; [done|].
        cbn. eexists. split_and!; [done|done|]. by apply Hnxt.
Qed.

Definition next_result (n : nat) (rest : list (IndexKey * RecordId)) (u : Bound IndexKey)
    (r : outcome unit (option (outcome (IndexError BE) (IndexKey * RecordId)) * BPlusTreeIter) * P) : Prop :=
  match r with
  | (Ok (x, it), p) => pool_pages p = pages /\
      match x with
      | None => upto u rest = []
      | Some (Ok x) => exists rest' n', rest = x :: rest' /\ BPlusTree.past_upper u x.1 = false /\ it_upper it = u /\ (n' < n)%nat /\ iter_at n' it rest'
      | Some (Err (IBpm _)) => True
      | _ => False
      end
  | _ => False
  end.

Lemma next_gives n : forall fuel it rest p, pool_pages p = pages -> iter_at n it rest -> (n < fuel)%nat ->
  next_result n rest (it_upper it) (BPlusTree.next tree fuel it p).
Proof using Laws Hok Hlinked Hnd Hpages.
  induction n as [|n IH]; intros fuel it rest p Hpool Hat Hf; (destruct fuel as [|fuel]; [lia|]); cbn [BPlusTree.next]; destruct (it_leaf it) as [b|] eqn:Hleaf.
  - unfold iter_at in Hat. rewrite Hleaf in Hat. destruct Hat as (? & ? & ? & ? & ? & _ & _ & _ & _ & _ & _ & Hn). lia.
  - unfold iter_at in Hat. rewrite Hleaf in Hat. by subst rest.
  - destruct (turn_gives n it rest b p Hpool Hleaf Hat) as [Hp Ht]. destruct (BPlusTree.next_turn tree b it p) as [[[t it']|e|] p']; cbn [fst snd] in *; [|by destruct e|done].
    destruct Ht as [Hu Ht]. destruct t as [| |k rid].
    + pose proof (IH fuel it' rest p' Hp Ht ltac:(lia)) as H. rewrite Hu in H. unfold next_result in *.
      destruct (BPlusTree.next tree fuel it' p') as [[[x it'']|e|] p'']; [|done|done]. destruct H as [H1 H2]. split; [done|].
      destruct x as [[x|e|]|]; try done. destruct H2 as (rest' & n' & E1 & E2 & E3 & E4 & E5). exists rest', n'. split_and!; try done. lia.
    + destruct Ht as [_ Ht]. split; [done|]. destruct Ht as [->|(x & rest' & -> & Ep)]; [done|]. cbn. by rewrite Ep.
    + destruct Ht as (rest' & -> & Ep & Hat'). split; [done|]. exists rest', n. split_and!; try done. lia.
  - unfold iter_at in Hat. rewrite Hleaf in Hat. by subst rest.
Qed.

Lemma drain_gives fuel n : forall k it rest p, pool_pages p = pages -> iter_at n it rest -> (n < fuel)%nat -> (n < k)%nat ->
  gives (drain fuel k it p) pages (fun l => l = upto (it_upper it) rest).
Proof using Laws Hok Hlinked Hnd Hpages.
  induction n as [n IH] using lt_wf_ind. intros k it rest p Hpool Hat Hf Hk. destruct k as [|k]; [lia|]. cbn [drain].
  pose proof (next_gives n fuel it rest p Hpool Hat Hf) as H. unfold next_result in H. destruct (BPlusTree.next tree fuel it p) as [[[x it']|e|] p']; [|done|done].
  destruct H as [Hp H]. destruct x as [[x|e|]|]; [|by destruct e|done|done]. destruct H as (rest' & n' & -> & Ep & Eu & Hlt & Hat').
  eapply gives_bind; [apply (IH n' Hlt k it' rest' p' Hp Hat'); lia|]. intros l p'' Hp'' ->. apply gives_ret; [done|]. cbn [upto]. by rewrite Ep, Eu.
Qed.

End leaves.

(** ** The scan *)

Lemma live_order pages h pid lo hi L1 id p L2 lo' hi' ws I1 I2 s : way tree pages h pid lo hi 0 id lo' hi' ws L1 L2 I1 I2 ->
  leaf_wf lay p -> match s with Included a | Excluded a => within lo' hi' a | Unbounded => False end ->
  forall k rid, (k, rid) ∈ leaf_rest p (start_slot s p) ++ live_of L2 <-> (exists id' q, (id', q) ∈ L1 ++ (id, p) :: L2 /\ lives q k rid) /\ after_start s k.
Proof using.
  intros Hway Hw Hs k rid. destruct (way_order tree _ _ _ _ _ _ _ _ _ _ _ _ _ _ Hway) as (_ & _ & Hlow & Hhigh).
  rewrite elem_of_app, (start_rest_elem lay) by done. rewrite live_of_elem. setoid_rewrite elem_of_app. setoid_rewrite list.elem_of_cons.
  assert (Hkey : forall M id' q, (id', q) ∈ M -> lives q k rid -> keyed M k).
  { intros M id' q Hin (i & Hi & _). exists id', q. split; [done|]. apply entries_lookup in Hi. by eapply list_elem_of_lookup_2. }
  split.
  - intros [[Hl Ha]|(id' & q & Hin & Hl)]; [split; [exists id, p; auto|done]|]. split; [exists id', q; auto|].
    specialize (Hkey _ _ _ Hin Hl). destruct s as [a|a|]; cbn; [apply klt_kle| |done]; by apply Hhigh, Hs.
  - intros [(id' & q & Hin & Hl) Ha]. destruct Hin as [Hin|[[= -> ->]|Hin]]; [|by left|right; by exists id', q].
    exfalso. specialize (Hkey _ _ _ Hin Hl). destruct s as [a|a|]; [| |done]; (specialize (Hlow k a Hkey (proj1 Hs)); cbn in Ha; destruct (klt_irrefl k)).
    + by eapply klt_kle_trans.
    + by eapply klt_trans.
Qed.

(** An iterator over the entries from the start on. *)
Definition scanning (m : gmap IndexKey RecordId) (s e : Bound IndexKey) (N : nat) (L : leaves) (it : BPlusTreeIter) : Prop :=
  it_upper it = e /\ exists rest, iter_at L N it rest /\ ascending rest.*1 /\
    forall k rid, (k, rid) ∈ rest <-> m !! k = Some rid /\ after_start s k.

Lemma turns_le L1 id (p : LeafPage) L2 i : (S (length (l_entries p) - i) + turns L2 <= turns (L1 ++ (id, p) :: L2))%nat.
Proof using. unfold turns. rewrite fmap_app, sum_list_with_app. cbn. lia. Qed.

Lemma rest_ascending L1 id p L2 i : leaf_wf lay p -> ascending (live_of (L1 ++ (id, p) :: L2)).*1 -> ascending (leaf_rest p i ++ live_of L2).*1.
Proof using.
  intros Hw Ha. rewrite live_of_app in Ha. change (live_of ((id, p) :: L2)) with (LeafPage.iter p ++ live_of L2) in Ha. rewrite fmap_app in Ha.
  apply ascending_app in Ha as (_ & Ha & _). rewrite fmap_app in *. apply ascending_app in Ha as (_ & H2 & Hlt). apply ascending_app. split_and!; [by eapply leaf_rest_ascending|done|].
  intros a b ((k & rid) & -> & Hx)%list_elem_of_fmap Hb. apply Hlt; [|done]. apply list_elem_of_fmap. exists (k, rid). split; [done|].
  apply leaf_rest_elem in Hx as (j & _ & Hj & Ht). apply iter_lives. by exists j.
Qed.

Lemma start_slot_is {E} b p s : leaf_is lay b p -> leaf_wf lay p ->
  (match s with
   | Unbounded => Ok 0
   | Excluded key => @LeafPageView.upper_bound lay E b key
   | Included key => LeafPageView.lower_bound lay b key
   end) = Ok (Z.of_nat (start_slot s p)).
Proof using Hok.
  intros Hb Hw. pose proof (lo_cap _ Hok) as Hcap. pose proof (lo_room _ Hok) as Hroom.
  destruct s; [by eapply (lower_bound_is lay Hcap ltac:(lia))|by eapply (upper_bound_is lay Hcap ltac:(lia))|done].
Qed.

Lemma tree_not_empty h : forall pages pid lo hi I, tree_at lay h pages pid lo hi [] I -> False.
Proof using.
  induction h as [|h IH]; intros pages pid lo hi I Ht; cbn in Ht; [by destruct Ht as (? & _ & ? & _)|]. destruct Ht as (q & b & I' & _ & -> & Hc).
  remember ([] : leaves) as L eqn:EL. induction Hc as [c lo hi L I H|c cs k ks lo hi L1 I1 L2 I2 H Hc IHc]; subst; [by eapply IH|].
  apply app_nil in EL as [-> ->]. by eapply IH.
Qed.

Lemma read_header_gives p hb h : header_at tree (pool_pages p) hb h -> gives (BPlusTree.read_header tree p) (pool_pages p) (fun x => x = h).
Proof using Laws.
  intros Hh. eapply gives_bind; [apply read_page_gives, Hh|]. intros g p' Hp ->. cbn [g_data]. unfold BPlusTree.pure, liftc.
  rewrite (header_read tree _ _ _ Hh). by apply (gives_ret (A := HeaderPage) h p' _ (fun x => x = h)).
Qed.

(** The leaf a scan starts at, and what is from its start slot on. *)
Definition starts (m : gmap IndexKey RecordId) (s : Bound IndexKey) (L : leaves) (r : option PageMut) : Prop :=
  exists g q L1 L2, r = Some g /\ L = L1 ++ (g_id g, q) :: L2 /\ leaf_is lay (g_data g) q /\ leaf_wf lay q /\
    forall k rid, (k, rid) ∈ leaf_rest q (start_slot s q) ++ live_of L2 <-> m !! k = Some rid /\ after_start s k.

Section start.
Context (p : P) (d : nat) (m : gmap IndexKey RecordId) (hb : bytes) (h : HeaderPage) (root : PageId) (L : leaves) (I : list PageId).
Context (Hh : header_at tree (pool_pages p) hb h) (Er : root_page_id h = Some root) (Hrt : rooted tree (pool_pages p) h d root L I) (Hm : entries_are L m).

Lemma find_starts fuel s a : (d <= fuel)%nat -> s = Included a \/ s = Excluded a -> gives (BPlusTree.find_leaf tree fuel a p) (pool_pages p) (starts m s L).
Proof using Laws Hh Er Hrt Hm.
  intros Hf Ha. pose proof (find_leaf_leads tree p d a fuel hb h root L I Hh Er Hrt Hf) as [G1 G2]. split; [done|].
  destruct (BPlusTree.find_leaf tree fuel a p) as [[r|e'|] p2]; [|done|done]. cbn [fst] in *.
  destruct G2 as (g & ht' & -> & (lo & hi & ws & L1 & L2 & I1 & I2 & q & Hway & [_ Hw _] & _ & Hb & Hin & EL & EI)). exists g, q, L1, L2. split_and!; try done.
  intros k rid. rewrite (Hm k rid), EL. eapply live_order; [exact Hway|done|]. by destruct Ha as [-> | ->].
Qed.

Lemma first_starts : gives ((first ← BPlusTree.pure (ok_or (first_leaf_id h) (ROOT_WITHOUT_FIRST_LEAF (BE := BE))); page ← BPlusTree.read_page first; mret (Some page)) p)
  (pool_pages p) (starts m Unbounded L).
Proof using Laws Hh Er Hrt Hm.
  destruct Hrt as [(ht & Hht & Ht) Hlk Hfst Hnd]. rewrite Hfst. destruct L as [|[id q] L2]; [by destruct (tree_not_empty _ _ _ _ _ _ Ht)|]. cbn [first_id].
  destruct (tree_leaves tree _ _ _ _ _ _ _ Ht id q ltac:(by left)) as (b & Hb & His & Hw). rewrite (bind_pure id) by done.
  eapply gives_bind; [by apply (read_page_gives id p b)|]. intros g p2 Hp2 ->. apply gives_ret; [done|]. exists (mkGuard id b), q, [], L2. split_and!; try done.
  intros k rid. rewrite (Hm k rid), elem_of_app, (start_rest_elem lay), live_of_elem by done. cbn [after_start]. setoid_rewrite list.elem_of_cons. split.
  - intros [[Hl _]|(id' & q' & Hin & Hl)]; (split; [|done]); [exists id, q; auto|exists id', q'; auto].
  - intros [(id' & q' & [[= -> ->]|Hin] & Hl) _]; [by left|right; by exists id', q'].
Qed.

End start.

Lemma scan_gives p d m : tree_holds tree d (pool_pages p) m ->
  exists L, linked L None /\ NoDup L.*1 /\ (forall id q, (id, q) ∈ L -> exists b, pool_pages p !! id = Some b /\ leaf_is lay b q /\ leaf_wf lay q) /\
  forall s e fuel, (d <= fuel)%nat -> gives (BPlusTree.scan tree fuel s e p) (pool_pages p) (scanning m s e (turns L) L).
Proof using Laws Hok.
  intros (hb & h & Hh & Hr). unfold BPlusTree.scan. destruct (root_page_id h) as [root|] eqn:Er.
  2:{ destruct Hr as [_ ->]. exists []. split_and!; [done|constructor|by intros ? ? ?%not_elem_of_nil|]. intros s e fuel Hf.
      eapply gives_bind; [eapply read_header_gives, Hh|]. intros x p' Hp ->. rewrite Er. apply gives_ret; [done|]. split; [done|]. exists [].
      split_and!; [done|constructor|]. intros k rid. rewrite lookup_empty. split; [by intros ?%not_elem_of_nil|by intros [? _]]. }
  destruct Hr as (L & I & Hrt & Hm). pose proof Hrt as [(ht & Hht & Ht) Hlk Hfst Hnd]. exists L. pose proof (tree_ascending tree _ _ _ _ _ _ _ Ht) as Hasc.
  split_and!; [done|by apply list.NoDup_cons in Hnd as [_ (_ & _ & ?)%list.NoDup_app]|by apply (tree_leaves tree _ _ _ _ _ _ _ Ht)|].
  intros s e fuel Hf. eapply gives_bind; [eapply read_header_gives, Hh|]. intros x p1 Hp1 ->. rewrite Er. pose proof (lo_cap _ Hok) as Hcap. pose proof (lo_room _ Hok) as Hroom.
  eapply gives_bind with (Q := starts m s L).
  { rewrite <- Hp1 in *. destruct s as [a|a|]; [eapply find_starts; eauto|eapply find_starts; eauto|by eapply first_starts]. }
  intros r p2 Hp2 (g & q & L1 & L2 & -> & EL & Hb & Hw & Hel). rewrite (bind_coded tt) by (apply (check_new lay Hcap ltac:(lia) (g_data g) q Hb Hw)).
  rewrite (bind_pure (Z.of_nat (start_slot s q))) by (by apply start_slot_is). apply gives_ret; [done|]. split; [done|].
  exists (leaf_rest q (start_slot s q) ++ live_of L2). split_and!; [|rewrite EL in Hasc; by eapply rest_ascending|done].
  unfold iter_at. cbn [it_leaf it_slot it_seen]. exists L1, (g_id g), q, L2, (start_slot s q). split_and!; try done.
  - intros x ->%elem_of_singleton. apply elem_of_app. right. by left.
  - rewrite EL. apply turns_le.
Qed.

(** A whole scan: its items are the entries between the bounds, in key order. *)
Lemma scan_drain p d m : tree_holds tree d (pool_pages p) m -> exists N, forall s e fuel, (N <= fuel)%nat ->
  gives ((it ← BPlusTree.scan tree fuel s e; drain fuel fuel it) p) (pool_pages p) (fun l => ascending l.*1 /\
    forall k rid, (k, rid) ∈ l <-> m !! k = Some rid /\ after_start s k /\ before_end e k).
Proof using Laws Hok.
  intros Ht. destruct (scan_gives p d m Ht) as (L & Hlk & Hnd & Hlv & Hscan). exists (S (d + turns L)). intros s e fuel Hf.
  eapply gives_bind; [apply Hscan; lia|]. intros it p' Hp (He & rest & Hat & Ha & Hel).
  destruct (drain_gives (pool_pages p) L Hlk Hnd Hlv fuel (turns L) fuel it rest p' Hp Hat ltac:(lia) ltac:(lia)) as [G1 G2]. split; [done|].
  destruct (drain fuel fuel it p') as [[l|x|] p2]; [|done|done]. cbn [fst] in *. subst l. split.
  - eapply ascending_sublist; [apply sublist_fmap', upto_sublist|done].
  - intros k rid. rewrite upto_elem by done. rewrite Hel, He. cbn [fst]. tauto.
Qed.

End iter.

(** * New and opened trees *)

Import PageCodec.

Local Open Scope Z_scope.

Lemma init_header b k l : len b = PAGE_SIZE -> Layout.new k = Ok l -> 0 <= k <= u32_max ->
  exists b', HeaderPageView.init b k = Ok b' /\ header_is b' (mkHeader None None k).
Proof.
  intros Hl Hlay Hk. assert (PAGE_SIZE = 8192) by done. unfold HeaderPageView.init. rewrite Hlay. cbn [mbind outcome_bind]. unfold check_len. rewrite Hl, Z.eqb_refl. cbn [negb mbind outcome_bind].
  rewrite fill_zero_ok by (change HEADER_FIXED_HEADER_BYTES with 32; lia). cbn [mbind outcome_bind].
  set (b0 := splice _ _ _). assert (H0 : len b0 = PAGE_SIZE) by (unfold b0; rewrite length_splice; lia).
  destruct (put_header_ok (E := PageCodecError) b0 KIND_HEADER H0) as (b1 & -> & H1 & Hm & Hv & Hkd & _). cbn [mbind outcome_bind].
  unfold put_u32_le, put_u64_le. change HDR_KEY_LEN_OFF with 8. change HDR_ROOT_OFF with 16. change HDR_FIRST_LEAF_OFF with 24. unfold u32_max in *.
  rewrite put_le_ok by lia. cbn [mbind outcome_bind]. set (b2 := splice b1 8 (to_le 4 k)). assert (H2 : len b2 = PAGE_SIZE) by (unfold b2; rewrite length_splice; lia).
  rewrite put_le_ok by lia. cbn [mbind outcome_bind]. set (b3 := splice b2 16 _). assert (H3 : len b3 = PAGE_SIZE) by (unfold b3; rewrite length_splice; lia).
  rewrite put_le_ok by lia. eexists. split; [done|]. pose proof (encode_u64_bound None I) as He. unfold u64_max in He. split; [split|]; cbn [h_max_key_len root_page_id first_leaf_id].
  - rewrite length_splice. lia.
  - rewrite sub_splice_disjoint by blia. unfold b3. rewrite sub_splice_disjoint by blia. unfold b2. by rewrite sub_splice_disjoint by blia.
  - rewrite !byte_at_splice_out by blia. unfold b3. rewrite !byte_at_splice_out by blia. unfold b2. by rewrite !byte_at_splice_out by blia.
  - rewrite byte_at_splice_out by blia. unfold b3. rewrite byte_at_splice_out by blia. unfold b2. by rewrite byte_at_splice_out by blia.
  - rewrite le_at_splice_disjoint by blia. unfold b3. rewrite le_at_splice_disjoint by blia. apply le_at_splice_same; [done|done|lia|lia|]. cbn. lia.
  - rewrite le_at_splice_disjoint by blia. apply le_at_splice_same; [done|done|lia|lia|]. change (256 ^ 8) with 18446744073709551616. unfold encode_page_id. lia.
  - apply le_at_splice_same; [done|done|lia|lia|]. change (256 ^ 8) with 18446744073709551616. unfold encode_page_id. lia.
Qed.

Lemma new_layout k l : 0 <= k -> Layout.new k = Ok l -> layout_ok l /\ max_key_len l = k /\ k <= u32_max.
Proof.
  intros Hk El. destruct (build_layout_ok k LEAF_TOMBSTONE_CAPACITY l Hk ltac:(unfold LEAF_TOMBSTONE_CAPACITY; lia) El) as [Hok ->]. split; [done|]. split; [done|].
  pose proof (lo_internal _ Hok) as Hi. unfold Layout.internal_max_entry_bytes, EntryArea.entry_cost, EntryArea.capacity in Hi. cbn [max_key_len] in Hi.
  change (slots_start INTERNAL_AREA) with 24 in Hi. change (payload_len INTERNAL_AREA) with 8 in Hi. change SLOT_ENCODED_BYTES with 2 in Hi. change PAGE_SIZE with 8192 in Hi.
  unfold u32_max. lia.
Qed.

Section new.
Context {P BE : Type} {Pool : PagePool P BE} {Laws : PagePoolLaws P BE}.

(** A new tree holds nothing, in a page that was not there before. *)
Lemma new_runs k l p : 0 <= k -> Layout.new k = Ok l ->
  runs (BPlusTree.new (BE := BE) k p) (fun t pages => layout t = l /\ pool_pages p !! header_page_id t = None /\ tree_holds t 0 pages ∅ /\
    forall q, is_Some (pool_pages p !! q) -> pages !! q = pool_pages p !! q).
Proof using Laws.
  intros Hk El. destruct (new_layout k l Hk El) as (Hok & Hm & Hmax). unfold BPlusTree.new.
  rewrite (bind_pure l) by (unfold BPlusTree.layout_for; by rewrite El). unfold BPlusTree.with_layout. rewrite Hm.
  rewrite (bind_pure tt) by (by rewrite (proj2 (Z.leb_le _ _)) by lia). eapply runs_bind; [apply allocate_runs|].
  intros [hid b0] p1 (Hfresh & Hid & Hb0 & Hp1). cbn [g_id g_data] in *. subst b0. destruct (init_header zero_page k l zero_page_len El ltac:(lia)) as (hb & Ei & Hh).
  rewrite (bind_coded hb) by done. eapply runs_bind; [apply store_runs; cbn; rewrite Hp1; by rewrite lookup_insert_eq|]. intros g p2 [_ Hp2]. apply runs_ret.
  cbn [g_id layout header_page_id] in *. split_and!; [done|done| |].
  - exists hb, (mkHeader None None k). split; [|done]. split_and!; [by rewrite Hp2, lookup_insert_eq|done| |by rewrite <- Hm].
    pose proof (lo_key _ Hok). rewrite Hm in *. split; cbn; [by exists l|lia|done|done].
  - intros q [bq Hq]. assert (q <> hid) by (intros ->; congruence). by rewrite Hp2, Hp1, !lookup_insert_ne by done.
Qed.

(** Opening a tree finds the tree that was there. *)
Lemma open_gives k l hid d m p : 0 <= k -> Layout.new k = Ok l -> tree_holds (mkTree hid l) d (pool_pages p) m ->
  gives (BPlusTree.open (BE := BE) k hid p) (pool_pages p) (fun t => t = mkTree hid l).
Proof using Laws.
  intros Hk El (hb & h & Hh & _). unfold BPlusTree.open. rewrite (bind_pure l) by (unfold BPlusTree.layout_for; by rewrite El).
  eapply gives_bind; [eapply read_header_gives, Hh|]. intros x p' Hp _. by apply gives_ret.
Qed.

End new.
