(* ===== verification/LeafMerge.v ===== *)
(** * Leaves that borrow and merge

    Taking an entry from an end of a leaf, putting one there, and joining two leaves, with
    the tombstones that move along or go. *)

From Stdlib Require Import ZArith Lia String Sorted.
From stdpp Require Import base list numbers option gmap.
From S2P Require Import Prelude Bytes Ids Buf Str Slotted BPlusPage BPlusKeys LeafContents BPlusSplit.

Local Open Scope Z_scope.

Import InternalPage (insert_at, remove_at).
Import LeafPage (drop_first, adjust_tombstones_after_insert, adjust_tombstones_after_remove).

Section leaf.
Context (layout : Layout) (Hok : layout_ok layout).

Abbreviation leaf_wf := (leaf_wf layout).
Abbreviation used := (LeafPage.used_bytes layout).
Abbreviation cost := (LeafPage.cost layout).

(** [p] is [q] with an entry more, which is dead if [t]. *)
Record extends (q p : LeafPage) (k : IndexKey) (rid : RecordId) (t : bool) : Prop := {
  ex_small : leaf_wf q;
  ex_big : leaf_wf p;
  ex_lives : forall k' rid', lives p k' rid' <-> (t = false /\ k' = k /\ rid' = rid) \/ lives q k' rid';
  ex_used : used p = used q + cost k;
  ex_next : l_next p = l_next q;
}.

Lemma used_cons p q k : LeafPage.keys p = k :: LeafPage.keys q -> used p = used q + cost k.
Proof using. intros E. unfold LeafPage.used_bytes. rewrite E, fmap_cons, zsum_cons. lia. Qed.

Lemma used_snoc p q k : LeafPage.keys p = LeafPage.keys q ++ [k] -> used p = used q + cost k.
Proof using. intros E. unfold LeafPage.used_bytes. rewrite E, fmap_app, zsum_app. cbn [fmap list_fmap]. rewrite zsum_cons. change (zsum []) with 0. lia. Qed.

(** An entry taken away at slot [i]. *)
Lemma removed_extends p i k rid : leaf_wf p -> l_entries p !! i = Some (k, rid) -> used p = used (removed p i) + cost k ->
  extends (removed p i) p k rid (LeafPage.is_tombstoned p (Z.of_nat i)).
Proof using.
  intros Hw Hi Hu. pose proof (lookup_lt_Some _ _ _ Hi) as Hlt. split; [by apply removed_wf|done| |done|done].
  intros k' rid'. rewrite (removed_lives layout p i k rid Hw Hi). destruct (decide (k' = k)) as [->|Hne].
  - rewrite (lives_at layout p k i rid Hw Hi). rewrite tombstoned_false. naive_solver.
  - naive_solver.
Qed.

(** A new key put at slot [i], dead or alive. *)
Definition put (q : LeafPage) (i : nat) (k : IndexKey) (rid : RecordId) (t : bool) : LeafPage :=
  if t then buried (inserted q i k rid) i else inserted q i k rid.

Lemma put_extends q i k rid t : leaf_wf q -> LeafPage.search q k = inr i -> len k <= max_key_len layout -> rid_valid rid ->
  len (l_entries q) + 1 <= u32_max -> (t = true -> len (l_tombstones q) < tombstone_capacity layout) -> extends q (put q i k rid t) k rid t.
Proof using.
  intros Hw Hs Hk Hr Hn Ht. pose proof (inserted_wf layout q i k rid Hw Hs Hk Hr Hn) as Hw'. pose proof (search_cases _ q k Hw) as Hc. rewrite Hs in Hc.
  destruct Hc as (Hi & _). assert (Hat : l_entries (inserted q i k rid) !! i = Some (k, rid)).
  { cbn. rewrite insert_at_lookup by done. rewrite decide_False by lia. by rewrite decide_True. }
  assert (Hu : used (put q i k rid t) = used q + cost k).
  { unfold LeafPage.used_bytes, LeafPage.keys. assert (E : l_entries (put q i k rid t) = insert_at i (k, rid) (l_entries q)) by (by destruct t).
    rewrite E. unfold insert_at. rewrite !fmap_app, !fmap_cons, zsum_app, zsum_cons. cbn [fst].
    rewrite <- (take_drop i (l_entries q)) at 3. rewrite !fmap_app, zsum_app. lia. }
  assert (Hno : forall rid', ~ lives q k rid').
  { intros rid' (j & Hj & _). rewrite (search_found layout q k j rid' Hw Hj) in Hs. done. }
  split; [done| | |done|by destruct t].
  - destruct t; [|done]. apply buried_wf; [done|by eapply lookup_lt_Some| |].
    + cbn. rewrite after_insert_elem. intros [[? _]|[? _]]; lia.
    + cbn. unfold adjust_tombstones_after_insert. rewrite length_fmap. by apply Ht.
  - intros k' rid'. destruct t; cbn [put].
    + rewrite (buried_lives layout _ i k rid Hw' Hat), (inserted_lives layout q i k rid Hw Hs). case_decide; naive_solver.
    + rewrite (inserted_lives layout q i k rid Hw Hs). case_decide; naive_solver.
Qed.

(** ** The ends of a leaf *)

Lemma pop_first_ok {E} p k rid es : leaf_wf p -> l_entries p = (k, rid) :: es ->
  exists t q, @LeafPage.pop_first layout E p = Ok (Some (k, rid, t), q) /\ extends q p k rid t /\ LeafPage.keys p = k :: LeafPage.keys q.
Proof using.
  intros Hw Ee. assert (Hi : l_entries p !! 0%nat = Some (k, rid)) by (by rewrite Ee). exists (LeafPage.is_tombstoned p 0), (removed p 0).
  assert (Ek : LeafPage.keys p = k :: LeafPage.keys (removed p 0)) by (unfold LeafPage.keys; cbn; by rewrite Ee). split_and!; [|by apply (removed_extends p 0), used_cons|done].
  unfold LeafPage.pop_first. rewrite Ee. assert (Eq : mkLeaf es (l_next p) (adjust_tombstones_after_remove 0 (l_tombstones p)) = removed p 0).
  { unfold removed. rewrite Ee. done. }
  rewrite Eq, leaf_checked_ok by (apply removed_wf; [done|rewrite Ee; cbn; lia]). done.
Qed.

Lemma drop_first_last s ts : NoDup ts -> Forall (fun x => x <= s) ts -> drop_first s ts = adjust_tombstones_after_remove s ts.
Proof using.
  unfold adjust_tombstones_after_remove. induction ts as [|x ts IH]; [done|]. intros [Hx Hnd]%list.NoDup_cons [Hle Hall]%Forall_cons_1. cbn [drop_first List.filter].
  destruct (Z.eqb_spec x s) as [->|Hne]; cbn [negb].
  - clear IH. induction ts as [|y ts IH]; [done|]. apply not_elem_of_cons in Hx as [Hxy Hx]. apply list.NoDup_cons in Hnd as [_ Hnd]. apply Forall_cons_1 in Hall as [Hy Hall].
    cbn [List.filter]. rewrite (proj2 (Z.eqb_neq y s)) by done. cbn [negb fmap list_fmap]. rewrite (proj2 (Z.ltb_ge s y)) by lia. f_equal. by apply IH.
  - cbn [fmap list_fmap]. rewrite (proj2 (Z.ltb_ge s x)) by lia. f_equal. by apply IH.
Qed.

Lemma pop_last_ok {E} p k rid es : leaf_wf p -> l_entries p = es ++ [(k, rid)] ->
  exists t q, @LeafPage.pop_last layout E p = Ok (Some (k, rid, t), q) /\ extends q p k rid t /\ LeafPage.keys p = LeafPage.keys q ++ [k].
Proof using.
  intros Hw Ee. set (n := length es). assert (Hlen : length (l_entries p) = S n) by (rewrite Ee, length_app; cbn; unfold n; lia).
  assert (Hi : l_entries p !! n = Some (k, rid)) by (by rewrite Ee, lookup_app_r, Nat.sub_diag by (unfold n; lia)).
  assert (Er : remove_at n (l_entries p) = es).
  { unfold remove_at. rewrite Ee. rewrite take_app_length' by done. rewrite drop_ge by (rewrite length_app; cbn; unfold n; lia). by rewrite app_nil_r. }
  assert (Ek : LeafPage.keys p = LeafPage.keys (removed p n) ++ [k]) by (unfold LeafPage.keys; cbn; rewrite Er, Ee, fmap_app; done).
  exists (LeafPage.is_tombstoned p (Z.of_nat n)), (removed p n). split_and!; [|by apply (removed_extends p n), used_snoc|done].
  unfold LeafPage.pop_last. rewrite Hlen. replace (S n - 1)%nat with n by lia. pose proof (w_size _ _ Hw). rewrite (proj2 (Z.ltb_ge _ _)) by lia.
  rewrite Ee, last_snoc, removelast_last. unfold LeafPage.remove_tombstone. cbn [l_entries l_next l_tombstones].
  assert (Eq : mkLeaf es (l_next p) (drop_first (Z.of_nat n) (l_tombstones p)) = removed p n).
  { unfold removed. rewrite Er, drop_first_last; [done|apply Hw|]. eapply list.Forall_impl; [apply Hw|]. cbn. lia. }
  rewrite Eq, leaf_checked_ok by (apply removed_wf; [done|lia]). done.
Qed.

Lemma search_front q k : leaf_wf q -> (forall x, x ∈ LeafPage.keys q -> klt k x) -> LeafPage.search q k = inr 0%nat.
Proof using.
  intros Hw Hlt. pose proof (search_cases _ q k Hw) as Hc. destruct (LeafPage.search q k) as [i|[|i]]; [|done|].
  - destruct Hc as [rid Hi]. apply entries_lookup, list_elem_of_lookup_2, Hlt in Hi. by apply klt_irrefl in Hi.
  - destruct Hc as (Hi & Hb & _). destruct (lookup_lt_is_Some_2 (l_entries q) 0 ltac:(lia)) as [[a r] Ha]. specialize (Hb 0%nat _ Ha ltac:(lia)). cbn in Hb.
    apply entries_lookup, list_elem_of_lookup_2, Hlt in Ha. destruct (klt_irrefl k). by eapply klt_trans.
Qed.

Lemma search_back q k : leaf_wf q -> (forall x, x ∈ LeafPage.keys q -> klt x k) -> LeafPage.search q k = inr (length (l_entries q)).
Proof using.
  intros Hw Hlt. pose proof (search_cases _ q k Hw) as Hc. destruct (LeafPage.search q k) as [i|i].
  - destruct Hc as [rid Hi]. apply entries_lookup, list_elem_of_lookup_2, Hlt in Hi. by apply klt_irrefl in Hi.
  - destruct Hc as (Hi & _ & Ha). destruct (decide (i = length (l_entries q))) as [->|Hne]; [done|]. exfalso.
    destruct (lookup_lt_is_Some_2 (l_entries q) i ltac:(lia)) as [[a r] Hx]. specialize (Ha i _ Hx ltac:(lia)). cbn in Ha.
    apply entries_lookup, list_elem_of_lookup_2, Hlt in Hx. destruct (klt_irrefl k). by eapply klt_trans.
Qed.

Lemma push_front_ok {E} q k rid t : leaf_wf q -> (forall x, x ∈ LeafPage.keys q -> klt k x) -> len k <= max_key_len layout -> rid_valid rid ->
  len (l_entries q) + 1 <= u32_max -> (t = true -> len (l_tombstones q) < tombstone_capacity layout) ->
  exists p, @LeafPage.push_front layout E q k rid t = Ok p /\ extends q p k rid t /\ LeafPage.keys p = k :: LeafPage.keys q.
Proof using.
  intros Hw Hlt Hk Hr Hn Ht. pose proof (put_extends q 0 k rid t Hw (search_front q k Hw Hlt) Hk Hr Hn Ht) as Hx. exists (put q 0 k rid t).
  split_and!; [|done|by destruct t]. unfold LeafPage.push_front. rewrite <- (leaf_checked_ok layout (put q 0 k rid t)) by apply Hx. by destruct t.
Qed.

Lemma after_insert_last at_ ts : Forall (fun s => s < at_) ts -> adjust_tombstones_after_insert at_ ts = ts.
Proof using. unfold adjust_tombstones_after_insert. induction 1 as [|s ts Hs _ IH]; [done|]. cbn. rewrite IH, (proj2 (Z.leb_gt _ _)) by lia. done. Qed.

Lemma push_back_ok {E} q k rid t : leaf_wf q -> (forall x, x ∈ LeafPage.keys q -> klt x k) -> len k <= max_key_len layout -> rid_valid rid ->
  len (l_entries q) + 1 <= u32_max -> (t = true -> len (l_tombstones q) < tombstone_capacity layout) ->
  exists p, @LeafPage.push_back layout E q k rid t = Ok p /\ extends q p k rid t /\ LeafPage.keys p = LeafPage.keys q ++ [k].
Proof using.
  intros Hw Hlt Hk Hr Hn Ht. set (n := length (l_entries q)). pose proof (put_extends q n k rid t Hw (search_back q k Hw Hlt) Hk Hr Hn Ht) as Hx. exists (put q n k rid t).
  assert (Ei : inserted q n k rid = mkLeaf (l_entries q ++ [(k, rid)]) (l_next q) (l_tombstones q)).
  { unfold inserted. rewrite after_insert_last by (eapply list.Forall_impl; [apply Hw|cbn; lia]). unfold insert_at, n. by rewrite firstn_all, drop_all. }
  assert (Ep : put q n k rid t = mkLeaf (l_entries q ++ [(k, rid)]) (l_next q) (if t then l_tombstones q ++ [Z.of_nat n] else l_tombstones q)).
  { unfold put, buried. rewrite Ei. by destruct t. }
  split_and!; [|done|]. 
  - unfold LeafPage.push_back. rewrite leaf_slot_ok by lia. cbn [mbind outcome_bind]. fold n. rewrite <- Ep. apply leaf_checked_ok, Hx.
  - rewrite Ep. unfold LeafPage.keys. cbn. by rewrite fmap_app.
Qed.

(** ** Two leaves made one *)

Definition merged (l r : LeafPage) : LeafPage :=
  mkLeaf (l_entries l ++ l_entries r) (l_next r) (l_tombstones l ++ ((fun t => t + Z.of_nat (length (l_entries l))) <$> l_tombstones r)).

(** A layout with room for the tombstones of both. *)
Abbreviation wide := (mkLayout (max_key_len layout) (2 * tombstone_capacity layout)).

Lemma merged_wf l r : leaf_wf l -> leaf_wf r -> (forall a b, a ∈ LeafPage.keys l -> b ∈ LeafPage.keys r -> klt a b) ->
  len (l_entries l) + len (l_entries r) <= u32_max -> LeafContents.leaf_wf wide (merged l r).
Proof using.
  intros [A1 A2 A3 A4 A5 A6 A7 A8] [B1 B2 B3 B4 B5 B6 B7 B8] Hlt Hn. rewrite list.Forall_forall in A4, B4.
  split; unfold LeafPage.keys in *; cbn [merged l_entries l_next l_tombstones max_key_len tombstone_capacity]; rewrite ?fmap_app.
  - by apply ascending_app.
  - by apply Forall_app.
  - apply list.NoDup_app. split_and!; [done| |apply NoDup_fmap_2_strong; [intros; lia|done]].
    intros x Hx (t & -> & Ht)%list_elem_of_fmap. specialize (A4 _ Hx). specialize (B4 t Ht). cbn in *. lia.
  - rewrite length_app. apply Forall_app. split; [apply list.Forall_forall; intros s Hs; specialize (A4 s Hs); cbn in *; lia|].
    apply Forall_fmap, list.Forall_forall. intros s Hs. specialize (B4 s Hs). cbn in *. lia.
  - rewrite length_app, length_fmap. lia.
  - by apply Forall_app.
  - done.
  - rewrite length_app. lia.
Qed.

Lemma merged_lives l r : leaf_wf l -> leaf_wf r -> forall k rid, lives (merged l r) k rid <-> lives l k rid \/ lives r k rid.
Proof using.
  intros Hl Hr k rid. pose proof (w_slots _ _ Hl) as Sl. pose proof (w_slots _ _ Hr) as Sr. rewrite list.Forall_forall in Sl, Sr.
  unfold lives. cbn [merged l_entries l_tombstones]. setoid_rewrite not_elem_of_app. setoid_rewrite list_elem_of_fmap. split.
  - intros (i & Hi & Ht1 & Ht2). apply lookup_app_Some in Hi as [Hi|[Hge Hi]]; [left; by exists i|right]. exists (i - length (l_entries l))%nat. split; [done|].
    intros Hin. apply Ht2. eexists. split; [|exact Hin]. cbn. lia.
  - intros [(i & Hi & Ht)|(i & Hi & Ht)].
    + pose proof (lookup_lt_Some _ _ _ Hi). exists i. split_and!; [by apply lookup_app_l_Some|done|]. intros (t & E & Hin). specialize (Sr t Hin). cbn in *. lia.
    + exists (length (l_entries l) + i)%nat. split_and!; [rewrite lookup_app_r by lia; by rewrite Nat.add_comm, Nat.add_sub| |].
      * intros Hin. specialize (Sl _ Hin). cbn in *. lia.
      * intros (t & E & Hin). apply Ht. replace (Z.of_nat i) with t by lia. done.
Qed.

(** A leaf without some of its dead entries. *)
Record pruned (p q : LeafPage) : Prop := {
  pr_lives : forall k rid, lives q k rid <-> lives p k rid;
  pr_next : l_next q = l_next p;
  pr_keys : LeafPage.keys q `sublist_of` LeafPage.keys p;
}.

Lemma pruned_refl p : pruned p p.
Proof using. done. Qed.

Lemma pruned_trans p q r : pruned p q -> pruned q r -> pruned p r.
Proof using. intros [A1 A2 A3] [B1 B2 B3]. split; [intros; by rewrite B1|by rewrite B2|by etrans]. Qed.

Lemma zsum_sublist {A} (f : A -> Z) l1 l2 : l1 `sublist_of` l2 -> Forall (fun x => 0 <= f x) l2 -> zsum (f <$> l1) <= zsum (f <$> l2).
Proof using.
  induction 1 as [|x l1 l2 _ IH|x l1 l2 _ IH]; intros Hall; [done|..]; apply Forall_cons_1 in Hall as [Hx Hall]; rewrite !fmap_cons, ?zsum_cons; specialize (IH Hall); lia.
Qed.

Lemma cost_nonneg k : 0 <= cost k.
Proof using. unfold LeafPage.cost, EntryArea.entry_cost. change (payload_len (Layout.leaf_area layout)) with 16. change SLOT_ENCODED_BYTES with 2. lia. Qed.

Lemma keys_used p q : LeafPage.keys q `sublist_of` LeafPage.keys p -> used q <= used p.
Proof using. intros Hs. apply zsum_sublist; [done|]. apply list.Forall_forall. intros. apply cost_nonneg. Qed.

Lemma purge_loop_ok {E} fuel : forall p, LeafContents.leaf_wf wide p -> (length (l_tombstones p) <= fuel)%nat ->
  exists q, @LeafPage.purge_loop layout E fuel p = Ok q /\ LeafContents.leaf_wf wide q /\ len (l_tombstones q) <= tombstone_capacity layout /\ pruned p q.
Proof using Hok.
  pose proof (lo_cap _ Hok) as Hcap. induction fuel as [|fuel IH]; intros p Hw Hf; cbn [LeafPage.purge_loop].
  { exists p. split_and!; [done|done| |apply pruned_refl]. lia. }
  destruct (Z.ltb_spec (tombstone_capacity layout) (len (l_tombstones p))) as [Hlt|Hge]; [|exists p; split_and!; [done|done|lia|apply pruned_refl]].
  unfold LeafPage.purge_oldest_tombstone. destruct (l_tombstones p) as [|t ts] eqn:Et; [cbn in Hlt; lia|].
  destruct (oldest_lookup wide p t ts Hw Et) as (k & r & Hi). pose proof (w_slots _ _ Hw) as Hs. rewrite Et in Hs. apply Forall_cons_1 in Hs as [Hs0 _].
  assert (Ef : mkLeaf (l_entries p) (l_next p) ts = forgot p) by (unfold forgot; by rewrite Et).
  rewrite Ef, (physical_remove_is wide) by (apply forgot_wf, Hw || exact Hs0). cbn [mbind outcome_bind]. fold (purged p t).
  destruct (IH (purged p t)) as (q & Eq & Hq & Hqt & Hqp).
  - by eapply purged_wf.
  - cbn [purged removed forgot l_tombstones]. rewrite Et. cbn [drop]. pose proof (after_remove_length (Z.of_nat (Z.to_nat t)) ts). change (drop 0 ts) with ts. cbn [length] in Hf. lia.
  - exists q. split_and!; [done|done|done|]. eapply pruned_trans; [|exact Hqp]. split; [by eapply purged_lives|done|].
    unfold LeafPage.keys. cbn. rewrite fmap_remove_at. apply remove_at_sublist.
Qed.

Lemma absorb_ok {E} l r : leaf_wf l -> leaf_wf r -> (forall a b, a ∈ LeafPage.keys l -> b ∈ LeafPage.keys r -> klt a b) ->
  len (l_entries l) + len (l_entries r) <= u32_max ->
  exists p, @LeafPage.absorb_right layout E l r = Ok p /\ leaf_wf p /\ (forall k rid, lives p k rid <-> lives l k rid \/ lives r k rid) /\
    l_next p = l_next r /\ LeafPage.keys p `sublist_of` LeafPage.keys l ++ LeafPage.keys r /\ used p <= used l + used r.
Proof using Hok.
  intros Hl Hr Hlt Hn. pose proof (merged_wf l r Hl Hr Hlt Hn) as Hm.
  destruct (purge_loop_ok (E := E) (length (l_tombstones (merged l r))) (merged l r) Hm ltac:(lia)) as (q & Eq & [Q1 Q2 Q3 Q4 Q5 Q6 Q7 Q8] & Hqt & [P1 P2 P3]).
  assert (Hq : leaf_wf q) by (by split). assert (Ek : LeafPage.keys (merged l r) = LeafPage.keys l ++ LeafPage.keys r) by apply fmap_app.
  exists q. split_and!; [|done| |done|by rewrite <- Ek|].
  - unfold LeafPage.absorb_right, LeafPage.debug_check. rewrite !(leaf_check_ok layout) by done. cbn [rassert mbind outcome_bind].
    rewrite leaf_slot_ok by lia. cbn [mbind outcome_bind]. fold (merged l r). rewrite Eq. cbn [mbind outcome_bind]. by apply leaf_checked_ok.
  - intros k rid. rewrite P1. by apply merged_lives.
  - etrans; [by apply keys_used|]. unfold LeafPage.used_bytes. rewrite Ek, fmap_app, zsum_app. lia.
Qed.

End leaf.
