(* ===== verification/BPlusTreeBorrow.v ===== *)
(** * A page of a B+ tree and its sibling

    The loop that moves entries from a leaf's sibling until the leaf is full enough or the
    sibling can give no more; and two children of a page beside each other, the key between
    them, and the page once they are one child or another key is between them. *)

From Stdlib Require Import ZArith Lia String Sorted.
From stdpp Require Import base list numbers option gmap.
From S2P Require Import Prelude Bytes Ids Buf TableHeap Str Slotted BPlusPage PageView BPlusKeys PageViewProofs LeafContents.
From S2P Require Import LeafContents LeafViewProofs PageCodecProofs BPlusSplit InternalOps BPlusTree BPlusTreeInv BPlusTreeWalk BPlusTreeSplit LeafMerge.

Local Open Scope Z_scope.

Section borrow.
Context (tree : BPlusTree) (Hok : layout_ok (layout tree)) {BE : Type}.

Abbreviation lay := (layout tree).
Abbreviation leaf_wf := (leaf_wf lay).
Abbreviation used := (LeafPage.used_bytes lay).

(** The keys of a leaf and its sibling, in order. *)
Definition pair_keys (right : bool) (leaf sibling : LeafPage) : list IndexKey :=
  if right then LeafPage.keys leaf ++ LeafPage.keys sibling else LeafPage.keys sibling ++ LeafPage.keys leaf.

Record borrowed (right : bool) (leaf sibling leaf' sibling' : LeafPage) : Prop := {
  bw_leaf : leaf_wf leaf';
  bw_sibling : leaf_wf sibling';
  bw_keys : pair_keys right leaf' sibling' `sublist_of` pair_keys right leaf sibling;
  bw_lives : forall k rid, lives leaf' k rid \/ lives sibling' k rid <-> lives leaf k rid \/ lives sibling k rid;
  bw_next : l_next leaf' = l_next leaf /\ l_next sibling' = l_next sibling;
  bw_used : used sibling' <= used sibling;
  bw_room : used leaf' < Layout.leaf_min_used lay + Layout.leaf_max_entry_bytes lay;
  bw_stop : LeafPage.is_underfull lay leaf' = false \/ LeafPage.can_lend lay sibling' (BPlusTree.lending_edge right) = false;
  bw_lent : Layout.leaf_min_used lay <= used sibling' \/ leaf' = leaf /\ sibling' = sibling;
}.

Lemma entries_used p : len (l_entries p) <= used p.
Proof using.
  unfold LeafPage.used_bytes, LeafPage.keys. induction (l_entries p) as [|[k rid] es IH]; [done|]. rewrite !fmap_cons, zsum_cons. cbn [length fst].
  unfold LeafPage.cost at 1, EntryArea.entry_cost. change (payload_len (Layout.leaf_area lay)) with 16. change SLOT_ENCODED_BYTES with 2. lia.
Qed.

Lemma leaf_max_pos : 0 < Layout.leaf_max_entry_bytes lay.
Proof using Hok.
  pose proof (lo_key _ Hok). unfold Layout.leaf_max_entry_bytes, EntryArea.entry_cost. change (payload_len (Layout.leaf_area lay)) with 16. change SLOT_ENCODED_BYTES with 2. lia.
Qed.

Lemma underfull_small : Layout.leaf_min_used lay + Layout.leaf_max_entry_bytes lay <= EntryArea.capacity (Layout.leaf_area lay) /\
  EntryArea.capacity (Layout.leaf_area lay) <= 8192 /\ 0 < Layout.leaf_min_used lay.
Proof using Hok.
  pose proof (lo_leaf _ Hok) as Hl. pose proof (lo_cap _ Hok). pose proof leaf_max_pos.
  assert (EntryArea.capacity (Layout.leaf_area lay) <= 8192).
  { unfold EntryArea.capacity, Layout.leaf_area, leaf_slots_start. cbn [slots_start]. change TOMBSTONE_SLOT_ENCODED_BYTES with 4.
    change (LEAF_FIXED_HEADER_BYTES + TOMBSTONE_COUNT_ENCODED_BYTES) with 28. change PAGE_SIZE with 8192. lia. }
  unfold Layout.leaf_min_used. split_and!; [Z.to_euclidean_division_equations; lia|done|apply Z.div_str_pos; lia].
Qed.

Lemma double_min : 2 * Layout.leaf_min_used lay + Layout.leaf_max_entry_bytes lay <= EntryArea.capacity (Layout.leaf_area lay).
Proof using Hok. unfold Layout.leaf_min_used. Z.to_euclidean_division_equations; lia. Qed.

(** One entry taken from the sibling. *)
Lemma pop_ok right sibling : leaf_wf sibling -> LeafPage.can_lend lay sibling (BPlusTree.lending_edge right) = true ->
  exists k rid t sibling', (if right then LeafPage.pop_first lay sibling else LeafPage.pop_last lay sibling) = (Ok (Some (k, rid, t), sibling') : outcome (IndexError BE) _) /\
    extends lay sibling' sibling k rid t /\ Layout.leaf_min_used lay <= used sibling' /\ (length (l_entries sibling') < length (l_entries sibling))%nat /\
    LeafPage.keys sibling = (if right then k :: LeafPage.keys sibling' else LeafPage.keys sibling' ++ [k]) /\ len k <= max_key_len lay /\ rid_valid rid.
Proof using.
  intros Hw Hc. pose proof (w_keys _ _ Hw) as Hks. pose proof (w_rids _ _ Hw) as Hrs. unfold LeafPage.can_lend, BPlusTree.lending_edge in Hc.
  assert (Hn : forall q, length (LeafPage.keys sibling) = S (length (LeafPage.keys q)) -> (length (l_entries q) < length (l_entries sibling))%nat).
  { intros q. unfold LeafPage.keys. rewrite !length_fmap. lia. }
  destruct right.
  - destruct (l_entries sibling) as [|[k rid] es] eqn:Ee; [done|]. cbn [head] in Hc. apply Z.leb_le in Hc. cbn [fst] in Hc.
    destruct (pop_first_ok (E := IndexError BE) lay sibling k rid es Hw Ee) as (t & q & Eq & Hx & Ek). exists k, rid, t, q. pose proof (ex_used _ _ _ _ _ _ Hx).
    apply Forall_cons_1 in Hrs as [Hr _]. rewrite Ek in Hks. apply Forall_cons_1 in Hks as [Hk _]. split_and!; try done; [lia|apply Hn; by rewrite Ek].
  - destruct (list.last (l_entries sibling)) as [[k rid]|] eqn:El; [|done]. apply Z.leb_le in Hc. cbn [fst] in Hc. apply last_Some in El as [es Ee].
    destruct (pop_last_ok (E := IndexError BE) lay sibling k rid es Hw Ee) as (t & q & Eq & Hx & Ek). exists k, rid, t, q. pose proof (ex_used _ _ _ _ _ _ Hx).
    rewrite Ee in Hrs. apply Forall_app in Hrs as [_ [Hr _]%Forall_cons_1]. rewrite Ek in Hks. apply Forall_app in Hks as [_ [Hk _]%Forall_cons_1].
    split_and!; try done; [lia|apply Hn; rewrite Ek, length_app; cbn; lia].
Qed.

(** The entry put at the near end of the leaf. *)
Lemma push_leaf_ok right leaf sibling k rid t : leaf_wf leaf -> ascending (pair_keys right leaf sibling) ->
  (exists ks, LeafPage.keys sibling = if right then k :: ks else ks ++ [k]) -> len k <= max_key_len lay -> rid_valid rid -> len (l_entries leaf) + 1 <= u32_max ->
  (t = true -> len (l_tombstones leaf) < tombstone_capacity lay) ->
  exists leaf', (if right then LeafPage.push_back lay leaf k rid t else LeafPage.push_front lay leaf k rid t) = (Ok leaf' : outcome (IndexError BE) _) /\
    extends lay leaf leaf' k rid t /\ LeafPage.keys leaf' = (if right then LeafPage.keys leaf ++ [k] else k :: LeafPage.keys leaf).
Proof using.
  intros Hw Ha (ks & Eks) Hk Hr Hn Ht. unfold pair_keys in Ha. rewrite Eks in Ha. destruct right; apply ascending_app in Ha as (_ & _ & Hlt).
  - apply push_back_ok; try done. intros x Hx. apply Hlt; [done|by left].
  - apply push_front_ok; try done. intros x Hx. apply Hlt; [|done]. apply elem_of_app. right. by left.
Qed.

Lemma borrow_ok right fuel : forall leaf sibling, (length (l_entries sibling) < fuel)%nat -> leaf_wf leaf -> leaf_wf sibling ->
  ascending (pair_keys right leaf sibling) -> used leaf < Layout.leaf_min_used lay + Layout.leaf_max_entry_bytes lay ->
  exists leaf' sibling', BPlusTree.borrow_loop (BE := BE) tree fuel right leaf sibling = Ok (leaf', sibling') /\ borrowed right leaf sibling leaf' sibling'.
Proof using Hok.
  destruct underfull_small as (Hs1 & Hs2 & _). induction fuel as [|fuel IH]; intros leaf sibling Hf Hl Hs Ha Hu; [lia|]. cbn [BPlusTree.borrow_loop].
  destruct (LeafPage.is_underfull lay leaf && LeafPage.can_lend lay sibling (BPlusTree.lending_edge right)) eqn:Ec.
  2:{ exists leaf, sibling. split; [done|]. split; try done; [|by right]. by apply andb_false_iff. }
  apply andb_true_iff in Ec as [Hun%Z.ltb_lt Hlend].
  destruct (pop_ok right sibling Hs Hlend) as (k & rid & t & sib1 & Ep & Hx & Hmin & Hlen & Ek & Hk & Hr). rewrite Ep. cbn [mbind outcome_bind ok_or].
  pose proof (ex_used _ _ _ _ _ _ Hx) as Hux. pose proof (cost_bounds lay k Hk) as Hcb. pose proof (entries_used leaf) as Hsz.
  destruct (t && LeafPage.tombstones_full lay leaf) eqn:Et.
  - apply andb_true_iff in Et as [-> _].
    assert (Hsub : pair_keys right leaf sib1 `sublist_of` pair_keys right leaf sibling).
    { unfold pair_keys. rewrite Ek. destruct right; [apply sublist_app; [done|by apply sublist_cons]|apply sublist_app; [by apply sublist_inserts_r|done]]. }
    destruct (IH leaf sib1 ltac:(lia) Hl (ex_small _ _ _ _ _ _ Hx)) as (leaf' & sib' & Eb & B); [by eapply ascending_sublist|done|].
    exists leaf', sib'. split; [done|]. destruct B as [B1 B2 B3 B4 B5 B6 B7 B8 B9]. split; try done.
    + by etrans.
    + intros k' rid'. rewrite B4, (ex_lives _ _ _ _ _ _ Hx). naive_solver.
    + destruct B5 as [-> ->]. split; [done|]. symmetry. apply Hx.
    + lia.
    + left. destruct B9 as [?|[_ ->]]; lia.
  - destruct (push_leaf_ok right leaf sibling k rid t Hl Ha ltac:(by eexists) Hk Hr ltac:(unfold u32_max; lia)) as (leaf1 & Eq & Hy & Ek1).
    { intros ->. cbn in Et. by apply Z.leb_gt in Et. }
    rewrite Eq. cbn [mbind outcome_bind]. pose proof (ex_used _ _ _ _ _ _ Hy) as Huy.
    assert (Hsub : pair_keys right leaf1 sib1 = pair_keys right leaf sibling).
    { unfold pair_keys. rewrite Ek, Ek1. destruct right; by rewrite <- app_assoc. }
    destruct (IH leaf1 sib1 ltac:(lia) (ex_big _ _ _ _ _ _ Hy) (ex_small _ _ _ _ _ _ Hx)) as (leaf' & sib' & Eb & B); [by rewrite Hsub|lia|].
    exists leaf', sib'. split; [done|]. destruct B as [B1 B2 B3 B4 B5 B6 B7 B8 B9]. split; try done.
    + by rewrite <- Hsub.
    + intros k' rid'. rewrite B4, (ex_lives _ _ _ _ _ _ Hx), (ex_lives _ _ _ _ _ _ Hy). naive_solver.
    + destruct B5 as [-> ->]. split; [apply Hy|symmetry; apply Hx].
    + lia.
    + left. destruct B9 as [?|[_ ->]]; lia.
Qed.

End borrow.

(** * Two children beside each other *)

Abbreviation spec := (PageId -> bound -> bound -> leaves -> list PageId -> Prop).

(** Children [x] and [y] of a page with key [k] between them, and what is around them. *)
Record pair_at (R : spec) (gp : InternalPage) (glo ghi : bound) (csA : list PageId) (x y : PageId) (csB : list PageId)
    (ksA : list IndexKey) (k : IndexKey) (ksB : list IndexKey) (lox hiy : bound) (LA LB : leaves) (IA IB : list PageId) : Prop := {
  pa_children : i_children gp = csA ++ x :: y :: csB;
  pa_keys : i_keys gp = ksA ++ k :: ksB;
  pa_before : before_child R glo csA ksA lox LA IA;
  pa_after : after_child R hiy ghi csB ksB LB IB;
}.

Lemma after_first (R : spec) hi1 ghi s cs ks L I : after_child R hi1 ghi (s :: cs) ks L I ->
  exists k ks' hiy Ls Is LB IB, ks = k :: ks' /\ hi1 = Some k /\ L = Ls ++ LB /\ I = Is ++ IB /\ R s (Some k) hiy Ls Is /\ after_child R hiy ghi cs ks' LB IB.
Proof.
  intros Ha. inversion Ha as [|k hi cs' ks' L' I' Hc]; subst. inversion Hc as [c lo hi L0 I0 HR|c cs0 k2 ks2 lo hi L1 I1 L2 I2 HR Hc']; subst.
  - exists k, [], ghi, L, I, [], []. rewrite !app_nil_r. split_and!; try done. constructor.
  - exists k, (k2 :: ks2), (Some k2), L1, I1, L2, I2. split_and!; try done. by constructor.
Qed.

Lemma before_last (R : spec) glo s cs ks lo1 L I : before_child R glo (cs ++ [s]) ks lo1 L I ->
  exists k ks' lo0 Ls Is LA IA, ks = ks' ++ [k] /\ lo1 = Some k /\ L = LA ++ Ls /\ I = IA ++ Is /\ R s lo0 (Some k) Ls Is /\ before_child R glo cs ks' lo0 LA IA.
Proof.
  revert glo ks L I. induction cs as [|c cs IH]; intros glo ks L I Hb; cbn [app] in Hb; inversion Hb as [|c' cs' k ks' lo lo' L1 I1 L2 I2 HR Hb']; subst.
  - inversion Hb'; subst. exists k, [], glo, L1, I1, [], []. rewrite !app_nil_r. split_and!; try done. constructor.
  - destruct (IH _ _ _ _ Hb') as (k0 & ks0 & lo0 & Ls & Is & LA & IA & -> & -> & -> & -> & Hs & Hb0).
    exists k0, (k :: ks0), lo0, Ls, Is, (L1 ++ LA), (I1 ++ IA). split_and!; [done|done|by rewrite app_assoc|by rewrite app_assoc|done|by constructor].
Qed.

(** The sibling [sibling_of] finds for child [c], and the pair the two are. *)
Lemma sibling_cases (R : spec) gp glo ghi c cs1 cs2 ks1 ks2 lo1 hi1 Lb La Ib Ia :
  i_children gp = cs1 ++ c :: cs2 -> i_keys gp = ks1 ++ ks2 -> before_child R glo cs1 ks1 lo1 Lb Ib -> after_child R hi1 ghi cs2 ks2 La Ia ->
  match BPlusTree.sibling_of gp (length ks1) with
  | None => cs1 = [] /\ cs2 = []
  | Some (i, s) =>
      (exists k ks3 cs3 hiy Ls Is LB IB, (length ks1 <? i)%nat = true /\ La = Ls ++ LB /\ Ia = Is ++ IB /\ hi1 = Some k /\ R s (Some k) hiy Ls Is /\
         pair_at R gp glo ghi cs1 c s cs3 ks1 k ks3 lo1 hiy Lb LB Ib IB) \/
      (exists k ks0 cs0 lo0 Ls Is LA IA, (length ks1 <? i)%nat = false /\ i = length ks0 /\ Lb = LA ++ Ls /\ Ib = IA ++ Is /\ lo1 = Some k /\ R s lo0 (Some k) Ls Is /\
         pair_at R gp glo ghi cs0 s c cs2 ks0 k ks2 lo0 hi1 LA La IA Ia)
  end.
Proof.
  intros Hcs Hks Hb Ha. pose proof (before_length _ _ _ _ _ _ _ Hb) as Hl. unfold BPlusTree.sibling_of, InternalPage.get_child. rewrite Hcs.
  destruct (decide (cs1 = [])) as [->|Hne].
  - destruct ks1; [|done]. cbn [length app]. destruct cs2 as [|s cs3]; cbn; [done|]. left.
    destruct (after_first _ _ _ _ _ _ _ _ Ha) as (k & ks3 & hiy & Ls & Is & LB & IB & -> & -> & -> & -> & Hs & Ha').
    exists k, ks3, cs3, hiy, Ls, Is, LB, IB. split_and!; try done.
  - destruct (exists_last Hne) as (cs0 & s & ->). destruct (before_last _ _ _ _ _ _ _ _ Hb) as (k & ks0 & lo0 & Ls & Is & LA & IA & -> & -> & -> & -> & Hs & Hb').
    pose proof (before_length _ _ _ _ _ _ _ Hb') as Hl'. rewrite length_app. cbn [length]. rewrite Nat.add_1_r.
    rewrite <- app_assoc. cbn [app]. rewrite lookup_app_r by lia. rewrite Hl', Nat.sub_diag. cbn [lookup list_lookup mbind option_bind]. right.
    exists k, ks0, cs0, lo0, Ls, Is, LA, IA. split_and!; try done; [apply Nat.ltb_ge; lia|]. split; [|by rewrite Hks, <- app_assoc|done|done].
    by rewrite Hcs, <- app_assoc.
Qed.

Section pair.
Context (tree : BPlusTree) (Hok : layout_ok (layout tree)).
Abbreviation lay := (layout tree).

(** What is left of a page once its children are changed: it is well-formed and not
    overfull, has lost at most one entry, and has the chain of its children. *)
Record fixed (R : spec) (gp gp' : InternalPage) (glo ghi : bound) (L : leaves) (I : list PageId) : Prop := {
  fx_wf : internal_wf lay gp';
  fx_keys : Forall (inside glo ghi) (i_keys gp');
  fx_fit : InternalPage.is_overfull gp' = false;
  fx_used : InternalPage.used_bytes gp - Layout.internal_max_entry_bytes lay <= InternalPage.used_bytes gp';
  fx_chain : chain R glo ghi (i_children gp') (i_keys gp') L I;
}.

Section at_pair.
Context (R R' : spec) (gp : InternalPage) (glo ghi : bound) (csA : list PageId) (x y : PageId) (csB : list PageId).
Context (ksA : list IndexKey) (k : IndexKey) (ksB : list IndexKey) (lox hiy : bound) (LA LB : leaves) (IA IB : list PageId).
Context (Hp : pair_at R gp glo ghi csA x y csB ksA k ksB lox hiy LA LB IA IB).
Context (Hw : internal_wf lay gp) (Hin : Forall (inside glo ghi) (i_keys gp)) (Hfit : InternalPage.used_bytes gp <= EntryArea.capacity INTERNAL_AREA).

Lemma pair_length : length csA = length ksA /\ length csB = length ksB.
Proof using Hp. destruct Hp. split; [by eapply before_length|by eapply after_length]. Qed.

Lemma pair_bounds : Forall (inside glo ghi) ksA /\ inside glo ghi k /\ Forall (inside glo ghi) ksB /\ len k <= max_key_len lay.
Proof using Hp Hw Hin.
  pose proof (iw_keys _ _ Hw) as Hl. rewrite (pa_keys _ _ _ _ _ _ _ _ _ _ _ _ _ _ _ _ _ Hp) in Hin, Hl. apply Forall_app in Hin as [H1 [H2 H3]%Forall_cons_1].
  apply Forall_app in Hl as [_ [? _]%Forall_cons_1]. done.
Qed.

(** The key between the two is above the low bound of the one and below the high one of the other. *)
Lemma pair_inside : inside lox hiy k.
Proof using Hp Hw Hin.
  destruct pair_bounds as (_ & [H1 H2] & _ & _). pose proof (iw_sorted _ _ Hw) as Hs. rewrite (pa_keys _ _ _ _ _ _ _ _ _ _ _ _ _ _ _ _ _ Hp) in Hs.
  pose proof (before_low _ _ _ _ _ _ _ (pa_before _ _ _ _ _ _ _ _ _ _ _ _ _ _ _ _ _ Hp)) as El. pose proof (after_high _ _ _ _ _ _ _ (pa_after _ _ _ _ _ _ _ _ _ _ _ _ _ _ _ _ _ Hp)) as Eh.
  unfold low_of, high_of in *. apply ascending_app in Hs as (_ & SB & Hlt). split.
  - rewrite El. destruct (list.last ksA) as [z|] eqn:Ez; [|done]. apply last_Some_elem_of in Ez. apply Hlt; [done|by left].
  - rewrite Eh. clear El Eh Hlt. apply StronglySorted_inv in SB as [_ Hz]. destruct (ksB) as [|z ks]; [done|]. by apply Forall_cons_1 in Hz as [? _].
Qed.

(** ** A key that takes the place of the one between *)

Lemma key_between k' : inside lox hiy k' -> ascending (ksA ++ k' :: ksB) /\ inside glo ghi k'.
Proof using Hp Hw Hin.
  intros [Hlo Hhi]. destruct pair_bounds as (HA & _ & HB & _). pose proof (iw_sorted _ _ Hw) as Hs. rewrite (pa_keys _ _ _ _ _ _ _ _ _ _ _ _ _ _ _ _ _ Hp) in Hs.
  pose proof (before_low _ _ _ _ _ _ _ (pa_before _ _ _ _ _ _ _ _ _ _ _ _ _ _ _ _ _ Hp)) as El. pose proof (after_high _ _ _ _ _ _ _ (pa_after _ _ _ _ _ _ _ _ _ _ _ _ _ _ _ _ _ Hp)) as Eh.
  unfold low_of, high_of in *. apply ascending_app in Hs as (SA & SB & _). apply StronglySorted_inv in SB as [SB _].
  assert (HlA : forall a, a ∈ ksA -> klt a k').
  { intros a Ha. destruct (list.last ksA) as [z|] eqn:Ez; [|by apply last_None in Ez as ->; apply not_elem_of_nil in Ha]. rewrite El in Hlo. cbn in Hlo.
    apply last_Some in Ez as [ks ->]. apply elem_of_app in Ha as [Ha|Ha%list_elem_of_singleton]; [|by subst].
    apply ascending_app in SA as (_ & _ & Hlt). eapply klt_trans; [apply Hlt; [exact Ha|by left]|done]. }
  assert (HlB : forall b, b ∈ ksB -> klt k' b).
  { intros b Hb. destruct ksB as [|z ks]; [by apply not_elem_of_nil in Hb|]. rewrite Eh in Hhi. cbn in Hhi. apply list.elem_of_cons in Hb as [->|Hb]; [done|].
    apply StronglySorted_inv in SB as [_ Hz]. rewrite list.Forall_forall in Hz. eapply klt_trans; [exact Hhi|by apply Hz]. }
  split.
  - apply ascending_app. split_and!; [done|apply SSorted_cons; [done|by apply list.Forall_forall]|]. intros a b Ha [->|Hb]%list.elem_of_cons; [by apply HlA|].
    eapply klt_trans; [by apply HlA|by apply HlB].
  - split.
    + destruct (list.last ksA) as [z|] eqn:Ez; [|by rewrite <- El]. apply last_Some in Ez as [ks ->]. apply Forall_app in HA as [_ [[Hz _] _]%Forall_cons_1].
      rewrite El in Hlo. cbn in Hlo. eapply strictly_above_weaken; [exact Hz|by apply klt_kle].
    + destruct ksB as [|z ks]; [by rewrite <- Eh|]. apply Forall_cons_1 in HB as [[_ Hz] _]. rewrite Eh in Hhi. cbn in Hhi. by eapply below_weaken.
Qed.

Definition with_key (k' : IndexKey) : InternalPage := mkInternal (i_children gp) (ksA ++ k' :: ksB).
Definition without_key : InternalPage := mkInternal (csA ++ x :: csB) (ksA ++ ksB).

Lemma with_key_wf k' : inside lox hiy k' -> len k' <= max_key_len lay -> internal_wf lay (with_key k').
Proof using Hp Hw Hin.
  intros Hk Hl. destruct (key_between k' Hk) as [Hs _]. destruct Hw as [H1 H2 H3 H4]. rewrite (pa_keys _ _ _ _ _ _ _ _ _ _ _ _ _ _ _ _ _ Hp) in *.
  split; cbn [with_key i_children i_keys]; [|done| |done].
  - rewrite H1, !length_app. cbn. lia.
  - apply Forall_app in H3 as [? [_ ?]%Forall_cons_1]. apply Forall_app. split; [done|]. by apply Forall_cons_2.
Qed.

Lemma pair_used : InternalPage.used_bytes gp = InternalPage.used_bytes without_key + InternalPage.cost k.
Proof using Hp.
  unfold InternalPage.used_bytes. cbn [without_key i_keys]. rewrite (pa_keys _ _ _ _ _ _ _ _ _ _ _ _ _ _ _ _ _ Hp), !fmap_app, fmap_cons, !zsum_app, zsum_cons. lia.
Qed.

Lemma with_key_used k' : InternalPage.used_bytes (with_key k') = InternalPage.used_bytes gp - InternalPage.cost k + InternalPage.cost k'.
Proof using Hp.
  unfold InternalPage.used_bytes. cbn [with_key i_keys]. rewrite (pa_keys _ _ _ _ _ _ _ _ _ _ _ _ _ _ _ _ _ Hp), !fmap_app, !fmap_cons, !zsum_app, !zsum_cons. lia.
Qed.

Lemma key_at_pair : i_keys gp !! length ksA = Some k /\ i_children gp !! S (length ksA) = Some y.
Proof using Hp.
  destruct pair_length as [E _]. rewrite (pa_keys _ _ _ _ _ _ _ _ _ _ _ _ _ _ _ _ _ Hp), (pa_children _ _ _ _ _ _ _ _ _ _ _ _ _ _ _ _ _ Hp).
  rewrite lookup_app_r, Nat.sub_diag by lia. rewrite lookup_app_r by lia. rewrite E. replace (S (length ksA) - length ksA)%nat with 1%nat by lia. done.
Qed.

Lemma replace_ok {E} k' : inside lox hiy k' -> len k' <= max_key_len lay -> @InternalPage.replace_key lay E gp (length ksA) k' = Ok (k, with_key k').
Proof using Hp Hw Hin.
  intros Hk Hl. unfold InternalPage.replace_key. rewrite (proj1 key_at_pair). cbn [expect mbind outcome_bind]. rewrite (pa_keys _ _ _ _ _ _ _ _ _ _ _ _ _ _ _ _ _ Hp).
  rewrite insert_app_r_alt, Nat.sub_diag by lia. cbn. change (mkInternal _ _) with (with_key k'). by rewrite internal_checked_ok by (by apply with_key_wf).
Qed.

Lemma fits_ok {E} k' : @InternalPage.fits_replacing E gp (length ksA) k' = Ok (InternalPage.used_bytes (with_key k') <=? EntryArea.capacity INTERNAL_AREA).
Proof using Hp. unfold InternalPage.fits_replacing. rewrite (proj1 key_at_pair). cbn [expect mbind outcome_bind]. by rewrite with_key_used. Qed.

(** ** Two children made one *)

Lemma without_key_wf : internal_wf lay without_key.
Proof using Hp Hw.
  clear Hin. destruct Hw as [H1 H2 H3 H4]. destruct pair_length as [EA EB]. rewrite (pa_keys _ _ _ _ _ _ _ _ _ _ _ _ _ _ _ _ _ Hp), (pa_children _ _ _ _ _ _ _ _ _ _ _ _ _ _ _ _ _ Hp) in *.
  assert (Hsub : ksA ++ ksB `sublist_of` ksA ++ k :: ksB) by (apply sublist_app; [done|by apply sublist_cons]). split; cbn [without_key i_children i_keys].
  - rewrite !length_app in *. cbn in *. lia.
  - by eapply ascending_sublist.
  - by eapply Forall_sublist'.
  - eapply Forall_sublist'; [|exact H4]. apply sublist_app; [done|]. apply sublist_skip. by apply sublist_cons.
Qed.

Lemma drop_child_ok {E} : @InternalPage.remove_separator lay E gp (length ksA) = Ok (k, y, without_key).
Proof using Hp Hw.
  unfold InternalPage.remove_separator. destruct key_at_pair as [-> ->]. cbn [expect mbind outcome_bind]. destruct pair_length as [EA _].
  assert (Eq : mkInternal (InternalPage.remove_at (S (length ksA)) (i_children gp)) (InternalPage.remove_at (length ksA) (i_keys gp)) = without_key).
  { unfold without_key, InternalPage.remove_at. rewrite (pa_keys _ _ _ _ _ _ _ _ _ _ _ _ _ _ _ _ _ Hp), (pa_children _ _ _ _ _ _ _ _ _ _ _ _ _ _ _ _ _ Hp). f_equal.
    - replace (csA ++ x :: y :: csB) with ((csA ++ [x]) ++ y :: csB) by (by rewrite <- app_assoc). rewrite take_app_length' by (rewrite length_app; cbn; lia).
      rewrite drop_app_ge by (rewrite length_app; cbn; lia). rewrite length_app. cbn [length]. replace (S (S (length ksA)) - (length csA + 1))%nat with 1%nat by lia. by rewrite <- app_assoc.
    - rewrite take_app_length' by done. rewrite drop_app_ge by lia. replace (S (length ksA) - length ksA)%nat with 1%nat by lia. done. }
  rewrite Eq, internal_checked_ok by apply without_key_wf. done.
Qed.

(** ** The chain of the children then *)

Context (Hbefore : before_child R' glo csA ksA lox LA IA) (Hafter : after_child R' hiy ghi csB ksB LB IB).

Lemma moved_fixed k' Lx Ly Ix Iy : inside lox hiy k' -> len k' <= max_key_len lay -> InternalPage.used_bytes (with_key k') <= EntryArea.capacity INTERNAL_AREA ->
  R' x lox (Some k') Lx Ix -> R' y (Some k') hiy Ly Iy -> fixed R' gp (with_key k') glo ghi (LA ++ (Lx ++ Ly) ++ LB) (IA ++ (Ix ++ Iy) ++ IB).
Proof using Hp Hw Hin Hbefore Hafter.
  intros Hk Hl Hu Hx Hy. destruct pair_bounds as (HA & _ & HB & Hlk). destruct (key_between k' Hk) as [_ Hk']. split.
  - by apply with_key_wf.
  - cbn. apply Forall_app. split; [done|]. by apply Forall_cons_2.
  - apply Z.ltb_ge. lia.
  - rewrite with_key_used. pose proof (icost_bounds lay k Hlk). pose proof (icost_bounds lay k' Hl). lia.
  - cbn [with_key i_children i_keys]. rewrite (pa_children _ _ _ _ _ _ _ _ _ _ _ _ _ _ _ _ _ Hp).
    apply (chain_plug R' glo lox hiy ghi csA ksA LA IA [x; y] [k'] (Lx ++ Ly) (Ix ++ Iy) csB ksB LB IB Hbefore); [|done]. constructor; [done|]. by constructor.
Qed.

Lemma merged_fixed Lm Im : R' x lox hiy Lm Im -> fixed R' gp without_key glo ghi (LA ++ Lm ++ LB) (IA ++ Im ++ IB).
Proof using Hp Hw Hin Hfit Hbefore Hafter.
  intros Hx. destruct pair_bounds as (HA & _ & HB & Hlk). pose proof (icost_bounds lay k Hlk). pose proof pair_used. split.
  - apply without_key_wf.
  - cbn. by apply Forall_app.
  - apply Z.ltb_ge. lia.
  - lia.
  - cbn [without_key i_children i_keys]. apply (chain_plug R' glo lox hiy ghi csA ksA LA IA [x] [] Lm Im csB ksB LB IB Hbefore); [|done]. by constructor.
Qed.

End at_pair.
End pair.
