(* ===== verification/BPlusTreeRebalance.v ===== *)
(** * Rebalancing internal pages of a B+ tree

    An underfull internal page takes a child from its sibling or becomes one page with it. *)

From Stdlib Require Import ZArith Lia String Sorted.
From stdpp Require Import base list numbers option gmap.
From S2P Require Import Prelude Bytes Ids Buf Str TableHeap Slotted BPlusPage PageView BPlusKeys PageViewProofs.
From S2P Require Import LeafContents LeafViewProofs PageCodecProofs BPlusSplit InternalOps.
From S2P Require Import BPlusTree BPlusTreeInv BPlusTreeWalk BPlusTreeSplit BPlusTreeBorrow.

Local Open Scope Z_scope.

Section rebalance.
Context (tree : BPlusTree) (Hok : layout_ok (layout tree)).
Context {P BE : Type} {Pool : PagePool P BE} {Laws : PagePoolLaws P BE}.

Abbreviation lay := (layout tree).
Abbreviation tree_at := (tree_at lay).
Abbreviation node_at := (node_at lay).
Abbreviation iused := InternalPage.used_bytes.
Abbreviation icap := (EntryArea.capacity INTERNAL_AREA).
Abbreviation imin := (Layout.internal_min_used lay).
Abbreviation imax := (Layout.internal_max_entry_bytes lay).

(** The child on the way to a key is the one the page finds for it. *)
Lemma child_index R pages pid lo hi p b c cs1 cs2 ks1 ks2 lo1 hi1 Lb Ib La Ia key : node_at pages pid lo hi p b -> i_children p = cs1 ++ c :: cs2 -> i_keys p = ks1 ++ ks2 ->
  before_child R lo cs1 ks1 lo1 Lb Ib -> after_child R hi1 hi cs2 ks2 La Ia -> within lo1 hi1 key -> InternalPage.find_child_index p key = length ks1.
Proof using.
  intros Hn Hcs Hks Hb Ha [H1 H2]. pose proof (na_wf _ _ _ _ _ _ _ Hn) as Hw. pose proof (iw_sorted _ _ Hw) as Hs. rewrite Hks in Hs. apply ascending_app in Hs as (S1 & S2 & _).
  rewrite (before_low _ _ _ _ _ _ _ Hb) in H1. rewrite (after_high _ _ _ _ _ _ _ Ha) in H2. unfold low_of, high_of in *.
  apply (find_unique lay); [done|rewrite Hks, length_app; lia|..]; intros j a Hj Hlt; rewrite Hks in Hj.
  - rewrite lookup_app_l in Hj by lia. destruct (list.last ks1) as [z|] eqn:Ez; [|apply last_None in Ez as ->; cbn in Hlt; lia]. cbn in H1.
    eapply kle_trans; [|exact H1]. rewrite last_lookup in Ez. destruct (decide (j = pred (length ks1))) as [->|Hne]; [assert (a = z) as -> by congruence; apply kle_refl|].
    apply klt_kle, (ascending_lookup ks1 j (pred (length ks1))); try done. lia.
  - rewrite lookup_app_r in Hj by lia. destruct ks2 as [|z ks]; [done|]. cbn in H2. destruct (j - length ks1)%nat as [|i]; [cbn in Hj; congruence|].
    eapply klt_trans; [exact H2|]. apply (ascending_lookup (z :: ks) 0 (S i)); try done. lia.
Qed.

Lemma internal_small : 2 * imin + 2 * imax <= icap /\ 0 < imin /\ 0 < imax.
Proof using Hok.
  pose proof (lo_internal _ Hok) as Hl. pose proof (lo_key _ Hok).
  assert (0 < imax) by (unfold Layout.internal_max_entry_bytes, EntryArea.entry_cost; change (payload_len INTERNAL_AREA) with 8; change SLOT_ENCODED_BYTES with 2; lia).
  unfold Layout.internal_min_used. split_and!; [Z.to_euclidean_division_equations; lia|apply Z.div_str_pos; lia|done].
Qed.

(** A page that can lend nothing. *)
Lemma lends_none n edge : internal_wf lay n -> InternalPage.can_lend lay n edge = false -> iused n <= imin + imax.
Proof using Hok.
  intros Hw Hl. destruct internal_small as (_ & Hmin & Hmax). unfold InternalPage.can_lend in Hl.
  assert (H0 : i_keys n = [] -> iused n <= imin + imax) by (intros E; unfold InternalPage.used_bytes; rewrite E; cbn [fmap list_fmap]; change (zsum []) with 0; lia).
  assert (H1 : forall k, k ∈ i_keys n -> (imin <=? iused n - InternalPage.cost k) = false -> iused n <= imin + imax).
  { intros k Hk E%Z.leb_gt. pose proof (iw_keys _ _ Hw) as Hks. rewrite list.Forall_forall in Hks. pose proof (icost_bounds lay k (Hks k Hk)). lia. }
  destruct edge.
  - destruct (i_keys n) as [|k ks]; [by apply H0|]. eapply H1; [by left|done].
  - destruct (list.last (i_keys n)) as [k|] eqn:El; [|by apply last_None in El; apply H0]. eapply H1; [by apply last_Some_elem_of|done].
Qed.

(** ** Two internal pages beside each other *)

Section pair.
Context (pages : gmap PageId bytes) (h : nat) (gp : InternalPage) (glo ghi : bound) (csA : list PageId) (x y : PageId) (csB : list PageId).
Context (ksA : list IndexKey) (k : IndexKey) (ksB : list IndexKey) (lox hiy : bound) (LA LB Lx Ly : leaves) (IA IB Ix Iy : list PageId).
Context (Hp : pair_at (tree_at (S h) pages) gp glo ghi csA x y csB ksA k ksB lox hiy LA LB IA IB).
Context (Hgw : internal_wf lay gp) (Hgin : Forall (inside glo ghi) (i_keys gp)) (Hgfit : iused gp <= icap).
Context (nx ny : InternalPage) (bx by_ : bytes).
Context (Hx : node_at pages x lox (Some k) nx bx) (Hcx : chain (tree_at h pages) lox (Some k) (i_children nx) (i_keys nx) Lx Ix).
Context (Hy : node_at pages y (Some k) hiy ny by_) (Hcy : chain (tree_at h pages) (Some k) hiy (i_children ny) (i_keys ny) Ly Iy).
Context (Hnd : forall z, (cnt z ((IA ++ ((x :: Ix) ++ (y :: Iy)) ++ IB) ++ (LA ++ (Lx ++ Ly) ++ LB).*1) <= 1)%nat).

(** The parent [gp'] over pages that only differ at the two. *)
Definition rebuilt (pages' : gmap PageId bytes) (gp' : InternalPage) : Prop := exists I',
  fixed tree (tree_at (S h) pages') gp gp' glo ghi (LA ++ (Lx ++ Ly) ++ LB) I' /\
  (forall z, (cnt z I' <= cnt z (IA ++ ((x :: Ix) ++ (y :: Iy)) ++ IB))%nat) /\ (forall z, z <> x -> z <> y -> pages' !! z = pages !! z).

Lemma pair_same pages' ids : (forall z, z <> x -> z <> y -> pages' !! z = pages !! z) ->
  (forall z, (0 < cnt z ids)%nat -> (0 < cnt z ((IA ++ Ix ++ Iy ++ IB) ++ (LA ++ Lx ++ Ly ++ LB).*1))%nat) -> same_at pages pages' ids.
Proof using Hnd.
  intros Hs Hids z Hz%cnt_elem. specialize (Hids z Hz). pose proof (Hnd z) as Hz'. cnt_simpl. apply Hs; intros ->; repeat case_decide; try done; lia.
Qed.

Ltac among := intros z Hz; cnt_simpl; lia.

Lemma pair_around pages' : (forall z, z <> x -> z <> y -> pages' !! z = pages !! z) ->
  before_child (tree_at (S h) pages') glo csA ksA lox LA IA /\ after_child (tree_at (S h) pages') hiy ghi csB ksB LB IB /\
  (forall lo hi cs ks L I, chain (tree_at h pages) lo hi cs ks L I -> (forall z, (cnt z (I ++ L.*1) <= cnt z ((Ix ++ Iy) ++ (Lx ++ Ly).*1))%nat) ->
    chain (tree_at h pages') lo hi cs ks L I).
Proof using Hp Hnd.
  intros Hs. split_and!.
  - eapply before_frame; [apply Hp| |]; (apply pair_same; [done|among]).
  - eapply after_frame; [apply Hp| |]; (apply pair_same; [done|among]).
  - intros lo hi cs ks L I Hc Hcnt. eapply chain_frame; [exact Hc| |]; (apply pair_same; [done|]; intros z Hz; specialize (Hcnt z); cnt_simpl; lia).
Qed.

Lemma kept_rebuilt : rebuilt pages gp.
Proof using Hp Hgw Hgin Hgfit Hx Hy Hcx Hcy.
  exists (IA ++ ((x :: Ix) ++ (y :: Iy)) ++ IB). split_and!; [|done|done]. split; [done|done|by apply Z.ltb_ge| |].
  - assert (0 <= imax); [|lia]. unfold Layout.internal_max_entry_bytes, EntryArea.entry_cost. change (payload_len INTERNAL_AREA) with 8. change SLOT_ENCODED_BYTES with 2.
    pose proof (iw_keys _ _ Hgw) as Hks. rewrite (pa_keys _ _ _ _ _ _ _ _ _ _ _ _ _ _ _ _ _ Hp) in Hks. apply Forall_app in Hks as [_ [? _]%Forall_cons_1]. lia.
  - rewrite (pa_children _ _ _ _ _ _ _ _ _ _ _ _ _ _ _ _ _ Hp), (pa_keys _ _ _ _ _ _ _ _ _ _ _ _ _ _ _ _ _ Hp).
    apply (chain_plug (tree_at (S h) pages) glo lox hiy ghi csA ksA LA IA [x; y] [k] (Lx ++ Ly) ((x :: Ix) ++ (y :: Iy)) csB ksB LB IB); [apply Hp| |apply Hp].
    constructor; [by exists nx, bx, Ix|]. constructor. by exists ny, by_, Iy.
Qed.

Lemma merged_rebuilt nm b : internal_wf lay nm -> internal_is b nm -> Forall (inside lox hiy) (i_keys nm) ->
  chain (tree_at h pages) lox hiy (i_children nm) (i_keys nm) (Lx ++ Ly) (Ix ++ Iy) -> rebuilt (<[x := b]> pages) (without_key csA x csB ksA ksB).
Proof using Hp Hgw Hgin Hgfit Hnd.
  intros Hw Hb Hk Hc. assert (Hs : forall z, z <> x -> z <> y -> <[x := b]> pages !! z = pages !! z) by (intros z Hz _; by apply lookup_insert_ne).
  destruct (pair_around _ Hs) as (H1 & H2 & H3). exists (IA ++ (x :: Ix ++ Iy) ++ IB). split_and!; [| |done].
  - eapply merged_fixed; try done. exists nm, b, (Ix ++ Iy). split_and!; [|done|by apply H3]. split; try done. apply lookup_insert_eq.
  - intros z. cnt_simpl. lia.
Qed.

Lemma moved_rebuilt pages' k' nx' ny' bx' by' Lx' Ly' Ix' Iy' : (forall z, z <> x -> z <> y -> pages' !! z = pages !! z) ->
  inside lox hiy k' -> len k' <= max_key_len lay -> iused (with_key gp ksA ksB k') <= icap -> Lx' ++ Ly' = Lx ++ Ly -> Ix' ++ Iy' = Ix ++ Iy ->
  node_at pages' x lox (Some k') nx' bx' -> chain (tree_at h pages) lox (Some k') (i_children nx') (i_keys nx') Lx' Ix' ->
  node_at pages' y (Some k') hiy ny' by' -> chain (tree_at h pages) (Some k') hiy (i_children ny') (i_keys ny') Ly' Iy' -> rebuilt pages' (with_key gp ksA ksB k').
Proof using Hp Hgw Hgin Hnd.
  intros Hs Hk Hl Hu EL EI Hnx Hc1 Hny Hc2. destruct (pair_around _ Hs) as (H1 & H2 & H3). exists (IA ++ ((x :: Ix') ++ (y :: Iy')) ++ IB).
  assert (Hcnt : forall z, (cnt z (Ix' ++ Iy') = cnt z (Ix ++ Iy) /\ cnt z (Lx' ++ Ly').*1 = cnt z (Lx ++ Ly).*1)%nat) by (intros z; by rewrite EL, EI). split_and!; [| |done].
  - rewrite <- EL. eapply moved_fixed; try done.
    + exists nx', bx', Ix'. split_and!; [done|done|]. apply H3; [done|]. intros z. specialize (Hcnt z). cnt_simpl. lia.
    + exists ny', by', Iy'. split_and!; [done|done|]. apply H3; [done|]. intros z. specialize (Hcnt z). cnt_simpl. lia.
  - intros z. specialize (Hcnt z). cnt_simpl. lia.
Qed.

(** ** One page of the two *)

Lemma pair_inside' : inside lox hiy k.
Proof using Hp Hgw Hgin. eapply pair_inside; done. Qed.

Lemma keys_below_x a : a ∈ i_keys nx -> strictly_above lox a /\ klt a k.
Proof using Hx. intros Ha. pose proof (na_keys _ _ _ _ _ _ _ Hx) as Hk. rewrite list.Forall_forall in Hk. by apply Hk. Qed.

Lemma keys_above_y a : a ∈ i_keys ny -> klt k a /\ below hiy a.
Proof using Hy. intros Ha. pose proof (na_keys _ _ _ _ _ _ _ Hy) as Hk. rewrite list.Forall_forall in Hk. by apply Hk. Qed.

Lemma keys_joined : ascending (i_keys nx ++ k :: i_keys ny) /\ Forall (inside lox hiy) (i_keys nx ++ k :: i_keys ny).
Proof using Hp Hgw Hgin Hx Hy.
  destruct pair_inside' as [K1 K2]. split.
  - apply ascending_app. split_and!; [apply Hx|apply SSorted_cons; [apply Hy|apply list.Forall_forall; intros a Ha; by apply keys_above_y]|].
    intros a b Ha%keys_below_x [->|Hb%keys_above_y]%list.elem_of_cons; [apply Ha|]. eapply klt_trans; [apply Ha|apply Hb].
  - apply list.Forall_forall. intros a [Ha%keys_below_x|[->|Ha%keys_above_y]%list.elem_of_cons]%elem_of_app.
    + split; [apply Ha|]. eapply below_weaken; [exact K2|apply Ha].
    + done.
    + split; [|apply Ha]. eapply strictly_above_weaken; [exact K1|apply klt_kle, Ha].
Qed.

Definition joined : InternalPage := mkInternal (i_children nx ++ i_children ny) (i_keys nx ++ k :: i_keys ny).

Lemma pair_key_len : len k <= max_key_len lay.
Proof using Hp Hgw Hgin. eapply pair_bounds; done. Qed.

Lemma joined_wf : internal_wf lay joined.
Proof using Hp Hgw Hgin Hx Hy.
  destruct keys_joined as [Ha _]. pose proof (na_wf _ _ _ _ _ _ _ Hx) as [X1 X2 X3 X4]. pose proof (na_wf _ _ _ _ _ _ _ Hy) as [Y1 Y2 Y3 Y4]. pose proof pair_key_len.
  split; cbn [joined i_children i_keys]; [rewrite !length_app; cbn; lia|done| |by apply Forall_app]. apply Forall_app. split; [done|]. by apply Forall_cons_2.
Qed.

Lemma joined_used : iused joined = iused nx + InternalPage.cost k + iused ny.
Proof using. unfold InternalPage.used_bytes. cbn [joined i_keys]. rewrite fmap_app, fmap_cons, zsum_app, zsum_cons. lia. Qed.

Lemma absorb_joined {E} : @InternalPage.absorb_right lay E nx k ny = Ok joined.
Proof using Hp Hgw Hgin Hx Hy.
  unfold InternalPage.absorb_right, InternalPage.debug_check. rewrite !(internal_check_ok lay) by (apply Hx || apply Hy). cbn [rassert mbind outcome_bind].
  apply (internal_checked_ok lay joined), joined_wf.
Qed.

Lemma joined_rebuilt b : internal_is b joined -> rebuilt (<[x := b]> pages) (without_key csA x csB ksA ksB).
Proof using Hp Hgw Hgin Hgfit Hnd Hx Hy Hcx Hcy.
  intros Hb. eapply merged_rebuilt; [apply joined_wf|exact Hb|apply keys_joined|]. by eapply chain_join.
Qed.

(** ** A child that changes pages *)

Lemma lend_right k1 ky : i_keys ny = k1 :: ky -> exists c1 cy L1 L2 I1 I2, i_children ny = c1 :: cy /\ Ly = L1 ++ L2 /\ Iy = I1 ++ I2 /\
  internal_wf lay (mkInternal (i_children nx ++ [c1]) (i_keys nx ++ [k])) /\ internal_wf lay (mkInternal cy ky) /\ inside lox hiy k1 /\ len k1 <= max_key_len lay /\
  Forall (inside lox (Some k1)) (i_keys nx ++ [k]) /\ Forall (inside (Some k1) hiy) ky /\
  chain (tree_at h pages) lox (Some k1) (i_children nx ++ [c1]) (i_keys nx ++ [k]) (Lx ++ L1) (Ix ++ I1) /\ chain (tree_at h pages) (Some k1) hiy cy ky L2 I2.
Proof using Hp Hgw Hgin Hx Hy Hcx Hcy.
  clear Hnd. intros Ek. pose proof Hcy as Hc. rewrite Ek in Hc. destruct (i_children ny) as [|c1 cy] eqn:Ecs; [inversion Hc|].
  inversion Hc as [|c' cs' k' ks' lo hi L1 I1 L2 I2 HR Hc']; subst. exists c1, cy, L1, L2, I1, I2.
  destruct keys_joined as [Ha Hin]. pose proof (na_wf _ _ _ _ _ _ _ Hx) as [X1 X2 X3 X4]. pose proof (na_wf _ _ _ _ _ _ _ Hy) as [Y1 Y2 Y3 Y4]. rewrite Ek, Ecs in *.
  replace (i_keys nx ++ k :: k1 :: ky) with ((i_keys nx ++ [k]) ++ k1 :: ky) in * by (by rewrite <- app_assoc). apply ascending_app in Ha as (A1 & A2 & A3).
  apply StronglySorted_inv in A2 as [A2 A4]. apply Forall_app in Hin as [Hin1 [Hin2 Hin3]%Forall_cons_1]. apply Forall_cons_1 in Y3 as [Y31 Y32]. apply Forall_cons_1 in Y4 as [Y41 Y42].
  pose proof pair_key_len as Hkl. split_and!; try done.
  - split; cbn [i_children i_keys]; [rewrite !length_app; cbn; lia|done|apply Forall_app; split; [done|by apply Forall_singleton]|apply Forall_app; split; [done|by apply Forall_singleton]].
  - split; cbn [i_children i_keys]; [cbn in Y1; lia|done|done|done].
  - rewrite list.Forall_forall in *. intros a Ha. split; [by apply Hin1|]. apply A3; [done|by left].
  - rewrite list.Forall_forall in *. intros a Ha. split; [by apply A4|by apply Hin3].
  - eapply chain_join; [exact Hcx|]. by constructor.
Qed.

Lemma lend_left k1 kx : i_keys nx = kx ++ [k1] -> exists c1 cx L1 L2 I1 I2, i_children nx = cx ++ [c1] /\ Lx = L1 ++ L2 /\ Ix = I1 ++ I2 /\
  internal_wf lay (mkInternal (c1 :: i_children ny) (k :: i_keys ny)) /\ internal_wf lay (mkInternal cx kx) /\ inside lox hiy k1 /\ len k1 <= max_key_len lay /\
  Forall (inside lox (Some k1)) kx /\ Forall (inside (Some k1) hiy) (k :: i_keys ny) /\
  chain (tree_at h pages) lox (Some k1) cx kx L1 I1 /\ chain (tree_at h pages) (Some k1) hiy (c1 :: i_children ny) (k :: i_keys ny) (L2 ++ Ly) (I2 ++ Iy).
Proof using Hp Hgw Hgin Hx Hy Hcx Hcy.
  clear Hnd. intros Ek. pose proof Hcx as Hc. pose proof (children_length _ _ _ _ _ _ _ Hc) as Hlen. rewrite Ek, length_app in Hlen. cbn in Hlen.
  destruct (exists_last (l := i_children nx)) as (cx & c1 & Ecs); [intros E; rewrite E in Hlen; cbn in Hlen; lia|]. rewrite Ek, Ecs in Hc. rewrite Ecs, length_app in Hlen. cbn in Hlen.
  destruct (chain_cut _ _ _ _ _ _ _ _ _ _ Hc ltac:(lia)) as (L1 & L2 & I1 & I2 & EL & EI & Hc1 & Hc2). exists c1, cx, L1, L2, I1, I2.
  destruct keys_joined as [Ha Hin]. pose proof (na_wf _ _ _ _ _ _ _ Hx) as [X1 X2 X3 X4]. pose proof (na_wf _ _ _ _ _ _ _ Hy) as [Y1 Y2 Y3 Y4]. rewrite Ek, Ecs in *.
  replace ((kx ++ [k1]) ++ k :: i_keys ny) with (kx ++ k1 :: k :: i_keys ny) in * by (by rewrite <- app_assoc). apply ascending_app in Ha as (A1 & A2 & A3).
  apply StronglySorted_inv in A2 as [A2 A4]. apply Forall_app in Hin as [Hin1 [Hin2 Hin3]%Forall_cons_1]. apply Forall_app in X3 as [X31 X32]. apply Forall_app in X4 as [X41 X42].
  apply Forall_cons_1 in X32 as [X32 _]. apply Forall_cons_1 in X42 as [X42 _]. pose proof pair_key_len as Hkl. inversion Hc2 as [c lo hi L I HR|]; subst. split_and!; try done.
  - split; cbn [i_children i_keys length]; [lia|done|by apply Forall_cons_2|by apply Forall_cons_2].
  - split; cbn [i_children i_keys]; [lia|done|done|done].
  - rewrite list.Forall_forall in *. intros a Ha. split; [by apply Hin1|]. apply A3; [done|by left].
  - rewrite list.Forall_forall in *. intros a Ha. split; [by apply A4|by apply Hin3].
  - constructor; [done|exact Hcy].
Qed.

(** ** The steps on the pages *)

Lemma pair_other : x <> y.
Proof using Hnd. pose proof (Hnd x) as Hz. cnt_simpl. intros E. repeat case_decide; try done; lia. Qed.

Lemma join_runs n p : pool_pages p = pages -> n = length ksA -> iused nx + iused ny <= 2 * imin + imax ->
  runs ((separator ← BPlusTree.pure (expect (i_keys gp !! n));
         node ← BPlusTree.pure (InternalPage.absorb_right lay nx separator ny);
         '(_, _, parent) ← BPlusTree.pure (InternalPage.remove_separator lay gp n);
         _ ← BPlusTree.encode_internal (BE := BE) tree (mkGuard x bx) node;
         mret (Merged, parent)) p) (fun r pages' => rebuilt pages' r.2).
Proof using Hp Hgw Hgin Hgfit Hnd Hx Hy Hcx Hcy Hok Laws.
  intros Hpool -> Hu. rewrite (bind_pure k) by (by rewrite (proj1 (key_at_pair _ _ _ _ _ _ _ _ _ _ _ _ _ _ _ _ _ Hp))).
  rewrite (bind_pure joined) by apply absorb_joined. rewrite (bind_pure (k, y, without_key csA x csB ksA ksB)) by (by eapply drop_child_ok).
  destruct internal_small as (Hs & Hmn & Hmx). pose proof (icost_bounds lay k pair_key_len) as Hcb. pose proof joined_used as Hju.
  eapply runs_bind; [apply (encode_internal_runs tree); [apply joined_wf|apply Z.ltb_ge; lia|apply (guard_len tree _ _ _ _ _ _ Hx)|cbn; rewrite Hpool; eexists; apply Hx]|].
  intros g p' (b & Hb & _ & Hp'). apply runs_ret. cbn [snd g_id] in *. rewrite Hp', Hpool. by apply joined_rebuilt.
Qed.

Lemma lend_right_runs n p : pool_pages p = pages -> n = length ksA -> InternalPage.can_lend lay ny First = true -> iused nx < imin ->
  runs ((rotated ← BPlusTree.pure (ok_or (head (i_keys ny)) (EMPTY_SIBLING (BE := BE)));
         fits ← BPlusTree.pure (InternalPage.fits_replacing gp n rotated);
         if negb fits then mret (Kept, gp)
         else
           '(sibling, parent, node) ← BPlusTree.pure
             ('(rotated_key, rotated_child, sibling) ← InternalPage.pop_first_child_and_key lay ny;
              '(old_separator, parent) ← InternalPage.replace_key lay gp n rotated_key;
              node ← InternalPage.append_key_and_child lay nx old_separator rotated_child;
              Ok (sibling, parent, node));
           _ ← BPlusTree.encode_internal tree (mkGuard y by_) sibling;
           _ ← BPlusTree.encode_internal tree (mkGuard x bx) node;
           mret (Redistributed, parent)) p) (fun r pages' => rebuilt pages' r.2).
Proof using Hp Hgw Hgin Hgfit Hnd Hx Hy Hcx Hcy Hok Laws.
  intros Hpool -> Hlend Hun. destruct (head (i_keys ny)) as [k1|] eqn:Eh; [|by unfold InternalPage.can_lend in Hlend; rewrite Eh in Hlend]. pose proof Eh as [ky Ek]%head_Some.
  rewrite (bind_pure k1) by done. rewrite (bind_pure (iused (with_key gp ksA ksB k1) <=? icap)) by (by eapply fits_ok).
  destruct (Z.leb_spec (iused (with_key gp ksA ksB k1)) icap) as [Hf|Hf]; cbn [negb].
  2:{ apply runs_ret. cbn [snd]. rewrite Hpool. apply kept_rebuilt. }
  destruct (lend_right k1 ky Ek) as (c1 & cy & L1 & L2 & I1 & I2 & Ecs & EL & EI & W1 & W2 & K1 & K2 & F1 & F2 & C1 & C2).
  set (ny' := mkInternal cy ky) in *. set (nx' := mkInternal (i_children nx ++ [c1]) (i_keys nx ++ [k])) in *.
  rewrite (bind_pure (ny', with_key gp ksA ksB k1, nx')).
  2:{ unfold InternalPage.pop_first_child_and_key. rewrite Ecs, Ek. cbn [head expect mbind outcome_bind drop]. rewrite drop_0, drop_0. change (mkInternal cy ky) with ny'.
      rewrite (internal_checked_ok lay ny') by done. cbn [mbind outcome_bind]. erewrite replace_ok by done. cbn [mbind outcome_bind].
      unfold InternalPage.append_key_and_child. change (mkInternal _ _) with nx'. by rewrite (internal_checked_ok lay nx') by done. }
  destruct internal_small as (Hs & Hmn & Hmx). pose proof (icost_bounds lay k pair_key_len) as Hcb. pose proof (internal_fits tree _ _ (na_bytes _ _ _ _ _ _ _ Hy) (na_wf _ _ _ _ _ _ _ Hy)) as Hfy.
  assert (Huy : iused ny = InternalPage.cost k1 + iused ny') by (unfold InternalPage.used_bytes; rewrite Ek, fmap_cons, zsum_cons; done).
  assert (Hux : iused nx' = iused nx + InternalPage.cost k) by (unfold InternalPage.used_bytes; cbn [nx' i_keys]; rewrite fmap_app, zsum_app; cbn [fmap list_fmap]; rewrite zsum_cons; change (zsum []) with 0; lia).
  pose proof (icost_bounds lay k1 K2) as Hcb1. pose proof pair_other as Hxy.
  eapply runs_bind; [apply (encode_internal_runs tree); [done|apply Z.ltb_ge; lia|apply (guard_len tree _ _ _ _ _ _ Hy)|cbn; rewrite Hpool; eexists; apply Hy]|].
  intros g1 p1 (b1 & Hb1 & _ & Hp1). cbn [g_id] in *. eapply runs_bind.
  { apply (encode_internal_runs tree); [done|apply Z.ltb_ge; lia|apply (guard_len tree _ _ _ _ _ _ Hx)|cbn; rewrite Hp1, lookup_insert_ne, Hpool by done; eexists; apply Hx]. }
  intros g2 p2 (b2 & Hb2 & _ & Hp2). apply runs_ret. cbn [snd g_id] in *.
  eapply (moved_rebuilt _ k1 nx' ny' b2 b1 (Lx ++ L1) L2 (Ix ++ I1) I2); try done.
  - intros z Z1 Z2. by rewrite Hp2, lookup_insert_ne, Hp1, lookup_insert_ne, Hpool by done.
  - by rewrite EL, app_assoc.
  - by rewrite EI, app_assoc.
  - split; try done. by rewrite Hp2, lookup_insert_eq.
  - split; try done. by rewrite Hp2, lookup_insert_ne, Hp1, lookup_insert_eq by done.
Qed.

Lemma lend_left_runs n p : pool_pages p = pages -> n = length ksA -> InternalPage.can_lend lay nx Last = true -> iused ny < imin ->
  runs ((rotated ← BPlusTree.pure (ok_or (list.last (i_keys nx)) (EMPTY_SIBLING (BE := BE)));
         fits ← BPlusTree.pure (InternalPage.fits_replacing gp n rotated);
         if negb fits then mret (Kept, gp)
         else
           '(sibling, parent, node) ← BPlusTree.pure
             ('(rotated_key, rotated_child, sibling) ← InternalPage.pop_last_child_and_key lay nx;
              '(old_separator, parent) ← InternalPage.replace_key lay gp n rotated_key;
              node ← InternalPage.prepend_child_and_key lay ny old_separator rotated_child;
              Ok (sibling, parent, node));
           _ ← BPlusTree.encode_internal tree (mkGuard x bx) sibling;
           _ ← BPlusTree.encode_internal tree (mkGuard y by_) node;
           mret (Redistributed, parent)) p) (fun r pages' => rebuilt pages' r.2).
Proof using Hp Hgw Hgin Hgfit Hnd Hx Hy Hcx Hcy Hok Laws.
  intros Hpool -> Hlend Hun. destruct (list.last (i_keys nx)) as [k1|] eqn:El; [|by unfold InternalPage.can_lend in Hlend; rewrite El in Hlend]. pose proof El as [kx Ek]%last_Some.
  rewrite (bind_pure k1) by done. rewrite (bind_pure (iused (with_key gp ksA ksB k1) <=? icap)) by (by eapply fits_ok).
  destruct (Z.leb_spec (iused (with_key gp ksA ksB k1)) icap) as [Hf|Hf]; cbn [negb].
  2:{ apply runs_ret. cbn [snd]. rewrite Hpool. apply kept_rebuilt. }
  destruct (lend_left k1 kx Ek) as (c1 & cx & L1 & L2 & I1 & I2 & Ecs & EL & EI & W1 & W2 & K1 & K2 & F1 & F2 & C1 & C2).
  set (nx' := mkInternal cx kx) in *. set (ny' := mkInternal (c1 :: i_children ny) (k :: i_keys ny)) in *.
  rewrite (bind_pure (nx', with_key gp ksA ksB k1, ny')).
  2:{ unfold InternalPage.pop_last_child_and_key. rewrite El, Ecs, Ek, last_snoc, !removelast_last. cbn [expect mbind outcome_bind]. change (mkInternal cx kx) with nx'.
      rewrite (internal_checked_ok lay nx') by done. cbn [mbind outcome_bind]. erewrite replace_ok by done. cbn [mbind outcome_bind].
      unfold InternalPage.prepend_child_and_key. change (mkInternal _ _) with ny'. by rewrite (internal_checked_ok lay ny') by done. }
  destruct internal_small as (Hs & Hmn & Hmx). pose proof (icost_bounds lay k pair_key_len) as Hcb. pose proof (internal_fits tree _ _ (na_bytes _ _ _ _ _ _ _ Hx) (na_wf _ _ _ _ _ _ _ Hx)) as Hfx.
  assert (Hux : iused nx = iused nx' + InternalPage.cost k1) by (unfold InternalPage.used_bytes; rewrite Ek, fmap_app, zsum_app; cbn [fmap list_fmap]; rewrite zsum_cons; change (zsum []) with 0; cbn [nx' i_keys]; lia).
  assert (Huy : iused ny' = InternalPage.cost k + iused ny) by (unfold InternalPage.used_bytes; cbn [ny' i_keys]; rewrite fmap_cons, zsum_cons; done).
  pose proof (icost_bounds lay k1 K2) as Hcb1. pose proof pair_other as Hxy.
  eapply runs_bind; [apply (encode_internal_runs tree); [done|apply Z.ltb_ge; lia|apply (guard_len tree _ _ _ _ _ _ Hx)|cbn; rewrite Hpool; eexists; apply Hx]|].
  intros g1 p1 (b1 & Hb1 & _ & Hp1). cbn [g_id] in *. eapply runs_bind.
  { apply (encode_internal_runs tree); [done|apply Z.ltb_ge; lia|apply (guard_len tree _ _ _ _ _ _ Hy)|cbn; rewrite Hp1, lookup_insert_ne, Hpool by done; eexists; apply Hy]. }
  intros g2 p2 (b2 & Hb2 & _ & Hp2). apply runs_ret. cbn [snd g_id] in *.
  eapply (moved_rebuilt _ k1 nx' ny' b1 b2 L1 (L2 ++ Ly) I1 (I2 ++ Iy)); try done.
  - intros z Z1 Z2. by rewrite Hp2, lookup_insert_ne, Hp1, lookup_insert_ne, Hpool by done.
  - by rewrite EL, app_assoc.
  - by rewrite EI, app_assoc.
  - split; try done. by rewrite Hp2, lookup_insert_ne, Hp1, lookup_insert_eq by done.
  - split; try done. by rewrite Hp2, lookup_insert_eq.
Qed.

End pair.
(** ** The page and its sibling, whichever it is *)

Lemma rebalance_internal_runs pages h gpid glo ghi gp gb c cs1 cs2 ks1 ks2 lo1 hi1 Lb La Ib Ia node nb L I0 key p :
  pool_pages p = pages -> node_at pages gpid glo ghi gp gb -> i_children gp = cs1 ++ c :: cs2 -> i_keys gp = ks1 ++ ks2 ->
  before_child (tree_at (S h) pages) glo cs1 ks1 lo1 Lb Ib -> after_child (tree_at (S h) pages) hi1 ghi cs2 ks2 La Ia ->
  node_at pages c lo1 hi1 node nb -> chain (tree_at h pages) lo1 hi1 (i_children node) (i_keys node) L I0 -> within lo1 hi1 key -> iused node < imin ->
  (forall z, (cnt z ((Ib ++ (c :: I0) ++ Ia) ++ (Lb ++ L ++ La).*1) <= 1)%nat) ->
  runs (BPlusTree.rebalance_internal (BE := BE) tree key node (mkGuard c nb) gp p) (fun r pages' => exists I',
    fixed tree (tree_at (S h) pages') gp r.2 glo ghi (Lb ++ L ++ La) I' /\ (forall z, (cnt z I' <= cnt z (Ib ++ (c :: I0) ++ Ia))%nat) /\
    (forall z, cnt z (Ib ++ (c :: I0) ++ Ia) = 0%nat -> pages' !! z = pages !! z)).
Proof using Laws Hok.
  intros Hpool Hgp Hcs Hks Hb Ha Hnode Hchain Hin Hun Hnd. unfold BPlusTree.rebalance_internal.
  rewrite (child_index _ _ _ _ _ _ _ _ _ _ _ _ _ _ _ _ _ _ key Hgp Hcs Hks Hb Ha Hin). pose proof (sibling_cases _ _ _ _ _ _ _ _ _ _ _ _ _ _ _ Hcs Hks Hb Ha) as Hsib.
  pose proof (internal_fits tree _ _ (na_bytes _ _ _ _ _ _ _ Hgp) (na_wf _ _ _ _ _ _ _ Hgp)) as Hfit. destruct Hgp as [Hgb Hgis Hgw Hgin].
  destruct (BPlusTree.sibling_of gp (length ks1)) as [[i s]|].
  2:{ destruct Hsib as [-> ->]. apply runs_ret. cbn [snd]. exists (Ib ++ (c :: I0) ++ Ia). split_and!; [|done|by rewrite Hpool]. rewrite Hpool.
      destruct internal_small as (_ & _ & Hmx). split; [done|done|by apply Z.ltb_ge|lia|]. rewrite Hcs, Hks.
      apply (chain_plug (tree_at (S h) pages) glo lo1 hi1 ghi [] ks1 Lb Ib [c] [] L (c :: I0) [] ks2 La Ia Hb); [|done]. constructor. by exists node, nb, I0. }
  destruct Hsib as [(k & ks3 & cs3 & hiy & Ls & Is & LB & IB & Hlt & -> & -> & -> & Hs & Hpair)|(k & ks0 & cs0 & lo0 & Ls & Is & LA & IA & Hlt & -> & -> & -> & -> & Hs & Hpair)];
    destruct Hs as (ns & bs & I1 & Hns & -> & Hcs').
  - eapply runs_bind; [apply gives_runs, read_page_gives; rewrite Hpool; apply Hns|]. intros g p1 [-> Hp1]. cbn [g_data]. rewrite Hpool in Hp1.
    rewrite (bind_coded ns) by (by eapply decode_internal; apply Hns). rewrite Hlt. cbn [BPlusTree.lending_edge].
    assert (Hndp : forall z, (cnt z ((Ib ++ ((c :: I0) ++ (s :: I1)) ++ IB) ++ (Lb ++ (L ++ Ls) ++ LB).*1) <= 1)%nat) by (intros z; specialize (Hnd z); cnt_simpl; lia).
    assert (Hdone : forall (gp' : InternalPage) pages', rebuilt pages h gp glo ghi c s Lb LB L Ls Ib IB I0 I1 pages' gp' -> exists I', fixed tree (tree_at (S h) pages') gp gp' glo ghi (Lb ++ L ++ Ls ++ LB) I' /\
      (forall z, (cnt z I' <= cnt z (Ib ++ (c :: I0) ++ (s :: I1) ++ IB))%nat) /\ (forall z, cnt z (Ib ++ (c :: I0) ++ (s :: I1) ++ IB) = 0%nat -> pages' !! z = pages !! z)).
    { intros gp' pages' (I' & F1 & F2 & F3). exists I'. split_and!; [by rewrite <- (app_assoc L) in F1|by intros z; rewrite <- (app_assoc (c :: I0)) in F2|].
      intros z Hz. apply F3; intros ->; cnt_simpl; repeat case_decide; try done; lia. }
    destruct (InternalPage.can_lend lay ns First) eqn:Hlend; cbn [negb].
    + eapply runs_mono; [eapply lend_right_runs; try done; by rewrite Hp1|]. intros r pages' Hr. by apply Hdone.
    + pose proof (lends_none ns First (na_wf _ _ _ _ _ _ _ Hns) Hlend). eapply runs_mono; [eapply join_runs; try done; lia|]. intros r pages' Hr. by apply Hdone.
  - eapply runs_bind; [apply gives_runs, read_page_gives; rewrite Hpool; apply Hns|]. intros g p1 [-> Hp1]. cbn [g_data]. rewrite Hpool in Hp1.
    rewrite (bind_coded ns) by (by eapply decode_internal; apply Hns). rewrite Hlt. cbn [BPlusTree.lending_edge].
    assert (Hndp : forall z, (cnt z ((IA ++ ((s :: I1) ++ (c :: I0)) ++ Ia) ++ (LA ++ (Ls ++ L) ++ La).*1) <= 1)%nat) by (intros z; specialize (Hnd z); cnt_simpl; lia).
    assert (Hdone : forall (gp' : InternalPage) pages', rebuilt pages h gp glo ghi s c LA La Ls L IA Ia I1 I0 pages' gp' -> exists I', fixed tree (tree_at (S h) pages') gp gp' glo ghi ((LA ++ Ls) ++ L ++ La) I' /\
      (forall z, (cnt z I' <= cnt z ((IA ++ (s :: I1)) ++ (c :: I0) ++ Ia))%nat) /\ (forall z, cnt z ((IA ++ (s :: I1)) ++ (c :: I0) ++ Ia) = 0%nat -> pages' !! z = pages !! z)).
    { intros gp' pages' (I' & F1 & F2 & F3). exists I'. split_and!; [by rewrite <- !app_assoc in *|by intros z; specialize (F2 z); cnt_simpl; lia|].
      intros z Hz. apply F3; intros ->; cnt_simpl; repeat case_decide; try done; lia. }
    destruct (InternalPage.can_lend lay ns Last) eqn:Hlend; cbn [negb].
    + eapply runs_mono; [eapply lend_left_runs; try done; by rewrite Hp1|]. intros r pages' Hr. by apply Hdone.
    + pose proof (lends_none ns Last (na_wf _ _ _ _ _ _ _ Hns) Hlend). eapply runs_mono; [eapply join_runs; try done; lia|]. intros r pages' Hr. by apply Hdone.
Qed.

End rebalance.
