(* ===== verification/BPlusTreeRebalanceLeaf.v ===== *)
(** * Rebalancing leaves of a B+ tree

    An underfull leaf borrows from its sibling or becomes one leaf with it. *)

From Stdlib Require Import ZArith Lia String Sorted.
From stdpp Require Import base list numbers option gmap.
From S2P Require Import Prelude Bytes Ids Buf Str TableHeap Slotted BPlusPage PageView BPlusKeys PageViewProofs.
From S2P Require Import LeafContents LeafMerge LeafViewProofs PageCodecProofs BPlusSplit InternalOps.
From S2P Require Import BPlusTree BPlusTreeInv BPlusTreeWalk BPlusTreeSplit BPlusTreeInsert BPlusTreeGrow BPlusTreeBorrow BPlusTreeRebalance.

Local Open Scope Z_scope.

(** ** Leaves that hold the same *)

(** [M'] in the place of [M]: the same entries live, the links and the first page fit. *)
Record renewed (M M' : leaves) : Prop := {
  rn_linked : forall e, linked M e -> linked M' e;
  rn_first : forall e, first_id M' e = first_id M e;
  rn_lives : forall k rid, (exists id p, (id, p) ∈ M' /\ lives p k rid) <-> (exists id p, (id, p) ∈ M /\ lives p k rid);
  rn_ids : forall z, (cnt z M'.*1 <= cnt z M.*1)%nat;
}.

Lemma renewed_refl M : renewed M M.
Proof. done. Qed.

Lemma renewed_around LA M M' LB : renewed M M' -> renewed (LA ++ M ++ LB) (LA ++ M' ++ LB).
Proof.
  intros [H1 H2 H3 H4]. split.
  - intros e. rewrite !leaves_linked_app, !first_id_app. rewrite H2. intros (A & B & C). auto.
  - intros e. rewrite !first_id_app. by rewrite H2.
  - intros k rid. assert (Hex : forall N, (exists id p, (id, p) ∈ LA ++ N ++ LB /\ lives p k rid) <->
      (exists id p, (id, p) ∈ LA /\ lives p k rid) \/ (exists id p, (id, p) ∈ N /\ lives p k rid) \/ (exists id p, (id, p) ∈ LB /\ lives p k rid)).
    { intros N. setoid_rewrite elem_of_app. setoid_rewrite elem_of_app. split; [intros (id & p & [?|[?|?]] & ?); eauto 8|intros [(id & p & ? & ?)|[(id & p & ? & ?)|(id & p & ? & ?)]]; eauto 8]. }
    by rewrite !Hex, H3.
  - intros z. specialize (H4 z). cnt_simpl. lia.
Qed.

Lemma renewed_entries M M' m : renewed M M' -> entries_are M m -> entries_are M' m.
Proof. intros [_ _ H3 _] Hm k rid. by rewrite (Hm k rid), H3. Qed.

Lemma lives_two (x y : PageId) (a b : LeafPage) k rid : (exists id p, (id, p) ∈ [(x, a); (y, b)] /\ lives p k rid) <-> lives a k rid \/ lives b k rid.
Proof.
  setoid_rewrite list.elem_of_cons. setoid_rewrite list_elem_of_singleton. split.
  - intros (id & p & [[= -> ->]|[= -> ->]] & Hl); auto.
  - intros [Hl|Hl]; [exists x, a|exists y, b]; auto.
Qed.

(** Two leaves, and the two or the one they become. *)
Lemma renewed_two x y lx ly lx' ly' : l_next lx' = l_next lx -> l_next ly' = l_next ly ->
  (forall k rid, lives lx' k rid \/ lives ly' k rid <-> lives lx k rid \/ lives ly k rid) -> renewed [(x, lx); (y, ly)] [(x, lx'); (y, ly')].
Proof. intros N1 N2 Hl. split; [intros e; cbn; rewrite N1, N2; done|done| |done]. intros k rid. by rewrite !lives_two. Qed.

Lemma renewed_one x y lx ly lm : l_next lm = l_next ly -> (forall k rid, lives lm k rid <-> lives lx k rid \/ lives ly k rid) -> renewed [(x, lx); (y, ly)] [(x, lm)].
Proof.
  intros N Hl. split; [intros e; cbn; rewrite N; tauto|done| |intros z; cbn; lia]. intros k rid. rewrite lives_two, <- Hl. split.
  - by intros (id & p & [= -> ->]%list_elem_of_singleton & ?).
  - intros ?. exists x, lm. split; [by left|done].
Qed.

Section rebalance.
Context (tree : BPlusTree) (Hok : layout_ok (layout tree)).
Context {P BE : Type} {Pool : PagePool P BE} {Laws : PagePoolLaws P BE}.

Abbreviation lay := (layout tree).
Abbreviation tree_at := (tree_at lay).
Abbreviation leaf_at := (leaf_at lay).
Abbreviation node_at := (node_at lay).
Abbreviation used := (LeafPage.used_bytes lay).
Abbreviation icap := (EntryArea.capacity INTERNAL_AREA).
Abbreviation lmin := (Layout.leaf_min_used lay).
Abbreviation lmax := (Layout.leaf_max_entry_bytes lay).

Lemma leaf_lends_none n edge : leaf_wf lay n -> LeafPage.can_lend lay n edge = false -> used n <= lmin + lmax.
Proof using Hok.
  intros Hw Hl. destruct (underfull_small tree Hok) as (_ & _ & Hmin). unfold LeafPage.can_lend in Hl. pose proof (leaf_max_pos tree Hok) as Hmx.
  assert (H0 : l_entries n = [] -> used n <= lmin + lmax) by (intros E; unfold LeafPage.used_bytes, LeafPage.keys; rewrite E; cbn [fmap list_fmap]; change (zsum []) with 0; lia).
  assert (H1 : forall e, e ∈ l_entries n -> (lmin <=? used n - LeafPage.cost lay e.1) = false -> used n <= lmin + lmax).
  { intros e He E%Z.leb_gt. pose proof (w_keys _ _ Hw) as Hks. rewrite list.Forall_forall in Hks.
    pose proof (cost_bounds lay e.1 (Hks e.1 ltac:(apply list_elem_of_fmap; by exists e))). lia. }
  destruct edge.
  - destruct (l_entries n) as [|e es]; [by apply H0|]. eapply H1; [by left|done].
  - destruct (list.last (l_entries n)) as [e|] eqn:El; [|by apply last_None in El; apply H0]. eapply H1; [by apply last_Some_elem_of|done].
Qed.

Lemma used_some n : 0 < used n -> exists k ks, LeafPage.keys n = k :: ks /\ LeafPage.first_key n = Some k.
Proof using.
  intros Hu. unfold LeafPage.used_bytes, LeafPage.keys in *. unfold LeafPage.first_key. destruct (l_entries n) as [|[k rid] es]; [cbn [fmap list_fmap] in Hu; change (zsum []) with 0 in Hu; lia|].
  by exists k, es.*1.
Qed.

Section pair.
Context (pages : gmap PageId bytes) (gp : InternalPage) (glo ghi : bound) (csA : list PageId) (x y : PageId) (csB : list PageId).
Context (ksA : list IndexKey) (k : IndexKey) (ksB : list IndexKey) (lox hiy : bound) (LA LB : leaves) (IA IB : list PageId).
Context (Hp : pair_at (tree_at 0 pages) gp glo ghi csA x y csB ksA k ksB lox hiy LA LB IA IB).
Context (Hgw : internal_wf lay gp) (Hgin : Forall (inside glo ghi) (i_keys gp)) (Hgfit : InternalPage.used_bytes gp <= icap).
Context (lx ly : LeafPage) (bx by_ : bytes).
Context (Hx : leaf_wf lay lx) (Hxk : Forall (within lox (Some k)) (LeafPage.keys lx)) (Hxb : pages !! x = Some bx) (Hxl : len bx = PAGE_SIZE).
Context (Hy : leaf_wf lay ly) (Hyk : Forall (within (Some k) hiy) (LeafPage.keys ly)) (Hyb : pages !! y = Some by_) (Hyl : len by_ = PAGE_SIZE).
Context (Hnd : forall z, (cnt z ((IA ++ IB) ++ (LA ++ [(x, lx); (y, ly)] ++ LB).*1) <= 1)%nat).

Definition leaves_rebuilt (pages' : gmap PageId bytes) (gp' : InternalPage) : Prop := exists M',
  fixed tree (tree_at 0 pages') gp gp' glo ghi (LA ++ M' ++ LB) (IA ++ IB) /\ renewed [(x, lx); (y, ly)] M' /\ (forall z, z <> x -> z <> y -> pages' !! z = pages !! z).

Lemma leaves_other : x <> y.
Proof using Hnd. clear Hxl Hyl Hgfit. pose proof (Hnd x) as Hz. cnt_simpl. intros E. repeat case_decide; try done; lia. Qed.

Lemma leaves_around pages' : (forall z, z <> x -> z <> y -> pages' !! z = pages !! z) ->
  before_child (tree_at 0 pages') glo csA ksA lox LA IA /\ after_child (tree_at 0 pages') hiy ghi csB ksB LB IB.
Proof using Hp Hnd.
  clear Hxl Hyl Hgfit. intros Hs. assert (Hsame : forall ids, (forall z, (0 < cnt z ids)%nat -> (0 < cnt z ((IA ++ IB) ++ (LA ++ LB).*1))%nat) -> same_at pages pages' ids).
  { intros ids Hids z Hz%cnt_elem. specialize (Hids z Hz). pose proof (Hnd z) as Hz'. cnt_simpl. apply Hs; intros ->; repeat case_decide; try done; lia. }
  split; [eapply before_frame|eapply after_frame]; try apply Hp; apply Hsame; intros z Hz; cnt_simpl; lia.
Qed.

(** The keys of both are between the bounds of the pair, and in order. *)
Lemma leaves_keys : ascending (LeafPage.keys lx ++ LeafPage.keys ly) /\ Forall (within lox hiy) (LeafPage.keys lx ++ LeafPage.keys ly).
Proof using Hp Hgw Hgin Hx Hxk Hy Hyk.
  destruct (pair_inside tree _ _ _ _ _ _ _ _ _ _ _ _ _ _ _ _ _ Hp Hgw Hgin) as [K1 K2]. rewrite list.Forall_forall in Hxk, Hyk. split.
  - apply ascending_app. split_and!; [apply Hx|apply Hy|]. intros a b Ha%Hxk Hb%Hyk. eapply klt_kle_trans; [apply Ha|apply Hb].
  - apply list.Forall_forall. intros a [Ha%Hxk|Ha%Hyk]%elem_of_app; destruct Ha as [A1 A2].
    + split; [done|]. by eapply below_weaken.
    + split; [|done]. destruct lox; [|done]. cbn in *. apply klt_kle. by eapply klt_kle_trans.
Qed.

Lemma two_rebuilt pages' k' lx' ly' bx' by' : (forall z, z <> x -> z <> y -> pages' !! z = pages !! z) -> inside lox hiy k' -> len k' <= max_key_len lay ->
  InternalPage.used_bytes (with_key gp ksA ksB k') <= icap -> leaf_wf lay lx' -> leaf_wf lay ly' -> pages' !! x = Some bx' -> pages' !! y = Some by' -> leaf_is lay bx' lx' -> leaf_is lay by' ly' ->
  Forall (within lox (Some k')) (LeafPage.keys lx') -> Forall (within (Some k') hiy) (LeafPage.keys ly') -> l_next lx' = l_next lx -> l_next ly' = l_next ly ->
  (forall k rid, lives lx' k rid \/ lives ly' k rid <-> lives lx k rid \/ lives ly k rid) -> leaves_rebuilt pages' (with_key gp ksA ksB k').
Proof using Hp Hgw Hgin Hnd.
  intros Hs Hk Hl Hu W1 W2 B1 B2 I1 I2 K1 K2 N1 N2 Hlv. destruct (leaves_around _ Hs) as [A1 A2]. exists [(x, lx'); (y, ly')]. split_and!; [|by apply renewed_two|done].
  change [(x, lx'); (y, ly')] with ([(x, lx')] ++ [(y, ly')]). change (IA ++ IB) with (IA ++ ([] ++ []) ++ IB). eapply moved_fixed; try done.
  - exists lx'. split_and!; try done. split; [by exists bx'|done|done].
  - exists ly'. split_and!; try done. split; [by exists by'|done|done].
Qed.

Lemma with_key_same : with_key gp ksA ksB k = gp.
Proof using Hp. unfold with_key. rewrite <- (pa_keys _ _ _ _ _ _ _ _ _ _ _ _ _ _ _ _ _ Hp). clear. by destruct gp. Qed.

Lemma one_rebuilt lm b : leaf_wf lay lm -> leaf_is lay b lm -> Forall (within lox hiy) (LeafPage.keys lm) -> l_next lm = l_next ly ->
  (forall k rid, lives lm k rid <-> lives lx k rid \/ lives ly k rid) -> leaves_rebuilt (<[x := b]> pages) (without_key csA x csB ksA ksB).
Proof using Hp Hgw Hgin Hgfit Hnd.
  intros W B K N Hl. assert (Hs : forall z, z <> x -> z <> y -> <[x := b]> pages !! z = pages !! z) by (intros z Hz _; by apply lookup_insert_ne).
  destruct (leaves_around _ Hs) as [A1 A2]. exists [(x, lm)]. split_and!; [|by apply renewed_one|done]. change (IA ++ IB) with (IA ++ [] ++ IB). eapply merged_fixed; try done.
  exists lm. split_and!; try done. split; [|done|done]. exists b. by rewrite lookup_insert_eq.
Qed.

(** ** The steps on the pages *)

(** Leaves that hold the same between the same bounds. *)
Record reshuffled (lx' ly' : LeafPage) : Prop := {
  rs_left : leaf_wf lay lx';
  rs_right : leaf_wf lay ly';
  rs_keys : LeafPage.keys lx' ++ LeafPage.keys ly' `sublist_of` LeafPage.keys lx ++ LeafPage.keys ly;
  rs_lives : forall k rid, lives lx' k rid \/ lives ly' k rid <-> lives lx k rid \/ lives ly k rid;
  rs_next : l_next lx' = l_next lx /\ l_next ly' = l_next ly;
}.

Lemma reshuffled_keys lx' ly' : reshuffled lx' ly' ->
  ascending (LeafPage.keys lx' ++ LeafPage.keys ly') /\ Forall (within lox hiy) (LeafPage.keys lx' ++ LeafPage.keys ly').
Proof using Hp Hgw Hgin Hx Hxk Hy Hyk.
  intros H. destruct leaves_keys as [A1 A2]. split; [eapply ascending_sublist; [apply H|done]|eapply Forall_sublist'; [apply H|done]].
Qed.

Lemma merge_runs n p lx' ly' : pool_pages p = pages -> n = length ksA -> reshuffled lx' ly' -> used lx' + used ly' <= EntryArea.capacity (Layout.leaf_area lay) ->
  runs ((m ← BPlusTree.pure (LeafPage.absorb_right lay lx' ly');
         '(_, _, parent) ← BPlusTree.pure (InternalPage.remove_separator lay gp n);
         _ ← BPlusTree.encode_leaf (BE := BE) tree (mkGuard x bx) m;
         mret (Merged, parent)) p) (fun r pages' => leaves_rebuilt pages' r.2).
Proof using Hp Hgw Hgin Hgfit Hnd Hx Hxk Hxb Hxl Hy Hyk Hok Laws.
  clear Hyl. intros Hpool -> Hrs Hu. destruct (reshuffled_keys _ _ Hrs) as [Ha Hw]. apply ascending_app in Ha as (_ & _ & Hlt). destruct Hrs as [R1 R2 R3 R4 [R5 R6]].
  destruct (underfull_small tree Hok) as (_ & Hcap & _). pose proof (entries_used tree lx') as E1. pose proof (entries_used tree ly') as E2.
  destruct (absorb_ok (E := IndexError BE) lay Hok lx' ly' R1 R2 Hlt ltac:(unfold u32_max; lia)) as (lm & Em & W & Hl & N & Ks & Hum).
  rewrite (bind_pure lm) by done. rewrite (bind_pure (k, y, without_key csA x csB ksA ksB)) by (by eapply drop_child_ok).
  eapply runs_bind; [apply (encode_leaf_runs tree Hok); [done|apply Z.ltb_ge; lia|done|cbn; rewrite Hpool; by rewrite Hxb]|].
  intros g p' (b & Hb & Hp'). apply runs_ret. cbn [snd g_id] in *. rewrite Hp', Hpool. eapply one_rebuilt; try done.
  - eapply Forall_sublist'; [exact Ks|done].
  - by rewrite N.
  - intros k' rid'. by rewrite Hl.
Qed.

(** The leaf as it was before it borrowed is written back. *)
Lemma keep_rebuilt pages' bx' by' : (forall z, z <> x -> z <> y -> pages' !! z = pages !! z) -> pages' !! x = Some bx' -> pages' !! y = Some by' ->
  leaf_is lay bx' lx -> leaf_is lay by' ly -> leaves_rebuilt pages' gp.
Proof using Hp Hgw Hgin Hgfit Hnd Hx Hxk Hy Hyk.
  intros Hs B1 B2 I1 I2. destruct (pair_bounds tree _ _ _ _ _ _ _ _ _ _ _ _ _ _ _ _ _ Hp Hgw Hgin) as (_ & _ & _ & Hlk).
  pose proof (two_rebuilt pages' k lx ly bx' by' Hs (pair_inside tree _ _ _ _ _ _ _ _ _ _ _ _ _ _ _ _ _ Hp Hgw Hgin) Hlk) as H.
  rewrite with_key_same in H. apply H; try done.
Qed.

Lemma separator_inside lx' ly' k' : reshuffled lx' ly' -> 0 < used lx' -> LeafPage.first_key ly' = Some k' ->
  inside lox hiy k' /\ len k' <= max_key_len lay /\ Forall (within lox (Some k')) (LeafPage.keys lx') /\ Forall (within (Some k') hiy) (LeafPage.keys ly').
Proof using Hp Hgw Hgin Hx Hxk Hy Hyk.
  intros Hrs Hu Hf. destruct (reshuffled_keys _ _ Hrs) as [Ha Hw]. destruct (used_some lx' Hu) as (a & ks & Ea & _).
  assert (Eb : exists ks', LeafPage.keys ly' = k' :: ks').
  { unfold LeafPage.first_key, LeafPage.keys in *. destruct (l_entries ly') as [|[b r] es]; [done|]. injection Hf as <-. by exists es.*1. }
  destruct Eb as [ks' Eb]. pose proof (w_keys _ _ (rs_right _ _ Hrs)) as Hks. apply ascending_app in Ha as (A1 & A2 & A3). apply Forall_app in Hw as [W1 W2]. rewrite Eb in *.
  apply StronglySorted_inv in A2 as [_ A2]. rewrite list.Forall_forall in W1, W2, A2. split_and!.
  - split; [|apply W2; by left]. assert (Ha : a ∈ LeafPage.keys lx') by (rewrite Ea; by left). specialize (A3 a k' Ha ltac:(by left)). specialize (W1 a Ha) as [W1 _].
    destruct lox; [|done]. cbn in *. by eapply kle_klt_trans.
  - by apply Forall_cons_1 in Hks as [? _].
  - apply list.Forall_forall. intros b Hb. split; [by apply W1|]. apply A3; [done|by left].
  - apply list.Forall_forall. intros b Hb. split; [|by apply W2]. apply list.elem_of_cons in Hb as [->|Hb]; [apply kle_refl|]. by apply klt_kle, A2.
Qed.

Abbreviation lcap := (EntryArea.capacity (Layout.leaf_area lay)).

(** The two leaves are written, either one first. *)
Lemma write_two_runs (first_x : bool) p lx' ly' k' : pool_pages p = pages -> reshuffled lx' ly' -> LeafPage.first_key ly' = Some k' -> 0 < used lx' -> used lx' <= lcap -> used ly' <= lcap ->
  InternalPage.used_bytes (with_key gp ksA ksB k') <= icap ->
  runs ((_ ← (if first_x then BPlusTree.encode_leaf (BE := BE) tree (mkGuard x bx) lx' else BPlusTree.encode_leaf tree (mkGuard y by_) ly');
         _ ← (if first_x then BPlusTree.encode_leaf tree (mkGuard y by_) ly' else BPlusTree.encode_leaf tree (mkGuard x bx) lx');
         mret (Redistributed, with_key gp ksA ksB k')) p) (fun r pages' => leaves_rebuilt pages' r.2).
Proof using Hp Hgw Hgin Hnd Hx Hxk Hxb Hxl Hy Hyk Hyb Hyl Hok Laws.
  intros Hpool Hrs Hf H0 U1 U2 Hfit. destruct (separator_inside lx' ly' k' Hrs H0 Hf) as (K1 & K2 & K3 & K4). destruct Hrs as [R1 R2 R3 R4 [R5 R6]]. pose proof leaves_other as Hxy.
  assert (Hend : forall p2 b1 b2, leaf_is lay b1 lx' -> leaf_is lay b2 ly' -> pool_pages p2 !! x = Some b1 -> pool_pages p2 !! y = Some b2 ->
    (forall z, z <> x -> z <> y -> pool_pages p2 !! z = pages !! z) -> leaves_rebuilt (pool_pages p2) (with_key gp ksA ksB k')) by (intros p2 b1 b2 ? ? ? ? ?; by apply (two_rebuilt _ k' lx' ly' b1 b2)).
  destruct first_x.
  - eapply runs_bind; [apply (encode_leaf_runs tree Hok); [done|by apply Z.ltb_ge|done|cbn; rewrite Hpool; by rewrite Hxb]|]. intros g1 p1 (b1 & Hb1 & Hp1). cbn [g_id] in *.
    eapply runs_bind; [apply (encode_leaf_runs tree Hok); [done|by apply Z.ltb_ge|done|cbn; rewrite Hp1, lookup_insert_ne, Hpool by done; by rewrite Hyb]|]. intros g2 p2 (b2 & Hb2 & Hp2). cbn [g_id] in *.
    apply runs_ret. cbn [snd]. apply (Hend p2 b1 b2 Hb1 Hb2).
    + by rewrite Hp2, lookup_insert_ne, Hp1, lookup_insert_eq by done.
    + by rewrite Hp2, lookup_insert_eq.
    + intros z Z1 Z2. by rewrite Hp2, lookup_insert_ne, Hp1, lookup_insert_ne, Hpool by done.
  - eapply runs_bind; [apply (encode_leaf_runs tree Hok); [done|by apply Z.ltb_ge|done|cbn; rewrite Hpool; by rewrite Hyb]|]. intros g1 p1 (b1 & Hb1 & Hp1). cbn [g_id] in *.
    eapply runs_bind; [apply (encode_leaf_runs tree Hok); [done|by apply Z.ltb_ge|done|cbn; rewrite Hp1, lookup_insert_ne, Hpool by done; by rewrite Hxb]|]. intros g2 p2 (b2 & Hb2 & Hp2). cbn [g_id] in *.
    apply runs_ret. cbn [snd]. apply (Hend p2 b2 b1 Hb2 Hb1).
    + by rewrite Hp2, lookup_insert_eq.
    + by rewrite Hp2, lookup_insert_ne, Hp1, lookup_insert_eq by done.
    + intros z Z1 Z2. by rewrite Hp2, lookup_insert_ne, Hp1, lookup_insert_ne, Hpool by done.
Qed.

(** The new separator, where the parent has room for it; [is_x]: the left leaf is the one
    that borrowed. *)
Lemma move_runs (is_x : bool) n p lx' ly' k' : pool_pages p = pages -> n = length ksA -> reshuffled lx' ly' -> LeafPage.first_key ly' = Some k' -> 0 < used lx' ->
  used lx' <= lcap -> used ly' <= lcap -> (if is_x then leaf_is lay by_ ly /\ used lx <= lcap else leaf_is lay bx lx /\ used ly <= lcap) ->
  runs ((fits ← BPlusTree.pure (InternalPage.fits_replacing gp n k');
         if negb fits then
           _ ← (if is_x then BPlusTree.encode_leaf (BE := BE) tree (mkGuard x bx) lx else BPlusTree.encode_leaf tree (mkGuard y by_) ly);
           mret (Kept, gp)
         else
           '(_, parent) ← BPlusTree.pure (InternalPage.replace_key lay gp n k');
           _ ← (if is_x then BPlusTree.encode_leaf tree (mkGuard y by_) ly' else BPlusTree.encode_leaf tree (mkGuard x bx) lx');
           _ ← (if is_x then BPlusTree.encode_leaf tree (mkGuard x bx) lx' else BPlusTree.encode_leaf tree (mkGuard y by_) ly');
           mret (Redistributed, parent)) p) (fun r pages' => leaves_rebuilt pages' r.2).
Proof using Hp Hgw Hgin Hgfit Hnd Hx Hxk Hxb Hxl Hy Hyk Hyb Hyl Hok Laws.
  intros Hpool -> Hrs Hf H0 U1 U2 Hkeep. rewrite (bind_pure (InternalPage.used_bytes (with_key gp ksA ksB k') <=? icap)) by (by eapply fits_ok).
  destruct (separator_inside lx' ly' k' Hrs H0 Hf) as (K1 & K2 & _). pose proof leaves_other as Hxy.
  destruct (Z.leb_spec (InternalPage.used_bytes (with_key gp ksA ksB k')) icap) as [Hfit|_]; cbn [negb].
  - rewrite (bind_pure (k, with_key gp ksA ksB k')) by (by eapply replace_ok). pose proof (write_two_runs (negb is_x) p lx' ly' k' Hpool Hrs Hf H0 U1 U2 Hfit) as Hw. by destruct is_x.
  - destruct is_x; destruct Hkeep as [Hk Hu].
    + eapply runs_bind; [apply (encode_leaf_runs tree Hok); [done|by apply Z.ltb_ge|done|cbn; rewrite Hpool; by rewrite Hxb]|]. intros g1 p1 (b1 & Hb1 & Hp1). cbn [g_id] in *.
      apply runs_ret. cbn [snd]. rewrite Hp1, Hpool. eapply keep_rebuilt; [|by rewrite lookup_insert_eq|rewrite lookup_insert_ne by done; exact Hyb|done|done].
      intros z Z1 _. by apply lookup_insert_ne.
    + eapply runs_bind; [apply (encode_leaf_runs tree Hok); [done|by apply Z.ltb_ge|done|cbn; rewrite Hpool; by rewrite Hyb]|]. intros g1 p1 (b1 & Hb1 & Hp1). cbn [g_id] in *.
      apply runs_ret. cbn [snd]. rewrite Hp1, Hpool. eapply keep_rebuilt; [|rewrite lookup_insert_ne by done; exact Hxb|by rewrite lookup_insert_eq|done|done].
      intros z _ Z2. by apply lookup_insert_ne.
Qed.

End pair.
(** ** The leaf and its sibling, whichever it is *)

Lemma leaf_bytes pages pid lo hi p : leaf_at pages pid lo hi p -> exists b, pages !! pid = Some b /\ leaf_is lay b p /\ leaf_wf lay p /\ len b = PAGE_SIZE /\
  Forall (within lo hi) (LeafPage.keys p) /\ used p <= EntryArea.capacity (Layout.leaf_area lay).
Proof using.
  intros [(b & Hb & His) Hw Hk]. exists b. split_and!; try done; [apply (n_len _ _ _ _ (v_node _ _ _ His))|by eapply leaf_fits].
Qed.

Definition leaf_rebalanced (pages : gmap PageId bytes) (gp : InternalPage) (glo ghi : bound) (M : leaves) (I : list PageId) (gp' : InternalPage) (pages' : gmap PageId bytes) : Prop :=
  exists M' I', fixed tree (tree_at 0 pages') gp gp' glo ghi M' I' /\ renewed M M' /\ (forall z, (cnt z I' <= cnt z I)%nat) /\
    (forall z, cnt z M.*1 = 0%nat -> pages' !! z = pages !! z).

Section leaf.
Context (pages : gmap PageId bytes) (gpid : PageId) (glo ghi : bound) (gp : InternalPage) (gb : bytes) (c : PageId) (cs1 cs2 : list PageId) (ks1 ks2 : list IndexKey).
Context (lo1 hi1 : bound) (Lb La : leaves) (Ib Ia : list PageId) (lf : LeafPage) (b0 : bytes).
Context (Hgp : node_at pages gpid glo ghi gp gb) (Hcs : i_children gp = cs1 ++ c :: cs2) (Hks : i_keys gp = ks1 ++ ks2).
Context (Hb : before_child (tree_at 0 pages) glo cs1 ks1 lo1 Lb Ib) (Ha : after_child (tree_at 0 pages) hi1 ghi cs2 ks2 La Ia).
Context (Hc : pages !! c = Some b0) (Hcl : len b0 = PAGE_SIZE) (Hw : leaf_wf lay lf) (Hk : Forall (within lo1 hi1) (LeafPage.keys lf)) (Hun : used lf < lmin).
Context (Hnd : forall z, (cnt z ((Ib ++ Ia) ++ (Lb ++ (c, lf) :: La).*1) <= 1)%nat).

Lemma alone_runs p : pool_pages p = pages -> cs1 = [] -> cs2 = [] -> runs ((_ ← BPlusTree.encode_leaf (BE := BE) tree (mkGuard c b0) lf; mret (Kept, gp)) p)
  (fun r pages' => leaf_rebalanced pages gp glo ghi (Lb ++ (c, lf) :: La) (Ib ++ Ia) r.2 pages').
Proof using Laws Hok Hgp Hcs Hks Hb Ha Hc Hcl Hw Hk Hun.
  clear Hnd. intros Hpool -> ->. destruct (underfull_small tree Hok) as (Hs & _ & _). pose proof (internal_fits tree _ _ (na_bytes _ _ _ _ _ _ _ Hgp) (na_wf _ _ _ _ _ _ _ Hgp)) as Hfit.
  pose proof (leaf_max_pos tree Hok) as Hmx.
  destruct (internal_small tree Hok) as (_ & _ & Hix).
  eapply runs_bind; [apply (encode_leaf_runs tree Hok); [done|apply Z.ltb_ge; lia|done|cbn; rewrite Hpool; by rewrite Hc]|]. intros g1 p1 (b1 & Hb1 & Hp1). cbn [g_id] in *.
  apply runs_ret. cbn [snd]. rewrite Hp1, Hpool. inversion Hb; subst. inversion Ha as [|? ? ? ? ? ? Hch]; subst; [|inversion Hch]. destruct Hgp as [_ Hgb Hgw Hgk]. exists [(c, lf)], []. split_and!; [|done|done|].
  - split; [done|done|by apply Z.ltb_ge|lia|]. rewrite Hcs, Hks. constructor. exists lf. split_and!; try done. split; [|done|done]. exists b1. by rewrite lookup_insert_eq.
  - intros z Hz. apply lookup_insert_ne. intros ->. cbn in Hz. rewrite decide_True in Hz by done. lia.
Qed.

(** The sibling to the right. *)
Lemma right_runs p s k ks3 cs3 hiy ls bs LB IB idx : pool_pages p = pages -> La = (s, ls) :: LB -> Ia = IB -> hi1 = Some k -> idx = length ks1 ->
  pages !! s = Some bs -> leaf_is lay bs ls -> leaf_at pages s (Some k) hiy ls -> pair_at (tree_at 0 pages) gp glo ghi cs1 c s cs3 ks1 k ks3 lo1 hiy Lb LB Ib IB ->
  runs (('(leaf, sibling) ← BPlusTree.pure (BPlusTree.borrow_loop tree (S (length (l_entries ls))) true lf ls);
      if LeafPage.is_underfull lay leaf then
        leaf ← BPlusTree.pure (LeafPage.absorb_right lay leaf sibling);
        '(_, _, parent) ← BPlusTree.pure (InternalPage.remove_separator lay gp idx);
        _ ← BPlusTree.encode_leaf (BE := BE) tree (mkGuard c b0) leaf;
        mret (Merged, parent)
      else
        '(separator_idx, new_separator) ← BPlusTree.pure (k ← ok_or (LeafPage.first_key sibling) EMPTY_SIBLING; Ok (idx, k));
        fits ← BPlusTree.pure (InternalPage.fits_replacing gp separator_idx new_separator);
        if negb fits then
          _ ← BPlusTree.encode_leaf tree (mkGuard c b0) lf;
          mret (Kept, gp)
        else
          '(_, parent) ← BPlusTree.pure (InternalPage.replace_key lay gp separator_idx new_separator);
          _ ← BPlusTree.encode_leaf tree (mkGuard s bs) sibling;
          _ ← BPlusTree.encode_leaf tree (mkGuard c b0) leaf;
          mret (Redistributed, parent)) p)
    (fun r pages' => leaf_rebalanced pages gp glo ghi (Lb ++ (c, lf) :: La) (Ib ++ Ia) r.2 pages').
Proof using Laws Hok Hgp Hc Hcl Hw Hk Hun Hnd.
  intros Hpool EL EI Ehi -> Hs His Hat Hpair. destruct (leaf_bytes _ _ _ _ _ Hat) as (bs' & Hs' & _ & Hlw & Hsl & Hsk & Hsu). assert (bs' = bs) as -> by congruence.
  pose proof (internal_fits tree _ _ (na_bytes _ _ _ _ _ _ _ Hgp) (na_wf _ _ _ _ _ _ _ Hgp)) as Hfit. destruct Hgp as [_ _ Hgw Hgk]. rewrite Ehi in Hk.
  assert (Hndp : forall z, (cnt z ((Ib ++ IB) ++ (Lb ++ [(c, lf); (s, ls)] ++ LB).*1) <= 1)%nat) by (intros z; specialize (Hnd z); rewrite EL, EI in Hnd; cnt_simpl; lia).
  destruct (leaves_keys _ _ _ _ _ _ _ _ _ _ _ _ _ _ _ _ _ Hpair Hgw Hgk lf ls Hw Hk Hlw Hsk) as [Hasc _].
  destruct (underfull_small tree Hok) as (Hs1 & Hs2 & Hs3). pose proof (leaf_max_pos tree Hok) as Hmx. pose proof (double_min tree Hok) as Hdm.
  destruct (borrow_ok (BE := BE) tree Hok true (S (length (l_entries ls))) lf ls ltac:(lia) Hw Hlw Hasc ltac:(lia)) as (lf' & ls' & Eb & [B1 B2 B3 B4 [B5 B5'] B6 B7 B8 B9]).
  rewrite (bind_pure (lf', ls')) by done. cbn [pair_keys] in B3. assert (Hrs : reshuffled lf ls lf' ls') by (by split).
  assert (Hend : forall (gp' : InternalPage) pages', leaves_rebuilt pages gp glo ghi c s Lb LB Ib IB lf ls pages' gp' -> leaf_rebalanced pages gp glo ghi (Lb ++ (c, lf) :: La) (Ib ++ Ia) gp' pages').
  { intros gp' pages' (M' & F1 & F2 & F3). exists (Lb ++ M' ++ LB), (Ib ++ IB). rewrite EL, EI. split_and!; [done| |done|].
    - exact (renewed_around Lb _ M' LB F2).
    - intros z Hz. apply F3; intros ->; cnt_simpl; repeat case_decide; try done; lia. }
  unfold LeafPage.is_underfull in *. destruct (Z.ltb_spec (used lf') lmin) as [Hu|Hu].
  - destruct B8 as [B8|B8]; [done|]. pose proof (leaf_lends_none ls' First B2 B8).
    eapply runs_mono; [apply (merge_runs _ _ _ _ _ _ _ _ _ _ _ _ _ _ _ _ _ Hpair Hgw Hgk Hfit lf ls b0 Hw Hk Hc Hcl Hlw Hsk Hndp); try done; lia|]. intros r pages' Hr. by apply Hend.
  - destruct B9 as [B9|[-> ->]]; [|lia]. destruct (used_some ls' ltac:(lia)) as (k' & ks' & _ & Ef). rewrite (bind_pure (length ks1, k')) by (by rewrite Ef).
    eapply runs_mono; [eapply (move_runs _ _ _ _ _ _ _ _ _ _ _ _ _ _ _ _ _ Hpair Hgw Hgk Hfit lf ls b0 bs Hw Hk Hc Hcl Hlw Hsk Hs Hsl Hndp true); try done; [lia|lia|lia|split; [done|lia]]|].
    intros r pages' Hr. by apply Hend.
Qed.

(** The sibling to the left. *)
Lemma left_runs p s k ks0 cs0 lo0 ls bs LA IA idx : pool_pages p = pages -> Lb = LA ++ [(s, ls)] -> Ib = IA -> lo1 = Some k -> idx = length ks0 ->
  pages !! s = Some bs -> leaf_is lay bs ls -> leaf_at pages s lo0 (Some k) ls -> pair_at (tree_at 0 pages) gp glo ghi cs0 s c cs2 ks0 k ks2 lo0 hi1 LA La IA Ia ->
  runs (('(leaf, sibling) ← BPlusTree.pure (BPlusTree.borrow_loop tree (S (length (l_entries ls))) false lf ls);
      if LeafPage.is_underfull lay leaf then
        sibling ← BPlusTree.pure (LeafPage.absorb_right lay sibling leaf);
        '(_, _, parent) ← BPlusTree.pure (InternalPage.remove_separator lay gp idx);
        _ ← BPlusTree.encode_leaf (BE := BE) tree (mkGuard s bs) sibling;
        mret (Merged, parent)
      else
        '(separator_idx, new_separator) ← BPlusTree.pure (k ← ok_or (LeafPage.first_key leaf) EMPTY_SIBLING; Ok (idx, k));
        fits ← BPlusTree.pure (InternalPage.fits_replacing gp separator_idx new_separator);
        if negb fits then
          _ ← BPlusTree.encode_leaf tree (mkGuard c b0) lf;
          mret (Kept, gp)
        else
          '(_, parent) ← BPlusTree.pure (InternalPage.replace_key lay gp separator_idx new_separator);
          _ ← BPlusTree.encode_leaf tree (mkGuard s bs) sibling;
          _ ← BPlusTree.encode_leaf tree (mkGuard c b0) leaf;
          mret (Redistributed, parent)) p)
    (fun r pages' => leaf_rebalanced pages gp glo ghi (Lb ++ (c, lf) :: La) (Ib ++ Ia) r.2 pages').
Proof using Laws Hok Hgp Hc Hcl Hw Hk Hun Hnd.
  intros Hpool EL EI Elo -> Hs His Hat Hpair. destruct (leaf_bytes _ _ _ _ _ Hat) as (bs' & Hs' & _ & Hlw & Hsl & Hsk & Hsu). assert (bs' = bs) as -> by congruence.
  pose proof (internal_fits tree _ _ (na_bytes _ _ _ _ _ _ _ Hgp) (na_wf _ _ _ _ _ _ _ Hgp)) as Hfit. destruct Hgp as [_ _ Hgw Hgk]. rewrite Elo in Hk.
  assert (Hndp : forall z, (cnt z ((IA ++ Ia) ++ (LA ++ [(s, ls); (c, lf)] ++ La).*1) <= 1)%nat) by (intros z; specialize (Hnd z); rewrite EL, EI in Hnd; cnt_simpl; lia).
  destruct (leaves_keys _ _ _ _ _ _ _ _ _ _ _ _ _ _ _ _ _ Hpair Hgw Hgk ls lf Hlw Hsk Hw Hk) as [Hasc _].
  destruct (underfull_small tree Hok) as (Hs1 & Hs2 & Hs3). pose proof (leaf_max_pos tree Hok) as Hmx. pose proof (double_min tree Hok) as Hdm.
  destruct (borrow_ok (BE := BE) tree Hok false (S (length (l_entries ls))) lf ls ltac:(lia) Hw Hlw Hasc ltac:(lia)) as (lf' & ls' & Eb & [B1 B2 B3 B4 [B5 B5'] B6 B7 B8 B9]).
  rewrite (bind_pure (lf', ls')) by done. cbn [pair_keys] in B3. assert (Hrs : reshuffled ls lf ls' lf') by (split; try done; intros k0 r0; specialize (B4 k0 r0); tauto).
  assert (Hend : forall (gp' : InternalPage) pages', leaves_rebuilt pages gp glo ghi s c LA La IA Ia ls lf pages' gp' -> leaf_rebalanced pages gp glo ghi (Lb ++ (c, lf) :: La) (Ib ++ Ia) gp' pages').
  { intros gp' pages' (M' & F1 & F2 & F3). exists (LA ++ M' ++ La), (IA ++ Ia). rewrite EL, EI. split_and!; [done| |done|].
    - rewrite <- app_assoc. exact (renewed_around LA _ M' La F2).
    - intros z Hz. apply F3; intros ->; cnt_simpl; repeat case_decide; try done; lia. }
  unfold LeafPage.is_underfull in *. destruct (Z.ltb_spec (used lf') lmin) as [Hu|Hu].
  - destruct B8 as [B8|B8]; [done|]. pose proof (leaf_lends_none ls' Last B2 B8).
    eapply runs_mono; [apply (merge_runs _ _ _ _ _ _ _ _ _ _ _ _ _ _ _ _ _ Hpair Hgw Hgk Hfit ls lf bs Hlw Hsk Hs Hsl Hw Hk Hndp); try done; lia|]. intros r pages' Hr. by apply Hend.
  - destruct B9 as [B9|[-> ->]]; [|lia]. destruct (used_some lf' ltac:(lia)) as (k' & ks' & _ & Ef). rewrite (bind_pure (length ks0, k')) by (by rewrite Ef).
    eapply runs_mono; [eapply (move_runs _ _ _ _ _ _ _ _ _ _ _ _ _ _ _ _ _ Hpair Hgw Hgk Hfit ls lf bs b0 Hlw Hsk Hs Hsl Hw Hk Hc Hcl Hndp false); try done; [lia|lia|lia|split; [done|lia]]|].
    intros r pages' Hr. by apply Hend.
Qed.

Lemma rebalance_leaf_runs key p : pool_pages p = pages -> within lo1 hi1 key ->
  runs (BPlusTree.rebalance_leaf (BE := BE) tree key lf (mkGuard c b0) gp p) (fun r pages' =>
    leaf_rebalanced pages gp glo ghi (Lb ++ (c, lf) :: La) (Ib ++ Ia) r.2 pages').
Proof using Laws Hok Hgp Hcs Hks Hb Ha Hc Hcl Hw Hk Hun Hnd.
  intros Hpool Hin. unfold BPlusTree.rebalance_leaf. rewrite (child_index tree _ _ _ _ _ _ _ _ _ _ _ _ _ _ _ _ _ _ key Hgp Hcs Hks Hb Ha Hin).
  pose proof (sibling_cases _ _ _ _ _ _ _ _ _ _ _ _ _ _ _ Hcs Hks Hb Ha) as Hsib. destruct (BPlusTree.sibling_of gp (length ks1)) as [[i s]|].
  2:{ destruct Hsib as [E1 E2]. by apply alone_runs. }
  pose proof (lo_cap' tree Hok) as Hcap. pose proof (lo_room' tree Hok) as Hroom.
  destruct Hsib as [(k & ks3 & cs3 & hiy & Ls & Is & LB & IB & Hlt & EL & EI & Ehi & Hs & Hpair)|(k & ks0 & cs0 & lo0 & Ls & Is & LA & IA & Hlt & -> & EL & EI & Elo & Hs & Hpair)];
    destruct Hs as (ls & Hls & -> & ->); destruct (leaf_bytes _ _ _ _ _ Hls) as (bs & Hbs & His & Hlw & _);
    (eapply runs_bind; [apply gives_runs, read_page_gives; rewrite Hpool; exact Hbs|]); intros g p1 [-> Hp1]; cbn [g_data]; rewrite Hpool in Hp1;
    rewrite (bind_coded ls) by (by eapply decode_leaf); rewrite Hlt; cbn zeta iota.
  - by eapply right_runs.
  - rewrite app_nil_r in EI. eapply (left_runs p1 s k ks0 cs0 lo0 ls bs LA IA); done.
Qed.

End leaf.
End rebalance.
