(* ===== verification/BPlusTreeRemove.v ===== *)
(** * Removing from a B+ tree

    The loop that takes an underfull page up the latched path; the leaf a remove changes; the
    header of a tree that gets empty; and the whole operation: the key is deleted from the map
    the tree holds, or was not in it and nothing changed. *)

From Stdlib Require Import ZArith Lia String Sorted.
From stdpp Require Import base list numbers option gmap.
From S2P Require Import Prelude Bytes Ids Buf TableHeap Str Slotted BPlusPage PageView BPlusKeys PageViewProofs LeafContents.
From S2P Require Import LeafContents LeafViewProofs PageCodecProofs BPlusSplit InternalOps BPlusTree BPlusTreeInv BPlusTreeWalk BPlusTreeSplit BPlusTreeLatch.
From S2P Require Import BPlusTreeInsert BPlusTreeGrow LeafMerge BPlusTreeBorrow BPlusTreeRebalance BPlusTreeRebalanceLeaf.

Local Open Scope Z_scope.

Section remove.
Context (tree : BPlusTree) (Hok : layout_ok (layout tree)).
Context {P BE : Type} {Pool : PagePool P BE} {Laws : PagePoolLaws P BE}.

Abbreviation lay := (layout tree).
Abbreviation tree_at := (tree_at lay).
Abbreviation leaf_at := (leaf_at lay).
Abbreviation node_at := (node_at lay).
Abbreviation way := (way tree).
Abbreviation hdr := (header_page_id tree).
Abbreviation iused := InternalPage.used_bytes.
Abbreviation imin := (Layout.internal_min_used lay).
Abbreviation imax := (Layout.internal_max_entry_bytes lay).

(** ** The end of a way *)

Lemma way_nil pages h pid lo hi h' q lo' hi' L1 L2 I1 I2 : way pages h pid lo hi h' q lo' hi' [] L1 L2 I1 I2 ->
  h' = h /\ q = pid /\ lo' = lo /\ hi' = hi /\ L1 = [] /\ L2 = [] /\ I1 = [] /\ I2 = [].
Proof using. intros H. remember ([] : list PageMut) as W eqn:E. destruct H; [done|]. by apply app_nil in E as [_ ?]. Qed.

Lemma way_top pages h pid lo hi h' q lo' hi' ws L1 L2 I1 I2 : way pages h pid lo hi h' q lo' hi' ws L1 L2 I1 I2 -> ws = [] \/ (0 < cnt pid I1)%nat.
Proof using. destruct 1; [by left|right]. cnt_simpl. rewrite decide_True by done. lia. Qed.

(** The last page above the end of a way, with what is around the child. *)
Lemma way_last pages h pid lo hi h' q lo' hi' g ws L1 L2 I1 I2 : way pages h pid lo hi h' q lo' hi' (g :: ws) L1 L2 I1 I2 ->
  exists p cs1 cs2 ks1 ks2 loq hiq Lb La Ib Ia L1' L2' I1' I2', way pages h pid lo hi (S h') (g_id g) loq hiq ws L1' L2' I1' I2' /\
    node_at pages (g_id g) loq hiq p (g_data g) /\ i_children p = cs1 ++ q :: cs2 /\ i_keys p = ks1 ++ ks2 /\
    before_child (tree_at h' pages) loq cs1 ks1 lo' Lb Ib /\ after_child (tree_at h' pages) hi' hiq cs2 ks2 La Ia /\
    L1 = L1' ++ Lb /\ L2 = La ++ L2' /\ I1 = I1' ++ g_id g :: Ib /\ I2 = Ia ++ I2'.
Proof using.
  intros H. remember (g :: ws) as W eqn:EW. revert g ws EW.
  induction H as [|h pid lo hi p b c cs1 cs2 ks1 ks2 lo1 hi1 Lb Ib La Ia h' q lo' hi' ws0 L1 L2 I1 I2 Hn Hcs Hks Hb Ha Hw IH]; intros g ws EW; [done|].
  destruct ws0 as [|g0 ws0].
  - cbn in EW. injection EW as <- <-. apply way_nil in Hw as (-> & -> & -> & -> & -> & -> & -> & ->).
    exists p, cs1, cs2, ks1, ks2, lo, hi, Lb, La, Ib, Ia, [], [], [], []. rewrite !app_nil_r. split_and!; try done. constructor.
  - cbn [app] in EW. injection EW as -> <-. destruct (IH g ws0 eq_refl) as (p' & cs1' & cs2' & ks1' & ks2' & loq & hiq & Lb' & La' & Ib' & Ia' & L1' & L2' & I1' & I2' & W & Hn' & E1 & E2 & Hb' & Ha' & -> & -> & -> & ->).
    exists p', cs1', cs2', ks1', ks2', loq, hiq, Lb', La', Ib', Ia', (Lb ++ L1'), (L2' ++ La), (pid :: Ib ++ I1'), (I2' ++ Ia). split_and!; try done.
    + by econstructor.
    + by rewrite app_assoc.
    + by rewrite app_assoc.
    + cbn [app]. by rewrite <- app_assoc.
    + by rewrite app_assoc.
Qed.

(** ** Safe pages *)

(** A page that stays full enough without one of its longest entries. *)
Definition sturdy (b : bytes) : Prop :=
  (exists p, leaf_is lay b p /\ leaf_wf lay p /\ Layout.leaf_min_used lay <= LeafPage.used_bytes lay p - Layout.leaf_max_entry_bytes lay) \/
  (exists p, internal_is b p /\ internal_wf lay p /\ imin <= iused p - imax).

Lemma leaf_underflow {E} b p : leaf_is lay b p -> leaf_wf lay p -> exists s, @LeafPageView.may_underflow_on_remove lay E b = Ok s /\
  (s = false <-> Layout.leaf_min_used lay <= LeafPage.used_bytes lay p - Layout.leaf_max_entry_bytes lay).
Proof using Hok.
  intros Hb Hw. unfold LeafPageView.may_underflow_on_remove, LeafPageView.used_bytes. rewrite (view_size lay (lo_cap' tree Hok) (lo_room' tree Hok) b p Hb Hw). cbn [mbind outcome_bind].
  pose proof (SlottedProofs.used_ok (E := E) _ b _ (v_entries _ _ _ Hb)) as Eu. rewrite entries_length, <- (used_is lay) in Eu. rewrite Eu. cbn [mbind outcome_bind]. eexists. split; [done|].
  destruct (underfull_small tree Hok) as (_ & _ & Hmin). unfold saturating_sub. rewrite Z.ltb_ge. lia.
Qed.

Lemma safe_remove_leaf b p : leaf_is lay b p -> leaf_wf lay p -> exists s, @BPlusTree.safe_for_remove BE tree NLeaf b = Ok s /\ (s = true -> sturdy b).
Proof using Hok.
  intros Hb Hw. unfold BPlusTree.safe_for_remove. cbn [NodeView.may_underflow_on_remove]. destruct (leaf_underflow (E := IndexError BE) b p Hb Hw) as (s & -> & Hs).
  cbn [mbind outcome_bind]. eexists. split; [done|]. intros Hn%negb_true_iff. left. exists p. split_and!; [done|done|by apply Hs].
Qed.

Lemma safe_remove_internal b p : internal_is b p -> internal_wf lay p -> exists s, @BPlusTree.safe_for_remove BE tree NInternal b = Ok s /\ (s = true -> sturdy b).
Proof using Hok.
  intros Hb Hw. unfold BPlusTree.safe_for_remove. cbn [NodeView.may_underflow_on_remove]. unfold InternalPageView.may_underflow_on_remove, InternalPageView.used_bytes.
  rewrite (iview_size b p Hb). cbn [mbind outcome_bind]. pose proof (SlottedProofs.used_ok (E := IndexError BE) _ b _ (iv_entries _ _ Hb)) as Eu.
  rewrite (ientries_length lay p Hw), <- (iused_is lay p Hw) in Eu. change Layout.internal_area with INTERNAL_AREA. rewrite Eu. cbn [mbind outcome_bind]. eexists. split; [done|].
  intros Hs%negb_true_iff%Z.ltb_ge. right. exists p. split_and!; [done|done|]. destruct (internal_small tree Hok) as (_ & Hmin & _). unfold saturating_sub in Hs. lia.
Qed.

(** ** Up the latched path *)

Section loop.
Context (ctx : TreeContext) (hd : HeaderPage) (hb : bytes) (root : PageId) (hr d : nat) (m : gmap IndexKey RecordId) (key : IndexKey) (ws1 : list PageMut).
Context (Hroot : root_page_id hd = Some root) (Hctx : c_root ctx = root) (Hd : (hr < d)%nat).

(** The page that was changed last, in its place in the tree. *)
Record placed (pages : gmap PageId bytes) (h : nat) (pid : PageId) (lo hi : bound) (p : InternalPage) (b : bytes) (ws : list PageMut) (L1 L L2 : leaves) (I1 I I2 : list PageId) : Prop := {
  pl_header : header_at tree pages hb hd;
  pl_way : way pages hr root None None (S h) pid lo hi (ws ++ ws1) L1 L2 I1 I2;
  pl_node : node_at pages pid lo hi p b;
  pl_chain : chain (tree_at h pages) lo hi (i_children p) (i_keys p) L I;
  pl_key : within lo hi key;
  pl_nodup : forall z, (cnt z (hdr :: (I1 ++ (pid :: I) ++ I2) ++ (L1 ++ L ++ L2).*1) <= 1)%nat;
  pl_linked : linked (L1 ++ L ++ L2) None;
  pl_first : first_leaf_id hd = first_id (L1 ++ L ++ L2) None;
  pl_entries : entries_are (L1 ++ L ++ L2) m;
}.

Lemma placed_holds pages h pid lo hi p b ws L1 L L2 I1 I I2 : placed pages h pid lo hi p b ws L1 L L2 I1 I I2 -> tree_holds tree d pages m.
Proof using Hroot Hd.
  intros [H1 H2 H3 H4 H5 H6 H7 H8 H9]. exists hb, hd. split; [done|]. rewrite Hroot. exists (L1 ++ L ++ L2), (I1 ++ (pid :: I) ++ I2). split; [|done]. split; [|done|done|by apply cnt_nodup].
  exists hr. split; [done|]. eapply way_plug; [exact H2|]. by exists p, b, I.
Qed.

(** The highest latched page will be full enough. *)
Definition firm (ws : list PageMut) (p : InternalPage) : Prop :=
  match list.last ws with Some t => sturdy (g_data t) | None => InternalPage.is_underfull lay p = false end.

Lemma root_alone pages h pid lo hi p b ws L1 L L2 I1 I I2 : placed pages h pid lo hi p b ws L1 L L2 I1 I I2 -> pid = root \/ ws ++ ws1 = [] ->
  ws = [] /\ ws1 = [] /\ pid = root /\ S h = hr /\ lo = None /\ hi = None /\ L1 = [] /\ L2 = [] /\ I1 = [] /\ I2 = [].
Proof using.
  clear Hroot Hctx Hd. intros [H1 H2 H3 H4 H5 H6 H7 H8 H9] Hor. assert (E : ws ++ ws1 = []).
  { destruct Hor as [->|E]; [|done]. destruct (way_top _ _ _ _ _ _ _ _ _ _ _ _ _ _ H2) as [E|Hc]; [done|]. specialize (H6 root). cnt_simpl. repeat case_decide; try done; lia. }
  rewrite E in H2. apply app_nil in E as [-> ->]. apply way_nil in H2. naive_solver.
Qed.

(** A root with one child gives way to it. *)
Lemma collapse_runs h p b L I only pl : placed (pool_pages pl) h root None None p b [] [] L [] [] I [] -> S h = hr -> i_children p = [only] -> c_header ctx = Some (mkGuard hdr hb) ->
  runs ((header_page ← BPlusTree.pure (ok_or (c_header ctx) (HEADER_LATCH_RELEASED (BE := BE)));
         _ ← BPlusTree.store_header header_page (mkHeader (Some only) (first_leaf_id hd) (h_max_key_len hd)); mret tt) pl) (fun _ pages => tree_holds tree d pages m).
Proof using Laws Hd.
  clear Hroot Hctx. intros [H1 H2 H3 H4 H5 H6 H7 H8 H9] Eh Ec Hch. rewrite (bind_pure (mkGuard hdr hb)) by (by rewrite Hch). cbn [app] in *. rewrite app_nil_r in *.
  pose proof H1 as (Hp & Hh & Hw & Hmax). pose proof (iw_ids _ _ (na_wf _ _ _ _ _ _ _ H3)) as Hids. rewrite Ec in Hids, H4. apply Forall_cons_1 in Hids as [Hids _].
  eapply runs_bind; [apply (store_header_runs tree (pool_pages pl) hb hd); [done|done|done|apply Hw]|]. intros g p1 (hb' & Hh' & Hp1). apply runs_ret.
  eexists hb', _. split; [exact Hh'|]. cbn [root_page_id]. exists L, I. split; [|done]. inversion H4 as [c lo hi L' I' HR|c cs k ks lo hi La Ia Lb Ib HR Hcc]; subst; [|by inversion Hcc]. split; [|done|done|].
  - exists h. split; [lia|]. pose proof (H6 hdr) as Hz. cnt_simpl. rewrite decide_True in Hz by done.
    eapply tree_frame; [exact HR| |]; rewrite Hp1; apply same_insert; rewrite cnt_elem; lia.
  - apply cnt_nodup. intros z. specialize (H6 z). cnt_simpl. lia.
Qed.

(** The page above the children that were rebalanced, written. *)
Lemma placed_parent pages pages1 h g gp gp' b glo ghi ws L1 M M' L2 I1 I I' I2 : header_at tree pages hb hd ->
  way pages hr root None None (S h) (g_id g) glo ghi (ws ++ ws1) L1 L2 I1 I2 -> fixed tree (tree_at h pages1) gp gp' glo ghi M' I' -> within glo ghi key ->
  (forall z, (cnt z (hdr :: (I1 ++ (g_id g :: I) ++ I2) ++ (L1 ++ M ++ L2).*1) <= 1)%nat) ->
  linked (L1 ++ M ++ L2) None -> first_leaf_id hd = first_id (L1 ++ M ++ L2) None -> entries_are (L1 ++ M ++ L2) m ->
  renewed M M' -> (forall z, (cnt z I' <= cnt z I)%nat) -> (forall z, cnt z (I ++ M.*1) = 0%nat -> pages1 !! z = pages !! z) -> internal_is b gp' ->
  placed (<[g_id g := b]> pages1) h (g_id g) glo ghi gp' b ws L1 M' L2 I1 I' I2.
Proof using.
  clear Hroot Hctx Hd. intros Hh Hw [X1 X2 X3 X4 X5] Hkey Hnd Hl Hf He Hr Hcnt Hsame Hb. pose proof (renewed_around L1 M M' L2 Hr) as Hra.
  assert (Hrest : forall ids, (forall z, (0 < cnt z ids)%nat -> (0 < cnt z (hdr :: (I1 ++ I2) ++ (L1 ++ L2).*1))%nat) -> same_at pages (<[g_id g := b]> pages1) ids).
  { intros ids Hids z Hz%cnt_elem. specialize (Hids z Hz). rewrite lookup_insert_ne; [apply Hsame; specialize (Hnd z); cnt_simpl; lia|]. intros <-. specialize (Hnd (g_id g)). cnt_simpl.
    rewrite (decide_True (P := g_id g = g_id g)) in Hnd by done. lia. }
  assert (Hnew : (cnt (g_id g) (I' ++ M'.*1) = 0)%nat).
  { specialize (Hnd (g_id g)). specialize (Hcnt (g_id g)). pose proof (rn_ids _ _ Hr (g_id g)). cnt_simpl. rewrite (decide_True (P := g_id g = g_id g)) in Hnd by done. lia. }
  split.
  - eapply header_kept; [exact Hh|]. apply (Hrest [hdr]); [|by left]. intros z Hz. cnt_simpl. lia.
  - eapply way_frame; [exact Hw| |]; apply Hrest; intros z Hz; cnt_simpl; lia.
  - split; [by rewrite lookup_insert_eq|done|done|done].
  - eapply chain_frame; [exact X5| |]; apply same_insert; rewrite cnt_elem; cnt_simpl; lia.
  - done.
  - intros z. specialize (Hnd z). specialize (Hcnt z). pose proof (rn_ids _ _ Hr z). cnt_simpl. lia.
  - by apply Hra.
  - by rewrite (rn_first _ _ Hra).
  - by eapply renewed_entries.
Qed.

(** One step up: the page and its sibling are rebalanced and their parent is written. *)
Lemma step_runs {A} (k : Rebalance -> InternalPage -> PageMut -> M P (IndexError BE) A) (R : A -> gmap PageId bytes -> Prop) h pid lo hi node b g ws L1 L L2 I1 I I2 pl :
  placed (pool_pages pl) h pid lo hi node b (g :: ws) L1 L L2 I1 I I2 -> iused node < imin ->
  (forall out gp gp' b' lo' hi' L1' L' L2' I1' I' I2' pl', placed (pool_pages pl') (S h) (g_id g) lo' hi' gp' b' ws L1' L' L2' I1' I' I2' ->
     internal_is (g_data g) gp -> internal_wf lay gp -> iused gp - imax <= iused gp' -> runs (k out gp' (mkGuard (g_id g) b') pl') R) ->
  runs ((grandparent ← BPlusTree.coded (InternalPage.decode lay (g_data g));
         '(outcome, grandparent) ← BPlusTree.rebalance_internal (BE := BE) tree key node (mkGuard pid b) grandparent;
         grandparent_page ← BPlusTree.encode_internal tree g grandparent;
         k outcome grandparent grandparent_page) pl) R.
Proof using Laws Hok.
  clear Hroot Hctx Hd. intros [H1 H2 H3 H4 H5 H6 H7 H8 H9] Hun Hnext. cbn [app] in H2.
  destruct (way_last _ _ _ _ _ _ _ _ _ _ _ _ _ _ _ H2) as (gp & cs1 & cs2 & ks1 & ks2 & glo & ghi & Lb & La & Ib & Ia & L1' & L2' & I1' & I2' & W & Hn & Ecs & Eks & Hb & Ha & -> & -> & -> & ->).
  rewrite (bind_coded gp) by (by eapply decode_internal; apply Hn). destruct (node_child_bounds tree _ _ _ _ _ _ _ _ _ _ _ _ _ _ _ _ _ _ key Hn Ecs Eks Hb Ha H5) as [Hkey _].
  assert (Hnd : forall z, (cnt z ((Ib ++ (pid :: I) ++ Ia) ++ (Lb ++ L ++ La).*1) <= 1)%nat) by (intros z; specialize (H6 z); cnt_simpl; lia).
  eapply runs_bind; [by eapply (rebalance_internal_runs tree Hok (pool_pages pl) h)|]. intros [out gp'] p1 (I' & Hfix & Hcnt & Hsame). cbn [snd] in *.
  eapply runs_bind; [apply (encode_internal_runs tree); [apply Hfix|apply Hfix|apply (guard_len tree _ _ _ _ _ _ Hn)|]|].
  { rewrite Hsame; [eexists; apply Hn|]. specialize (H6 (g_id g)). cnt_simpl. rewrite (decide_True (P := g_id g = g_id g)) in H6 by done. lia. }
  intros g2 p2 (b2 & Hb2 & -> & Hp2). apply (Hnext out gp gp' b2 glo ghi L1' (Lb ++ L ++ La) L2' I1' I' I2'); [|apply Hn|apply Hn|apply Hfix]. rewrite Hp2.
  rewrite <- !app_assoc in H7, H8, H9.
  apply (placed_parent (pool_pages pl) (pool_pages p1) (S h) g gp gp' b2 glo ghi ws L1' (Lb ++ L ++ La) (Lb ++ L ++ La) L2' I1' (Ib ++ (pid :: I) ++ Ia) I' I2'); rewrite <- ?app_assoc; try assumption.
  - intros z. specialize (H6 z). cnt_simpl. lia.
  - apply renewed_refl.
  - intros z Hz. apply Hsame. cnt_simpl. lia.
Qed.

(** The loop stops at the root and at a page that is full enough. *)
Lemma top_runs h pid lo hi node b ws L1 L L2 I1 I I2 pl (rest : M P (IndexError BE) unit) : placed (pool_pages pl) h pid lo hi node b ws L1 L L2 I1 I I2 ->
  (ws1 = [] /\ c_header ctx = Some (mkGuard hdr hb)) \/ firm ws node ->
  (pid <> root -> InternalPage.is_underfull lay node = true -> runs (rest pl) (fun _ pages => tree_holds tree d pages m)) ->
  runs ((if pid =? c_root ctx then
           match i_children node with
           | [only_child] =>
               header_page ← BPlusTree.pure (ok_or (c_header ctx) (HEADER_LATCH_RELEASED (BE := BE)));
               _ ← BPlusTree.store_header header_page (mkHeader (Some only_child) (first_leaf_id hd) (h_max_key_len hd)); mret tt
           | _ => mret tt
           end
         else if negb (InternalPage.is_underfull lay node) then mret tt else rest) pl) (fun _ pages => tree_holds tree d pages m).
Proof using Laws Hok Hroot Hctx Hd.
  intros Hpl Htop Hrest.
  assert (Hstop : runs (mret (M := M P (IndexError BE)) tt pl) (fun _ pages => tree_holds tree d pages m)) by (apply runs_ret; by eapply placed_holds).
  rewrite Hctx. destruct (Z.eqb_spec pid root) as [Epid|Hpid]; [|destruct (InternalPage.is_underfull lay node); cbn [negb]; [by apply Hrest|exact Hstop]].
  destruct (root_alone _ _ _ _ _ _ _ _ _ _ _ _ _ _ Hpl ltac:(by left)) as (-> & Ew & -> & Eh & -> & -> & -> & -> & -> & ->).
  destruct (i_children node) as [|only [|]] eqn:Ec; [exact Hstop| |exact Hstop]. eapply collapse_runs; try done. destruct Htop as [[_ Hch]|Hfirm]; [done|]. exfalso.
  unfold firm in Hfirm. cbn in Hfirm. apply Z.ltb_ge in Hfirm. pose proof (iw_children _ _ (na_wf _ _ _ _ _ _ _ (pl_node _ _ _ _ _ _ _ _ _ _ _ _ _ _ Hpl))) as Hlen.
  rewrite Ec in Hlen. unfold InternalPage.used_bytes in Hfirm. destruct (i_keys node); [|done]. cbn [fmap list_fmap] in Hfirm. change (zsum []) with 0 in Hfirm.
  destruct (internal_small tree Hok) as (_ & Hmin & _). lia.
Qed.

Lemma firm_up g ws gp gp' node : firm (g :: ws) node -> internal_is (g_data g) gp -> internal_wf lay gp -> iused gp - imax <= iused gp' -> firm ws gp'.
Proof using Hok.
  clear Hroot Hctx Hd. unfold firm. destruct ws as [|g' ws]; [|rewrite last_cons_cons; destruct (list.last (g' :: ws)) eqn:El; [done|by apply last_None in El]]. intros [(q & Hq & _)|(q & Hq & Hqw & Hmin)] Hb Hw Hu.
  - exfalso. by eapply (leaf_not_internal tree).
  - assert (q = gp) as -> by (by eapply (internal_unique tree)). apply Z.ltb_ge. lia.
Qed.

Lemma loop_runs ws : forall h pid lo hi node b L1 L L2 I1 I I2 out pl, placed (pool_pages pl) h pid lo hi node b ws L1 L L2 I1 I I2 ->
  (ws1 = [] /\ c_header ctx = Some (mkGuard hdr hb)) \/ firm ws node ->
  runs (BPlusTree.rebalance_loop (BE := BE) tree ctx hd key ws (mkGuard pid b) node out pl) (fun _ pages => tree_holds tree d pages m).
Proof using Laws Hok Hroot Hctx Hd.
  induction ws as [|g ws IH]; intros h pid lo hi node b L1 L L2 I1 I I2 out pl Hpl Htop; cbn [BPlusTree.rebalance_loop g_id].
  - assert (Hno : pid <> root -> InternalPage.is_underfull lay node = true -> runs (BPlusTree.pure (P := P) (Err LATCH_NOT_HELD) pl) (fun _ : unit => fun pages => tree_holds tree d pages m)).
    { intros Hpid Hun. destruct Htop as [[Ew _]|Hfirm]; [|unfold firm in Hfirm; cbn in Hfirm; congruence].
      by destruct (root_alone _ _ _ _ _ _ _ _ _ _ _ _ _ _ Hpl ltac:(right; by rewrite Ew)) as (_ & _ & ? & _). }
    destruct out; [by eapply top_runs|by eapply top_runs|]. apply runs_ret. by eapply placed_holds.
  - assert (Hgo : InternalPage.is_underfull lay node = true -> runs ((grandparent ← BPlusTree.coded (InternalPage.decode lay (g_data g));
         '(outcome, grandparent) ← BPlusTree.rebalance_internal (BE := BE) tree key node (mkGuard pid b) grandparent;
         grandparent_page ← BPlusTree.encode_internal tree g grandparent;
         BPlusTree.rebalance_loop tree ctx hd key ws grandparent_page grandparent outcome) pl) (fun _ pages => tree_holds tree d pages m)).
    { intros Hun%Z.ltb_lt. eapply step_runs; [exact Hpl|done|]. intros out' gp gp' b' lo' hi' L1' L' L2' I1' I' I2' pl' Hpl' Hb Hw Hu. eapply IH; [exact Hpl'|].
      destruct Htop as [?|Hfirm]; [by left|right]. by eapply firm_up. }
    destruct out; [eapply top_runs; eauto..|]. apply runs_ret. by eapply placed_holds.
Qed.

End loop.
End remove.

(** * The leaf and the whole operation *)

(** ** Leaves and entries *)

Section entries.
Context (layout : Layout).

Lemma remove_result_props p k p' : remove_result layout p k = Ok p' -> l_next p' = l_next p /\ LeafPage.keys p' `sublist_of` LeafPage.keys p.
Proof using.
  unfold remove_result. destruct (LeafPage.search p k) as [i|i]; [|done]. case_decide; [done|].
  assert (Hr : forall j q, l_entries q = l_entries p -> LeafPage.keys (removed q j) `sublist_of` LeafPage.keys p).
  { intros j q Eq. unfold LeafPage.keys. cbn. rewrite fmap_remove_at, Eq. apply remove_at_sublist. }
  case_match; [intros [= <-]; split; [done|by apply Hr]|]. case_match; [|by intros [= <-]].
  case_match; [done|]. intros [= <-]. split; [done|]. by apply (Hr _ (forgot p)).
Qed.

Lemma entries_delete L1 lid lf L2 m key lf' : entries_are (L1 ++ (lid, lf) :: L2) m -> ~ keyed L1 key -> ~ keyed L2 key ->
  leaf_wf layout lf -> leaf_wf layout lf' -> contents lf' = delete key (contents lf) -> entries_are (L1 ++ (lid, lf') :: L2) (delete key m).
Proof using.
  intros Hm H1 H2 Hw Hw' Hc k r. rewrite lookup_delete_Some, (Hm k r). setoid_rewrite elem_of_app. setoid_rewrite list.elem_of_cons.
  assert (Hl : lives lf' k r <-> key <> k /\ lives lf k r) by (rewrite <- !(contents_lives layout) by done; rewrite Hc; apply lookup_delete_Some).
  split.
  - intros (Hne & id & p & [Hin|[[= -> ->]|Hin]] & Hp); [exists id, p; auto|exists lid, lf'; rewrite Hl; auto|exists id, p; auto].
  - intros (id & p & [Hin|[[= -> ->]|Hin]] & Hp); [| |].
    + split; [intros ->; exact (not_keyed _ _ _ _ _ H1 Hin Hp)|]. exists id, p. auto.
    + apply Hl in Hp as [? ?]. split; [done|]. exists lid, lf. auto.
    + split; [intros ->; exact (not_keyed _ _ _ _ _ H2 Hin Hp)|]. exists id, p. auto.
Qed.

End entries.

Section delete.
Context (tree : BPlusTree) (Hok : layout_ok (layout tree)).
Context {P BE : Type} {Pool : PagePool P BE} {Laws : PagePoolLaws P BE}.

Abbreviation lay := (layout tree).
Abbreviation tree_at := (tree_at lay).
Abbreviation leaf_at := (leaf_at lay).
Abbreviation node_at := (node_at lay).
Abbreviation way := (way tree).
Abbreviation hdr := (header_page_id tree).

(** A run whose only errors are the pool's and a missing key, which leaves pages as [D]. *)
Definition ends {A} (r : outcome (IndexError BE) A * P) (Q : A -> gmap PageId bytes -> Prop) (D : gmap PageId bytes -> Prop) : Prop :=
  match r with
  | (Ok a, p) => Q a (pool_pages p)
  | (Err (IBpm _), _) => True
  | (Err (IRemove KeyNotFound), p) => D (pool_pages p)
  | _ => False
  end.

Lemma ends_bind {A B} (m : M P (IndexError BE) A) (f : A -> M P (IndexError BE) B) p Q R D :
  ends (m p) Q D -> (forall a p', Q a (pool_pages p') -> ends (f a p') R D) -> ends ((m ≫= f) p) R D.
Proof using. unfold mbind, M_bind, ends. destruct (m p) as [[a|e|] p']; cbn; [|done|done]. intros H1 H2. exact (H2 a p' H1). Qed.

Lemma runs_ends {A} (r : outcome (IndexError BE) A * P) Q D : runs r Q -> ends r Q D.
Proof using. unfold runs, ends. destruct r as [[a|[]|] p]; done. Qed.

Lemma gives_ends {A} (r : outcome (IndexError BE) A * P) pages Q D : gives r pages Q -> ends r (fun a pages' => Q a /\ pages' = pages) D.
Proof using. unfold gives, ends. destruct r as [[a|[]|] p]; cbn; intros [? ?]; done. Qed.

Lemma ends_mono {A} (r : outcome (IndexError BE) A * P) (Q Q' : A -> gmap PageId bytes -> Prop) (D : gmap PageId bytes -> Prop) :
  ends r Q D -> (forall a pages, Q a pages -> Q' a pages) -> ends r Q' D.
Proof using. unfold ends. destruct r as [[a|[|[]| | | | | | |]|] p]; auto. Qed.

Lemma key_exists_is b lf key : leaf_is lay b lf -> leaf_wf lay lf -> exists e, @LeafPageView.key_exists lay (IndexError BE) b key = Ok e /\ (e = false -> contents lf !! key = None).
Proof using Hok.
  intros Hb Hw. unfold LeafPageView.key_exists. rewrite (search_is lay (lo_cap' tree Hok) (lo_room' tree Hok) b lf Hb Hw). cbn [mbind outcome_bind]. eexists. split; [done|].
  intros He. apply (contents_None lay); [done|]. intros rid (j & Hj & _). rewrite (search_found lay lf key j rid Hw Hj) in He. done.
Qed.

(** ** The leaf *)

Section found.
Context (p : P) (d : nat) (m : gmap IndexKey RecordId) (key : IndexKey) (h : HeaderPage) (hb : bytes) (root : PageId) (ht : nat).
Context (g : PageMut) (lf : LeafPage) (lo hi : bound) (ws : list PageMut) (L1 L2 : leaves) (I1 I2 : list PageId).
Context (F : found tree (pool_pages p) d m key h hb root ht g lf lo hi ws L1 L2 I1 I2).

(** What the leaf holds without the entry. *)
Lemma found_remove lf' : remove_result lay lf key = Ok lf' ->
  is_Some (m !! key) /\ leaf_wf lay lf' /\ Forall (within lo hi) (LeafPage.keys lf') /\ l_next lf' = l_next lf /\
  LeafPage.used_bytes lay lf' <= LeafPage.used_bytes lay lf /\ entries_are (L1 ++ (g_id g, lf') :: L2) (delete key m).
Proof using F.
  intros E. pose proof (found_map tree _ _ _ _ _ _ _ _ _ _ _ _ _ _ _ _ _ F) as Em. destruct F as [F1 F2 F3 F4 F5 F6 F7 F8 F9 F10 F11].
  pose proof (remove_contents lay lf key F9) as Hc. rewrite E in Hc. destruct Hc as (Hw & Hs & Hc). destruct (remove_result_props lay lf key lf' E) as [Hn Hks].
  destruct (way_beside tree _ _ _ _ _ _ _ _ _ _ _ _ _ _ key F6 F11) as (_ & Hb1 & Hb2). split_and!; try done.
  - by rewrite Em.
  - rewrite list.Forall_forall in *. intros x Hx. apply F10. by eapply elem_of_sublist.
  - by apply keys_used.
  - by eapply entries_delete.
Qed.

Lemma found_missing : remove_result lay lf key = Err KeyNotFound -> m !! key = None.
Proof using F.
  intros E. rewrite (found_map tree _ _ _ _ _ _ _ _ _ _ _ _ _ _ _ _ _ F). pose proof (remove_contents lay lf key (fd_wf _ _ _ _ _ _ _ _ _ _ _ _ _ _ _ _ _ _ F)) as Hc.
  by rewrite E in Hc.
Qed.

Lemma removed_holds b lf' : leaf_is lay b lf' -> remove_result lay lf key = Ok lf' ->
  is_Some (m !! key) /\ tree_holds tree d (<[g_id g := b]> (pool_pages p)) (delete key m).
Proof using F.
  intros Hb E. destruct (found_remove lf' E) as (Hm & Hw & Hks & Hn & _ & He). split; [done|]. pose proof (found_header_other tree _ _ _ _ _ _ _ _ _ _ _ _ _ _ _ _ _ F).
  destruct F as [F1 F2 F3 F4 F5 F6 F7 F8 F9 F10 F11]. exists hb, h. split; [eapply header_kept; [exact F1|by apply lookup_insert_ne]|]. rewrite F2.
  eexists _, _. split; [by eapply rooted_replace|done].
Qed.

(** The entry is removed from the leaf's bytes, or is not there. *)
Lemma remove_here {A} (k : bytes -> M P (IndexError BE) A) (R : A -> gmap PageId bytes -> Prop) :
  (forall b lf' p', leaf_is lay b lf' -> remove_result lay lf key = Ok lf' -> pool_pages p' = <[g_id g := b]> (pool_pages p) ->
    ends (k b p') R (fun pages => pages = pool_pages p /\ m !! key = None)) ->
  ends ((b ← BPlusTree.pure (map_err IRemove (LeafPageView.remove_key lay (g_data g) key)); _ ← BPlusTree.store g b; k b) p) R
    (fun pages => pages = pool_pages p /\ m !! key = None).
Proof using F Hok Laws.
  intros Hk. pose proof (view_remove lay (lo_cap' tree Hok) (lo_room' tree Hok) (g_data g) lf key (fd_leaf _ _ _ _ _ _ _ _ _ _ _ _ _ _ _ _ _ _ F) (fd_wf _ _ _ _ _ _ _ _ _ _ _ _ _ _ _ _ _ _ F)) as Hv.
  destruct (LeafPageView.remove_key lay (g_data g) key) as [b|[]|]; [|by split; [|apply found_missing]|done].
  destruct Hv as (lf' & E & Hb). rewrite (bind_pure b) by done.
  eapply ends_bind; [apply runs_ends, store_runs; by rewrite (fd_page _ _ _ _ _ _ _ _ _ _ _ _ _ _ _ _ _ _ F)|]. intros g' p' [_ Hp]. by apply (Hk b lf').
Qed.

(** The leaf is the root exactly when no page is above it. *)
Lemma found_top : g_id g = root \/ ws = [] -> ws = [] /\ g_id g = root /\ ht = 0%nat /\ L1 = [] /\ L2 = [] /\ I1 = [] /\ I2 = [].
Proof using F.
  destruct F as [F1 F2 F3 F4 F5 F6 F7 F8 F9 F10 F11]. intros Hor. assert (E : ws = []).
  { destruct Hor as [E|E]; [|done]. destruct (way_top tree _ _ _ _ _ _ _ _ _ _ _ _ _ _ F6) as [?|Hc]; [done|]. pose proof (proj1 (cnt_nodup _) (rt_nodup _ _ _ _ _ _ _ F3) root) as Hnd.
    rewrite E in Hnd. cnt_simpl. rewrite (decide_True (P := root = root)) in Hnd by done. lia. }
  rewrite E in F6. apply way_nil in F6. naive_solver.
Qed.

(** A tree whose last entry went. *)
Lemma emptied_runs b lf' p' : leaf_is lay b lf' -> remove_result lay lf key = Ok lf' -> l_entries lf' = [] -> ws = [] -> pool_pages p' = <[g_id g := b]> (pool_pages p) ->
  runs ((h ← BPlusTree.pure (HeaderPageView.set_root_page_id hb None); h ← BPlusTree.pure (HeaderPageView.set_first_leaf_id h None);
         _ ← BPlusTree.store (BE := BE) (mkGuard hdr hb) h; mret true) p') (fun final pages => final = true /\ tree_holds tree d pages (delete key m)).
Proof using F Laws.
  intros Hb E He Hws Hp. destruct (found_remove lf' E) as (_ & _ & _ & _ & _ & Hent). pose proof (found_header_other tree _ _ _ _ _ _ _ _ _ _ _ _ _ _ _ _ _ F) as Hne.
  destruct (found_top ltac:(by right)) as (_ & _ & _ & E1 & E2 & _). rewrite E1, E2 in Hent. pose proof (fd_header _ _ _ _ _ _ _ _ _ _ _ _ _ _ _ _ _ _ F) as Hh.
  destruct (header_written tree (E := IndexError BE) (pool_pages p) hb h None None Hh ltac:(done) ltac:(done)) as (b1 & b2 & S1 & S2 & Hat).
  rewrite (bind_pure b1), (bind_pure b2) by done. eapply runs_bind; [apply store_runs; exists hb; cbn [g_id]; rewrite Hp, lookup_insert_ne by done; apply Hh|].
  intros g' p2 [_ Hp2]. apply runs_ret. split; [done|]. rewrite Hp2. exists b2, (mkHeader None None (h_max_key_len h)). split; [apply Hat|]. split; [done|].
  apply map_eq. intros k. rewrite lookup_empty. apply option_eq. intros r. rewrite (Hent k r). split; [|done].
  intros (id & q & [= -> ->]%list_elem_of_singleton & (j & Hj & _)). rewrite He in Hj. done.
Qed.

Lemma sturdy_leaf : LeafPage.used_bytes lay lf - Layout.leaf_max_entry_bytes lay < Layout.leaf_min_used lay -> ~ sturdy tree (g_data g).
Proof using F Hok.
  destruct F as [F1 F2 F3 F4 F5 F6 F7 F8 F9 F10 F11]. intros Hu [(q & H1 & H2 & H3)|(q & H1 & _)].
  - rewrite (leaf_unique tree Hok _ _ _ H1 H2 F8 F9) in H3. lia.
  - by eapply (leaf_not_internal tree).
Qed.

(** The removal that stays in the leaf. *)
Lemma final_ends ctx : c_root ctx = root -> (ws = [] -> c_header ctx = Some (mkGuard hdr hb)) ->
  ends (BPlusTree.remove_in_place_if_final (BE := BE) tree ctx g key p) (fun done pages =>
    if (done : bool) then is_Some (m !! key) /\ tree_holds tree d pages (delete key m)
    else pages = pool_pages p /\ ws <> [] /\ ~ sturdy tree (g_data g)) (fun pages => pages = pool_pages p /\ m !! key = None).
Proof using F Hok Laws.
  intros Hr Hch. pose proof (fd_leaf _ _ _ _ _ _ _ _ _ _ _ _ _ _ _ _ _ _ F) as Hb. pose proof (fd_wf _ _ _ _ _ _ _ _ _ _ _ _ _ _ _ _ _ _ F) as Hw.
  unfold BPlusTree.remove_in_place_if_final. rewrite (bind_coded tt) by (by eapply check_new; [apply lo_cap', Hok|apply lo_room', Hok|..]). rewrite Hr.
  destruct (Z.eqb_spec (g_id g) root) as [E|E]; cbn [negb].
  - destruct (found_top ltac:(by left)) as (Hws & _). rewrite (bind_pure (mkGuard hdr hb)) by (by rewrite Hch). destruct (fd_header _ _ _ _ _ _ _ _ _ _ _ _ _ _ _ _ _ _ F) as (_ & Hh & Hhw & _).
    rewrite (bind_coded tt) by (by eapply hview_new). cbn [g_data]. apply remove_here. intros b lf' p' Hb' Er Hp.
    destruct (removed_holds b lf' Hb' Er) as [Hs Ht]. destruct (found_remove lf' Er) as (_ & Hw' & _).
    rewrite (bind_pure (len (l_entries lf'))) by (by eapply view_size; [apply lo_cap', Hok|apply lo_room', Hok|..]).
    destruct (Z.eqb_spec (len (l_entries lf')) 0) as [E0|E0]; [|cbn; by rewrite Hp].
    apply runs_ends. eapply runs_mono; [apply (emptied_runs b lf'); try done; by apply nil_length_inv; lia|]. by intros final pages [-> Hq].
  - destruct (leaf_underflow (E := IndexError BE) tree Hok (g_data g) lf Hb Hw) as (s & Es & Hs). rewrite (bind_pure s) by done. destruct s.
    + cbn. split_and!; [done|by intros ?; destruct (found_top ltac:(by right)) as (_ & ? & _)|]. apply sturdy_leaf. destruct (Z.le_gt_cases (Layout.leaf_min_used lay) (LeafPage.used_bytes lay lf - Layout.leaf_max_entry_bytes lay)) as [Hle|]; [|lia].
      by apply Hs in Hle.
    + apply remove_here. intros b lf' p' Hb' Er Hp. cbn. rewrite Hp. by eapply removed_holds.
Qed.

(** A leaf that gets underfull is rebalanced, and the pages above it. *)
Lemma underfull_runs ctx lf' g1 ws1 ws2 : c_root ctx = root -> remove_result lay lf key = Ok lf' -> LeafPage.is_underfull lay lf' = true -> ws = (g1 :: ws2) ++ ws1 ->
  (ws1 = [] /\ c_header ctx = Some (mkGuard hdr hb)) \/ (exists t, list.last (g1 :: ws2) = Some t /\ sturdy tree (g_data t)) ->
  runs ((parent ← BPlusTree.coded (InternalPage.decode lay (g_data g1));
         '(outcome, parent) ← BPlusTree.rebalance_leaf tree key lf' g parent;
         parent_page ← BPlusTree.encode_internal tree g1 parent;
         BPlusTree.rebalance_loop (BE := BE) tree ctx h key ws2 parent_page parent outcome) p)
    (fun _ pages => tree_holds tree d pages (delete key m)).
Proof using F Hok Laws.
  intros Hr Er Hun%Z.ltb_lt Ews Htop. destruct (found_remove lf' Er) as (_ & Hw' & Hks & Hn & _ & He). destruct F as [F1 F2 F3 F4 F5 F6 F7 F8 F9 F10 F11].
  rewrite Ews in F6. cbn [app] in F6.
  destruct (way_last tree _ _ _ _ _ _ _ _ _ _ _ _ _ _ _ F6) as (gp & cs1 & cs2 & ks1 & ks2 & glo & ghi & Lb & La & Ib & Ia & L1' & L2' & I1' & I2' & W & Hg1 & Ecs & Eks & Hb & Ha & -> & -> & -> & ->).
  rewrite (bind_coded gp) by (by eapply decode_internal; apply Hg1). destruct (node_child_bounds tree _ _ _ _ _ _ _ _ _ _ _ _ _ _ _ _ _ _ key Hg1 Ecs Eks Hb Ha F11) as [Hkey _].
  assert (Hnd : forall z, (cnt z (hdr :: (I1' ++ (g_id g1 :: Ib ++ Ia) ++ I2') ++ (L1' ++ (Lb ++ (g_id g, lf') :: La) ++ L2').*1) <= 1)%nat).
  { intros z. pose proof (proj1 (cnt_nodup _) (rt_nodup _ _ _ _ _ _ _ F3) z). cnt_simpl. lia. }
  assert (EL : L1' ++ (Lb ++ (g_id g, lf') :: La) ++ L2' = (L1' ++ Lb) ++ (g_id g, lf') :: La ++ L2') by (by rewrite <- !app_assoc).
  pose proof (rt_linked _ _ _ _ _ _ _ F3) as Hl. apply (linked_replace _ _ _ lf' _ Hn) in Hl. pose proof (rt_first _ _ _ _ _ _ _ F3) as Hf. rewrite <- (first_replace _ _ _ lf') in Hf. rewrite <- EL in *.
  pose proof (rebalance_leaf_runs (BE := BE) tree Hok (pool_pages p) (g_id g1) glo ghi gp (g_data g1) (g_id g) cs1 cs2 ks1 ks2 lo hi Lb La Ib Ia lf' (g_data g)
    Hg1 Ecs Eks Hb Ha F7 (n_len _ _ _ _ (v_node _ _ _ F8)) Hw' Hks Hun ltac:(intros z; specialize (Hnd z); cnt_simpl; lia) key p eq_refl F11) as Hrun.
  replace (mkGuard (g_id g) (g_data g)) with g in Hrun by (by destruct g). eapply runs_bind; [exact Hrun|].
  intros [out gp'] p1 (M' & I' & Hfix & Hren & Hcnt & Hsame). cbn [snd] in *.
  eapply runs_bind; [apply (encode_internal_runs tree); [apply Hfix|apply Hfix|apply (guard_len tree _ _ _ _ _ _ Hg1)|]|].
  { rewrite Hsame; [eexists; apply Hg1|]. specialize (Hnd (g_id g1)). cnt_simpl. rewrite (decide_True (P := g_id g1 = g_id g1)) in Hnd by done. lia. }
  intros g2 p2 (b2 & Hb2 & -> & Hp2).
  apply (loop_runs tree Hok ctx h hb root ht d (delete key m) key ws1 F2 Hr F4 ws2 0 (g_id g1) glo ghi gp' b2 L1' M' L2' I1' I' I2' out p2).
  - rewrite Hp2. apply (placed_parent tree h hb root ht (delete key m) key ws1 (pool_pages p) (pool_pages p1) 0 g1 gp gp' b2 glo ghi ws2 L1' (Lb ++ (g_id g, lf') :: La) M' L2' I1' (Ib ++ Ia) I' I2'); try assumption.
    intros z Hz. apply Hsame. cnt_simpl. lia.
  - destruct Htop as [?|(t & Ht & Hst)]; [by left|right]. eapply (firm_up tree Hok g1 ws2 gp gp' gp); [unfold firm; by rewrite Ht|apply Hg1|apply Hg1|apply Hfix].
Qed.

End found.

(** The removal that may spread, once the path is latched. *)
Lemma latched_ends p d m key h hb root ht g lf lo hi ws L1 L2 I1 I2 ctx ws1 ws2 : found tree (pool_pages p) d m key h hb root ht g lf lo hi ws L1 L2 I1 I2 -> c_root ctx = root -> c_write_set ctx = g :: ws2 -> ws = ws2 ++ ws1 ->
  (ws1 = [] /\ c_header ctx = Some (mkGuard hdr hb)) \/ (exists t, list.last (g :: ws2) = Some t /\ sturdy tree (g_data t)) ->
  (ws = [] -> c_header ctx = Some (mkGuard hdr hb)) ->
  ends (('(leaf_page, ws) ← BPlusTree.pure (BPlusTree.pop_back (c_write_set ctx));
      final ← BPlusTree.remove_in_place_if_final (BE := BE) tree ctx leaf_page key;
      if (final : bool) then mret tt
      else
        leaf ← BPlusTree.coded (LeafPage.decode lay (g_data leaf_page));
        leaf ← BPlusTree.pure (map_err IRemove (LeafPage.remove_key lay leaf key));
        if negb (LeafPage.is_underfull lay leaf) then
          _ ← BPlusTree.encode_leaf tree leaf_page leaf;
          mret tt
        else
          '(parent_page, ws) ← BPlusTree.pure (BPlusTree.pop_back ws);
          parent ← BPlusTree.coded (InternalPage.decode lay (g_data parent_page));
          '(outcome, parent) ← BPlusTree.rebalance_leaf tree key leaf leaf_page parent;
          parent_page ← BPlusTree.encode_internal tree parent_page parent;
          BPlusTree.rebalance_loop tree ctx h key ws parent_page parent outcome) p)
    (fun _ pages => is_Some (m !! key) /\ tree_holds tree d pages (delete key m)) (fun pages => pages = pool_pages p /\ m !! key = None).
Proof using Hok Laws.
  intros F Hr Hset Ews Htop Hch. rewrite (bind_pure (g, ws2)) by (by rewrite Hset). eapply ends_bind; [by eapply final_ends|].
  intros [] p1 Hq; cbn beta iota in Hq; [done|]. destruct Hq as (Hp1 & Hne & Hst). rewrite <- Hp1 in *.
  pose proof (fd_leaf _ _ _ _ _ _ _ _ _ _ _ _ _ _ _ _ _ _ F) as Hb. pose proof (fd_wf _ _ _ _ _ _ _ _ _ _ _ _ _ _ _ _ _ _ F) as Hw.
  rewrite (bind_coded lf) by (eapply decode_leaf; [apply lo_cap', Hok|apply lo_room', Hok|done|done]). pose proof (remove_is lay lf key Hw) as Er.
  destruct (remove_result lay lf key) as [lf'|[]|] eqn:Ers; [|by rewrite Er; split; [|eapply found_missing]|by pose proof (remove_contents lay lf key Hw) as Hc; rewrite Ers in Hc].
  rewrite (bind_pure lf') by (by rewrite Er). destruct (found_remove _ _ _ _ _ _ _ _ _ _ _ _ _ _ _ _ _ F lf' Ers) as (Hs & Hw' & _ & _ & Hu & _). destruct (LeafPage.is_underfull lay lf') eqn:Hun; cbn [negb].
  - destruct ws2 as [|g1 ws2].
    { destruct Htop as [[-> _]|(t & [= <-] & ?)]; [|done]. by rewrite Ews in Hne. }
    rewrite (bind_pure (g1, ws2)) by done. apply runs_ends. eapply runs_mono; [|intros u pages Hq; split; [exact Hs|exact Hq]]. eapply underfull_runs; try done.
  - apply runs_ends. eapply runs_bind; [apply (encode_leaf_runs tree Hok); [done|apply Z.ltb_ge; pose proof (leaf_fits tree _ _ Hb); lia|apply (n_len _ _ _ _ (v_node _ _ _ Hb))|by rewrite (fd_page _ _ _ _ _ _ _ _ _ _ _ _ _ _ _ _ _ _ F)]|].
    intros g' p2 (b & Hb' & Hp2). apply runs_ret. rewrite Hp2. by eapply removed_holds.
Qed.

(** ** Every remove *)

Lemma latch_root_leaf pages root br is_safe key ctx L I fuel p : tree_at 0 pages root None None L I -> pages !! root = Some br -> pool_pages p = pages ->
  c_write_set ctx = [mkGuard root br] -> (0 < fuel)%nat -> gives (BPlusTree.latch_path_loop (BE := BE) tree fuel ctx key is_safe p) pages (fun ctx' => ctx' = ctx).
Proof using Laws.
  intros Ht Hb Hp Ew Hf. destruct fuel as [|fuel]; [lia|]. cbn [BPlusTree.latch_path_loop]. rewrite (bind_pure (mkGuard root br)) by (by rewrite Ew).
  destruct (tree_root tree _ _ _ _ _ _ _ Ht) as (b & Hb' & lf & His & _). assert (b = br) as -> by congruence.
  rewrite (bind_pure None) by (by eapply child_for_key_leaf). by apply gives_ret.
Qed.

Lemma gives_when {A} (C : Prop) (r : outcome (IndexError BE) A * P) pages Q Q' : gives r pages Q -> (C -> gives r pages Q') -> gives r pages (fun a => Q a /\ (C -> Q' a)).
Proof using. unfold gives. destruct r as [[a|[]|] p]; cbn; tauto. Qed.

Lemma remove_pessimistic_ends p d m key fuel : tree_holds tree d (pool_pages p) m -> (d <= fuel)%nat ->
  ends (BPlusTree.remove_pessimistic (BE := BE) tree fuel key p) (fun _ pages => is_Some (m !! key) /\ tree_holds tree d pages (delete key m))
    (fun pages => pages = pool_pages p /\ m !! key = None).
Proof using Laws Hok.
  intros Hholds Hf. pose proof Hholds as (hb & h & Hh & Hr). unfold BPlusTree.remove_pessimistic.
  eapply ends_bind; [apply gives_ends, read_page_gives, Hh|]. intros g0 p1 [-> Hp1]. cbn [g_data]. rewrite (bind_pure h) by (by eapply header_read).
  destruct (root_page_id h) as [root|] eqn:Er; [|destruct Hr as [_ ->]; cbn; by rewrite lookup_empty].
  destruct Hr as (L & I & Hrt & Hm). pose proof Hrt as [(ht & Hht & Ht) _ _ _].
  destruct (tree_root tree _ _ _ _ _ _ _ Ht) as (br & Hbr & _). unfold BPlusTree.latch_path_to_leaf. cbn [c_root c_header c_write_set].
  eapply ends_bind.
  { eapply ends_bind; [apply gives_ends, read_page_gives; rewrite Hp1; exact Hbr|]. intros gr p2 [-> Hp2]. rewrite Hp1 in Hp2.
    eapply gives_ends, (gives_when (ht = 0%nat)) with (Q' := fun ctx => ctx = mkContext (Some (mkGuard hdr hb)) root [mkGuard root br]).
    - eapply (latch_path_gives tree Hok (BPlusTree.safe_for_remove tree) (sturdy tree) (safe_remove_leaf tree Hok) (safe_remove_internal tree Hok)
        (pool_pages p) root ht (mkGuard hdr hb) ht key _ (mkGuard root br) None None [] [] [] [] L I p2 fuel Hp2); [|exact Ht|exact Hbr|done|lia].
      exists ht, root, None, None, [], [], [], [], [], [], [], [], [], []. split; [constructor|]. split; [constructor|]. split_and!; try done. left. done.
    - intros ->. eapply latch_root_leaf; try done. lia. }
  cbn beta. rewrite !app_nil_r. cbn [app]. intros ctx p3 [[(g & lo & hi & L1 & L2 & I1 & I2 & lf & Hheld & [_ Hlw Hlk] & Hg & Hgl & Hin & -> & ->) Hch] Hp3].
  destruct Hheld as (ha & a & loa & hia & ws1 & ws2 & La1 & Lb1 & Ia1 & Ib1 & La2 & Lb2 & Ia2 & Ib2 & Hw1 & Hw2 & Ews & Hcr & EL1 & EL2 & EI1 & EI2 & Htop).
  assert (F : found tree (pool_pages p3) d m key h hb root ht g lf lo hi (ws2 ++ ws1) L1 L2 I1 I2).
  { rewrite Hp3. split; try done. rewrite EL1, EL2, EI1, EI2. by eapply way_trans. }
  rewrite <- Hp3. eapply latched_ends; try done.
  - destruct Htop as [(Hc & -> & -> & -> & -> & -> & -> & -> & ->)|?]; [left|by right]. split; [|done]. by destruct (way_top tree _ _ _ _ _ _ _ _ _ _ _ _ _ _ Hw1) as [?|Hc0]; [|cbn in Hc0; lia].
  - intros Hws. rewrite Hch; [done|]. by eapply (found_top _ _ _ _ _ _ _ _ _ _ _ _ _ _ _ _ _ F); right.
Qed.

(** Removing: the key is deleted from the map, or was not in it and nothing changed; the
    only other errors are the buffer pool's. *)
Lemma remove_ends p d m key fuel : tree_holds tree d (pool_pages p) m -> (d <= fuel)%nat -> (max_key_len lay < len key -> m !! key = None) ->
  ends (BPlusTree.remove (BE := BE) tree fuel key p) (fun _ pages => is_Some (m !! key) /\ tree_holds tree d pages (delete key m))
    (fun pages => pages = pool_pages p /\ m !! key = None).
Proof using Laws Hok.
  intros Hholds Hf Hlong. pose proof Hholds as (hb & h & Hh & Hr). unfold BPlusTree.remove. destruct (Z.ltb_spec (max_key_len lay) (len key)) as [Hl|_]; [by split; [|apply Hlong]|].
  eapply ends_bind; [apply gives_ends, (write_leaf_gives tree p d m hb h key fuel Hh Hr Hf)|]. intros r p1 [Hr1 Hp1]. rewrite <- Hp1 in *.
  destruct Hr1 as [->|(g & lf & root & ht & lo & hi & ws & L1 & L2 & I1 & I2 & -> & F)]; [by apply remove_pessimistic_ends|].
  pose proof (fd_leaf _ _ _ _ _ _ _ _ _ _ _ _ _ _ _ _ _ _ F) as Hb. pose proof (fd_wf _ _ _ _ _ _ _ _ _ _ _ _ _ _ _ _ _ _ F) as Hw.
  rewrite (bind_coded tt) by (by eapply check_new; [apply lo_cap', Hok|apply lo_room', Hok|..]).
  destruct (leaf_underflow (E := IndexError BE) tree Hok (g_data g) lf Hb Hw) as (s & Es & _). rewrite (bind_pure s) by done. destruct s; cbn [negb].
  - destruct (key_exists_is (g_data g) lf key Hb Hw) as (e & Ee & Hnone). rewrite (bind_pure e) by done. destruct e; cbn [negb]; [by apply remove_pessimistic_ends|].
    split; [done|]. rewrite (found_map tree _ _ _ _ _ _ _ _ _ _ _ _ _ _ _ _ _ F). by apply Hnone.
  - eapply remove_here; [exact F|]. intros b lf' p' Hb' Ers Hp. cbn. rewrite Hp. by eapply removed_holds.
Qed.

End delete.
