(* ===== verification/BPlusTreeTheorems.v ===== *)
(** * Theorems on B+ trees *)

From Stdlib Require Import ZArith Lia String Sorted.
From stdpp Require Import base list numbers option gmap.
From S2P Require Import Prelude Bytes Ids Buf Str TableHeap TableHeapTheorems Slotted BPlusPage PageView BPlusKeys PageViewProofs.
From S2P Require Import LeafContents LeafViewProofs PageCodecProofs BPlusSplit InternalOps.
From S2P Require Import BPlusTree BPlusTreeInv BPlusTreeWalk BPlusTreeSplit BPlusTreeLatch BPlusTreeInsert BPlusTreeGrow BPlusTreeScan BPlusTreeRemove.

Local Open Scope Z_scope.

(** ** Histories *)

(** A request to a tree and its answer. *)
Inductive request : Type :=
| Search (k : IndexKey)
| Insert (k : IndexKey) (rid : RecordId)
| Remove (k : IndexKey).

Inductive answer : Type :=
| Found (r : option RecordId)
| Done
| Refused.

(** What a map answers, and the map after it; a key longer than [max] is refused. *)
Definition map_answer (max : Z) (r : request) (m : gmap IndexKey RecordId) : answer * gmap IndexKey RecordId :=
  match r with
  | Search k => (Found (m !! k), m)
  | Insert k rid =>
      if max <? len k then (Refused, m)
      else match m !! k with Some _ => (Refused, m) | None => (Done, <[k := rid]> m) end
  | Remove k => match m !! k with Some _ => (Done, delete k m) | None => (Refused, m) end
  end.

Fixpoint map_answers (max : Z) (rs : list request) (m : gmap IndexKey RecordId) : list answer * gmap IndexKey RecordId :=
  match rs with
  | [] => ([], m)
  | r :: rs =>
      let '(a, m) := map_answer max r m in
      let '(l, m) := map_answers max rs m in
      (a :: l, m)
  end.

Section tree.
Context {P BE : Type} {Pool : PagePool P BE} {Laws : PagePoolLaws P BE}.

(** What a tree answers: an update that cannot be made is refused, any other error ends the
    history. *)
Definition tree_answer (t : BPlusTree) (fuel : nat) (r : request) : M P (IndexError BE) answer := fun p =>
  match r with
  | Search k => (x ← BPlusTree.search t fuel k; mret (Found x)) p
  | Insert k rid =>
      match BPlusTree.insert t fuel k rid p with
      | (Ok _, p) => (Ok Done, p)
      | (Err (IInsert DuplicateKey), p) | (Err (IKeyTooLong _ _), p) => (Ok Refused, p)
      | (Err e, p) => (Err e, p)
      | (Panic, p) => (Panic, p)
      end
  | Remove k =>
      match BPlusTree.remove t fuel k p with
      | (Ok _, p) => (Ok Done, p)
      | (Err (IRemove KeyNotFound), p) => (Ok Refused, p)
      | (Err e, p) => (Err e, p)
      | (Panic, p) => (Panic, p)
      end
  end.

Fixpoint tree_answers (t : BPlusTree) (fuel : nat) (rs : list request) : M P (IndexError BE) (list answer) :=
  match rs with
  | [] => mret []
  | r :: rs => a ← tree_answer t fuel r; l ← tree_answers t fuel rs; mret (a :: l)
  end.

Definition request_valid (r : request) : Prop := match r with Insert _ rid => rid_valid rid | _ => True end.

(** The keys of a tree are never longer than its layout allows. *)
Lemma holds_short t d pages m k : tree_holds t d pages m -> is_Some (m !! k) -> len k <= max_key_len (layout t).
Proof using.
  intros (hb & h & _ & Hr) [rid Hk]. destruct (root_page_id h) as [root|]; [|by destruct Hr as [_ ->]].
  destruct Hr as (L & I & [(ht & _ & Ht) _ _ _] & Hm). apply Hm in Hk as (id & p & Hp & (i & Hi & _)).
  destruct (tree_leaves t _ _ _ _ _ _ _ Ht id p Hp) as (b & _ & _ & Hw). pose proof (w_keys _ _ Hw) as Hks. rewrite list.Forall_forall in Hks.
  apply Hks. apply entries_lookup in Hi. by eapply list_elem_of_lookup_2.
Qed.

Lemma search_any t d m k fuel p : layout_ok (layout t) -> tree_holds t d (pool_pages p) m -> (d <= fuel)%nat ->
  gives (BPlusTree.search (BE := BE) t fuel k p) (pool_pages p) (fun r => r = m !! k).
Proof using Laws.
  intros Hok Ht Hf. destruct (decide (len k <= max_key_len (layout t))) as [Hk|Hk]; [by eapply search_gives|].
  unfold BPlusTree.search. rewrite (proj2 (Z.ltb_lt _ _)) by lia. apply gives_ret; [done|]. destruct (m !! k) eqn:E; [|done].
  destruct Hk. eapply holds_short; [exact Ht|by eexists].
Qed.

Lemma remove_any t d m k fuel p : layout_ok (layout t) -> tree_holds t d (pool_pages p) m -> (d <= fuel)%nat ->
  ends (BPlusTree.remove (BE := BE) t fuel k p) (fun _ pages => is_Some (m !! k) /\ tree_holds t d pages (delete k m)) (fun pages => pages = pool_pages p /\ m !! k = None).
Proof using Laws.
  intros Hok Ht Hf. apply remove_ends; try done. intros Hl. destruct (m !! k) eqn:E; [|done]. pose proof (holds_short t d _ m k Ht ltac:(by rewrite E)). lia.
Qed.

Lemma answer_runs t d m r fuel p : layout_ok (layout t) -> tree_holds t d (pool_pages p) m -> (d <= fuel)%nat -> request_valid r ->
  runs (tree_answer t fuel r p) (fun a pages => a = (map_answer (max_key_len (layout t)) r m).1 /\
    tree_holds t (S d) pages (map_answer (max_key_len (layout t)) r m).2).
Proof using Laws.
  intros Hok Ht Hf Hv. destruct r as [k|k rid|k]; cbn [tree_answer map_answer].
  - destruct (search_any t d m k fuel p Hok Ht Hf) as [H1 H2]. unfold mbind, M_bind. destruct (BPlusTree.search t fuel k p) as [[x|e|] p']; [|by destruct e|done].
    cbn [fst snd] in *. subst x. split; [done|]. rewrite H1. eapply tree_holds_mono; [exact Ht|lia].
  - destruct (Z.ltb_spec (max_key_len (layout t)) (len k)) as [Hlong|Hk].
    + unfold BPlusTree.insert, BPlusTree.check_key_len. rewrite (proj2 (Z.leb_gt _ _)) by lia. split; [done|]. eapply tree_holds_mono; [exact Ht|lia].
    + pose proof (insert_results t Hok p d m k rid fuel Ht Hf Hk Hv) as H. unfold results in H. destruct (BPlusTree.insert t fuel k rid p) as [[u|[[]| | | | | | | |]|] p']; try done.
      * destruct H as [-> H]. done.
      * destruct H as [Hp [x ->]]. split; [done|]. cbn [snd]. rewrite Hp. eapply tree_holds_mono; [exact Ht|lia].
  - pose proof (remove_any t d m k fuel p Hok Ht Hf) as H. unfold ends in H. destruct (BPlusTree.remove t fuel k p) as [[u|[|[]| | | | | | |]|] p']; try done.
    + destruct H as [[x ->] H]. split; [done|]. eapply tree_holds_mono; [exact H|lia].
    + destruct H as [Hp ->]. split; [done|]. cbn [snd]. rewrite Hp. eapply tree_holds_mono; [exact Ht|lia].
Qed.

Lemma answers_runs t rs : layout_ok (layout t) -> Forall request_valid rs -> forall d m fuel p, tree_holds t d (pool_pages p) m -> (d + length rs <= fuel)%nat ->
  runs (tree_answers t fuel rs p) (fun l pages => l = (map_answers (max_key_len (layout t)) rs m).1 /\
    tree_holds t (d + length rs) pages (map_answers (max_key_len (layout t)) rs m).2).
Proof using Laws.
  intros Hok. induction 1 as [|r rs Hv _ IH]; intros d m fuel p Ht Hf; cbn [tree_answers map_answers length] in *.
  { apply runs_ret. split; [done|]. by rewrite Nat.add_0_r. }
  eapply runs_bind; [apply (answer_runs t d m r fuel p Hok Ht); [lia|done]|]. intros a p1 [-> Ht1]. destruct (map_answer _ r m) as [a m1]. cbn [fst snd] in Ht1.
  eapply runs_bind; [apply (IH (S d) m1 fuel p1 Ht1); lia|]. intros l p2 [-> Ht2]. apply runs_ret. destruct (map_answers _ rs m1) as [l m2]. cbn [fst snd] in *.
  split; [done|]. by rewrite Nat.add_succ_r.
Qed.

(** ** The claims *)

(** C38: a tree is read as the map it holds. On pages that hold a tree with the entries of
    [m], searching for any key returns what [m] has for it; and for a number of turns that is
    enough, a scan between any two bounds yields, in strictly ascending key order, exactly
    the entries of [m] between them, across all leaves and past every tombstone. Both leave
    the pages as they were; the only errors are those of the buffer pool. *)
Theorem tree_reads_map t d m (p : P) :
  layout_ok (layout t) -> tree_holds t d (pool_pages p) m ->
  (forall fuel k, (d <= fuel)%nat -> gives (BPlusTree.search (BE := BE) t fuel k p) (pool_pages p) (fun r => r = m !! k)) /\
  (exists turns, forall fuel s e, (turns <= fuel)%nat ->
    gives ((it ← BPlusTree.scan (BE := BE) t fuel s e; drain t fuel fuel it) p) (pool_pages p) (fun l => ascending l.*1 /\
      forall k rid, (k, rid) ∈ l <-> m !! k = Some rid /\ after_start s k /\ before_end e k)).
Proof using Laws.
  intros Hok Ht. split; [intros fuel k Hf; by eapply search_any|]. destruct (scan_drain t Hok p d m Ht) as [N HN]. exists N. intros fuel s e Hf. by apply HN.
Qed.

(** C39: a tree is updated as the map it holds. On pages that hold a tree with the entries of
    [m], inserting a key that is not in [m] leaves a tree, at most one level higher, with the
    entries of [m] and the new one, whether it fits its leaf, splits the leaf, splits pages up
    to any height, makes a new root or is the first key of the tree; inserting a key of [m]
    fails as a duplicate and changes no page. Removing a key of [m] leaves a tree, no higher,
    with the other entries, whether it stays in its leaf, borrows from a sibling, merges
    pages up to any height, gives up the root or leaves the tree empty; removing another key
    fails and changes no page. The only other errors are those of the buffer pool; nothing
    panics and no structural error is reported. *)
Theorem tree_updates_map t d m (p : P) key fuel :
  layout_ok (layout t) -> tree_holds t d (pool_pages p) m -> (d <= fuel)%nat ->
  (forall rid, len key <= max_key_len (layout t) -> rid_valid rid ->
    match BPlusTree.insert (BE := BE) t fuel key rid p with
    | (Ok _, p') => m !! key = None /\ tree_holds t (S d) (pool_pages p') (<[key := rid]> m)
    | (Err (IInsert DuplicateKey), p') => is_Some (m !! key) /\ pool_pages p' = pool_pages p
    | (Err (IBpm _), _) => True
    | _ => False
    end) /\
  match BPlusTree.remove (BE := BE) t fuel key p with
  | (Ok _, p') => is_Some (m !! key) /\ tree_holds t d (pool_pages p') (delete key m)
  | (Err (IRemove KeyNotFound), p') => m !! key = None /\ pool_pages p' = pool_pages p
  | (Err (IBpm _), _) => True
  | _ => False
  end.
Proof using Laws.
  intros Hok Ht Hf. split.
  - intros rid Hk Hr. pose proof (insert_results t Hok p d m key rid fuel Ht Hf Hk Hr) as H. unfold results in H.
    destruct (BPlusTree.insert t fuel key rid p) as [[u|[[]| | | | | | | |]|] p']; try done. tauto.
  - pose proof (remove_any t d m key fuel p Hok Ht Hf) as H. unfold ends in H. destruct (BPlusTree.remove t fuel key p) as [[u|[|[]| | | | | | |]|] p']; try done. tauto.
Qed.

(** C40: a tree is a finite map. For a key length that [Layout] accepts, making a tree and
    sending it any sequence of searches, inserts and removes answers each of them as a finite map
    that starts empty does, and leaves the pages of a tree with the entries of that map; the
    only error is one of the buffer pool, and pages that were there before keep their bytes
    while the tree is made. As many turns as there are requests are enough for every walk. *)
Theorem tree_refines_map k l rs (p : P) fuel :
  0 <= k -> Layout.new k = Ok l -> Forall request_valid rs -> (length rs <= fuel)%nat ->
  runs (BPlusTree.new (BE := BE) k p) (fun t pages => layout t = l /\
    (forall q, is_Some (pool_pages p !! q) -> pages !! q = pool_pages p !! q) /\
    forall p', pool_pages p' = pages ->
    runs (tree_answers t fuel rs p') (fun answers pages' =>
      answers = (map_answers k rs ∅).1 /\ tree_holds t (length rs) pages' (map_answers k rs ∅).2)).
Proof using Laws.
  intros Hk El Hv Hf. destruct (new_layout k l Hk El) as (Hok & Hm & _). pose proof (new_runs k l p Hk El) as H. unfold runs in H.
  destruct (BPlusTree.new k p) as [[t|[]|] p1]; try done. destruct H as (Hl & _ & Ht & Hkeep). cbn [runs]. split; [done|]. split; [done|].
  intros p' Hp'. rewrite <- Hl in Hok. rewrite <- Hp' in Ht. pose proof (answers_runs t rs Hok Hv 0 ∅ fuel p' Ht Hf) as Hr. by rewrite Hl, Hm in Hr.
Qed.

End tree.

(** ** Witnesses *)

Definition key_len0 : Z := 2000.
Definition layout0 : Layout := mkLayout key_len0 LEAF_TOMBSTONE_CAPACITY.
Definition tree0 : BPlusTree := mkTree 0 layout0.
Definition tree_pool0 : MapPool := (BPlusTree.new (BE := MapPoolError) key_len0 pool0).2.

Definition key0 : IndexKey := [7; 7].
Definition rid0 : RecordId := mkRid 3 4.
Definition tree_pool1 : MapPool := (BPlusTree.insert (BE := MapPoolError) tree0 0 key0 rid0 tree_pool0).2.

Lemma layout0_new : Layout.new key_len0 = Ok layout0.
Proof. vm_compute. reflexivity. Qed.

Lemma layout0_ok : layout_ok layout0.
Proof. apply (new_layout key_len0 layout0); [unfold key_len0; lia|apply layout0_new]. Qed.

Lemma tree0_new : BPlusTree.new (BE := MapPoolError) key_len0 pool0 = (Ok tree0, tree_pool0).
Proof. vm_compute. reflexivity. Qed.

Lemma tree0_holds : tree_holds tree0 0 (pool_pages tree_pool0) ∅.
Proof.
  pose proof (new_runs (BE := MapPoolError) key_len0 layout0 pool0 ltac:(unfold key_len0; lia) layout0_new) as H. unfold runs in H. rewrite tree0_new in H. apply H.
Qed.

Lemma rid0_valid : rid_valid rid0.
Proof. unfold rid_valid, rid0, page_id_valid, PageId_MAX, u64_max, u32_max in *; cbn; lia. Qed.

Lemma tree1_insert : BPlusTree.insert (BE := MapPoolError) tree0 0 key0 rid0 tree_pool0 = (Ok tt, tree_pool1).
Proof. vm_compute. reflexivity. Qed.

Lemma tree1_holds : tree_holds tree0 1 (pool_pages tree_pool1) (<[key0 := rid0]> ∅).
Proof.
  pose proof (insert_results (BE := MapPoolError) tree0 layout0_ok tree_pool0 0 ∅ key0 rid0 0 tree0_holds ltac:(lia) ltac:(cbn; unfold key_len0; lia) rid0_valid) as H.
  unfold results in H. rewrite tree1_insert in H. apply H.
Qed.

Lemma tree_reads_map_witness : exists p', BPlusTree.search (BE := MapPoolError) tree0 1 key0 tree_pool1 = (Ok (Some rid0), p').
Proof.
  destruct (tree_reads_map (BE := MapPoolError) tree0 1 (<[key0 := rid0]> ∅) tree_pool1 layout0_ok tree1_holds) as [Hs _].
  destruct (Hs 1%nat key0 ltac:(lia)) as [_ H]. rewrite lookup_insert_eq in H.
  destruct (BPlusTree.search tree0 1 key0 tree_pool1) as [[r|e|] p'] eqn:E; cbn [fst] in H; [rewrite H; exists p'; reflexivity| |destruct H].
  exfalso. assert (Hok : exists r, (BPlusTree.search (BE := MapPoolError) tree0 1 key0 tree_pool1).1 = Ok r) by (vm_compute; eexists; reflexivity).
  rewrite E in Hok. destruct Hok as [r Hr]. discriminate.
Defined.

Definition tree_pool2 : MapPool := (BPlusTree.remove (BE := MapPoolError) tree0 1 key0 tree_pool1).2.

Lemma tree2_remove : BPlusTree.remove (BE := MapPoolError) tree0 1 key0 tree_pool1 = (Ok tt, tree_pool2).
Proof. vm_compute. reflexivity. Qed.

Lemma tree_updates_map_witness : tree_holds tree0 1 (pool_pages tree_pool1) (<[key0 := rid0]> ∅) /\ tree_holds tree0 1 (pool_pages tree_pool2) (delete key0 (<[key0 := rid0]> ∅)).
Proof.
  split.
  - destruct (tree_updates_map (BE := MapPoolError) tree0 0 ∅ tree_pool0 key0 0 layout0_ok tree0_holds ltac:(lia)) as [H _].
    specialize (H rid0 ltac:(cbn; unfold key_len0; lia) rid0_valid). rewrite tree1_insert in H. exact (proj2 H).
  - destruct (tree_updates_map (BE := MapPoolError) tree0 1 (<[key0 := rid0]> ∅) tree_pool1 key0 1 layout0_ok tree1_holds ltac:(lia)) as [_ H].
    rewrite tree2_remove in H. exact (proj2 H).
Defined.

(** Five keys that fill a leaf and split it, one of them twice, and removes that merge the
    leaves again. *)
Definition long_key (i : Z) : IndexKey := replicate (Z.to_nat 1990) 1 ++ [i].
Definition requests0 : list request :=
  [Insert (long_key 4) rid0; Insert (long_key 2) rid0; Insert (long_key 5) rid0; Insert (long_key 1) rid0; Insert (long_key 3) rid0; Insert (long_key 4) rid0;
   Search (long_key 4); Search (long_key 9); Insert (replicate (Z.to_nat 2001) 1) rid0;
   Remove (long_key 1); Remove (long_key 1); Remove (long_key 2); Remove (long_key 5); Remove (long_key 4); Search (long_key 4); Search (long_key 3); Remove (long_key 3); Search (long_key 3)].
Definition answers0 : list answer := [Done; Done; Done; Done; Done; Refused; Found (Some rid0); Found None; Refused;
  Done; Refused; Done; Done; Done; Found None; Found (Some rid0); Done; Found None].

Lemma tree0_answers : (tree_answers (BE := MapPoolError) tree0 18 requests0 tree_pool0).1 = Ok answers0.
Proof. vm_compute. reflexivity. Qed.

Lemma tree_refines_map_witness : answers0 = (map_answers key_len0 requests0 ∅).1.
Proof.
  pose proof (tree_refines_map (BE := MapPoolError) key_len0 layout0 requests0 pool0 18 ltac:(unfold key_len0; lia) layout0_new
    ltac:(repeat constructor; apply rid0_valid) ltac:(cbn; lia)) as H.
  unfold runs in H. rewrite tree0_new in H. destruct H as (_ & _ & H). specialize (H tree_pool0 eq_refl). pose proof tree0_answers as Ha.
  destruct (tree_answers tree0 18 requests0 tree_pool0) as [[l|e|] p']; cbn [fst] in Ha; [|discriminate|discriminate].
  destruct H as [H _]. rewrite <- H. injection Ha as ->. reflexivity.
Defined.
